(* ===== verification/_CoqProject ===== *)
-Q . S2P
Prelude.v
Resources.v
CoreV1.v
Framework.v
Plugins.v
Scheduler.v
SchedulerFacts.v
SchedulerPass.v
SchedulerTheorems.v
Uids.v
Paths.v
ApiObjects.v
Admission.v
AdmissionFacts.v
Allocation.v
References.v
Store.v
Integrity.v
Tenancy.v
Policies.v
AdmissionDemo.v
Syscalls.v
Seccomp.v
SeccompTheorems.v
Bolt.v
BoltFacts.v
BoltInvariant.v
BoltTheorems.v
BoltContract.v
ApiService.v
ApiContract.v
BoltService.v
Authz.v
AuthzFacts.v
Escalation.v
AuthzTheorems.v
Guards.v
Services.v
ServicesTheorems.v
AppSet.v
DefaultChain.v
AppSetLoop.v
AppSetFacts.v
AppSetTheorems.v
AppSetRollout.v
AppSetSettle.v
GuardsTheorems.v
NodeCSR.v
DesiredState.v
DesiredFacts.v
DesiredTheorems.v
DesiredPush.v
NodeMetrics.v
NodeReports.v
NodeSessions.v
SessionTheorems.v
ReportTheorems.v
Workload.v
Agent.v
AgentTheorems.v
AgentFleet.v
HostFS.v
SecretFiles.v
SandboxConfig.v
Userns.v
UsernsTheorems.v
UsernsContract.v
SandboxTheorems.v
InodeFS.v
Unpack.v
UnpackTheorems.v
ImageStore.v
ImageTheorems.v
Volumes.v
Tenants.v
VolumeTheorems.v
Vault.v
VaultTheorems.v
SecretsPort.v
SecretsTheorems.v
