(* ===== verification/Prelude.v ===== *)
(** * Horchestra: a verification development

    Horchestra runs workloads on a fleet of Linux hosts.  A controller keeps the API objects
    (applications, nodes, namespaces, volumes, secrets, services) in a store; every write a
    client makes passes an admission chain; control loops act on what is stored, the
    scheduler being the one that assigns applications to nodes; an agent on each node runs
    the assigned applications through systemd, each inside a sandbox that installs a syscall
    filter before the workload starts.  This library models the parts that carry the
    decisions: the API service and the embedded store under it, the admission chain with all
    its plugins, authorization, the scheduler, the ApplicationSet and certificate loops, the
    server that nodes connect to, the agent with its rootless runtime, image store, volumes and
    secrets, and the sandbox's configuration and syscall filter.

    ** Files and the code they model (paths under src/)

    - [Prelude] (this file): int64 arithmetic with its wrap-around ([GoInt]), Go string
      operations ([GoStrings]), the [result] error monad and the [check*] notation of a
      validator's early return, the hint database [go], the rewrite database [bools], and
      lemmas on lists, maps and sorting shared by the rest.
    - [Resources]: api/core/v1/types.go, [ResourceAmounts] and its methods, over the class
      [Quantity] that stands for k8s.io/apimachinery's resource.Quantity (not part of the
      repository; its documented arithmetic is the law class [QuantityLaws], which
      [NanoQuantity] instantiates).
    - [CoreV1], [ApiObjects], [Uids], [Paths]: api/core/v1: the objects as records, their
      methods, and the validators of ids, paths and environment entries.
    - [Framework]: controller/loops/scheduler/framework/framework.go: statuses, cycle state,
      snapshot, and the extension-point runners, generic in the state the plugins thread.
    - [Plugins]: controller/loops/scheduler/plugins/*.go.  The class [Handle] is
      framework.Handle; [HandleLaws] is what plugins may rely on.  The scores that the code
      computes in float64 are computed with [SpecFloat]'s binary64.
    - [Scheduler]: controller/loops/scheduler/{scheduler,unschedulable}.go and the profile
      ([sched_New], [registry], [defaultProfile]).  The control plane is an environment that
      answers each call as a function of the history of calls; a pass records its calls as
      events.  [SchedulerFacts] states one cycle's specification ([outcome]) and proves
      [scheduleApp] refines it; [SchedulerPass] carries invariants over the queue;
      [SchedulerTheorems] holds the properties and their instances on a small cluster.
    - [Admission]: controller/admission/admission.go (requests, the chain), uid_allocation.go,
      policy.go, app_policy.go, finalizers.go, node_policy.go, capacity_check.go.
      [References]: reference_check.go, the nine cross-object rules.
    - [Store]: what the reviewed writes do to a store, as a step relation over the requests
      of controller/service (create, update, delete, release of a held object, status
      write).  The class [ReviewChain] is what the invariants need of a chain; the core chain
      is its instance.
    - [AdmissionFacts], [Allocation], [Integrity], [Tenancy], [Policies]: their theorems;
      [AdmissionDemo]: a concrete control plane.
    - [Syscalls]: sandbox/syscalls.go: the syscall name tables.  [Seccomp]:
      sandbox/seccomp.go: emission, policy, assembly and linking of the filter, with an
      interpreter of the classic-BPF instructions it uses.  [SeccompTheorems]: that the
      program decides what the reference decision function decides, and what the tables
      guarantee it.

    - [Bolt]: pkg/storage/bolt/bolt.go: buckets, history, version counters, transactions and
      the watch bus, one definition per operation of the store; [BoltFacts], [BoltInvariant]:
      lemmas and the invariant of every step; [BoltTheorems]: the properties; [BoltContract]:
      the abstract contract of api/storage and the refinement, with its module [BoltDemo] of
      instances.
    - [ApiService]: controller/service/service.go: every read and write of the API over the
      interface of api/storage/storage.go, a record of operations.  [ApiContract]: what a store
      promises ([StorageContract]) and what the service then keeps; [BoltService]: the embedded
      store honours it, with its module [ApiDemo], a served run.
    - [Authz]: controller/authz/{authz,nonresource,casbin}.go: request attributes, the fixed
      grants, the projection of RBAC objects and the decision.  The class [CasbinEngine] is the
      documented behaviour of the casbin library.  [Escalation]: the plugins that ask the
      authorizer (rbac_rules.go, rbac_escalation.go, secret_access.go, service_join.go).
      [AuthzFacts], [AuthzTheorems]: their theorems and, in module [AuthzDemo], instances.
    - [Guards]: secret_policy.go, csr_policy.go, child_ownership.go, node_restriction.go,
      feature gates and vault roles; [Services]: service_policy.go, service_address.go,
      service_vip.go over a model of net/netip (class [Netip], law class [NetipLaws]).
      [GuardsTheorems], [ServicesTheorems]: theorems, and instances in the modules [GuardsDemo]
      and [ServicesDemo].
    - [AppSet]: controller/loops/appset/{expand,init}.go and the pure parts of controller.go;
      [AppSetLoop]: the loop itself, as the list of writes a pass makes against a cluster that
      answers each one as a function of the writes before it.  [AppSetFacts],
      [AppSetTheorems], [AppSetRollout], [AppSetSettle]: rendering, ownership, rollout and
      deletion, convergence; module [AppSetDemo]: instances.
    - [DefaultChain]: applicationset.go and plugins.go: the set plugin, and the chain of
      seventeen plugins the controller runs, an instance of [ReviewChain], so the theorems on
      reviewed stores are theorems about it.
    - [NodeCSR]: controller/loops/nodecsr/csr.go, and its composition with the certificate
      policy of [Guards].

    - [DesiredState]: controller/nodeserver/server.go: the state a node is told to run, its
      signature, addresses and tokens, and the push loop; [DesiredFacts], [DesiredTheorems],
      [DesiredPush]: lemmas, properties, instances (module [NodeDemo]).  [NodeMetrics]:
      metrics.go.  [NodeSessions]: sessions and log streams as a step relation whose steps are
      the critical sections of the code; [SessionTheorems] (module [SessionDemo]).
      [NodeReports]: what a node may send up its stream and the writes it causes through
      [ApiService]; [ReportTheorems] (module [ReportDemo]).

    - [Workload]: agent/workload: the node's view of an application and its ids on the host.
      [Agent]: agent/agent.go and agent/reconcile.go: decoding a push, the reconcile pass and
      the reports, over the agent's ports (runtime, volumes, secrets, network), a record of
      operations.  [AgentTheorems]: what a pass does, against any ports and against the class
      [RuntimeContract]; [AgentFleet]: its composition with the node server, both ways,
      with instances in module [AgentDemo].
    - [HostFS]: the part of package os the runtime uses, over a tree of entries in which any
      operation may fail, with a Hoare logic whose invariant holds of every tree on the way.
      [SecretFiles]: agent/runtime/runtime.go and userns/runtime_linux.go: the secret
      environment, the secret volumes and the configuration file, with their theorems.
    - [SandboxConfig]: api/sandbox/config.go: the checks and the digest both sides share.
      [Userns]: agent/runtime/userns: the rootless runtime, the systemd manager being a record
      of operations; [UsernsTheorems]: backoff, retries, convergence; [UsernsContract]: it is
      a [RuntimeContract] on a manager that honours [ManagerLaws]; [SandboxTheorems]: agent and
      sandbox agree on the configuration, with instances in module [UsernsDemo].
    - [InodeFS]: the part of package os that images and volumes depend on: names and inodes,
      links resolved as the kernel does, hard links, modes and owners, calls that may be
      refused and that others may come between, and what writing under one directory keeps.
      [Unpack]: agent/oci/layout/unpack.go, the extractor of image layers; [UnpackTheorems]
      (module [UnpackDemo]).
    - [ImageStore]: agent/oci/layout/bounds.go, the limits of agent/runtime/limits.go, the
      image layout, the tenants' bindings, pulling, removing and purging
      (agent/oci, agent/oci/layout), each write able to fail halfway; [ImageTheorems]
      (module [ImageDemo]).
    - [Volumes]: agent/volume/volume.go; [Tenants]: what workloads may do to the volumes bound
      into them, as operations under the rights the kernel checks; [VolumeTheorems]:
      mounts, reclaim and the driver behind the agent's port (module [VolumeDemo]).
    - [Vault]: agent/secret/vault.go: the client, its cache and leases, and the refresher as
      steps between which the reconcile loop fetches; [SecretsPort]: agent/secret/secret.go;
      [VaultTheorems], [SecretsTheorems] (modules [VaultDemo], [SecretsDemo]).

    ** What the theorems show

    - Scheduling: the Assigns of a pass never take a node past the capacity it reported and
      never put two applications that repel each other in one domain; a cycle either assigns
      the application to a node every filter passed, its heartbeat judged by a clock reading of
      that cycle, and debits that node alone, or leaves the snapshot as it
      was, rolled-back reservations included; the assignments a pass makes are those of
      distinct pending applications in queue order, and its final snapshot is the initial
      one with exactly those debited; the queue is ordered by priority; volumes
      pin an application to the node that holds them; the best-scored node is the first best.
    - Framework: reserve is all-or-nothing, totals are the weighted sums of the plugins'
      scores, and a normalised score stays between 0 and 100.
    - Admission: an accepted application names no root id, has the shape its policy
      promises and only the finalizers the control plane sets; the capacity check never
      refuses a binding the scheduler's fit filter let through; the uid allocator ends and
      assigns a free id of the namespace's block.
    - The store: over every run of reviewed writes, one at a time, the namespaces, services and
      secrets objects need exist and a volume two applications mount is declared shared; while
      no client writes the block annotation, two namespaces never share a uid.
      [claimed_block_shares_uid] shows what happens when one does, and
      [racing_namespaces_share_uid] and [racing_mounts_share_volume] what two requests do that
      are reviewed side by side.
    - The embedded store: every reachable store is well formed; it refines the storage contract
      on every sequence of operations, failed commits included; a stale version token never
      overwrites; a revision is retained until ten newer ones are; a rollback gives back the
      revision.
    - The API service: over any store that honours the contract, and so over the embedded one,
      the same holds and tenants stay apart whatever is served, one request at a time; a request
      changes one object, the one it addresses, a refused one changes nothing, and a deletion is two-phase
      ([update_withdraws_deletion] and [rollback_ignores_address] show what the code allows).
    - The node server: a node is sent exactly what its workloads need, each token to the
      workload it is owed to, each address to one workload; a push skipped as unchanged hides
      nothing unless two texts collide under SHA-256; log streams stay within their budget in every interleaving; a live session is
      not displaced; and what a node reports changes its own Node and its own workloads only,
      with the controller's clock, ceilings and labels.  The instances show where the code
      falls short of its comments ([restart_reassigns_address],
      [deleted_workloads_hold_addresses], [close_samples_panic], [late_stream_stranded],
      [superseded_session_still_receives], [registration_keeps_labels]).
    - The agent: a pass asks of the runtime only what the push justifies; the generation it
      reports is the one last applied; composed with the node server, a clean pass leaves the
      node running exactly what is stored for it, and an object the agent knows by its uid
      is erased only when its node holds nothing of it ([stale_report_erases] shows what a report
      on an earlier object of the name does, [failed_listing_erases] what a dropped error does,
      [undecodable_torn_down] what a dropped decoding error does).
    - The rootless runtime: it honours the agent's contract on a manager whose killed units stop
      ([unkillable_reported_removed] shows one whose units do not); restarts keep the pace of the
      backoff; a job is retried within its budget and left alone exactly when it is reported as
      over; a unit is left alone exactly when it runs what is asked for; a removal comes
      back in the time its stops and calls are given;
      a secret rotates without a reader ever seeing half of it, and a rotated value restarts
      nothing; exactly which rendered configurations the sandbox accepts, and nothing else runs
      ([tmpfs_cap_dropped], [long_name_refused], [comma_path_refused],
      [unreported_run_refunded], [spent_job_rerun], [huge_grace_killed_at_once],
      [rounded_limit_restarts] show where the two sides or their comments differ).
    - Images: an archive changes nothing outside its layer's directory but times and attributes
      ([opaque_marker_escapes], [hard_link_time_escapes] show which); a binding never dangles
      and no tenant changes another's image or its layers, whatever fails halfway
      ([torn_layer_reused] shows the one thing taken for whole that is not); what a pull binds hashes to its digest and
      was within the limits as declared ([undeclared_layer_unbounded]).
    - Volumes: the bind source of a subPath cannot be moved by the workloads that own the
      volume, who act at any time but one ([sticky_lost]); a sweep destroys only what it may;
      an application with a token mount is never started ([token_app_never_applied]).
    - Secrets: a value handed out is the server's last answer for the secret's own store, path,
      roles and keys; no lease the node installed is forgotten; only the agent of its node unseals
      anything for an application, each file and variable being what it is said to be
      ([bad_keys_mint_users], [store_change_unseen], [idle_lease_kept],
      [consumers_share_credential], [fresh_hides_stale] show where the code falls short).
    - Authorization: the decision is RBAC's, plus the fixed grants and nothing else; an accepted
      RBAC write gives nobody a right its writer did not have; an accepted application uses only
      secrets its writer may read.  [escalation_fails_open] shows the one case that escapes.
    - ApplicationSets: what [Expand] answers on every input; children belong to their set and
      use only secrets it named; a pass writes only what its set owns; a rollout stays within
      its budget; a set is erased last; a pass settles against any admission that keeps what
      the loop compares; an accepted set has children the policies accept.
      [init_hold_prunes_services] shows what a held init step does to running services.
    - Pinning: ownership, certificate requesters, node identities and immutable secrets cannot
      be changed by the writers they bind; a certificate is only issued to a node renewing its
      own, over every history of the request ([comma_group_signed] shows why group names are
      assumed free of commas, [held_request_decided_again] that a hold is not final).
    - Services: distinct ports and catalog names, addresses nobody else has, and an allocator
      that finds the first free address ([vip_blocked_by_spelling] shows where the two disagree).
    - The syscall filter: totality of assembly (each error of the code on its branch),
      the meaning of allow and deny lists, and the decision of the linked program on every
      architecture, number and clone argument; that the name tables cover the denylists and
      the ceiling, and that both architectures deny the same calls.
    - API values: round trips and bounds of id ranges, path and environment validators
      against declarative specifications, workload ids, grace periods at int64 width.

    ** Bounds and fuel

    Integers of the code are [Z] with [wrap64] wherever the code's operation can leave the
    width.  Five loops take fuel (the retries of an unpack and the levels of a directory being
    made are counted by the code itself, and links are followed 40 or 255 times as the kernel
    and the library do), and none of their theorems is conditional on a result:
    [walk], the allocator's search, is given one step more than the ids or blocks already
    taken, which [uidAllocation_total] shows to be enough; [run], the BPF interpreter, is
    given the program's length, enough because its jumps only go forward; [trim_spaces] is
    given the string's length, enough because each step drops a byte; [scan], the address
    allocator's, is given one step more than there are addresses in use, which
    [firstFree_spec] shows to be enough; [scan_hosts], the routed range's, likewise
    ([scan_hosts_spec]).  Where the code ranges over a Go map the model takes
    the order of [map_to_list], or the order as an argument, and the theorems do not depend on
    it.

    ** Not modelled, and why

    Wire and process code (gRPC and HTTP handlers, D-Bus, mounts, user namespaces, network
    datapath, registry transport, PKI files), generated code, and the commands: what they do
    is done by system calls and libraries, which a model could only assume.  The controller
    takes requests side by side; the model serves the review and the write of one request
    together, and the instances named above show two runs that this leaves out.  Parameters: SHA-256 digests, JSON, PEM and X.509, the casbin
    engine, the systemd manager, the registry and the Vault server, text forms of addresses,
    label selectors, reverse DNS, the token minter.  The in-memory store is a fake for tests;
    the service catalog, the tables and the discovery documents render what is stored; schema
    defaults are read from struct tags by reflection. *)
From stdpp Require Import gmap strings list sorting pretty.
From Stdlib Require Import ZArith Ascii.

(** ** Go machine integers *)
Module GoInt.
#[local] Open Scope Z_scope.

Definition min_int64 : Z := - 2 ^ 63.
Definition max_int64 : Z := 2 ^ 63 - 1.
Definition min_int32 : Z := - 2 ^ 31.
Definition max_int32 : Z := 2 ^ 31 - 1.

(** Two's-complement wrap-around of an int64 operation's exact result. *)
Definition wrap64 (z : Z) : Z := (z + 2 ^ 63) mod 2 ^ 64 - 2 ^ 63.

Definition is_int64 (z : Z) : Prop := min_int64 <= z <= max_int64.
Definition is_int32 (z : Z) : Prop := min_int32 <= z <= max_int32.

Lemma wrap64_id z : is_int64 z → wrap64 z = z.
Proof.
  unfold is_int64, wrap64, min_int64, max_int64. intros H.
  rewrite Z.mod_small; lia.
Qed.

Lemma wrap64_is_int64 z : is_int64 (wrap64 z).
Proof.
  unfold is_int64, wrap64, min_int64, max_int64.
  pose proof (Z.mod_pos_bound (z + 2 ^ 63) (2 ^ 64)). lia.
Qed.

(** One overflow past the top of the range. *)
Lemma wrap64_over z : max_int64 < z ≤ max_int64 + 2 ^ 64 → wrap64 z = z - 2 ^ 64.
Proof.
  unfold wrap64, max_int64. intros H.
  replace (z + 2 ^ 63) with ((z - 2 ^ 63) + 1 * 2 ^ 64) by lia.
  rewrite Z.mod_add by done. rewrite Z.mod_small; lia.
Qed.

Lemma is_int32_int64 z : is_int32 z → is_int64 z.
Proof. unfold is_int32, is_int64, min_int32, max_int32, min_int64, max_int64. lia. Qed.

(** [Time.Sub]: the difference, saturated. *)
Definition time_Sub (t u : Z) : Z := Z.max min_int64 (Z.min max_int64 (t - u)).

(** Range side conditions. *)
Ltac int64 := unfold is_int32, is_int64, min_int32, max_int32, min_int64, max_int64 in *; lia.
End GoInt.
Export GoInt.

(** ** Automation *)
(** [go] closes the everyday goals of the components (ranges, orders, permutations). *)
Create HintDb go discriminated.
#[export] Hint Resolve wrap64_is_int64 is_int32_int64 : go.

(** [bools] turns the guards of the code, boolean by construction, into propositions. *)
#[export] Hint Rewrite andb_true_iff orb_true_iff negb_true_iff andb_false_iff orb_false_iff
  negb_false_iff Z.ltb_lt Z.leb_le Z.eqb_eq Z.ltb_ge Z.leb_gt Z.eqb_neq
  bool_decide_eq_true bool_decide_eq_false : bools.
Ltac bools := autorewrite with bools in *.

(** ** Errors as values *)
(** An opaque Go [error] is its message; a nil error is [None].  Where the code builds an
    error itself, the error is a constructor of that component's own error type. *)
Abbreviation error := string (only parsing).

Inductive result (E A : Type) : Type :=
| Ok (a : A)
| Err (e : E).
Arguments Ok {E A} a.
Arguments Err {E A} e.

Declare Scope go_scope.
Delimit Scope go_scope with go.

Notation "'let*' x := c 'in' k" :=
  (match c with Ok x => k | Err e => Err e end)
  (at level 10, x pattern, c at level 100, k at level 200) : go_scope.

(** [if err := c; err != nil { return err }] in a function that returns only an error. *)
Notation "'check*' c 'in' k" :=
  (match c with Some e => Some e | None => k end)
  (at level 10, c at level 100, k at level 200) : go_scope.
#[global] Open Scope go_scope.

Definition is_ok {E A} (r : result E A) : bool :=
  match r with Ok _ => true | Err _ => false end.

(** ** Strings *)
Module GoStrings.
(** [strings.Cut s sep] for a one-byte separator. *)
Fixpoint cut (sep : Ascii.ascii) (s : string) : option (string * string) :=
  match s with
  | EmptyString => None
  | String c s' =>
      if decide (c = sep) then Some (EmptyString, s')
      else match cut sep s' with
           | Some (a, b) => Some (String c a, b)
           | None => None
           end
  end.

(** [strings.Join]. *)
Fixpoint join (sep : string) (l : list string) : string :=
  match l with
  | [] => ""
  | [x] => x
  | x :: l' => x +:+ sep +:+ join sep l'
  end.

Fixpoint has_prefix (p s : string) : bool :=
  match p, s with
  | EmptyString, _ => true
  | String c p', String d s' => bool_decide (c = d) && has_prefix p' s'
  | _, _ => false
  end.

(** ** White space *)
(** The byte sequences of Unicode white space, for [strings.TrimSpace]. *)
Definition bytes (l : list nat) : string := foldr (λ n s, String (Ascii.ascii_of_nat n) s) "" l.
Definition whitespace : list string :=
  (bytes ∘ (λ n, [n]) <$> [9; 10; 11; 12; 13; 32]%nat) ++
  [bytes [194; 133]%nat; bytes [194; 160]%nat; bytes [225; 154; 128]%nat] ++
  ((λ n, bytes [226; 128; n]%nat) <$> seq 128 11) ++
  [bytes [226; 128; 168]%nat; bytes [226; 128; 169]%nat; bytes [226; 128; 175]%nat;
   bytes [226; 129; 159]%nat; bytes [227; 128; 128]%nat].

Fixpoint drop_string (n : nat) (s : string) : string :=
  match n, s with
  | S n', String _ s' => drop_string n' s'
  | _, _ => s
  end.

Fixpoint trim_spaces (fuel : nat) (spaces : list string) (s : string) : string :=
  match fuel with
  | O => s
  | S fuel' => match List.find (λ w, has_prefix w s) spaces with
               | Some w => trim_spaces fuel' spaces (drop_string (String.length w) s)
               | None => s
               end
  end.

Fixpoint reverse_onto (s acc : string) : string :=
  match s with EmptyString => acc | String c s' => reverse_onto s' (String c acc) end.
Definition reverse_string (s : string) : string := reverse_onto s "".

Definition TrimSpace (s : string) : string :=
  let left := trim_spaces (String.length s) whitespace s in
  reverse_string (trim_spaces (String.length left) (reverse_string <$> whitespace) (reverse_string left)).

(** Decimal rendering of an integer, [fmt]'s [%d] and [strconv.FormatInt]. *)
Definition itoa (z : Z) : string := pretty z.

(** The digits of an unsigned decimal literal, most significant first. *)
Fixpoint parse_digits (acc : Z) (s : string) : option Z :=
  match s with
  | EmptyString => Some acc
  | String c s' =>
      let n := Z.of_nat (Ascii.nat_of_ascii c) in
      if bool_decide (48 ≤ n ≤ 57)%Z then parse_digits (10 * acc + (n - 48)) s' else None
  end.

Definition parse_unsigned (s : string) : option Z :=
  match s with EmptyString => None | _ => parse_digits 0 s end.

(** [strconv.ParseInt s 10 64]: an optional sign, at least one digit, and the value in
    range; [None] is either of its errors (syntax, range). *)
Definition ParseInt (s : string) : option Z :=
  let v := match s with
           | String "-"%char s' => Z.opp <$> parse_unsigned s'
           | String "+"%char s' => parse_unsigned s'
           | _ => parse_unsigned s
           end in
  match v with
  | Some z => if bool_decide (min_int64 ≤ z ≤ max_int64)%Z then Some z else None
  | None => None
  end.

Fixpoint no_char (c : Ascii.ascii) (s : string) : bool :=
  match s with
  | EmptyString => true
  | String d s' => negb (bool_decide (d = c)) && no_char c s'
  end.

Lemma cut_app sep a b : no_char sep a = true → cut sep (a +:+ String sep b) = Some (a, b).
Proof.
  induction a as [|c a IH]; simpl; intros H; [by rewrite decide_True|].
  apply andb_true_iff in H as [H1 H2]. rewrite negb_true_iff, bool_decide_eq_false in H1.
  by rewrite decide_False, IH.
Qed.

Lemma cut_Some sep s a b :
  cut sep s = Some (a, b) → s = a +:+ String sep b ∧ no_char sep a = true.
Proof.
  revert a. induction s as [|c s IH]; simpl; intros a; [done|].
  case_decide as Hc; [intros; by simplify_eq|].
  destruct (cut sep s) as [[a' b']|]; [|done]. intros; simplify_eq.
  destruct (IH a' eq_refl) as [-> Hn]. simpl. by rewrite Hn, bool_decide_eq_false_2.
Qed.

Lemma no_char_app c a b : no_char c (a +:+ b) = no_char c a && no_char c b.
Proof. induction a as [|d a IH]; simpl; [done|]. by rewrite IH, andb_assoc. Qed.

Lemma pretty_N_char_spec (n : N) :
  (n < 10)%N →
  let z := Z.of_nat (Ascii.nat_of_ascii (pretty_N_char n)) in z = (48 + Z.of_N n)%Z.
Proof.
  intros H.
  assert (∀ k, (k < 10)%nat →
    Z.of_nat (Ascii.nat_of_ascii (pretty_N_char (N.of_nat k))) = (48 + Z.of_nat k)%Z) as Hk.
  { intros k Hk. do 10 (destruct k as [|k]; [reflexivity|]). lia. }
  specialize (Hk (N.to_nat n) ltac:(lia)). rewrite N2Nat.id in Hk. simpl. lia.
Qed.

Lemma parse_digits_pretty_go x s :
  parse_digits 0 (pretty_N_go x s) = parse_digits (Z.of_N x) s.
Proof.
  revert s. induction (N.lt_wf_0 x) as [x _ IH]; intros s.
  destruct (decide (x = 0)%N) as [->|Hx]; [by rewrite pretty_N_go_0|].
  rewrite pretty_N_go_step by lia.
  rewrite IH by (apply N.div_lt; lia). simpl.
  assert (x `mod` 10 < 10)%N as Hm by (apply N.mod_lt; lia).
  rewrite (pretty_N_char_spec _ Hm).
  rewrite bool_decide_eq_true_2 by (clear -Hm; generalize dependent (x `mod` 10)%N; lia).
  f_equal. pose proof (N.div_mod' x 10) as Hdm.
  rewrite N2Z.inj_div, N2Z.inj_mod. change (Z.of_N 10) with 10%Z.
  pose proof (Z.div_mod (Z.of_N x) 10 ltac:(done)). lia.
Qed.

Lemma no_char_pretty_go c x s :
  (∀ n, (n < 10)%N → pretty_N_char n ≠ c) →
  no_char c s = true → no_char c (pretty_N_go x s) = true.
Proof.
  intros Hc. revert s. induction (N.lt_wf_0 x) as [x _ IH]; intros s Hs.
  destruct (decide (x = 0)%N) as [->|Hx]; [by rewrite pretty_N_go_0|].
  rewrite pretty_N_go_step by lia. apply IH; [apply N.div_lt; lia|]. simpl.
  rewrite bool_decide_eq_false_2; [done|]. apply Hc, N.mod_lt. lia.
Qed.

Lemma itoa_pos z : (0 < z)%Z → itoa z = pretty_N_go (Z.to_N z) "".
Proof.
  intros Hz. unfold itoa, pretty, pretty_Z.
  destruct z as [|p|p]; [done| |done].
  change (pretty (N.pos p) = pretty_N_go (N.pos p) ""). unfold pretty, pretty_N.
  by rewrite decide_False.
Qed.

Lemma parse_unsigned_digits s z : parse_digits 0 s = Some z → s ≠ "" → parse_unsigned s = Some z.
Proof. by destruct s. Qed.

Lemma ParseInt_itoa z : (0 < z ≤ max_int64)%Z → ParseInt (itoa z) = Some z.
Proof.
  intros Hz. rewrite itoa_pos by lia.
  pose proof (parse_digits_pretty_go (Z.to_N z) "") as Hp. simpl in Hp.
  rewrite Z2N.id in Hp by lia.
  assert (∀ c, (∀ n, (n < 10)%N → pretty_N_char n ≠ c) →
    no_char c (pretty_N_go (Z.to_N z) "") = true) as Hno
    by (intros; by apply no_char_pretty_go).
  assert (Hdig : ∀ c, (Ascii.nat_of_ascii c < 48)%nat → ∀ n, (n < 10)%N → pretty_N_char n ≠ c).
  { intros c Hc n Hn <-. pose proof (pretty_N_char_spec n Hn) as E. simpl in E. lia. }
  pose proof (Hno "-"%char (Hdig "-"%char ltac:(apply Nat.ltb_lt; reflexivity))) as Hm.
  pose proof (Hno "+"%char (Hdig "+"%char ltac:(apply Nat.ltb_lt; reflexivity))) as Hpl.
  destruct (pretty_N_go (Z.to_N z) "") as [|c s] eqn:E.
  { simpl in Hp. simplify_eq. lia. }
  cbn [no_char] in Hm, Hpl.
  assert (ParseInt (String c s) =
    match parse_unsigned (String c s) with
    | Some v => if bool_decide (min_int64 ≤ v ≤ max_int64)%Z then Some v else None
    | None => None end) as ->.
  { destruct (decide (c = "-"%char)) as [->|Hn1]; [done|].
    destruct (decide (c = "+"%char)) as [->|Hn2]; [done|].
    unfold ParseInt. by destruct c as [[] [] [] [] [] [] [] []]. }
  rewrite (parse_unsigned_digits _ z Hp) by done.
  rewrite bool_decide_eq_true_2; [done|]. unfold min_int64. lia.
Qed.

Lemma no_slash_itoa z : (0 < z)%Z → no_char "/"%char (itoa z) = true.
Proof.
  intros Hz. rewrite itoa_pos by lia. apply no_char_pretty_go; [|done].
  intros n Hn E. pose proof (pretty_N_char_spec n Hn) as E'. rewrite E in E'.
  cbv zeta in E'. change (Z.of_nat (nat_of_ascii "/"%char)) with 47%Z in E'. lia.
Qed.
End GoStrings.

(** ** Stable sorting by a [less] function *)
Section StableSort.
Context {A : Type} (less : A → A → bool).

Fixpoint insert_stable (x : A) (l : list A) : list A :=
  match l with
  | [] => [x]
  | y :: l' => if less y x then y :: insert_stable x l' else x :: y :: l'
  end.

Definition sort_stable (l : list A) : list A := foldr insert_stable [] l.

Lemma insert_stable_perm x l : insert_stable x l ≡ₚ x :: l.
Proof.
  induction l as [|y l IH]; simpl; [done|].
  destruct (less y x); [|done]. rewrite IH. by rewrite Permutation_swap.
Qed.

Lemma sort_stable_perm l : sort_stable l ≡ₚ l.
Proof.
  induction l as [|x l IH]; simpl; [done|]. by rewrite insert_stable_perm, IH.
Qed.

(** A strict weak order: what [slices.SortFunc] asks of its comparison. *)
Record StrictWeak : Prop := {
  sw_irrefl : ∀ x, less x x = false;
  sw_trans : ∀ x y z, less x y = true → less y z = true → less x z = true;
  sw_incomp : ∀ x y z, less x y = false → less y z = false → less x z = false;
}.

Definition not_after (x y : A) : Prop := less y x = false.

Context (Hsw : StrictWeak).

Lemma less_asym x y : less x y = true → less y x = false.
Proof.
  intros H. destruct (less y x) eqn:E; [|done].
  rewrite <-(sw_irrefl Hsw x). symmetry. by apply (sw_trans Hsw x y x).
Qed.

#[export] Instance not_after_trans : Transitive not_after.
Proof. intros x y z Hxy Hyz. by apply (sw_incomp Hsw z y x). Qed.

Lemma insert_stable_sorted x l :
  StronglySorted not_after l → StronglySorted not_after (insert_stable x l).
Proof.
  induction 1 as [|y l Hl IH Hy]; simpl; [repeat constructor|].
  destruct (less y x) eqn:E.
  - constructor; [done|].
    rewrite insert_stable_perm. constructor; [|done]. by apply less_asym.
  - constructor; [by constructor|].
    constructor; [done|]. eapply Forall_impl; [exact Hy|].
    intros z Hz. by apply (not_after_trans x y z).
Qed.

Lemma sort_stable_sorted l : StronglySorted not_after (sort_stable l).
Proof. induction l; simpl; [constructor|]. by apply insert_stable_sorted. Qed.

(** Stability: elements equivalent to [k] keep their input order. *)
Definition equivalent (k x : A) : bool := negb (less k x) && negb (less x k).

Lemma equivalent_less k x y :
  equivalent k x = true → equivalent k y = true → less y x = false.
Proof.
  unfold equivalent. rewrite !andb_true_iff, !negb_true_iff.
  intros [H1 H2] [H3 H4]. by apply (sw_incomp Hsw y k x).
Qed.

Lemma insert_stable_filter k x l :
  List.filter (equivalent k) (insert_stable x l) =
  (if equivalent k x then [x] else []) ++ List.filter (equivalent k) l.
Proof.
  induction l as [|y l IH]; simpl; [by destruct (equivalent k x)|].
  destruct (less y x) eqn:E; simpl; [|by destruct (equivalent k x)].
  rewrite IH. destruct (equivalent k y) eqn:Ey; [|done].
  destruct (equivalent k x) eqn:Ex; [|done].
  by rewrite (equivalent_less k x y Ex Ey) in E.
Qed.

Lemma sort_stable_filter k l :
  List.filter (equivalent k) (sort_stable l) = List.filter (equivalent k) l.
Proof.
  induction l as [|x l IH]; simpl; [done|].
  rewrite insert_stable_filter, IH. by destruct (equivalent k x).
Qed.
End StableSort.

#[export] Hint Resolve sort_stable_perm sort_stable_sorted sort_stable_filter : go.

(** ** Byte-wise string order *)
Lemma string_ltb_leb a b : String.ltb a b = negb (String.leb b a).
Proof.
  unfold String.ltb, String.leb. rewrite (String.compare_antisym b a).
  by destruct (a ?= b)%string.
Qed.

Lemma string_leb_refl a : String.leb a a = true.
Proof. apply Is_true_true. change (String.le a a). reflexivity. Qed.

Lemma string_leb_trans a b c :
  String.leb a b = true → String.leb b c = true → String.leb a c = true.
Proof.
  rewrite <-!Is_true_true. change (String.le a b → String.le b c → String.le a c).
  intros ??. by transitivity b.
Qed.

Lemma string_leb_antisym a b : String.leb a b = true → String.leb b a = true → a = b.
Proof.
  rewrite <-!Is_true_true. change (String.le a b → String.le b a → a = b).
  intros ??. by apply (anti_symm String.le).
Qed.

Lemma string_leb_total a b : String.leb a b = true ∨ String.leb b a = true.
Proof. apply String.leb_total. Qed.

(** Sorting by a string key is a strict weak order. *)
Lemma string_key_strict_weak {A} (key : A → string) :
  StrictWeak (λ x y, String.ltb (key x) (key y)).
Proof.
  split; intros *; rewrite ?string_ltb_leb, ?negb_true_iff, ?negb_false_iff.
  - apply string_leb_refl.
  - intros Hxy Hyz. destruct (String.leb (key z) (key x)) eqn:E; [|done].
    destruct (string_leb_total (key x) (key y)) as [H|H]; [|congruence].
    rewrite <-Hyz. symmetry. by apply (string_leb_trans _ (key x)).
  - intros Hyx Hzy. by apply (string_leb_trans _ (key y)).
Qed.

#[export] Hint Resolve string_key_strict_weak string_leb_refl : go.

(** ** Lists *)
Lemma existsb_elem {A} (f : A → bool) l : existsb f l = true ↔ ∃ x, x ∈ l ∧ f x = true.
Proof. rewrite existsb_exists. by setoid_rewrite list_elem_of_In. Qed.

Lemma existsb_elem_false {A} (f : A → bool) l : existsb f l = false ↔ ∀ x, x ∈ l → f x = false.
Proof.
  rewrite <-not_true_iff_false, existsb_elem. split.
  - intros H x Hx. destruct (f x) eqn:E; [|done]. destruct H; eauto.
  - intros H (x & Hx & E). by rewrite H in E.
Qed.

Lemma forallb_elem {A} (f : A → bool) l : forallb f l = true ↔ ∀ x, x ∈ l → f x = true.
Proof. rewrite forallb_forall. by setoid_rewrite list_elem_of_In. Qed.

Lemma List_filter_sublist {A} (f : A → bool) l : List.filter f l `sublist_of` l.
Proof. induction l as [|x l IH]; simpl; [done|]. destruct (f x); [by apply sublist_skip|by apply sublist_cons]. Qed.

Lemma filter_elem {A} (f : A → bool) l x : x ∈ List.filter f l ↔ x ∈ l ∧ f x = true.
Proof. rewrite !list_elem_of_In. apply filter_In. Qed.

Lemma elem_of_alter {A} (f : A → A) (l : list A) i x :
  x ∈ alter f i l → x ∈ l ∨ ∃ y, l !! i = Some y ∧ x = f y.
Proof.
  rewrite !list_elem_of_lookup. intros [j Hj].
  destruct (decide (i = j)) as [->|].
  - rewrite list_lookup_alter_eq in Hj. destruct (l !! j) eqn:E; simplify_eq/=. eauto.
  - rewrite list_lookup_alter_ne in Hj by done. eauto.
Qed.

Lemma StronglySorted_weaken {A} (R R' : A → A → Prop) l :
  (∀ a b, R a b → R' a b) → StronglySorted R l → StronglySorted R' l.
Proof. intros HR. induction 1; constructor; [done|]. eapply Forall_impl; eauto. Qed.

Lemma foldl_ext_fun {A B} (f g : A → B → A) a l :
  (∀ a b, f a b = g a b) → foldl f a l = foldl g a l.
Proof. intros H. revert a. induction l as [|b l IH]; intros a; simpl; [done|]. by rewrite H, IH. Qed.
