(* ===== verification/Resources.v ===== *)
(** * Resource quantities and amounts

    [resource.Quantity] comes from k8s.io/apimachinery, which is not part of this
    repository: it is the interface [Quantity], with its documented behaviour (a quantity
    denotes a fixed-point number; arithmetic and comparison act on that number) as the
    law class [QuantityLaws].  On top of it stand the repository's own
    [ResourceAmounts] and [ResourceRequirements] (api/core/v1/types.go). *)
From stdpp Require Import gmap strings list.
From Stdlib Require Import ZArith.
From S2P Require Import Prelude.

(** ** The quantity interface *)
Class Quantity := {
  Qty : Type;
  q_zero : Qty;
  q_IsZero : Qty → bool;
  q_Add : Qty → Qty → Qty;
  q_Sub : Qty → Qty → Qty;
  q_Cmp : Qty → Qty → Z;
  q_Sign : Qty → Z;
  q_MilliValue : Qty → Z;
  q_Value : Qty → Z;
  q_String : Qty → string;
}.

(** What the code relies on: a quantity denotes an integral number of nano-units. *)
Class QuantityLaws (HQ : Quantity) := {
  q_nano : Qty → Z;
  q_nano_zero : q_nano q_zero = 0%Z;
  q_nano_add a b : q_nano (q_Add a b) = (q_nano a + q_nano b)%Z;
  q_nano_sub a b : q_nano (q_Sub a b) = (q_nano a - q_nano b)%Z;
  q_IsZero_spec a : q_IsZero a = true ↔ q_nano a = 0%Z;
  q_Cmp_spec a b : q_Cmp a b = Z.sgn (q_nano a - q_nano b);
  q_Sign_spec a : q_Sign a = Z.sgn (q_nano a);
}.

(** ** ResourceAmounts *)
Section Amounts.
Context {HQ : Quantity}.

Record ResourceAmounts := mkAmounts { ra_CPU : Qty; ra_Memory : Qty }.

Definition ra_zero : ResourceAmounts := mkAmounts q_zero q_zero.

(** types.go [ResourceAmounts.IsZero]. *)
Definition ra_IsZero (a : ResourceAmounts) : bool :=
  q_IsZero (ra_CPU a) && q_IsZero (ra_Memory a).

(** types.go [ResourceAmounts.Add]: the operands are deep-copied, never mutated. *)
Definition ra_Add (a b : ResourceAmounts) : ResourceAmounts :=
  mkAmounts (q_Add (ra_CPU a) (ra_CPU b)) (q_Add (ra_Memory a) (ra_Memory b)).

(** types.go [overResource]. *)
Definition overResource (requested capacity : Qty) (unconstrainedZero : bool) : bool :=
  if q_IsZero capacity then negb unconstrainedZero && negb (q_IsZero requested)
  else (0 <? q_Cmp requested capacity)%Z.

(** types.go [ResourceAmounts.Exceeds]. *)
Definition ra_Exceeds (a capacity : ResourceAmounts) (unconstrainedZero : bool) : list string :=
  (if overResource (ra_CPU a) (ra_CPU capacity) unconstrainedZero
   then ["cpu " +:+ q_String (ra_CPU a) +:+ " > " +:+ q_String (ra_CPU capacity)] else []) ++
  (if overResource (ra_Memory a) (ra_Memory capacity) unconstrainedZero
   then ["memory " +:+ q_String (ra_Memory a) +:+ " > " +:+ q_String (ra_Memory capacity)] else []).

Record ResourceRequirements := mkRequirements {
  rr_Requests : ResourceAmounts;
  rr_Limits : ResourceAmounts;
}.

(** types.go [ResourceRequirements.EffectiveRequests]. *)
Definition EffectiveRequests (r : ResourceRequirements) : ResourceAmounts :=
  let req := rr_Requests r in
  let cpu := if q_IsZero (ra_CPU req) then ra_CPU (rr_Limits r) else ra_CPU req in
  let mem := if q_IsZero (ra_Memory req) then ra_Memory (rr_Limits r) else ra_Memory req in
  mkAmounts cpu mem.

(** ** Amounts up to the number they denote *)
Context {HL : QuantityLaws HQ}.

(** Two amounts are equivalent when both fields denote the same number: a quantity
    also caches a string and a format, which arithmetic does not preserve. *)
#[export] Instance ra_equiv : Equiv ResourceAmounts := λ a b,
  q_nano (ra_CPU a) = q_nano (ra_CPU b) ∧ q_nano (ra_Memory a) = q_nano (ra_Memory b).

#[export] Instance ra_equivalence : Equivalence (≡@{ResourceAmounts}).
Proof.
  split; unfold equiv, ra_equiv; [done| |].
  - by intros a b [-> ->].
  - by intros a b c [-> ->] [-> ->].
Qed.

#[export] Instance ra_Add_proper : Proper ((≡) ==> (≡) ==> (≡)) ra_Add.
Proof.
  intros a a' [E1 E2] b b' [E3 E4]. split; simpl; rewrite !q_nano_add; congruence.
Qed.

(** [a] fits in [cap]: the arithmetic meaning of "not exceeded" per dimension. *)
Definition fits (a cap : ResourceAmounts) : Prop :=
  (q_nano (ra_CPU a) ≤ q_nano (ra_CPU cap))%Z ∧
  (q_nano (ra_Memory a) ≤ q_nano (ra_Memory cap))%Z.

Lemma overResource_strict_spec r c :
  overResource r c false = false →
  (q_nano r ≤ q_nano c)%Z ∨ q_nano c = 0%Z ∧ q_nano r = 0%Z.
Proof.
  unfold overResource. destruct (q_IsZero c) eqn:Ec.
  - simpl. rewrite negb_false_iff. intros Hr. right.
    apply q_IsZero_spec in Ec, Hr. done.
  - rewrite q_Cmp_spec, Z.ltb_ge. intros H. left.
    destruct (Z.sgn_spec (q_nano r - q_nano c)); lia.
Qed.

Lemma overResource_spec r c uz :
  overResource r c uz = true ↔
  (if decide (q_nano c = 0%Z) then uz = false ∧ q_nano r ≠ 0%Z
   else (q_nano c < q_nano r)%Z).
Proof.
  unfold overResource. destruct (q_IsZero c) eqn:Ec.
  - apply q_IsZero_spec in Ec. rewrite decide_True by done.
    rewrite andb_true_iff, !negb_true_iff. split; intros [-> Hr]; split; auto.
    + intros Hz. apply q_IsZero_spec in Hz. congruence.
    + destruct (q_IsZero r) eqn:Er; [|done]. by apply q_IsZero_spec in Er.
  - rewrite decide_False.
    2:{ intros Hz. apply q_IsZero_spec in Hz. congruence. }
    rewrite q_Cmp_spec, Z.ltb_lt. pose proof (Z.sgn_spec (q_nano r - q_nano c)). lia.
Qed.

Lemma ra_Exceeds_nil a cap uz :
  ra_Exceeds a cap uz = [] ↔
  overResource (ra_CPU a) (ra_CPU cap) uz = false ∧
  overResource (ra_Memory a) (ra_Memory cap) uz = false.
Proof.
  unfold ra_Exceeds.
  destruct (overResource (ra_CPU a) _ uz), (overResource (ra_Memory a) _ uz); simpl;
    split; (done || intros [??]; done).
Qed.

Lemma ra_Exceeds_strict_fits a cap : ra_Exceeds a cap false = [] → fits a cap.
Proof.
  rewrite ra_Exceeds_nil. intros [H1 H2].
  split; [destruct (overResource_strict_spec _ _ H1)|destruct (overResource_strict_spec _ _ H2)]; lia.
Qed.

#[export] Instance fits_proper : Proper ((≡) ==> (≡) ==> iff) fits.
Proof. intros a a' [E1 E2] b b' [E3 E4]. unfold fits. by rewrite E1, E2, E3, E4. Qed.
End Amounts.
#[global] Arguments ResourceAmounts {HQ}.
#[global] Arguments ResourceRequirements {HQ}.

(** ** A concrete quantity: integral nano-units, used by the examples and witnesses *)
Module NanoQuantity.
#[local] Open Scope Z_scope.
Definition ceil_div (a b : Z) : Z := - (- a / b).

#[export] Instance nano : Quantity := {|
  Qty := Z;
  q_zero := 0;
  q_IsZero := Z.eqb 0;
  q_Add := Z.add;
  q_Sub := Z.sub;
  q_Cmp := λ a b, Z.sgn (a - b);
  q_Sign := Z.sgn;
  q_MilliValue := λ a, ceil_div a 1000000;
  q_Value := λ a, ceil_div a 1000000000;
  q_String := λ a, GoStrings.itoa a;
|}.

#[export, refine] Instance nano_laws : QuantityLaws nano := {| q_nano := λ a : @Qty nano, a |}.
Proof. all: try done. intros a. change (Z.eqb 0 a = true ↔ a = 0). rewrite Z.eqb_eq. lia. Defined.

Definition milli (n : Z) : @Qty nano := n * 1000000.
Definition unit_ (n : Z) : @Qty nano := n * 1000000000.
End NanoQuantity.
