(* ===== verification/CoreV1.v ===== *)
(** * The core API types (api/core/v1)

    The objects the control plane stores, as records with the source's fields, and the
    pure decisions the API package itself takes about them: when a workload is finished,
    what a stop waits for, which labels a placement rule reads, which volume a mount
    resolves to.  A nil pointer is [None]; a Go map is a [gmap]; a [time.Time] is the
    number of nanoseconds since Go's zero time, so that [IsZero] is [= 0].

    [ApplicationSpec.Values] (free-form configuration no modelled code reads) is left
    out of the record. *)
From stdpp Require Import gmap strings list sorting.
From Stdlib Require Import ZArith Ascii.
From S2P Require Import Prelude Resources.

(** ** Metadata *)
Record OwnerReference := mkOwnerRef {
  or_APIVersion : string;
  or_Kind : string;
  or_Name : string;
  or_UID : string;
  or_Controller : option bool;
}.

Record ObjectMeta := mkObjectMeta {
  om_Namespace : string;
  om_Name : string;
  om_UID : string;
  om_ResourceVersion : string;
  om_Generation : Z;
  om_Labels : gmap string string;
  om_Annotations : gmap string string;
  om_CreationTimestamp : Z;
  om_DeletionTimestamp : option Z;
  om_Finalizers : list string;
  om_OwnerReferences : list OwnerReference;
}.

(** The metadata of a zero object. *)
Definition zero_meta : ObjectMeta := mkObjectMeta "" "" "" "" 0 ∅ ∅ 0 None [] [].

#[export] Instance OwnerReference_eq_dec : EqDecision OwnerReference.
Proof. solve_decision. Defined.
#[export] Instance ObjectMeta_eq_dec : EqDecision ObjectMeta.
Proof. solve_decision. Defined.

(** ** Affinity (api/core/v1/affinity.go) *)
Definition LabelDomain : string := "horchestra.io/".
Definition LabelHostname : string := LabelDomain +:+ "hostname".
Definition LabelOS : string := LabelDomain +:+ "os".
Definition LabelArch : string := LabelDomain +:+ "arch".

Definition NodeSelectorOpIn : string := "In".
Definition NodeSelectorOpNotIn : string := "NotIn".
Definition NodeSelectorOpExists : string := "Exists".
Definition NodeSelectorOpDoesNotExist : string := "DoesNotExist".

Record NodeSelectorRequirement := mkNodeSelectorRequirement {
  nsr_Key : string;
  nsr_Operator : string;
  nsr_Values : list string;
}.

Record NodeSelector := mkNodeSelector {
  nsel_MatchLabels : gmap string string;
  nsel_MatchExpressions : list NodeSelectorRequirement;
}.

Record PreferredNodeTerm := mkPreferredNodeTerm {
  pnt_Weight : Z;
  pnt_Preference : NodeSelector;
}.

Record NodeAffinity := mkNodeAffinity {
  na_Required : option NodeSelector;
  na_Preferred : list PreferredNodeTerm;
}.

Record WorkloadAffinityTerm := mkWorkloadAffinityTerm {
  wat_LabelSelector : gmap string string;
  wat_TopologyKey : string;
}.

Record WeightedWorkloadAffinityTerm := mkWeightedWorkloadAffinityTerm {
  wwat_Weight : Z;
  wwat_Term : WorkloadAffinityTerm;
}.

Record WorkloadAffinity := mkWorkloadAffinity {
  wa_Required : list WorkloadAffinityTerm;
  wa_Preferred : list WeightedWorkloadAffinityTerm;
}.

Record Affinity := mkAffinity {
  af_NodeAffinity : option NodeAffinity;
  af_WorkloadAffinity : option WorkloadAffinity;
  af_WorkloadAntiAffinity : option WorkloadAffinity;
}.

(** ** Lifecycle and placement *)
Definition RestartAlways : string := "Always".
Definition RestartOnFailure : string := "OnFailure".
Definition RestartNever : string := "Never".

Definition DefaultTerminationGracePeriodSeconds : Z := 30.

Record Lifecycle := mkLifecycle {
  lc_RestartPolicy : string;
  lc_TerminationGracePeriodSeconds : option Z;
  lc_ActiveDeadlineSeconds : option Z;
  lc_BackoffLimit : option Z;
}.

(** [Lifecycle.GracePeriod], in nanoseconds: an int64 product, as [time.Duration] is. *)
Definition GracePeriod (l : Lifecycle) : Z :=
  let secs := match lc_TerminationGracePeriodSeconds l with
              | Some s => if (0 <=? s)%Z then s else DefaultTerminationGracePeriodSeconds
              | None => DefaultTerminationGracePeriodSeconds
              end in
  wrap64 (secs * 1000000000).

Definition RunToCompletion (l : Lifecycle) : bool :=
  bool_decide (lc_RestartPolicy l = RestartNever).

Definition Retries (l : Lifecycle) : Z :=
  match lc_BackoffLimit l with
  | Some n => if (n <? 0)%Z then 0%Z else n
  | None => 0%Z
  end.

Record Placement := mkPlacement {
  pl_NodeName : string;
  pl_NodeSelector : gmap string string;
  pl_Affinity : option Affinity;
  pl_Priority : option Z;
}.

(** ** Application *)
Record EnvSecretRef := mkEnvSecretRef {
  esr_Name : string;
  esr_Key : string;
  esr_Prefix : string;
  esr_Optional : option bool;
}.

Record EnvVar := mkEnvVar {
  ev_Name : string;
  ev_Value : string;
  ev_SecretRef : option EnvSecretRef;
}.

Definition EnvSecretAllKeys : string := "*".

Definition IsWildcard (r : EnvSecretRef) : bool := bool_decide (esr_Key r = EnvSecretAllKeys).

Definition IsOptional (r : EnvSecretRef) : bool := default false (esr_Optional r).

Record Port := mkPort { port_Name : string; port_Port : Z }.

Record KeyToPath := mkKeyToPath { ktp_Key : string; ktp_Path : string; ktp_Mode : option Z }.

Record SecurityContext := mkSecurityContext {
  sc_RunAsUser : option Z;
  sc_RunAsGroup : option Z;
}.

Definition AppPhasePending : string := "Pending".
Definition AppPhaseRunning : string := "Running".
Definition AppPhaseSucceeded : string := "Succeeded".
Definition AppPhaseFailed : string := "Failed".
Definition AppPhaseTerminating : string := "Terminating".
Definition AppPhaseTerminated : string := "Terminated".

Definition VolumeTypePV : string := "pv".
Definition VolumeTypeTmpfs : string := "tmpfs".
Definition VolumeTypeSecret : string := "secret".
Definition VolumeTypeToken : string := "token".
Definition TokenAudienceAPI : string := "horchestra".

Record ApplicationStatus := mkAppStatus {
  st_ObservedGeneration : Z;
  st_Phase : string;
  st_Message : string;
  st_Address : string;
  st_ExitCode : option Z;
  st_FinishedAt : Z;
  st_Attempts : Z;
}.

Definition appstatus_IsZero (s : ApplicationStatus) : bool :=
  bool_decide (st_Phase s = "") && bool_decide (st_Message s = "").

(** [TerminalPhase]. *)
Definition TerminalPhase (phase : string) (lifecycle : Lifecycle) (attempts : Z) : bool :=
  if bool_decide (phase = AppPhaseSucceeded) then true
  else if negb (bool_decide (phase = AppPhaseFailed)) || negb (RunToCompletion lifecycle) then false
  else (Retries lifecycle <? Z.max attempts 1)%Z.

Section Objects.
Context {HQ : Quantity}.

Record VolumeSource := mkVolumeSource {
  vs_Type : string;
  vs_Name : string;
  vs_Size : Qty;
  vs_Items : list KeyToPath;
  vs_DefaultMode : option Z;
  vs_Optional : option bool;
  vs_Audience : string;
}.

Record VolumeMount := mkVolumeMount {
  vm_Volume : VolumeSource;
  vm_MountPath : string;
  vm_ReadOnly : bool;
  vm_SubPath : string;
}.

Definition IsPV (m : VolumeMount) : bool := bool_decide (vs_Type (vm_Volume m) = VolumeTypePV).
Definition IsTmpfs (m : VolumeMount) : bool := bool_decide (vs_Type (vm_Volume m) = VolumeTypeTmpfs).
Definition IsSecret (m : VolumeMount) : bool := bool_decide (vs_Type (vm_Volume m) = VolumeTypeSecret).
Definition IsToken (m : VolumeMount) : bool := bool_decide (vs_Type (vm_Volume m) = VolumeTypeToken).

(** [VolumeMount.TokenAudience]. *)
Definition TokenAudience (m : VolumeMount) : string :=
  if bool_decide (vs_Audience (vm_Volume m) = "") then TokenAudienceAPI
  else vs_Audience (vm_Volume m).

(** [VolumeMount.PVName]. *)
Definition PVName (m : VolumeMount) (appName : string) : string :=
  if bool_decide (vs_Name (vm_Volume m) = "") then appName else vs_Name (vm_Volume m).

Record ApplicationSpec := mkAppSpec {
  sp_Image : string;
  sp_Command : list string;
  sp_Args : list string;
  sp_Env : list EnvVar;
  sp_Ports : list Port;
  sp_Resources : ResourceRequirements;
  sp_Lifecycle : Lifecycle;
  sp_Placement : Placement;
  sp_HostNetwork : option bool;
  sp_ServiceName : string;
  sp_RuntimeClassName : string;
  sp_SecurityContext : option SecurityContext;
  sp_Volumes : list VolumeMount;
}.

Record Application := mkApplication {
  app_meta : ObjectMeta;
  app_Spec : ApplicationSpec;
  app_Status : ApplicationStatus;
}.

Definition app_Namespace (a : Application) : string := om_Namespace (app_meta a).
Definition app_Name (a : Application) : string := om_Name (app_meta a).
Definition app_Labels (a : Application) : gmap string string := om_Labels (app_meta a).
Definition app_NodeName (a : Application) : string := pl_NodeName (sp_Placement (app_Spec a)).
Definition app_Affinity (a : Application) : option Affinity :=
  pl_Affinity (sp_Placement (app_Spec a)).
Definition app_requests (a : Application) : ResourceAmounts :=
  EffectiveRequests (sp_Resources (app_Spec a)).

(** [Application.Deleting]. *)
Definition Deleting (a : Application) : bool :=
  match om_DeletionTimestamp (app_meta a) with Some _ => true | None => false end.

(** [Application.OnHostNetwork]. *)
Definition OnHostNetwork (a : Application) : bool := default true (sp_HostNetwork (app_Spec a)).

(** [Application.Finished]. *)
Definition Finished (a : Application) : bool :=
  TerminalPhase (st_Phase (app_Status a)) (sp_Lifecycle (app_Spec a)) (st_Attempts (app_Status a)) &&
  bool_decide (st_ObservedGeneration (app_Status a) = om_Generation (app_meta a)).

(** [Application.TokenAudiences]: the distinct audiences, sorted. *)
Definition TokenAudiences (a : Application) : list string :=
  let seen : gset string :=
    foldl (λ s m, if IsToken m then {[TokenAudience m]} ∪ s else s) ∅ (sp_Volumes (app_Spec a)) in
  merge_sort String.le (elements seen).

(** ** Node and PersistentVolume *)
Record Platform := mkPlatform { pf_OS : string; pf_Arch : string }.

Record NodeStatus := mkNodeStatus {
  ns_Capacity : ResourceAmounts;
  ns_Allocated : ResourceAmounts;
  ns_OS : string;
  ns_IP : string;
  ns_Ready : bool;
  ns_Heartbeat : Z;
  ns_Runtimes : list string;
  ns_Platform : Platform;
  ns_RoutedNetwork : bool;
  ns_Labels : gmap string string;
}.

Record Node := mkNode {
  node_meta : ObjectMeta;
  node_Unschedulable : bool;
  node_Status : NodeStatus;
}.

Definition node_Name (n : Node) : string := om_Name (node_meta n).
Definition node_Labels (n : Node) : gmap string string := om_Labels (node_meta n).

(** [DerivedNodeLabels]. *)
Definition DerivedNodeLabels (n : Node) : gmap string string :=
  let out : gmap string string := {[ LabelHostname := node_Name n ]} in
  let p := ns_Platform (node_Status n) in
  let out := if bool_decide (pf_OS p = "") then out else <[LabelOS := pf_OS p]> out in
  if bool_decide (pf_Arch p = "") then out else <[LabelArch := pf_Arch p]> out.

(** [Node.SchedulingLabels]: [maps.Copy] of the derived labels over the operator's. *)
Definition SchedulingLabels (n : Node) : gmap string string :=
  if bool_decide (ns_Labels (node_Status n) = ∅) then node_Labels n
  else ns_Labels (node_Status n) ∪ node_Labels n.

(** [Node.SchedulingLabel]. *)
Definition SchedulingLabel (n : Node) (key : string) : option string :=
  match ns_Labels (node_Status n) !! key with
  | Some v => Some v
  | None => node_Labels n !! key
  end.

Record PersistentVolumeSpec := mkPVSpec {
  pvs_Size : Qty;
  pvs_Node : string;
  pvs_Mode : string;
  pvs_ReclaimPolicy : string;
  pvs_Shared : bool;
}.

Record PersistentVolume := mkPV {
  pv_meta : ObjectMeta;
  pv_Spec : PersistentVolumeSpec;
}.
End Objects.
#[global] Arguments Application {HQ}.
#[global] Arguments ApplicationSpec {HQ}.
#[global] Arguments VolumeMount {HQ}.
#[global] Arguments VolumeSource {HQ}.
#[global] Arguments Node {HQ}.
#[global] Arguments NodeStatus {HQ}.
#[global] Arguments PersistentVolume {HQ}.
#[global] Arguments PersistentVolumeSpec {HQ}.

(** [WorkloadID]. *)
Definition WorkloadID (namespace name : string) : string :=
  if bool_decide (namespace = "") then name else namespace +:+ "_" +:+ name.

(** [PersistentVolume.ID]. *)
Definition PV_ID {HQ : Quantity} (pv : PersistentVolume) : string :=
  WorkloadID (om_Namespace (pv_meta pv)) (om_Name (pv_meta pv)).

(** ** Theorems *)

(** The one-key lookup the topology rules use agrees with the merged label map the
    selectors match against, on every node and every key: the two readers of a node's
    labels can never disagree. *)
Lemma SchedulingLabel_lookup {HQ : Quantity} (n : Node) (k : string) :
  SchedulingLabel n k = SchedulingLabels n !! k.
Proof.
  unfold SchedulingLabel, SchedulingLabels. case_bool_decide as E.
  - by rewrite E, lookup_empty.
  - rewrite lookup_union. by destruct (ns_Labels _ !! k), (node_Labels n !! k).
Qed.

(** The separator of a workload id cannot occur in a DNS-1123 name. *)
Definition no_underscore (s : string) : bool := GoStrings.no_char "_"%char s.

Lemma no_underscore_app_sep a b : no_underscore (a +:+ "_" +:+ b) = false.
Proof.
  unfold no_underscore. rewrite !GoStrings.no_char_app. simpl. by rewrite andb_false_r.
Qed.

(** A workload id determines its namespace and name, for names without the separator
    (DNS-1123 names): two applications or volumes of different namespaces never share an
    id, so neither a unit, a rootfs nor a volume key can collide on a node. *)
Theorem WorkloadID_inj ns1 n1 ns2 n2 :
  no_underscore ns1 = true → no_underscore n1 = true →
  no_underscore ns2 = true → no_underscore n2 = true →
  WorkloadID ns1 n1 = WorkloadID ns2 n2 → ns1 = ns2 ∧ n1 = n2.
Proof.
  intros H1 H2 H3 H4. unfold WorkloadID. do 2 case_bool_decide; subst; intros E.
  - done.
  - by rewrite E, no_underscore_app_sep in H2.
  - by rewrite <-E, no_underscore_app_sep in H4.
  - pose proof (GoStrings.cut_app "_"%char ns1 n1 H1) as C1.
    pose proof (GoStrings.cut_app "_"%char ns2 n2 H3) as C2.
    change (String "_" n1) with ("_" +:+ n1) in C1. change (String "_" n2) with ("_" +:+ n2) in C2.
    rewrite E, C2 in C1. by simplify_eq.
Qed.

Lemma WorkloadID_inj_witness : "prod" = "prod" ∧ "web" = "web".
Proof. apply (WorkloadID_inj "prod" "web" "prod" "web"); reflexivity. Defined.

(** A job is retried exactly within its budget: a Failed run-to-completion workload is
    terminal if and only if the runs already made (at least one, whatever was reported)
    exceed the effective backoff limit; a Failed service is never terminal. *)
Lemma TerminalPhase_failed l attempts :
  TerminalPhase AppPhaseFailed l attempts = true ↔
  lc_RestartPolicy l = RestartNever ∧ (Retries l < Z.max attempts 1)%Z.
Proof.
  unfold TerminalPhase, RunToCompletion. simpl.
  case_bool_decide; simpl; rewrite ?Z.ltb_lt; naive_solver.
Qed.

(** The audiences a workload's token mounts ask for are listed in strictly increasing
    byte order, without repetition, and are exactly the audiences of its token mounts:
    one token is minted per distinct audience. *)
Theorem TokenAudiences_spec {HQ : Quantity} (a : Application) :
  StronglySorted String.le (TokenAudiences a) ∧ NoDup (TokenAudiences a) ∧
  ∀ x, x ∈ TokenAudiences a ↔
    ∃ m, m ∈ sp_Volumes (app_Spec a) ∧ IsToken m = true ∧ TokenAudience m = x.
Proof.
  unfold TokenAudiences. set (seen := foldl _ _ _).
  assert (∀ x, x ∈ seen ↔
    ∃ m, m ∈ sp_Volumes (app_Spec a) ∧ IsToken m = true ∧ TokenAudience m = x) as Hseen.
  { intros x. subst seen.
    enough (∀ l (s : gset string),
      x ∈ foldl (λ s m, if IsToken m then {[TokenAudience m]} ∪ s else s) s l ↔
      x ∈ s ∨ ∃ m, m ∈ l ∧ IsToken m = true ∧ TokenAudience m = x) as Hl.
    { rewrite Hl, elem_of_empty. naive_solver. }
    induction l as [|m l IH]; intros s; simpl.
    { setoid_rewrite elem_of_nil. naive_solver. }
    rewrite IH. setoid_rewrite elem_of_cons. destruct (IsToken m) eqn:E.
    - rewrite elem_of_union, elem_of_singleton. split.
      + intros [[->|?]|(m' & ? & ? & ?)]; eauto 6.
      + intros [?|(m' & [->|?] & ? & ?)]; eauto 6.
    - split.
      + intros [?|(m' & ? & ? & ?)]; eauto 6.
      + intros [?|(m' & [->|?] & ? & ?)]; eauto 6. congruence. }
  split_and!.
  - apply (StronglySorted_merge_sort _).
  - rewrite merge_sort_Permutation. apply NoDup_elements.
  - intros x. rewrite merge_sort_Permutation, elem_of_elements. apply Hseen.
Qed.

(** A stop never waits a negative time for any period whose nanoseconds fit an int64
    (up to about 292 years); a negative or unset period becomes the 30-second default. *)
Theorem GracePeriod_spec l :
  (∀ s, lc_TerminationGracePeriodSeconds l = Some s → s ≤ 9223372036)%Z →
  GracePeriod l = (1000000000 *
    match lc_TerminationGracePeriodSeconds l with
    | Some s => if bool_decide (0 ≤ s) then s else 30
    | None => 30
    end)%Z ∧ (0 ≤ GracePeriod l)%Z.
Proof.
  intros H. unfold GracePeriod, DefaultTerminationGracePeriodSeconds.
  destruct (lc_TerminationGracePeriodSeconds l) as [s|]; [|done].
  specialize (H s eq_refl). case_bool_decide as Hs.
  - rewrite (proj2 (Z.leb_le 0 s)) by done.
    rewrite wrap64_id by (unfold is_int64, min_int64, max_int64; lia). lia.
  - rewrite (proj2 (Z.leb_gt 0 s)) by lia. done.
Qed.

Definition lifecycle_of_grace (s : Z) : Lifecycle := mkLifecycle RestartAlways (Some s) None None.

Lemma GracePeriod_spec_witness : GracePeriod (lifecycle_of_grace 45) = 45000000000%Z.
Proof.
  refine (eq_trans (proj1 (GracePeriod_spec (lifecycle_of_grace 45) _)) eq_refl).
  intros s E. simpl in E. by simplify_eq.
Defined.

(** Past that bound the int64 product wraps: the first larger period already yields a
    negative duration, so a stop of such a workload would not wait at all. *)
Theorem GracePeriod_wraps : (GracePeriod (lifecycle_of_grace 9223372037) < 0)%Z.
Proof. reflexivity. Qed.
