(* ===== verification/Framework.v ===== *)
(** * The scheduling framework (controller/loops/scheduler/framework/framework.go)

    Statuses, the per-cycle scratch state, the node snapshot the plugins read and debit,
    and the extension-point runners.  The runners are generic in the state [X] the plugins
    read and write (the scheduler's per-pass state, the cycle state and the control plane
    behind the Handle), threaded explicitly through every plugin call. *)
From stdpp Require Import gmap strings list sorting.
From Stdlib Require Import ZArith.
From S2P Require Import Prelude Resources CoreV1.

Definition MaxNodeScore : Z := 100.

(** ** Status *)
Inductive Code := Success | Unschedulable | Error | Skip.
#[export] Instance Code_eq_dec : EqDecision Code.
Proof. solve_decision. Defined.

Record StatusRec := mkStatus { st_code : Code; st_reason : string; st_err : option error }.

(** A [*Status]; nil is Success. *)
Abbreviation Status := (option StatusRec).

Definition NewStatus (c : Code) (reason : string) : Status := Some (mkStatus c reason None).

(** The package-level [AsError]: a nil error is a nil status. *)
Definition AsError (err : option error) : Status :=
  match err with None => None | Some e => Some (mkStatus Error "" (Some e)) end.

Definition IsSuccess (s : Status) : bool :=
  match s with None => true | Some r => bool_decide (st_code r = Success) end.

Definition status_Code (s : Status) : Code :=
  match s with None => Success | Some r => st_code r end.

Definition Message (s : Status) : string :=
  match s with
  | None => ""
  | Some r => match st_err r with Some e => e | None => st_reason r end
  end.

(** The method [Status.AsError]. *)
Definition status_AsError (s : Status) : option error :=
  match s with
  | Some r => if bool_decide (st_code r = Error) then st_err r else None
  | None => None
  end.

(** ** CycleState *)
Abbreviation CycleState V := (gmap string V).

Section CycleState.
Context {V : Type}.
Definition NewCycleState : CycleState V := ∅.
Definition cs_Write (c : CycleState V) (key : string) (val : V) : CycleState V := <[key := val]> c.
Definition cs_Read (c : CycleState V) (key : string) : option V := c !! key.
End CycleState.

(** ** Nodes and the snapshot *)
Record PlacedApp := mkPlacedApp {
  pa_Namespace : string;
  pa_Name : string;
  pa_Labels : gmap string string;
  pa_AntiAffinity : list WorkloadAffinityTerm;
}.

Section Snapshot.
Context {HQ : Quantity}.

Record NodeInfo := mkNodeInfo {
  ni_Node : Node;
  ni_Requested : ResourceAmounts;
  ni_Apps : list PlacedApp;
}.

Definition ni_Name (ni : NodeInfo) : string := node_Name (ni_Node ni).

(** [NodeInfo.AddApp]. *)
Definition AddApp (a : PlacedApp) (n : NodeInfo) : NodeInfo :=
  mkNodeInfo (ni_Node n) (ni_Requested n) (ni_Apps n ++ [a]).

(** The first entry of that namespace and name is dropped. *)
Fixpoint remove_first_app (namespace name : string) (l : list PlacedApp) : list PlacedApp :=
  match l with
  | [] => []
  | a :: l' => if bool_decide (pa_Namespace a = namespace) && bool_decide (pa_Name a = name)
               then l' else a :: remove_first_app namespace name l'
  end.

(** [NodeInfo.RemoveApp]. *)
Definition RemoveApp (namespace name : string) (n : NodeInfo) : NodeInfo :=
  mkNodeInfo (ni_Node n) (ni_Requested n) (remove_first_app namespace name (ni_Apps n)).

(** [PlacedFromApp]. *)
Definition PlacedFromApp (app : Application) : PlacedApp :=
  mkPlacedApp (app_Namespace app) (app_Name app) (app_Labels app)
    match app_Affinity app with
    | Some af => match af_WorkloadAntiAffinity af with
                 | Some anti => wa_Required anti
                 | None => []
                 end
    | None => []
    end.

(** [NodeInfo.Reserve] and [NodeInfo.Unreserve]. *)
Definition ni_Reserve (r : ResourceAmounts) (n : NodeInfo) : NodeInfo :=
  mkNodeInfo (ni_Node n)
    (mkAmounts (q_Add (ra_CPU (ni_Requested n)) (ra_CPU r))
               (q_Add (ra_Memory (ni_Requested n)) (ra_Memory r)))
    (ni_Apps n).
Definition ni_Unreserve (r : ResourceAmounts) (n : NodeInfo) : NodeInfo :=
  mkNodeInfo (ni_Node n)
    (mkAmounts (q_Sub (ra_CPU (ni_Requested n)) (ra_CPU r))
               (q_Sub (ra_Memory (ni_Requested n)) (ra_Memory r)))
    (ni_Apps n).

(** The ordered slice owns the node infos; [byName] holds pointers into it, here
    positions, so that a write through one is seen through the other. *)
Record Snapshot := mkSnapshot {
  snap_byName : gmap string nat;
  snap_ordered : list NodeInfo;
}.

Definition name_less (a b : NodeInfo) : bool := String.ltb (ni_Name a) (ni_Name b).

(** [for _, ni := range infos { byName[ni.Node.Name] = ni }]. *)
Fixpoint index_names (i : nat) (m : gmap string nat) (infos : list NodeInfo) : gmap string nat :=
  match infos with
  | [] => m
  | ni :: infos' => index_names (S i) (<[ni_Name ni := i]> m) infos'
  end.

(** [NewSnapshot]. *)
Definition NewSnapshot (infos : list NodeInfo) : Snapshot :=
  let ordered := sort_stable name_less infos in
  mkSnapshot (index_names 0 ∅ ordered) ordered.

Definition snap_List (s : Snapshot) : list NodeInfo := snap_ordered s.

(** [Snapshot.Get]: the pointer, and what it points at. *)
Definition snap_Get (s : Snapshot) (name : string) : option (nat * NodeInfo) :=
  match snap_byName s !! name with
  | Some i => match snap_ordered s !! i with
              | Some ni => Some (i, ni)
              | None => None
              end
  | None => None
  end.

(** A mutation through the pointer [i]. *)
Definition snap_modify (s : Snapshot) (i : nat) (f : NodeInfo → NodeInfo) : Snapshot :=
  mkSnapshot (snap_byName s) (alter f i (snap_ordered s)).

(** [Snapshot.Domain]. *)
Definition Domain (s : Snapshot) (node topologyKey : string) : list NodeInfo :=
  match snap_Get s node with
  | None => []
  | Some (_, self) =>
      match SchedulingLabel (ni_Node self) topologyKey with
      | None => [self]
      | Some want =>
          self :: List.filter
            (λ ni, negb (bool_decide (ni_Name ni = node)) &&
                   bool_decide (SchedulingLabel (ni_Node ni) topologyKey = Some want))
            (snap_ordered s)
      end
  end.
End Snapshot.
#[global] Arguments NodeInfo {HQ}.
#[global] Arguments Snapshot {HQ}.

(** ** Plugins and the framework *)
Section Framework.
Context {HQ : Quantity} {X : Type}.

(** A constructed plugin: its name and the extension points it implements. *)
Record Plugin := mkPlugin {
  p_Name : string;
  p_Less : option (Application → Application → bool);
  p_PreFilter : option (Application → X → X * Status);
  p_Filter : option (Application → NodeInfo → X → X * Status);
  p_PostFilter : option (Application → gmap string Status → X → X * (string * Status));
  p_PreScore : option (Application → list NodeInfo → X → X * Status);
  p_Score : option (Application → NodeInfo → X → X * (Z * Status));
  p_Reserve : option ((Application → string → X → X * Status) * (Application → string → X → X));
  p_Permit : option (Application → string → X → X * Status);
  p_PreBind : option (Application → string → X → X * Status);
  p_Bind : option (Application → string → X → X * Status);
  p_PostBind : option (Application → string → X → X);
}.

(** A factory applied to the Handle: the plugin or its construction error. *)
Definition Registry : Type := gmap string (result error Plugin).

Record Profile := mkProfile {
  pr_Plugins : list string;
  pr_ScoreWeights : gmap string Z;
}.

Record Framework := mkFramework {
  fw_queueSort : option (string * (Application → Application → bool));
  fw_preFilter : list (Application → X → X * Status);
  fw_filter : list (Application → NodeInfo → X → X * Status);
  fw_postFilter : list (Application → gmap string Status → X → X * (string * Status));
  fw_preScore : list (Application → list NodeInfo → X → X * Status);
  fw_score : list (string * (Application → NodeInfo → X → X * (Z * Status)));
  fw_reserve : list ((Application → string → X → X * Status) * (Application → string → X → X));
  fw_permit : list (Application → string → X → X * Status);
  fw_preBind : list (Application → string → X → X * Status);
  fw_bind : list (Application → string → X → X * Status);
  fw_postBind : list (Application → string → X → X);
  fw_weights : gmap string Z;
}.

Definition fw_empty : Framework := mkFramework None [] [] [] [] [] [] [] [] [] [] ∅.

Inductive FrameworkError :=
| UnknownPlugin (name : string)
| InitPlugin (name : string) (err : error)
| MoreThanOneQueueSort (first name : string).

Definition opt_list {A} (o : option A) : list A := match o with Some a => [a] | None => [] end.

(** Files one plugin under every extension point it implements. *)
Definition file_plugin (weights : gmap string Z) (name : string) (pl : Plugin) (fw : Framework)
    : result FrameworkError Framework :=
  let* qs := match p_Less pl, fw_queueSort fw with
             | Some _, Some (first, _) => Err (MoreThanOneQueueSort first name)
             | Some less, None => Ok (Some (p_Name pl, less))
             | None, q => Ok q
             end in
  Ok {| fw_queueSort := qs;
        fw_preFilter := fw_preFilter fw ++ opt_list (p_PreFilter pl);
        fw_filter := fw_filter fw ++ opt_list (p_Filter pl);
        fw_postFilter := fw_postFilter fw ++ opt_list (p_PostFilter pl);
        fw_preScore := fw_preScore fw ++ opt_list (p_PreScore pl);
        fw_score := fw_score fw ++ ((λ s, (p_Name pl, s)) <$> opt_list (p_Score pl));
        fw_reserve := fw_reserve fw ++ opt_list (p_Reserve pl);
        fw_permit := fw_permit fw ++ opt_list (p_Permit pl);
        fw_preBind := fw_preBind fw ++ opt_list (p_PreBind pl);
        fw_bind := fw_bind fw ++ opt_list (p_Bind pl);
        fw_postBind := fw_postBind fw ++ opt_list (p_PostBind pl);
        fw_weights := match p_Score pl with
                      | Some _ => <[name := default 1%Z (weights !! name)]> (fw_weights fw)
                      | None => fw_weights fw
                      end |}.

Fixpoint New_loop (r : Registry) (weights : gmap string Z) (names : list string) (fw : Framework)
    : result FrameworkError Framework :=
  match names with
  | [] => Ok fw
  | name :: names' =>
      match r !! name with
      | None => Err (UnknownPlugin name)
      | Some (Err e) => Err (InitPlugin name e)
      | Some (Ok pl) => let* fw' := file_plugin weights name pl fw in New_loop r weights names' fw'
      end
  end.

(** [framework.New]. *)
Definition fw_New (r : Registry) (p : Profile) : result FrameworkError Framework :=
  New_loop r (pr_ScoreWeights p) (pr_Plugins p) fw_empty.

(** [Framework.Sort]: a stable sort by the QueueSort plugin's [Less]. *)
Definition fw_Sort (fw : Framework) (apps : list Application) : list Application :=
  match fw_queueSort fw with
  | None => apps
  | Some (_, less) => sort_stable less apps
  end.

(** The loop of RunPreFilter, RunFilter, RunPreScore, RunPermit and RunPreBind: the
    first non-success short-circuits. *)
Fixpoint first_failure (ps : list (X → X * Status)) (x : X) : X * Status :=
  match ps with
  | [] => (x, None)
  | p :: ps' => let '(x', st) := p x in
                if IsSuccess st then first_failure ps' x' else (x', st)
  end.

Definition RunPreFilter (fw : Framework) (app : Application) : X → X * Status :=
  first_failure ((λ p, p app) <$> fw_preFilter fw).

Definition RunFilter (fw : Framework) (app : Application) (node : NodeInfo) : X → X * Status :=
  first_failure ((λ p, p app node) <$> fw_filter fw).

Fixpoint post_filter_loop ps (app : Application) (filtered : gmap string Status) (x : X)
    : X * (string * Status) :=
  match ps with
  | [] => (x, ("", NewStatus Unschedulable "no PostFilter plugin could make room"))
  | p :: ps' => let '(x', (node, st)) := p app filtered x in
                if IsSuccess st then (x', (node, st)) else post_filter_loop ps' app filtered x'
  end.

Definition RunPostFilter (fw : Framework) (app : Application) (filtered : gmap string Status)
    : X → X * (string * Status) :=
  post_filter_loop (fw_postFilter fw) app filtered.

Definition RunPreScore (fw : Framework) (app : Application) (nodes : list NodeInfo)
    : X → X * Status :=
  first_failure ((λ p, p app nodes) <$> fw_preScore fw).

(** One plugin's pass over the nodes: [total[name] += s * w], in int64. *)
Fixpoint score_nodes (score : NodeInfo → X → X * (Z * Status)) (w : Z) (nodes : list NodeInfo)
    (total : gmap string Z) (x : X) : X * result Status (gmap string Z) :=
  match nodes with
  | [] => (x, Ok total)
  | ni :: nodes' =>
      let '(x', (s, st)) := score ni x in
      if IsSuccess st
      then score_nodes score w nodes'
             (<[ni_Name ni := wrap64 (default 0%Z (total !! ni_Name ni) + wrap64 (s * w))]> total) x'
      else (x', Err st)
  end.

Fixpoint score_plugins (fw : Framework) ps (app : Application) (nodes : list NodeInfo)
    (total : gmap string Z) (x : X) : X * result Status (gmap string Z) :=
  match ps with
  | [] => (x, Ok total)
  | (name, score) :: ps' =>
      let w := default 0%Z (fw_weights fw !! name) in
      match score_nodes (score app) w nodes total x with
      | (x', Ok total') => score_plugins fw ps' app nodes total' x'
      | (x', Err r) => (x', Err r)
      end
  end.

(** [RunScore]; [Err] carries the failing status. *)
Definition RunScore (fw : Framework) (app : Application) (nodes : list NodeInfo) (x : X)
    : X * result Status (gmap string Z) :=
  let total := foldl (λ m ni, <[ni_Name ni := 0%Z]> m) (∅ : gmap string Z) nodes in
  score_plugins fw (fw_score fw) app nodes total x.

Definition unreserve_all (ps : list ((Application → string → X → X * Status) *
                                     (Application → string → X → X)))
    (app : Application) (node : string) (x : X) : X :=
  foldl (λ x p, snd p app node x) x ps.

Fixpoint reserve_loop (done ps : list ((Application → string → X → X * Status) *
                                       (Application → string → X → X)))
    (app : Application) (node : string) (x : X) : X * Status :=
  match ps with
  | [] => (x, None)
  | p :: ps' => let '(x', st) := fst p app node x in
                if IsSuccess st then reserve_loop (done ++ [p]) ps' app node x'
                else (unreserve_all done app node x', st)
  end.

Definition RunReserve (fw : Framework) (app : Application) (node : string) : X → X * Status :=
  reserve_loop [] (fw_reserve fw) app node.

Definition RunUnreserve (fw : Framework) (app : Application) (node : string) : X → X :=
  unreserve_all (fw_reserve fw) app node.

Definition RunPermit (fw : Framework) (app : Application) (node : string) : X → X * Status :=
  first_failure ((λ p, p app node) <$> fw_permit fw).

Definition RunPreBind (fw : Framework) (app : Application) (node : string) : X → X * Status :=
  first_failure ((λ p, p app node) <$> fw_preBind fw).

Fixpoint bind_loop (ps : list (Application → string → X → X * Status))
    (app : Application) (node : string) (x : X) : X * Status :=
  match ps with
  | [] => (x, NewStatus Error "all bind plugins skipped")
  | p :: ps' => let '(x', st) := p app node x in
                if bool_decide (status_Code st = Skip) then bind_loop ps' app node x' else (x', st)
  end.

Definition RunBind (fw : Framework) (app : Application) (node : string) (x : X) : X * Status :=
  match fw_bind fw with
  | [] => (x, NewStatus Error "no bind plugin configured")
  | ps => bind_loop ps app node x
  end.

Definition RunPostBind (fw : Framework) (app : Application) (node : string) (x : X) : X :=
  foldl (λ x p, p app node x) x (fw_postBind fw).
End Framework.
#[global] Arguments Plugin {HQ} X.
#[global] Arguments Registry {HQ} X.
#[global] Arguments Framework {HQ} X.

(** ** Snapshot well-formedness *)
Section SnapshotFacts.
Context {HQ : Quantity}.
Implicit Types (s : Snapshot) (ni : NodeInfo).

(** Node names are distinct and [byName] points at the node of each name. *)
Definition snap_wf s : Prop :=
  NoDup (ni_Name <$> snap_ordered s) ∧
  ∀ name i, snap_byName s !! name = Some i ↔
    ∃ ni, snap_ordered s !! i = Some ni ∧ ni_Name ni = name.

Lemma index_names_lookup infos k m name i :
  NoDup (ni_Name <$> infos) →
  index_names k m infos !! name = Some i ↔
  (∃ j ni, infos !! j = Some ni ∧ ni_Name ni = name ∧ i = k + j) ∨
  (name ∉ ni_Name <$> infos ∧ m !! name = Some i).
Proof.
  revert k m. induction infos as [|n infos IH]; intros k m Hnd; simpl.
  { split; [intros; right; split; [apply not_elem_of_nil|done]|].
    intros [(j & ni & Hj & _)|[_ ?]]; [by rewrite lookup_nil in Hj|done]. }
  apply NoDup_cons in Hnd as [Hn Hnd]. rewrite IH by done. split.
  - intros [(j & ni & Hj & Hname & ->)|[Hno Hl]].
    + left. exists (S j), ni. split_and!; [done..|lia].
    + destruct (decide (ni_Name n = name)) as [E|Hne].
      * rewrite E, lookup_insert_eq in Hl. simplify_eq. left.
        exists 0, n. split_and!; [done..|lia].
      * rewrite lookup_insert_ne in Hl by done. right.
        split; [|done]. apply not_elem_of_cons. auto.
  - intros [(j & ni & Hj & Hname & ->)|[Hno Hl]].
    + destruct j as [|j]; simpl in Hj.
      * simplify_eq. right. split; [done|]. rewrite lookup_insert_eq. f_equal. lia.
      * left. exists j, ni. split_and!; [done..|lia].
    + apply not_elem_of_cons in Hno as [Hne Hno]. right.
      split; [done|]. by rewrite lookup_insert_ne.
Qed.

Lemma NewSnapshot_wf infos : NoDup (ni_Name <$> infos) → snap_wf (NewSnapshot infos).
Proof.
  intros Hnd.
  assert (NoDup (ni_Name <$> sort_stable name_less infos)) as Hnd'.
  { by rewrite (sort_stable_perm name_less infos). }
  split; [done|]. intros name i. simpl.
  rewrite index_names_lookup by done. rewrite lookup_empty. split.
  - intros [(j & ni & ? & ? & ->)|[_ ?]]; [|done]. eauto.
  - intros (ni & ? & ?). left. eauto.
Qed.

Lemma NewSnapshot_elem infos ni : ni ∈ snap_ordered (NewSnapshot infos) ↔ ni ∈ infos.
Proof. simpl. by rewrite (sort_stable_perm name_less infos). Qed.

Lemma name_less_strict_weak : StrictWeak name_less.
Proof. apply string_key_strict_weak. Qed.

Lemma snap_Get_spec s name i ni :
  snap_wf s →
  snap_Get s name = Some (i, ni) ↔ snap_ordered s !! i = Some ni ∧ ni_Name ni = name.
Proof.
  intros [Hnd Hby]. unfold snap_Get. split.
  - destruct (snap_byName s !! name) as [j|] eqn:E; [|done].
    destruct (snap_ordered s !! j) as [nj|] eqn:Ej; [|done]. intros; simplify_eq.
    apply Hby in E as (? & ? & ?). by simplify_eq.
  - intros [Hi Hn]. assert (snap_byName s !! name = Some i) as ->
      by (apply Hby; eauto). by rewrite Hi.
Qed.

Lemma snap_Get_Some s ni :
  snap_wf s → ni ∈ snap_ordered s → ∃ i, snap_Get s (ni_Name ni) = Some (i, ni).
Proof.
  intros Hwf [i Hi]%list_elem_of_lookup. exists i. by apply snap_Get_spec.
Qed.

Lemma snap_Get_None s name :
  snap_wf s → snap_Get s name = None → ∀ ni, ni ∈ snap_ordered s → ni_Name ni ≠ name.
Proof. intros Hwf Hn ni Hni <-. destruct (snap_Get_Some s ni Hwf Hni) as [i ?]. congruence. Qed.

(** A mutation that keeps the node object keeps the snapshot well formed. *)
Lemma snap_modify_names s i f :
  (∀ ni, ni_Node (f ni) = ni_Node ni) →
  ni_Name <$> snap_ordered (snap_modify s i f) = ni_Name <$> snap_ordered s.
Proof.
  intros Hf. simpl. apply list_eq. intros j. rewrite !list_lookup_fmap.
  destruct (decide (i = j)) as [->|].
  - rewrite list_lookup_alter_eq. destruct (snap_ordered s !! j); [|done].
    simpl. unfold ni_Name. by rewrite Hf.
  - by rewrite list_lookup_alter_ne.
Qed.

Lemma snap_modify_wf s i f :
  (∀ ni, ni_Node (f ni) = ni_Node ni) → snap_wf s → snap_wf (snap_modify s i f).
Proof.
  intros Hf [Hnd Hby]. split; [by rewrite snap_modify_names|].
  intros name j. simpl. rewrite Hby. split.
  - intros (ni & Hj & Hn). destruct (decide (i = j)) as [->|].
    + exists (f ni). rewrite list_lookup_alter_eq, Hj. split; [done|].
      unfold ni_Name. by rewrite Hf.
    + exists ni. by rewrite list_lookup_alter_ne.
  - intros (ni & Hj & Hn). destruct (decide (i = j)) as [->|].
    + rewrite list_lookup_alter_eq in Hj. destruct (snap_ordered s !! j) as [nj|]; [|done].
      simplify_eq/=. exists nj. split; [done|]. unfold ni_Name. by rewrite Hf.
    + rewrite list_lookup_alter_ne in Hj by done. eauto.
Qed.

(** Two nodes share a topology domain: the same node, or an equal label value. *)
Definition same_domain (key : string) (a b : NodeInfo) : Prop :=
  ni_Name a = ni_Name b ∨
  ∃ v, SchedulingLabel (ni_Node a) key = Some v ∧ SchedulingLabel (ni_Node b) key = Some v.

#[export] Instance same_domain_sym key : Symmetric (same_domain key).
Proof. intros a b [?|(v & ? & ?)]; [left; congruence|right; eauto]. Qed.

Lemma wf_name_inj s a b :
  snap_wf s → a ∈ snap_ordered s → b ∈ snap_ordered s → ni_Name a = ni_Name b → a = b.
Proof.
  intros Hwf Ha Hb E.
  destruct (snap_Get_Some s a Hwf Ha) as [i Hi], (snap_Get_Some s b Hwf Hb) as [j Hj].
  congruence.
Qed.

Lemma Domain_elem s node key ni :
  snap_wf s →
  ni ∈ Domain s node key ↔
  ni ∈ snap_ordered s ∧ ∃ self, self ∈ snap_ordered s ∧ ni_Name self = node ∧ same_domain key self ni.
Proof.
  intros Hwf. unfold Domain.
  destruct (snap_Get s node) as [[i self]|] eqn:E.
  2:{ split; [by intros ?%elem_of_nil|]. intros (_ & self & Hs & Hn & _).
      by destruct (snap_Get_None _ _ Hwf E self Hs). }
  apply snap_Get_spec in E as [Hi Hn]; [|done].
  assert (self ∈ snap_ordered s) as Hself by (apply list_elem_of_lookup; eauto).
  assert (∀ other, other ∈ snap_ordered s → ni_Name other = node → other = self) as Huniq.
  { intros other Ho Hon. apply (wf_name_inj s); [done..|congruence]. }
  destruct (SchedulingLabel (ni_Node self) key) as [v|] eqn:Ev.
  - rewrite elem_of_cons, filter_elem, andb_true_iff, negb_true_iff, bool_decide_eq_false, bool_decide_eq_true.
    split.
    + intros [->|(Hin & Hne & Hv)].
      * split; [done|]. exists self. split_and!; [done..|by left].
      * split; [done|]. exists self. split_and!; [done..|]. right. eauto.
    + intros (Hin & self' & Hs' & Hn' & Hdom). apply Huniq in Hs' as ->; [|done].
      destruct (decide (ni_Name ni = node)) as [E|Hne]; [left; by apply Huniq|right].
      destruct Hdom as [?|(v' & ? & ?)]; [congruence|]. simplify_eq. done.
  - rewrite list_elem_of_singleton. split.
    + intros ->. split; [done|]. exists self. split_and!; [done..|by left].
    + intros (Hin & self' & Hs' & Hn' & Hdom). apply Huniq in Hs' as ->; [|done].
      destruct Hdom as [Heq|(v' & ? & ?)]; [|congruence]. apply Huniq; congruence.
Qed.
End SnapshotFacts.

(** ** The extension-point runners *)
Section RunnerFacts.
Context {HQ : Quantity} {X : Type}.
Implicit Types (fw : Framework X) (x : X).
Abbreviation ReservePlugin :=
  (prod (Application → string → X → X * Status) (Application → string → X → X)).

(** Every Reserve of a list of plugins succeeds, taking [x] to [x']. *)
Inductive reserves (app : Application) (node : string) : list ReservePlugin → X → X → Prop :=
| reserves_nil x : reserves app node [] x x
| reserves_cons p ps x x1 x2 st :
    fst p app node x = (x1, st) → IsSuccess st = true →
    reserves app node ps x1 x2 → reserves app node (p :: ps) x x2.

Lemma reserves_snoc app node ps p x x1 x2 st :
  reserves app node ps x x1 → fst p app node x1 = (x2, st) → IsSuccess st = true →
  reserves app node (ps ++ [p]) x x2.
Proof. induction 1; intros; simpl; econstructor; eauto using reserves_nil. Qed.

Lemma reserve_loop_spec app node done ps x0 x x' st :
  reserves app node done x0 x →
  reserve_loop done ps app node x = (x', st) →
  (st = None ∧ reserves app node (done ++ ps) x0 x') ∨
  (IsSuccess st = false ∧ ∃ ok p rest x1 x2,
     done ++ ps = ok ++ p :: rest ∧ reserves app node ok x0 x1 ∧
     fst p app node x1 = (x2, st) ∧ x' = unreserve_all ok app node x2).
Proof.
  revert done x. induction ps as [|p ps IH]; intros done x Hd; simpl.
  { intros; simplify_eq. left. by rewrite app_nil_r. }
  destruct (fst p app node x) as [x1 st1] eqn:E.
  destruct (IsSuccess st1) eqn:Es.
  - intros Hl. apply IH in Hl; [|by eapply reserves_snoc].
    by rewrite <-app_assoc in Hl.
  - intros; simplify_eq. right. split; [done|]. exists done, p, ps, x, x1. done.
Qed.

(** RunReserve either runs every Reserve plugin and succeeds, or stops at the first
    that fails and has by then released exactly the plugins that had succeeded, in
    order, and no other: a failed Reserve never leaves a partial claim it does not
    attempt to release. *)
Theorem RunReserve_outcome fw app node x x' st :
  RunReserve fw app node x = (x', st) →
  (st = None ∧ reserves app node (fw_reserve fw) x x') ∨
  (IsSuccess st = false ∧ ∃ ok p rest x1 x2,
     fw_reserve fw = ok ++ p :: rest ∧ reserves app node ok x x1 ∧
     fst p app node x1 = (x2, st) ∧ x' = unreserve_all ok app node x2).
Proof. apply reserve_loop_spec with (done := []). constructor. Qed.

(** The weighted sum of a node's scores, accumulated in int64 in plugin order. *)
Definition weighted_total fw (f : string → NodeInfo → Z) (ps : list string) (ni : NodeInfo) (t : Z) : Z :=
  foldl (λ t n, wrap64 (t + wrap64 (f n ni * default 0%Z (fw_weights fw !! n)))) t ps.

Lemma score_nodes_pure (score : NodeInfo → X → X * (Z * Status)) (f : NodeInfo → Z) w nodes total x :
  NoDup (ni_Name <$> nodes) →
  (∀ ni, ni ∈ nodes → score ni x = (x, (f ni, None))) →
  ∃ total', score_nodes score w nodes total x = (x, Ok total') ∧
    (∀ ni, ni ∈ nodes → total' !! ni_Name ni =
       Some (wrap64 (default 0%Z (total !! ni_Name ni) + wrap64 (f ni * w)))) ∧
    (∀ name, name ∉ ni_Name <$> nodes → total' !! name = total !! name).
Proof.
  revert total. induction nodes as [|n nodes IH]; intros total Hnd Hsc; simpl.
  { exists total. split_and!; [done| |done]. by intros ni ?%elem_of_nil. }
  apply NoDup_cons in Hnd as [Hn Hnd]. rewrite Hsc by (left; done). simpl.
  destruct (IH (<[ni_Name n := wrap64 (default 0%Z (total !! ni_Name n) + wrap64 (f n * w))]> total) Hnd)
    as (total' & -> & Hin & Hout).
  { intros ni ?. apply Hsc. by right. }
  exists total'. split_and!; [done| |].
  - intros ni [->|Hni]%elem_of_cons.
    + rewrite Hout by done. apply lookup_insert_eq.
    + rewrite Hin by done. rewrite lookup_insert_ne; [done|].
      intros E. apply Hn. rewrite E. apply list_elem_of_fmap. eauto.
  - intros name [Hne Hno]%not_elem_of_cons. rewrite Hout by done.
    by rewrite lookup_insert_ne.
Qed.

Lemma score_plugins_pure fw ps app nodes total x (f : string → NodeInfo → Z) :
  NoDup (ni_Name <$> nodes) →
  (∀ n sc, (n, sc) ∈ ps → ∀ ni, ni ∈ nodes → sc app ni x = (x, (f n ni, None))) →
  ∃ total', score_plugins fw ps app nodes total x = (x, Ok total') ∧
    ∀ ni t, ni ∈ nodes → total !! ni_Name ni = Some t →
      total' !! ni_Name ni = Some (weighted_total fw f ps.*1 ni t).
Proof.
  revert total. induction ps as [|[n sc] ps IH]; intros total Hnd Hsc; simpl; [by eauto|].
  destruct (score_nodes_pure (sc app) (f n) (default 0%Z (fw_weights fw !! n)) nodes total x Hnd)
    as (total1 & -> & Hin & Hout).
  { intros ni Hni. by apply (Hsc n sc); [left|]. }
  destruct (IH total1 Hnd) as (total' & -> & Htot).
  { intros n' sc' Hin'. apply Hsc. by right. }
  exists total'. split; [done|]. intros ni t Hni Ht.
  rewrite (Htot ni _ Hni (Hin ni Hni)). by rewrite Ht.
Qed.

Lemma zero_totals_lookup (nodes : list NodeInfo) (m : gmap string Z) ni :
  ni ∈ nodes ∨ m !! ni_Name ni = Some 0%Z →
  foldl (λ m ni, <[ni_Name ni := 0%Z]> m) m nodes !! ni_Name ni = Some 0%Z.
Proof.
  revert m. induction nodes as [|n nodes IH]; intros m [H|H]; simpl; [by apply elem_of_nil in H|done|..].
  - apply IH. apply elem_of_cons in H as [->|H]; [right; apply lookup_insert_eq|by left].
  - apply IH. right. destruct (decide (ni_Name n = ni_Name ni)) as [->|].
    + apply lookup_insert_eq.
    + by rewrite lookup_insert_ne.
Qed.

(** When the Score plugins succeed without touching the state, RunScore returns for
    every scored node (names being distinct) exactly the sum over the Score plugins, in
    order, of its score times the plugin's weight, in int64 arithmetic. *)
Theorem RunScore_totals fw app nodes x (f : string → NodeInfo → Z) :
  NoDup (ni_Name <$> nodes) →
  (∀ n sc, (n, sc) ∈ fw_score fw → ∀ ni, ni ∈ nodes → sc app ni x = (x, (f n ni, None))) →
  ∃ total, RunScore fw app nodes x = (x, Ok total) ∧
    ∀ ni, ni ∈ nodes → total !! ni_Name ni = Some (weighted_total fw f (fw_score fw).*1 ni 0).
Proof.
  intros Hnd Hsc. unfold RunScore.
  edestruct (score_plugins_pure fw (fw_score fw) app nodes) as (total & -> & Ht); [done..|].
  exists total. split; [done|]. intros ni Hni. apply Ht; [done|].
  apply zero_totals_lookup. by left.
Qed.
End RunnerFacts.
