(* ===== verification/Plugins.v ===== *)
(** * The built-in scheduler plugins (controller/loops/scheduler/plugins)

    The plugins in the order of their files.  They see the control plane only through the Handle
    ([framework.Handle]), here the class [Handle]: the per-pass snapshot they read and
    mutate, the clock, the volumes, and the three writes.  [HandleLaws] states what the
    plugins may rely on; the scheduler discharges it.

    float64 arithmetic is IEEE-754 binary64 ([SpecFloat] at precision 53, emax 1024). *)
From stdpp Require Import gmap strings list sorting.
From Stdlib Require Import ZArith SpecFloat.
From S2P Require Import Prelude Resources CoreV1 Framework.

(** ** The Handle *)
Class Handle {HQ : Quantity} (H : Type) := {
  h_Snapshot : H → Snapshot;
  h_modify : nat → (NodeInfo → NodeInfo) → H → H;
  h_Clock : H → H * Z;
  h_PV : H → string → string → option PersistentVolume;
  h_CreatePV : string → string → Qty → H → H * option error;
  h_BindPV : string → string → string → H → H * option error;
  h_BindApp : string → string → string → H → H * option error;
}.

Class HandleLaws {HQ : Quantity} (H : Type) {HH : Handle H} := {
  h_modify_snapshot i f h : h_Snapshot (h_modify i f h) = snap_modify (h_Snapshot h) i f;
  h_modify_PV i f h ns name : h_PV (h_modify i f h) ns name = h_PV h ns name;
  h_Clock_snapshot h : h_Snapshot (fst (h_Clock h)) = h_Snapshot h;
  h_Clock_PV h ns name : h_PV (fst (h_Clock h)) ns name = h_PV h ns name;
  h_CreatePV_snapshot ns name sz h : h_Snapshot (fst (h_CreatePV ns name sz h)) = h_Snapshot h;
  h_CreatePV_bound ns name sz h ns' name' pv :
    h_PV (fst (h_CreatePV ns name sz h)) ns' name' = Some pv → pvs_Node (pv_Spec pv) ≠ "" →
    h_PV h ns' name' = Some pv;
  h_BindPV_snapshot ns name node h : h_Snapshot (fst (h_BindPV ns name node h)) = h_Snapshot h;
  h_BindApp_snapshot ns name node h : h_Snapshot (fst (h_BindApp ns name node h)) = h_Snapshot h;
}.

(** ** What the plugins keep in the cycle state *)
Record volumeState := mkVolumeState { vst_required : string; vst_nodeless : list string }.
Inductive CycleVal := CV_volume (v : volumeState) | CV_scores (m : gmap string Z).

(** ** float64 *)
Module Float64.
Definition prec : Z := 53.
Definition emax : Z := 1024.
Definition of_int64 (z : Z) : spec_float := binary_normalize prec emax z 0 false.
Definition div : spec_float → spec_float → spec_float := SFdiv prec emax.
Definition sub : spec_float → spec_float → spec_float := SFsub prec emax.
Definition mul : spec_float → spec_float → spec_float := SFmul prec emax.
Definition gtb (a b : spec_float) : bool := SFltb b a.

(** The conversion [int64(f)] truncates toward zero; a value outside int64 gives the
    minimum, as the amd64 conversion instruction does. *)
Definition to_int64 (f : spec_float) : Z :=
  match f with
  | S754_zero _ => 0
  | S754_finite s m e =>
      let mag := Z.shiftl (Z.pos m) e in
      let z := if s then (- mag)%Z else mag in
      if bool_decide (min_int64 ≤ z ≤ max_int64)%Z then z else min_int64
  | _ => min_int64
  end.
End Float64.

Section Helpers.
(** [subsetMatch]: a missing key reads as the empty string. *)
Definition subsetMatch (selector have_ : gmap string string) : bool :=
  forallb (λ kv, bool_decide (default "" (have_ !! kv.1) = kv.2)) (map_to_list selector).

(** One match expression of [nodeSelectorMatches]. *)
Definition requirementMatches (have_ : gmap string string) (r : NodeSelectorRequirement) : bool :=
  let v := have_ !! nsr_Key r in
  if bool_decide (nsr_Operator r = NodeSelectorOpIn) then
    match v with Some x => bool_decide (x ∈ nsr_Values r) | None => false end
  else if bool_decide (nsr_Operator r = NodeSelectorOpNotIn) then
    match v with Some x => negb (bool_decide (x ∈ nsr_Values r)) | None => true end
  else if bool_decide (nsr_Operator r = NodeSelectorOpExists) then bool_decide (is_Some v)
  else if bool_decide (nsr_Operator r = NodeSelectorOpDoesNotExist) then bool_decide (v = None)
  else false.

(** [nodeSelectorMatches]. *)
Definition nodeSelectorMatches (sel : NodeSelector) (have_ : gmap string string) : bool :=
  subsetMatch (nsel_MatchLabels sel) have_ &&
  forallb (requirementMatches have_) (nsel_MatchExpressions sel).

(** The running minimum and maximum of [normalize]'s first loop. *)
Definition lo_hi (acc : option (Z * Z)) (v : Z) : option (Z * Z) :=
  match acc with
  | None => Some (v, v)
  | Some (lo, hi) => Some (Z.min lo v, Z.max hi v)
  end.

(** [normalize], in int64. *)
Definition normalize (raw : gmap string Z) : gmap string Z :=
  match foldl lo_hi None (snd <$> map_to_list raw) with
  | None => raw
  | Some (lo, hi) =>
      if bool_decide (hi = lo) then ∅
      else (λ v, wrap64 (Z.quot (wrap64 (wrap64 (v - lo) * MaxNodeScore)) (wrap64 (hi - lo)))) <$> raw
  end.

(** [scoreFromState]. *)
Definition scoreFromState (state : CycleState CycleVal) (key node : string) : Z :=
  match cs_Read state key with
  | Some (CV_scores m) => default 0%Z (m !! node)
  | _ => 0%Z
  end.
End Helpers.

Section Plugins.
Context {HQ : Quantity} {H : Type} {HH : Handle H}.
Abbreviation X := (prod H (CycleState CycleVal)).

(** ** prioritysort.go *)
Definition priorityOf (a : Application) : Z :=
  default 0%Z (pl_Priority (sp_Placement (app_Spec a))).

Definition PrioritySort_Less (a b : Application) : bool :=
  let pa := priorityOf a in
  let pb := priorityOf b in
  if negb (bool_decide (pa = pb)) then bool_decide (pb < pa)%Z
  else
    let ta := om_CreationTimestamp (app_meta a) in
    let tb := om_CreationTimestamp (app_meta b) in
    if negb (bool_decide (ta = tb)) then bool_decide (ta < tb)%Z
    else String.ltb (app_Name a) (app_Name b).

(** ** nodeschedulable.go *)
Definition NodeSchedulable_Filter (timeout : Z) (app : Application) (node : NodeInfo) (x : X)
    : X * Status :=
  let n := ni_Node node in
  if node_Unschedulable n then (x, NewStatus Unschedulable "node is cordoned")
  else if negb (ns_Ready (node_Status n)) then (x, NewStatus Unschedulable "node is not ready")
  else if q_IsZero (ra_CPU (ns_Capacity (node_Status n))) ||
          q_IsZero (ra_Memory (ns_Capacity (node_Status n)))
  then (x, NewStatus Unschedulable "node has not reported capacity")
  else
    let hb := ns_Heartbeat (node_Status n) in
    if bool_decide (hb = 0%Z) then (x, NewStatus Unschedulable "node heartbeat is stale")
    else
      let '(h', t) := h_Clock (fst x) in
      if bool_decide (timeout < time_Sub t hb)%Z
      then ((h', snd x), NewStatus Unschedulable "node heartbeat is stale")
      else ((h', snd x), None).

(** ** runtimeclass.go *)
Definition RuntimeClass_Filter (app : Application) (node : NodeInfo) (x : X) : X * Status :=
  let class := sp_RuntimeClassName (app_Spec app) in
  if bool_decide (class = "") then (x, None)
  else if bool_decide (class ∈ ns_Runtimes (node_Status (ni_Node node))) then (x, None)
  else (x, NewStatus Unschedulable ("node does not advertise runtime class " +:+ class)).

(** ** routednetwork.go *)
Definition RoutedNetwork_Filter (app : Application) (node : NodeInfo) (x : X) : X * Status :=
  if OnHostNetwork app then (x, None)
  else if ns_RoutedNetwork (node_Status (ni_Node node)) then (x, None)
  else (x, NewStatus Unschedulable
             "node has no network helper, so it cannot give a workload a network of its own").

(** ** nodeaffinity.go *)
Definition nodeAffinityScoresKey : string := "NodeAffinity.scores".

Definition nodeAffinity (app : Application) : option NodeAffinity :=
  match app_Affinity app with None => None | Some af => af_NodeAffinity af end.

Definition NodeAffinity_Filter (app : Application) (node : NodeInfo) (x : X) : X * Status :=
  let labels := SchedulingLabels (ni_Node node) in
  if negb (subsetMatch (pl_NodeSelector (sp_Placement (app_Spec app))) labels)
  then (x, NewStatus Unschedulable "node labels do not match spec.nodeSelector")
  else match nodeAffinity app with
       | Some na =>
           match na_Required na with
           | Some req =>
               if negb (nodeSelectorMatches req labels)
               then (x, NewStatus Unschedulable "node labels do not match required nodeAffinity")
               else (x, None)
           | None => (x, None)
           end
       | None => (x, None)
       end.

(** The raw preference score of one node. *)
Definition preferredNodeScore (terms : list PreferredNodeTerm) (ni : NodeInfo) : Z :=
  foldl (λ s t, if nodeSelectorMatches (pnt_Preference t) (SchedulingLabels (ni_Node ni))
                then wrap64 (s + pnt_Weight t) else s) 0%Z terms.

(** [for _, ni := range nodes { raw[ni.Node.Name] = f ni }]. *)
Definition raw_scores (f : NodeInfo → Z) (nodes : list NodeInfo) : gmap string Z :=
  foldl (λ m ni, <[ni_Name ni := f ni]> m) ∅ nodes.

Definition NodeAffinity_PreScore (app : Application) (nodes : list NodeInfo) (x : X) : X * Status :=
  match nodeAffinity app with
  | None => (x, None)
  | Some na =>
      match na_Preferred na with
      | [] => (x, None)
      | terms =>
          let raw := raw_scores (preferredNodeScore terms) nodes in
          ((fst x, cs_Write (snd x) nodeAffinityScoresKey (CV_scores (normalize raw))), None)
      end
  end.

Definition NodeAffinity_Score (app : Application) (node : NodeInfo) (x : X) : X * (Z * Status) :=
  (x, (scoreFromState (snd x) nodeAffinityScoresKey (ni_Name node), None)).

(** ** workloadaffinity.go *)
Definition workloadAffinityScoresKey : string := "WorkloadAffinity.scores".

(** [workloadAff]: the affinity and the anti-affinity of an app. *)
Definition workloadAff (app : Application) : option WorkloadAffinity * option WorkloadAffinity :=
  match app_Affinity app with
  | None => (None, None)
  | Some af => (af_WorkloadAffinity af, af_WorkloadAntiAffinity af)
  end.

Definition domainHasMatch (snap : Snapshot) (node namespace : string) (t : WorkloadAffinityTerm) : bool :=
  existsb (λ ni,
    existsb (λ a, bool_decide (pa_Namespace a = namespace) &&
                  subsetMatch (wat_LabelSelector t) (pa_Labels a)) (ni_Apps ni))
    (Domain snap node (wat_TopologyKey t)).

Definition nodeInDomain (snap : Snapshot) (node domainOf topologyKey : string) : bool :=
  existsb (λ ni, bool_decide (ni_Name ni = node)) (Domain snap domainOf topologyKey).

(** The symmetric loop: some already-placed app repels [app] from [node]. *)
Definition repelledByPlaced (snap : Snapshot) (app : Application) (node : string) : bool :=
  existsb (λ ni,
    existsb (λ placed,
      bool_decide (pa_Namespace placed = app_Namespace app) &&
      existsb (λ t, subsetMatch (wat_LabelSelector t) (app_Labels app) &&
                    nodeInDomain snap node (ni_Name ni) (wat_TopologyKey t))
              (pa_AntiAffinity placed))
      (ni_Apps ni))
    (snap_List snap).

Definition wa_required (o : option WorkloadAffinity) : list WorkloadAffinityTerm :=
  match o with Some w => wa_Required w | None => [] end.
Definition wa_preferred (o : option WorkloadAffinity) : list WeightedWorkloadAffinityTerm :=
  match o with Some w => wa_Preferred w | None => [] end.

Definition WorkloadAffinity_Filter (app : Application) (node : NodeInfo) (x : X) : X * Status :=
  let snap := h_Snapshot (fst x) in
  let aff := workloadAff app in
  if negb (forallb (domainHasMatch snap (ni_Name node) (app_Namespace app)) (wa_required aff.1))
  then (x, NewStatus Unschedulable "no matching workload in the required affinity topology domain")
  else if existsb (domainHasMatch snap (ni_Name node) (app_Namespace app)) (wa_required aff.2)
  then (x, NewStatus Unschedulable "a workload the app repels is already in the topology domain")
  else if repelledByPlaced snap app (ni_Name node)
  then (x, NewStatus Unschedulable "placement would violate an already-placed workload's anti-affinity")
  else (x, None).

(** The raw score of one node: attraction minus repulsion, in int64. *)
Definition preferredWorkloadScore (snap : Snapshot) (app : Application) (ni : NodeInfo) : Z :=
  let aff := workloadAff app in
  let s1 := foldl (λ s w, if domainHasMatch snap (ni_Name ni) (app_Namespace app) (wwat_Term w)
                          then wrap64 (s + wwat_Weight w) else s) 0%Z (wa_preferred aff.1) in
  foldl (λ s w, if domainHasMatch snap (ni_Name ni) (app_Namespace app) (wwat_Term w)
                then wrap64 (s - wwat_Weight w) else s) s1 (wa_preferred aff.2).

Definition WorkloadAffinity_PreScore (app : Application) (nodes : list NodeInfo) (x : X)
    : X * Status :=
  let aff := workloadAff app in
  if bool_decide (wa_preferred aff.1 = []) && bool_decide (wa_preferred aff.2 = []) then (x, None)
  else
    let raw := raw_scores (preferredWorkloadScore (h_Snapshot (fst x)) app) nodes in
    ((fst x, cs_Write (snd x) workloadAffinityScoresKey (CV_scores (normalize raw))), None).

Definition WorkloadAffinity_Score (app : Application) (node : NodeInfo) (x : X) : X * (Z * Status) :=
  (x, (scoreFromState (snd x) workloadAffinityScoresKey (ni_Name node), None)).

Definition modify_node (name : string) (f : NodeInfo → NodeInfo) (h : H) : H :=
  match snap_Get (h_Snapshot h) name with
  | Some (i, _) => h_modify i f h
  | None => h
  end.

Definition WorkloadAffinity_Reserve (app : Application) (node : string) (x : X) : X * Status :=
  ((modify_node node (AddApp (PlacedFromApp app)) (fst x), snd x), None).

Definition WorkloadAffinity_Unreserve (app : Application) (node : string) (x : X) : X :=
  (modify_node node (RemoveApp (app_Namespace app) (app_Name app)) (fst x), snd x).

(** ** noderesources.go *)
Definition NodeResourcesFit_Filter (app : Application) (node : NodeInfo) (x : X) : X * Status :=
  let after := ra_Add (ni_Requested node) (app_requests app) in
  match ra_Exceeds after (ns_Capacity (node_Status (ni_Node node))) false with
  | [] => (x, None)
  | _ => (x, NewStatus Unschedulable "insufficient cpu/memory")
  end.

Definition dominant (capacity used : ResourceAmounts) : spec_float :=
  let cpu := Float64.div (Float64.of_int64 (q_MilliValue (ra_CPU used)))
                         (Float64.of_int64 (q_MilliValue (ra_CPU capacity))) in
  let mem := Float64.div (Float64.of_int64 (q_Value (ra_Memory used)))
                         (Float64.of_int64 (q_Value (ra_Memory capacity))) in
  if Float64.gtb cpu mem then cpu else mem.

Definition NodeResourcesFit_Score (binpack : bool) (app : Application) (node : NodeInfo) (x : X)
    : X * (Z * Status) :=
  let used := ra_Add (ni_Requested node) (app_requests app) in
  let util := dominant (ns_Capacity (node_Status (ni_Node node))) used in
  let hundred := Float64.of_int64 MaxNodeScore in
  if binpack then (x, (Float64.to_int64 (Float64.mul util hundred), None))
  else (x, (Float64.to_int64 (Float64.mul (Float64.sub (Float64.of_int64 1) util) hundred), None)).

Definition NodeResourcesFit_Reserve (app : Application) (node : string) (x : X) : X * Status :=
  ((modify_node node (ni_Reserve (app_requests app)) (fst x), snd x), None).

Definition NodeResourcesFit_Unreserve (app : Application) (node : string) (x : X) : X :=
  (modify_node node (ni_Unreserve (app_requests app)) (fst x), snd x).

(** ** volumebinding.go *)
Definition volumeStateKey : string := "VolumeBinding".

Definition volumeStateOf (state : CycleState CycleVal) : volumeState :=
  match cs_Read state volumeStateKey with
  | Some (CV_volume vs) => vs
  | _ => mkVolumeState "" []
  end.

(** The loop of [VolumeBinding.PreFilter] over the app's volume mounts. *)
Fixpoint volume_loop (app : Application) (ms : list VolumeMount) (vs : volumeState) (h : H)
    : H * result StatusRec volumeState :=
  match ms with
  | [] => (h, Ok vs)
  | m :: ms' =>
      if negb (IsPV m) then volume_loop app ms' vs h
      else
        let name := PVName m (app_Name app) in
        match h_PV h (app_Namespace app) name with
        | None =>
            match h_CreatePV (app_Namespace app) name (vs_Size (vm_Volume m)) h with
            | (h', Some e) => (h', Err (mkStatus Error "" (Some e)))
            | (h', None) =>
                volume_loop app ms' (mkVolumeState (vst_required vs) (vst_nodeless vs ++ [name])) h'
            end
        | Some pv =>
            let node := pvs_Node (pv_Spec pv) in
            if bool_decide (node = "") then
              volume_loop app ms' (mkVolumeState (vst_required vs) (vst_nodeless vs ++ [name])) h
            else if negb (bool_decide (vst_required vs = "")) && negb (bool_decide (vst_required vs = node))
            then (h, Err (mkStatus Unschedulable "mounted volumes are on conflicting nodes" None))
            else volume_loop app ms' (mkVolumeState node (vst_nodeless vs)) h
        end
  end.

Definition VolumeBinding_PreFilter (app : Application) (x : X) : X * Status :=
  match volume_loop app (sp_Volumes (app_Spec app)) (mkVolumeState "" []) (fst x) with
  | (h', Err st) => ((h', snd x), Some st)
  | (h', Ok vs) => ((h', cs_Write (snd x) volumeStateKey (CV_volume vs)), None)
  end.

Definition VolumeBinding_Filter (app : Application) (node : NodeInfo) (x : X) : X * Status :=
  let vs := volumeStateOf (snd x) in
  if negb (bool_decide (vst_required vs = "")) && negb (bool_decide (vst_required vs = ni_Name node))
  then (x, NewStatus Unschedulable "a mounted volume is backed on another node")
  else (x, None).

Fixpoint bind_volumes (app : Application) (node : string) (names : list string) (h : H)
    : H * Status :=
  match names with
  | [] => (h, None)
  | name :: names' =>
      match h_BindPV (app_Namespace app) name node h with
      | (h', Some e) => (h', AsError (Some e))
      | (h', None) => bind_volumes app node names' h'
      end
  end.

Definition VolumeBinding_PreBind (app : Application) (node : string) (x : X) : X * Status :=
  let '(h', st) := bind_volumes app node (vst_nodeless (volumeStateOf (snd x))) (fst x) in
  ((h', snd x), st).

(** ** defaultbinder.go *)
Definition DefaultBinder_Bind (app : Application) (node : string) (x : X) : X * Status :=
  let '(h', err) := h_BindApp (app_Namespace app) (app_Name app) node (fst x) in
  ((h', snd x), AsError err).

(** ** The plugin values, each with the extension points it implements *)
Definition PrioritySortName : string := "PrioritySort".
Definition NodeSchedulableName : string := "NodeSchedulable".
Definition RuntimeClassName : string := "RuntimeClass".
Definition RoutedNetworkName : string := "RoutedNetwork".
Definition NodeAffinityName : string := "NodeAffinity".
Definition WorkloadAffinityName : string := "WorkloadAffinity".
Definition NodeResourcesFitName : string := "NodeResourcesFit".
Definition VolumeBindingName : string := "VolumeBinding".
Definition DefaultBinderName : string := "DefaultBinder".

Definition NewPrioritySort : Plugin X :=
  mkPlugin PrioritySortName (Some PrioritySort_Less) None None None None None None None None None None.
Definition NewNodeSchedulable (timeout : Z) : Plugin X :=
  mkPlugin NodeSchedulableName None None (Some (NodeSchedulable_Filter timeout))
    None None None None None None None None.
Definition NewRuntimeClass : Plugin X :=
  mkPlugin RuntimeClassName None None (Some RuntimeClass_Filter) None None None None None None None None.
Definition NewRoutedNetwork : Plugin X :=
  mkPlugin RoutedNetworkName None None (Some RoutedNetwork_Filter) None None None None None None None None.
Definition NewNodeAffinity : Plugin X :=
  mkPlugin NodeAffinityName None None (Some NodeAffinity_Filter) None
    (Some NodeAffinity_PreScore) (Some NodeAffinity_Score) None None None None None.
Definition NewWorkloadAffinity : Plugin X :=
  mkPlugin WorkloadAffinityName None None (Some WorkloadAffinity_Filter) None
    (Some WorkloadAffinity_PreScore) (Some WorkloadAffinity_Score)
    (Some (WorkloadAffinity_Reserve, WorkloadAffinity_Unreserve)) None None None None.
Definition NewNodeResourcesFit (binpack : bool) : Plugin X :=
  mkPlugin NodeResourcesFitName None None (Some NodeResourcesFit_Filter) None None
    (Some (NodeResourcesFit_Score binpack))
    (Some (NodeResourcesFit_Reserve, NodeResourcesFit_Unreserve)) None None None None.
Definition NewVolumeBinding : Plugin X :=
  mkPlugin VolumeBindingName None (Some VolumeBinding_PreFilter) (Some VolumeBinding_Filter)
    None None None None None (Some VolumeBinding_PreBind) None None.
Definition NewDefaultBinder : Plugin X :=
  mkPlugin DefaultBinderName None None None None None None None None None (Some DefaultBinder_Bind) None.
End Plugins.

(** ** Facts: selectors and scores *)
Section HelperFacts.
Lemma subsetMatch_spec sel have_ :
  subsetMatch sel have_ = true ↔ ∀ k v, sel !! k = Some v → default "" (have_ !! k) = v.
Proof.
  unfold subsetMatch. rewrite forallb_elem. split.
  - intros Hs k v Hk. specialize (Hs (k, v)). rewrite bool_decide_eq_true in Hs.
    apply Hs. by apply elem_of_map_to_list.
  - intros Hs [k v] Hkv%elem_of_map_to_list. apply bool_decide_eq_true. by apply Hs.
Qed.

(** What one requirement means for the labels of a node. *)
Definition requirement_holds (have_ : gmap string string) (r : NodeSelectorRequirement) : Prop :=
  (nsr_Operator r = NodeSelectorOpIn ∧ ∃ v, have_ !! nsr_Key r = Some v ∧ v ∈ nsr_Values r) ∨
  (nsr_Operator r = NodeSelectorOpNotIn ∧ ∀ v, have_ !! nsr_Key r = Some v → v ∉ nsr_Values r) ∨
  (nsr_Operator r = NodeSelectorOpExists ∧ is_Some (have_ !! nsr_Key r)) ∨
  (nsr_Operator r = NodeSelectorOpDoesNotExist ∧ have_ !! nsr_Key r = None).

Lemma requirementMatches_spec have_ r :
  requirementMatches have_ r = true ↔ requirement_holds have_ r.
Proof.
  unfold requirementMatches, requirement_holds.
  repeat case_bool_decide; destruct (have_ !! nsr_Key r) as [v|] eqn:E;
    try match goal with Ho : nsr_Operator r = _ |- _ => rewrite Ho in * end;
    rewrite ?bool_decide_eq_true, ?negb_true_iff, ?bool_decide_eq_false;
    split; intros Hx; try done;
    repeat match goal with
    | Hx : _ ∨ _ |- _ => destruct Hx as [Hx|Hx]
    | Hx : _ ∧ _ |- _ => destruct Hx as [? Hx]
    | Hx : ∃ _, _ |- _ => destruct Hx as [? Hx]
    end; simplify_eq; try done; eauto 8;
    try (right; left; split; [done|]; intros; by simplify_eq);
    try (right; right; right; done);
    try (destruct Hx; done).
Qed.

(** A node's labels satisfy a node selector exactly when every match label reads the
    required value (an absent label reading as the empty string) and every expression
    holds in the sense of its operator; an operator outside the four known ones never
    matches. *)
Theorem nodeSelectorMatches_spec sel have_ :
  nodeSelectorMatches sel have_ = true ↔
  (∀ k v, nsel_MatchLabels sel !! k = Some v → default "" (have_ !! k) = v) ∧
  (∀ r, r ∈ nsel_MatchExpressions sel → requirement_holds have_ r).
Proof.
  unfold nodeSelectorMatches. rewrite andb_true_iff, subsetMatch_spec, forallb_elem.
  by setoid_rewrite requirementMatches_spec.
Qed.

Lemma lo_hi_fold l acc lo hi :
  (match acc with None => True | Some (a, b) => (a ≤ b)%Z end) →
  foldl lo_hi acc l = Some (lo, hi) →
  (lo ≤ hi)%Z ∧
  (∀ v, v ∈ l → (lo ≤ v ≤ hi)%Z) ∧
  (match acc with None => lo ∈ l ∧ hi ∈ l
   | Some (a, b) => (lo ≤ a)%Z ∧ (b ≤ hi)%Z ∧ (lo = a ∨ lo ∈ l) ∧ (hi = b ∨ hi ∈ l) end).
Proof.
  revert acc. induction l as [|v l IH]; intros acc Hacc; simpl.
  { intros ->. split_and!; [done|by intros ? ?%elem_of_nil|lia|lia|by left|by left]. }
  intros Hf. destruct acc as [[a b]|]; simpl in *.
  - destruct (IH (Some (Z.min a v, Z.max b v))) as (H1 & H2 & H3 & H4 & H5 & H6); [lia|done|].
    split_and!; [done| |lia|lia| |].
    + intros v' [->|Hv]%elem_of_cons; [lia|by apply H2].
    + destruct H5 as [->|?]; [|right; by right].
      destruct (Z.min_spec a v) as [[_ ->]|[_ ->]]; [by left|right; by left].
    + destruct H6 as [->|?]; [|right; by right].
      destruct (Z.max_spec b v) as [[_ ->]|[_ ->]]; [right; by left|by left].
  - destruct (IH (Some (v, v))) as (H1 & H2 & H3 & H4 & H5 & H6); [lia|done|].
    split_and!; [done| | |].
    + intros v' [->|Hv]%elem_of_cons; [lia|by apply H2].
    + destruct H5 as [->|?]; [by left|by right].
    + destruct H6 as [->|?]; [by left|by right].
Qed.

(** Raw scores small enough for the scaled difference to stay in int64. *)
Definition small_scores (raw : gmap string Z) : Prop :=
  ∀ k v, raw !! k = Some v → (- 2 ^ 55 ≤ v ≤ 2 ^ 55)%Z.

Lemma raw_values raw v : v ∈ snd <$> map_to_list raw ↔ ∃ k, (raw : gmap string Z) !! k = Some v.
Proof.
  rewrite list_elem_of_fmap. split.
  - intros ([k v'] & -> & Hin%elem_of_map_to_list). eauto.
  - intros [k Hk]. exists (k, v). split; [done|]. by apply elem_of_map_to_list.
Qed.

Lemma normalize_formula raw :
  small_scores raw →
  (∀ k, normalize raw !! k = None ∨ raw !! k = None) ∨
  ∃ lo hi, (lo < hi)%Z ∧ (∃ k, raw !! k = Some lo) ∧ (∃ k, raw !! k = Some hi) ∧
    (∀ k v, raw !! k = Some v → (lo ≤ v ≤ hi)%Z) ∧
    (∀ k, normalize raw !! k = (λ v, ((v - lo) * 100) `div` (hi - lo))%Z <$> raw !! k).
Proof.
  intros Hsm. unfold normalize.
  destruct (foldl lo_hi None (snd <$> map_to_list raw)) as [[lo hi]|] eqn:E.
  2:{ left. intros k. right. destruct (map_to_list raw) as [|[k0 v0] l] eqn:El.
      - apply map_to_list_empty_iff in El as ->. apply lookup_empty.
      - exfalso. simpl in E. clear -E.
        enough (∀ l acc, foldl lo_hi (Some acc) l ≠ None) by naive_solver.
        clear. induction l as [|v l IH]; intros [a b]; [done|]. simpl. apply IH. }
  pose proof (lo_hi_fold _ None _ _ I E) as (Hle & Hb & Hlo & Hhi).
  apply raw_values in Hlo as [klo Hlo], Hhi as [khi Hhi].
  case_bool_decide as Heq; [left; intros k; left; apply lookup_empty|]. right.
  assert (∀ k v, raw !! k = Some v → (lo ≤ v ≤ hi)%Z) as Hall.
  { intros k v Hk. apply Hb, raw_values. eauto. }
  exists lo, hi. split_and!; [lia|eauto|eauto|done|].
  intros k. rewrite lookup_fmap. destruct (raw !! k) as [v|] eqn:Ek; [|done]. simpl. f_equal.
  pose proof (Hall k v Ek). pose proof (Hsm _ _ Hlo). pose proof (Hsm _ _ Hhi).
  unfold MaxNodeScore.
  assert (∀ z, (- 2 ^ 63 ≤ z ≤ 2 ^ 63 - 1)%Z → wrap64 z = z) as Hw
    by (intros; apply wrap64_id; unfold is_int64, min_int64, max_int64; lia).
  rewrite (Hw (v - lo)%Z), (Hw ((v - lo) * 100)%Z), (Hw (hi - lo)%Z) by lia.
  rewrite Z.quot_div_nonneg by lia.
  apply Hw. split; [transitivity 0%Z; [lia|apply Z.div_pos; lia]|].
  transitivity 100%Z; [|lia]. apply Z.div_le_upper_bound; lia.
Qed.

(** The preference scores the affinity plugins hand to Score lie in
    [0, MaxNodeScore] whatever the raw scores (within 2^55 in magnitude, far beyond what
    int32 weights can sum to); the best node gets MaxNodeScore, the worst 0, and a node
    with a higher raw score never gets a lower normalized one. *)
Theorem normalize_scores raw :
  small_scores raw →
  (∀ k v, normalize raw !! k = Some v → (0 ≤ v ≤ MaxNodeScore)%Z) ∧
  (∀ k1 k2 v1 v2 n1 n2,
     raw !! k1 = Some v1 → raw !! k2 = Some v2 → (v1 ≤ v2)%Z →
     normalize raw !! k1 = Some n1 → normalize raw !! k2 = Some n2 → (n1 ≤ n2)%Z) ∧
  (∀ k v n, raw !! k = Some v → normalize raw !! k = Some n →
     ((∀ k' v', raw !! k' = Some v' → v' ≤ v) → n = MaxNodeScore)%Z ∧
     ((∀ k' v', raw !! k' = Some v' → v ≤ v') → n = 0)%Z).
Proof.
  intros Hsm. destruct (normalize_formula raw Hsm) as
    [Hno|(lo & hi & Hlt & [klo Hlo] & [khi Hhi] & Hall & Hn)].
  { assert (∀ k v n, raw !! k = Some v → normalize raw !! k = Some n → False) as Hf.
    { intros k v n Hr Hk. destruct (Hno k); congruence. }
    split_and!.
    - intros k v Hk. exfalso. destruct (Hno k) as [E|E]; [congruence|].
      unfold normalize in Hk. destruct (foldl lo_hi None _) as [[lo hi]|]; [|congruence].
      case_bool_decide; [by rewrite lookup_empty in Hk|].
      by rewrite lookup_fmap, E in Hk.
    - intros; exfalso; eauto.
    - intros; exfalso; eauto. }
  unfold MaxNodeScore. split_and!.
  - intros k v Hk. rewrite Hn in Hk. destruct (raw !! k) as [w|] eqn:E; simplify_eq/=.
    pose proof (Hall _ _ E). split; [apply Z.div_pos; lia|apply Z.div_le_upper_bound; lia].
  - intros k1 k2 v1 v2 n1 n2 H1 H2 Hle E1 E2. rewrite Hn, H1 in E1. rewrite Hn, H2 in E2.
    simplify_eq/=. apply Z.div_le_mono; lia.
  - intros k v n Hk En. rewrite Hn, Hk in En. simplify_eq/=.
    pose proof (Hall _ _ Hk). split; intros Hm.
    + pose proof (Hm _ _ Hhi). assert (v = hi) as -> by lia.
      rewrite Z.mul_comm. apply Z.div_mul. lia.
    + pose proof (Hm _ _ Hlo). assert (v = lo) as -> by lia.
      by rewrite Z.sub_diag.
Qed.
End HelperFacts.

(** ** Facts: the queue order *)
Section QueueFacts.
Context {HQ : Quantity}.

(** The sort key of an application: priority (descending), age, name. *)
Definition queue_before (a b : Application) : Prop :=
  (priorityOf b < priorityOf a)%Z ∨
  (priorityOf a = priorityOf b ∧
    ((om_CreationTimestamp (app_meta a) < om_CreationTimestamp (app_meta b))%Z ∨
     (om_CreationTimestamp (app_meta a) = om_CreationTimestamp (app_meta b) ∧
      String.ltb (app_Name a) (app_Name b) = true))).

Lemma PrioritySort_Less_spec a b : PrioritySort_Less a b = true ↔ queue_before a b.
Proof.
  unfold PrioritySort_Less, queue_before. repeat case_bool_decide; simpl; naive_solver lia.
Qed.

Lemma PrioritySort_Less_false a b :
  PrioritySort_Less a b = false ↔
  (priorityOf a < priorityOf b)%Z ∨
  (priorityOf a = priorityOf b ∧
    ((om_CreationTimestamp (app_meta b) < om_CreationTimestamp (app_meta a))%Z ∨
     (om_CreationTimestamp (app_meta a) = om_CreationTimestamp (app_meta b) ∧
      String.ltb (app_Name a) (app_Name b) = false))).
Proof. unfold PrioritySort_Less. repeat case_bool_decide; simpl; naive_solver lia. Qed.

Lemma PrioritySort_strict_weak : StrictWeak PrioritySort_Less.
Proof.
  pose proof (string_key_strict_weak app_Name) as [Hi Ht Hc].
  split.
  - intros x. apply PrioritySort_Less_false. right. split; [done|]. right. split; [done|]. apply Hi.
  - intros x y z. rewrite !PrioritySort_Less_spec. unfold queue_before.
    intros [?|[? [?|[? H1]]]] [?|[? [?|[? H2]]]]; try (left; lia); right; (split; [lia|]);
      try (left; lia). right. split; [lia|]. by apply (Ht x y z).
  - intros x y z. rewrite !PrioritySort_Less_false.
    intros [?|[? [?|[? H1]]]] [?|[? [?|[? H2]]]]; try (left; lia); right; (split; [lia|]);
      try (left; lia). right. split; [lia|]. by apply (Hc x y z).
Qed.
End QueueFacts.

(** ** Facts: volume binding *)
Section VolumeFacts.
Context {HQ : Quantity} {H : Type} {HH : Handle H} {HL : HandleLaws H}.

(** What PreFilter established for one pv mount of [app]: it is to be co-scheduled, or it
    was already bound to the required node. *)
Definition mount_resolved (app : Application) (h0 : H) (vs : volumeState) (m : VolumeMount) : Prop :=
  PVName m (app_Name app) ∈ vst_nodeless vs ∨
  ∃ pv, h_PV h0 (app_Namespace app) (PVName m (app_Name app)) = Some pv ∧
        pvs_Node (pv_Spec pv) = vst_required vs ∧ vst_required vs ≠ "".

Lemma mount_resolved_weaken app h0 vs vs' m :
  mount_resolved app h0 vs m →
  (∀ n, n ∈ vst_nodeless vs → n ∈ vst_nodeless vs') →
  (vst_required vs ≠ "" → vst_required vs' = vst_required vs) →
  mount_resolved app h0 vs' m.
Proof.
  intros [?|(pv & Hpv & Hn & Hne)] Hsub Hreq; [left; auto|].
  right. exists pv. by rewrite Hreq.
Qed.

Lemma volume_loop_resolved app ms vs h0 h h' vs' :
  (∀ name pv, h_PV h (app_Namespace app) name = Some pv → pvs_Node (pv_Spec pv) ≠ "" →
              h_PV h0 (app_Namespace app) name = Some pv) →
  volume_loop app ms vs h = (h', Ok vs') →
  (∀ n, n ∈ vst_nodeless vs → n ∈ vst_nodeless vs') ∧
  (vst_required vs ≠ "" → vst_required vs' = vst_required vs) ∧
  ∀ m, m ∈ ms → IsPV m = true → mount_resolved app h0 vs' m.
Proof.
  revert vs h. induction ms as [|m ms IH]; intros vs h Hh0; simpl.
  { intros; simplify_eq. split_and!; [done..|]. by intros ? ?%elem_of_nil. }
  destruct (IsPV m) eqn:Epv; simpl.
  2:{ intros Hl. destruct (IH _ _ Hh0 Hl) as (? & ? & Hm). split_and!; [done..|].
      intros m' [->|?]%elem_of_cons ?; [congruence|auto]. }
  assert (∀ h1 vs1,
    (∀ name pv, h_PV h1 (app_Namespace app) name = Some pv → pvs_Node (pv_Spec pv) ≠ "" →
                h_PV h0 (app_Namespace app) name = Some pv) →
    volume_loop app ms vs1 h1 = (h', Ok vs') →
    (∀ n, n ∈ vst_nodeless vs → n ∈ vst_nodeless vs1) →
    (vst_required vs ≠ "" → vst_required vs1 = vst_required vs) →
    mount_resolved app h0 vs1 m →
    (∀ n, n ∈ vst_nodeless vs → n ∈ vst_nodeless vs') ∧
    (vst_required vs ≠ "" → vst_required vs' = vst_required vs) ∧
    ∀ m', m' ∈ m :: ms → IsPV m' = true → mount_resolved app h0 vs' m') as Hstep.
  { intros h1 vs1 Hh1 Hl Hs1 Hr1 Hm1. destruct (IH _ _ Hh1 Hl) as (Hs & Hr & Hm).
    split_and!; [by auto| |].
    - intros Hne. rewrite Hr; rewrite (Hr1 Hne); done.
    - intros m' [->|?]%elem_of_cons ?; [|auto]. by eapply mount_resolved_weaken. }
  destruct (h_PV h (app_Namespace app) (PVName m (app_Name app))) as [pv|] eqn:Eh.
  - case_bool_decide as En.
    { intros Hl. apply (Hstep _ _ Hh0 Hl); simpl; [set_solver|done|].
      left. simpl. set_solver. }
    destruct (negb _ && negb _) eqn:Ec; [done|].
    intros Hl. apply (Hstep _ _ Hh0 Hl); simpl; [done| |].
    + intros Hne. apply andb_false_iff in Ec as [Ec|Ec]; rewrite negb_false_iff, bool_decide_eq_true in Ec; congruence.
    + right. exists pv. simpl. split_and!; [|done|done]. by apply Hh0.
  - destruct (h_CreatePV _ _ _ h) as [h1 [e|]] eqn:Ec; [done|].
    intros Hl. apply (Hstep h1 _) in Hl; simpl; [done| |set_solver|done|].
    + intros name pv Hpv Hne. apply Hh0; [|done].
      apply (h_CreatePV_bound (app_Namespace app) (PVName m (app_Name app)) (vs_Size (vm_Volume m)));
        [by rewrite Ec|done].
    + left. simpl. set_solver.
Qed.

Lemma volume_loop_snapshot app ms vs h :
  h_Snapshot (fst (volume_loop app ms vs h)) = h_Snapshot h.
Proof.
  revert vs h. induction ms as [|m ms IH]; intros vs h; simpl; [done|].
  destruct (negb (IsPV m)); [apply IH|].
  destruct (h_PV _ _ _) as [pv|].
  - case_bool_decide; [apply IH|]. destruct (negb _ && negb _); [done|apply IH].
  - pose proof (h_CreatePV_snapshot (app_Namespace app) (PVName m (app_Name app))
      (vs_Size (vm_Volume m)) h) as Hs.
    destruct (h_CreatePV _ _ _ h) as [h1 [e|]]; simpl in *; [done|]. by rewrite IH.
Qed.

Lemma VolumeBinding_PreFilter_resolved app x x' :
  VolumeBinding_PreFilter app x = (x', None) →
  ∀ m, m ∈ sp_Volumes (app_Spec app) → IsPV m = true →
  mount_resolved app (fst x) (volumeStateOf (snd x')) m.
Proof.
  unfold VolumeBinding_PreFilter. destruct (volume_loop _ _ _ _) as [h' [vs|st]] eqn:E; [|done].
  intros Hx m Hm Hpv. simplify_eq. simpl. unfold volumeStateOf, cs_Read, cs_Write.
  rewrite lookup_insert_eq.
  by apply (volume_loop_resolved app _ _ (fst x) _ _ _ (λ _ _ H _, H) E).
Qed.

Lemma VolumeBinding_PreFilter_snapshot app x :
  h_Snapshot (fst (fst (VolumeBinding_PreFilter app x))) = h_Snapshot (fst x).
Proof.
  unfold VolumeBinding_PreFilter.
  pose proof (volume_loop_snapshot app (sp_Volumes (app_Spec app)) (mkVolumeState "" []) (fst x)).
  by destruct (volume_loop _ _ _ _) as [h' [vs|st]].
Qed.

Lemma bind_volumes_snapshot app node names h :
  h_Snapshot (fst (bind_volumes app node names h)) = h_Snapshot h.
Proof.
  revert h. induction names as [|n names IH]; intros h; simpl; [done|].
  pose proof (h_BindPV_snapshot (app_Namespace app) n node h) as Hs.
  destruct (h_BindPV _ _ _ h) as [h1 [e|]]; simpl in *; [done|]. by rewrite IH.
Qed.
End VolumeFacts.

(** ** Facts: workload anti-affinity *)
Section AntiAffinityFacts.
Context {HQ : Quantity}.
Implicit Types (s : Snapshot) (ni nj : NodeInfo).

(** [a] sits at place [p] of the apps of the node at position [i]. *)
Definition entry s (i p : nat) ni (a : PlacedApp) : Prop :=
  snap_ordered s !! i = Some ni ∧ ni_Apps ni !! p = Some a.

(** Placed app [a], by its required anti-affinity term [t], repels [b]. *)
Definition repels (t : WorkloadAffinityTerm) (a b : PlacedApp) : Prop :=
  t ∈ pa_AntiAffinity a ∧ pa_Namespace a = pa_Namespace b ∧
  subsetMatch (wat_LabelSelector t) (pa_Labels b) = true.

(** No placed app shares a topology domain with another it repels. *)
Definition anti_affinity_ok s : Prop :=
  ∀ i p ni a j q nj b t,
    entry s i p ni a → entry s j q nj b → (i, p) ≠ (j, q) →
    repels t a b → ¬ same_domain (wat_TopologyKey t) ni nj.

Lemma entry_elem s i p ni a : entry s i p ni a → ni ∈ snap_ordered s ∧ a ∈ ni_Apps ni.
Proof. intros [? ?]. split; apply list_elem_of_lookup; eauto. Qed.

Lemma domainHasMatch_false s node ns t :
  snap_wf s → domainHasMatch s node ns t = false →
  ∀ self nj b, self ∈ snap_ordered s → ni_Name self = node → nj ∈ snap_ordered s →
    b ∈ ni_Apps nj → pa_Namespace b = ns → subsetMatch (wat_LabelSelector t) (pa_Labels b) = true →
    ¬ same_domain (wat_TopologyKey t) self nj.
Proof.
  unfold domainHasMatch. rewrite existsb_elem_false.
  intros Hwf Hf self nj b Hs Hn Hj Hb Hns Hsub Hdom.
  assert (nj ∈ Domain s node (wat_TopologyKey t)) as Hd
    by (apply Domain_elem; [done|]; split; [done|]; by exists self).
  specialize (Hf nj Hd). rewrite existsb_elem_false in Hf. specialize (Hf b Hb).
  by rewrite bool_decide_eq_true_2, Hsub in Hf.
Qed.

Lemma nodeInDomain_spec s node domainOf key :
  snap_wf s →
  nodeInDomain s node domainOf key = true ↔
  ∃ a b, a ∈ snap_ordered s ∧ b ∈ snap_ordered s ∧ ni_Name a = node ∧ ni_Name b = domainOf ∧
         same_domain key a b.
Proof.
  intros Hwf. unfold nodeInDomain. rewrite existsb_elem.
  setoid_rewrite (Domain_elem s domainOf key _ Hwf). setoid_rewrite bool_decide_eq_true. split.
  - intros (a & (Ha & b & Hb & Hbn & Hd) & Han). exists a, b. split_and!; [done..|by symmetry].
  - intros (a & b & Ha & Hb & Han & Hbn & Hd). exists a. split_and!; [done| |done].
    exists b. split_and!; [done..|by symmetry].
Qed.

(** Sharing a topology domain is symmetric: the forward anti-affinity check (the new
    app's own terms) and the symmetric one (the placed apps' terms) agree on which nodes
    form one domain. *)
Lemma nodeInDomain_sym s a b key :
  snap_wf s → nodeInDomain s a b key = nodeInDomain s b a key.
Proof.
  intros Hwf. apply eq_iff_eq_true. rewrite !nodeInDomain_spec by done.
  split; intros (x & y & ? & ? & ? & ? & ?); exists y, x; (split_and!; [done..|by symmetry]).
Qed.

Lemma repelledByPlaced_false s app node :
  snap_wf s → repelledByPlaced s app node = false →
  ∀ self nj b t, self ∈ snap_ordered s → ni_Name self = node → nj ∈ snap_ordered s →
    b ∈ ni_Apps nj → pa_Namespace b = app_Namespace app → t ∈ pa_AntiAffinity b →
    subsetMatch (wat_LabelSelector t) (app_Labels app) = true →
    ¬ same_domain (wat_TopologyKey t) nj self.
Proof.
  unfold repelledByPlaced, snap_List. rewrite existsb_elem_false.
  intros Hwf Hf self nj b t Hs Hn Hj Hb Hns Ht Hsub Hdom.
  specialize (Hf nj Hj). rewrite existsb_elem_false in Hf. specialize (Hf b Hb).
  rewrite bool_decide_eq_true_2 in Hf by done. simpl in Hf.
  rewrite existsb_elem_false in Hf. specialize (Hf t Ht). rewrite Hsub in Hf. simpl in Hf.
  apply not_true_iff_false in Hf. apply Hf. apply nodeInDomain_spec; [done|].
  exists self, nj. split_and!; [done..|by symmetry].
Qed.

(** What a successful WorkloadAffinity filter establishes about the new app. *)
Definition affinity_clear s (app : Application) ni : Prop :=
  (∀ t, t ∈ wa_required (workloadAff app).2 →
     domainHasMatch s (ni_Name ni) (app_Namespace app) t = false) ∧
  repelledByPlaced s app (ni_Name ni) = false.

Lemma PlacedFromApp_anti app : pa_AntiAffinity (PlacedFromApp app) = wa_required (workloadAff app).2.
Proof.
  unfold PlacedFromApp, workloadAff. simpl. destruct (app_Affinity app) as [af|]; [|done].
  simpl. by destruct (af_WorkloadAntiAffinity af).
Qed.

Lemma same_domain_node key a a' b b' :
  ni_Node a = ni_Node a' → ni_Node b = ni_Node b' → same_domain key a b → same_domain key a' b'.
Proof. unfold same_domain, ni_Name. by intros -> ->. Qed.

(** An entry of the snapshot after app [c] was appended to the node at [i0]. *)
Lemma entry_add s i0 f c i p ni a :
  (∀ n, ni_Node (f n) = ni_Node n) → (∀ n, ni_Apps (f n) = ni_Apps n ++ [c]) →
  entry (snap_modify s i0 f) i p ni a →
  ∃ n, snap_ordered s !! i = Some n ∧ ni_Node ni = ni_Node n ∧
    (ni_Apps n !! p = Some a ∨ i = i0 ∧ p = length (ni_Apps n) ∧ a = c).
Proof.
  intros Hn Ha [Hi Hp]. simpl in Hi. destruct (decide (i0 = i)) as [->|Hne].
  - rewrite list_lookup_alter_eq in Hi. destruct (snap_ordered s !! i) as [n|]; simplify_eq/=.
    exists n. split_and!; [done|apply Hn|]. rewrite Ha in Hp.
    apply lookup_app_Some in Hp as [Hp|[Hge Hp]]; [by left|right].
    apply list_lookup_singleton_Some in Hp as [Hz ->]. split_and!; [done|lia|done].
  - rewrite list_lookup_alter_ne in Hi by done. exists ni. auto.
Qed.

Lemma anti_affinity_add s i0 ni0 f app :
  (∀ n, ni_Node (f n) = ni_Node n) → (∀ n, ni_Apps (f n) = ni_Apps n ++ [PlacedFromApp app]) →
  snap_wf s → snap_ordered s !! i0 = Some ni0 →
  affinity_clear s app ni0 → anti_affinity_ok s → anti_affinity_ok (snap_modify s i0 f).
Proof.
  intros Hn Ha Hwf Hi0 [Hfwd Hsym] Hok i p ni a j q nj b t Hea Heb Hne [Ht [Hns Hsub]] Hdom.
  assert (ni0 ∈ snap_ordered s) as Hin0 by (apply list_elem_of_lookup; eauto).
  destruct (entry_add _ _ _ _ _ _ _ _ Hn Ha Hea) as (na & Hia & Hna & [Hpa|(-> & -> & ->)]);
  destruct (entry_add _ _ _ _ _ _ _ _ Hn Ha Heb) as (nb & Hjb & Hnb & [Hqb|(-> & -> & ->)]);
    apply (same_domain_node _ _ na _ nb Hna Hnb) in Hdom.
  - by eapply (Hok i p na a j q nb b t); [split|split|..|split_and!|].
  - assert (nb = ni0) as -> by congruence.
    eapply (repelledByPlaced_false s app _ Hwf Hsym ni0 na a t); try done;
      apply list_elem_of_lookup; eauto.
  - assert (na = ni0) as -> by congruence. rewrite PlacedFromApp_anti in Ht.
    eapply (domainHasMatch_false s _ _ t Hwf (Hfwd t Ht) ni0 nb b); try done;
      apply list_elem_of_lookup; eauto.
  - destruct Hne. f_equal. congruence.
Qed.
End AntiAffinityFacts.

(** ** Facts: what each filter's success means *)
Section FilterFacts.
Context {HQ : Quantity} {H : Type} {HH : Handle H}.
Implicit Types (x : H * CycleState CycleVal) (app : Application) (ni : NodeInfo).

(** The node can take new work, its heartbeat being fresh at a clock reading [t]. *)
Definition schedulable_at (timeout t : Z) (n : Node) : Prop :=
  node_Unschedulable n = false ∧ ns_Ready (node_Status n) = true ∧
  q_IsZero (ra_CPU (ns_Capacity (node_Status n))) = false ∧
  q_IsZero (ra_Memory (ns_Capacity (node_Status n))) = false ∧
  ns_Heartbeat (node_Status n) ≠ 0%Z ∧
  (time_Sub t (ns_Heartbeat (node_Status n)) ≤ timeout)%Z.

Definition selector_ok app (n : Node) : Prop :=
  subsetMatch (pl_NodeSelector (sp_Placement (app_Spec app))) (SchedulingLabels n) = true ∧
  ∀ na req, nodeAffinity app = Some na → na_Required na = Some req →
    nodeSelectorMatches req (SchedulingLabels n) = true.

Definition runtime_ok app (n : Node) : Prop :=
  sp_RuntimeClassName (app_Spec app) = "" ∨ sp_RuntimeClassName (app_Spec app) ∈ ns_Runtimes (node_Status n).

Definition network_ok app (n : Node) : Prop :=
  OnHostNetwork app = true ∨ ns_RoutedNetwork (node_Status n) = true.

Definition coaffinity_ok (s : Snapshot) app ni : Prop :=
  ∀ t, t ∈ wa_required (workloadAff app).1 →
    domainHasMatch s (ni_Name ni) (app_Namespace app) t = true.

Definition fits_after app ni : Prop :=
  ra_Exceeds (ra_Add (ni_Requested ni) (app_requests app)) (ns_Capacity (node_Status (ni_Node ni))) false = [].

Definition volumes_allow (vs : volumeState) ni : Prop :=
  vst_required vs = "" ∨ vst_required vs = ni_Name ni.

Ltac rejected := intros; simplify_eq; split; [by auto|intros [=]].

Lemma NodeSchedulable_Filter_spec timeout app ni x x' st :
  NodeSchedulable_Filter timeout app ni x = (x', st) →
  (x' = x ∨ x' = (fst (h_Clock (fst x)), snd x)) ∧
  (IsSuccess st = true →
     x' = (fst (h_Clock (fst x)), snd x) ∧ schedulable_at timeout (snd (h_Clock (fst x))) (ni_Node ni)).
Proof.
  unfold NodeSchedulable_Filter, schedulable_at.
  destruct (node_Unschedulable _); [rejected|].
  destruct (ns_Ready _); simpl; [|rejected].
  destruct (q_IsZero (ra_CPU _)); simpl; [rejected|].
  destruct (q_IsZero (ra_Memory _)); simpl; [rejected|]. simpl.
  case_bool_decide; [rejected|].
  destruct (h_Clock (fst x)) as [h' t]. simpl.
  case_bool_decide; intros; simplify_eq; (split; [by auto|]); [intros [=]|].
  intros _. split_and!; try done. lia.
Qed.

(** A filter that reads no clock returns the state it was given. *)
Lemma RuntimeClass_Filter_spec app ni x :
  ∃ st, RuntimeClass_Filter app ni x = (x, st) ∧ (IsSuccess st = true → runtime_ok app (ni_Node ni)).
Proof.
  unfold RuntimeClass_Filter, runtime_ok. case_bool_decide; [eauto|].
  case_bool_decide; [eauto|]. eexists; split; [done|]. intros [=].
Qed.

Lemma RoutedNetwork_Filter_spec app ni x :
  ∃ st, RoutedNetwork_Filter app ni x = (x, st) ∧ (IsSuccess st = true → network_ok app (ni_Node ni)).
Proof.
  unfold RoutedNetwork_Filter, network_ok. destruct (OnHostNetwork app); [eauto|].
  destruct (ns_RoutedNetwork _); [eauto|]. eexists; split; [done|]. intros [=].
Qed.

Lemma NodeAffinity_Filter_spec app ni x :
  ∃ st, NodeAffinity_Filter app ni x = (x, st) ∧ (IsSuccess st = true → selector_ok app (ni_Node ni)).
Proof.
  unfold NodeAffinity_Filter, selector_ok. destruct (subsetMatch _ _); simpl.
  2:{ eexists; split; [done|]. intros [=]. }
  destruct (nodeAffinity app) as [na|]; [|by eexists].
  destruct (na_Required na) as [req|] eqn:E.
  2:{ eexists; split; [done|]. intros _. split; [done|]. intros. congruence. }
  destruct (nodeSelectorMatches _ _) eqn:Em; simpl.
  - eexists; split; [done|]. intros _. split; [done|]. intros. by simplify_eq.
  - eexists; split; [done|]. intros [=].
Qed.

Lemma WorkloadAffinity_Filter_spec app ni x :
  ∃ st, WorkloadAffinity_Filter app ni x = (x, st) ∧
    (IsSuccess st = true →
     coaffinity_ok (h_Snapshot (fst x)) app ni ∧ affinity_clear (h_Snapshot (fst x)) app ni).
Proof.
  unfold WorkloadAffinity_Filter, coaffinity_ok, affinity_clear.
  destruct (forallb _ _) eqn:E1; simpl; [|eexists; split; [done|]; intros [=]].
  destruct (existsb _ _) eqn:E2; [eexists; split; [done|]; intros [=]|].
  destruct (repelledByPlaced _ _ _); [eexists; split; [done|]; intros [=]|].
  rewrite forallb_elem in E1. rewrite existsb_elem_false in E2. eauto 6.
Qed.

Lemma NodeResourcesFit_Filter_spec app ni x :
  ∃ st, NodeResourcesFit_Filter app ni x = (x, st) ∧ (IsSuccess st = true → fits_after app ni).
Proof.
  unfold NodeResourcesFit_Filter, fits_after. destruct (ra_Exceeds _ _ _); [eauto|].
  eexists; split; [done|]. intros [=].
Qed.

Lemma VolumeBinding_Filter_spec app ni x :
  ∃ st, VolumeBinding_Filter app ni x = (x, st) ∧
    (IsSuccess st = true → volumes_allow (volumeStateOf (snd x)) ni).
Proof.
  unfold VolumeBinding_Filter, volumes_allow.
  repeat case_bool_decide; simpl; eauto. eexists; split; [done|]. intros [=].
Qed.
End FilterFacts.
