(* ===== verification/Scheduler.v ===== *)
(** * The scheduler loop (controller/loops/scheduler)

    [Cluster] is the control plane the scheduler talks to: an environment that answers
    every call as an arbitrary function of the history of calls made so far, the calls and
    their answers being recorded as [Event]s.  A pass ([scheduleOnce]) transforms the
    per-pass state [Pass] (snapshot, volume index, history); its theorems speak of the
    events it adds and of the snapshot it leaves. *)
From stdpp Require Import gmap strings list sorting.
From Stdlib Require Import ZArith.
From S2P Require Import Prelude Resources CoreV1 Framework Plugins.

(** ** The control plane *)
Section Cluster.
Context {HQ : Quantity}.

Inductive Event :=
| EvApplications (r : result error (list Application))
| EvNodes (r : result error (list Node))
| EvVolumes (r : result error (list PersistentVolume))
| EvAssign (namespace app node : string) (err : option error)
| EvAssignVolume (namespace pv node : string) (err : option error)
| EvCreateVolume (namespace name : string) (size : Qty) (err : option error)
| EvUpdateAppStatus (app : Application) (err : option error)
| EvNow (t : Z).

Abbreviation History := (list Event).

Record Cluster := mkCluster {
  cl_Applications : History → result error (list Application);
  cl_Nodes : History → result error (list Node);
  cl_Volumes : History → result error (list PersistentVolume);
  cl_Assign : History → string → string → string → option error;
  cl_AssignVolume : History → string → string → string → option error;
  cl_CreateVolume : History → string → string → Qty → option error;
  cl_UpdateAppStatus : History → Application → option error;
  cl_now : History → Z;
}.

(** The state of one pass; [ps_hist] is in the order of the calls. *)
Record Pass := mkPass {
  ps_snap : Snapshot;
  ps_pvs : gmap string PersistentVolume;
  ps_hist : History;
}.

Definition log_event (e : Event) (p : Pass) : Pass :=
  mkPass (ps_snap p) (ps_pvs p) (ps_hist p ++ [e]).
End Cluster.
#[global] Arguments Cluster {HQ}.
#[global] Arguments Event {HQ}.
#[global] Arguments Pass {HQ}.

Section Handle.
Context {HQ : Quantity} (cl : Cluster).

Definition zero_PV : PersistentVolume := mkPV zero_meta (mkPVSpec q_zero "" "" "" false).

Definition with_size (size : Qty) (pv : PersistentVolume) : PersistentVolume :=
  let s := pv_Spec pv in
  mkPV (pv_meta pv) (mkPVSpec size (pvs_Node s) (pvs_Mode s) (pvs_ReclaimPolicy s) (pvs_Shared s)).
Definition with_node (node : string) (pv : PersistentVolume) : PersistentVolume :=
  let s := pv_Spec pv in
  mkPV (pv_meta pv) (mkPVSpec (pvs_Size s) node (pvs_Mode s) (pvs_ReclaimPolicy s) (pvs_Shared s)).

(** [Scheduler.PV]. *)
Definition sched_PV (p : Pass) (namespace name : string) : option PersistentVolume :=
  ps_pvs p !! WorkloadID namespace name.

(** [Scheduler.CreatePV]. *)
Definition sched_CreatePV (namespace name : string) (size : Qty) (p : Pass) : Pass * option error :=
  let err := cl_CreateVolume cl (ps_hist p) namespace name size in
  let p' := log_event (EvCreateVolume namespace name size err) p in
  match err with
  | Some _ => (p', err)
  | None => (mkPass (ps_snap p') (<[WorkloadID namespace name := with_size size zero_PV]> (ps_pvs p'))
               (ps_hist p'), None)
  end.

(** [Scheduler.BindPV]. *)
Definition sched_BindPV (namespace name node : string) (p : Pass) : Pass * option error :=
  let err := cl_AssignVolume cl (ps_hist p) namespace name node in
  let p' := log_event (EvAssignVolume namespace name node err) p in
  match err with
  | Some _ => (p', err)
  | None =>
      let id := WorkloadID namespace name in
      let pv := default zero_PV (ps_pvs p' !! id) in
      (mkPass (ps_snap p') (<[id := with_node node pv]> (ps_pvs p')) (ps_hist p'), None)
  end.

(** [Scheduler.BindApp]. *)
Definition sched_BindApp (namespace name node : string) (p : Pass) : Pass * option error :=
  let err := cl_Assign cl (ps_hist p) namespace name node in
  (log_event (EvAssign namespace name node err) p, err).

Definition sched_Clock (p : Pass) : Pass * Z :=
  let t := cl_now cl (ps_hist p) in (log_event (EvNow t) p, t).

#[export] Instance sched_handle : Handle Pass := {|
  h_Snapshot := ps_snap;
  h_modify i f p := mkPass (snap_modify (ps_snap p) i f) (ps_pvs p) (ps_hist p);
  h_Clock := sched_Clock;
  h_PV := sched_PV;
  h_CreatePV := sched_CreatePV;
  h_BindPV := sched_BindPV;
  h_BindApp := sched_BindApp;
|}.

(** The scheduler keeps its side of the Handle contract. *)
#[export] Instance sched_handle_laws : HandleLaws Pass.
Proof.
  split; try done; intros; simpl in *; unfold sched_CreatePV, sched_BindPV in *; try by case_match.
  destruct (cl_CreateVolume cl _ _ _ _); [done|]. unfold sched_PV in *. simpl in *.
  destruct (decide (WorkloadID ns name = WorkloadID ns' name')) as [E|].
  - rewrite E, lookup_insert_eq in *. by simplify_eq.
  - by rewrite lookup_insert_ne in *.
Qed.
End Handle.

Section Scheduler.
Context {HQ : Quantity}.

(** ** Configuration and wiring (scheduler.go) *)
Definition Spread : string := "spread".
Definition Binpack : string := "binpack".

Record Config := mkConfig { cfg_Policy : string; cfg_Resync : Z; cfg_ReadyTimeout : Z }.

Record Scheduler := mkScheduler {
  sch_cluster : Cluster;
  sch_policy : string;
  sch_resync : Z;
  sch_readyTimeout : Z;
  sch_fw : Framework (Pass * CycleState CycleVal);
}.

Definition seconds (n : Z) : Z := n * 1000000000.

(** [Scheduler.registry]. *)
Definition registry (cl : Cluster) (policy : string) (readyTimeout : Z)
    : Registry (Pass * CycleState CycleVal) :=
  let _ := sched_handle cl in
  <[DefaultBinderName := Ok NewDefaultBinder]>
  (<[VolumeBindingName := Ok NewVolumeBinding]>
  (<[NodeResourcesFitName := Ok (NewNodeResourcesFit (bool_decide (policy = Binpack)))]>
  (<[WorkloadAffinityName := Ok NewWorkloadAffinity]>
  (<[NodeAffinityName := Ok NewNodeAffinity]>
  (<[RoutedNetworkName := Ok NewRoutedNetwork]>
  (<[RuntimeClassName := Ok NewRuntimeClass]>
  (<[NodeSchedulableName := Ok (NewNodeSchedulable readyTimeout)]>
  (<[PrioritySortName := Ok NewPrioritySort]> ∅)))))))).

(** [defaultProfile]. *)
Definition defaultProfile : Profile :=
  mkProfile
    [PrioritySortName; NodeSchedulableName; RuntimeClassName; RoutedNetworkName;
     NodeAffinityName; WorkloadAffinityName; NodeResourcesFitName; VolumeBindingName;
     DefaultBinderName]
    (<[NodeResourcesFitName := 1%Z]> (<[NodeAffinityName := 1%Z]>
      (<[WorkloadAffinityName := 1%Z]> ∅))).

(** [scheduler.New]; [None] is the panic on a framework that does not build. *)
Definition sched_New (cl : Cluster) (cfg : Config) : option Scheduler :=
  let policy := if bool_decide (cfg_Policy cfg = "") then Spread else cfg_Policy cfg in
  let resync := if (cfg_Resync cfg <=? 0)%Z then seconds 30 else cfg_Resync cfg in
  let readyTimeout := if (cfg_ReadyTimeout cfg <=? 0)%Z then seconds 45 else cfg_ReadyTimeout cfg in
  match fw_New (registry cl policy readyTimeout) defaultProfile with
  | Ok fw => Some (mkScheduler cl policy resync readyTimeout fw)
  | Err _ => None
  end.

(** ** Reporting (unschedulable.go) *)
Definition with_status (st : ApplicationStatus) (a : Application) : Application :=
  mkApplication (app_meta a) (app_Spec a) st.
Definition with_phase_message (phase message : string) (s : ApplicationStatus) : ApplicationStatus :=
  mkAppStatus (st_ObservedGeneration s) phase message (st_Address s) (st_ExitCode s)
    (st_FinishedAt s) (st_Attempts s).

Definition update_status (cl : Cluster) (a : Application) (p : Pass) : Pass :=
  log_event (EvUpdateAppStatus a (cl_UpdateAppStatus cl (ps_hist p) a)) p.

(** [Scheduler.unschedulable]. *)
Definition unschedulable (cl : Cluster) (app : Application) (message : string) (p : Pass) : Pass :=
  if bool_decide (st_Phase (app_Status app) = AppPhasePending) &&
     bool_decide (st_Message (app_Status app) = message)
  then p
  else update_status cl
         (with_status (with_phase_message AppPhasePending message (app_Status app)) app) p.

(** [Scheduler.scheduled]. *)
Definition scheduled (cl : Cluster) (app : Application) (p : Pass) : Pass :=
  if bool_decide (st_Message (app_Status app) = "") then p
  else update_status cl
         (with_status (with_phase_message (st_Phase (app_Status app)) "" (app_Status app)) app) p.

Definition filter_reason (st : Status) : string :=
  if bool_decide (Message st = "") then "filtered" else Message st.

(** [counts[reason]++] over the verdicts, taken in an iteration order of the map. *)
Definition count_reasons (verdicts : list Status) : gmap string Z :=
  foldl (λ counts st, <[filter_reason st := (default 0 (counts !! filter_reason st) + 1)%Z]> counts)
    ∅ verdicts.

(** Commonest first, then alphabetically. *)
Definition reason_less (counts : gmap string Z) (a b : string) : bool :=
  let ca := default 0%Z (counts !! a) in
  let cb := default 0%Z (counts !! b) in
  if negb (bool_decide (ca = cb)) then bool_decide (cb < ca)%Z else String.ltb a b.

(** The text for verdicts seen in one iteration order and reasons in another. *)
Definition noNodeFits_text (considered : Z) (verdicts : list Status) (reasons : list string) : string :=
  let counts := count_reasons verdicts in
  let parts := (λ r, GoStrings.itoa (default 0%Z (counts !! r)) +:+ " " +:+ r) <$>
                 sort_stable (reason_less counts) reasons in
  "0/" +:+ GoStrings.itoa considered +:+ " nodes are available: " +:+ GoStrings.join ", " parts.

(** [noNodeFits]. *)
Definition noNodeFits (considered : Z) (filtered : gmap string Status) : string :=
  if bool_decide (considered = 0%Z) then "no node is registered"
  else
    let verdicts := snd <$> map_to_list filtered in
    noNodeFits_text considered verdicts (fst <$> map_to_list (count_reasons verdicts)).

(** ** Per-pass builders (scheduler.go) *)
Definition pending (apps : list Application) : list Application :=
  List.filter (λ a, bool_decide (app_NodeName a = "")) apps.

Definition indexPVs (pvs : list PersistentVolume) : gmap string PersistentVolume :=
  foldl (λ m pv, <[PV_ID pv := pv]> m) ∅ pvs.

(** Whether [buildSnapshot] counts an application against its node. *)
Definition occupies (a : Application) : bool :=
  negb (bool_decide (app_NodeName a = "")) && negb (Finished a).

Definition alloc_of (apps : list Application) : gmap string ResourceAmounts :=
  foldl (λ m a, if occupies a
                then <[app_NodeName a := ra_Add (default ra_zero (m !! app_NodeName a)) (app_requests a)]> m
                else m) ∅ apps.

Definition placed_of (apps : list Application) : gmap string (list PlacedApp) :=
  foldl (λ m a, if occupies a
                then <[app_NodeName a := default [] (m !! app_NodeName a) ++ [PlacedFromApp a]]> m
                else m) ∅ apps.

(** [buildSnapshot]. *)
Definition buildSnapshot (nodes : list Node) (apps : list Application) : Snapshot :=
  let alloc := alloc_of apps in
  let placed := placed_of apps in
  NewSnapshot ((λ n, mkNodeInfo n (default ra_zero (alloc !! node_Name n))
                                  (default [] (placed !! node_Name n))) <$> nodes).

(** [pickBest]. *)
Definition pickBest (feasible : list NodeInfo) (scores : gmap string Z) : string :=
  fst (foldl (λ acc ni,
    let sc := default 0%Z (scores !! ni_Name ni) in
    if bool_decide (acc.1 = "") || bool_decide (acc.2 < sc)%Z then (ni_Name ni, sc) else acc)
    ("", 0%Z) feasible).

(** ** One application (scheduleApp) *)
Section Pass.
Context (s : Scheduler).
Abbreviation St := (prod Pass (CycleState CycleVal)).

(** The filter sweep over the snapshot: the feasible nodes, and why the others are not. *)
Fixpoint filter_nodes (app : Application) (nodes : list NodeInfo)
    (feasible : list NodeInfo) (filtered : gmap string Status) (x : St)
    : St * (list NodeInfo * gmap string Status) :=
  match nodes with
  | [] => (x, (feasible, filtered))
  | ni :: nodes' =>
      let '(x', st) := RunFilter (sch_fw s) app ni x in
      if IsSuccess st then filter_nodes app nodes' (feasible ++ [ni]) filtered x'
      else filter_nodes app nodes' feasible (<[ni_Name ni := st]> filtered) x'
  end.

Definition report (app : Application) (msg : string) (x : St) : St :=
  (unschedulable (sch_cluster s) app msg (fst x), snd x).

(** Choosing the node: the PostFilter nomination when nothing is feasible, otherwise
    the best score.  [Err] carries the state after reporting why the app is pending. *)
Definition select_node (app : Application) (x : St) : result St (string * St) :=
  let '(x1, (feasible, filtered)) :=
    filter_nodes app (snap_List (ps_snap (fst x))) [] ∅ x in
  match feasible with
  | [] =>
      let '(x2, (nominated, st)) := RunPostFilter (sch_fw s) app filtered x1 in
      if negb (IsSuccess st)
      then Err (report app (noNodeFits (Z.of_nat (length (snap_List (ps_snap (fst x2))))) filtered) x2)
      else Ok (nominated, x2)
  | _ =>
      let '(x2, st) := RunPreScore (sch_fw s) app feasible x1 in
      if negb (IsSuccess st) then Err (report app ("not schedulable: " +:+ Message st) x2)
      else
        let '(x3, scores) := RunScore (sch_fw s) app feasible x2 in
        match scores with
        | Err st => Err (report app ("not schedulable: " +:+ Message st) x3)
        | Ok sc => Ok (pickBest feasible sc, x3)
        end
  end.

(** Reserve, Permit, PreBind, Bind and PostBind on the chosen node, a failure after
    Reserve rolling the reservation back. *)
Definition place_on (app : Application) (node : string) (x : St) : St :=
  let fail_with st x := report app ("not placed on " +:+ node +:+ ": " +:+ Message st) x in
  let '(x1, st) := RunReserve (sch_fw s) app node x in
  if negb (IsSuccess st) then fail_with st x1
  else
    let '(x2, st) := RunPermit (sch_fw s) app node x1 in
    if negb (IsSuccess st) then fail_with st (RunUnreserve (sch_fw s) app node x2)
    else
      let '(x3, st) := RunPreBind (sch_fw s) app node x2 in
      if negb (IsSuccess st) then fail_with st (RunUnreserve (sch_fw s) app node x3)
      else
        let '(x4, st) := RunBind (sch_fw s) app node x3 in
        if negb (IsSuccess st) then fail_with st (RunUnreserve (sch_fw s) app node x4)
        else
          let x5 := RunPostBind (sch_fw s) app node x4 in
          (scheduled (sch_cluster s) app (fst x5), snd x5).

(** [Scheduler.scheduleApp]. *)
Definition scheduleApp (app : Application) (p : Pass) : Pass :=
  let '(x1, st) := RunPreFilter (sch_fw s) app (p, NewCycleState) in
  if negb (IsSuccess st) then fst (report app ("not schedulable: " +:+ Message st) x1)
  else match select_node app x1 with
       | Err x => fst x
       | Ok (node, x2) => fst (place_on app node x2)
       end.

(** The volume points of one already-placed app. *)
Definition coschedule (app : Application) (p : Pass) : Pass :=
  if bool_decide (app_NodeName app = "") then p
  else
    let '(x1, st) := RunPreFilter (sch_fw s) app (p, NewCycleState) in
    if negb (IsSuccess st) then fst x1
    else fst (fst (RunPreBind (sch_fw s) app (app_NodeName app) x1)).

(** [Scheduler.scheduleOnce]. *)
Definition scheduleOnce (p : Pass) : Pass :=
  let rapps := cl_Applications (sch_cluster s) (ps_hist p) in
  let p := log_event (EvApplications rapps) p in
  match rapps with
  | Err _ => p
  | Ok apps =>
      let rnodes := cl_Nodes (sch_cluster s) (ps_hist p) in
      let p := log_event (EvNodes rnodes) p in
      match rnodes with
      | Err _ => p
      | Ok nodes =>
          let rpvs := cl_Volumes (sch_cluster s) (ps_hist p) in
          let p := log_event (EvVolumes rpvs) p in
          match rpvs with
          | Err _ => p
          | Ok pvs =>
              let p := mkPass (buildSnapshot nodes apps) (indexPVs pvs) (ps_hist p) in
              let p := foldl (λ p a, coschedule a p) p apps in
              foldl (λ p a, scheduleApp a p) p (fw_Sort (sch_fw s) (pending apps))
          end
      end
  end.
End Pass.
End Scheduler.
#[global] Arguments Scheduler {HQ}.
