(* ===== verification/SchedulerFacts.v ===== *)
(** * Correctness of the scheduler loop

    The default framework is computed once ([default_fw]); every placement is then an
    [outcome], the abstract specification of one scheduling cycle: either nothing was
    assigned and the snapshot is what it was (a reservation rolled back included), or the
    app was assigned to a node that passed every filter and that node alone was debited.
    The pass-level theorems follow by induction over the queue. *)
From stdpp Require Import gmap strings list sorting.
From Stdlib Require Import ZArith.
From S2P Require Import Prelude Resources CoreV1 Framework Plugins Scheduler.

Section Facts.
Context {HQ : Quantity}.

Definition default_fw (cl : Cluster) (policy : string) (timeout : Z)
    : Framework (Pass * CycleState CycleVal) :=
  let _ := sched_handle cl in
  {| fw_queueSort := Some (PrioritySortName, PrioritySort_Less);
     fw_preFilter := [VolumeBinding_PreFilter];
     fw_filter := [NodeSchedulable_Filter timeout; RuntimeClass_Filter; RoutedNetwork_Filter;
                   NodeAffinity_Filter; WorkloadAffinity_Filter; NodeResourcesFit_Filter;
                   VolumeBinding_Filter];
     fw_postFilter := [];
     fw_preScore := [NodeAffinity_PreScore; WorkloadAffinity_PreScore];
     fw_score := [(NodeAffinityName, NodeAffinity_Score);
                  (WorkloadAffinityName, WorkloadAffinity_Score);
                  (NodeResourcesFitName, NodeResourcesFit_Score (bool_decide (policy = Binpack)))];
     fw_reserve := [(WorkloadAffinity_Reserve, WorkloadAffinity_Unreserve);
                    (NodeResourcesFit_Reserve, NodeResourcesFit_Unreserve)];
     fw_permit := [];
     fw_preBind := [VolumeBinding_PreBind];
     fw_bind := [DefaultBinder_Bind];
     fw_postBind := [];
     fw_weights := <[NodeResourcesFitName := 1%Z]> (<[WorkloadAffinityName := 1%Z]>
                     (<[NodeAffinityName := 1%Z]> ∅)) |}.

Lemma New_loop_cons {X} (r : Registry X) w name names fw :
  New_loop r w (name :: names) fw =
  match r !! name with
  | None => Err (UnknownPlugin name)
  | Some (Err e) => Err (InitPlugin name e)
  | Some (Ok pl) => let* fw' := file_plugin w name pl fw in New_loop r w names fw'
  end.
Proof. done. Qed.

Lemma default_fw_New cl policy timeout :
  fw_New (registry cl policy timeout) defaultProfile = Ok (default_fw cl policy timeout).
Proof.
  unfold fw_New, defaultProfile, pr_Plugins, pr_ScoreWeights.
  repeat (rewrite New_loop_cons; unfold registry at 1;
          rewrite ?lookup_insert_ne by done; rewrite lookup_insert_eq;
          unfold file_plugin; cbn [p_Less p_PreFilter p_Filter p_PostFilter p_PreScore p_Score
            p_Reserve p_Permit p_PreBind p_Bind p_PostBind p_Name fw_queueSort fw_empty
            NewPrioritySort NewNodeSchedulable NewRuntimeClass NewRoutedNetwork NewNodeAffinity
            NewWorkloadAffinity NewNodeResourcesFit NewVolumeBinding NewDefaultBinder]).
  cbn [New_loop]. unfold default_fw. f_equal.
Qed.

(** ** Histories *)
(** A successful [Assign], as (namespace, app, node). *)
Definition assigned_of (e : Event) : option (string * string * string) :=
  match e with EvAssign ns app node None => Some (ns, app, node) | _ => None end.

Definition assigns (evs : list Event) : list (string * string * string) := omap assigned_of evs.

Definition not_assign (e : Event) : Prop :=
  match e with EvAssign _ _ _ _ => False | _ => True end.

Lemma assigns_app e1 e2 : assigns (e1 ++ e2) = assigns e1 ++ assigns e2.
Proof. apply omap_app. Qed.

Lemma assigns_quiet evs : Forall not_assign evs → assigns evs = [].
Proof. induction 1 as [|[] evs ? ? IH]; simpl; done. Qed.

(** [p'] follows [p] without a placement write and with the same snapshot. *)
Definition quiet (p p' : Pass) : Prop :=
  ps_snap p' = ps_snap p ∧ ∃ evs, ps_hist p' = ps_hist p ++ evs ∧ Forall not_assign evs.

#[export] Instance quiet_preorder : PreOrder quiet.
Proof.
  split.
  - intros p. split; [done|]. exists []. by rewrite app_nil_r.
  - intros p q r [Hs1 (e1 & H1 & F1)] [Hs2 (e2 & H2 & F2)]. split; [congruence|].
    exists (e1 ++ e2). rewrite H2, H1, app_assoc. split; [done|]. by apply Forall_app.
Qed.

Lemma quiet_log e p : not_assign e → quiet p (log_event e p).
Proof. intros He. split; [done|]. exists [e]. split; [done|]. by constructor. Qed.

Context (cl : Cluster) (policy : string) (resync timeout : Z).
#[local] Hint Extern 0 (Handle Pass) => exact (sched_handle cl) : typeclass_instances.
#[local] Hint Extern 0 (HandleLaws Pass) => exact (sched_handle_laws cl) : typeclass_instances.
Abbreviation fw := (default_fw cl policy timeout).
Abbreviation sch := (mkScheduler cl policy resync timeout (default_fw cl policy timeout)).
Implicit Types (p : Pass) (x : Pass * CycleState CycleVal) (app : Application).

Lemma quiet_with_pvs p pvs : quiet p (mkPass (ps_snap p) pvs (ps_hist p)).
Proof. split; [done|]. exists []. by rewrite app_nil_r. Qed.

Lemma quiet_CreatePV ns name sz p : quiet p (fst (sched_CreatePV cl ns name sz p)).
Proof.
  unfold sched_CreatePV. destruct (cl_CreateVolume _ _ _ _ _); simpl; [by apply quiet_log|].
  split; [done|]. eexists [_]. split; [done|]. by constructor.
Qed.

Lemma quiet_BindPV ns name node p : quiet p (fst (sched_BindPV cl ns name node p)).
Proof.
  unfold sched_BindPV. destruct (cl_AssignVolume _ _ _ _ _); simpl; [by apply quiet_log|].
  split; [done|]. eexists [_]. split; [done|]. by constructor.
Qed.

Lemma quiet_update_status a p : quiet p (update_status cl a p).
Proof. by apply quiet_log. Qed.

Lemma quiet_unschedulable app msg p : quiet p (unschedulable cl app msg p).
Proof. unfold unschedulable. case_match; [done|]. apply quiet_update_status. Qed.

Lemma quiet_scheduled app p : quiet p (scheduled cl app p).
Proof. unfold scheduled. case_match; [done|]. apply quiet_update_status. Qed.

Lemma quiet_volume_loop app ms vs p : quiet p (fst (volume_loop app ms vs p)).
Proof.
  revert vs p. induction ms as [|m ms IH]; intros vs p; simpl; [done|].
  destruct (negb (IsPV m)); [apply IH|].
  destruct (sched_PV _ _ _) as [pv|].
  - case_bool_decide; [apply IH|]. destruct (negb _ && negb _); [done|apply IH].
  - pose proof (quiet_CreatePV (app_Namespace app) (PVName m (app_Name app)) (vs_Size (vm_Volume m)) p).
    destruct (sched_CreatePV _ _ _ _ _) as [p1 [e|]]; simpl in *; [done|].
    etransitivity; [done|apply IH].
Qed.

Lemma quiet_PreFilter app x : quiet (fst x) (fst (fst (RunPreFilter fw app x))).
Proof.
  unfold RunPreFilter. simpl. unfold VolumeBinding_PreFilter.
  pose proof (quiet_volume_loop app (sp_Volumes (app_Spec app)) (mkVolumeState "" []) (fst x)).
  destruct (volume_loop _ _ _ _) as [p' [vs|st]]; simpl in *; [done|]. by case_match.
Qed.

Lemma quiet_bind_volumes app node names p : quiet p (fst (bind_volumes app node names p)).
Proof.
  revert p. induction names as [|n names IH]; intros p; simpl; [done|].
  pose proof (quiet_BindPV (app_Namespace app) n node p).
  destruct (sched_BindPV _ _ _ _ _) as [p1 [e|]]; simpl in *; [done|].
  etransitivity; [done|apply IH].
Qed.

Lemma quiet_PreBind app node x : quiet (fst x) (fst (fst (RunPreBind fw app node x))).
Proof.
  unfold RunPreBind. simpl. unfold VolumeBinding_PreBind.
  pose proof (quiet_bind_volumes app node (vst_nodeless (volumeStateOf (snd x))) (fst x)).
  destruct (bind_volumes _ _ _ _) as [p' st]; simpl in *. by case_match.
Qed.

(** ** Filtering *)
(** Everything the filters of the default profile require of a node, its heartbeat being
    judged at a reading of the clock among the events [evs]. *)
Record feasible (evs : list Event) (s : Snapshot) (vs : volumeState) app (ni : NodeInfo) : Prop := {
  fe_schedulable : ∃ t, EvNow t ∈ evs ∧ schedulable_at timeout t (ni_Node ni);
  fe_runtime : runtime_ok app (ni_Node ni);
  fe_network : network_ok app (ni_Node ni);
  fe_selector : selector_ok app (ni_Node ni);
  fe_coaffinity : coaffinity_ok s app ni;
  fe_clear : affinity_clear s app ni;
  fe_fits : fits_after app ni;
  fe_volumes : volumes_allow vs ni;
}.

Lemma feasible_mono evs evs' s vs app ni :
  evs ⊆ evs' → feasible evs s vs app ni → feasible evs' s vs app ni.
Proof. intros Hsub [(t & Ht & Hs)]. split; eauto. Qed.

(** The events [p'] has added to those of [p]. *)
Definition since p p' : list Event := drop (length (ps_hist p)) (ps_hist p').

Lemma since_app p p' evs : ps_hist p' = ps_hist p ++ evs → since p p' = evs.
Proof. unfold since. intros ->. by rewrite drop_app_length. Qed.

Lemma since_trans p q r : quiet p q → quiet q r → since p r = since p q ++ since q r.
Proof.
  intros [_ (e1 & H1 & _)] [_ (e2 & H2 & _)].
  rewrite (since_app p q e1), (since_app q r e2) by done. apply since_app. by rewrite H2, H1, app_assoc.
Qed.

Lemma RunFilter_spec app ni x x' st :
  RunFilter fw app ni x = (x', st) →
  quiet (fst x) (fst x') ∧ snd x' = snd x ∧
  (IsSuccess st = true →
     feasible (since (fst x) (fst x')) (ps_snap (fst x)) (volumeStateOf (snd x)) app ni).
Proof.
  unfold RunFilter. simpl.
  destruct (NodeSchedulable_Filter timeout app ni x) as [x1 st1] eqn:E1.
  apply NodeSchedulable_Filter_spec in E1 as [Hx1 Hok1].
  assert (quiet (fst x) (fst x1) ∧ snd x1 = snd x) as [Hq Hs].
  { destruct Hx1 as [->| ->]; [done|]. split; [|done]. simpl. by apply quiet_log. }
  assert (ps_snap (fst x1) = ps_snap (fst x)) as Hsnap by apply Hq.
  destruct (IsSuccess st1) eqn:S1; [|intros; simplify_eq; by rewrite S1].
  destruct (RuntimeClass_Filter_spec app ni x1) as (st2 & -> & H2).
  destruct (IsSuccess st2) eqn:S2; [|intros; simplify_eq; by rewrite S2].
  destruct (RoutedNetwork_Filter_spec app ni x1) as (st3 & -> & H3).
  destruct (IsSuccess st3) eqn:S3; [|intros; simplify_eq; by rewrite S3].
  destruct (NodeAffinity_Filter_spec app ni x1) as (st4 & -> & H4).
  destruct (IsSuccess st4) eqn:S4; [|intros; simplify_eq; by rewrite S4].
  destruct (WorkloadAffinity_Filter_spec app ni x1) as (st5 & -> & H5).
  destruct (IsSuccess st5) eqn:S5; [|intros; simplify_eq; by rewrite S5].
  destruct (NodeResourcesFit_Filter_spec app ni x1) as (st6 & -> & H6).
  destruct (IsSuccess st6) eqn:S6; [|intros; simplify_eq; by rewrite S6].
  destruct (VolumeBinding_Filter_spec app ni x1) as (st7 & -> & H7).
  destruct (IsSuccess st7) eqn:S7; [|intros; simplify_eq; by rewrite S7].
  intros; simplify_eq. split_and!; [done..|]. intros _.
  change (h_Snapshot (fst x')) with (ps_snap (fst x')) in H5. rewrite Hsnap in H5. rewrite Hs in H7.
  destruct (H5 eq_refl). destruct (Hok1 eq_refl) as [-> Ht]. split; auto.
  eexists. split; [|exact Ht]. rewrite (since_app _ _ [EvNow (cl_now cl (ps_hist (fst x)))]) by done.
  by left.
Qed.

Lemma filter_nodes_spec app nodes feas filt x x' feas' filt' :
  filter_nodes sch app nodes feas filt x = (x', (feas', filt')) →
  quiet (fst x) (fst x') ∧ snd x' = snd x ∧
  ∀ ni, ni ∈ feas' → ni ∈ feas ∨
    (ni ∈ nodes ∧ feasible (since (fst x) (fst x')) (ps_snap (fst x)) (volumeStateOf (snd x)) app ni).
Proof.
  revert feas filt x. induction nodes as [|n nodes IH]; intros feas filt x; simpl.
  { intros; simplify_eq. split_and!; [done|done|by left]. }
  destruct (RunFilter fw app n x) as [x1 st] eqn:E.
  apply RunFilter_spec in E as (Hq & Hs & Hok).
  assert (ps_snap (fst x1) = ps_snap (fst x)) as Hsnap by apply Hq.
  destruct (IsSuccess st); intros Hf; apply IH in Hf as (Hq' & Hs' & Hf);
    rewrite Hsnap, Hs in Hf; (split_and!; [by etransitivity|congruence|]);
    intros ni Hni; rewrite (since_trans (fst x) (fst x1) (fst x')) by done;
    destruct (Hf ni Hni) as [Hin|[Hin Hfe]].
  - apply elem_of_app in Hin as [?|Hn]; [by left|right].
    apply list_elem_of_singleton in Hn as ->.
    split; [by left|]. eapply feasible_mono; [|by apply Hok]. set_solver.
  - right. split; [by right|]. eapply feasible_mono; [|exact Hfe]. set_solver.
  - by left.
  - right. split; [by right|]. eapply feasible_mono; [|exact Hfe]. set_solver.
Qed.

Lemma pickBest_elem (feas : list NodeInfo) sc :
  feas ≠ [] → ∃ ni, ni ∈ feas ∧ pickBest feas sc = ni_Name ni.
Proof.
  unfold pickBest. destruct feas as [|n feas]; [done|]. intros _. simpl.
  set (acc := (ni_Name n, default 0%Z (sc !! ni_Name n))).
  enough (∀ l acc', (∃ ni, ni ∈ n :: feas ∧ acc'.1 = ni_Name ni) → (∀ k, k ∈ l → k ∈ n :: feas) →
    ∃ ni, ni ∈ n :: feas ∧ fst (foldl (λ acc ni,
      if bool_decide (acc.1 = "") || bool_decide (acc.2 < default 0%Z (sc !! ni_Name ni))%Z
      then (ni_Name ni, default 0%Z (sc !! ni_Name ni)) else acc) acc' l) = ni_Name ni) as Hl.
  { apply Hl; [exists n; split; [by left|done]|]. intros k Hk. by right. }
  induction l as [|k l IH]; intros acc' Hacc Hsub; simpl; [done|].
  apply IH; [|intros; apply Hsub; by right].
  destruct (_ || _); [|done]. exists k. split; [apply Hsub; by left|done].
Qed.

(** ** Choosing a node *)
Lemma RunPreScore_fst app nodes x : fst (fst (RunPreScore fw app nodes x)) = fst x ∧
  (∀ vs, volumeStateOf (snd x) = vs → volumeStateOf (snd (fst (RunPreScore fw app nodes x))) = vs).
Proof.
  unfold RunPreScore. simpl.
  assert (∀ x k m, k ≠ volumeStateKey →
    volumeStateOf (cs_Write (snd x) k (CV_scores m)) = volumeStateOf (snd x)) as Hw.
  { intros y k m Hk. unfold volumeStateOf, cs_Read, cs_Write. by rewrite lookup_insert_ne. }
  assert (∃ y, NodeAffinity_PreScore app nodes x = (y, None) ∧ fst y = fst x ∧
    volumeStateOf (snd y) = volumeStateOf (snd x)) as (y & -> & Hy1 & Hy2).
  { unfold NodeAffinity_PreScore. destruct (nodeAffinity app) as [na|]; [|eauto].
    destruct (na_Preferred na); [eauto|]. eexists; split_and!; [done|done|]. by apply Hw. }
  simpl. unfold WorkloadAffinity_PreScore.
  destruct (_ && _); simpl; [split; [done|congruence]|].
  split; [done|]. intros vs <-. rewrite Hw by done. done.
Qed.

Lemma RunScore_state app nodes x : fst (RunScore fw app nodes x) = x.
Proof.
  unfold RunScore. set (total := foldl _ _ _). clearbody total.
  assert (∀ score w nodes total, (∀ ni, fst (score ni x) = x) →
    fst (@score_nodes HQ (Pass * CycleState CycleVal) score w nodes total x) = x) as Hsn.
  { intros score w. induction nodes0 as [|n ns IH]; intros t Hs; simpl; [done|].
    specialize (Hs n) as Hn. destruct (score n x) as [x' [v st]]. simpl in Hn. subst x'.
    destruct (IsSuccess st); [by apply IH|done]. }
  assert (∀ ps total, (∀ n sc, (n, sc) ∈ ps → ∀ ni, fst (sc app ni x) = x) →
    fst (score_plugins fw ps app nodes total x) = x) as Hsp.
  { induction ps as [|[n sc] ps IH]; intros t Hs; simpl; [done|].
    pose proof (Hsn (sc app) (default 0%Z (fw_weights fw !! n)) nodes t (Hs n sc ltac:(by left))) as Hx.
    simpl in *. destruct (score_nodes _ _ _ _ _) as [x' [t'|st]]; simpl in Hx; subst x'; [|done].
    apply IH. intros n' sc' Hin. apply (Hs n' sc'). by right. }
  apply Hsp. intros n sc Hin ni. simpl in Hin.
  repeat (apply elem_of_cons in Hin as [[= -> ->]|Hin];
    [try done; unfold NodeResourcesFit_Score; by case_match|]).
  by apply elem_of_nil in Hin.
Qed.

Lemma select_node_spec app x :
  match select_node sch app x with
  | Err x' => quiet (fst x) (fst x')
  | Ok (node, x') =>
      quiet (fst x) (fst x') ∧ volumeStateOf (snd x') = volumeStateOf (snd x) ∧
      ∃ ni, ni ∈ snap_ordered (ps_snap (fst x)) ∧ ni_Name ni = node ∧
            feasible (since (fst x) (fst x')) (ps_snap (fst x)) (volumeStateOf (snd x)) app ni
  end.
Proof.
  unfold select_node. simpl.
  destruct (filter_nodes sch app _ [] ∅ x) as [x1 [feas filt]] eqn:E.
  apply filter_nodes_spec in E as (Hq & Hs & Hfe).
  destruct feas as [|f feas0] eqn:Ef.
  { simpl. etransitivity; [exact Hq|apply quiet_unschedulable]. }
  rewrite <-Ef in *.
  pose proof (RunPreScore_fst app feas x1) as [Hp1 Hp2].
  destruct (RunPreScore fw app feas x1) as [x2 st]. simpl in Hp1, Hp2.
  destruct (IsSuccess st); simpl.
  2:{ etransitivity; [exact Hq|]. rewrite <-Hp1. apply quiet_unschedulable. }
  pose proof (RunScore_state app feas x2) as Hsc.
  destruct (RunScore fw app feas x2) as [x3 [sc|st3]]; simpl in Hsc; subst x3.
  2:{ etransitivity; [exact Hq|]. rewrite <-Hp1. apply quiet_unschedulable. }
  split_and!.
  - by rewrite Hp1.
  - rewrite (Hp2 _ eq_refl). by rewrite Hs.
  - destruct (pickBest_elem feas sc) as (ni & Hni & Hpick); [by rewrite Ef|].
    exists ni. destruct (Hfe ni Hni) as [Hbad|[Hin Hok]]; [by apply elem_of_nil in Hbad|].
    split_and!; [exact Hin|done|by rewrite Hp1].
Qed.

(** ** Placing on the chosen node *)
Definition reserve_node app : NodeInfo → NodeInfo :=
  ni_Reserve (app_requests app) ∘ AddApp (PlacedFromApp app).
Definition unreserve_node app : NodeInfo → NodeInfo :=
  ni_Unreserve (app_requests app) ∘ RemoveApp (app_Namespace app) (app_Name app).

Definition with_snap (s : Snapshot) p : Pass := mkPass s (ps_pvs p) (ps_hist p).

Lemma snap_Get_modify (s : Snapshot) node i ni f :
  snap_Get s node = Some (i, ni) → snap_Get (snap_modify s i f) node = Some (i, f ni).
Proof.
  unfold snap_Get. simpl. destruct (snap_byName s !! node) as [j|]; [|done].
  destruct (snap_ordered s !! j) as [n|] eqn:E; [|done]. intros; simplify_eq.
  by rewrite list_lookup_alter_eq, E.
Qed.

Lemma snap_modify_compose (s : Snapshot) i f g :
  snap_modify (snap_modify s i f) i g = snap_modify s i (g ∘ f).
Proof. unfold snap_modify. simpl. f_equal. apply list_alter_alter_eq. Qed.

Lemma RunReserve_default app node x i ni :
  snap_Get (ps_snap (fst x)) node = Some (i, ni) →
  RunReserve fw app node x =
    ((with_snap (snap_modify (ps_snap (fst x)) i (reserve_node app)) (fst x), snd x), None).
Proof.
  intros Hg. unfold RunReserve. simpl. unfold modify_node. simpl. rewrite Hg. simpl.
  rewrite (snap_Get_modify _ _ _ _ _ Hg). simpl. unfold with_snap.
  by rewrite snap_modify_compose.
Qed.

Lemma RunUnreserve_default app node x i ni :
  snap_Get (ps_snap (fst x)) node = Some (i, ni) →
  RunUnreserve fw app node x =
    (with_snap (snap_modify (ps_snap (fst x)) i (unreserve_node app)) (fst x), snd x).
Proof.
  intros Hg. unfold RunUnreserve, unreserve_all. simpl.
  unfold WorkloadAffinity_Unreserve, NodeResourcesFit_Unreserve, modify_node. simpl. rewrite Hg. simpl.
  rewrite (snap_Get_modify _ _ _ _ _ Hg). simpl. unfold with_snap.
  by rewrite snap_modify_compose.
Qed.

Lemma bind_volumes_status app node names p p' st :
  bind_volumes app node names p = (p', st) → IsSuccess st = true → st = None.
Proof.
  revert p. induction names as [|n names IH]; intros p; simpl; [by intros; simplify_eq|].
  destruct (sched_BindPV _ _ _ _ _) as [p1 [e|]]; [|apply IH].
  intros [= <- <-] [=].
Qed.

Lemma bind_volumes_events app node names p p' :
  bind_volumes app node names p = (p', None) →
  ∃ evs, ps_hist p' = ps_hist p ++ evs ∧ Forall not_assign evs ∧
    ∀ n, n ∈ names → EvAssignVolume (app_Namespace app) n node None ∈ evs.
Proof.
  revert p. induction names as [|n names IH]; intros p; simpl.
  { intros; simplify_eq. exists []. rewrite app_nil_r. split_and!; [done..|].
    by intros ? ?%elem_of_nil. }
  unfold sched_BindPV. destruct (cl_AssignVolume _ _ _ _ _) eqn:E; [done|].
  intros Hb. apply IH in Hb as (evs & Hh & Hf & Hin). simpl in Hh.
  eexists (_ :: evs). rewrite Hh, <-app_assoc. split_and!; [done|by constructor|].
  intros n' [->|?]%elem_of_cons; [by left|]. right. auto.
Qed.

(** ** The specification of one scheduling cycle *)
(** The snapshot is the one before, or one node of it reserved and released. *)
Definition rolled_back app (s s' : Snapshot) : Prop :=
  s' = s ∨ ∃ i ni, snap_ordered s !! i = Some ni ∧
    s' = snap_modify s i (unreserve_node app ∘ reserve_node app).

(** A pv mount is on [node]: it already was, or it was assigned there among [evs]. *)
Definition colocated app p (evs : list Event) (node : string) (m : VolumeMount) : Prop :=
  EvAssignVolume (app_Namespace app) (PVName m (app_Name app)) node None ∈ evs ∨
  ∃ pv, ps_pvs p !! WorkloadID (app_Namespace app) (PVName m (app_Name app)) = Some pv ∧
        pvs_Node (pv_Spec pv) = node.

Inductive outcome app p p' : Prop :=
| outcome_pending evs :
    ps_hist p' = ps_hist p ++ evs → assigns evs = [] →
    rolled_back app (ps_snap p) (ps_snap p') → outcome app p p'
| outcome_placed evs i ni vs :
    ps_hist p' = ps_hist p ++ evs →
    assigns evs = [(app_Namespace app, app_Name app, ni_Name ni)] →
    snap_ordered (ps_snap p) !! i = Some ni →
    feasible evs (ps_snap p) vs app ni →
    (∀ m, m ∈ sp_Volumes (app_Spec app) → IsPV m = true → colocated app p evs (ni_Name ni) m) →
    ps_snap p' = snap_modify (ps_snap p) i (reserve_node app) → outcome app p p'.

Lemma outcome_pending_quiet app p p' : quiet p p' → outcome app p p'.
Proof.
  intros [Hs (evs & Hh & Hf)]. eapply outcome_pending; [done|by apply assigns_quiet|by left].
Qed.

(** Releasing a reservation made on the node at [i] and reporting leaves the app pending. *)
Lemma release_report_pending app msg p0 i ni x ev node :
  snap_ordered (ps_snap p0) !! i = Some ni →
  ps_snap (fst x) = snap_modify (ps_snap p0) i (reserve_node app) →
  snap_Get (ps_snap p0) node = Some (i, ni) →
  ps_hist (fst x) = ps_hist p0 ++ ev → assigns ev = [] →
  outcome app p0 (fst (report sch app msg (RunUnreserve fw app node x))).
Proof.
  intros Hi Hs Hg Hh Ha.
  rewrite (RunUnreserve_default app node x i (reserve_node app ni))
    by (rewrite Hs; by apply snap_Get_modify).
  destruct (quiet_unschedulable app msg (with_snap (snap_modify (ps_snap (fst x)) i
    (unreserve_node app)) (fst x))) as [Hss (ev' & Hh' & Hf')].
  eapply (outcome_pending _ _ _ (ev ++ ev')).
  - simpl in *. rewrite Hh', Hh. by rewrite app_assoc.
  - rewrite assigns_app, Ha. by apply assigns_quiet.
  - right. exists i, ni. split; [done|]. simpl in *. by rewrite Hss, Hs, snap_modify_compose.
Qed.

(** A successful PreBind has assigned every volume left to place. *)
Lemma PreBind_assigned app node x x' st :
  RunPreBind fw app node x = (x', st) → IsSuccess st = true →
  ∃ evs, ps_hist (fst x') = ps_hist (fst x) ++ evs ∧ Forall not_assign evs ∧
    ∀ n, n ∈ vst_nodeless (volumeStateOf (snd x)) →
      EvAssignVolume (app_Namespace app) n node None ∈ evs.
Proof.
  unfold RunPreBind. simpl. unfold VolumeBinding_PreBind.
  destruct (bind_volumes _ _ _ _) as [pb stb] eqn:Eb. simpl.
  destruct (IsSuccess stb) eqn:Sb; [|intros; simplify_eq; congruence].
  pose proof (bind_volumes_status _ _ _ _ _ _ Eb Sb) as ->.
  intros; simplify_eq. by apply bind_volumes_events.
Qed.

Lemma place_on_spec app node x p0 ni :
  snap_wf (ps_snap p0) → quiet p0 (fst x) →
  ni ∈ snap_ordered (ps_snap p0) → ni_Name ni = node →
  feasible (since p0 (fst x)) (ps_snap p0) (volumeStateOf (snd x)) app ni →
  (∀ m, m ∈ sp_Volumes (app_Spec app) → IsPV m = true →
     mount_resolved app p0 (volumeStateOf (snd x)) m) →
  outcome app p0 (fst (place_on sch app node x)).
Proof.
  intros Hwf [Hsnap (ev0 & Hh0 & Hf0)] Hin Hname Hfe Hmnt.
  destruct (snap_Get_Some _ _ Hwf Hin) as [i Hg]. rewrite Hname in Hg.
  pose proof (proj1 (proj1 (snap_Get_spec _ _ _ _ Hwf) Hg)) as Hi.
  unfold place_on. cbn [sch_fw sch_cluster].
  rewrite (RunReserve_default app node x i ni) by (by rewrite Hsnap). rewrite Hsnap.
  cbn [IsSuccess negb]. unfold RunPermit at 1.
  cbn [fw_permit default_fw fmap list_fmap first_failure IsSuccess negb].
  set (x1 := (with_snap _ _, snd x)).
  pose proof (quiet_PreBind app node x1) as [Hs3 (ev3 & Hh3 & Hf3)].
  destruct (RunPreBind fw app node x1) as [x3 st3] eqn:E3. simpl in Hs3, Hh3. rewrite Hh0 in Hh3.
  destruct (IsSuccess st3) eqn:S3; cbn [negb].
  2:{ apply (release_report_pending _ _ _ i ni _ (ev0 ++ ev3)); [done..|by rewrite Hh3, app_assoc|].
      by rewrite assigns_app, !assigns_quiet. }
  unfold RunBind at 1. cbn [fw_bind default_fw bind_loop]. unfold DefaultBinder_Bind, h_BindApp at 1.
  cbn [sched_handle]. unfold sched_BindApp.
  destruct (cl_Assign cl _ _ _ _) as [e|] eqn:Ea.
  { cbn [AsError status_Code st_code negb IsSuccess fst snd].
    change (bool_decide (Error = Skip)) with false. change (bool_decide (Error = Success)) with false.
    cbn [negb]. apply (release_report_pending _ _ _ i ni _
      (ev0 ++ ev3 ++ [EvAssign (app_Namespace app) (app_Name app) node (Some e)])); [done..| |].
    - simpl. by rewrite Hh3, <-!app_assoc.
    - by rewrite !assigns_app, !assigns_quiet by done. }
  cbn [AsError status_Code st_code negb IsSuccess fst snd].
  change (bool_decide (Success = Skip)) with false. cbn [negb].
  unfold RunPostBind at 1. cbn [fw_postBind default_fw foldl fst snd].
  match goal with |- context [scheduled _ _ ?q] => destruct (quiet_scheduled app q) as [Hs5 (ev5 & Hh5 & Hf5)] end.
  simpl in Hs5, Hh5. apply (outcome_placed _ _ _
    (ev0 ++ ev3 ++ [EvAssign (app_Namespace app) (app_Name app) node None] ++ ev5) i ni
    (volumeStateOf (snd x))); try done.
  - etransitivity; [exact Hh5|]. by rewrite Hh3, <-!app_assoc.
  - rewrite !assigns_app, (assigns_quiet ev0), (assigns_quiet ev3), (assigns_quiet ev5) by done.
    simpl. by rewrite Hname.
  - rewrite (since_app _ _ _ Hh0) in Hfe. eapply feasible_mono; [|exact Hfe]. set_solver.
  - intros m Hm Hpv. destruct (Hmnt m Hm Hpv) as [Hnl|(pv & Hpv' & Hn & Hne)].
    + left. destruct (PreBind_assigned _ _ _ _ _ E3 S3) as (evb & Hhb & _ & Hinb).
      simpl in Hhb. rewrite Hhb, Hh0, <-app_assoc in Hh3. simplify_list_eq.
      rewrite !elem_of_app. right. left. by apply Hinb.
    + right. exists pv. split; [done|].
      destruct (fe_volumes _ _ _ _ _ Hfe) as [Hv|Hv]; congruence.
  - etransitivity; [exact Hs5|]. by rewrite Hs3.
Qed.

Lemma volume_loop_err_fails app ms vs p p' r :
  volume_loop app ms vs p = (p', Err r) → IsSuccess (Some r) = false.
Proof.
  revert vs p. induction ms as [|m ms IH]; intros vs p; simpl; [done|].
  destruct (negb (IsPV m)); [apply IH|].
  destruct (sched_PV _ _ _) as [pv|].
  - case_bool_decide; [apply IH|]. destruct (negb _ && negb _); [by intros [= <- <-]|apply IH].
  - destruct (sched_CreatePV _ _ _ _ _) as [p1 [e|]]; [by intros [= <- <-]|apply IH].
Qed.

Lemma PreFilter_resolved app p x1 st :
  RunPreFilter fw app (p, NewCycleState) = (x1, st) → IsSuccess st = true →
  ∀ m, m ∈ sp_Volumes (app_Spec app) → IsPV m = true →
    mount_resolved app p (volumeStateOf (snd x1)) m.
Proof.
  unfold RunPreFilter. simpl.
  destruct (VolumeBinding_PreFilter app (p, NewCycleState)) as [y sty] eqn:E.
  destruct (IsSuccess sty) eqn:S; [|intros; simplify_eq; congruence].
  assert (sty = None) as ->.
  { unfold VolumeBinding_PreFilter in E. destruct (volume_loop _ _ _ _) as [h [vs|r]] eqn:El; simplify_eq; [done|].
    exfalso. revert S. by rewrite (volume_loop_err_fails _ _ _ _ _ _ El). }
  intros; simplify_eq. by apply (VolumeBinding_PreFilter_resolved app (p, NewCycleState)).
Qed.

(** One cycle of the scheduler meets its specification. *)
Lemma scheduleApp_outcome app p : snap_wf (ps_snap p) → outcome app p (scheduleApp sch app p).
Proof.
  intros Hwf. unfold scheduleApp. cbn [sch_fw].
  pose proof (quiet_PreFilter app (p, NewCycleState)) as Hq1.
  destruct (RunPreFilter fw app (p, NewCycleState)) as [x1 st] eqn:E1. simpl in Hq1.
  destruct (IsSuccess st) eqn:S1; simpl.
  2:{ apply outcome_pending_quiet. etransitivity; [done|apply quiet_unschedulable]. }
  pose proof (PreFilter_resolved _ _ _ _ E1 S1) as Hm.
  assert (ps_snap (fst x1) = ps_snap p) as Hs1 by apply Hq1.
  pose proof (select_node_spec app x1) as Hsel.
  destruct (select_node sch app x1) as [[node x2]|x2].
  - destruct Hsel as (Hq2 & Hvs & ni & Hin & Hn & Hfe).
    rewrite Hs1 in Hin, Hfe.
    apply (place_on_spec app node x2 p ni); try done; [by etransitivity| |by rewrite Hvs].
    rewrite Hvs, (since_trans p (fst x1)) by done. eapply feasible_mono; [|exact Hfe]. set_solver.
  - apply outcome_pending_quiet. by etransitivity.
Qed.
End Facts.
