(* ===== verification/SchedulerPass.v ===== *)
(** * What a whole scheduling pass guarantees

    Invariants of the snapshot (well-formedness, anti-affinity, capacity) are carried over
    the queue by induction on the cycle outcomes of [SchedulerFacts]. *)
From stdpp Require Import gmap strings list sorting.
From Stdlib Require Import ZArith.
From S2P Require Import Prelude Resources CoreV1 Framework Plugins Scheduler SchedulerFacts.

(** ** Snapshots up to the numbers their amounts denote *)
Section Equiv.
Context {HQ : Quantity} {HL : QuantityLaws HQ}.

#[export] Instance ni_equiv : Equiv NodeInfo := λ a b,
  ni_Node a = ni_Node b ∧ ni_Apps a = ni_Apps b ∧ ni_Requested a ≡ ni_Requested b.

#[export] Instance ni_equivalence : Equivalence (≡@{NodeInfo}).
Proof.
  split.
  - intros a. by split_and!.
  - intros a b (? & ? & ?). by split_and!.
  - intros a b c (? & ? & ?) (? & ? & ?). split_and!; [congruence..|by etransitivity].
Qed.

#[export] Instance snap_equiv : Equiv Snapshot := λ s t,
  snap_byName s = snap_byName t ∧ Forall2 (≡) (snap_ordered s) (snap_ordered t).

#[export] Instance snap_equivalence : Equivalence (≡@{Snapshot}).
Proof.
  split.
  - intros s. by split.
  - intros s t [? ?]. by split.
  - intros s t u [? ?] [? ?]. split; [congruence|by etransitivity].
Qed.

Lemma snap_equiv_lookup (s t : Snapshot) i ni :
  s ≡ t → snap_ordered s !! i = Some ni → ∃ ni', snap_ordered t !! i = Some ni' ∧ ni ≡ ni'.
Proof. intros [_ Hf] Hi. by eapply Forall2_lookup_l in Hf. Qed.

Lemma snap_modify_equiv_id (s : Snapshot) i ni f :
  snap_ordered s !! i = Some ni → f ni ≡ ni → snap_modify s i f ≡ s.
Proof.
  intros Hi Hf. split; [done|]. apply Forall2_same_length_lookup. simpl.
  split; [by rewrite length_alter|]. intros j a b Ha Hb.
  destruct (decide (i = j)) as [->|].
  - rewrite list_lookup_alter_eq, Hi in Ha. by simplify_eq/=.
  - rewrite list_lookup_alter_ne, Hb in Ha by done. by simplify_eq.
Qed.

(** Well-formedness and the anti-affinity invariant do not see the difference. *)
Lemma ni_equiv_Name (a b : NodeInfo) : a ≡ b → ni_Name a = ni_Name b.
Proof. intros (E & _). unfold ni_Name. by rewrite E. Qed.

#[export] Instance snap_wf_proper : Proper ((≡) ==> iff) snap_wf.
Proof.
  assert (∀ s t : Snapshot, s ≡ t → snap_wf s → snap_wf t) as Himp.
  { intros s t [Hb Hf] [Hnd Hby].
    assert (ni_Name <$> snap_ordered t = ni_Name <$> snap_ordered s) as E.
    { symmetry. clear -Hf. induction Hf; simpl; [done|]. f_equal; [by apply ni_equiv_Name|done]. }
    split; [by rewrite E|]. intros name i. rewrite <-Hb, Hby. split.
    - intros (ni & Hi & Hn). destruct (snap_equiv_lookup s t i ni) as (ni' & Hi' & He); [by split|done|].
      exists ni'. split; [done|]. by rewrite <-(ni_equiv_Name _ _ He).
    - intros (ni & Hi & Hn). destruct (snap_equiv_lookup t s i ni) as (ni' & Hi' & He); [by symmetry; split|done|].
      exists ni'. split; [done|]. by rewrite <-(ni_equiv_Name _ _ He). }
  intros s t E. split; [by apply Himp|]. apply Himp. by symmetry.
Qed.

#[export] Instance anti_affinity_proper : Proper ((≡) ==> iff) anti_affinity_ok.
Proof.
  assert (∀ s t : Snapshot, s ≡ t → anti_affinity_ok s → anti_affinity_ok t) as Himp.
  { intros s t E Hok i p ni a j q nj b r [Hi Hp] [Hj Hq] Hne Hr Hd.
    destruct (snap_equiv_lookup t s i ni) as (ni' & Hi' & (En & Ea & _)); [by symmetry|done|].
    destruct (snap_equiv_lookup t s j nj) as (nj' & Hj' & (En' & Ea' & _)); [by symmetry|done|].
    eapply (Hok i p ni' a j q nj' b r); try done.
    - split; [done|]. by rewrite <-Ea.
    - split; [done|]. by rewrite <-Ea'.
    - by eapply same_domain_node. }
  intros s t E. split; [by apply Himp|]. apply Himp. by symmetry.
Qed.
End Equiv.

(** ** Reserving and releasing one node *)
Section Rollback.
Context {HQ : Quantity} {HL : QuantityLaws HQ}.
Implicit Types (app : Application) (s : Snapshot).

Definition app_key app : string * string := (app_Namespace app, app_Name app).
Definition placed_key (a : PlacedApp) : string * string := (pa_Namespace a, pa_Name a).

(** No app of that namespace and name is on any node. *)
Definition fresh app s : Prop :=
  ∀ ni a, ni ∈ snap_ordered s → a ∈ ni_Apps ni → placed_key a ≠ app_key app.

Lemma remove_first_app_snoc app l :
  (∀ a, a ∈ l → placed_key a ≠ app_key app) →
  remove_first_app (app_Namespace app) (app_Name app) (l ++ [PlacedFromApp app]) = l.
Proof.
  induction l as [|a l IH]; intros Hf; simpl.
  { by rewrite !bool_decide_eq_true_2. }
  rewrite IH by (intros; apply Hf; by right).
  destruct (bool_decide (pa_Namespace a = _)) eqn:E1; simpl; [|done].
  destruct (bool_decide (pa_Name a = _)) eqn:E2; simpl; [|done].
  apply bool_decide_eq_true in E1, E2. destruct (Hf a); [by left|].
  unfold placed_key, app_key. by rewrite E1, E2.
Qed.

Lemma reserve_unreserve_node app ni :
  (∀ a, a ∈ ni_Apps ni → placed_key a ≠ app_key app) →
  unreserve_node app (reserve_node app ni) ≡ ni.
Proof.
  intros Hf. split_and!; simpl; [done|by apply remove_first_app_snoc|].
  split; simpl; rewrite q_nano_sub, q_nano_add; lia.
Qed.

Lemma rolled_back_equiv app s s' : fresh app s → rolled_back app s s' → s' ≡ s.
Proof.
  intros Hf [->|(i & ni & Hi & ->)]; [done|].
  apply (snap_modify_equiv_id s i ni); [done|]. apply reserve_unreserve_node.
  intros a. apply Hf. apply list_elem_of_lookup. eauto.
Qed.

Lemma reserve_node_Node app ni : ni_Node (reserve_node app ni) = ni_Node ni.
Proof. done. Qed.
Lemma reserve_node_Apps app ni : ni_Apps (reserve_node app ni) = ni_Apps ni ++ [PlacedFromApp app].
Proof. done. Qed.
Lemma reserve_node_Requested app ni :
  ni_Requested (reserve_node app ni) = ra_Add (ni_Requested ni) (app_requests app).
Proof. done. Qed.

Lemma fresh_equiv app s t : s ≡ t → fresh app s → fresh app t.
Proof.
  intros E Hf ni a [i Hi]%list_elem_of_lookup Ha.
  destruct (snap_equiv_lookup t s i ni) as (ni' & Hi' & (_ & Ea & _)); [by symmetry|done|].
  apply (Hf ni'); [apply list_elem_of_lookup; eauto|]. by rewrite <-Ea.
Qed.

Lemma fresh_reserve app app' s i :
  app_key app ≠ app_key app' → fresh app' s → fresh app' (snap_modify s i (reserve_node app)).
Proof.
  intros Hne Hf ni a Hin Ha. simpl in Hin.
  apply elem_of_alter in Hin as [Hin|(y & Hy & ->)]; [by apply (Hf ni)|].
  rewrite reserve_node_Apps in Ha. apply elem_of_app in Ha as [Ha|Ha].
  - apply (Hf y); [apply list_elem_of_lookup; eauto|done].
  - apply list_elem_of_singleton in Ha as ->. exact Hne.
Qed.
End Rollback.

(** ** The queue *)
Section Queue.
Context {HQ : Quantity} {HL : QuantityLaws HQ}.
Context (cl : Cluster) (policy : string) (resync timeout : Z).
Abbreviation sch := (mkScheduler cl policy resync timeout (default_fw cl policy timeout)).
Implicit Types (app : Application) (p : Pass) (s : Snapshot) (queue : list Application).

Definition run_queue queue p : Pass := foldl (λ p a, scheduleApp sch a p) p queue.

(** The queue's standing assumptions on a snapshot: distinct node names, and no queued
    app already placed. *)
Definition queue_ready queue s : Prop :=
  snap_wf s ∧ NoDup (app_key <$> queue) ∧ ∀ a, a ∈ queue → fresh a s.

Lemma queue_ready_equiv queue s t : s ≡ t → queue_ready queue s → queue_ready queue t.
Proof.
  intros E (Hwf & Hnd & Hf). split_and!; [by rewrite <-E|done|].
  intros a Ha. by eapply fresh_equiv, Hf.
Qed.

Lemma queue_ready_tail app queue s : queue_ready (app :: queue) s → queue_ready queue s.
Proof.
  intros (Hwf & [_ Hnd]%NoDup_cons & Hf). split_and!; [done..|].
  intros a Ha. apply Hf. by right.
Qed.

Lemma queue_ready_reserve app queue s i :
  queue_ready (app :: queue) s → queue_ready queue (snap_modify s i (reserve_node app)).
Proof.
  intros (Hwf & [Hn Hnd]%NoDup_cons & Hf). split_and!; [by apply snap_modify_wf|done|].
  intros a Ha. apply fresh_reserve; [|apply Hf; by right].
  intros E. apply Hn. rewrite E. apply list_elem_of_fmap. eauto.
Qed.

(** What a cycle does to the snapshot, for a fresh app. *)
Lemma scheduleApp_step app queue p :
  queue_ready (app :: queue) (ps_snap p) →
  let p' := scheduleApp sch app p in
  queue_ready queue (ps_snap p') ∧
  ((∃ evs, ps_hist p' = ps_hist p ++ evs ∧ assigns evs = [] ∧ ps_snap p' ≡ ps_snap p) ∨
   (∃ evs i ni vs, ps_hist p' = ps_hist p ++ evs ∧
      assigns evs = [(app_Namespace app, app_Name app, ni_Name ni)] ∧
      snap_ordered (ps_snap p) !! i = Some ni ∧ feasible timeout evs (ps_snap p) vs app ni ∧
      ps_snap p' = snap_modify (ps_snap p) i (reserve_node app))).
Proof.
  intros Hr. pose proof Hr as (Hwf & _ & Hf). simpl.
  destruct (scheduleApp_outcome cl policy resync timeout app p Hwf)
    as [evs Hh Ha Hrb|evs i ni vs Hh Ha Hi Hfe _ Hs].
  - assert (ps_snap (scheduleApp sch app p) ≡ ps_snap p) as E
      by (apply (rolled_back_equiv app); [apply Hf; by left|done]).
    split; [|left; eauto]. apply (queue_ready_equiv _ (ps_snap p)); [by symmetry|].
    by apply queue_ready_tail in Hr.
  - split; [rewrite Hs; by apply queue_ready_reserve|]. right. by exists evs, i, ni, vs.
Qed.

(** An invariant that equivalent snapshots share and every feasible reservation keeps
    holds after the queue. *)
Lemma run_queue_invariant (P : Snapshot → Prop) queue p :
  Proper ((≡) ==> iff) P →
  (∀ app evs s i ni vs, snap_wf s → P s → snap_ordered s !! i = Some ni →
     feasible timeout evs s vs app ni → P (snap_modify s i (reserve_node app))) →
  queue_ready queue (ps_snap p) → P (ps_snap p) → P (ps_snap (run_queue queue p)).
Proof.
  intros HP Hstep. revert p. induction queue as [|app queue IH]; intros p Hr Hp; [done|].
  change (run_queue (app :: queue) p) with (run_queue queue (scheduleApp sch app p)).
  destruct (scheduleApp_step app queue p Hr) as
    [Hr' [(evs & _ & _ & E)|(evs & i & ni & vs & _ & _ & Hi & Hfe & Hs)]];
    apply IH; [done|by rewrite E|done|].
  rewrite Hs. destruct Hr as (Hwf & _). by eapply Hstep.
Qed.

(** ** Accounting *)
(** The apps of [pl] placed on the node at position [i]. *)
Definition placed_on (i : nat) (pl : list (Application * nat)) : list Application :=
  (List.filter (λ ai, bool_decide (ai.2 = i)) pl).*1.

(** The assignment a placement makes, node positions read in [s]. *)
Definition assignment s (ai : Application * nat) : string * string * string :=
  (app_Namespace ai.1, app_Name ai.1, default "" (ni_Name <$> snap_ordered s !! ai.2)).

(** The node info [ni'] is [ni] with the apps [l] added, debited for each. *)
Definition debited (ni ni' : NodeInfo) (l : list Application) : Prop :=
  ni_Node ni' = ni_Node ni ∧ ni_Apps ni' = ni_Apps ni ++ (PlacedFromApp <$> l) ∧
  ni_Requested ni' ≡ foldl ra_Add (ni_Requested ni) (app_requests <$> l).

Lemma foldl_ra_Add_proper l (a b : ResourceAmounts) : a ≡ b → foldl ra_Add a l ≡ foldl ra_Add b l.
Proof. revert a b. induction l as [|r l IH]; intros a b E; simpl; [done|]. apply IH. by rewrite E. Qed.

Lemma debited_equiv ni ni1 ni' l : ni1 ≡ ni → debited ni1 ni' l → debited ni ni' l.
Proof.
  intros (En & Ea & Er) (Hn & Ha & Hr). split_and!; [congruence..|].
  etransitivity; [done|]. by apply foldl_ra_Add_proper.
Qed.

Lemma run_queue_accounting queue p :
  queue_ready queue (ps_snap p) →
  ∃ pl evs,
    ps_hist (run_queue queue p) = ps_hist p ++ evs ∧
    pl.*1 `sublist_of` queue ∧
    assigns evs = assignment (ps_snap p) <$> pl ∧
    (∀ ai, ai ∈ pl → is_Some (snap_ordered (ps_snap p) !! ai.2)) ∧
    ∀ i ni, snap_ordered (ps_snap p) !! i = Some ni →
      ∃ ni', snap_ordered (ps_snap (run_queue queue p)) !! i = Some ni' ∧
        debited ni ni' (placed_on i pl).
Proof.
  revert p. induction queue as [|app queue IH]; intros p Hr.
  { exists [], []. split_and!; [by rewrite app_nil_r|done|done|by intros ? ?%elem_of_nil|].
    intros i ni Hi. exists ni. split; [done|]. split_and!; [done|by rewrite app_nil_r|done]. }
  change (run_queue (app :: queue) p) with (run_queue queue (scheduleApp sch app p)).
  destruct (scheduleApp_step app queue p Hr) as [Hr' Hcase].
  destruct (IH _ Hr') as (pl & evs' & Hh' & Hsub & Has & Hpos & Hnodes).
  destruct Hcase as [(evs & Hh & Ha & E)|(evs & i0 & ni0 & vs & Hh & Ha & Hi0 & _ & Hs)].
  - exists pl, (evs ++ evs'). split_and!.
    + rewrite Hh', Hh. by rewrite app_assoc.
    + by apply sublist_cons.
    + rewrite assigns_app, Ha, Has. simpl. apply list_fmap_ext. intros k ai _.
      unfold assignment. f_equal. destruct E as [_ HE].
      destruct (snap_ordered (ps_snap (scheduleApp sch app p)) !! ai.2) as [n|] eqn:En; simpl.
      * eapply Forall2_lookup_l in HE as (n' & -> & He); [|done]. simpl. by apply ni_equiv_Name.
      * rewrite lookup_ge_None_2; [done|]. apply lookup_ge_None in En.
        by rewrite <-(Forall2_length _ _ _ HE).
    + intros ai Hai. destruct (Hpos ai Hai) as [n Hn]. apply lookup_lt_is_Some.
      rewrite <-(Forall2_length _ _ _ (proj2 E)). by eapply lookup_lt_Some.
    + intros i ni Hi. destruct (snap_equiv_lookup (ps_snap p) _ i ni (symmetry E) Hi) as (n1 & Hn1 & En1).
      destruct (Hnodes i n1 Hn1) as (ni' & Hni' & Hd). exists ni'. split; [done|].
      eapply debited_equiv; [|done]. by symmetry.
  - exists ((app, i0) :: pl), (evs ++ evs'). split_and!.
    + rewrite Hh', Hh. by rewrite app_assoc.
    + by apply sublist_skip.
    + rewrite assigns_app, Ha, Has. simpl. unfold assignment at 2. simpl. rewrite Hi0. simpl.
      f_equal. apply list_fmap_ext. intros k ai _. unfold assignment. f_equal. rewrite Hs. simpl.
      destruct (decide (i0 = ai.2)) as [->|Hne].
      * rewrite list_lookup_alter_eq, Hi0. done.
      * by rewrite list_lookup_alter_ne.
    + intros ai [->|Hai]%elem_of_cons; [by eexists|]. destruct (Hpos ai Hai) as [n Hn].
      apply lookup_lt_is_Some. rewrite Hs in Hn. apply lookup_lt_Some in Hn. simpl in Hn.
      by rewrite length_alter in Hn.
    + intros i ni Hi. unfold placed_on. simpl. destruct (decide (i0 = i)) as [->|Hne].
      * rewrite bool_decide_eq_true_2 by done. assert (ni0 = ni) as -> by congruence.
        destruct (Hnodes i (reserve_node app ni)) as (ni' & Hni' & (H1 & H2 & H3)).
        { rewrite Hs. simpl. by rewrite list_lookup_alter_eq, Hi. }
        exists ni'. split; [done|]. split_and!; [done| |done].
        rewrite H2, reserve_node_Apps, <-app_assoc. done.
      * rewrite bool_decide_eq_false_2 by done. apply Hnodes. rewrite Hs. simpl.
        by rewrite list_lookup_alter_ne.
Qed.
End Queue.

(** ** Building the snapshot *)
Section Build.
Context {HQ : Quantity}.
Implicit Types (apps : list Application) (nodes : list Node).

(** The applications that count against node [n], in list order. *)
Definition occupants apps (n : string) : list Application :=
  List.filter (λ a, occupies a && bool_decide (app_NodeName a = n)) apps.

Lemma alloc_of_lookup apps n :
  default ra_zero (alloc_of apps !! n) = foldl ra_Add ra_zero (app_requests <$> occupants apps n).
Proof.
  unfold alloc_of. induction apps as [|a apps IH] using rev_ind; [done|].
  rewrite foldl_app. unfold occupants in *. rewrite List.filter_app, fmap_app, foldl_app, <-IH. simpl.
  destruct (occupies a); simpl; [|done].
  case_bool_decide as E; simpl; [by rewrite E, lookup_insert_eq|by rewrite lookup_insert_ne].
Qed.

Lemma placed_of_lookup apps n :
  default [] (placed_of apps !! n) = PlacedFromApp <$> occupants apps n.
Proof.
  unfold placed_of. induction apps as [|a apps IH] using rev_ind; [done|].
  rewrite foldl_app. unfold occupants in *. rewrite List.filter_app, fmap_app, <-IH. simpl.
  destruct (occupies a); simpl; [|by rewrite app_nil_r].
  case_bool_decide as E; simpl.
  - by rewrite E, lookup_insert_eq.
  - by rewrite lookup_insert_ne, app_nil_r.
Qed.

Lemma buildSnapshot_elem nodes apps ni :
  ni ∈ snap_ordered (buildSnapshot nodes apps) ↔
  ∃ n, n ∈ nodes ∧ ni = mkNodeInfo n (foldl ra_Add ra_zero (app_requests <$> occupants apps (node_Name n)))
                                     (PlacedFromApp <$> occupants apps (node_Name n)).
Proof.
  unfold buildSnapshot. rewrite NewSnapshot_elem, list_elem_of_fmap.
  setoid_rewrite alloc_of_lookup. setoid_rewrite placed_of_lookup.
  split; intros (n & H1 & H2); exists n; split; done.
Qed.

(** The snapshot a pass starts from holds one entry per registered node, in strict
    name order, each debited for exactly the effective requests of the applications
    assigned to that node that have not run to completion, and listing exactly those
    applications as its neighbours. *)
Theorem buildSnapshot_spec nodes apps :
  NoDup (node_Name <$> nodes) →
  let s := buildSnapshot nodes apps in
  snap_wf s ∧
  StronglySorted (λ a b, String.ltb (ni_Name a) (ni_Name b) = true) (snap_ordered s) ∧
  (∀ ni, ni ∈ snap_ordered s ↔
    ∃ n, n ∈ nodes ∧ ni = mkNodeInfo n (foldl ra_Add ra_zero (app_requests <$> occupants apps (node_Name n)))
                                       (PlacedFromApp <$> occupants apps (node_Name n))).
Proof.
  intros Hnd. simpl.
  assert (snap_wf (buildSnapshot nodes apps)) as Hwf.
  { apply NewSnapshot_wf. rewrite <-list_fmap_compose. exact Hnd. }
  split_and!; [done| |apply buildSnapshot_elem].
  destruct Hwf as [Hnd' _]. revert Hnd'.
  pose proof (sort_stable_sorted name_less name_less_strict_weak
    ((λ n, mkNodeInfo n (default ra_zero (alloc_of apps !! node_Name n))
                        (default [] (placed_of apps !! node_Name n))) <$> nodes)) as Hs.
  unfold buildSnapshot, NewSnapshot. simpl in *.
  induction Hs as [|x l Hl IH Hx]; intros Hn; [constructor|].
  apply NoDup_cons in Hn as [Hni Hn]. constructor; [by apply IH|].
  rewrite Forall_forall in Hx |- *. intros y Hy. specialize (Hx y Hy).
  unfold not_after, name_less in Hx. rewrite string_ltb_leb in *. rewrite negb_true_iff.
  rewrite negb_false_iff in Hx. destruct (String.leb (ni_Name y) (ni_Name x)) eqn:E; [|done].
  destruct Hni. rewrite (string_leb_antisym _ _ Hx E). apply list_elem_of_fmap. eauto.
Qed.

Lemma buildSnapshot_wf nodes apps :
  NoDup (node_Name <$> nodes) → snap_wf (buildSnapshot nodes apps).
Proof. intros Hnd. apply NewSnapshot_wf. rewrite <-list_fmap_compose. exact Hnd. Qed.

Lemma occupants_elem apps n a :
  a ∈ occupants apps n ↔ a ∈ apps ∧ app_NodeName a = n ∧ n ≠ "" ∧ Finished a = false.
Proof.
  unfold occupants, occupies. rewrite filter_elem, !andb_true_iff, !negb_true_iff,
    bool_decide_eq_false, bool_decide_eq_true. naive_solver.
Qed.

Lemma pending_elem apps a : a ∈ pending apps ↔ a ∈ apps ∧ app_NodeName a = "".
Proof. unfold pending. by rewrite filter_elem, bool_decide_eq_true. Qed.

Lemma key_inj apps a b :
  NoDup (app_key <$> apps) → a ∈ apps → b ∈ apps → app_key a = app_key b → a = b.
Proof.
  intros Hnd [i Hi]%list_elem_of_lookup [j Hj]%list_elem_of_lookup E.
  assert (i = j) as ->; [|congruence]. eapply NoDup_lookup; [exact Hnd|..];
    rewrite list_lookup_fmap, ?Hi, ?Hj; simpl; by f_equal.
Qed.

Lemma pending_fresh nodes apps a :
  NoDup (app_key <$> apps) → a ∈ pending apps → fresh a (buildSnapshot nodes apps).
Proof.
  intros Hnd [Ha Hn]%pending_elem ni pa (n & _ & ->)%buildSnapshot_elem Hpa Hk. simpl in Hpa.
  apply list_elem_of_fmap in Hpa as (b & -> & Hb). apply occupants_elem in Hb as (Hb & Hbn & Hne & _).
  assert (b = a) as -> by by apply (key_inj apps). congruence.
Qed.

Lemma pending_nodup apps : NoDup (app_key <$> apps) → NoDup (app_key <$> pending apps).
Proof.
  intros Hnd. eapply sublist_NoDup; [exact Hnd|]. apply fmap_sublist, List_filter_sublist.
Qed.
End Build.

(** ** The whole pass *)
Section Once.
Context {HQ : Quantity} {HL : QuantityLaws HQ}.
Context (cl : Cluster) (policy : string) (resync timeout : Z).
Abbreviation sch := (mkScheduler cl policy resync timeout (default_fw cl policy timeout)).
Implicit Types (p : Pass).

Lemma coschedule_quiet app p : quiet p (coschedule sch app p).
Proof.
  unfold coschedule. case_bool_decide; [done|]. cbn [sch_fw].
  pose proof (quiet_PreFilter cl policy timeout app (p, NewCycleState)) as Hq.
  destruct (RunPreFilter _ _ _) as [x1 st]. simpl in Hq.
  destruct (IsSuccess st); simpl; [|done].
  etransitivity; [done|]. apply quiet_PreBind.
Qed.

Lemma coschedule_all_quiet apps p : quiet p (foldl (λ p a, coschedule sch a p) p apps).
Proof.
  revert p. induction apps as [|a apps IH]; intros p; simpl; [done|].
  etransitivity; [apply coschedule_quiet|apply IH].
Qed.

(** The lists a pass reads, each answered in the history the earlier reads left. *)
Definition reads p (apps : list Application) (nodes : list Node) (pvs : list PersistentVolume) : Prop :=
  cl_Applications cl (ps_hist p) = Ok apps ∧
  cl_Nodes cl (ps_hist p ++ [EvApplications (Ok apps)]) = Ok nodes ∧
  cl_Volumes cl ((ps_hist p ++ [EvApplications (Ok apps)]) ++ [EvNodes (Ok nodes)]) = Ok pvs.

(** The listed objects are keyed: distinct node names, distinct application keys. *)
Definition keyed (apps : list Application) (nodes : list Node) : Prop :=
  NoDup (node_Name <$> nodes) ∧ NoDup (app_key <$> apps).

Lemma scheduleOnce_run p apps nodes pvs :
  reads p apps nodes pvs →
  ∃ p1 evs, scheduleOnce sch p = run_queue cl policy resync timeout
              (sort_stable PrioritySort_Less (pending apps)) p1 ∧
    ps_snap p1 = buildSnapshot nodes apps ∧
    ps_hist p1 = ps_hist p ++ evs ∧ assigns evs = [].
Proof.
  intros (H1 & H2 & H3). unfold scheduleOnce. cbn [sch_cluster sch_fw]. rewrite H1.
  cbn [ps_hist log_event]. rewrite H2. cbn [ps_hist log_event]. rewrite H3.
  match goal with |- context [foldl (λ p a, coschedule _ a p) ?q apps] =>
    destruct (coschedule_all_quiet apps q) as [Hs (evs & Hh & Hf)]; set (p1 := foldl _ q apps) in * end.
  simpl in Hs, Hh. exists p1.
  exists ([EvApplications (Ok apps); EvNodes (Ok nodes); EvVolumes (Ok pvs)] ++ evs).
  split_and!; [done|done|by rewrite Hh, <-!app_assoc|]. rewrite assigns_app. simpl. by apply assigns_quiet.
Qed.

Lemma queue_ready_initial apps nodes :
  keyed apps nodes →
  queue_ready (sort_stable PrioritySort_Less (pending apps)) (buildSnapshot nodes apps).
Proof.
  intros [Hn Ha]. split_and!; [by apply buildSnapshot_wf| |].
  - rewrite (sort_stable_perm PrioritySort_Less). by apply pending_nodup.
  - intros a. rewrite (sort_stable_perm PrioritySort_Less). by apply pending_fresh.
Qed.

Lemma scheduleOnce_invariant (P : Snapshot → Prop) p apps nodes pvs :
  Proper ((≡) ==> iff) P →
  (∀ app evs s i ni vs, snap_wf s → P s → snap_ordered s !! i = Some ni →
     feasible timeout evs s vs app ni → P (snap_modify s i (reserve_node app))) →
  reads p apps nodes pvs → keyed apps nodes → P (buildSnapshot nodes apps) →
  P (ps_snap (scheduleOnce sch p)).
Proof.
  intros HP Hstep Hr Hk Hi. destruct (scheduleOnce_run p apps nodes pvs Hr) as (p1 & evs & -> & Hs & _).
  apply run_queue_invariant; [done|done|rewrite Hs; by apply queue_ready_initial|by rewrite Hs].
Qed.
End Once.
