(* ===== verification/SchedulerTheorems.v ===== *)
(** * The scheduler's theorems

    The properties of the scheduling loop as a whole, each with an instance on a concrete
    cluster ([Example]) showing its hypotheses can hold. *)
From stdpp Require Import gmap strings list sorting.
From Stdlib Require Import ZArith.
From S2P Require Import Prelude Resources CoreV1 Framework Plugins Scheduler SchedulerFacts SchedulerPass.

(** ** Picking the best node *)
Section Pick.
Context {HQ : Quantity}.
Implicit Types (l : list NodeInfo) (sc : gmap string Z).

Definition score_of sc (ni : NodeInfo) : Z := default 0%Z (sc !! ni_Name ni).

(** [best] is the first of [l] with the highest score. *)
Definition first_best sc l (best : NodeInfo) : Prop :=
  ∃ l1 l2, l = l1 ++ best :: l2 ∧
    (∀ ni, ni ∈ l1 → (score_of sc ni < score_of sc best)%Z) ∧
    (∀ ni, ni ∈ l2 → (score_of sc ni ≤ score_of sc best)%Z).

Lemma first_best_snoc sc l best ni :
  first_best sc l best →
  first_best sc (l ++ [ni]) (if bool_decide (score_of sc best < score_of sc ni)%Z then ni else best).
Proof.
  intros (l1 & l2 & -> & H1 & H2). case_bool_decide as Hlt.
  - exists (l1 ++ best :: l2), []. split_and!; [done| |by intros ? ?%elem_of_nil].
    intros k [Hk|[->|Hk]%elem_of_cons]%elem_of_app.
    + specialize (H1 k Hk). lia.
    + done.
    + specialize (H2 k Hk). lia.
  - exists l1, (l2 ++ [ni]). split_and!; [by rewrite <-app_assoc|done|].
    intros k [Hk|Hk]%elem_of_app; [by apply H2|]. apply list_elem_of_singleton in Hk as ->. lia.
Qed.

(** Among the feasible nodes, the scheduler picks the one with the highest total
    score, and among equals the first in name order: no feasible node before the chosen
    one scores as high, none after it higher. *)
Theorem pickBest_first_best l sc :
  l ≠ [] → (∀ ni, ni ∈ l → ni_Name ni ≠ "") →
  ∃ best, first_best sc l best ∧ pickBest l sc = ni_Name best.
Proof.
  intros Hne Hnames. unfold pickBest.
  enough (∃ best, first_best sc l best ∧ foldl (λ acc ni,
    if bool_decide (acc.1 = "") || bool_decide (acc.2 < default 0%Z (sc !! ni_Name ni))%Z
    then (ni_Name ni, default 0%Z (sc !! ni_Name ni)) else acc) ("", 0%Z) l =
    (ni_Name best, score_of sc best)) as (best & Hb & ->) by eauto.
  induction l as [|ni l IH] using rev_ind; [done|]. rewrite foldl_app. simpl.
  destruct (decide (l = [])) as [->|Hl].
  { exists ni. simpl. split; [|done]. exists [], []. split_and!; [done|..]; by intros ? ?%elem_of_nil. }
  destruct IH as (best & Hb & ->); [done|intros; apply Hnames; set_solver|].
  eexists. split; [by apply (first_best_snoc sc l best ni)|]. simpl.
  rewrite bool_decide_eq_false_2.
  2:{ apply Hnames. destruct Hb as (l1 & l2 & -> & _). set_solver. }
  simpl. fold (score_of sc ni). by case_bool_decide.
Qed.
End Pick.

(** ** Reporting *)
Section Report.
Context {HQ : Quantity}.

Definition reason_count (verdicts : list Status) (r : string) : nat :=
  length (List.filter (λ st, bool_decide (filter_reason st = r)) verdicts).

Lemma count_reasons_lookup verdicts r :
  count_reasons verdicts !! r =
  match reason_count verdicts r with O => None | n => Some (Z.of_nat n) end.
Proof.
  unfold count_reasons, reason_count. induction verdicts as [|st vs IH] using rev_ind; [done|].
  rewrite foldl_app, List.filter_app, length_app. simpl. case_bool_decide as E; simpl.
  - rewrite E, lookup_insert_eq, IH. rewrite Nat.add_1_r.
    destruct (length _); simpl; [done|]. f_equal. lia.
  - by rewrite lookup_insert_ne, Nat.add_0_r.
Qed.

Lemma filter_length_perm {A} (f : A → bool) (l1 l2 : list A) :
  l1 ≡ₚ l2 → length (List.filter f l1) = length (List.filter f l2).
Proof. induction 1; simpl; repeat case_match; simpl; lia. Qed.

Lemma count_reasons_perm v1 v2 : v1 ≡ₚ v2 → count_reasons v1 = count_reasons v2.
Proof.
  intros Hp. apply map_eq. intros r. rewrite !count_reasons_lookup. unfold reason_count.
  by rewrite (filter_length_perm _ _ _ Hp).
Qed.

Lemma reason_less_strict_weak counts : StrictWeak (reason_less counts).
Proof.
  pose proof (string_key_strict_weak (λ s : string, s)) as [Hi Ht Hc].
  unfold reason_less. split.
  - intros x. rewrite bool_decide_eq_true_2 by done. simpl. apply Hi.
  - intros x y z. repeat case_bool_decide; simpl; try lia; try done. apply (Ht x y z).
  - intros x y z. repeat case_bool_decide; simpl; try lia; try done. apply (Hc x y z).
Qed.

Lemma reason_less_total counts a b :
  reason_less counts a b = false → reason_less counts b a = false → a = b.
Proof.
  unfold reason_less. repeat case_bool_decide; simpl; try lia; try done.
  rewrite !string_ltb_leb, !negb_false_iff. intros. by apply string_leb_antisym.
Qed.

Lemma sort_reasons_perm counts r1 r2 :
  r1 ≡ₚ r2 → sort_stable (reason_less counts) r1 = sort_stable (reason_less counts) r2.
Proof.
  intros Hp.
  assert (AntiSymm eq (not_after (reason_less counts))) as Has.
  { intros a b Ha Hb. by apply (reason_less_total counts). }
  apply (StronglySorted_unique (not_after (reason_less counts))).
  - apply sort_stable_sorted, reason_less_strict_weak.
  - apply sort_stable_sorted, reason_less_strict_weak.
  - by rewrite !sort_stable_perm.
Qed.

(** The explanation written on an application no node will take does not depend on
    the iteration order of the Go maps it is computed from: any order of the verdicts
    and any order of the distinct reasons give the same text, so a retry that changes
    nothing rewrites nothing. *)
Theorem noNodeFits_order_independent considered filtered verdicts reasons :
  considered ≠ 0%Z →
  verdicts ≡ₚ (map_to_list filtered).*2 →
  reasons ≡ₚ (map_to_list (count_reasons verdicts)).*1 →
  noNodeFits considered filtered = noNodeFits_text considered verdicts reasons.
Proof.
  intros Hc Hv Hr. unfold noNodeFits. rewrite bool_decide_eq_false_2 by done.
  unfold noNodeFits_text. rewrite <-(count_reasons_perm _ _ Hv).
  by rewrite (sort_reasons_perm _ _ _ Hr).
Qed.

(** Reporting is idempotent: an application that already carries the Pending phase
    and this very message is not written again, and the object the report writes is one
    that a second report of the same message leaves alone. *)
Theorem unschedulable_idempotent cl app msg p :
  let next := with_status (with_phase_message AppPhasePending msg (app_Status app)) app in
  (unschedulable cl app msg p = p ∨ unschedulable cl app msg p = update_status cl next p) ∧
  ∀ p', unschedulable cl next msg p' = p'.
Proof.
  simpl. split.
  - unfold unschedulable. case_match; auto.
  - intros p'. unfold unschedulable. simpl. by rewrite bool_decide_eq_true_2.
Qed.
End Report.

(** ** The loop *)
Section Loop.
Context {HQ : Quantity} {HL : QuantityLaws HQ}.
Implicit Types (s : Scheduler) (p : Pass).

Lemma sched_New_default cl cfg s :
  sched_New cl cfg = Some s →
  ∃ policy resync timeout, s = mkScheduler cl policy resync timeout (default_fw cl policy timeout).
Proof. unfold sched_New. rewrite default_fw_New. intros; simplify_eq. eauto. Qed.

(** Building a scheduler never panics: the built-in registry and profile always
    produce a framework, whatever the configuration, and the resync period and ready
    timeout it runs with are positive. *)
Theorem sched_New_total cl cfg :
  ∃ s, sched_New cl cfg = Some s ∧ sch_policy s ≠ "" ∧
    (0 < sch_resync s)%Z ∧ (0 < sch_readyTimeout s)%Z ∧
    fw_queueSort (sch_fw s) = Some (PrioritySortName, PrioritySort_Less).
Proof.
  unfold sched_New. rewrite default_fw_New. eexists. split_and!; [done|..]; simpl.
  - by case_bool_decide.
  - destruct (Z.leb_spec (cfg_Resync cfg) 0); [done|lia].
  - destruct (Z.leb_spec (cfg_ReadyTimeout cfg) 0); [done|lia].
  - done.
Qed.

(** C3: one scheduling cycle refines its specification [outcome]: either the app stays
    pending, no Assign succeeded and the snapshot is as before up to one reservation
    released again; or exactly one Assign succeeded, for this app, to a node of the
    snapshot that passed every filter (schedulable, its heartbeat fresh at a reading of the
    clock made in this very cycle, runtime,
    network, selectors, affinity, resources, volumes), every pv mount is on that node or
    was assigned to it in this cycle, and that node alone is debited. *)
Theorem scheduleApp_refines cl cfg s app p :
  sched_New cl cfg = Some s → snap_wf (ps_snap p) →
  outcome (sch_readyTimeout s) app p (scheduleApp s app p).
Proof.
  intros (policy & resync & timeout & ->)%sched_New_default Hwf. by apply scheduleApp_outcome.
Qed.

(** An application the cycle could not place leaves no trace in the snapshot: the
    amounts, neighbours and nodes later applications are fitted against denote what they
    did before, whatever point of the pipeline failed. *)
Theorem scheduleApp_pending_restores cl cfg s app p :
  sched_New cl cfg = Some s → snap_wf (ps_snap p) → fresh app (ps_snap p) →
  (∀ evs, ps_hist (scheduleApp s app p) = ps_hist p ++ evs → assigns evs = []) →
  ps_snap (scheduleApp s app p) ≡ ps_snap p.
Proof.
  intros (policy & resync & timeout & ->)%sched_New_default Hwf Hf Hno.
  destruct (scheduleApp_outcome cl policy resync timeout app p Hwf) as [evs _ _ Hrb|evs i ni vs Hh Ha].
  - by apply (rolled_back_equiv app).
  - specialize (Hno _ Hh). congruence.
Qed.

(** When an application is placed, every PersistentVolume it mounts was already on
    that node or was pinned to it by a successful write earlier in the same cycle: an
    app and its volumes always end up on one node. *)
Theorem scheduleApp_colocates cl cfg s app p evs node :
  sched_New cl cfg = Some s → snap_wf (ps_snap p) →
  ps_hist (scheduleApp s app p) = ps_hist p ++ evs →
  (app_Namespace app, app_Name app, node) ∈ assigns evs →
  ∀ m, m ∈ sp_Volumes (app_Spec app) → IsPV m = true → colocated app p evs node m.
Proof.
  intros (policy & resync & timeout & ->)%sched_New_default Hwf Hh Hin m Hm Hpv.
  destruct (scheduleApp_outcome cl policy resync timeout app p Hwf)
    as [evs' Hh' Ha _|evs' i ni vs Hh' Ha _ _ Hc _];
    rewrite Hh in Hh'; apply app_inv_head in Hh' as ->; rewrite Ha in Hin.
  - by apply elem_of_nil in Hin.
  - apply list_elem_of_singleton in Hin. simplify_eq. by apply Hc.
Qed.

(** The pass is accounted for exactly: the successful Assigns are those of a
    subsequence of the pending applications taken in queue order, each once and none
    that already had a node; and the final snapshot is the initial one with, for each
    node, precisely the applications assigned to it added and debited. *)
Theorem scheduleOnce_accounting cl cfg s p apps nodes pvs :
  sched_New cl cfg = Some s → reads cl p apps nodes pvs → keyed apps nodes →
  ∃ pl evs,
    ps_hist (scheduleOnce s p) = ps_hist p ++ evs ∧
    pl.*1 `sublist_of` sort_stable PrioritySort_Less (pending apps) ∧
    NoDup (app_key <$> pl.*1) ∧ (∀ a, a ∈ pl.*1 → a ∈ apps ∧ app_NodeName a = "") ∧
    assigns evs = assignment (buildSnapshot nodes apps) <$> pl ∧
    (∀ ai, ai ∈ pl → is_Some (snap_ordered (buildSnapshot nodes apps) !! ai.2)) ∧
    ∀ i ni, snap_ordered (buildSnapshot nodes apps) !! i = Some ni →
      ∃ ni', snap_ordered (ps_snap (scheduleOnce s p)) !! i = Some ni' ∧
        debited ni ni' (placed_on i pl).
Proof.
  intros (policy & resync & timeout & ->)%sched_New_default Hr Hk.
  destruct (scheduleOnce_run cl policy resync timeout p apps nodes pvs Hr) as (p1 & ev1 & -> & Hs & Hh & Ha).
  pose proof (queue_ready_initial apps nodes Hk) as Hq. pose proof Hq as (_ & Hnd & _).
  destruct (run_queue_accounting cl policy resync timeout (sort_stable PrioritySort_Less (pending apps)) p1)
    as (pl & ev2 & Hh2 & Hsub & Has & Hpos & Hn); [by rewrite Hs|].
  exists pl, (ev1 ++ ev2). rewrite Hs in *. split_and!; [by rewrite Hh2, Hh, app_assoc|done| | | |done|done].
  - eapply sublist_NoDup; [exact Hnd|]. by apply fmap_sublist.
  - intros a Hin. apply pending_elem. rewrite <-(sort_stable_perm PrioritySort_Less).
    eapply sublist_subseteq; [exact Hsub|done].
  - by rewrite assigns_app, Ha, Has.
Qed.

(** ** The cluster the pass leaves, read off its Assigns *)
(** Whether [evs] assign [a] to the node named [n]. *)
Definition assigned_to (evs : list Event) (n : string) (a : Application) : bool :=
  bool_decide ((app_Namespace a, app_Name a, n) ∈ assigns evs).

(** The applications on node [n] once the Assigns among [evs] are stored: those that were
    on it and have not run to completion, and those [evs] assign to it. *)
Definition charged (evs : list Event) (apps : list Application) (n : Node) : list Application :=
  occupants apps (node_Name n) ++ List.filter (assigned_to evs (node_Name n)) apps.

(** The requests of the applications [l]. *)
Definition load (l : list Application) : ResourceAmounts := foldl ra_Add ra_zero (app_requests <$> l).

(** Two nodes are in one domain of the topology key: the same node, or an equal label. *)
Definition node_domain (key : string) (n m : Node) : Prop :=
  node_Name n = node_Name m ∨
  ∃ v, SchedulingLabel n key = Some v ∧ SchedulingLabel m key = Some v.

(** No application on a node repels another one in a domain the two share. *)
Definition kept_apart (nodes : list Node) (on : Node → list Application) : Prop :=
  ∀ n m a b t, n ∈ nodes → m ∈ nodes → a ∈ on n → b ∈ on m → app_key a ≠ app_key b →
    repels t (PlacedFromApp a) (PlacedFromApp b) → ¬ node_domain (wat_TopologyKey t) n m.

Lemma load_perm l1 l2 a : l1 ≡ₚ l2 → foldl ra_Add a (app_requests <$> l1) ≡ foldl ra_Add a (app_requests <$> l2).
Proof.
  intros Hp. revert a. induction Hp as [|x l1 l2 _ IH|x y l|l1 l2 l3 _ IH1 _ IH2]; intros a; simpl; [done|apply IH| |].
  - apply foldl_ra_Add_proper. split; simpl; rewrite !q_nano_add; lia.
  - by rewrite IH1.
Qed.

(** A listed node, its position in the snapshot and its entry there. *)
Lemma node_entry nodes apps n :
  n ∈ nodes → ∃ i, snap_ordered (buildSnapshot nodes apps) !! i =
    Some (mkNodeInfo n (load (occupants apps (node_Name n))) (PlacedFromApp <$> occupants apps (node_Name n))).
Proof.
  intros Hn. apply list_elem_of_lookup. apply buildSnapshot_elem. eauto.
Qed.

Lemma assignment_elem nodes apps pl a i ni :
  keyed apps nodes → (∀ b, b ∈ pl.*1 → b ∈ apps) →
  (∀ ai, ai ∈ pl → is_Some (snap_ordered (buildSnapshot nodes apps) !! ai.2)) →
  a ∈ apps → snap_ordered (buildSnapshot nodes apps) !! i = Some ni →
  (app_Namespace a, app_Name a, ni_Name ni) ∈ assignment (buildSnapshot nodes apps) <$> pl ↔ (a, i) ∈ pl.
Proof.
  intros [Hn Hk] Hsub Hpos Ha Hi. pose proof (proj1 (buildSnapshot_wf nodes apps Hn)) as Hnd.
  set (sn := buildSnapshot nodes apps) in *. clearbody sn. rewrite list_elem_of_fmap. split.
  - intros ([b j] & E & Hb). unfold assignment in E. simpl in E. injection E as Ens Enm Eno.
    assert (a = b) as <-.
    { apply (key_inj apps); [done|done| |unfold app_key; congruence].
      apply Hsub, list_elem_of_fmap. by exists (b, j). }
    destruct (Hpos _ Hb) as [nj Ej]. simpl in Ej. rewrite Ej in Eno. simpl in Eno.
    replace i with j; [done|].
    assert ((ni_Name <$> snap_ordered sn) !! j = Some (ni_Name ni)) as Hj
      by (rewrite list_lookup_fmap, Ej; simpl; congruence).
    apply (NoDup_lookup _ j i (ni_Name ni) Hnd Hj). by rewrite list_lookup_fmap, Hi.
  - intros Hin. exists (a, i). split; [|done]. unfold assignment. simpl. by rewrite Hi.
Qed.

(** What a pass stored, for a listed node: its entry of the first snapshot, the
    applications its Assigns put there, and the entry the pass ended with. *)
Lemma scheduleOnce_charged cl cfg s p apps nodes pvs evs :
  sched_New cl cfg = Some s → reads cl p apps nodes pvs → keyed apps nodes →
  ps_hist (scheduleOnce s p) = ps_hist p ++ evs →
  ∀ n, n ∈ nodes → ∃ i l ni',
    snap_ordered (buildSnapshot nodes apps) !! i =
      Some (mkNodeInfo n (load (occupants apps (node_Name n))) (PlacedFromApp <$> occupants apps (node_Name n))) ∧
    snap_ordered (ps_snap (scheduleOnce s p)) !! i = Some ni' ∧ ni_Node ni' = n ∧
    ni_Apps ni' = PlacedFromApp <$> (occupants apps (node_Name n) ++ l) ∧
    ni_Requested ni' ≡ load (occupants apps (node_Name n) ++ l) ∧
    l ≡ₚ List.filter (assigned_to evs (node_Name n)) apps.
Proof.
  intros Hs Hr Hk Hh n Hn.
  destruct (scheduleOnce_accounting cl cfg s p apps nodes pvs Hs Hr Hk)
    as (pl & evs' & Hh' & _ & Hnd & Hpl & Has & Hpos & Hdeb).
  rewrite Hh in Hh'. apply app_inv_head in Hh' as <-.
  destruct (node_entry nodes apps n Hn) as [i Hi].
  destruct (Hdeb i _ Hi) as (ni' & Hi' & Hnode & Happs & Hreq). simpl in Hnode, Happs, Hreq.
  exists i, (placed_on i pl), ni'. split_and!; [done|done|done|by rewrite fmap_app| |].
  { rewrite Hreq. unfold load. by rewrite fmap_app, foldl_app. }
  assert (NoDup pl.*1) as Hnd1 by by eapply NoDup_fmap_1.
  apply NoDup_Permutation.
  - eapply sublist_NoDup; [exact Hnd1|]. unfold placed_on. apply fmap_sublist, List_filter_sublist.
  - eapply sublist_NoDup; [|apply List_filter_sublist]. destruct Hk as [_ Hk]. by eapply NoDup_fmap_1.
  - intros a.
    pose proof (λ Ha, assignment_elem nodes apps pl a i _ Hk (λ b Hb, proj1 (Hpl b Hb)) Hpos Ha Hi) as Hae.
    unfold ni_Name in Hae. cbn [ni_Node] in Hae.
    unfold placed_on, assigned_to. rewrite filter_elem, bool_decide_eq_true, list_elem_of_fmap, Has. split.
    + intros ([b j] & -> & [Hin Hj]%filter_elem). apply bool_decide_eq_true in Hj. cbn [fst snd] in *. subst j.
      assert (b ∈ apps) as Hb
        by (apply Hpl, list_elem_of_fmap; exists (b, i); split; [reflexivity|exact Hin]).
      split; [exact Hb|]. apply Hae; [exact Hb|exact Hin].
    + intros [Ha Hin]. exists (a, i). split; [reflexivity|]. apply filter_elem.
      split; [apply Hae; [exact Ha|exact Hin]|by apply bool_decide_eq_true].
Qed.

(** The entries a pass ends with: untouched, or within the capacity of the node. *)
Lemma scheduleOnce_ledger cl cfg s p apps nodes pvs :
  sched_New cl cfg = Some s → reads cl p apps nodes pvs → keyed apps nodes →
  ∀ i ni', snap_ordered (ps_snap (scheduleOnce s p)) !! i = Some ni' →
    ∃ ni, snap_ordered (buildSnapshot nodes apps) !! i = Some ni ∧ ni_Node ni' = ni_Node ni ∧
      (ni_Apps ni' = ni_Apps ni ∨ fits (ni_Requested ni') (ns_Capacity (node_Status (ni_Node ni')))).
Proof.
  intros (policy & resync & timeout & ->)%sched_New_default Hr Hk.
  set (P sn := ∀ i ni', snap_ordered sn !! i = Some ni' →
    ∃ ni, snap_ordered (buildSnapshot nodes apps) !! i = Some ni ∧ ni_Node ni' = ni_Node ni ∧
      (ni_Apps ni' = ni_Apps ni ∨ fits (ni_Requested ni') (ns_Capacity (node_Status (ni_Node ni'))))).
  change (P (ps_snap (scheduleOnce (mkScheduler cl policy resync timeout (default_fw cl policy timeout)) p))).
  eapply (scheduleOnce_invariant cl policy resync timeout P); try done.
  - assert (∀ a b, a ≡ b → P a → P b) as Himp.
    { intros a b E Ha i ni' Hi.
      destruct (snap_equiv_lookup b a i ni' (symmetry E) Hi) as (n1 & Hn1 & (En & Ea & Er)).
      destruct (Ha i n1 Hn1) as (ni & Hni & Hn & Hcase). exists ni.
      split_and!; [done|congruence|]. rewrite Er, En, Ea. done. }
    intros a b E. split; apply Himp; [done|by symmetry].
  - intros app evs sn i ni vs Hwf Hs Hi Hfe j nj Hj. simpl in Hj.
    destruct (decide (i = j)) as [->|Hne].
    + rewrite list_lookup_alter_eq, Hi in Hj.
      change (Some (reserve_node app ni) = Some nj) in Hj. injection Hj as <-.
      destruct (Hs j ni Hi) as (n0 & Hn0 & Hn & _). exists n0. split_and!; [done|done|].
      right. rewrite reserve_node_Requested. apply ra_Exceeds_strict_fits.
      exact (fe_fits _ _ _ _ _ _ Hfe).
    + rewrite list_lookup_alter_ne in Hj by done. by apply Hs.
  - intros i ni' Hi. exists ni'. auto.
Qed.

Lemma scheduleOnce_assigns cl cfg s p apps nodes pvs evs :
  sched_New cl cfg = Some s → reads cl p apps nodes pvs → keyed apps nodes →
  ps_hist (scheduleOnce s p) = ps_hist p ++ evs →
  (∀ ns name node, (ns, name, node) ∈ assigns evs →
     ∃ a n, a ∈ apps ∧ n ∈ nodes ∧ app_key a = (ns, name) ∧ node_Name n = node ∧ app_NodeName a = "") ∧
  NoDup (assigns evs).*1.
Proof.
  intros Hs Hr Hk Hh.
  destruct (scheduleOnce_accounting cl cfg s p apps nodes pvs Hs Hr Hk)
    as (pl & evs' & Hh' & _ & Hnd & Hpl & Has & Hpos & _).
  rewrite Hh in Hh'. apply app_inv_head in Hh' as <-. rewrite Has. split.
  - intros ns name node ([a i] & E & Hin)%list_elem_of_fmap.
    destruct (Hpos _ Hin) as [ni Hi]. pose proof (list_elem_of_lookup_2 _ _ _ Hi) as Hel.
    unfold assignment in E. rewrite Hi in E. cbn [fst snd fmap option_fmap option_map default] in E.
    apply buildSnapshot_elem in Hel as (n & Hn & ->).
    destruct (Hpl a) as [Ha Hn0]; [apply list_elem_of_fmap; exists (a, i); split; [reflexivity|exact Hin]|].
    injection E as -> -> ->. exists a, n. split_and!; [exact Ha|exact Hn|reflexivity|reflexivity|exact Hn0].
  - replace ((assignment (buildSnapshot nodes apps) <$> pl).*1) with (app_key <$> pl.*1); [exact Hnd|].
    rewrite <-!list_fmap_compose. apply list_fmap_ext. intros ? [a i] _. reflexivity.
Qed.

(** C1: a pass never overcommits a node.  Take the Assigns it made: on every listed node
    either none of them landed, or the requests of the applications already there together
    with those of every application assigned to it in the pass fit within the capacity the
    node reported, in both dimensions.  And every Assign is for a listed application
    without a node, to a listed node, and no application is assigned twice. *)
Theorem scheduleOnce_capacity cl cfg s p apps nodes pvs evs :
  sched_New cl cfg = Some s → reads cl p apps nodes pvs → keyed apps nodes →
  ps_hist (scheduleOnce s p) = ps_hist p ++ evs →
  (∀ n, n ∈ nodes →
     List.filter (assigned_to evs (node_Name n)) apps = [] ∨
     fits (load (charged evs apps n)) (ns_Capacity (node_Status n))) ∧
  (∀ ns name node, (ns, name, node) ∈ assigns evs →
     ∃ a n, a ∈ apps ∧ n ∈ nodes ∧ app_key a = (ns, name) ∧ node_Name n = node ∧ app_NodeName a = "") ∧
  NoDup (assigns evs).*1.
Proof.
  intros Hs Hr Hk Hh. split_and!.
  - intros n Hn.
    destruct (scheduleOnce_charged cl cfg s p apps nodes pvs evs Hs Hr Hk Hh n Hn)
      as (i & l & ni' & Hi & Hi' & Hnode & Happs & Hreq & Hl).
    destruct (scheduleOnce_ledger cl cfg s p apps nodes pvs Hs Hr Hk i ni' Hi') as (ni & Hi2 & _ & Hcase).
    rewrite Hi in Hi2. injection Hi2 as <-. simpl in Hcase. destruct Hcase as [E|Hfit].
    + left. rewrite Happs, fmap_app in E. rewrite <-(app_nil_r (PlacedFromApp <$> occupants _ _)) in E at 2.
      apply app_inv_head, fmap_nil_inv in E. subst l. by apply Permutation_nil.
    + right. rewrite Hnode in Hfit. eapply fits_proper; [|done|exact Hfit]. rewrite Hreq.
      apply load_perm. unfold charged. by rewrite Hl.
  - by apply (scheduleOnce_assigns cl cfg s p apps nodes pvs evs).
  - by apply (scheduleOnce_assigns cl cfg s p apps nodes pvs evs).
Qed.

(** An application listed on a node of the snapshot has an entry there. *)
Lemma placed_entry (sn : Snapshot) i ni a l :
  snap_ordered sn !! i = Some ni → ni_Apps ni = PlacedFromApp <$> l → a ∈ l →
  ∃ x, entry sn i x ni (PlacedFromApp a).
Proof.
  intros Hi Happs [x Hx]%list_elem_of_lookup. exists x. split; [exact Hi|].
  by rewrite Happs, list_lookup_fmap, Hx.
Qed.

Lemma apart_initial apps nodes :
  keyed apps nodes → kept_apart nodes (charged [] apps) → anti_affinity_ok (buildSnapshot nodes apps).
Proof.
  intros [Hn Hk] Hok i x ni pa j y nj pb t [Hi Hx] [Hj Hy] Hne Hrep Hdom.
  pose proof (proj1 (buildSnapshot_wf nodes apps Hn)) as Hnd.
  pose proof (list_elem_of_lookup_2 _ _ _ Hi) as (n & Hn1 & ->)%buildSnapshot_elem.
  pose proof (list_elem_of_lookup_2 _ _ _ Hj) as (m & Hm1 & ->)%buildSnapshot_elem.
  cbn [ni_Apps] in Hx, Hy. rewrite list_lookup_fmap in Hx, Hy.
  destruct (occupants apps (node_Name n) !! x) as [a|] eqn:Ex; [|discriminate].
  destruct (occupants apps (node_Name m) !! y) as [b|] eqn:Ey; [|discriminate].
  injection Hx as <-. injection Hy as <-.
  pose proof (list_elem_of_lookup_2 _ _ _ Ex) as Ha. pose proof (list_elem_of_lookup_2 _ _ _ Ey) as Hb.
  apply (Hok n m a b t Hn1 Hm1); [apply elem_of_app; by left..| |exact Hrep|exact Hdom].
  intros E. apply occupants_elem in Ha as Ha', Hb as Hb'.
  assert (a = b) as <- by (apply (key_inj apps); tauto).
  assert (node_Name n = node_Name m) as Enm by (destruct Ha' as (_ & <- & _), Hb' as (_ & <- & _); reflexivity).
  assert (i = j) as <-.
  { eapply (NoDup_lookup _ i j (node_Name n) Hnd); rewrite list_lookup_fmap, ?Hi, ?Hj; simpl; [done|].
    unfold ni_Name. simpl. by rewrite Enm. }
  apply Hne. f_equal. rewrite <-Enm in Ey. eapply NoDup_lookup; [|exact Ex|exact Ey].
  eapply sublist_NoDup; [|apply List_filter_sublist]. by eapply NoDup_fmap_1.
Qed.

Lemma scheduleOnce_spread cl cfg s p apps nodes pvs :
  sched_New cl cfg = Some s → reads cl p apps nodes pvs → keyed apps nodes →
  anti_affinity_ok (buildSnapshot nodes apps) →
  anti_affinity_ok (ps_snap (scheduleOnce s p)).
Proof.
  intros (policy & resync & timeout & ->)%sched_New_default Hr Hk Hok.
  eapply (scheduleOnce_invariant cl policy resync timeout anti_affinity_ok); try done; [apply _|].
  intros app evs sn i ni vs Hwf Hs Hi Hfe.
  eapply (anti_affinity_add sn i ni); try done. by eapply fe_clear.
Qed.

(** C2: a pass never places two applications that repel each other in one topology
    domain.  If no required anti-affinity is violated among the applications on the listed
    nodes, none is once the Assigns of the pass are stored: in either direction, between an
    application that was there and one assigned, and between two assigned in the pass. *)
Theorem scheduleOnce_anti_affinity cl cfg s p apps nodes pvs evs :
  sched_New cl cfg = Some s → reads cl p apps nodes pvs → keyed apps nodes →
  ps_hist (scheduleOnce s p) = ps_hist p ++ evs →
  kept_apart nodes (charged [] apps) → kept_apart nodes (charged evs apps).
Proof.
  intros Hs Hr Hk Hh Hok n m a b t Hn Hm Ha Hb Hne Hrep Hdom.
  destruct (scheduleOnce_charged cl cfg s p apps nodes pvs evs Hs Hr Hk Hh n Hn)
    as (i & l & ni & _ & Hi & Hnode & Happs & _ & Hl).
  destruct (scheduleOnce_charged cl cfg s p apps nodes pvs evs Hs Hr Hk Hh m Hm)
    as (j & l' & nj & _ & Hj & Hnode' & Happs' & _ & Hl').
  unfold charged in Ha, Hb. rewrite <-Hl in Ha. rewrite <-Hl' in Hb.
  destruct (placed_entry (ps_snap (scheduleOnce s p)) i ni a _ Hi Happs Ha) as [x Hx].
  destruct (placed_entry (ps_snap (scheduleOnce s p)) j nj b _ Hj Happs' Hb) as [y Hy].
  eapply (scheduleOnce_spread cl cfg s p apps nodes pvs Hs Hr Hk (apart_initial apps nodes Hk Hok)
    i x ni _ j y nj); [exact Hx|exact Hy| |exact Hrep|].
  - intros [= <- <-]. destruct Hx as [Hx1 Hx2], Hy as [Hy1 Hy2].
    rewrite Hx1 in Hy1. injection Hy1 as <-. rewrite Hx2 in Hy2. injection Hy2 as E1 E2 _ _.
    apply Hne. unfold app_key. congruence.
  - by rewrite <-Hnode, <-Hnode' in Hdom.
Qed.

(** The pending queue is attempted in a deterministic order: it is a permutation of
    the pending applications, no application comes after one that PrioritySort puts
    behind it, and applications the plugin does not distinguish keep their list order. *)
Theorem queue_order cl cfg s apps :
  sched_New cl cfg = Some s →
  fw_Sort (sch_fw s) (pending apps) ≡ₚ pending apps ∧
  StronglySorted (λ a b, ¬ queue_before b a) (fw_Sort (sch_fw s) (pending apps)) ∧
  ∀ k, List.filter (equivalent PrioritySort_Less k) (fw_Sort (sch_fw s) (pending apps)) =
       List.filter (equivalent PrioritySort_Less k) (pending apps).
Proof.
  intros (policy & resync & timeout & ->)%sched_New_default. unfold fw_Sort. simpl. split_and!.
  - apply sort_stable_perm.
  - pose proof (sort_stable_sorted _ PrioritySort_strict_weak (pending apps)) as Hs.
    eapply StronglySorted_weaken; [|exact Hs]. intros a b Hab Hq.
    apply PrioritySort_Less_spec in Hq. unfold not_after in Hab. congruence.
  - intros k. apply sort_stable_filter, PrioritySort_strict_weak.
Qed.
End Loop.

(** ** A concrete cluster: two nodes, two replicas that repel each other, a database with
    an inline volume, and a replica already placed *)
Module Demo.
Import NanoQuantity.
#[local] Open Scope Z_scope.

Definition meta (ns name : string) (labels : gmap string string) : ObjectMeta :=
  mkObjectMeta ns name "" "" 1 labels ∅ 10 None [] [].

Definition amounts (cpu mem : Z) : ResourceAmounts := mkAmounts (unit_ cpu) (unit_ mem).

Definition web_term : WorkloadAffinityTerm :=
  mkWorkloadAffinityTerm {["app" := "web"]} LabelHostname.

Definition repel : option Affinity :=
  Some (mkAffinity None None (Some (mkWorkloadAffinity [web_term] []))).

Definition status0 : ApplicationStatus := mkAppStatus 0 "" "" "" None 0 0.

Definition spec (node : string) (aff : option Affinity) (vols : list VolumeMount) : ApplicationSpec :=
  mkAppSpec "img" [] [] [] [] (mkRequirements (amounts 1 2) ra_zero)
    (mkLifecycle RestartAlways None None None) (mkPlacement node ∅ aff None) None "" "" None vols.

Definition web (name node : string) : Application :=
  mkApplication (meta "prod" name {["app" := "web"]}) (spec node repel []) status0.

Definition data_mount : VolumeMount :=
  mkVolumeMount (mkVolumeSource VolumeTypePV "data" (unit_ 10) [] None None "") "/data" false "".

Definition db : Application := mkApplication (meta "prod" "db" ∅) (spec "" None [data_mount]) status0.

Definition node (name : string) : Node :=
  mkNode (meta "" name ∅) false
    (mkNodeStatus (amounts 4 8) ra_zero "" "" true 100 [] (mkPlatform "linux" "amd64") false
       {[LabelHostname := name]}).

Definition apps : list Application := [web "web-0" "n1"; web "web-1" ""; web "web-2" ""; db].
Definition nodes : list Node := [node "n2"; node "n1"].

Definition cluster : Cluster :=
  mkCluster (λ _, Ok apps) (λ _, Ok nodes) (λ _, Ok []) (λ _ _ _ _, None) (λ _ _ _ _, None)
    (λ _ _ _ _, None) (λ _ _, None) (λ _, 200).

Definition cfg : Config := mkConfig "" 0 0.
Definition sched : Scheduler :=
  mkScheduler cluster Spread (seconds 30) (seconds 45) (default_fw cluster Spread (seconds 45)).
Definition pass0 : Pass := mkPass (mkSnapshot ∅ []) ∅ [].
Definition snap0 : Snapshot := buildSnapshot nodes apps.
Definition pass1 : Pass := mkPass snap0 ∅ [].

Lemma New_demo : sched_New cluster cfg = Some sched.
Proof. unfold sched_New. by rewrite default_fw_New. Qed.

(** web-1 goes to n2 (n1 holds web-0), web-2 repels and is repelled everywhere, and the
    database lands on a node to which its implicit volume is then pinned. *)
Example demo_assigns :
  assigns (ps_hist (scheduleOnce sched pass0)) = [("prod", "db", "n2"); ("prod", "web-1", "n2")].
Proof. vm_compute. reflexivity. Qed.

Ltac decided := refine (bool_decide_eq_true_1 _ _); vm_compute; reflexivity.

Lemma nodes_nodup : NoDup (node_Name <$> nodes).
Proof. decided. Qed.
Lemma keyed_demo : keyed apps nodes.
Proof. split; decided. Qed.
Lemma reads_demo : reads cluster pass0 apps nodes [].
Proof. by split_and!. Qed.
Lemma snap0_wf : snap_wf snap0.
Proof. apply buildSnapshot_wf, nodes_nodup. Qed.

(** Before the pass web-0 is the only application on a node. *)
Lemma apart_demo : kept_apart nodes (charged [] apps).
Proof.
  assert (∀ n a, n ∈ nodes → a ∈ charged [] apps n → app_key a = ("prod", "web-0")) as H.
  { intros n a Hn Ha. apply elem_of_cons in Hn as [->|[->|[]%elem_of_nil]%elem_of_cons].
    - assert (charged [] apps (node "n2") = []) as E by reflexivity. rewrite E in Ha. by apply elem_of_nil in Ha.
    - assert (charged [] apps (node "n1") = [web "web-0" "n1"]) as E by reflexivity. rewrite E in Ha.
      by apply list_elem_of_singleton in Ha as ->. }
  intros n m a b t Hn Hm Ha Hb Hne. by rewrite (H n a), (H m b) in Hne.
Qed.

Lemma pickBest_first_best_witness :
  ∃ best, first_best {["n1" := 3; "n2" := 3]} (snap_ordered snap0) best ∧
    pickBest (snap_ordered snap0) {["n1" := 3; "n2" := 3]} = ni_Name best.
Proof.
  apply (pickBest_first_best (snap_ordered snap0) {["n1" := 3; "n2" := 3]}).
  - intros E. apply (f_equal length) in E. vm_compute in E. done.
  - intros ni (n & Hn & ->)%buildSnapshot_elem.
    repeat (apply elem_of_cons in Hn as [->|Hn]; [done|]). by apply elem_of_nil in Hn.
Defined.

Definition verdicts : gmap string Status :=
  {["n1" := NewStatus Unschedulable "node is not ready"; "n2" := NewStatus Unschedulable "node is cordoned"]}.

Lemma noNodeFits_order_independent_witness :
  noNodeFits 2 verdicts = noNodeFits_text 2 (map_to_list verdicts).*2
    (map_to_list (count_reasons (map_to_list verdicts).*2)).*1.
Proof. apply (noNodeFits_order_independent 2 verdicts); [lia|reflexivity|reflexivity]. Defined.

Lemma scheduleApp_refines_witness :
  outcome (seconds 45) (web "web-1" "") pass1 (scheduleApp sched (web "web-1" "") pass1).
Proof. apply (scheduleApp_refines cluster cfg sched); [apply New_demo|apply snap0_wf]. Defined.

(** An app no node has room for. *)
Definition big : Application :=
  mkApplication (meta "prod" "big" ∅)
    (mkAppSpec "img" [] [] [] [] (mkRequirements (amounts 100 2) ra_zero)
       (mkLifecycle RestartAlways None None None) (mkPlacement "" ∅ None None) None "" "" None []) status0.
Definition pass_big : Pass := mkPass (buildSnapshot nodes [big]) ∅ [].

Lemma scheduleApp_pending_restores_witness :
  ps_snap (scheduleApp sched big pass_big) ≡ ps_snap pass_big.
Proof.
  apply (scheduleApp_pending_restores cluster cfg sched big pass_big).
  - apply New_demo.
  - apply buildSnapshot_wf, nodes_nodup.
  - apply pending_fresh; [decided|]. apply list_elem_of_here.
  - intros evs E. simpl in E. subst evs. vm_compute. reflexivity.
Defined.

Lemma scheduleApp_colocates_witness :
  colocated db pass1 (ps_hist (scheduleApp sched db pass1)) "n2" data_mount.
Proof.
  apply (scheduleApp_colocates cluster cfg sched db pass1
           (ps_hist (scheduleApp sched db pass1)) "n2").
  - apply New_demo.
  - apply snap0_wf.
  - reflexivity.
  - assert (assigns (ps_hist (scheduleApp sched db pass1)) = [("prod", "db", "n2")]) as ->
      by (vm_compute; reflexivity). apply list_elem_of_here.
  - apply list_elem_of_here.
  - reflexivity.
Defined.

Lemma scheduleOnce_anti_affinity_witness :
  kept_apart nodes (charged (ps_hist (scheduleOnce sched pass0)) apps).
Proof.
  apply (scheduleOnce_anti_affinity cluster cfg sched pass0 apps nodes []).
  - apply New_demo.
  - apply reads_demo.
  - apply keyed_demo.
  - reflexivity.
  - apply apart_demo.
Defined.

Lemma scheduleOnce_capacity_witness :
  length (assigns (ps_hist (scheduleOnce sched pass0))) = 2%nat ∧
  ∀ n, n ∈ nodes →
    List.filter (assigned_to (ps_hist (scheduleOnce sched pass0)) (node_Name n)) apps = [] ∨
    fits (load (charged (ps_hist (scheduleOnce sched pass0)) apps n)) (ns_Capacity (node_Status n)).
Proof.
  split; [by rewrite demo_assigns|].
  apply (scheduleOnce_capacity cluster cfg sched pass0 apps nodes []);
    [apply New_demo|apply reads_demo|apply keyed_demo|reflexivity].
Defined.

Lemma scheduleOnce_accounting_witness :
  ∃ pl evs, ps_hist (scheduleOnce sched pass0) = ps_hist pass0 ++ evs ∧
    assigns evs = assignment (buildSnapshot nodes apps) <$> pl.
Proof.
  destruct (scheduleOnce_accounting cluster cfg sched pass0 apps nodes [] New_demo reads_demo keyed_demo)
    as (pl & evs & H1 & _ & _ & _ & H2 & _).
  exists pl, evs. split; assumption.
Defined.

Lemma queue_order_witness : fw_Sort (sch_fw sched) (pending apps) ≡ₚ pending apps.
Proof. apply (queue_order cluster cfg sched apps New_demo). Defined.

Lemma buildSnapshot_spec_witness : snap_wf (buildSnapshot nodes apps).
Proof. apply (buildSnapshot_spec nodes apps nodes_nodup). Defined.

(** The framework and snapshot of the demo, for the theorems of the lower layers. *)
Definition cycle : Pass * CycleState CycleVal := (pass1, NewCycleState).

(** Each Score plugin's score of a node, as it reads the cycle. *)
Definition score_of (n : string) (ni : NodeInfo) : Z :=
  if decide (n = NodeAffinityName) then scoreFromState (snd cycle) nodeAffinityScoresKey (ni_Name ni)
  else if decide (n = WorkloadAffinityName)
  then scoreFromState (snd cycle) workloadAffinityScoresKey (ni_Name ni)
  else fst (snd (NodeResourcesFit_Score (H := Pass) false db ni cycle)).

Lemma RunScore_totals_witness :
  ∃ total, RunScore (sch_fw sched) db (snap_ordered snap0) cycle = (cycle, Ok total) ∧
    ∀ ni, ni ∈ snap_ordered snap0 →
      total !! ni_Name ni =
      Some (weighted_total (sch_fw sched) score_of (fw_score (sch_fw sched)).*1 ni 0).
Proof.
  apply (RunScore_totals (sch_fw sched) db (snap_ordered snap0) cycle score_of).
  - apply snap0_wf.
  - intros n sc Hin ni Hni. simpl in Hin.
    repeat (apply elem_of_cons in Hin as [Hin|Hin]; [by simplify_eq|]).
    by apply elem_of_nil in Hin.
Defined.

Definition reserved : (Pass * CycleState CycleVal) * Status :=
  RunReserve (sch_fw sched) db "n1" cycle.

Lemma RunReserve_outcome_witness :
  (snd reserved = None ∧ reserves db "n1" (fw_reserve (sch_fw sched)) cycle (fst reserved)) ∨
  (IsSuccess (snd reserved) = false ∧ ∃ ok p rest x1 x2,
     fw_reserve (sch_fw sched) = ok ++ p :: rest ∧ reserves db "n1" ok cycle x1 ∧
     fst p db "n1" x1 = (x2, snd reserved) ∧ fst reserved = unreserve_all ok db "n1" x2).
Proof.
  apply (RunReserve_outcome (sch_fw sched) db "n1" cycle (fst reserved) (snd reserved)).
  apply surjective_pairing.
Defined.

Definition raws : gmap string Z := {["n1" := 5; "n2" := 2]}.

Lemma normalize_scores_witness :
  normalize raws !! "n1" = Some 100 ∧ ∀ k v, normalize raws !! k = Some v → 0 ≤ v ≤ MaxNodeScore.
Proof.
  split; [reflexivity|].
  refine (proj1 (normalize_scores raws _)). intros k v.
  unfold raws. rewrite lookup_insert_Some, lookup_singleton_Some. intros [[_ <-]|[_ [_ <-]]]; lia.
Defined.
End Demo.
