(* ===== verification/Uids.v ===== *)
(** * Host ids (api/core/v1/uids.go)

    The id space a workload may run in, the blocks it is carved into and their annotation
    form, with int64 arithmetic as the code computes it. *)
From stdpp Require Import base strings list.
From Stdlib Require Import ZArith Ascii.
From S2P Require Import Prelude.
#[local] Open Scope Z_scope.

Definition MinRunAsID : Z := 1.
Definition MaxRunAsID : Z := 2 ^ 32 - 2.
Definition DefaultRunAsID : Z := 65532.
Definition WorkloadUIDBase : Z := 1000000000.
Definition WorkloadUIDBlock : Z := 65536.
Definition UIDRangeAnnotation : string := "horchestra.io/uid-range".

(** [IDRange]: the half-open block [Min, Min+Size). *)
Record IDRange := mkIDRange { idr_Min : Z; idr_Size : Z }.

Definition Contains (r : IDRange) (id : Z) : bool :=
  (idr_Min r <=? id) && (id <? wrap64 (idr_Min r + idr_Size r)).

Definition idr_IsZero (r : IDRange) : bool := (idr_Min r =? 0) && (idr_Size r =? 0).

(** [IDRange.String]. *)
Definition idr_String (r : IDRange) : string :=
  GoStrings.itoa (idr_Min r) +:+ "/" +:+ GoStrings.itoa (idr_Size r).

Inductive IDRangeError :=
| RangeShape (s : string)
| RangeBadMin (s : string)
| RangeBadSize (s : string)
| RangeSizeNotPositive (s : string)
| RangeOutsideIDSpace (s : string).

Definition ParseIDRange (s : string) : result IDRangeError IDRange :=
  match GoStrings.cut "/"%char s with
  | None => Err (RangeShape s)
  | Some (minStr, sizeStr) =>
      match GoStrings.ParseInt minStr with
      | None => Err (RangeBadMin s)
      | Some min =>
          match GoStrings.ParseInt sizeStr with
          | None => Err (RangeBadSize s)
          | Some size =>
              if size <=? 0 then Err (RangeSizeNotPositive s)
              else if (min <? MinRunAsID) || (MaxRunAsID <? wrap64 (wrap64 (min + size) - 1))
              then Err (RangeOutsideIDSpace s)
              else Ok (mkIDRange min size)
          end
      end
  end.

Inductive RunAsError :=
| RootForbidden (what : string)
| IDOutOfRange (what : string) (id : Z).

(** [ValidRunAsID]; [None] is a nil error. *)
Definition ValidRunAsID (what : string) (id : Z) : option RunAsError :=
  if id =? 0 then Some (RootForbidden what)
  else if (id <? MinRunAsID) || (MaxRunAsID <? id) then Some (IDOutOfRange what id)
  else None.

(** ** Facts *)
Lemma ValidRunAsID_None what id : ValidRunAsID what id = None ↔ MinRunAsID ≤ id ≤ MaxRunAsID.
Proof.
  unfold ValidRunAsID, MinRunAsID, MaxRunAsID.
  destruct (Z.eqb_spec id 0); [split; [done|lia]|].
  destruct (Z.ltb_spec id 1), (Z.ltb_spec (2 ^ 32 - 2) id); simpl; (split; [done || lia|done || lia]).
Qed.

Lemma ParseInt_int64 s z : GoStrings.ParseInt s = Some z → is_int64 z.
Proof.
  unfold GoStrings.ParseInt. intros H. unfold is_int64.
  match type of H with match ?v with _ => _ end = _ => destruct v end; [|done].
  by case_bool_decide; simplify_eq.
Qed.

(** The block of a parsed annotation: positive, and inside the id space unless its end
    overflows int64. *)
Lemma ParseIDRange_Ok s r :
  ParseIDRange s = Ok r →
  MinRunAsID ≤ idr_Min r ≤ max_int64 ∧ 0 < idr_Size r ≤ max_int64 ∧
  (idr_Min r + idr_Size r - 1 ≤ MaxRunAsID ∨ max_int64 < idr_Min r + idr_Size r - 1).
Proof.
  unfold ParseIDRange.
  destruct (GoStrings.cut _ s) as [[a b]|]; [|done].
  destruct (GoStrings.ParseInt a) as [min|] eqn:Ea; [|done].
  destruct (GoStrings.ParseInt b) as [size|] eqn:Eb; [|done].
  apply ParseInt_int64 in Ea, Eb. unfold is_int64, min_int64, max_int64 in Ea, Eb.
  destruct (Z.leb_spec size 0); [done|].
  destruct (orb _ _) eqn:Ho; [done|]. intros; simplify_eq/=.
  apply orb_false_iff in Ho as [H1%Z.ltb_ge H2%Z.ltb_ge].
  unfold MinRunAsID, MaxRunAsID, max_int64 in *. split_and!; [lia..|].
  destruct (decide (min + size - 1 ≤ 2 ^ 63 - 1)) as [Hle|]; [left|right; lia].
  destruct (decide (min + size = 2 ^ 63)) as [E|Hne].
  - rewrite E in H2. vm_compute in H2. done.
  - rewrite (wrap64_id (min + size)) in H2 by (int64).
    rewrite wrap64_id in H2 by (int64). lia.
Qed.

Lemma Contains_iff r id :
  0 ≤ idr_Min r → 0 < idr_Size r → idr_Min r + idr_Size r - 1 ≤ MaxRunAsID →
  Contains r id = true ↔ idr_Min r ≤ id < idr_Min r + idr_Size r.
Proof.
  intros. unfold Contains. rewrite wrap64_id.
  - rewrite andb_true_iff, Z.leb_le, Z.ltb_lt. lia.
  - unfold is_int64, min_int64, max_int64, MaxRunAsID in *. lia.
Qed.

(** A block whose end overflows contains nothing. *)
Lemma Contains_overflow r id :
  0 < idr_Min r ≤ max_int64 → 0 < idr_Size r ≤ max_int64 → max_int64 < idr_Min r + idr_Size r - 1 →
  Contains r id = false.
Proof.
  unfold max_int64. intros Hm Hs Ho. unfold Contains.
  apply andb_false_iff. destruct (Z.leb_spec (idr_Min r) id) as [Hle|]; [right|by left].
  apply Z.ltb_ge. rewrite wrap64_over; int64.
Qed.

Lemma ParseIDRange_String r :
  0 < idr_Min r ≤ max_int64 → 0 < idr_Size r ≤ max_int64 →
  ParseIDRange (idr_String r) =
  if MaxRunAsID <? wrap64 (wrap64 (idr_Min r + idr_Size r) - 1)
  then Err (RangeOutsideIDSpace (idr_String r)) else Ok r.
Proof.
  intros Hm Hs. unfold ParseIDRange. unfold idr_String at 1.
  change ("/" +:+ GoStrings.itoa (idr_Size r)) with (String "/"%char (GoStrings.itoa (idr_Size r))).
  rewrite GoStrings.cut_app by (apply GoStrings.no_slash_itoa; lia).
  rewrite !GoStrings.ParseInt_itoa by done.
  rewrite (proj2 (Z.leb_gt _ _)) by lia.
  rewrite (proj2 (Z.ltb_ge (idr_Min r) MinRunAsID)) by (unfold MinRunAsID; lia).
  simpl. destruct r. done.
Qed.

Lemma ParseIDRange_String_inside r :
  0 < idr_Min r → 0 < idr_Size r → idr_Min r + idr_Size r - 1 ≤ MaxRunAsID →
  ParseIDRange (idr_String r) = Ok r.
Proof.
  unfold MaxRunAsID. intros Hm Hs He. rewrite ParseIDRange_String by int64.
  rewrite (wrap64_id (_ + _)), wrap64_id by int64.
  rewrite (proj2 (Z.ltb_ge _ _)); [done|unfold MaxRunAsID; lia].
Qed.

(** ** Properties *)

(** A block survives its annotation: parsing the text String renders gives the block
    back, for every non-empty block of the usable id space. *)
Theorem ParseIDRange_roundtrip r :
  MinRunAsID ≤ idr_Min r → 0 < idr_Size r → idr_Min r + idr_Size r - 1 ≤ MaxRunAsID →
  ParseIDRange (idr_String r) = Ok r.
Proof. intros. apply ParseIDRange_String_inside; unfold MinRunAsID in *; lia. Qed.

Lemma ParseIDRange_roundtrip_witness :
  ParseIDRange (idr_String (mkIDRange 1000000000 65536)) = Ok (mkIDRange 1000000000 65536).
Proof. apply (ParseIDRange_roundtrip (mkIDRange 1000000000 65536)); vm_compute; done. Defined.

(** Whatever an annotation says, no id a parsed block contains is 0 or truncates in
    the kernel's uid_t: every id of it passes the run-as check. *)
Theorem ParseIDRange_contains_valid s r id what :
  ParseIDRange s = Ok r → Contains r id = true → ValidRunAsID what id = None.
Proof.
  intros (Hm & Hs & Hend)%ParseIDRange_Ok Hc. apply ValidRunAsID_None.
  unfold MinRunAsID in *. destruct Hend as [Hend|Hend].
  - apply Contains_iff in Hc; [|lia..]. lia.
  - rewrite Contains_overflow in Hc; [done|lia..].
Qed.

Lemma ParseIDRange_contains_valid_witness : ValidRunAsID "runAsUser" 1000000007 = None.
Proof.
  apply (ParseIDRange_contains_valid "1000000000/65536" (mkIDRange 1000000000 65536) 1000000007);
    vm_compute; reflexivity.
Defined.

(** The parser refuses exactly the blocks that end above the id space, except those
    whose end overflows int64: [min+size-1] wraps negative there, and the block is accepted
    although it starts far outside the usable ids. *)
Theorem ParseIDRange_accepts r :
  MinRunAsID ≤ idr_Min r ≤ max_int64 → 0 < idr_Size r ≤ max_int64 →
  is_ok (ParseIDRange (idr_String r)) = true ↔
  idr_Min r + idr_Size r - 1 ≤ MaxRunAsID ∨ max_int64 < idr_Min r + idr_Size r - 1.
Proof.
  intros Hm Hs. split.
  - destruct (ParseIDRange (idr_String r)) as [r'|] eqn:E; [|done]. intros _.
    rewrite ParseIDRange_String in E by (unfold MinRunAsID in *; lia).
    pose proof (ParseIDRange_Ok (idr_String r) r) as H. rewrite ParseIDRange_String in H
      by (unfold MinRunAsID in *; lia).
    destruct (_ <? _); [done|]. by destruct (H eq_refl) as (_ & _ & ?).
  - intros H. rewrite ParseIDRange_String by (unfold MinRunAsID in *; lia).
    rewrite (proj2 (Z.ltb_ge _ _)); [done|]. unfold MinRunAsID, MaxRunAsID, max_int64 in *.
    destruct H as [H|H].
    + rewrite wrap64_id; rewrite wrap64_id; int64.
    + rewrite (wrap64_over (idr_Min r + _)), wrap64_id; int64.
Qed.

Lemma ParseIDRange_accepts_witness :
  is_ok (ParseIDRange (idr_String (mkIDRange 9223372036854775807 2))) = true.
Proof.
  apply (ParseIDRange_accepts (mkIDRange 9223372036854775807 2)); [done|done|].
  right. unfold max_int64. simpl. lia.
Defined.
