(* ===== verification/Paths.v ===== *)
(** * Paths, names and environment entries (api/core/v1/paths.go, env.go)

    The validators of the strings that reach the node's mount directives and environment
    files, over byte strings.  [path.Clean], [path.IsAbs], [strings.Split] and
    [strings.ContainsAny] are the standard library's. *)
From stdpp Require Import base strings list.
From Stdlib Require Import ZArith Ascii.
From S2P Require Import Prelude.

(** ** The standard library *)
Definition slash : ascii := "/"%char.

(** [strings.Split s sep] for a one-byte separator: never empty. *)
Fixpoint split (sep : ascii) (s : string) : list string :=
  match s with
  | EmptyString => [""]
  | String c s' =>
      if decide (c = sep) then "" :: split sep s'
      else match split sep s' with
           | [] => [String c ""]
           | w :: ws => String c w :: ws
           end
  end.

Fixpoint ContainsAny (s : string) (chars : list ascii) : bool :=
  match s with
  | EmptyString => false
  | String c s' => bool_decide (c ∈ chars) || ContainsAny s' chars
  end.

Definition IsAbs (p : string) : bool :=
  match p with String c _ => bool_decide (c = slash) | EmptyString => false end.

(** One element of [path.Clean]: the stack holds the elements kept, last first. *)
Definition clean_step (rooted : bool) (stack : list string) (seg : string) : list string :=
  if bool_decide (seg = "") || bool_decide (seg = ".") then stack
  else if bool_decide (seg = "..") then
    match stack with
    | top :: rest => if bool_decide (top = "..") then seg :: stack else rest
    | [] => if rooted then [] else [seg]
    end
  else seg :: stack.

(** [path.Clean]. *)
Definition Clean (p : string) : string :=
  let rooted := IsAbs p in
  let body := GoStrings.join "/" (rev (foldl (clean_step rooted) [] (split slash p))) in
  if rooted then String slash body else if bool_decide (body = "") then "." else body.

(** ** paths.go *)
Inductive PathError :=
| PathRequired (what : string)
| PathNotAbsolute (p : string)
| PathNotRelative (p : string)
| PathNotComponent (what p : string)
| PathDots (what p : string)
| PathNotClean (what p : string)
| PathBadChars (what p : string)
| PathDotDot (what p : string).

(** Space, tab, CR, LF, NUL, colon and backslash. *)
Definition path_delimiters : list ascii :=
  [" "; "009"; "013"; "010"; "000"; ":"; "092"]%char.

Definition cleanContainerPath (p what : string) : option PathError :=
  if negb (bool_decide (p = Clean p)) then Some (PathNotClean what p)
  else if ContainsAny p path_delimiters then Some (PathBadChars what p)
  else if existsb (λ seg, bool_decide (seg = "..")) (split slash p) then Some (PathDotDot what p)
  else None.

Definition ValidMountPath (p : string) : option PathError :=
  if bool_decide (p = "") then Some (PathRequired "mountPath")
  else if negb (IsAbs p) then Some (PathNotAbsolute p)
  else cleanContainerPath p "mountPath".

Definition ValidRelPath (p : string) : option PathError :=
  if bool_decide (p = "") then Some (PathRequired "path")
  else if IsAbs p then Some (PathNotRelative p)
  else cleanContainerPath p "path".

Definition ValidBaseName (p what : string) : option PathError :=
  if ContainsAny p [slash] then Some (PathNotComponent what p)
  else if bool_decide (p = ".") || bool_decide (p = "..") then Some (PathDots what p)
  else if bool_decide (p = "") then Some (PathRequired what)
  else cleanContainerPath p what.

(** ** env.go *)
Inductive EnvError :=
| EnvRequired (what : string)
| EnvBadName (what name : string)
| EnvBadValue (name : string).

Definition in_range (lo hi : ascii) (c : ascii) : bool :=
  (nat_of_ascii lo <=? nat_of_ascii c) && (nat_of_ascii c <=? nat_of_ascii hi).

Definition env_letter (c : ascii) : bool :=
  in_range "a" "z" c || in_range "A" "Z" c || bool_decide (c = "_"%char).

(** The range loop at byte [i > 0]. *)
Fixpoint env_rest (s : string) : bool :=
  match s with
  | EmptyString => true
  | String c s' => (env_letter c || in_range "0" "9" c) && env_rest s'
  end.

Definition ValidEnvName (name what : string) : option EnvError :=
  match name with
  | EmptyString => Some (EnvRequired what)
  | String c s' => if env_letter c && env_rest s' then None else Some (EnvBadName what name)
  end.

Definition ValidEnvPrefix (prefix : string) : option EnvError :=
  if bool_decide (prefix = "") then None else ValidEnvName prefix "env prefix".

(** LF, CR and NUL. *)
Definition control_chars : list ascii := ["010"; "013"; "000"]%char.

Definition ValidEnvValue (name value : string) : option EnvError :=
  if ContainsAny value control_chars then Some (EnvBadValue name) else None.

(** ** Splitting and joining *)
Lemma split_no_sep sep s : GoStrings.no_char sep s = true → split sep s = [s].
Proof.
  induction s as [|c s IH]; simpl; [done|]. intros [Hc Hs]%andb_true_iff.
  bools. by rewrite decide_False, IH.
Qed.

Lemma split_app sep a b :
  GoStrings.no_char sep a = true → split sep (a +:+ String sep b) = a :: split sep b.
Proof.
  induction a as [|c a IH]; simpl; intros H; [by rewrite decide_True|].
  bools. destruct H as [Hc Ha]. by rewrite decide_False, IH.
Qed.

Lemma split_elems sep s w : w ∈ split sep s → GoStrings.no_char sep w = true.
Proof.
  revert w. induction s as [|c s IH]; intros w; simpl; [by intros ->%list_elem_of_singleton|].
  destruct (decide (c = sep)) as [->|Hc].
  - intros [->|Hw]%elem_of_cons; auto.
  - destruct (split sep s) as [|w0 ws] eqn:E.
    + intros ->%list_elem_of_singleton. simpl. by rewrite bool_decide_eq_false_2.
    + intros [->|Hw]%elem_of_cons; [|apply IH; by right].
      simpl. rewrite bool_decide_eq_false_2 by done. apply IH. left.
Qed.

Lemma split_join_sep sep segs :
  segs ≠ [] → (∀ w, w ∈ segs → GoStrings.no_char sep w = true) →
  split sep (GoStrings.join (String sep "") segs) = segs.
Proof.
  induction segs as [|w segs IH]; [done|]. intros _ Hs. destruct segs as [|w2 segs].
  - simpl. apply split_no_sep, Hs. left.
  - change (GoStrings.join (String sep "") (w :: w2 :: segs))
      with (w +:+ String sep (GoStrings.join (String sep "") (w2 :: segs))).
    rewrite split_app by (apply Hs; left). rewrite IH; [done|done|]. intros; apply Hs. by right.
Qed.
Lemma split_join segs :
  segs ≠ [] → (∀ w, w ∈ segs → GoStrings.no_char slash w = true) →
  split slash (GoStrings.join "/" segs) = segs.
Proof. apply split_join_sep. Qed.

Lemma ContainsAny_false s cs : ContainsAny s cs = false ↔ ∀ c, c ∈ cs → GoStrings.no_char c s = true.
Proof.
  induction s as [|d s IH]; simpl; [done|]. rewrite orb_false_iff, IH. split.
  - intros [Hd Hs] c Hc. rewrite bool_decide_eq_false in Hd. rewrite Hs by done.
    rewrite bool_decide_eq_false_2; [done|]. by intros ->.
  - intros H. split.
    + apply bool_decide_eq_false. intros Hd. specialize (H d Hd).
      by rewrite bool_decide_eq_true_2 in H.
    + intros c Hc. specialize (H c Hc). bools. tauto.
Qed.

Lemma ContainsAny_app a b cs : ContainsAny (a +:+ b) cs = ContainsAny a cs || ContainsAny b cs.
Proof. induction a as [|c a IH]; simpl; [done|]. by rewrite IH, orb_assoc. Qed.

Lemma ContainsAny_join segs cs :
  ContainsAny (GoStrings.join "/" segs) cs = false → ∀ w, w ∈ segs → ContainsAny w cs = false.
Proof.
  induction segs as [|w0 segs IH]; [by intros _ w ?%elem_of_nil|].
  destruct segs as [|w1 segs]; [by intros H w ->%list_elem_of_singleton|].
  change (GoStrings.join "/" (w0 :: w1 :: segs))
    with (w0 +:+ String slash (GoStrings.join "/" (w1 :: segs))).
  rewrite ContainsAny_app, orb_false_iff. intros [H0 H1] w [->|Hw]%elem_of_cons; [done|].
  apply IH; [|done]. simpl in H1. by apply orb_false_iff in H1 as [_ H1].
Qed.

Lemma ContainsAny_join_ok segs cs :
  slash ∉ cs → (∀ w, w ∈ segs → ContainsAny w cs = false) →
  ContainsAny (GoStrings.join "/" segs) cs = false.
Proof.
  intros Hsl. induction segs as [|w0 segs IH]; [done|]. intros H.
  destruct segs as [|w1 segs]; [apply H; left|].
  change (GoStrings.join "/" (w0 :: w1 :: segs))
    with (w0 +:+ String slash (GoStrings.join "/" (w1 :: segs))).
  rewrite ContainsAny_app, (H w0) by left. simpl. rewrite bool_decide_eq_false_2 by done.
  apply IH. intros; apply H. by right.
Qed.

(** ** Clean paths *)

(** A path element that stands for itself and carries no delimiter. *)
Definition good_seg (w : string) : Prop :=
  w ≠ "" ∧ w ≠ "." ∧ w ≠ ".." ∧ GoStrings.no_char slash w = true ∧
  ContainsAny w path_delimiters = false.

Lemma clean_fold_plain rooted segs st :
  (∀ w, w ∈ segs → w ≠ "" ∧ w ≠ "." ∧ w ≠ "..") →
  foldl (clean_step rooted) st segs = rev segs ++ st.
Proof.
  revert st. induction segs as [|w segs IH]; intros st H; simpl; [done|].
  destruct (H w) as (H1 & H2 & H3); [left|].
  rewrite IH by (intros; apply H; by right). unfold clean_step.
  rewrite !bool_decide_eq_false_2 by done. simpl. by rewrite <-app_assoc.
Qed.

(** What [Clean] keeps is a real element, and never a leading ".." of a rooted path. *)
Lemma clean_fold_elems rooted segs st w :
  (∀ w, w ∈ st → w ≠ "" ∧ w ≠ "." ∧ (rooted = true → w ≠ "..")) →
  w ∈ foldl (clean_step rooted) st segs →
  (w ∈ st ∨ w ∈ segs) ∧ w ≠ "" ∧ w ≠ "." ∧ (rooted = true → w ≠ "..").
Proof.
  revert st. induction segs as [|s segs IH]; intros st Hst Hw; simpl in *.
  { split; [by left|]. by apply Hst. }
  assert (∀ w, w ∈ clean_step rooted st s →
    (w ∈ st ∨ w = s) ∧ w ≠ "" ∧ w ≠ "." ∧ (rooted = true → w ≠ "..")) as Hstep.
  { intros v. unfold clean_step.
    destruct (decide (s = "")) as [->|H1]; [intros; split; [by left|by apply Hst]|].
    destruct (decide (s = ".")) as [->|H2]; [intros; split; [by left|by apply Hst]|].
    rewrite !(bool_decide_eq_false_2 (s = _)) by done. simpl.
    destruct (decide (s = "..")) as [->|H3].
    - rewrite bool_decide_eq_true_2 by done. destruct st as [|top rest].
      + destruct rooted; [by intros ?%elem_of_nil|]. intros ->%list_elem_of_singleton. naive_solver.
      + destruct (Hst top) as (Ht1 & Ht2 & Ht3); [left|].
        case_bool_decide as Ht.
        * subst top. intros [->|Hv]%elem_of_cons; [|split; [by left|by apply Hst]].
          split; [by right|]. split_and!; [done..|]. intros ->. by destruct Ht3.
        * intros Hv. split; [left; by right|]. apply Hst. by right.
    - rewrite bool_decide_eq_false_2 by done.
      intros [->|Hv]%elem_of_cons; [split; [by right|done]|split; [by left|by apply Hst]]. }
  destruct (IH (clean_step rooted st s)) as [Hin Hok]; [apply Hstep|done|].
  split; [|done]. destruct Hin as [Hin|Hin]; [|right; by right].
  destruct (Hstep _ Hin) as [[?| ->] _]; [by left|right; by left].
Qed.

Lemma clean_elems rooted p w :
  w ∈ rev (foldl (clean_step rooted) [] (split slash p)) →
  GoStrings.no_char slash w = true ∧ w ≠ "" ∧ w ≠ "." ∧ (rooted = true → w ≠ "..").
Proof.
  rewrite list_elem_of_In, <-in_rev, <-list_elem_of_In. intros Hw. apply clean_fold_elems in Hw; [|by intros ? ?%elem_of_nil].
  destruct Hw as [[?%elem_of_nil|Hin] Hok]; [done|]. split; [|done]. by eapply split_elems.
Qed.

Lemma slash_not_delimiter : slash ∉ path_delimiters.
Proof. refine (bool_decide_eq_true_1 _ _). vm_compute. reflexivity. Qed.

Lemma good_segs_clean rooted segs :
  (∀ w, w ∈ segs → good_seg w) →
  GoStrings.join "/" (rev (foldl (clean_step rooted) [] segs)) = GoStrings.join "/" segs.
Proof.
  intros H. rewrite clean_fold_plain, app_nil_r.
  - by rewrite rev_involutive.
  - intros w Hw. destruct (H w Hw) as (? & ? & ? & _). done.
Qed.

Lemma no_dotdot segs :
  (∀ w, w ∈ segs → good_seg w) → existsb (λ seg, bool_decide (seg = "..")) segs = false.
Proof.
  intros H. apply existsb_elem_false. intros w Hw. apply bool_decide_eq_false.
  by destruct (H w Hw) as (_ & _ & ? & _).
Qed.

Lemma cleanContainerPath_None p what :
  cleanContainerPath p what = None ↔
  p = Clean p ∧ ContainsAny p path_delimiters = false ∧
  existsb (λ seg, bool_decide (seg = "..")) (split slash p) = false.
Proof.
  unfold cleanContainerPath. case_bool_decide; simpl; [|naive_solver].
  destruct (ContainsAny p path_delimiters); [naive_solver|].
  destruct (existsb _ _); naive_solver.
Qed.

Lemma cleanContainerPath_abs p what :
  IsAbs p = true →
  cleanContainerPath p what = None ↔
  ∃ segs, p = String slash (GoStrings.join "/" segs) ∧ ∀ w, w ∈ segs → good_seg w.
Proof.
  intros Habs. rewrite cleanContainerPath_None. split.
  - intros (Hc & Hch & _). unfold Clean in Hc. rewrite Habs in Hc.
    eexists. split; [exact Hc|]. rewrite Hc in Hch. simpl in Hch.
    intros w Hw. pose proof (ContainsAny_join _ _ Hch w Hw) as Hcw.
    apply clean_elems in Hw as (? & ? & ? & Hr). by repeat split; auto.
  - intros (segs & -> & Hg).
    assert (split slash (String slash (GoStrings.join "/" segs)) = "" :: split slash (GoStrings.join "/" segs)) as Hs
      by reflexivity.
    destruct (decide (segs = [])) as [->|Hne]; [by vm_compute|].
    assert (split slash (GoStrings.join "/" segs) = segs) as Hj.
    { apply split_join; [done|]. intros w Hw. by destruct (Hg w Hw) as (_ & _ & _ & ? & _). }
    split_and!.
    + unfold Clean. rewrite Habs, Hs, Hj. simpl. by rewrite good_segs_clean.
    + simpl. rewrite ContainsAny_join_ok; [done|apply slash_not_delimiter|].
      intros w Hw. by destruct (Hg w Hw) as (_ & _ & _ & _ & ?).
    + rewrite Hs, Hj. simpl. by apply no_dotdot.
Qed.

Lemma join_empty segs : (∀ w, w ∈ segs → w ≠ "") → GoStrings.join "/" segs = "" → segs = [].
Proof.
  destruct segs as [|w segs]; [done|]. intros H E. destruct (H w); [left|].
  destruct segs; [done|]. simpl in E. by destruct w.
Qed.

Lemma cleanContainerPath_rel p what :
  p ≠ "" → IsAbs p = false →
  cleanContainerPath p what = None ↔
  p = "." ∨ ∃ segs, segs ≠ [] ∧ p = GoStrings.join "/" segs ∧ ∀ w, w ∈ segs → good_seg w.
Proof.
  intros Hp Habs. rewrite cleanContainerPath_None. split.
  - intros (Hc & Hch & Hdd). unfold Clean in Hc. rewrite Habs in Hc.
    pose proof (clean_elems false p) as Hel.
    set (segs := rev _) in *. case_bool_decide as Hb; [by left|]. right. exists segs.
    assert (segs ≠ []) as Hne by (intros E; by rewrite E in Hb).
    split_and!; [done..|]. intros w Hw. destruct (Hel w Hw) as (? & ? & ? & _).
    rewrite Hc in Hch. pose proof (ContainsAny_join _ _ Hch w Hw).
    rewrite Hc, split_join in Hdd; [|done|intros; by eapply Hel].
    rewrite existsb_elem_false in Hdd. specialize (Hdd w Hw). bools. by repeat split.
  - intros [->|(segs & Hne & -> & Hg)]; [by vm_compute|].
    assert (split slash (GoStrings.join "/" segs) = segs) as Hj.
    { apply split_join; [done|]. intros w Hw. by destruct (Hg w Hw) as (_ & _ & _ & ? & _). }
    split_and!.
    + unfold Clean. rewrite Habs, Hj, good_segs_clean by done.
      rewrite bool_decide_eq_false_2; [done|]. intros E. apply join_empty in E; [done|].
      intros w Hw. by destruct (Hg w Hw).
    + apply ContainsAny_join_ok; [apply slash_not_delimiter|].
      intros w Hw. by destruct (Hg w Hw) as (_ & _ & _ & _ & ?).
    + rewrite Hj. by apply no_dotdot.
Qed.

Lemma IsAbs_no_slash p : GoStrings.no_char slash p = true → IsAbs p = false.
Proof. destruct p as [|c p]; [done|]. simpl. intros H. bools. tauto. Qed.

(** ** Properties *)

(** A mount path is admitted exactly when it is "/" or an absolute path whose every
    element is a real name: never empty, "." or "..", and free of the whitespace, colon,
    backslash and NUL a mount directive would split on. *)
Theorem ValidMountPath_spec p :
  ValidMountPath p = None ↔
  ∃ segs, p = String slash (GoStrings.join "/" segs) ∧ ∀ w, w ∈ segs → good_seg w.
Proof.
  unfold ValidMountPath. case_bool_decide as Hp.
  { subst. split; [done|]. by intros (segs & ? & _). }
  destruct (IsAbs p) eqn:Ha; simpl; [by apply cleanContainerPath_abs|].
  split; [done|]. intros (segs & -> & _). by simpl in Ha.
Qed.

(** A projection path is admitted exactly when it is a non-empty sequence of real
    names, so that joining it under the mount never leaves the mount - or the single ".",
    the mount directory itself. *)
Theorem ValidRelPath_spec p :
  ValidRelPath p = None ↔
  p = "." ∨ ∃ segs, segs ≠ [] ∧ p = GoStrings.join "/" segs ∧ ∀ w, w ∈ segs → good_seg w.
Proof.
  unfold ValidRelPath. case_bool_decide as Hp.
  { subst. split; [done|]. intros [?|(segs & Hne & E & Hg)]; [done|].
    destruct Hne. apply join_empty; [|done]. intros w Hw. by destruct (Hg w Hw). }
  destruct (IsAbs p) eqn:Ha; [|by apply cleanContainerPath_rel].
  split; [done|]. intros [->|(segs & Hne & -> & Hg)]; [done|].
  destruct segs as [|w segs]; [done|].
  destruct (Hg w) as (Hw & _ & _ & Hns & _); [left|]. destruct w as [|c w]; [done|].
  destruct segs; simpl in Ha, Hns; bools; tauto.
Qed.

(** A secret's data key (and an audience) is admitted exactly when it is one real path
    element, so the default projection - the key as file name - is a valid path. *)
Theorem ValidBaseName_spec p what : ValidBaseName p what = None ↔ good_seg p.
Proof.
  unfold ValidBaseName. destruct (ContainsAny p [slash]) eqn:Hs.
  { split; [done|]. intros (_ & _ & _ & Hn & _).
    rewrite (proj2 (ContainsAny_false p [slash])) in Hs; [done|]. by intros c ->%list_elem_of_singleton. }
  rewrite ContainsAny_false in Hs. specialize (Hs slash ltac:(left)).
  destruct (decide (p = ".")) as [->|H1]; [split; [done|]; by intros (_ & ? & _)|].
  destruct (decide (p = "..")) as [->|H2]; [split; [done|]; by intros (_ & _ & ? & _)|].
  destruct (decide (p = "")) as [->|H3]; [split; [done|]; by intros (? & _)|].
  rewrite !bool_decide_eq_false_2 by done. simpl.
  rewrite cleanContainerPath_rel by (try apply IsAbs_no_slash; done). split.
  - intros [?|(segs & Hne & E & Hg)]; [done|].
    assert (split slash p = segs) as Hsp.
    { rewrite E. apply split_join; [done|]. intros w Hw. by destruct (Hg w Hw) as (_ & _ & _ & ? & _). }
    rewrite split_no_sep in Hsp by done. subst segs. apply Hg. left.
  - intros Hg. right. exists [p]. split_and!; [done..|]. by intros w ->%list_elem_of_singleton.
Qed.

Lemma env_rest_app a b : env_rest (a +:+ b) = env_rest a && env_rest b.
Proof. induction a as [|c a IH]; simpl; [done|]. by rewrite IH, andb_assoc. Qed.

Lemma ValidEnvName_rest name what : ValidEnvName name what = None → env_rest name = true.
Proof.
  destruct name as [|c s]; simpl; [done|]. destruct (env_letter c); simpl; [|done].
  by destruct (env_rest s).
Qed.

(** A legal import prefix keeps every legal key legal: the variables a wildcard secret
    import derives as prefix+key are valid environment names whenever the keys are. *)
Theorem ValidEnvPrefix_app prefix key what what' :
  ValidEnvPrefix prefix = None → ValidEnvName key what = None →
  ValidEnvName (prefix +:+ key) what' = None.
Proof.
  unfold ValidEnvPrefix. case_bool_decide as Hp.
  { subst. intros _. destruct key as [|c s]; [done|]. simpl. by destruct (_ && _). }
  intros Hpre Hkey%ValidEnvName_rest. destruct prefix as [|c s]; [done|].
  simpl in *. destruct (env_letter c); simpl in *; [|done].
  rewrite env_rest_app, Hkey. by destruct (env_rest s).
Qed.
