(* ===== verification/ApiObjects.v ===== *)
(** * The remaining API objects and the object sum (api/core/v1)

    Namespace, Secret, Service and ApplicationSet, the metadata an ApplicationSet stamps on
    what it renders, and [Object]: the typed value the control plane stores, reviews and
    lists, with the RBAC and certificate Kinds. *)
From stdpp Require Import gmap strings list.
From Stdlib Require Import ZArith Ascii.
From S2P Require Import Prelude Resources CoreV1.

Definition GroupVersion : string := "horchestra.io/v1".
Definition FinalizerNodeTeardown : string := "horchestra.io/node-teardown".
Definition FinalizerChildTeardown : string := "horchestra.io/child-teardown".
Definition LabelApplicationSet : string := "horchestra.io/application-set".
Definition LabelComponent : string := "horchestra.io/component".
Definition AnnAppsetSpecHash : string := "horchestra.io/appset-spec-hash".

(** ** Namespace, Secret, Service *)
Record Namespace := mkNamespace { nsp_meta : ObjectMeta }.
Definition nsp_Name (n : Namespace) : string := om_Name (nsp_meta n).

Record Secret := mkSecret {
  sec_meta : ObjectMeta;
  sec_Immutable : option bool;
  sec_Type : string;
  sec_Data : gmap string (list Ascii.ascii);
  sec_StringData : gmap string string;
}.

Record ServicePort := mkServicePort {
  svp_Name : string;
  svp_Port : Z;
  svp_TargetName : string;
  svp_TargetPort : Z;
  svp_Protocol : string;
}.

Record Service := mkService {
  svc_meta : ObjectMeta;
  svc_ClusterIP : string;
  svc_Ports : list ServicePort;
}.

#[global] Instance ServicePort_eq_dec : EqDecision ServicePort := ltac:(solve_decision).

(** [Service.CatalogName]. *)
Definition CatalogName (s : Service) (p : ServicePort) : string :=
  if bool_decide (svp_Name p = "") then om_Name (svc_meta s)
  else om_Name (svc_meta s) +:+ "-" +:+ svp_Name p.

(** ** Ownership by an ApplicationSet *)
Definition is_appset_ref (r : OwnerReference) : bool :=
  bool_decide (or_Kind r = "ApplicationSet") && bool_decide (or_APIVersion r = GroupVersion) &&
  default false (or_Controller r).

(** [appsetOwnerIndex]; [None] is -1. *)
Fixpoint appsetOwnerIndex (refs : list OwnerReference) : option nat :=
  match refs with
  | [] => None
  | r :: refs' => if is_appset_ref r then Some 0 else S <$> appsetOwnerIndex refs'
  end.

(** [AppsetOwnerOf]. *)
Definition AppsetOwnerOf (refs : list OwnerReference) : option OwnerReference :=
  match appsetOwnerIndex refs with Some i => refs !! i | None => None end.

Definition ReservedChildLabels : list string := [LabelApplicationSet; LabelComponent].

Definition set_labels (l : gmap string string) (m : ObjectMeta) : ObjectMeta :=
  mkObjectMeta (om_Namespace m) (om_Name m) (om_UID m) (om_ResourceVersion m) (om_Generation m)
    l (om_Annotations m) (om_CreationTimestamp m) (om_DeletionTimestamp m) (om_Finalizers m)
    (om_OwnerReferences m).
Definition set_annotations (l : gmap string string) (m : ObjectMeta) : ObjectMeta :=
  mkObjectMeta (om_Namespace m) (om_Name m) (om_UID m) (om_ResourceVersion m) (om_Generation m)
    (om_Labels m) l (om_CreationTimestamp m) (om_DeletionTimestamp m) (om_Finalizers m)
    (om_OwnerReferences m).
Definition set_finalizers (l : list string) (m : ObjectMeta) : ObjectMeta :=
  mkObjectMeta (om_Namespace m) (om_Name m) (om_UID m) (om_ResourceVersion m) (om_Generation m)
    (om_Labels m) (om_Annotations m) (om_CreationTimestamp m) (om_DeletionTimestamp m) l
    (om_OwnerReferences m).
Definition set_ownerReferences (l : list OwnerReference) (m : ObjectMeta) : ObjectMeta :=
  mkObjectMeta (om_Namespace m) (om_Name m) (om_UID m) (om_ResourceVersion m) (om_Generation m)
    (om_Labels m) (om_Annotations m) (om_CreationTimestamp m) (om_DeletionTimestamp m)
    (om_Finalizers m) l.

Definition set_identity (namespace name : string) (m : ObjectMeta) : ObjectMeta :=
  mkObjectMeta namespace name (om_UID m) (om_ResourceVersion m) (om_Generation m)
    (om_Labels m) (om_Annotations m) (om_CreationTimestamp m) (om_DeletionTimestamp m)
    (om_Finalizers m) (om_OwnerReferences m).
Definition set_uid (uid : string) (m : ObjectMeta) : ObjectMeta :=
  mkObjectMeta (om_Namespace m) (om_Name m) uid (om_ResourceVersion m) (om_Generation m)
    (om_Labels m) (om_Annotations m) (om_CreationTimestamp m) (om_DeletionTimestamp m)
    (om_Finalizers m) (om_OwnerReferences m).
Definition set_resourceVersion (rv : string) (m : ObjectMeta) : ObjectMeta :=
  mkObjectMeta (om_Namespace m) (om_Name m) (om_UID m) rv (om_Generation m)
    (om_Labels m) (om_Annotations m) (om_CreationTimestamp m) (om_DeletionTimestamp m)
    (om_Finalizers m) (om_OwnerReferences m).
Definition set_generation (g : Z) (m : ObjectMeta) : ObjectMeta :=
  mkObjectMeta (om_Namespace m) (om_Name m) (om_UID m) (om_ResourceVersion m) g
    (om_Labels m) (om_Annotations m) (om_CreationTimestamp m) (om_DeletionTimestamp m)
    (om_Finalizers m) (om_OwnerReferences m).
Definition set_creationTimestamp (t : Z) (m : ObjectMeta) : ObjectMeta :=
  mkObjectMeta (om_Namespace m) (om_Name m) (om_UID m) (om_ResourceVersion m) (om_Generation m)
    (om_Labels m) (om_Annotations m) t (om_DeletionTimestamp m)
    (om_Finalizers m) (om_OwnerReferences m).
Definition set_deletionTimestamp (t : option Z) (m : ObjectMeta) : ObjectMeta :=
  mkObjectMeta (om_Namespace m) (om_Name m) (om_UID m) (om_ResourceVersion m) (om_Generation m)
    (om_Labels m) (om_Annotations m) (om_CreationTimestamp m) t
    (om_Finalizers m) (om_OwnerReferences m).

(** [ReleaseAppsetMeta]. *)
Definition ReleaseAppsetMeta (m : ObjectMeta) : ObjectMeta :=
  let m := match appsetOwnerIndex (om_OwnerReferences m) with
           | Some i => set_ownerReferences (delete i (om_OwnerReferences m)) m
           | None => m
           end in
  let m := set_labels (foldl (λ l key, delete key l) (om_Labels m) ReservedChildLabels) m in
  set_annotations (delete AnnAppsetSpecHash (om_Annotations m)) m.

(** ** RBAC (api/rbac/v1/types.go) *)
Record PolicyRule := mkPolicyRule {
  pr_APIGroups : list string;
  pr_Resources : list string;
  pr_Verbs : list string;
  pr_NonResourceURLs : list string;
}.
Record Subject := mkSubject { sub_Kind : string; sub_Name : string }.
Record RoleRef := mkRoleRef { ref_Kind : string; ref_Name : string }.

(** Role and ClusterRole share their shape, as the two bindings do. *)
Record Role := mkRole { role_meta : ObjectMeta; role_Rules : list PolicyRule }.
Record RoleBinding := mkRoleBinding {
  rb_meta : ObjectMeta;
  rb_Subjects : list Subject;
  rb_RoleRef : RoleRef;
}.

(** ** Certificates (api/certificates/v1/types.go) *)
Record CSRSpec := mkCSRSpec { csp_Request : list ascii; csp_Groups : list string; csp_NodeName : string }.
Record CSRStatus := mkCSRStatus { cst_Phase : string; cst_Certificate : list ascii; cst_Reason : string }.
Record CertificateSigningRequest := mkCSR {
  csr_meta : ObjectMeta;
  csr_Spec : CSRSpec;
  csr_Status : CSRStatus;
}.
Definition CSRPending : string := "Pending".
Definition CSRApproved : string := "Approved".
Definition CSRDenied : string := "Denied".
Definition AnnRequester : string := "certificates.horchestra.io/requester".
Definition AnnRequesterGroups : string := "certificates.horchestra.io/requester-groups".

Section Objects.
Context {HQ : Quantity}.

(** ** ApplicationSet *)
Record ChildMeta := mkChildMeta {
  cm_Labels : gmap string string;
  cm_Annotations : gmap string string;
}.

Record Scale := mkScale {
  sc_Replicas : option Z;
  (** [NodeSpread]: its nodeSelector. *)
  sc_NodeSpread : option (gmap string string);
}.

Record NamedApplicationSpec := mkNamedApp {
  nas_Name : string;
  nas_Metadata : ChildMeta;
  nas_Spec : ApplicationSpec;
  nas_Scale : Scale;
}.

Record CommonMeta := mkCommonMeta {
  com_Labels : gmap string string;
  com_Annotations : gmap string string;
  com_Env : list EnvVar;
  com_Volumes : list VolumeMount;
}.

Record Rollout := mkRollout { ro_MaxUnavailable : Z; ro_Prune : option bool }.

Record ApplicationSetSpec := mkAppSetSpec {
  ass_Applications : list NamedApplicationSpec;
  ass_Common : CommonMeta;
  ass_PlacementMode : string;
  ass_Rollout : Rollout;
}.

Record ChildStatus := mkChildStatus { chs_Name : string; chs_Node : string; chs_Phase : string }.
Record Condition := mkCondition {
  cond_Type : string; cond_Status : string; cond_Reason : string; cond_Message : string;
}.

#[global] Instance ChildStatus_eq_dec : EqDecision ChildStatus := ltac:(solve_decision).
#[global] Instance Condition_eq_dec : EqDecision Condition := ltac:(solve_decision).

Record ApplicationSetStatus := mkAppSetStatus {
  asst_Phase : string;
  asst_ObservedResourceVersion : string;
  asst_Desired : Z;
  asst_Current : Z;
  asst_Scheduled : Z;
  asst_Running : Z;
  asst_Children : list ChildStatus;
  asst_Conditions : list Condition;
}.

Record ApplicationSet := mkAppSet {
  aset_meta : ObjectMeta;
  aset_Spec : ApplicationSetSpec;
  aset_Status : ApplicationSetStatus;
}.

(** ** Secrets an Application consumes (env.go) *)
Definition secretRefs (includeOptional : bool) (a : Application) : gset string :=
  list_to_set
    ((vs_Name ∘ vm_Volume) <$> List.filter (λ m,
        IsSecret m && negb (bool_decide (vs_Name (vm_Volume m) = "")) &&
        (includeOptional || negb (default false (vs_Optional (vm_Volume m)))))
       (sp_Volumes (app_Spec a)))
  ∪ list_to_set
    (esr_Name <$> List.filter (λ r,
        negb (bool_decide (esr_Name r = "")) && (includeOptional || negb (IsOptional r)))
       (omap ev_SecretRef (sp_Env (app_Spec a)))).

(** [SecretRefs] and [RequiredSecretRefs], sorted. *)
Definition SecretRefs (a : Application) : list string :=
  sort_stable String.ltb (elements (secretRefs true a)).
Definition RequiredSecretRefs (a : Application) : list string :=
  sort_stable String.ltb (elements (secretRefs false a)).

(** ** The object sum *)
Inductive Object :=
| ObjNamespace (n : Namespace)
| ObjNode (n : Node)
| ObjApplication (a : Application)
| ObjApplicationSet (s : ApplicationSet)
| ObjPersistentVolume (p : PersistentVolume)
| ObjSecret (s : Secret)
| ObjService (s : Service)
| ObjRole (r : Role)
| ObjRoleBinding (b : RoleBinding)
| ObjClusterRole (r : Role)
| ObjClusterRoleBinding (b : RoleBinding)
| ObjCSR (c : CertificateSigningRequest).

Definition obj_Kind (o : Object) : string :=
  match o with
  | ObjNamespace _ => "Namespace"
  | ObjNode _ => "Node"
  | ObjApplication _ => "Application"
  | ObjApplicationSet _ => "ApplicationSet"
  | ObjPersistentVolume _ => "PersistentVolume"
  | ObjSecret _ => "Secret"
  | ObjService _ => "Service"
  | ObjRole _ => "Role"
  | ObjRoleBinding _ => "RoleBinding"
  | ObjClusterRole _ => "ClusterRole"
  | ObjClusterRoleBinding _ => "ClusterRoleBinding"
  | ObjCSR _ => "CertificateSigningRequest"
  end.

(** [meta.Accessor]: every API object carries metadata. *)
Definition obj_meta (o : Object) : ObjectMeta :=
  match o with
  | ObjNamespace n => nsp_meta n
  | ObjNode n => node_meta n
  | ObjApplication a => app_meta a
  | ObjApplicationSet s => aset_meta s
  | ObjPersistentVolume p => pv_meta p
  | ObjSecret s => sec_meta s
  | ObjService s => svc_meta s
  | ObjRole r | ObjClusterRole r => role_meta r
  | ObjRoleBinding b | ObjClusterRoleBinding b => rb_meta b
  | ObjCSR c => csr_meta c
  end.

Definition map_meta (f : ObjectMeta → ObjectMeta) (o : Object) : Object :=
  match o with
  | ObjNamespace n => ObjNamespace (mkNamespace (f (nsp_meta n)))
  | ObjNode n => ObjNode (mkNode (f (node_meta n)) (node_Unschedulable n) (node_Status n))
  | ObjApplication a => ObjApplication (mkApplication (f (app_meta a)) (app_Spec a) (app_Status a))
  | ObjApplicationSet s => ObjApplicationSet (mkAppSet (f (aset_meta s)) (aset_Spec s) (aset_Status s))
  | ObjPersistentVolume p => ObjPersistentVolume (mkPV (f (pv_meta p)) (pv_Spec p))
  | ObjSecret s => ObjSecret (mkSecret (f (sec_meta s)) (sec_Immutable s) (sec_Type s) (sec_Data s) (sec_StringData s))
  | ObjService s => ObjService (mkService (f (svc_meta s)) (svc_ClusterIP s) (svc_Ports s))
  | ObjRole r => ObjRole (mkRole (f (role_meta r)) (role_Rules r))
  | ObjRoleBinding b => ObjRoleBinding (mkRoleBinding (f (rb_meta b)) (rb_Subjects b) (rb_RoleRef b))
  | ObjClusterRole r => ObjClusterRole (mkRole (f (role_meta r)) (role_Rules r))
  | ObjClusterRoleBinding b => ObjClusterRoleBinding (mkRoleBinding (f (rb_meta b)) (rb_Subjects b) (rb_RoleRef b))
  | ObjCSR c => ObjCSR (mkCSR (f (csr_meta c)) (csr_Spec c) (csr_Status c))
  end.

Definition obj_Name (o : Object) : string := om_Name (obj_meta o).
Definition obj_Namespace (o : Object) : string := om_Namespace (obj_meta o).

Definition with_spec (f : ApplicationSpec → ApplicationSpec) (a : Application) : Application :=
  mkApplication (app_meta a) (f (app_Spec a)) (app_Status a).
Definition with_security_context (sc : SecurityContext) (s : ApplicationSpec) : ApplicationSpec :=
  mkAppSpec (sp_Image s) (sp_Command s) (sp_Args s) (sp_Env s) (sp_Ports s) (sp_Resources s)
    (sp_Lifecycle s) (sp_Placement s) (sp_HostNetwork s) (sp_ServiceName s)
    (sp_RuntimeClassName s) (Some sc) (sp_Volumes s).
End Objects.
#[global] Arguments Object {HQ}.
#[global] Arguments ApplicationSet {HQ}.

(** ** Facts *)
Section Facts.
Context {HQ : Quantity}.

Lemma map_meta_meta f (o : Object) : obj_meta (map_meta f o) = f (obj_meta o).
Proof. by destruct o. Qed.
Lemma map_meta_kind f (o : Object) : obj_Kind (map_meta f o) = obj_Kind o.
Proof. by destruct o. Qed.

Lemma secretRefs_mono (a : Application) : secretRefs false a ⊆ secretRefs true a.
Proof.
  unfold secretRefs. intros x. rewrite !elem_of_union, !elem_of_list_to_set, !list_elem_of_fmap.
  intros [(m & -> & Hm)|(r & -> & Hr)]; [left; exists m|right; exists r]; (split; [done|]).
  - apply filter_elem in Hm as [Hin Hm]. apply filter_elem. split; [done|].
    bools. naive_solver.
  - apply filter_elem in Hr as [Hin Hr]. apply filter_elem. split; [done|].
    bools. naive_solver.
Qed.

Lemma SecretRefs_elem (a : Application) x : x ∈ SecretRefs a ↔ x ∈ secretRefs true a.
Proof. unfold SecretRefs. by rewrite sort_stable_perm, elem_of_elements. Qed.
Lemma RequiredSecretRefs_elem (a : Application) x : x ∈ RequiredSecretRefs a ↔ x ∈ secretRefs false a.
Proof. unfold RequiredSecretRefs. by rewrite sort_stable_perm, elem_of_elements. Qed.

Lemma appsetOwnerIndex_None refs :
  appsetOwnerIndex refs = None ↔ ∀ r, r ∈ refs → is_appset_ref r = false.
Proof.
  induction refs as [|r refs IH]; simpl.
  - split; [|done]. by intros _ r ?%elem_of_nil.
  - destruct (is_appset_ref r) eqn:E.
    + split; [done|]. intros H. rewrite H in E; [done|left].
    + rewrite fmap_None, IH. split.
      * intros H r' [->|Hr]%elem_of_cons; auto.
      * intros H r' Hr. apply H. by right.
Qed.
End Facts.
