(* ===== verification/Admission.v ===== *)
(** * The admission chain (controller/admission)

    The request a plugin reviews, the chain that runs every mutation pass and then every
    validation pass, and the plugins that guard a workload's identity, shape, finalizers
    and capacity.  A plugin mutates the object through its pointer; here [Admit] returns
    the request with the new object, and an error (after which the request is abandoned)
    returns no object.  The [Lister] is what the store answers during one request. *)
From stdpp Require Import gmap strings list.
From Stdlib Require Import ZArith Ascii.
From S2P Require Import Prelude Resources CoreV1 ApiObjects Uids Paths.

Inductive Operation := Create | Update | Delete.
#[export] Instance Operation_eq_dec : EqDecision Operation.
Proof. solve_decision. Defined.

Record Identity := mkIdentity { id_Name : string; id_Groups : list string }.

(** What a request's context carries: [authn.FromContext]; the control plane's own loops
    carry no identity. *)
Abbreviation Ctx := (option Identity).

Inductive ExecField := ExecCommand | ExecArgs.

(** Errors: the [Forbidden] ones (403), then the plain validation errors (422). *)
Inductive AdmissionError :=
| FUidOutsideBlock (what : string) (id : Z) (namespace : string) (block : IDRange)
| FUidRangeAnnotation (e : IDRangeError)
| FNamespaceUidRange (namespace : string) (e : IDRangeError)
| FNoFreeBlock (namespace : string)
| FNoFreeID (namespace : string) (block : IDRange)
| FRunAsUserUnset
| FRunAs (e : RunAsError)
| FExecModifier (program : string)
| FExecControlChars (f : ExecField) (i : nat)
| FEnvControlChars (i : nat) (name : string)
| FEnvDuplicate (i : nat) (name : string)
| FDeletionTimestamp
| FReservedLabels (keys : list string)
| FCapacity (app node : string) (over : list string)
| FNamespaceNotEmpty (namespace : string)
| FPVInUse (pv : string) (users : list string)
| FPVExclusive (pv : string) (users : list string)
| FSecretInUse (secret : string) (users : list string)
| EList (kind : string) (e : error)
| EHostNetwork
| EJobField (path : string)
| ENegativeResources
| ERequestOverLimit (resource : string)
| ETooManyVolumes (n : nat)
| EVolume (i : nat) (why : string)
| EVolumePath (i : nat) (e : PathError)
| ETooManyEnv (n : nat)
| EEnv (i : nat) (why : string)
| EEnvName (i : nat) (e : EnvError)
| EEnvKey (i : nat) (e : PathError)
| ENamespaceMissing (namespace : string)
| ENodeMissing (node : string)
| EServiceMissing (service namespace : string)
| EServiceInUse (service app : string)
| ESecretMissing (secret namespace : string)
(** rbac_rules.go, rbac_escalation.go, secret_access.go, service_join.go *)
| ERule (i : nat) (why : string)
| FTooManyTuples (n : Z)
| FWildcardPath (verb url : string)
| FEscalatePath (verb url : string)
| FWildcard (group resource verb : string)
| FEscalate (verb group resource namespace : string)
| EAuthorize (e : error)
| FTooManySecrets (n : nat)
| FSecretAccess (secret namespace : string)
| FServiceJoin (service namespace : string)
(** node_restriction.go, csr_policy.go, secret_policy.go *)
| FNodeWrites (node kind : string)
| FNodeOther (node name : string)
| FNodeSpec (node : string)
| FNodeLabels (node : string)
| FCSRImmutable
| ECSR (why : string)
| ESecretData (why : string)
| ESecretKey (e : PathError)
| ESecretSize (n : Z)
| FSecretGate (ann : string)
(** service_policy.go, service_address.go, service_vip.go *)
| EServicePorts (i : nat) (why : string)
| FServiceNodeName (node : string)
| FClusterIP (ip why : string)
| FServiceRange (cidr : string) (e : error)
| FServiceRangeExhausted (cidr : string) (used : nat)
(** child_ownership.go, applicationset.go *)
| FOwnerReference (set : string)
| FReservedAnnotation (key : string)
| FReservedLabel (key : string)
| FChildSpec (app set : string)
| EAppSet (i : nat) (why : string)
| EExpand (e : error)
| EChild (child : string) (e : AdmissionError)
| OutOfFuel.

Section Chain.
Context {HQ : Quantity}.

Record Attributes := mkAttributes {
  at_Operation : Operation;
  at_Object : Object;
  at_OldObject : option Object;
  at_Subresource : string;
}.

Definition IsSubresource (a : Attributes) : bool := negb (bool_decide (at_Subresource a = "")).

Definition with_object (a : Attributes) (o : Object) : Attributes :=
  mkAttributes (at_Operation a) o (at_OldObject a) (at_Subresource a).

Record Plugin := mkPlugin {
  pl_Admit : Ctx → Attributes → result AdmissionError Attributes;
  pl_Validate : Ctx → Attributes → option AdmissionError;
}.

Fixpoint admit_all (c : list Plugin) (ctx : Ctx) (a : Attributes) : result AdmissionError Attributes :=
  match c with
  | [] => Ok a
  | p :: c' => let* a' := pl_Admit p ctx a in admit_all c' ctx a'
  end.

(** [Chain.Validate]. *)
Fixpoint chain_Validate (c : list Plugin) (ctx : Ctx) (a : Attributes) : option AdmissionError :=
  match c with
  | [] => None
  | p :: c' => match pl_Validate p ctx a with
               | Some e => Some e
               | None => chain_Validate c' ctx a
               end
  end.

(** [Chain.Run]: the reviewed request, or the first error. *)
Definition chain_Run (c : list Plugin) (ctx : Ctx) (a : Attributes) : result AdmissionError Attributes :=
  let* a' := admit_all c ctx a in
  match chain_Validate c ctx a' with
  | Some e => Err e
  | None => Ok a'
  end.

(** [Lister.List] by kind; nil disables the lister-backed checks. *)
Abbreviation Lister := (option (string → result error (list Object))).

Definition no_admit : Ctx → Attributes → result AdmissionError Attributes := λ _ a, Ok a.

(** ** uid_allocation.go *)

(** A [for i := i0; ; i++] loop whose body returns ([Some]) or continues ([None]). *)
Fixpoint walk {A} (fuel : nat) (body : Z → option A) (i : Z) : option A :=
  match fuel with
  | O => None
  | S fuel' => match body i with
               | Some r => Some r
               | None => walk fuel' body (i + 1)
               end
  end.

Definition list_kind (l : string → result error (list Object)) (kind : string)
    : result AdmissionError (list Object) :=
  match l kind with Ok os => Ok os | Err e => Err (EList kind e) end.

(** The [taken] set of assignBlock: the Min of every other namespace's block. *)
Definition taken_blocks (ns : Namespace) (others : list Object) : gset Z :=
  foldl (λ s o, match o with
    | ObjNamespace other =>
        if bool_decide (nsp_Name other = nsp_Name ns) then s
        else match ParseIDRange (default "" (om_Annotations (nsp_meta other) !! UIDRangeAnnotation)) with
             | Ok r => {[idr_Min r]} ∪ s
             | Err _ => s
             end
    | _ => s
    end) ∅ others.

Definition block_body (ns : string) (taken : gset Z) (i : Z) : option (result AdmissionError Z) :=
  let lo := wrap64 (WorkloadUIDBase + wrap64 (i * WorkloadUIDBlock)) in
  if (MaxRunAsID <? wrap64 (wrap64 (lo + WorkloadUIDBlock) - 1))%Z then Some (Err (FNoFreeBlock ns))
  else if bool_decide (lo ∈ taken) then None
  else Some (Ok lo).

(** [assignBlock]. *)
Definition assignBlock (l : string → result error (list Object)) (ns : Namespace)
    : result AdmissionError Namespace :=
  let cur := default "" (om_Annotations (nsp_meta ns) !! UIDRangeAnnotation) in
  if negb (bool_decide (cur = "")) then
    match ParseIDRange cur with
    | Err e => Err (FUidRangeAnnotation e)
    | Ok _ => Ok ns
    end
  else
    let* others := list_kind l "Namespace" in
    let taken := taken_blocks ns others in
    match walk (S (size taken)) (block_body (nsp_Name ns) taken) 0 with
    | None => Err OutOfFuel
    | Some (Err e) => Err e
    | Some (Ok lo) =>
        Ok (mkNamespace (set_annotations
          (<[UIDRangeAnnotation := idr_String (mkIDRange lo WorkloadUIDBlock)]> (om_Annotations (nsp_meta ns)))
          (nsp_meta ns)))
    end.

(** [blockOf]: the zero range where there is no block. *)
Fixpoint find_namespace (name : string) (os : list Object) : option Namespace :=
  match os with
  | [] => None
  | ObjNamespace ns :: os' => if bool_decide (nsp_Name ns = name) then Some ns else find_namespace name os'
  | _ :: os' => find_namespace name os'
  end.

Definition blockOf (l : string → result error (list Object)) (name : string)
    : result AdmissionError IDRange :=
  let* all := list_kind l "Namespace" in
  match find_namespace name all with
  | None => Ok (mkIDRange 0 0)
  | Some ns =>
      let raw := default "" (om_Annotations (nsp_meta ns) !! UIDRangeAnnotation) in
      if bool_decide (raw = "") then Ok (mkIDRange 0 0)
      else match ParseIDRange raw with
           | Err e => Err (FNamespaceUidRange name e)
           | Ok r => Ok r
           end
  end.

Definition run_as_user (a : Application) : option Z :=
  match sp_SecurityContext (app_Spec a) with Some sc => sc_RunAsUser sc | None => None end.

(** The [taken] set of assignWorkloadID: the ids of the namespace's other applications. *)
Definition taken_ids (app : Application) (apps : list Object) : gset Z :=
  foldl (λ s o, match o with
    | ObjApplication other =>
        if negb (bool_decide (app_Namespace other = app_Namespace app)) ||
           bool_decide (app_Name other = app_Name app) then s
        else match run_as_user other with
             | Some id => {[id]} ∪ s
             | None => s
             end
    | _ => s
    end) ∅ apps.

Definition id_body (ns : string) (block : IDRange) (taken : gset Z) (id : Z)
    : option (result AdmissionError Z) :=
  if (id <? wrap64 (idr_Min block + idr_Size block))%Z then
    if bool_decide (id ∈ taken) then None else Some (Ok id)
  else Some (Err (FNoFreeID ns block)).

(** [assignWorkloadID]. *)
Definition assignWorkloadID (l : string → result error (list Object)) (app : Application)
    : result AdmissionError Application :=
  let* block := blockOf l (app_Namespace app) in
  if idr_IsZero block then Ok app
  else
    let sc := default (mkSecurityContext None None) (sp_SecurityContext (app_Spec app)) in
    let sc := mkSecurityContext (sc_RunAsUser sc) (Some (default (idr_Min block) (sc_RunAsGroup sc))) in
    match sc_RunAsUser sc with
    | Some _ => Ok (with_spec (with_security_context sc) app)
    | None =>
        let* apps := list_kind l "Application" in
        let taken := taken_ids app apps in
        match walk (S (size taken)) (id_body (app_Namespace app) block taken) (idr_Min block) with
        | None => Err OutOfFuel
        | Some (Err e) => Err e
        | Some (Ok id) =>
            Ok (with_spec (with_security_context (mkSecurityContext (Some id) (sc_RunAsGroup sc))) app)
        end
    end.

Definition uidAllocation_Admit (lister : Lister) (ctx : Ctx) (a : Attributes)
    : result AdmissionError Attributes :=
  match lister with
  | None => Ok a
  | Some l =>
      if bool_decide (at_Operation a = Delete) || IsSubresource a then Ok a
      else match at_Object a with
           | ObjNamespace ns => let* ns' := assignBlock l ns in Ok (with_object a (ObjNamespace ns'))
           | ObjApplication app => let* app' := assignWorkloadID l app in Ok (with_object a (ObjApplication app'))
           | _ => Ok a
           end
  end.

Definition outside (block : IDRange) (ns what : string) (id : option Z) : option AdmissionError :=
  match id with
  | Some id => if Contains block id then None else Some (FUidOutsideBlock what id ns block)
  | None => None
  end.

Definition uidAllocation_Validate (lister : Lister) (ctx : Ctx) (a : Attributes) : option AdmissionError :=
  match lister with
  | None => None
  | Some l =>
      if bool_decide (at_Operation a = Delete) || IsSubresource a then None
      else match at_Object a with
           | ObjApplication app =>
               match blockOf l (app_Namespace app) with
               | Err e => Some e
               | Ok block =>
                   if idr_IsZero block then None
                   else match sp_SecurityContext (app_Spec app) with
                        | None => None
                        | Some sc =>
                            match outside block (app_Namespace app) "spec.securityContext.runAsUser" (sc_RunAsUser sc) with
                            | Some e => Some e
                            | None => outside block (app_Namespace app) "spec.securityContext.runAsGroup" (sc_RunAsGroup sc)
                            end
                        end
               end
           | _ => None
           end
  end.

Definition uidAllocation (lister : Lister) : Plugin :=
  mkPlugin (uidAllocation_Admit lister) (uidAllocation_Validate lister).

(** ** policy.go *)
Definition restrictedFloorUID : Z := DefaultRunAsID.

Definition policyEnforcement_Admit (ctx : Ctx) (a : Attributes) : result AdmissionError Attributes :=
  if bool_decide (at_Operation a = Delete) then Ok a
  else match at_Object a with
       | ObjApplication app =>
           let sc := default (mkSecurityContext None None) (sp_SecurityContext (app_Spec app)) in
           let sc := mkSecurityContext (Some (default restrictedFloorUID (sc_RunAsUser sc)))
                       (Some (default restrictedFloorUID (sc_RunAsGroup sc))) in
           Ok (with_object a (ObjApplication (with_spec (with_security_context sc) app)))
       | _ => Ok a
       end.

(** The systemd ExecStart modifiers @ - : + ! *)
Definition execModifiers : list ascii := ["@"; "-"; ":"; "+"; "!"]%char.

Definition starts_with_modifier (program : string) : bool :=
  match program with String c _ => bool_decide (c ∈ execModifiers) | EmptyString => false end.

(** The first element, from index [i], that carries a control character. *)
Fixpoint control_at (i : nat) (l : list string) : option nat :=
  match l with
  | [] => None
  | v :: l' => if ContainsAny v control_chars then Some i else control_at (S i) l'
  end.

Fixpoint exec_env (i : nat) (seen : gset string) (l : list EnvVar) : option AdmissionError :=
  match l with
  | [] => None
  | e :: l' =>
      if ContainsAny (ev_Name e) control_chars || ContainsAny (ev_Value e) control_chars
      then Some (FEnvControlChars i (ev_Name e))
      else if bool_decide (ev_Name e ∈ seen) then Some (FEnvDuplicate i (ev_Name e))
      else exec_env (S i) ({[ev_Name e]} ∪ seen) l'
  end.

(** [validateExecInputs]. *)
Definition validateExecInputs (spec : ApplicationSpec) : option AdmissionError :=
  check* match sp_Command spec with
         | program :: _ => if starts_with_modifier program then Some (FExecModifier program) else None
         | [] => None
         end in
  check* (FExecControlChars ExecCommand <$> control_at 0 (sp_Command spec)) in
  check* (FExecControlChars ExecArgs <$> control_at 0 (sp_Args spec)) in
  exec_env 0 ∅ (sp_Env spec).

Definition policyEnforcement_Validate (ctx : Ctx) (a : Attributes) : option AdmissionError :=
  if bool_decide (at_Operation a = Delete) then None
  else match at_Object a with
       | ObjApplication app =>
           match sp_SecurityContext (app_Spec app) with
           | None => Some FRunAsUserUnset
           | Some sc =>
               match sc_RunAsUser sc with
               | None => Some FRunAsUserUnset
               | Some uid =>
                   check* (FRunAs <$> ValidRunAsID "spec.securityContext.runAsUser" uid) in
                   check* match sc_RunAsGroup sc with
                          | Some gid => FRunAs <$> ValidRunAsID "spec.securityContext.runAsGroup" gid
                          | None => None
                          end in
                   validateExecInputs (app_Spec app)
               end
           end
       | _ => None
       end.

Definition policyEnforcement : Plugin :=
  mkPlugin policyEnforcement_Admit policyEnforcement_Validate.

(** ** app_policy.go *)
Definition maxVolumesPerApp : nat := 64.
Definition maxEnvPerApp : nat := 256.

Definition jobFieldsAreForJobs (lc : Lifecycle) : option AdmissionError :=
  if RunToCompletion lc then None
  else if bool_decide (is_Some (lc_ActiveDeadlineSeconds lc)) then Some (EJobField "activeDeadlineSeconds")
  else if bool_decide (is_Some (lc_BackoffLimit lc)) then Some (EJobField "backoffLimit")
  else None.

(** One entry of spec.volumes. *)
Fixpoint item_paths (i : nat) (items : list KeyToPath) : option AdmissionError :=
  match items with
  | [] => None
  | it :: items' => check* (EVolumePath i <$> ValidRelPath (ktp_Path it)) in item_paths i items'
  end.

Definition volume_source_ok (i : nat) (v : VolumeSource) : option AdmissionError :=
  if bool_decide (vs_Type v = VolumeTypePV) || bool_decide (vs_Type v = VolumeTypeTmpfs) then None
  else if bool_decide (vs_Type v = VolumeTypeToken) then
    if negb (bool_decide (vs_Name v = "")) then Some (EVolume i "a token volume names no object")
    else if negb (length (vs_Items v) =? 0)%nat then Some (EVolume i "a token volume has no keys to select")
    else if negb (q_IsZero (vs_Size v)) then Some (EVolume i "a token volume must not set size")
    else if negb (bool_decide (vs_Audience v = "")) &&
            negb (bool_decide (ValidBaseName (vs_Audience v) "volume.audience" = None))
    then Some (EVolume i "not a usable audience")
    else None
  else if bool_decide (vs_Type v = VolumeTypeSecret) then
    if bool_decide (vs_Name v = "") then Some (EVolume i "a secret volume requires volume.name")
    else if negb (q_IsZero (vs_Size v)) then Some (EVolume i "a secret volume must not set size")
    else item_paths i (vs_Items v)
  else Some (EVolume i "unknown volume type").

Fixpoint volumes_ok (i : nat) (vs : list VolumeMount) : option AdmissionError :=
  match vs with
  | [] => None
  | v :: vs' =>
      check* volume_source_ok i (vm_Volume v) in
      check* (EVolumePath i <$> ValidMountPath (vm_MountPath v)) in
      volumes_ok (S i) vs'
  end.

(** One entry of spec.env: the error, or whether it claims its name. *)
Definition env_entry (i : nat) (v : EnvVar) : result AdmissionError bool :=
  match ev_SecretRef v with
  | None =>
      match ValidEnvName (ev_Name v) "name" with
      | Some e => Err (EEnvName i e)
      | None => match ValidEnvValue (ev_Name v) (ev_Value v) with
                | Some e => Err (EEnvName i e)
                | None => Ok true
                end
      end
  | Some ref =>
      if negb (bool_decide (ev_Value v = "")) then Err (EEnv i "set either value or secretRef, not both")
      else if bool_decide (esr_Name ref = "") then Err (EEnv i "secretRef requires name")
      else if bool_decide (esr_Key ref = "") then Err (EEnv i "secretRef requires key")
      else match ValidEnvPrefix (esr_Prefix ref) with
      | Some e => Err (EEnvName i e)
      | None =>
          if IsWildcard ref then
            if negb (bool_decide (ev_Name v = "")) then Err (EEnv i "a wildcard secretRef must not set name")
            else Ok false
          else match ValidEnvName (ev_Name v) "name" with
          | Some e => Err (EEnvName i e)
          | None =>
              match ValidBaseName (esr_Key ref) "secretRef.key" with
              | Some e => Err (EEnvKey i e)
              | None => if negb (bool_decide (esr_Prefix ref = ""))
                        then Err (EEnv i "secretRef.prefix applies only to a wildcard key")
                        else Ok true
              end
          end
      end
  end.

Fixpoint env_loop (i : nat) (claimed : gset string) (env : list EnvVar) : option AdmissionError :=
  match env with
  | [] => None
  | v :: env' =>
      match env_entry i v with
      | Err e => Some e
      | Ok false => env_loop (S i) claimed env'
      | Ok true => if bool_decide (ev_Name v ∈ claimed) then Some (EEnv i "declared twice")
                   else env_loop (S i) ({[ev_Name v]} ∪ claimed) env'
      end
  end.

(** [validateEnv]. *)
Definition validateEnv (env : list EnvVar) : option AdmissionError :=
  if (maxEnvPerApp <? length env)%nat then Some (ETooManyEnv (length env)) else env_loop 0 ∅ env.

Definition appPolicy_Validate (routedNetwork : bool) (ctx : Ctx) (a : Attributes) : option AdmissionError :=
  if bool_decide (at_Operation a = Delete) || IsSubresource a then None
  else match at_Object a with
       | ObjApplication app =>
           let spec := app_Spec app in
           let r := sp_Resources spec in
           if bool_decide (sp_HostNetwork spec = Some false) && negb routedNetwork then Some EHostNetwork
           else check* jobFieldsAreForJobs (sp_Lifecycle spec) in
           if (q_Sign (ra_CPU (rr_Requests r)) <? 0)%Z || (q_Sign (ra_Memory (rr_Requests r)) <? 0)%Z ||
              (q_Sign (ra_CPU (rr_Limits r)) <? 0)%Z || (q_Sign (ra_Memory (rr_Limits r)) <? 0)%Z
           then Some ENegativeResources
           else if negb (q_IsZero (ra_CPU (rr_Limits r))) &&
                   (0 <? q_Cmp (ra_CPU (rr_Requests r)) (ra_CPU (rr_Limits r)))%Z
           then Some (ERequestOverLimit "cpu")
           else if negb (q_IsZero (ra_Memory (rr_Limits r))) &&
                   (0 <? q_Cmp (ra_Memory (rr_Requests r)) (ra_Memory (rr_Limits r)))%Z
           then Some (ERequestOverLimit "memory")
           else if (maxVolumesPerApp <? length (sp_Volumes spec))%nat
           then Some (ETooManyVolumes (length (sp_Volumes spec)))
           else check* volumes_ok 0 (sp_Volumes spec) in
           validateEnv (sp_Env spec)
       | _ => None
       end.

Definition appPolicy (routedNetwork : bool) : Plugin := mkPlugin no_admit (appPolicy_Validate routedNetwork).

(** ** finalizers.go *)
Definition aset_Deleting (s : ApplicationSet) : bool :=
  match om_DeletionTimestamp (aset_meta s) with Some _ => true | None => false end.

Definition holdSetCascade (o : Object) : Object :=
  match o with
  | ObjApplicationSet set =>
      if aset_Deleting set then o
      else if bool_decide (FinalizerChildTeardown ∈ om_Finalizers (aset_meta set)) then o
      else map_meta (λ m, set_finalizers (om_Finalizers m ++ [FinalizerChildTeardown]) m) o
  | _ => o
  end.

Definition holdPlacedWorkload (o : Object) : Object :=
  match o with
  | ObjApplication app =>
      if Deleting app then o
      else
        let held := bool_decide (FinalizerNodeTeardown ∈ om_Finalizers (app_meta app)) in
        let placed := negb (bool_decide (app_NodeName app = "")) in
        if placed && negb held
        then map_meta (λ m, set_finalizers (om_Finalizers m ++ [FinalizerNodeTeardown]) m) o
        else if negb placed && held
        then map_meta (λ m, set_finalizers
               (List.filter (λ f, negb (bool_decide (f = FinalizerNodeTeardown))) (om_Finalizers m)) m) o
        else o
  | _ => o
  end.

Definition stored_finalizers (old : option Object) : list string :=
  match old with Some o => om_Finalizers (obj_meta o) | None => [] end.

Definition finalizerOwnership_Admit (ctx : Ctx) (a : Attributes) : result AdmissionError Attributes :=
  if bool_decide (at_Operation a = Delete) || IsSubresource a then Ok a
  else
    let o := match ctx with
             | Some _ =>
                 let stored := stored_finalizers (at_OldObject a) in
                 if bool_decide (om_Finalizers (obj_meta (at_Object a)) = stored) then at_Object a
                 else map_meta (set_finalizers stored) (at_Object a)
             | None => at_Object a
             end in
    Ok (with_object a (holdSetCascade (holdPlacedWorkload o))).

Definition finalizerOwnership_Validate (ctx : Ctx) (a : Attributes) : option AdmissionError :=
  if bool_decide (at_Operation a = Delete) || IsSubresource a then None
  else match ctx with
       | None => None
       | Some _ =>
           match om_DeletionTimestamp (obj_meta (at_Object a)) with
           | None => None
           | Some _ =>
               let stored := match at_OldObject a with
                             | Some old => bool_decide (is_Some (om_DeletionTimestamp (obj_meta old)))
                             | None => false
                             end in
               if stored then None else Some FDeletionTimestamp
           end
       end.

Definition finalizerOwnership : Plugin :=
  mkPlugin finalizerOwnership_Admit finalizerOwnership_Validate.

(** ** node_policy.go *)
Definition reserved_labels (n : Node) : list string :=
  sort_stable String.ltb
    (List.filter (GoStrings.has_prefix LabelDomain) (map_to_list (node_Labels n)).*1).

Definition nodePolicy_Validate (ctx : Ctx) (a : Attributes) : option AdmissionError :=
  if bool_decide (at_Operation a = Delete) || IsSubresource a then None
  else match at_Object a with
       | ObjNode n => match reserved_labels n with
                      | [] => None
                      | keys => Some (FReservedLabels keys)
                      end
       | _ => None
       end.

Definition nodePolicy : Plugin := mkPlugin no_admit nodePolicy_Validate.

(** ** capacity_check.go *)
Definition same_app (a b : Application) : bool :=
  bool_decide (app_Namespace a = app_Namespace b) && bool_decide (app_Name a = app_Name b).

(** Whether a stored application competes with [app] for its node. *)
Definition competes (app other : Application) : bool :=
  negb (same_app other app) && bool_decide (app_NodeName other = app_NodeName app) &&
  negb (Finished other).

Definition totalRequestsOnNode (l : string → result error (list Object)) (app : Application)
    : result AdmissionError ResourceAmounts :=
  let* list := list_kind l "Application" in
  Ok (foldl (λ total o, match o with
        | ObjApplication other => if competes app other then ra_Add total (app_requests other) else total
        | _ => total
        end) (app_requests app) list).

Fixpoint find_node (name : string) (os : list Object) : option Node :=
  match os with
  | [] => None
  | ObjNode n :: os' => if bool_decide (node_Name n = name) then Some n else find_node name os'
  | _ :: os' => find_node name os'
  end.

Definition nodeCapacity (l : string → result error (list Object)) (name : string)
    : result AdmissionError ResourceAmounts :=
  let* list := list_kind l "Node" in
  Ok match find_node name list with
     | Some n => ns_Capacity (node_Status n)
     | None => ra_zero
     end.

Definition capacityCheck_Validate (lister : Lister) (ctx : Ctx) (a : Attributes) : option AdmissionError :=
  match lister with
  | None => None
  | Some l =>
      if bool_decide (at_Operation a = Delete) || IsSubresource a then None
      else match at_Object a with
           | ObjApplication app =>
               if ra_IsZero (app_requests app) then None
               else if bool_decide (app_NodeName app = "") then None
               else match totalRequestsOnNode l app with
               | Err e => Some e
               | Ok total =>
                   match nodeCapacity l (app_NodeName app) with
                   | Err e => Some e
                   | Ok capacity =>
                       match ra_Exceeds total capacity true with
                       | [] => None
                       | over => Some (FCapacity (app_Name app) (app_NodeName app) over)
                       end
                   end
               end
           | _ => None
           end
  end.

Definition capacityCheck (lister : Lister) : Plugin := mkPlugin no_admit (capacityCheck_Validate lister).
End Chain.
Abbreviation Lister := (option (string → result error (list Object))).
