(* ===== verification/AdmissionFacts.v ===== *)
(** * Facts about the admission plugins

    The chain's contract, the allocator's loops and sets, and what each plugin keeps of the
    object it reviews. *)
From stdpp Require Import gmap strings list.
From Stdlib Require Import ZArith Ascii.
From S2P Require Import Prelude Resources CoreV1 ApiObjects Uids Paths Admission.

Section ChainFacts.
Context {HQ : Quantity}.
Implicit Types (a : Attributes) (p : Plugin).

Lemma chain_Validate_None c ctx a :
  chain_Validate c ctx a = None ↔ ∀ p, p ∈ c → pl_Validate p ctx a = None.
Proof.
  induction c as [|p c IH]; simpl.
  - split; [|done]. by intros _ p ?%elem_of_nil.
  - destruct (pl_Validate p ctx a) eqn:E.
    + split; [done|]. intros H. rewrite (H p) in E; [done|left].
    + rewrite IH. split; [|intros H q Hq; apply H; by right].
      intros H q [->|Hq]%elem_of_cons; auto.
Qed.

Lemma chain_Run_Ok c ctx a a' :
  chain_Run c ctx a = Ok a' ↔
  admit_all c ctx a = Ok a' ∧ ∀ p, p ∈ c → pl_Validate p ctx a' = None.
Proof.
  unfold chain_Run. rewrite <-chain_Validate_None.
  destruct (admit_all c ctx a) as [a1|]; [|naive_solver].
  destruct (chain_Validate c ctx a1) eqn:E; split; [done| |intros; by simplify_eq|].
  - intros [? ?]. by simplify_eq.
  - intros [? ?]. by simplify_eq.
Qed.

(** ** The allocator's loops *)
Lemma walk_Some {A} fuel (body : Z → option A) i r :
  walk fuel body i = Some r →
  ∃ j, (i ≤ j)%Z ∧ body j = Some r ∧ ∀ k, (i ≤ k < j)%Z → body k = None.
Proof.
  revert i. induction fuel as [|fuel IH]; intros i; simpl; [done|].
  destruct (body i) eqn:E.
  - intros; simplify_eq. exists i. split_and!; [lia|done|lia].
  - intros (j & Hle & Hj & Hk)%IH. exists j. split_and!; [lia|done|].
    intros k Hk'. destruct (decide (k = i)) as [->|]; [done|]. apply Hk. lia.
Qed.

Lemma walk_None {A} fuel (body : Z → option A) i :
  walk fuel body i = None → ∀ k, (i ≤ k < i + Z.of_nat fuel)%Z → body k = None.
Proof.
  revert i. induction fuel as [|fuel IH]; intros i; simpl; [lia|].
  destruct (body i) eqn:E; [done|]. intros Hw k Hk.
  destruct (decide (k = i)) as [->|]; [done|]. apply (IH (i + 1)%Z Hw). lia.
Qed.

(** A loop that only continues on members of a finite set ends within its size. *)
Lemma walk_finds {A} `{Countable K} fuel (body : Z → option A) i (taken : gset K) (f : Z → K) :
  (∀ k, body k = None → f k ∈ taken) →
  (∀ j k, (i ≤ j < i + Z.of_nat fuel)%Z → (i ≤ k < i + Z.of_nat fuel)%Z → f j = f k → j = k) →
  (size taken < fuel)%nat →
  is_Some (walk fuel body i).
Proof.
  intros Hb Hinj Hsz. destruct (walk fuel body i) eqn:E; [done|]. exfalso.
  pose proof (walk_None _ _ _ E) as Hall.
  set (l := (λ n, f (i + Z.of_nat n)%Z) <$> seq 0 fuel).
  assert (NoDup l) as Hnd.
  { apply NoDup_fmap_2_strong; [|apply NoDup_seq]. intros x y Hx Hy Hxy.
    apply elem_of_seq in Hx, Hy. apply Hinj in Hxy; lia. }
  assert ((list_to_set l : gset K) ⊆ taken) as Hsub.
  { intros x. rewrite elem_of_list_to_set. unfold l. intros (n & -> & Hn)%list_elem_of_fmap.
    apply elem_of_seq in Hn. apply Hb, Hall. lia. }
  apply subseteq_size in Hsub. rewrite size_list_to_set in Hsub by done.
  unfold l in Hsub. rewrite length_fmap, length_seq in Hsub. lia.
Qed.

(** ** The sets it avoids *)
Lemma foldl_insert {B} (f : B → option Z) (l : list B) (s : gset Z) x :
  x ∈ foldl (λ s o, match f o with Some y => {[y]} ∪ s | None => s end) s l ↔
  x ∈ s ∨ ∃ o, o ∈ l ∧ f o = Some x.
Proof.
  revert s. induction l as [|o l IH]; intros s; simpl.
  - split; [by left|]. intros [?|(o & ?%elem_of_nil & _)]; done.
  - rewrite IH. destruct (f o) as [y|] eqn:E.
    + rewrite elem_of_union, elem_of_singleton. split.
      * intros [[->|?]|(o' & ? & ?)]; [right; exists o; split; [left|done]|by left|].
        right. exists o'. split; [by right|done].
      * intros [?|(o' & [->|?]%elem_of_cons & ?)]; [by left; right| |by right; eauto].
        left. left. congruence.
    + split.
      * intros [?|(o' & ? & ?)]; [by left|right; exists o'; split; [by right|done]].
      * intros [?|(o' & [->|?]%elem_of_cons & ?)]; [by left|congruence|by right; eauto].
Qed.

(** The block annotation of a namespace, as the allocator reads it. *)
Definition block_of_ns (n : Namespace) : result IDRangeError IDRange :=
  ParseIDRange (default "" (om_Annotations (nsp_meta n) !! UIDRangeAnnotation)).

Lemma taken_blocks_elem ns os x :
  x ∈ taken_blocks ns os ↔
  ∃ other r, ObjNamespace other ∈ os ∧ nsp_Name other ≠ nsp_Name ns ∧
    block_of_ns other = Ok r ∧ idr_Min r = x.
Proof.
  unfold taken_blocks.
  rewrite (foldl_ext_fun _ (λ s o, match (match o with
    | ObjNamespace other => if bool_decide (nsp_Name other = nsp_Name ns) then None
        else match block_of_ns other with Ok r => Some (idr_Min r) | Err _ => None end
    | _ => None end) with Some y => {[y]} ∪ s | None => s end)).
  2:{ intros s [] ; try done. case_bool_decide; [done|]. unfold block_of_ns. by destruct (ParseIDRange _). }
  rewrite foldl_insert. split.
  - intros [?%elem_of_empty|([] & Hin & E)]; try done.
    case_bool_decide; [done|]. destruct (block_of_ns n) eqn:Er; simplify_eq. eauto 10.
  - intros (other & r & Hin & Hne & Hr & <-). right. exists (ObjNamespace other).
    split; [done|]. by rewrite bool_decide_eq_false_2, Hr.
Qed.

Lemma taken_ids_elem app os x :
  x ∈ taken_ids app os ↔
  ∃ other, ObjApplication other ∈ os ∧ app_Namespace other = app_Namespace app ∧
    app_Name other ≠ app_Name app ∧ run_as_user other = Some x.
Proof.
  unfold taken_ids.
  rewrite (foldl_ext_fun _ (λ s o, match (match o with
    | ObjApplication other =>
        if negb (bool_decide (app_Namespace other = app_Namespace app)) ||
           bool_decide (app_Name other = app_Name app) then None else run_as_user other
    | _ => None end) with Some y => {[y]} ∪ s | None => s end)).
  2:{ intros s [] ; try done. by destruct (_ || _). }
  rewrite foldl_insert. split.
  - intros [?%elem_of_empty|([] & Hin & E)]; try done.
    destruct (_ || _) eqn:Eb; [done|]. bools. naive_solver.
  - intros (other & Hin & Hns & Hne & Hr). right. exists (ObjApplication other).
    split; [done|]. by rewrite bool_decide_eq_true_2, bool_decide_eq_false_2.
Qed.
End ChainFacts.
