(* ===== verification/Allocation.v ===== *)
(** * The uid allocator (controller/admission/uid_allocation.go)

    What one review assigns: the block a namespace gets and the id an application gets, and
    that both searches end. *)
From stdpp Require Import gmap strings list.
From Stdlib Require Import ZArith Ascii.
From S2P Require Import Prelude Resources CoreV1 ApiObjects Uids Paths Admission AdmissionFacts.
#[local] Open Scope Z_scope.

Section Allocation.
Context {HQ : Quantity}.
Implicit Types (ns : Namespace) (app : Application) (os : list Object).

(** The [i]-th block of the walk. *)
Definition nth_block (i : Z) : IDRange :=
  mkIDRange (WorkloadUIDBase + i * WorkloadUIDBlock) WorkloadUIDBlock.

(** More steps than the id space has blocks. *)
Definition block_bound : Z := 60000.

Lemma block_body_small name taken i :
  0 ≤ i ≤ block_bound →
  block_body name taken i =
  if MaxRunAsID <? idr_Min (nth_block i) + WorkloadUIDBlock - 1 then Some (Err (FNoFreeBlock name))
  else if bool_decide (idr_Min (nth_block i) ∈ taken) then None
  else Some (Ok (idr_Min (nth_block i))).
Proof.
  unfold block_bound, block_body, nth_block, WorkloadUIDBase, WorkloadUIDBlock. simpl. intros Hi.
  rewrite (wrap64_id (i * 65536)) by int64. rewrite (wrap64_id (1000000000 + i * 65536)) by int64.
  rewrite (wrap64_id (_ + 65536)) by int64. by rewrite wrap64_id by int64.
Qed.

Lemma block_body_bound name taken : block_body name taken block_bound = Some (Err (FNoFreeBlock name)).
Proof. rewrite block_body_small by done. done. Qed.

Lemma block_walk_index name taken fuel r :
  walk fuel (block_body name taken) 0 = Some r →
  ∃ j, 0 ≤ j ≤ block_bound ∧ block_body name taken j = Some r.
Proof.
  intros (j & Hj & Hb & Hk)%walk_Some. exists j. split; [|done]. split; [done|].
  destruct (decide (j ≤ block_bound)); [done|].
  specialize (Hk block_bound ltac:(unfold block_bound in *; lia)). by rewrite block_body_bound in Hk.
Qed.

Lemma block_walk_total name taken : is_Some (walk (S (size taken)) (block_body name taken) 0).
Proof.
  destruct (decide (Z.of_nat (S (size taken)) ≤ block_bound)) as [Hle|Hgt].
  - apply (walk_finds _ _ _ taken (λ k, wrap64 (WorkloadUIDBase + wrap64 (k * WorkloadUIDBlock)))); [| |lia].
    + intros k. unfold block_body. destruct (_ <? _); [done|]. by case_bool_decide.
    + unfold block_bound, WorkloadUIDBase, WorkloadUIDBlock in *. intros j k Hj Hk.
      rewrite (wrap64_id (j * _)), (wrap64_id (k * _)) by int64. rewrite !wrap64_id by int64. lia.
  - destruct (walk _ _ _) eqn:E; [done|].
    pose proof (walk_None _ _ _ E block_bound) as H. rewrite block_body_bound in H.
    discriminate H. unfold block_bound in *. lia.
Qed.

(** A namespace without an annotation gets a free block of the walk, rendered so that it
    parses back. *)
Lemma assignBlock_fresh l ns ns' :
  default "" (om_Annotations (nsp_meta ns) !! UIDRangeAnnotation) = "" →
  assignBlock l ns = Ok ns' →
  ∃ os i, l "Namespace" = Ok os ∧ 0 ≤ i ∧ idr_Min (nth_block i) + WorkloadUIDBlock - 1 ≤ MaxRunAsID ∧
    nsp_Name ns' = nsp_Name ns ∧ block_of_ns ns' = Ok (nth_block i) ∧
    ∀ other r, ObjNamespace other ∈ os → nsp_Name other ≠ nsp_Name ns →
      block_of_ns other = Ok r → idr_Min r ≠ idr_Min (nth_block i).
Proof.
  intros Hcur. unfold assignBlock. rewrite Hcur, bool_decide_eq_true_2 by done.
  cbn [negb]. unfold list_kind. destruct (l "Namespace") as [os|]; [|done].
  cbv zeta.
  destruct (walk _ _ _) as [[lo|e]|] eqn:Ew; [intros; simplify_eq|intros; discriminate..].
  apply block_walk_index in Ew as (i & Hi & Hb). rewrite block_body_small in Hb by done.
  destruct (Z.ltb_spec MaxRunAsID (idr_Min (nth_block i) + WorkloadUIDBlock - 1)) as [|Hmax]; [done|].
  case_bool_decide as Ht; simplify_eq. exists os, i. split_and!; [done|lia|done|done| |].
  - unfold block_of_ns. simpl. rewrite lookup_insert_eq. simpl.
    apply (ParseIDRange_String_inside (nth_block i)); [|done..].
    unfold nth_block, WorkloadUIDBase, WorkloadUIDBlock. simpl. lia.
  - intros other r Hin Hne Hr E. apply Ht. apply taken_blocks_elem. eauto 10.
Qed.

(** ** Workload ids *)
Lemma id_walk_total name block taken :
  is_Some (walk (S (size taken)) (id_body name block taken) (idr_Min block)).
Proof.
  apply (walk_finds _ _ _ taken (λ k, k)); [|done|lia].
  intros k. unfold id_body. destruct (_ <? _); [|done]. by case_bool_decide.
Qed.

Lemma blockOf_block l name r :
  blockOf l name = Ok r → idr_IsZero r = false → ∃ raw, ParseIDRange raw = Ok r.
Proof.
  unfold blockOf. destruct (list_kind l "Namespace") as [os|]; [|done].
  destruct (find_namespace name os); [|by intros [= <-]]. case_bool_decide; [by intros [= <-]|].
  destruct (ParseIDRange _) eqn:E; [|done]. intros [= <-]. eauto.
Qed.

(** ** Properties *)

(** The allocator always returns: its two walks end within the number of ids already
    taken, so a review is never stuck looking for a block or an id. *)
Theorem uidAllocation_total lister ctx a : uidAllocation_Admit lister ctx a ≠ Err OutOfFuel.
Proof.
  unfold uidAllocation_Admit. destruct lister as [l|]; [|done].
  destruct (_ || _); [done|]. destruct (at_Object a) as [ns| |app| | | | | | | | |]; try done.
  - unfold assignBlock. destruct (negb _); [by destruct (ParseIDRange _)|].
    unfold list_kind. destruct (l "Namespace") as [os|]; [|done]. cbv zeta.
    destruct (block_walk_total (nsp_Name ns) (taken_blocks ns os)) as [[lo|e] Hw]; rewrite Hw; [done|].
    apply block_walk_index in Hw as (i & Hi & Hb). rewrite block_body_small in Hb by done.
    destruct (_ <? _); [by simplify_eq|]. by case_bool_decide.
  - unfold assignWorkloadID. destruct (blockOf l (app_Namespace app)) as [block|e] eqn:Eb.
    2:{ unfold blockOf, list_kind in Eb. destruct (l "Namespace"); [|by simplify_eq].
        destruct (find_namespace _ _); [|done]. case_bool_decide; [done|].
        destruct (ParseIDRange _); by simplify_eq. }
    destruct (idr_IsZero block); [done|]. cbv zeta. destruct (sc_RunAsUser _); [done|].
    unfold list_kind. destruct (l "Application") as [os|]; [|done].
    destruct (id_walk_total (app_Namespace app) block (taken_ids app os)) as [[id|e] Hw]; rewrite Hw; [done|].
    apply walk_Some in Hw as (j & _ & Hj & _). unfold id_body in Hj.
    destruct (_ <? _); [by case_bool_decide|by simplify_eq].
Qed.

(** An application whose manifest names no uid gets the lowest id of its namespace's
    block that no other application of the namespace holds, and the namespace's first id
    as its group unless it names one; nothing else of the object changes. *)
Theorem assignWorkloadID_spec l app app' block :
  assignWorkloadID l app = Ok app' → blockOf l (app_Namespace app) = Ok block →
  idr_IsZero block = false → run_as_user app = None →
  ∃ os id gid, l "Application" = Ok os ∧
    app' = with_spec (with_security_context (mkSecurityContext (Some id) (Some gid))) app ∧
    gid = default (idr_Min block) (sp_SecurityContext (app_Spec app) ≫= sc_RunAsGroup) ∧
    Contains block id = true ∧
    (∀ other, ObjApplication other ∈ os → app_Namespace other = app_Namespace app →
       app_Name other ≠ app_Name app → run_as_user other ≠ Some id) ∧
    (∀ k, idr_Min block ≤ k < id → ∃ other, ObjApplication other ∈ os ∧
       app_Namespace other = app_Namespace app ∧ run_as_user other = Some k).
Proof.
  intros Has Hb Hz Hu. unfold assignWorkloadID in Has. rewrite Hb, Hz in Has. cbv zeta in Has.
  assert (sc_RunAsUser (default (mkSecurityContext None None) (sp_SecurityContext (app_Spec app))) = None) as Hn.
  { unfold run_as_user in Hu. by destruct (sp_SecurityContext (app_Spec app)). }
  cbn [sc_RunAsUser sc_RunAsGroup] in Has. rewrite Hn in Has.
  unfold list_kind in Has. destruct (l "Application") as [os|]; [|done].
  destruct (walk _ _ _) as [[id|]|] eqn:Ew; [|done..]. simplify_eq.
  apply walk_Some in Ew as (j & Hj & Hbody & Hlow). unfold id_body in Hbody.
  destruct (Z.ltb_spec j (wrap64 (idr_Min block + idr_Size block))) as [Hlt|]; [|done].
  case_bool_decide as Ht; simplify_eq. eexists os, id, _. split_and!; [done|done| | | |].
  - by destruct (sp_SecurityContext (app_Spec app)).
  - unfold Contains. rewrite (proj2 (Z.leb_le _ _)) by done. by apply Z.ltb_lt.
  - intros other Hin Hns Hne Hr. apply Ht, taken_ids_elem. eauto.
  - intros k Hk. specialize (Hlow k Hk). unfold id_body in Hlow.
    destruct (_ <? _); [|done]. case_bool_decide as Hin; [|done].
    apply taken_ids_elem in Hin as (other & ? & ? & _ & ?). eauto.
Qed.
End Allocation.
