(* ===== verification/References.v ===== *)
(** * Reference rules (controller/admission/reference_check.go) and the core chain

    The table of cross-object rules, and the store the reviewed writes go to.
    A [Lister] call scoped to a namespace lists the kind and keeps that namespace, as the
    rules themselves do again on the result. *)
From stdpp Require Import gmap strings list.
From Stdlib Require Import ZArith Ascii.
From S2P Require Import Prelude Resources CoreV1 ApiObjects Uids Paths Admission.

Section References.
Context {HQ : Quantity}.
Abbreviation L := (string → result error (list Object)).

Record referenceRule := mkRule {
  rule_name : string;
  rule_guards : Operation → bool;
  rule_check : Attributes → L → option AdmissionError;
}.

Definition notDelete (op : Operation) : bool := negb (bool_decide (op = Delete)).
Definition onlyDelete (op : Operation) : bool := bool_decide (op = Delete).

(** A list, and what to do with it. *)
Definition on_list (l : L) (kind : string) (k : list Object → option AdmissionError)
    : option AdmissionError :=
  match l kind with
  | Err e => Some (EList kind e)
  | Ok os => k os
  end.

Definition checkNamespaceExists (a : Attributes) (l : L) : option AdmissionError :=
  let ns := obj_Namespace (at_Object a) in
  if bool_decide (ns = "") then None
  else on_list l "Namespace" (λ os,
    match find_namespace ns os with
    | Some _ => None
    | None => Some (ENamespaceMissing ns)
    end).

Definition namespacedKinds : list string :=
  ["Application"; "ApplicationSet"; "PersistentVolume"; "Secret"; "Service"; "Role"; "RoleBinding"].

(** [objectNames] is non-empty exactly when some listed object lives in the namespace. *)
Definition in_namespace (namespace : string) (os : list Object) : bool :=
  existsb (λ o, bool_decide (obj_Namespace o = namespace)) os.

(** The loop over the kinds: every list is read before the verdict. *)
Fixpoint remaining (l : L) (namespace : string) (kinds : list string) : result AdmissionError bool :=
  match kinds with
  | [] => Ok false
  | kind :: kinds' =>
      match l kind with
      | Err e => Err (EList kind e)
      | Ok os => let* rest := remaining l namespace kinds' in Ok (in_namespace namespace os || rest)
      end
  end.

Definition checkNamespaceEmpty (a : Attributes) (l : L) : option AdmissionError :=
  match at_Object a with
  | ObjNamespace ns =>
      match remaining l (nsp_Name ns) namespacedKinds with
      | Err e => Some e
      | Ok true => Some (FNamespaceNotEmpty (nsp_Name ns))
      | Ok false => None
      end
  | _ => None
  end.

Definition checkNodeExists (a : Attributes) (l : L) : option AdmissionError :=
  match at_Object a with
  | ObjApplication app =>
      if bool_decide (app_NodeName app = "") then None
      else on_list l "Node" (λ os,
        match find_node (app_NodeName app) os with
        | Some _ => None
        | None => Some (ENodeMissing (app_NodeName app))
        end)
  | _ => None
  end.

Definition is_service (namespace name : string) (o : Object) : bool :=
  match o with
  | ObjService s => bool_decide (om_Namespace (svc_meta s) = namespace) && bool_decide (om_Name (svc_meta s) = name)
  | _ => false
  end.

Definition checkServiceRef (a : Attributes) (l : L) : option AdmissionError :=
  match at_Object a with
  | ObjApplication app =>
      let name := sp_ServiceName (app_Spec app) in
      if bool_decide (name = "") then None
      else on_list l "Service" (λ os,
        if existsb (is_service (app_Namespace app) name) os then None
        else Some (EServiceMissing name (app_Namespace app)))
  | _ => None
  end.

(** The first application that declares the service. *)
Fixpoint declares (svc : Service) (os : list Object) : option Application :=
  match os with
  | [] => None
  | ObjApplication app :: os' =>
      if bool_decide (app_Namespace app = om_Namespace (svc_meta svc)) &&
         bool_decide (sp_ServiceName (app_Spec app) = om_Name (svc_meta svc))
      then Some app else declares svc os'
  | _ :: os' => declares svc os'
  end.

Definition checkServiceProtection (a : Attributes) (l : L) : option AdmissionError :=
  match at_Object a with
  | ObjService svc => on_list l "Application" (λ os,
      match declares svc os with
      | Some app => Some (EServiceInUse (om_Name (svc_meta svc)) (app_Name app))
      | None => None
      end)
  | _ => None
  end.

Definition mounts_pv (app : Application) (name : string) : bool :=
  existsb (λ m, IsPV m && bool_decide (PVName m (app_Name app) = name)) (sp_Volumes (app_Spec app)).

(** [appsMountingPV], on the listed applications. *)
Definition appsMountingPV (os : list Object) (namespace name except : string) : list string :=
  omap (λ o, match o with
    | ObjApplication app =>
        if negb (bool_decide (app_Namespace app = namespace)) || bool_decide (app_Name app = except) then None
        else if mounts_pv app name then Some (app_Name app) else None
    | _ => None
    end) os.

Definition checkPVProtection (a : Attributes) (l : L) : option AdmissionError :=
  match at_Object a with
  | ObjPersistentVolume pv => on_list l "Application" (λ os,
      match appsMountingPV os (om_Namespace (pv_meta pv)) (om_Name (pv_meta pv)) "" with
      | [] => None
      | users => Some (FPVInUse (om_Name (pv_meta pv)) users)
      end)
  | _ => None
  end.

Definition sharedPVs (os : list Object) (namespace : string) : gset string :=
  list_to_set (omap (λ o, match o with
    | ObjPersistentVolume pv =>
        if bool_decide (om_Namespace (pv_meta pv) = namespace) && pvs_Shared (pv_Spec pv)
        then Some (om_Name (pv_meta pv)) else None
    | _ => None
    end) os).

(** The distinct volumes an application mounts, in order. *)
Definition mounted (app : Application) : list string :=
  foldl (λ acc m, if IsPV m && negb (bool_decide (PVName m (app_Name app) ∈ acc))
                  then acc ++ [PVName m (app_Name app)] else acc) [] (sp_Volumes (app_Spec app)).

Fixpoint exclusive_loop (l : L) (app : Application) (shared : gset string) (names : list string)
    : option AdmissionError :=
  match names with
  | [] => None
  | name :: names' =>
      if bool_decide (name ∈ shared) then exclusive_loop l app shared names'
      else check* on_list l "Application" (λ os,
             match appsMountingPV os (app_Namespace app) name (app_Name app) with
             | [] => None
             | users => Some (FPVExclusive name users)
             end) in
           exclusive_loop l app shared names'
  end.

Definition checkAppMountsExclusive (app : Application) (l : L) : option AdmissionError :=
  match mounted app with
  | [] => None
  | names => on_list l "PersistentVolume" (λ os,
      exclusive_loop l app (sharedPVs os (app_Namespace app)) names)
  end.

Definition checkSharingStillHolds (pv : PersistentVolume) (l : L) : option AdmissionError :=
  if pvs_Shared (pv_Spec pv) then None
  else on_list l "Application" (λ os,
    let users := appsMountingPV os (om_Namespace (pv_meta pv)) (om_Name (pv_meta pv)) "" in
    if (1 <? length users)%nat then Some (FPVExclusive (om_Name (pv_meta pv)) users) else None).

Definition checkPVExclusive (a : Attributes) (l : L) : option AdmissionError :=
  match at_Object a with
  | ObjApplication app => checkAppMountsExclusive app l
  | ObjPersistentVolume pv => checkSharingStillHolds pv l
  | _ => None
  end.

Definition secret_names (os : list Object) (namespace : string) : gset string :=
  list_to_set (omap (λ o, match o with
    | ObjSecret s => if bool_decide (om_Namespace (sec_meta s) = namespace) then Some (om_Name (sec_meta s)) else None
    | _ => None
    end) os).

Definition checkSecretRef (a : Attributes) (l : L) : option AdmissionError :=
  match at_Object a with
  | ObjApplication app =>
      match RequiredSecretRefs app with
      | [] => None
      | required => on_list l "Secret" (λ os,
          let have := secret_names os (app_Namespace app) in
          match List.find (λ name, negb (bool_decide (name ∈ have))) required with
          | Some name => Some (ESecretMissing name (app_Namespace app))
          | None => None
          end)
      end
  | _ => None
  end.

Definition checkSecretProtection (a : Attributes) (l : L) : option AdmissionError :=
  match at_Object a with
  | ObjSecret sec => on_list l "Application" (λ os,
      match omap (λ o, match o with
              | ObjApplication app =>
                  if bool_decide (app_Namespace app = om_Namespace (sec_meta sec)) &&
                     bool_decide (om_Name (sec_meta sec) ∈ SecretRefs app)
                  then Some (app_Name app) else None
              | _ => None
              end) os with
      | [] => None
      | users => Some (FSecretInUse (om_Name (sec_meta sec)) users)
      end)
  | _ => None
  end.

(** [newReferenceCheck]: the table. *)
Definition reference_rules : list referenceRule :=
  [mkRule "namespaceExists" notDelete checkNamespaceExists;
   mkRule "namespaceProtection" onlyDelete checkNamespaceEmpty;
   mkRule "nodeExists" notDelete checkNodeExists;
   mkRule "pvProtection" onlyDelete checkPVProtection;
   mkRule "pvExclusive" notDelete checkPVExclusive;
   mkRule "secretRef" notDelete checkSecretRef;
   mkRule "secretProtection" onlyDelete checkSecretProtection;
   mkRule "serviceRef" notDelete checkServiceRef;
   mkRule "serviceProtection" onlyDelete checkServiceProtection].

Fixpoint run_rules (rules : list referenceRule) (a : Attributes) (l : L) : option AdmissionError :=
  match rules with
  | [] => None
  | r :: rules' =>
      if rule_guards r (at_Operation a)
      then check* rule_check r a l in run_rules rules' a l
      else run_rules rules' a l
  end.

Definition referenceCheck_Validate (lister : Lister) (ctx : Ctx) (a : Attributes) : option AdmissionError :=
  if IsSubresource a then None
  else match lister with
       | None => None
       | Some l => run_rules reference_rules a l
       end.

Definition referenceCheck (lister : Lister) : Plugin := mkPlugin no_admit (referenceCheck_Validate lister).

(** [DefaultChain]'s modelled plugins, in its order. *)
Definition core_chain (routedNetwork : bool) (lister : Lister) : list Plugin :=
  [finalizerOwnership; uidAllocation lister; policyEnforcement; appPolicy routedNetwork; nodePolicy;
   referenceCheck lister; capacityCheck lister].
End References.
