(* ===== verification/Store.v ===== *)
(** * Reviewed writes over a store: referential integrity and tenancy

    The store as the reviewed requests see it, a step relation whose rules are the writes
    the control plane performs, one request at a time, and the two invariants the chain keeps over
    every such run:
    no reference dangles and no volume is shared by accident ([integrity]), and no two
    namespaces ever run workloads under one uid ([tenancy]). *)
From stdpp Require Import gmap strings list.
From Stdlib Require Import ZArith Ascii.
From S2P Require Import Prelude Resources CoreV1 ApiObjects Uids Paths Admission AdmissionFacts Allocation References.

Section Store.
Context {HQ : Quantity} (chain : Lister → list Plugin).
Implicit Types (s : list Object) (o : Object).

(** An object's identity in the store. *)
Definition key (o : Object) : string * string * string := (obj_Kind o, obj_Namespace o, obj_Name o).

(** What a List answers on a store. *)
Definition listing (s : list Object) (kind : string) : result error (list Object) :=
  Ok (List.filter (λ o, bool_decide (obj_Kind o = kind)) s).

Definition erase (k : string * string * string) (s : list Object) : list Object :=
  List.filter (λ o, negb (bool_decide (key o = k))) s.

Definition put (o : Object) (s : list Object) : list Object := o :: erase (key o) s.

(** The requests that reach a store. *)
Inductive Request :=
| RCreate (o : Object)
| RUpdate (o : Object)
| RDelete (o : Object)
(** A held object whose finalizers have all been released is erased. *)
| RRelease (o : Object)
(** A status report, a deletion mark or the store's own stamps ([spec_kept]). *)
| RStatus (o : Object)
(** An earlier revision put back: validated, but not admitted again. *)
| RRollback (o : Object).

(** The identity aside, what the invariants read stays: a namespace's annotations, the spec
    of an application or a volume, a node's cordon and labels; a kind with neither spec nor
    status keeps its payload. *)
Definition spec_kept (old o : Object) : Prop :=
  match old, o with
  | ObjNamespace a, ObjNamespace b => om_Annotations (nsp_meta a) = om_Annotations (nsp_meta b)
  | ObjApplication a, ObjApplication b => app_Spec a = app_Spec b
  | ObjPersistentVolume a, ObjPersistentVolume b => pv_Spec a = pv_Spec b
  | ObjNode a, ObjNode b => node_Unschedulable a = node_Unschedulable b ∧ node_Labels a = node_Labels b
  | ObjApplicationSet a, ObjApplicationSet b => aset_Spec a = aset_Spec b
  | ObjCSR a, ObjCSR b => csr_Spec a = csr_Spec b
  | _, _ => ∃ f, o = map_meta f old
  end.

Definition review (s : list Object) (ctx : Ctx) (a : Attributes) : result AdmissionError Attributes :=
  chain_Run (chain (Some (listing s))) ctx a.

(** One request, from the listing its review reads to the write: nothing else is stored in
    between.  The service takes no lock across the two, so requests served side by side are not
    runs of this relation ([AdmissionDemo.racing_namespaces_share_uid] and
    [racing_mounts_share_volume] show what they can do). *)
Inductive step : Request → list Object → list Object → Prop :=
(** The service binds the namespace before the review (a cluster-scoped kind carries
    none) and requires a name; the store refuses an identity it holds. *)
| step_create s ctx o a :
    obj_Name o ≠ "" → (obj_Kind o ∉ namespacedKinds → obj_Namespace o = "") →
    review s ctx (mkAttributes Create o None "") = Ok a →
    key (at_Object a) ∉ key <$> s →
    step (RCreate o) s (put (at_Object a) s)
| step_update s ctx o old a :
    old ∈ s → key old = key o →
    review s ctx (mkAttributes Update o (Some old) "") = Ok a →
    step (RUpdate o) s (put (at_Object a) s)
| step_delete s ctx o :
    o ∈ s → om_Finalizers (obj_meta o) = [] →
    chain_Validate (chain (Some (listing s))) ctx (mkAttributes Delete o (Some o) "") = None →
    step (RDelete o) s (erase (key o) s)
| step_release s o :
    o ∈ s → obj_Kind o ∈ ["Application"; "ApplicationSet"] →
    step (RRelease o) s (erase (key o) s)
| step_status s old o :
    old ∈ s → key old = key o → spec_kept old o →
    step (RStatus o) s (put o s)
(** [seen] is the object the request addressed; the revision names the one it replaces. *)
| step_rollback s ctx seen old o :
    old ∈ s → key old = key o →
    chain_Validate (chain (Some (listing s))) ctx (mkAttributes Update o (Some seen) "") = None →
    step (RRollback o) s (put o s).

(** Stores reachable by requests that all satisfy [P]. *)
Inductive reachable (P : Request → list Object → Prop) : list Object → Prop :=
| reach_empty : reachable P []
| reach_step r s s' : reachable P s → P r s → step r s s' → reachable P s'.

(** ** Membership *)
Lemma listing_elem s kind o : o ∈ List.filter (λ o, bool_decide (obj_Kind o = kind)) s ↔ o ∈ s ∧ obj_Kind o = kind.
Proof. by rewrite filter_elem, bool_decide_eq_true. Qed.

Lemma erase_elem k s o : o ∈ erase k s ↔ o ∈ s ∧ key o ≠ k.
Proof. unfold erase. by rewrite filter_elem, negb_true_iff, bool_decide_eq_false. Qed.

Lemma put_elem o s x : x ∈ put o s ↔ x = o ∨ (x ∈ s ∧ key x ≠ key o).
Proof. unfold put. by rewrite elem_of_cons, erase_elem. Qed.

Lemma key_kind (a b : Object) : key a = key b → obj_Kind a = obj_Kind b.
Proof. intros E. by simplify_eq. Qed.

Lemma key_names (a b : Object) : key a = key b → obj_Namespace a = obj_Namespace b ∧ obj_Name a = obj_Name b.
Proof. intros E. by simplify_eq. Qed.

(** A kind names its constructor. *)
Lemma kind_app o : obj_Kind o = "Application" → ∃ a, o = ObjApplication a.
Proof. destruct o; intros; simplify_eq/=; eauto. Qed.
Lemma kind_ns o : obj_Kind o = "Namespace" → ∃ n, o = ObjNamespace n.
Proof. destruct o; intros; simplify_eq/=; eauto. Qed.
Lemma kind_pv o : obj_Kind o = "PersistentVolume" → ∃ p, o = ObjPersistentVolume p.
Proof. destruct o; intros; simplify_eq/=; eauto. Qed.
Lemma kind_secret o : obj_Kind o = "Secret" → ∃ p, o = ObjSecret p.
Proof. destruct o; intros; simplify_eq/=; eauto. Qed.
Lemma kind_service o : obj_Kind o = "Service" → ∃ p, o = ObjService p.
Proof. destruct o; intros; simplify_eq/=; eauto. Qed.

Lemma find_namespace_elem name os :
  match find_namespace name os with
  | Some n => ObjNamespace n ∈ os ∧ nsp_Name n = name
  | None => ∀ n, ObjNamespace n ∈ os → nsp_Name n ≠ name
  end.
Proof.
  induction os as [|o os IH]; simpl; [by intros n ?%elem_of_nil|].
  destruct o; try case_bool_decide;
    try (split; [left|done]); destruct (find_namespace name os);
    try (destruct IH; split; [by right|done]);
    intros n' [?|?]%elem_of_cons; simplify_eq; auto.
Qed.

(** ** What an accepted review establishes *)
Lemma reviewed_write s ctx a :
  at_Subresource a = "" → at_Operation a ≠ Delete →
  referenceCheck_Validate (Some (listing s)) ctx a = None →
  checkNamespaceExists a (listing s) = None ∧ checkNodeExists a (listing s) = None ∧
  checkPVExclusive a (listing s) = None ∧ checkSecretRef a (listing s) = None ∧
  checkServiceRef a (listing s) = None.
Proof.
  intros Hs Hop. unfold referenceCheck_Validate, IsSubresource. rewrite bool_decide_eq_true_2 by done.
  cbn [negb run_rules reference_rules rule_guards rule_check]. unfold notDelete, onlyDelete.
  rewrite bool_decide_eq_false_2 by done. cbn [negb].
  repeat (match goal with |- context [match ?c with _ => _ end] => destruct c end; [done|]).
  intros H. by split_and!.
Qed.

Lemma reviewed_delete s ctx a :
  at_Subresource a = "" → at_Operation a = Delete →
  referenceCheck_Validate (Some (listing s)) ctx a = None →
  checkNamespaceEmpty a (listing s) = None ∧ checkPVProtection a (listing s) = None ∧
  checkSecretProtection a (listing s) = None ∧ checkServiceProtection a (listing s) = None.
Proof.
  intros Hs Hop. unfold referenceCheck_Validate, IsSubresource. rewrite bool_decide_eq_true_2 by done.
  cbn [negb run_rules reference_rules rule_guards rule_check]. unfold notDelete, onlyDelete.
  rewrite bool_decide_eq_true_2 by done. cbn [negb].
  repeat (match goal with |- context [match ?c with _ => _ end] => destruct c end; [done|]).
  intros H. by split_and!.
Qed.

Lemma appsMountingPV_elem os ns name except x :
  x ∈ appsMountingPV os ns name except ↔
  ∃ app, ObjApplication app ∈ os ∧ app_Namespace app = ns ∧ app_Name app ≠ except ∧
    mounts_pv app name = true ∧ app_Name app = x.
Proof.
  unfold appsMountingPV. rewrite list_elem_of_omap. split.
  - intros (o & Hin & E). destruct o; try done. destruct (_ || _) eqn:Eb; [done|].
    destruct (mounts_pv a name) eqn:Em; simplify_eq. bools. naive_solver.
  - intros (app & Hin & Hns & Hne & Hm & <-). exists (ObjApplication app). split; [done|].
    rewrite bool_decide_eq_true_2, bool_decide_eq_false_2 by done. simpl. by rewrite Hm.
Qed.

Lemma no_mounters os ns name except :
  appsMountingPV os ns name except = [] →
  ∀ app, ObjApplication app ∈ os → app_Namespace app = ns → app_Name app ≠ except →
    mounts_pv app name = false.
Proof.
  intros E app Hin Hns Hne. destruct (mounts_pv app name) eqn:Em; [|done].
  assert (app_Name app ∈ appsMountingPV os ns name except) as H
    by (apply appsMountingPV_elem; eauto 10).
  rewrite E in H. by apply elem_of_nil in H.
Qed.

Lemma mounted_elem app name : name ∈ mounted app ↔ mounts_pv app name = true.
Proof.
  unfold mounted, mounts_pv.
  assert (∀ l acc, name ∈ foldl (λ acc m, if IsPV m && negb (bool_decide (PVName m (app_Name app) ∈ acc))
                  then acc ++ [PVName m (app_Name app)] else acc) acc l ↔
    name ∈ acc ∨ existsb (λ m, IsPV m && bool_decide (PVName m (app_Name app) = name)) l = true) as H.
  { induction l as [|m l IH]; intros acc; simpl; [naive_solver|]. rewrite IH.
    destruct (IsPV m); simpl; [|done].
    destruct (decide (PVName m (app_Name app) ∈ acc)) as [Hin|Hno].
    - rewrite bool_decide_eq_true_2 by done. simpl. rewrite orb_true_iff, bool_decide_eq_true.
      split; [naive_solver|]. intros [?|[<-|?]]; auto.
    - rewrite bool_decide_eq_false_2 by done. simpl.
      rewrite elem_of_app, list_elem_of_singleton, orb_true_iff, bool_decide_eq_true. naive_solver. }
  rewrite H. split; [|by right]. intros [?%elem_of_nil|?]; done.
Qed.

Lemma sharedPVs_elem os ns name :
  name ∈ sharedPVs os ns ↔
  ∃ pv, ObjPersistentVolume pv ∈ os ∧ om_Namespace (pv_meta pv) = ns ∧ om_Name (pv_meta pv) = name ∧
    pvs_Shared (pv_Spec pv) = true.
Proof.
  unfold sharedPVs. rewrite elem_of_list_to_set, list_elem_of_omap. split.
  - intros (o & Hin & E). destruct o; try done. destruct (_ && _) eqn:Eb; simplify_eq. bools. naive_solver.
  - intros (pv & Hin & Hns & Hn & Hs). exists (ObjPersistentVolume pv). split; [done|].
    rewrite bool_decide_eq_true_2, Hs by done. by rewrite <-Hn.
Qed.

(** ** Referential integrity *)

(** [name] is declared shared in [ns]. *)
Definition shared_in (s : list Object) (ns name : string) : Prop :=
  ∃ pv, ObjPersistentVolume pv ∈ s ∧ om_Namespace (pv_meta pv) = ns ∧ om_Name (pv_meta pv) = name ∧
    pvs_Shared (pv_Spec pv) = true.

(** What one object needs of a store: its namespace, the service it joins, the secrets it requires,
    and that a volume it shares is declared shared.  A pinned node and the role of a binding are
    looked up when they are written only: both may be deleted afterwards. *)
Definition refs_hold (s : list Object) (o : Object) : Prop :=
  (obj_Kind o ∈ namespacedKinds → obj_Namespace o ≠ "" →
     ∃ n, ObjNamespace n ∈ s ∧ nsp_Name n = obj_Namespace o) ∧
  ∀ app, o = ObjApplication app →
    (sp_ServiceName (app_Spec app) ≠ "" →
       ∃ svc, ObjService svc ∈ s ∧ om_Namespace (svc_meta svc) = app_Namespace app ∧
         om_Name (svc_meta svc) = sp_ServiceName (app_Spec app)) ∧
    (∀ x, x ∈ RequiredSecretRefs app →
       ∃ sec, ObjSecret sec ∈ s ∧ om_Namespace (sec_meta sec) = app_Namespace app ∧
         om_Name (sec_meta sec) = x) ∧
    (∀ other name, ObjApplication other ∈ s → app_Namespace other = app_Namespace app →
       app_Name other ≠ app_Name app → mounts_pv app name = true → mounts_pv other name = true →
       shared_in s (app_Namespace app) name).

Definition integrity (s : list Object) : Prop := ∀ o, o ∈ s → refs_hold s o.

(** What a review of a create or an update establishes, against the store it reads. *)
Lemma reviewed_namespace s a :
  checkNamespaceExists a (listing s) = None → obj_Namespace (at_Object a) ≠ "" →
  ∃ n, ObjNamespace n ∈ s ∧ nsp_Name n = obj_Namespace (at_Object a).
Proof.
  unfold checkNamespaceExists, on_list, listing. intros H Hns.
  rewrite bool_decide_eq_false_2 in H by done.
  pose proof (find_namespace_elem (obj_Namespace (at_Object a))
    (List.filter (λ o, bool_decide (obj_Kind o = "Namespace")) s)) as Hf.
  destruct (find_namespace _ _) as [n|]; [|done]. destruct Hf as [Hin Hn].
  apply listing_elem in Hin as [Hin _]. eauto.
Qed.

Lemma reviewed_service s a app :
  checkServiceRef a (listing s) = None → at_Object a = ObjApplication app →
  sp_ServiceName (app_Spec app) ≠ "" →
  ∃ svc, ObjService svc ∈ s ∧ om_Namespace (svc_meta svc) = app_Namespace app ∧
    om_Name (svc_meta svc) = sp_ServiceName (app_Spec app).
Proof.
  unfold checkServiceRef, on_list, listing. intros H Ho Hne. rewrite Ho in H. clear Ho. rewrite bool_decide_eq_false_2 in H by done.
  destruct (existsb _ _) eqn:E; [|done]. apply existsb_elem in E as (o & Hin & Ho).
  apply listing_elem in Hin as [Hin _]. destruct o; try done. simpl in Ho. bools. naive_solver.
Qed.

Lemma reviewed_secrets s a app x :
  checkSecretRef a (listing s) = None → at_Object a = ObjApplication app →
  x ∈ RequiredSecretRefs app →
  ∃ sec, ObjSecret sec ∈ s ∧ om_Namespace (sec_meta sec) = app_Namespace app ∧ om_Name (sec_meta sec) = x.
Proof.
  unfold checkSecretRef, on_list, listing. intros H Ho Hx. rewrite Ho in H. clear Ho.
  destruct (RequiredSecretRefs app) as [|r rs] eqn:Er; [by apply elem_of_nil in Hx|].
  destruct (List.find _ _) eqn:Ef; [done|].
  apply list_elem_of_In in Hx. pose proof (find_none _ _ Ef x Hx) as Hn.
  rewrite negb_false_iff, bool_decide_eq_true in Hn. unfold secret_names in Hn.
  rewrite elem_of_list_to_set, list_elem_of_omap in Hn. destruct Hn as (o & Hin & Eo).
  apply listing_elem in Hin as [Hin _]. destruct o; try done. case_bool_decide; simplify_eq. eauto.
Qed.

Lemma exclusive_loop_None s app shared names name :
  exclusive_loop (listing s) app shared names = None → name ∈ names → name ∉ shared →
  ∀ other, ObjApplication other ∈ s → app_Namespace other = app_Namespace app →
    app_Name other ≠ app_Name app → mounts_pv other name = false.
Proof.
  induction names as [|n names IH]; intros H Hin Hsh; [by apply elem_of_nil in Hin|]. simpl in H.
  apply elem_of_cons in Hin as [->|Hin].
  - rewrite bool_decide_eq_false_2 in H by done. unfold on_list, listing at 1 in H.
    destruct (appsMountingPV _ _ _ _) eqn:E; [|done]. intros other Ho Hns Hne.
    apply (no_mounters _ _ _ _ E other); [|done..]. by apply listing_elem.
  - case_bool_decide; [by apply IH|]. unfold on_list, listing at 1 in H.
    destruct (appsMountingPV _ _ _ _); [by apply IH|done].
Qed.

Lemma reviewed_mounts s a app other name :
  checkPVExclusive a (listing s) = None → at_Object a = ObjApplication app →
  ObjApplication other ∈ s → app_Namespace other = app_Namespace app →
  app_Name other ≠ app_Name app → mounts_pv app name = true → mounts_pv other name = true →
  shared_in s (app_Namespace app) name.
Proof.
  unfold checkPVExclusive. intros H E Ho Hns Hne Hm Hom. rewrite E in H. unfold checkAppMountsExclusive in H.
  apply mounted_elem in Hm. destruct (mounted app) as [|n ns] eqn:En; [by apply elem_of_nil in Hm|].
  unfold on_list, listing at 1 in H.
  destruct (decide (name ∈ sharedPVs (List.filter (λ o, bool_decide (obj_Kind o = "PersistentVolume")) s)
    (app_Namespace app))) as [Hs|Hs].
  - apply sharedPVs_elem in Hs as (pv & Hin & ? & ? & ?). apply listing_elem in Hin as [Hin _].
    exists pv. by split_and!.
  - rewrite (exclusive_loop_None _ _ _ _ name H Hm Hs other) in Hom; done.
Qed.

(** A volume that is not shared has at most one mounter. *)
Lemma reviewed_unshared s a pv x y :
  checkPVExclusive a (listing s) = None → at_Object a = ObjPersistentVolume pv →
  pvs_Shared (pv_Spec pv) = false →
  ObjApplication x ∈ s → ObjApplication y ∈ s →
  app_Namespace x = om_Namespace (pv_meta pv) → app_Namespace y = om_Namespace (pv_meta pv) →
  mounts_pv x (om_Name (pv_meta pv)) = true → mounts_pv y (om_Name (pv_meta pv)) = true →
  app_Name x ≠ "" → app_Name y ≠ "" → app_Name x = app_Name y.
Proof.
  unfold checkPVExclusive. intros H E Hsh Hx Hy Hxn Hyn Hxm Hym Hx0 Hy0. rewrite E in H.
  unfold checkSharingStillHolds in H. rewrite Hsh in H. unfold on_list, listing in H.
  set (users := appsMountingPV _ _ _ _) in *.
  assert (∀ z, ObjApplication z ∈ s → app_Namespace z = om_Namespace (pv_meta pv) →
    mounts_pv z (om_Name (pv_meta pv)) = true → app_Name z ≠ "" → app_Name z ∈ users) as Hu.
  { intros z ????. apply appsMountingPV_elem. exists z. split_and!; try done. by apply listing_elem. }
  pose proof (Hu x Hx Hxn Hxm Hx0) as H1. pose proof (Hu y Hy Hyn Hym Hy0) as H2.
  destruct (Nat.ltb_spec 1 (length users)); [done|].
  destruct users as [|u [|u' us]]; simpl in *; [by apply elem_of_nil in H1| |lia].
  apply list_elem_of_singleton in H1, H2. congruence.
Qed.

Lemma deleted_namespace_empty s ns :
  checkNamespaceEmpty (mkAttributes Delete (ObjNamespace ns) (Some (ObjNamespace ns)) "") (listing s) = None →
  ∀ o, o ∈ s → obj_Kind o ∈ namespacedKinds → obj_Namespace o ≠ nsp_Name ns.
Proof.
  unfold checkNamespaceEmpty. cbn [at_Object].
  assert (∀ kinds, remaining (listing s) (nsp_Name ns) kinds =
    Ok (existsb (λ k, in_namespace (nsp_Name ns) (List.filter (λ o, bool_decide (obj_Kind o = k)) s)) kinds))
    as ->.
  { induction kinds as [|k kinds IH]; simpl; [done|]. by rewrite IH. }
  destruct (existsb _ _) eqn:E; [done|]. intros _ o Ho Hk Hns.
  rewrite existsb_elem_false in E. specialize (E _ Hk). unfold in_namespace in E.
  rewrite existsb_elem_false in E. specialize (E o). rewrite bool_decide_eq_true_2 in E by done.
  discriminate E. by apply listing_elem.
Qed.

Lemma deleted_pv_unused s pv :
  checkPVProtection (mkAttributes Delete (ObjPersistentVolume pv) (Some (ObjPersistentVolume pv)) "") (listing s) = None →
  ∀ app, ObjApplication app ∈ s → app_Namespace app = om_Namespace (pv_meta pv) → app_Name app ≠ "" →
    mounts_pv app (om_Name (pv_meta pv)) = false.
Proof.
  unfold checkPVProtection, on_list, listing. cbn [at_Object].
  destruct (appsMountingPV _ _ _ _) eqn:E; [|done]. intros _ app Hin Hns Hne.
  apply (no_mounters _ _ _ _ E); [by apply listing_elem|done..].
Qed.

Lemma deleted_secret_unused s sec :
  checkSecretProtection (mkAttributes Delete (ObjSecret sec) (Some (ObjSecret sec)) "") (listing s) = None →
  ∀ app, ObjApplication app ∈ s → app_Namespace app = om_Namespace (sec_meta sec) →
    om_Name (sec_meta sec) ∉ SecretRefs app.
Proof.
  unfold checkSecretProtection, on_list, listing. cbn [at_Object].
  set (f := λ o, match o with ObjApplication _ => _ | _ => _ end).
  destruct (omap f _) eqn:E; [|done]. intros _ app Hin Hns Hx.
  assert (app_Name app ∈ omap f (List.filter (λ o, bool_decide (obj_Kind o = "Application")) s)) as H.
  { apply list_elem_of_omap. exists (ObjApplication app). split; [by apply listing_elem|].
    simpl. by rewrite !bool_decide_eq_true_2. }
  rewrite E in H. by apply elem_of_nil in H.
Qed.

Lemma declares_None svc os :
  declares svc os = None → ∀ app, ObjApplication app ∈ os →
    app_Namespace app = om_Namespace (svc_meta svc) → sp_ServiceName (app_Spec app) ≠ om_Name (svc_meta svc).
Proof.
  induction os as [|o os IH]; simpl; intros H app Hin Hns; [by apply elem_of_nil in Hin|].
  apply elem_of_cons in Hin as [<-|Hin].
  - rewrite bool_decide_eq_true_2 in H by done. simpl in H. by case_bool_decide.
  - apply IH; [|done..]. destruct o; try done. by destruct (_ && _).
Qed.

Lemma deleted_service_unused s svc :
  checkServiceProtection (mkAttributes Delete (ObjService svc) (Some (ObjService svc)) "") (listing s) = None →
  ∀ app, ObjApplication app ∈ s → app_Namespace app = om_Namespace (svc_meta svc) →
    sp_ServiceName (app_Spec app) ≠ om_Name (svc_meta svc).
Proof.
  unfold checkServiceProtection, on_list, listing. cbn [at_Object].
  destruct (declares svc _) eqn:E; [done|]. intros _ app Hin. eapply declares_None; [exact E|].
  by apply listing_elem.
Qed.
End Store.

(** ** The contract of a reviewing chain *)
Section Contract.
Context {HQ : Quantity}.

(** A request keeps its operation, subresource and the identity of its object. *)
Definition shell (a a' : Attributes) : Prop :=
  at_Operation a' = at_Operation a ∧ at_Subresource a' = at_Subresource a ∧
  key (at_Object a') = key (at_Object a).

(** What the store's invariants need of the chain that reviews its writes: the three
    plugins that decide identity and references are in it, no mutation pass moves the
    object's identity, and a namespace's block annotation is the allocator's. *)
Class ReviewChain (chain : Lister → list Plugin) : Prop := {
  rc_reference l : referenceCheck l ∈ chain l;
  rc_uid l : uidAllocation l ∈ chain l;
  rc_policy l : policyEnforcement ∈ chain l;
  rc_shell l ctx a a' : admit_all (chain l) ctx a = Ok a' → shell a a';
  rc_namespace l ctx op n old a' :
    op ≠ Delete → admit_all (chain (Some l)) ctx (mkAttributes op (ObjNamespace n) old "") = Ok a' →
    ∃ n1 n', om_Annotations (nsp_meta n1) = om_Annotations (nsp_meta n) ∧ nsp_Name n1 = nsp_Name n ∧
      assignBlock l n1 = Ok n' ∧ at_Object a' = ObjNamespace n';
}.

Lemma reviewed chain `{!ReviewChain chain} s ctx a a' :
  review chain s ctx a = Ok a' →
  shell a a' ∧ admit_all (chain (Some (listing s))) ctx a = Ok a' ∧
  ∀ p, p ∈ chain (Some (listing s)) → pl_Validate p ctx a' = None.
Proof. intros [Ha Hv]%chain_Run_Ok. split_and!; [by eapply rc_shell|done..]. Qed.

(** ** The modelled chain keeps it *)
Lemma key_finalizers l o : key (map_meta (set_finalizers l) o) = key o.
Proof. by destruct o. Qed.
Lemma holdPlaced_key o : key (holdPlacedWorkload o) = key o.
Proof. destruct o; simpl; try done. repeat case_match; done. Qed.
Lemma holdSet_key o : key (holdSetCascade o) = key o.
Proof. destruct o; simpl; try done. repeat case_match; done. Qed.

Lemma finalizer_shell ctx a a' : finalizerOwnership_Admit ctx a = Ok a' → shell a a'.
Proof.
  unfold finalizerOwnership_Admit. destruct (_ || _); [intros; by simplify_eq|].
  intros H. simplify_eq. unfold shell. cbn [with_object at_Operation at_Subresource at_Object].
  rewrite holdSet_key, holdPlaced_key. split_and!; [done..|].
  destruct ctx; [|done]. case_bool_decide; [done|apply key_finalizers].
Qed.

Lemma assignBlock_name l ns ns' : assignBlock l ns = Ok ns' → key (ObjNamespace ns') = key (ObjNamespace ns).
Proof.
  unfold assignBlock. destruct (negb _).
  - destruct (ParseIDRange _); [|done]. intros; by simplify_eq.
  - destruct (list_kind l "Namespace"); [|done]. cbv zeta.
    destruct (walk _ _ _) as [[|]|]; intros H; [|done..]. by simplify_eq.
Qed.

Lemma assignWorkloadID_key l app app' :
  assignWorkloadID l app = Ok app' → key (ObjApplication app') = key (ObjApplication app).
Proof.
  unfold assignWorkloadID. destruct (blockOf l _) as [block|]; [|done].
  destruct (idr_IsZero block); [intros; by simplify_eq|]. cbv zeta.
  destruct (sc_RunAsUser _); [intros; by simplify_eq|].
  destruct (list_kind l "Application"); [|done].
  destruct (walk _ _ _) as [[|]|]; intros H; [|done..]. by simplify_eq.
Qed.

Lemma uid_shell l ctx a a' : uidAllocation_Admit l ctx a = Ok a' → shell a a'.
Proof.
  unfold uidAllocation_Admit. destruct l as [l|]; [|intros; by simplify_eq].
  destruct (_ || _); [intros; by simplify_eq|]. destruct (at_Object a) eqn:E; try (intros; by simplify_eq).
  - destruct (assignBlock l n) as [ns'|] eqn:En; [|done]. intros H. simplify_eq.
    split_and!; [done..|]. rewrite E. by eapply assignBlock_name.
  - destruct (assignWorkloadID l a0) as [app'|] eqn:En; [|done]. intros H. simplify_eq.
    split_and!; [done..|]. rewrite E. by eapply assignWorkloadID_key.
Qed.

Lemma policy_shell ctx a a' : policyEnforcement_Admit ctx a = Ok a' → shell a a'.
Proof.
  unfold policyEnforcement_Admit. case_bool_decide; [intros; by simplify_eq|].
  destruct (at_Object a) eqn:E; intros H'; simplify_eq; split_and!; try done. by rewrite E.
Qed.

Lemma core_admit routed l ctx a a' :
  admit_all (core_chain routed l) ctx a = Ok a' →
  ∃ a1 a2, finalizerOwnership_Admit ctx a = Ok a1 ∧
    uidAllocation_Admit l ctx a1 = Ok a2 ∧
    policyEnforcement_Admit ctx a2 = Ok a'.
Proof.
  unfold core_chain, finalizerOwnership, uidAllocation, policyEnforcement, appPolicy, nodePolicy,
    referenceCheck, capacityCheck, no_admit. cbn [admit_all pl_Admit].
  destruct (finalizerOwnership_Admit ctx a) as [a1|] eqn:E1; [|done].
  destruct (uidAllocation_Admit _ ctx a1) as [a2|] eqn:E2; [|done].
  destruct (policyEnforcement_Admit ctx a2) as [a3|] eqn:E3; [|done].
  intros; simplify_eq. eauto.
Qed.

Lemma core_shell routed l ctx a a' :
  admit_all (core_chain routed l) ctx a = Ok a' → shell a a'.
Proof.
  intros (a1 & a2 & (?&?&?)%finalizer_shell & (?&?&?)%uid_shell & (?&?&?)%policy_shell)%core_admit.
  split_and!; congruence.
Qed.

Lemma core_namespace routed l ctx op n old a' :
  op ≠ Delete →
  admit_all (core_chain routed (Some l)) ctx (mkAttributes op (ObjNamespace n) old "") = Ok a' →
  ∃ n1 n', om_Annotations (nsp_meta n1) = om_Annotations (nsp_meta n) ∧ nsp_Name n1 = nsp_Name n ∧
    assignBlock l n1 = Ok n' ∧ at_Object a' = ObjNamespace n'.
Proof.
  intros Hop (a1 & a2 & H1 & H2 & H3)%core_admit.
  unfold finalizerOwnership_Admit, IsSubresource in H1. cbn [at_Operation at_Subresource at_Object] in H1.
  rewrite bool_decide_eq_false_2, bool_decide_eq_true_2 in H1 by done. cbn [negb orb] in H1.
  assert (∃ n1, a1 = mkAttributes op (ObjNamespace n1) old "" ∧
    om_Annotations (nsp_meta n1) = om_Annotations (nsp_meta n) ∧ nsp_Name n1 = nsp_Name n) as (n1 & -> & Ha & Hn).
  { destruct ctx as [id|]; [case_bool_decide|]; simplify_eq; eexists; (split; [reflexivity|done]). }
  unfold uidAllocation_Admit, IsSubresource in H2. cbn [at_Operation at_Subresource at_Object] in H2.
  rewrite bool_decide_eq_false_2, bool_decide_eq_true_2 in H2 by done. cbn [negb orb] in H2.
  destruct (assignBlock l n1) as [n'|] eqn:En; [|done]. simplify_eq.
  unfold policyEnforcement_Admit in H3. cbn [at_Operation at_Object with_object] in H3.
  rewrite bool_decide_eq_false_2 in H3 by done. simplify_eq. eauto 10.
Qed.

#[export] Instance core_chain_review routed : ReviewChain (core_chain routed).
Proof.
  split.
  - intros l. unfold core_chain. do 5 right. left.
  - intros l. unfold core_chain. right. left.
  - intros l. unfold core_chain. do 2 right. left.
  - intros. by eapply core_shell.
  - intros. by eapply core_namespace.
Qed.
End Contract.
