(* ===== verification/Integrity.v ===== *)
(** * Referential integrity is an invariant of the reviewed store

    Rule induction over [Store.step]: whatever sequence of creates, updates, deletes,
    releases and status writes a store has been through, every reference in it resolves and
    a volume two applications mount was declared shared. *)
From stdpp Require Import gmap strings list.
From Stdlib Require Import ZArith Ascii.
From S2P Require Import Prelude Resources CoreV1 ApiObjects Uids Paths Admission AdmissionFacts Allocation References Store.

Section Integrity.
Context {HQ : Quantity} (chain : Lister → list Plugin) `{!ReviewChain chain}.
Implicit Types (s : list Object) (o : Object).

Definition keyed_store s : Prop := ∀ x y, x ∈ s → y ∈ s → key x = key y → x = y.
Definition named s : Prop := ∀ x, x ∈ s → obj_Name x ≠ "".

(** ** References survive a write *)
Lemma put_has s o x : x ∈ s → ∃ y, y ∈ put o s ∧ key y = key x ∧ (y = x ∨ y = o).
Proof.
  intros Hx. destruct (decide (key x = key o)) as [E|Hne].
  - exists o. split_and!; [apply put_elem; by left|done|by right].
  - exists x. split_and!; [apply put_elem; by right|done|by left].
Qed.

Lemma put_namespace s o n :
  ObjNamespace n ∈ s → ∃ n', ObjNamespace n' ∈ put o s ∧ nsp_Name n' = nsp_Name n.
Proof.
  intros (y & Hy & E & _)%(put_has s o). destruct (kind_ns y (key_kind _ _ E)) as [n' ->].
  exists n'. split; [done|]. by inversion E.
Qed.
Lemma put_service s o v :
  ObjService v ∈ s → ∃ v', ObjService v' ∈ put o s ∧
    om_Namespace (svc_meta v') = om_Namespace (svc_meta v) ∧ om_Name (svc_meta v') = om_Name (svc_meta v).
Proof.
  intros (y & Hy & E & _)%(put_has s o). destruct (kind_service y (key_kind _ _ E)) as [n' ->].
  exists n'. split; [done|]. by inversion E.
Qed.
Lemma put_secret s o v :
  ObjSecret v ∈ s → ∃ v', ObjSecret v' ∈ put o s ∧
    om_Namespace (sec_meta v') = om_Namespace (sec_meta v) ∧ om_Name (sec_meta v') = om_Name (sec_meta v).
Proof.
  intros (y & Hy & E & _)%(put_has s o). destruct (kind_secret y (key_kind _ _ E)) as [n' ->].
  exists n'. split; [done|]. by inversion E.
Qed.

(** Two different applications of one namespace that mount one volume. *)
Definition co_mounters s (x y : Application) (name : string) : Prop :=
  ObjApplication x ∈ s ∧ ObjApplication y ∈ s ∧ app_Namespace y = app_Namespace x ∧
  app_Name y ≠ app_Name x ∧ mounts_pv x name = true ∧ mounts_pv y name = true.

(** The written volume does not take sharing away from mounters it has. *)
Definition keeps_sharing s o : Prop :=
  ∀ pv x y, o = ObjPersistentVolume pv → pvs_Shared (pv_Spec pv) = false →
    app_Namespace x = om_Namespace (pv_meta pv) → ¬ co_mounters s x y (om_Name (pv_meta pv)).

Lemma put_shared s o x y name :
  keeps_sharing s o → co_mounters s x y name →
  shared_in s (app_Namespace x) name → shared_in (put o s) (app_Namespace x) name.
Proof.
  intros Hk Hxy (pv & Hin & Hns & Hn & Hs). destruct (put_has s o _ Hin) as (z & Hz & E & Hor).
  destruct (kind_pv z (key_kind _ _ E)) as [pv' ->].
  assert (om_Namespace (pv_meta pv') = om_Namespace (pv_meta pv) ∧
    om_Name (pv_meta pv') = om_Name (pv_meta pv)) as [E1 E2] by (by inversion E).
  exists pv'. split_and!; [done|congruence|congruence|].
  destruct Hor as [Hor|Hor]; [by simplify_eq|].
  destruct (pvs_Shared (pv_Spec pv')) eqn:Esh; [done|]. exfalso.
  apply (Hk pv' x y); [done|done|congruence|]. by rewrite E2, Hn.
Qed.

Lemma refs_mounts s x y name :
  integrity s → co_mounters s x y name → shared_in s (app_Namespace x) name.
Proof. intros Hi (Hx & Hy & Hns & Hne & Hm1 & Hm2). destruct (Hi _ Hx) as [_ Ha]. by eapply Ha. Qed.

Lemma put_integrity s o :
  integrity s → refs_hold s o → keeps_sharing s o → integrity (put o s).
Proof.
  intros Hi Ho Hk x Hx.
  assert (refs_hold s x) as [Hns Happ].
  { apply put_elem in Hx as [->|[Hx _]]; [done|by apply Hi]. }
  split.
  { intros Hkind Hne. destruct (Hns Hkind Hne) as (n & (n' & ? & E)%(put_namespace s o) & En).
    exists n'. split; [done|congruence]. }
  intros app Eapp. destruct (Happ app Eapp) as (Hsvc & Hsec & Hpv). split_and!.
  - intros (v & (v' & ? & ? & ?)%(put_service s o) & ? & ?)%Hsvc. exists v'. split_and!; congruence.
  - intros n (v & (v' & ? & ? & ?)%(put_secret s o) & ? & ?)%Hsec. exists v'. split_and!; congruence.
  - intros other name Hoth Hn Hne Hm1 Hm2. subst x.
    apply put_elem in Hoth as [Eo|[Hoth _]].
    + (* the other mounter is the written object *)
      apply put_elem in Hx as [Ex|[Hx _]]; [by simplify_eq|].
      destruct Ho as [_ Ho]. specialize (Ho other (eq_sym Eo)) as (_ & _ & Ho).
      assert (shared_in s (app_Namespace app) name) as (pv & Hin & Hpv').
      { rewrite <-Hn. by apply (Ho app name). }
      exists pv. split; [|done]. apply put_elem. right. split; [done|]. rewrite <-Eo. done.
    + apply put_elem in Hx as [Ex|[Hx _]].
      * destruct (Hpv other name) as (pv & Hin & Hpv'); [done..|].
        exists pv. split; [|done]. apply put_elem. right. split; [done|]. by rewrite <-Ex.
      * apply (put_shared s o app other); [done|by split_and!|]. by apply (Hpv other name).
Qed.

(** ** References survive a removal nothing refers to *)
Lemma erase_integrity s o :
  integrity s →
  (∀ n x, o = ObjNamespace n → x ∈ s → obj_Kind x ∈ namespacedKinds → obj_Namespace x ≠ nsp_Name n) →
  (∀ v app, o = ObjService v → ObjApplication app ∈ s → app_Namespace app = om_Namespace (svc_meta v) →
     sp_ServiceName (app_Spec app) ≠ om_Name (svc_meta v)) →
  (∀ v app, o = ObjSecret v → ObjApplication app ∈ s → app_Namespace app = om_Namespace (sec_meta v) →
     om_Name (sec_meta v) ∉ SecretRefs app) →
  (∀ pv app, o = ObjPersistentVolume pv → ObjApplication app ∈ s →
     app_Namespace app = om_Namespace (pv_meta pv) → mounts_pv app (om_Name (pv_meta pv)) = false) →
  integrity (erase (key o) s).
Proof.
  intros Hi Hdn Hdv Hds Hdp x Hx. apply erase_elem in Hx as [Hx Hxo]. destruct (Hi x Hx) as [Hns Happ].
  split.
  { intros Hk Hne. destruct (Hns Hk Hne) as (n & Hn & En). exists n. split; [|done].
    apply erase_elem. split; [done|]. intros E. destruct (kind_ns o (eq_sym (key_kind _ _ E))) as [n' ->].
    apply (Hdn n' x); [done..|]. rewrite <-En. by inversion E. }
  intros app ->. destruct (Happ app eq_refl) as (Hsvc & Hsec & Hpv). split_and!.
  - intros (v & Hv & E1 & E2)%Hsvc. exists v. split; [|done]. apply erase_elem. split; [done|].
    intros E. destruct (kind_service o (eq_sym (key_kind _ _ E))) as [v' ->].
    inversion E. apply (Hdv v' app); [done..| |]; unfold obj_Namespace, obj_Name in *; simpl in *; congruence.
  - intros n Hn. destruct (Hsec n Hn) as (v & Hv & E1 & E2). exists v. split; [|done]. apply erase_elem.
    split; [done|]. intros E. destruct (kind_secret o (eq_sym (key_kind _ _ E))) as [v' ->].
    inversion E. apply (Hds v' app); [done..| |]; unfold obj_Namespace, obj_Name in *; simpl in *; [congruence|].
    apply SecretRefs_elem, secretRefs_mono, RequiredSecretRefs_elem. congruence.
  - intros other name Hoth Hn Hne Hm1 Hm2. apply erase_elem in Hoth as [Hoth _].
    destruct (Hpv other name) as (pv & Hin & E1 & E2 & Hs); [done..|]. exists pv. split; [|done].
    apply erase_elem. split; [done|]. intros E. destruct (kind_pv o (eq_sym (key_kind _ _ E))) as [pv' ->].
    inversion E. unfold obj_Namespace, obj_Name in *. simpl in *.
    enough (mounts_pv app name = false) by congruence.
    replace name with (om_Name (pv_meta pv')) by congruence. apply (Hdp pv'); [done|done|congruence].
Qed.

(** ** The invariant *)
Definition sound s : Prop := keyed_store s ∧ named s ∧ integrity s.

Lemma put_keyed s o : keyed_store s → keyed_store (put o s).
Proof.
  intros Hk x y Hx Hy E. apply put_elem in Hx, Hy.
  destruct Hx as [->|[Hx Hxo]], Hy as [->|[Hy Hyo]]; [done|congruence|congruence|by apply Hk].
Qed.

Lemma put_named s o : named s → obj_Name o ≠ "" → named (put o s).
Proof. intros Hn Ho x [->|[Hx _]]%put_elem; [done|by apply Hn]. Qed.

Lemma erase_sub s k x : x ∈ erase k s → x ∈ s.
Proof. by intros [? _]%erase_elem. Qed.

(** What every plugin of the chain validates may be written. *)
Lemma validated_put s ctx a :
  sound s → (∀ p, p ∈ chain (Some (listing s)) → pl_Validate p ctx a = None) →
  at_Operation a ≠ Delete → at_Subresource a = "" → obj_Name (at_Object a) ≠ "" →
  sound (put (at_Object a) s).
Proof.
  intros (Hk & Hn & Hi) Hv Hd Hs Hname.
  assert (referenceCheck_Validate (Some (listing s)) ctx a = None) as Href.
  { apply (Hv (referenceCheck (Some (listing s)))), rc_reference. }
  apply reviewed_write in Href as (Hns & _ & Hpv & Hsec & Hsvc); [|done..].
  split_and!; [by apply put_keyed|by apply put_named|]. apply put_integrity; [done| |].
  - split; [intros _ Hne; by apply reviewed_namespace|].
    intros app Eapp. split_and!.
    + by apply (reviewed_service s a).
    + intros x. by apply (reviewed_secrets s a).
    + intros other name. by apply (reviewed_mounts s a).
  - intros pv x y Eo Hsh Hxn (Hx & Hy & Hyn & Hne & Hm1 & Hm2). apply Hne.
    apply (reviewed_unshared s a pv); try done; [congruence|by apply (Hn _ Hy)|by apply (Hn _ Hx)].
Qed.

Lemma reviewed_put s ctx a a' :
  sound s → review chain s ctx a = Ok a' →
  at_Operation a ≠ Delete → at_Subresource a = "" → obj_Name (at_Object a) ≠ "" →
  sound (put (at_Object a') s).
Proof.
  intros Hs ((Hop & Hsub & Hkey) & _ & Hv)%(reviewed chain) ???.
  apply (validated_put s ctx a'); [done..|congruence|congruence|].
  apply key_names in Hkey as [_ ->]. done.
Qed.

Lemma deleted_erase s ctx o :
  sound s → o ∈ s →
  chain_Validate (chain (Some (listing s))) ctx (mkAttributes Delete o (Some o) "") = None →
  integrity (erase (key o) s).
Proof.
  intros (Hk & Hn & Hi) Ho Hv. rewrite chain_Validate_None in Hv.
  assert (referenceCheck_Validate (Some (listing s)) ctx (mkAttributes Delete o (Some o) "") = None) as Href.
  { apply (Hv (referenceCheck (Some (listing s)))), rc_reference. }
  apply reviewed_delete in Href as (Hns & Hpv & Hsec & Hsvc); [|done..].
  apply erase_integrity; [done|..].
  - intros n x ->. by apply deleted_namespace_empty.
  - intros v app ->. by apply deleted_service_unused.
  - intros v app ->. by apply deleted_secret_unused.
  - intros pv app -> Happ Hapn. apply (deleted_pv_unused s); [done..|]. by apply (Hn _ Happ).
Qed.

Lemma released_erase s o :
  integrity s → obj_Kind o ∈ ["Application"; "ApplicationSet"] → integrity (erase (key o) s).
Proof.
  intros Hi Hk. apply erase_integrity; [done|..]; intros ? ? ->;
    repeat (apply elem_of_cons in Hk as [?|Hk]; [done|]); by apply elem_of_nil in Hk.
Qed.

Lemma status_put s old o :
  keyed_store s → integrity s → old ∈ s → key old = key o → spec_kept old o → integrity (put o s).
Proof.
  intros Hk Hi Hold E Hsp. apply put_integrity; [done| |].
  - destruct (Hi old Hold) as [Hns Happ]. pose proof (key_kind _ _ E) as Ek. pose proof (key_names _ _ E) as [En Enm]. split; [by rewrite <-Ek, <-En|].
    intros app ->. destruct (kind_app old Ek) as [app0 ->]. simpl in Hsp.
    destruct (Happ app0 eq_refl) as (Hsvc & Hsec & Hmp).
    assert (app_Namespace app0 = app_Namespace app ∧ app_Name app0 = app_Name app) as [E1 E2] by done.
    assert (∀ name, mounts_pv app name = mounts_pv app0 name) as Hm
      by (intros; unfold mounts_pv; by rewrite E2, Hsp).
    assert (RequiredSecretRefs app = RequiredSecretRefs app0) as Hr
      by (unfold RequiredSecretRefs, secretRefs; by rewrite Hsp).
    rewrite <-E1, <-E2, <-Hsp, Hr. split_and!; [done..|].
    intros other name. rewrite Hm. apply Hmp.
  - intros pv x y -> Hsh Hxn Hco. destruct (kind_pv old (key_kind _ _ E)) as [pv0 ->]. simpl in Hsp.
    destruct (refs_mounts _ _ _ _ Hi Hco) as (pv1 & Hin & E1 & E2 & Hs1).
    assert (ObjPersistentVolume pv1 = ObjPersistentVolume pv0) as E0.
    { apply Hk; [done..|]. rewrite E. unfold key, obj_Namespace, obj_Name. simpl. congruence. }
    simplify_eq. congruence.
Qed.

Lemma step_sound r s s' : sound s → step chain r s s' → sound s'.
Proof.
  intros Hs Hst. destruct Hst as [s ctx o a Hn _ Hr _|s ctx o old a Hold E Hr|s ctx o Ho _ Hv|s o Ho Hk|s old o Hold E Hsp|s ctx seen old o Hold E Hv].
  - by apply (reviewed_put s ctx _ a Hs Hr).
  - apply (reviewed_put s ctx _ a Hs Hr); try done. destruct Hs as (_ & Hn & _).
    apply key_names in E as [_ Enm]. simpl. rewrite <-Enm. by apply Hn.
  - pose proof Hs as (Hk & Hn & Hi). split_and!.
    + intros x y ?%erase_sub ?%erase_sub. by apply Hk.
    + intros x ?%erase_sub. by apply Hn.
    + by eapply deleted_erase.
  - pose proof Hs as (Hk' & Hn & Hi). split_and!.
    + intros x y ?%erase_sub ?%erase_sub. by apply Hk'.
    + intros x ?%erase_sub. by apply Hn.
    + by apply released_erase.
  - pose proof Hs as (Hk & Hn & Hi). split_and!; [by apply put_keyed| |by eapply status_put].
    apply put_named; [done|]. apply key_names in E as [_ Enm]. rewrite <-Enm. by apply Hn.
  - apply (validated_put s ctx (mkAttributes Update o (Some seen) "")); try done;
      [by apply chain_Validate_None|]. destruct Hs as (_ & Hn & _).
    apply key_names in E as [_ Enm]. simpl. rewrite <-Enm. by apply Hn.
Qed.

(** ** The invariant reads a store as a set *)
Definition same_members (s t : list Object) : Prop := ∀ o, o ∈ s ↔ o ∈ t.

#[export] Instance same_members_equivalence : Equivalence same_members.
Proof.
  split; [by intros s o|by intros s t H o; rewrite (H o)|].
  intros s t u H1 H2 o. by rewrite (H1 o).
Qed.

#[export] Instance elem_of_same o : Proper (same_members ==> iff) (λ s, o ∈ s).
Proof. intros s t H. exact (H o). Qed.

Lemma put_put s o o' : key o' = key o → same_members (put o' (put o s)) (put o' s).
Proof.
  intros E x. rewrite !put_elem. split.
  - intros [->|[[->|[Hx _]] Hne]]; [by left|congruence|by right].
  - intros [->|[Hx Hne]]; [by left|]. right. split; [right; split; [done|congruence]|done].
Qed.

Lemma shared_same s t ns name : same_members s t → shared_in s ns name → shared_in t ns name.
Proof. intros H (pv & Hin & Hpv). exists pv. split; [by apply H|done]. Qed.

Lemma refs_hold_same s t o : same_members s t → refs_hold s o → refs_hold t o.
Proof.
  intros H [Hns Happ]. split.
  - intros Hk Hne. destruct (Hns Hk Hne) as (n & Hn & E). exists n. split; [by apply H|done].
  - intros app Eo. destruct (Happ app Eo) as (Hv & Hs & Hm). split_and!.
    + intros (v & Hin & E)%Hv. exists v. split; [by apply H|done].
    + intros x (v & Hin & E)%Hs. exists v. split; [by apply H|done].
    + intros other name Ho. intros. apply (shared_same s); [done|]. apply (Hm other); first [by apply H|done].
Qed.

#[export] Instance sound_same : Proper (same_members ==> iff) sound.
Proof.
  assert (∀ s t, same_members s t → sound s → sound t) as Himp.
  { intros s t H (Hk & Hn & Hi). split_and!.
    - intros x y Hx%H Hy%H. by apply Hk.
    - intros x Hx%H. by apply Hn.
    - intros x Hx%H. apply (refs_hold_same s); [done|by apply Hi]. }
  intros s t H. split; by apply Himp.
Qed.

(** The stamps a store puts on what it was given. *)
Lemma stamped_sound s o o' :
  sound (put o s) → key o = key o' → spec_kept o o' → sound (put o' s).
Proof.
  intros Hs E Hsp. rewrite <-(put_put s o o') by done.
  apply (step_sound (RStatus o') (put o s)); [done|].
  apply (step_status _ _ o); [apply put_elem; by left|done..].
Qed.

Lemma reachable_sound P s : reachable chain P s → sound s.
Proof.
  induction 1 as [|r s s' _ IH _ Hst]; [|by eapply step_sound].
  split_and!; [intros x y Hx _ _|intros x Hx|intros x Hx]; by apply elem_of_nil in Hx.
Qed.
End Integrity.
