(* ===== verification/Tenancy.v ===== *)
(** * Tenancy: no two namespaces share a uid

    Rule induction over [Store.step] again, for runs of requests served one at a time in which no
    client writes the block annotation itself. *)
From stdpp Require Import gmap strings list.
From Stdlib Require Import ZArith Ascii.
From S2P Require Import Prelude Resources CoreV1 ApiObjects Uids Paths Admission AdmissionFacts Allocation References Store Integrity.
#[local] Open Scope Z_scope.

Section Tenancy.
Context {HQ : Quantity} (chain : Lister → list Plugin) `{!ReviewChain chain}.
Implicit Types (s : list Object) (o : Object) (n m : Namespace).

Definition annotation n : string := default "" (om_Annotations (nsp_meta n) !! UIDRangeAnnotation).

(** No client touches the block annotation. *)
Definition honest (r : Request) s : Prop :=
  match r with
  | RCreate (ObjNamespace n) => annotation n = ""
  | RUpdate (ObjNamespace n) | RRollback (ObjNamespace n) =>
      ∀ old, ObjNamespace old ∈ s → nsp_Name old = nsp_Name n → annotation n = annotation old
  | _ => True
  end.

Definition cluster_scoped s : Prop := ∀ n, ObjNamespace n ∈ s → obj_Namespace (ObjNamespace n) = "".
Definition blocked s : Prop :=
  ∀ n, ObjNamespace n ∈ s → ∃ i, 0 ≤ i ∧ idr_Min (nth_block i) + WorkloadUIDBlock - 1 ≤ MaxRunAsID ∧
    block_of_ns n = Ok (nth_block i).
Definition apart s : Prop :=
  ∀ n m r, ObjNamespace n ∈ s → ObjNamespace m ∈ s → nsp_Name n ≠ nsp_Name m →
    block_of_ns n = Ok r → block_of_ns m ≠ Ok r.
Definition confined s : Prop :=
  ∀ app n r, ObjApplication app ∈ s → ObjNamespace n ∈ s → nsp_Name n = app_Namespace app →
    block_of_ns n = Ok r → ∃ uid, run_as_user app = Some uid ∧ Contains r uid = true.

Definition tenancy s : Prop := cluster_scoped s ∧ blocked s ∧ apart s ∧ confined s.

Lemma ns_key s n m :
  keyed_store s → cluster_scoped s → ObjNamespace n ∈ s → ObjNamespace m ∈ s →
  nsp_Name n = nsp_Name m → n = m.
Proof.
  intros Hk Hc Hn Hm E. enough (ObjNamespace n = ObjNamespace m) by congruence.
  apply Hk; [done..|]. unfold key. rewrite (Hc n Hn), (Hc m Hm). unfold obj_Name. simpl.
  unfold nsp_Name in E. by rewrite E.
Qed.

(** ** The annotation *)
Lemma block_of_annotation n m : annotation n = annotation m → block_of_ns n = block_of_ns m.
Proof. unfold annotation, block_of_ns. by intros ->. Qed.

Lemma assignBlock_kept l n n' : annotation n ≠ "" → assignBlock l n = Ok n' → n' = n.
Proof.
  intros Hne. unfold assignBlock. unfold annotation in Hne. rewrite bool_decide_eq_false_2 by done.
  cbn [negb]. destruct (ParseIDRange _); [|done]. intros; by simplify_eq.
Qed.

Lemma block_annotation n r : block_of_ns n = Ok r → annotation n ≠ "".
Proof. unfold block_of_ns, annotation. by intros H E; rewrite E in H. Qed.

(** ** A reviewed application lies in its namespace's block *)
Lemma app_confined s ctx a app n r :
  keyed_store s → cluster_scoped s →
  at_Operation a ≠ Delete → at_Subresource a = "" → at_Object a = ObjApplication app →
  uidAllocation_Validate (Some (listing s)) ctx a = None → policyEnforcement_Validate ctx a = None →
  ObjNamespace n ∈ s → nsp_Name n = app_Namespace app → block_of_ns n = Ok r →
  ∃ uid, run_as_user app = Some uid ∧ Contains r uid = true.
Proof.
  intros Hk Hc Hop Hsub Ho Hu Hp Hn En Hr.
  unfold policyEnforcement_Validate in Hp. rewrite bool_decide_eq_false_2, Ho in Hp by done.
  unfold uidAllocation_Validate, IsSubresource in Hu.
  rewrite bool_decide_eq_false_2, bool_decide_eq_true_2, Ho in Hu by done. cbn [negb orb] in Hu.
  assert (blockOf (listing s) (app_Namespace app) = Ok r) as Hb.
  { unfold blockOf, list_kind, listing.
    pose proof (find_namespace_elem (app_Namespace app)
      (List.filter (λ o, bool_decide (obj_Kind o = "Namespace")) s)) as Hf.
    destruct (find_namespace _ _) as [n'|].
    - destruct Hf as [[Hin _]%listing_elem E]. assert (n' = n) as -> by (apply (ns_key s); [done..|congruence]).
      pose proof (block_annotation _ _ Hr) as Hne. unfold annotation in Hne.
      rewrite bool_decide_eq_false_2 by done. unfold block_of_ns in Hr. by rewrite Hr.
    - exfalso. apply (Hf n); [by apply listing_elem|done]. }
  rewrite Hb in Hu.
  assert (idr_IsZero r = false) as Hz.
  { apply ParseIDRange_Ok in Hr as (Hm & _). unfold idr_IsZero, MinRunAsID in *.
    rewrite (proj2 (Z.eqb_neq _ _)); [done|lia]. }
  rewrite Hz in Hu. unfold run_as_user. destruct (sp_SecurityContext (app_Spec app)) as [sc|]; [|done].
  destruct (sc_RunAsUser sc) as [uid|]; [|done]. exists uid. split; [done|].
  unfold outside in Hu at 1. by destruct (Contains r uid).
Qed.

(** ** Preservation *)
Lemma nth_block_inj i j : nth_block i = nth_block j → i = j.
Proof. unfold nth_block, WorkloadUIDBase, WorkloadUIDBlock. intros H. simplify_eq. lia. Qed.

(** Writing an object that is not a namespace, and whose applications are confined. *)
Lemma put_other_tenancy s o :
  tenancy s → obj_Kind o ≠ "Namespace" →
  (∀ app n r, o = ObjApplication app → ObjNamespace n ∈ s → nsp_Name n = app_Namespace app →
     block_of_ns n = Ok r → ∃ uid, run_as_user app = Some uid ∧ Contains r uid = true) →
  tenancy (put o s).
Proof.
  intros (Hc & Hb & Ha & Hf) Hk Happ.
  assert (∀ n, ObjNamespace n ∈ put o s → ObjNamespace n ∈ s) as Hns.
  { intros n [<-|[? _]]%put_elem; done. }
  split_and!.
  - intros n Hn. by apply Hc, Hns.
  - intros n Hn. by apply Hb, Hns.
  - intros n m r Hn Hm. apply Ha; by apply Hns.
  - intros app n r Hin Hn. apply put_elem in Hin as [E|[Hin _]]; [by apply Happ; auto|].
    apply Hf; auto.
Qed.

(** Writing a namespace whose block is its own. *)
Lemma put_namespace_tenancy s n r :
  tenancy s → obj_Namespace (ObjNamespace n) = "" →
  (∃ i, 0 ≤ i ∧ idr_Min (nth_block i) + WorkloadUIDBlock - 1 ≤ MaxRunAsID ∧ r = nth_block i) →
  block_of_ns n = Ok r →
  (∀ m r', ObjNamespace m ∈ s → nsp_Name m ≠ nsp_Name n → block_of_ns m = Ok r' → r' ≠ r) →
  (∀ app, ObjApplication app ∈ s → app_Namespace app = nsp_Name n →
     ∃ uid, run_as_user app = Some uid ∧ Contains r uid = true) →
  tenancy (put (ObjNamespace n) s).
Proof.
  intros (Hc & Hb & Ha & Hf) Hsc (i & Hi & Hmax & ->) Hr Hap Happ.
  assert (∀ m, ObjNamespace m ∈ put (ObjNamespace n) s → m = n ∨ ObjNamespace m ∈ s) as Hns.
  { intros m [?|[? _]]%put_elem; [left; congruence|by right]. }
  split_and!.
  - intros m [->|Hm]%Hns; [done|by apply Hc].
  - intros m [->|Hm]%Hns; [eauto|by apply Hb].
  - intros m1 m2 r' [->|Hm1]%Hns [->|Hm2]%Hns Hne H1 H2; [done| | |by apply (Ha m1 m2 r')].
    + rewrite Hr in H1. simplify_eq. by apply (Hap m2 (nth_block i)); auto.
    + rewrite Hr in H2. simplify_eq. by apply (Hap m1 (nth_block i)).
  - intros app m r' Hin Hm E Hr'. apply put_elem in Hin as [?|[Hin _]]; [done|].
    apply Hns in Hm as [->|Hm]; [|by apply (Hf app m)]. rewrite Hr in Hr'. simplify_eq. by apply Happ.
Qed.

Lemma erase_tenancy s k : tenancy s → tenancy (erase k s).
Proof.
  intros (Hc & Hb & Ha & Hf). split_and!.
  - intros n ?%erase_sub. by apply Hc.
  - intros n ?%erase_sub. by apply Hb.
  - intros n m r ?%erase_sub ?%erase_sub. by apply Ha.
  - intros app n r ?%erase_sub ?%erase_sub. by apply Hf.
Qed.

Lemma namespace_cases o : (∃ n, o = ObjNamespace n) ∨ obj_Kind o ≠ "Namespace".
Proof. destruct (decide (obj_Kind o = "Namespace")) as [E|]; [left; by apply kind_ns|by right]. Qed.

Lemma created_namespace_tenancy s ctx n a :
  sound s → tenancy s → annotation n = "" → obj_Name (ObjNamespace n) ≠ "" →
  obj_Namespace (ObjNamespace n) = "" →
  review chain s ctx (mkAttributes Create (ObjNamespace n) None "") = Ok a →
  key (at_Object a) ∉ key <$> s →
  tenancy (put (at_Object a) s).
Proof.
  intros (Hk & Hnm & Hi) Ht Hh Hname Hsc Hr Hfresh.
  pose proof (reviewed chain _ _ _ _ Hr) as ((Hop & Hsub & Hkey) & Hadm & _).
  apply (rc_namespace (chain := chain)) in Hadm as (n1 & n' & Hann & En & Hass & Ho); [|done]. rewrite Ho in *.
  apply key_names in Hkey as [Hns Hnm']. cbn [at_Object] in Hns, Hnm'.
  assert (annotation n1 = "") as Hann1 by (unfold annotation; by rewrite Hann).
  destruct (assignBlock_fresh _ _ _ Hann1 Hass) as (os & i & Hos & Hi0 & Hmax & En' & Hblk & Hothers).
  unfold listing in Hos. injection Hos as <-.
  apply (put_namespace_tenancy s n' (nth_block i)); [done|congruence|by eauto|done| |].
  - intros m r' Hm Hne Hr' ->. apply (Hothers m (nth_block i)); [|congruence|done|done].
    by apply listing_elem.
  - (* no application lives in a namespace that did not exist *)
    intros app Happ Hapn. exfalso. destruct (Hi _ Happ) as [Hex _].
    destruct Hex as (m & Hm & Em).
    + refine (bool_decide_eq_true_1 _ _). vm_compute. reflexivity.
    + unfold app_Namespace in Hapn. unfold obj_Namespace. simpl. rewrite Hapn. unfold nsp_Name.
      unfold obj_Name in Hname, Hnm'. simpl in *. congruence.
    + apply Hfresh, list_elem_of_fmap. exists (ObjNamespace m). split; [|done].
      unfold key. destruct Ht as (Hc & _). rewrite (Hc m Hm).
      unfold obj_Name, obj_Namespace, app_Namespace, nsp_Name in *. simpl in *. congruence.
Qed.

(** Writing a namespace whose block annotation is the stored one. *)
Lemma kept_namespace_tenancy s n n0 :
  tenancy s → ObjNamespace n0 ∈ s → key (ObjNamespace n0) = key (ObjNamespace n) →
  annotation n = annotation n0 → tenancy (put (ObjNamespace n) s).
Proof.
  intros Ht Hold E Hann. pose proof Ht as (Hc & Hb & Ha & Hf).
  pose proof (key_names _ _ E) as [Ens Enm]. unfold obj_Name in Enm. simpl in Enm.
  destruct (Hb n0 Hold) as (i & Hi0 & Hmax & Hblk).
  apply (put_namespace_tenancy s n (nth_block i)); [done| |by eauto|by rewrite (block_of_annotation _ _ Hann)| |].
  - rewrite <-Ens. by apply Hc.
  - intros m r' Hm Hne Hr' ->. apply (Ha m n0 (nth_block i)); try done. unfold nsp_Name in *. congruence.
  - intros app Happ Hapn. apply (Hf app n0); [done..| |done]. unfold nsp_Name in *. congruence.
Qed.

Lemma updated_namespace_tenancy s ctx n old a :
  tenancy s → honest (RUpdate (ObjNamespace n)) s →
  old ∈ s → key old = key (ObjNamespace n) →
  review chain s ctx (mkAttributes Update (ObjNamespace n) (Some old) "") = Ok a →
  tenancy (put (at_Object a) s).
Proof.
  intros Ht Hh Hold E Hr. pose proof Ht as (Hc & Hb & _).
  destruct (kind_ns old (key_kind _ _ E)) as [n0 ->].
  assert (annotation n = annotation n0) as Hann
    by (apply Hh; [done|]; apply key_names in E as [_ E]; done).
  destruct (Hb n0 Hold) as (i & _ & _ & Hblk).
  pose proof (reviewed chain _ _ _ _ Hr) as ((_ & _ & Hkey) & Hadm & _).
  apply (rc_namespace (chain := chain)) in Hadm as (n1 & n' & Hann1 & En & Hass & Ho); [|done]. rewrite Ho in *.
  assert (annotation n1 = annotation n0) as Hann0 by (rewrite <-Hann; unfold annotation; by rewrite Hann1).
  apply assignBlock_kept in Hass as ->; [|rewrite Hann0; by eapply block_annotation].
  apply (kept_namespace_tenancy s n1 n0); [done..|by rewrite Hkey|done].
Qed.

(** Any other validated write. *)
Lemma validated_tenancy s ctx a :
  sound s → tenancy s → (∀ p, p ∈ chain (Some (listing s)) → pl_Validate p ctx a = None) →
  at_Operation a ≠ Delete → at_Subresource a = "" → obj_Kind (at_Object a) ≠ "Namespace" →
  tenancy (put (at_Object a) s).
Proof.
  intros (Hk & _) Ht Hv Hop Hsub Hkind. pose proof Ht as (Hc & _).
  apply put_other_tenancy; [done..|]. intros app n r Ho Hn En Hblk.
  apply (app_confined s ctx a app n r); try done.
  - apply (Hv (uidAllocation (Some (listing s)))), rc_uid.
  - apply (Hv policyEnforcement), rc_policy.
Qed.

Lemma reviewed_tenancy s ctx a a' :
  sound s → tenancy s → review chain s ctx a = Ok a' →
  at_Operation a ≠ Delete → at_Subresource a = "" → obj_Kind (at_Object a) ≠ "Namespace" →
  tenancy (put (at_Object a') s).
Proof.
  intros Hs Ht ((Hop' & Hsub' & Hkey) & _ & Hv)%(reviewed chain) Hop Hsub Hkind.
  apply (validated_tenancy s ctx a'); [done..|congruence|congruence|by rewrite (key_kind _ _ Hkey)].
Qed.

Lemma status_tenancy s old o :
  sound s → tenancy s → old ∈ s → key old = key o → spec_kept old o → tenancy (put o s).
Proof.
  intros (Hk & _) Ht Hold E Hsp. pose proof Ht as (Hc & Hb & Ha & Hf).
  destruct (namespace_cases o) as [[n ->]|Hkind].
  - destruct (kind_ns old (key_kind _ _ E)) as [n0 ->]. simpl in Hsp.
    apply (kept_namespace_tenancy s n n0); [done..|]. unfold annotation. by rewrite Hsp.
  - apply put_other_tenancy; [done..|]. intros app n r -> Hn En Hblk.
    destruct (kind_app old (key_kind _ _ E)) as [app0 ->]. simpl in Hsp.
    pose proof (key_names _ _ E) as [Ens Enm].
    replace (run_as_user app) with (run_as_user app0) by (unfold run_as_user; by rewrite Hsp).
    apply (Hf app0 n r); [done..| |done]. unfold obj_Namespace, app_Namespace in *. simpl in *. congruence.
Qed.

Lemma step_tenancy r s s' : sound s → tenancy s → honest r s → step chain r s s' → tenancy s'.
Proof.
  intros Hs Ht Hh Hst.
  destruct Hst as [s ctx o a Hn Hsc Hr Hfr|s ctx o old a Hold E Hr|s ctx o Ho _ Hv|s o Ho Hk|s old o Hold E Hsp|s ctx seen old o Hold E Hv].
  - destruct (namespace_cases o) as [[n ->]|Hkind]; [|by apply (reviewed_tenancy s ctx _ a Hs Ht Hr)].
    apply (created_namespace_tenancy s ctx n a); try done. apply Hsc.
    refine (bool_decide_eq_true_1 _ _). vm_compute. reflexivity.
  - destruct (namespace_cases o) as [[n ->]|Hkind]; [|by apply (reviewed_tenancy s ctx _ a Hs Ht Hr)].
    by apply (updated_namespace_tenancy s ctx n old a).
  - by apply erase_tenancy.
  - by apply erase_tenancy.
  - by apply (status_tenancy s old).
  - destruct (namespace_cases o) as [[n ->]|Hkind].
    + destruct (kind_ns old (key_kind _ _ E)) as [n0 ->]. apply (kept_namespace_tenancy s n n0); [done..|].
      apply Hh; [done|]. apply key_names in E as [_ E]; done.
    + apply (validated_tenancy s ctx (mkAttributes Update o (Some seen) "")); try done. by apply chain_Validate_None.
Qed.

#[export] Instance tenancy_same : Proper (same_members ==> iff) tenancy.
Proof.
  assert (∀ s t, same_members s t → tenancy s → tenancy t) as Himp.
  { intros s t H (Hc & Hb & Ha & Hf). split_and!.
    - intros n Hn%H. by apply Hc.
    - intros n Hn%H. by apply Hb.
    - intros n m r Hn%H Hm%H. by apply Ha.
    - intros app n r Happ%H Hn%H. by apply Hf. }
  intros s t H. split; by apply Himp.
Qed.

Lemma stamped_tenancy s o o' :
  sound (put o s) → tenancy (put o s) → key o = key o' → spec_kept o o' → tenancy (put o' s).
Proof.
  intros Hs Ht E Hsp. rewrite <-(put_put s o o') by done.
  apply (status_tenancy (put o s) o); [done..|apply put_elem; by left|done|done].
Qed.

Lemma reachable_tenancy s : reachable chain honest s → tenancy s.
Proof.
  induction 1 as [|r s s' Hr IH Hh Hst]; [|eapply step_tenancy; eauto; by eapply (reachable_sound chain)].
  split_and!; [intros n Hn|intros n Hn|intros n m r Hn|intros app n r Hn]; by apply elem_of_nil in Hn.
Qed.

(** Blocks of the walk are equal or disjoint. *)
Lemma nth_block_disjoint i j id :
  0 ≤ i → 0 ≤ j → idr_Min (nth_block i) + WorkloadUIDBlock - 1 ≤ MaxRunAsID →
  idr_Min (nth_block j) + WorkloadUIDBlock - 1 ≤ MaxRunAsID →
  Contains (nth_block i) id = true → Contains (nth_block j) id = true → i = j.
Proof.
  intros Hi Hj Hmi Hmj. rewrite !Contains_iff; try done;
    unfold nth_block, WorkloadUIDBase, WorkloadUIDBlock in *; simpl in *; lia.
Qed.

Lemma tenancy_apart s :
  sound s → tenancy s → ∀ a b,
  ObjApplication a ∈ s → ObjApplication b ∈ s →
  app_Namespace a ≠ "" → app_Namespace b ≠ "" → app_Namespace a ≠ app_Namespace b →
  ∃ ua ub, run_as_user a = Some ua ∧ run_as_user b = Some ub ∧ ua ≠ ub.
Proof.
  intros (Hk & _ & Hi) (Hc & Hbl & Hap & Hf) a b Ha Hb Hna Hnb Hne.
  assert (∀ x, ObjApplication x ∈ s → app_Namespace x ≠ "" →
    ∃ n, ObjNamespace n ∈ s ∧ nsp_Name n = app_Namespace x) as Hns.
  { intros x Hx Hnx. destruct (Hi _ Hx) as [Hex _]. apply Hex; [|done].
    refine (bool_decide_eq_true_1 _ _). vm_compute. reflexivity. }
  destruct (Hns a Ha Hna) as (n & Hn & En), (Hns b Hb Hnb) as (m & Hm & Em).
  destruct (Hbl n Hn) as (i & Hi0 & Himax & Hbi), (Hbl m Hm) as (j & Hj0 & Hjmax & Hbj).
  destruct (Hf a n _ Ha Hn En Hbi) as (ua & Hua & Hca), (Hf b m _ Hb Hm Em Hbj) as (ub & Hub & Hcb).
  exists ua, ub. split_and!; [done..|]. intros ->.
  assert (i = j) as -> by (by eapply nth_block_disjoint).
  apply (Hap n m (nth_block j)); [done..|congruence|done|done].
Qed.

(** ** Properties *)

(** Whatever sequence of reviewed creates, updates, deletes, releases and status
    writes the store has been through, every reference resolves (namespace, service and
    required secrets), and two applications of one namespace mount one volume only if
    that volume is declared shared. *)
Theorem store_integrity P s o : reachable chain P s → o ∈ s → refs_hold s o.
Proof. intros (_ & _ & Hi)%(reachable_sound chain). apply Hi. Qed.

(** C4: the tenancy boundary: requests being served one at a time, and as long as no client
    writes the block annotation, two applications of different (named) namespaces never run as
    the same uid, whatever ids their manifests ask for. *)
Theorem tenants_never_share_uid s a b :
  reachable chain honest s → ObjApplication a ∈ s → ObjApplication b ∈ s →
  app_Namespace a ≠ "" → app_Namespace b ≠ "" → app_Namespace a ≠ app_Namespace b →
  ∃ ua ub, run_as_user a = Some ua ∧ run_as_user b = Some ub ∧ ua ≠ ub.
Proof.
  intros Hr. apply tenancy_apart; [by eapply (reachable_sound chain)|by apply reachable_tenancy].
Qed.
End Tenancy.
