(* ===== verification/Policies.v ===== *)
(** * What an admitted object satisfies (policy.go, app_policy.go, finalizers.go, capacity_check.go)

    Theorems about any chain that contains the plugin: the object it accepts, after every
    mutation, satisfies the plugin's promise. *)
From stdpp Require Import gmap strings list.
From Stdlib Require Import ZArith Ascii.
From S2P Require Import Prelude Resources CoreV1 Framework Plugins Scheduler SchedulerPass.
From S2P Require Import ApiObjects Uids Paths Admission AdmissionFacts.

Section Policies.
Context {HQ : Quantity}.
Implicit Types (app : Application) (o : Object).

(** ** Exec inputs *)
Definition plain (v : string) : Prop := ContainsAny v control_chars = false.

Lemma control_at_None i l : control_at i l = None → ∀ v, v ∈ l → plain v.
Proof.
  revert i. induction l as [|v l IH]; simpl; intros i; [by intros _ v ?%elem_of_nil|].
  destruct (ContainsAny v control_chars) eqn:E; [done|]. intros H w [->|Hw]%elem_of_cons; [done|].
  by apply (IH (S i)).
Qed.

Lemma exec_env_None i seen l :
  exec_env i seen l = None →
  NoDup (ev_Name <$> l) ∧ (∀ e, e ∈ l → ev_Name e ∉ seen ∧ plain (ev_Name e) ∧ plain (ev_Value e)).
Proof.
  revert i seen. induction l as [|e l IH]; simpl; intros i seen.
  { split; [constructor|]. by intros e ?%elem_of_nil. }
  destruct (ContainsAny (ev_Name e) _) eqn:E1; [done|].
  destruct (ContainsAny (ev_Value e) _) eqn:E2; [done|]. simpl.
  case_bool_decide as Hs; [done|]. intros [Hnd Hall]%IH. split.
  - constructor; [|done]. intros (e' & En & He')%list_elem_of_fmap.
    destruct (Hall e' He') as [Hn _]. apply Hn. rewrite <-En. apply elem_of_union_l, elem_of_singleton. done.
  - intros e' [->|He']%elem_of_cons; [done|]. destruct (Hall e' He') as (Hn & ? & ?).
    split_and!; [|done..]. intros Hin. apply Hn, elem_of_union_r. done.
Qed.

Lemma validateExecInputs_None spec :
  validateExecInputs spec = None →
  (∀ program rest, sp_Command spec = program :: rest → starts_with_modifier program = false) ∧
  (∀ v, v ∈ sp_Command spec ++ sp_Args spec → plain v) ∧
  NoDup (ev_Name <$> sp_Env spec) ∧
  (∀ e, e ∈ sp_Env spec → plain (ev_Name e) ∧ plain (ev_Value e)).
Proof.
  unfold validateExecInputs. intros H.
  assert (∀ program rest, sp_Command spec = program :: rest → starts_with_modifier program = false) as Hm.
  { intros program rest E. rewrite E in H. simpl in H. by destruct (starts_with_modifier program). }
  destruct (match sp_Command spec with [] => None | _ :: _ => _ end); [done|].
  destruct (control_at 0 (sp_Command spec)) eqn:Ec; [done|].
  destruct (control_at 0 (sp_Args spec)) eqn:Ea; [done|]. cbn in H.
  apply exec_env_None in H as [Hnd Hall]. split_and!; [done| |done|].
  - intros v [Hv|Hv]%elem_of_app; [exact (control_at_None 0 _ Ec v Hv)|exact (control_at_None 0 _ Ea v Hv)].
  - intros e He. by destruct (Hall e He) as (_ & ? & ?).
Qed.

(** The variables an environment names: a wildcard secretRef names none, its variables are those
    of the secret's keys. *)
Definition names_variable (e : EnvVar) : bool :=
  match ev_SecretRef e with Some ref => negb (IsWildcard ref) | None => true end.

(** The no-root floor: a usable non-root uid and gid, and an exec line systemd cannot
    read a privilege modifier or an extra directive from. *)
Definition floor_holds app : Prop :=
  (∃ uid, run_as_user app = Some uid ∧ (MinRunAsID ≤ uid ≤ MaxRunAsID)%Z) ∧
  (∀ sc gid, sp_SecurityContext (app_Spec app) = Some sc → sc_RunAsGroup sc = Some gid →
     (MinRunAsID ≤ gid ≤ MaxRunAsID)%Z) ∧
  (∀ program rest, sp_Command (app_Spec app) = program :: rest → starts_with_modifier program = false) ∧
  (∀ v, v ∈ sp_Command (app_Spec app) ++ sp_Args (app_Spec app) → plain v) ∧
  NoDup (ev_Name <$> List.filter names_variable (sp_Env (app_Spec app))) ∧
  (∀ e, e ∈ sp_Env (app_Spec app) → plain (ev_Name e) ∧ plain (ev_Value e)).

Lemma policyEnforcement_floor ctx a app :
  at_Operation a ≠ Delete → at_Object a = ObjApplication app →
  policyEnforcement_Validate ctx a = None → floor_holds app.
Proof.
  intros Hop Ho. unfold policyEnforcement_Validate. rewrite bool_decide_eq_false_2, Ho by done.
  unfold floor_holds, run_as_user. destruct (sp_SecurityContext (app_Spec app)) as [sc|]; [|done].
  destruct (sc_RunAsUser sc) as [uid|]; [|done].
  destruct (ValidRunAsID _ uid) eqn:Eu; [done|]. cbn.
  destruct (sc_RunAsGroup sc) as [gid|] eqn:Eg; [destruct (ValidRunAsID _ gid) eqn:Egv; [done|]|]; cbn;
    intros (H1 & H2 & H3 & H4)%validateExecInputs_None; apply ValidRunAsID_None in Eu;
    (split; [by eauto|]);
    (split; [|split_and!; try done; eapply sublist_NoDup; [exact H3|apply fmap_sublist, List_filter_sublist]]);
    intros sc' gid' [= <-] Hg; [|congruence].
  apply ValidRunAsID_None in Egv. congruence.
Qed.

(** C11: the no-root floor: whatever the rest of the chain does, a create or update it
    admits leaves an application with a uid and gid that are neither root nor truncate to
    it, no ExecStart privilege modifier, no control character in command, arguments or
    environment, and no variable named by two entries (a wildcard secretRef names none). *)
Theorem chain_no_root c ctx a a' app :
  policyEnforcement ∈ c → chain_Run c ctx a = Ok a' →
  at_Operation a' ≠ Delete → at_Object a' = ObjApplication app → floor_holds app.
Proof.
  intros Hin [_ Hv]%chain_Run_Ok Hop Ho.
  by apply (policyEnforcement_floor ctx a'), (Hv policyEnforcement).
Qed.

(** ** finalizers.go *)
Definition managed (f : string) : Prop := f = FinalizerNodeTeardown ∨ f = FinalizerChildTeardown.

Lemma holdPlaced_others o f :
  ¬ managed f → f ∈ om_Finalizers (obj_meta (holdPlacedWorkload o)) ↔ f ∈ om_Finalizers (obj_meta o).
Proof.
  intros Hf. destruct o as [| |app| | | | | | | | |]; try done. simpl. destruct (Deleting app); [done|].
  destruct (_ && _); [|destruct (_ && _)]; simpl; [| |done].
  - rewrite elem_of_app, list_elem_of_singleton. split; [|by left]. intros [?| ->]; [done|].
    destruct Hf. by left.
  - rewrite filter_elem. split; [by intros [? _]|]. intros ?. split; [done|].
    apply negb_true_iff, bool_decide_eq_false. intros ->. apply Hf. by left.
Qed.

Lemma holdSet_others o f :
  ¬ managed f → f ∈ om_Finalizers (obj_meta (holdSetCascade o)) ↔ f ∈ om_Finalizers (obj_meta o).
Proof.
  intros Hf. destruct o as [| | |set| | | | | | | |]; try done. simpl. destruct (aset_Deleting set); [done|].
  case_bool_decide; [done|]. simpl. rewrite elem_of_app, list_elem_of_singleton.
  split; [|by left]. intros [?| ->]; [done|]. destruct Hf. by right.
Qed.

Lemma holdPlaced_app app :
  Deleting app = false →
  ∃ app', holdPlacedWorkload (ObjApplication app) = ObjApplication app' ∧ app_Spec app' = app_Spec app ∧
    (FinalizerNodeTeardown ∈ om_Finalizers (app_meta app') ↔ app_NodeName app ≠ "").
Proof.
  intros Hd. simpl. rewrite Hd.
  destruct (decide (FinalizerNodeTeardown ∈ om_Finalizers (app_meta app))) as [Hin|Hno];
    destruct (decide (app_NodeName app = "")) as [Hn|Hn].
  - rewrite !bool_decide_eq_true_2 by done. simpl. eexists. do 2 (split; [reflexivity|]). simpl.
    rewrite filter_elem, negb_true_iff, bool_decide_eq_false. split; [by intros [_ ?]|done].
  - rewrite (bool_decide_eq_true_2 (_ ∈ _)), (bool_decide_eq_false_2 (app_NodeName app = "")) by done.
    simpl. exists app. done.
  - rewrite (bool_decide_eq_false_2 (_ ∈ _)), (bool_decide_eq_true_2 (app_NodeName app = "")) by done.
    simpl. exists app.
    do 2 (split; [done|]). split; [done|by intros []].
  - rewrite !bool_decide_eq_false_2 by done. simpl. eexists. do 2 (split; [reflexivity|]). simpl.
    split; [done|]. intros _. apply elem_of_app. right. left.
Qed.

(** Finalizers are the control plane's: after a client's write every finalizer but the
    two teardown holds is exactly what the stored object carried (none on a create), and
    an application that is not being deleted carries the node-teardown hold exactly when
    it has a node. *)
Theorem finalizers_controlled id a a' :
  finalizerOwnership_Admit (Some id) a = Ok a' →
  at_Operation a ≠ Delete → at_Subresource a = "" →
  (∀ f, ¬ managed f → f ∈ om_Finalizers (obj_meta (at_Object a')) ↔ f ∈ stored_finalizers (at_OldObject a)) ∧
  (∀ app, at_Object a = ObjApplication app → Deleting app = false →
     ∃ app', at_Object a' = ObjApplication app' ∧ app_Spec app' = app_Spec app ∧
       (FinalizerNodeTeardown ∈ om_Finalizers (app_meta app') ↔ app_NodeName app ≠ "")).
Proof.
  intros H Hop Hsub. unfold finalizerOwnership_Admit, IsSubresource in H.
  rewrite bool_decide_eq_false_2, bool_decide_eq_true_2 in H by done. cbn [negb orb] in H.
  injection H as <-. cbn [with_object at_Object].
  set (o := if bool_decide _ then _ else _).
  assert (om_Finalizers (obj_meta o) = stored_finalizers (at_OldObject a)) as Ho.
  { unfold o. case_bool_decide; [done|]. by rewrite map_meta_meta. }
  split.
  - intros f Hf. by rewrite holdSet_others, holdPlaced_others, Ho.
  - intros app Happ Hd.
    assert (∃ app1, o = ObjApplication app1 ∧ app_Spec app1 = app_Spec app ∧ Deleting app1 = false)
      as (app1 & -> & Hsp & Hd1).
    { unfold o. rewrite Happ. case_bool_decide; simpl; eexists; (split; [done|]); done. }
    destruct (holdPlaced_app app1 Hd1) as (app' & -> & Hsp' & Hh). exists app'. simpl.
    split; [done|]. split; [congruence|]. unfold app_NodeName in *. by rewrite Hsp in Hh.
Qed.

(** Two wildcard secret imports cannot be declared together: the shape check accepts
    the environment (a wildcard claims no name), but the exec guard reads both entries'
    empty names as a duplicate and refuses the application. *)
Theorem second_wildcard_refused ref spec program :
  IsWildcard ref = true → esr_Name ref ≠ "" → ValidEnvPrefix (esr_Prefix ref) = None →
  sp_Env spec = [mkEnvVar "" "" (Some ref); mkEnvVar "" "" (Some ref)] →
  sp_Command spec = [program] → sp_Args spec = [] →
  starts_with_modifier program = false → plain program →
  validateEnv (sp_Env spec) = None ∧ validateExecInputs spec = Some (FEnvDuplicate 1 "").
Proof.
  intros Hw Hn Hp He Hc Ha Hm Hpl. rewrite He. split.
  - assert (∀ i, env_entry i (mkEnvVar "" "" (Some ref)) = Ok false) as E.
    { intros i. unfold env_entry. simpl. rewrite bool_decide_eq_false_2 by done.
      unfold IsWildcard in *. apply bool_decide_eq_true in Hw.
      rewrite (bool_decide_eq_false_2 (esr_Key ref = "")) by (rewrite Hw; done).
      rewrite Hp, bool_decide_eq_true_2 by done. done. }
    unfold validateEnv. simpl. by rewrite !E.
  - unfold validateExecInputs. rewrite Hc, Ha, He. simpl. unfold plain in Hpl. by rewrite Hm, Hpl.
Qed.
End Policies.

(** ** The capacity check and the scheduler's filter *)
Section Capacity.
Context {HQ : Quantity} {HL : QuantityLaws HQ}.
Implicit Types (app : Application) (apps : list Application) (nodes : list Node).

(** The bind the scheduler writes: the application with its node filled in. *)
Definition bound_to (node : string) app : Application :=
  with_spec (λ s, mkAppSpec (sp_Image s) (sp_Command s) (sp_Args s) (sp_Env s) (sp_Ports s)
    (sp_Resources s) (sp_Lifecycle s)
    (mkPlacement node (pl_NodeSelector (sp_Placement s)) (pl_Affinity (sp_Placement s)) (pl_Priority (sp_Placement s)))
    (sp_HostNetwork s) (sp_ServiceName s) (sp_RuntimeClassName s) (sp_SecurityContext s) (sp_Volumes s)) app.

(** A store holding these applications and nodes. *)
Definition fleet apps nodes (kind : string) : result error (list Object) :=
  if decide (kind = "Application") then Ok (ObjApplication <$> apps)
  else if decide (kind = "Node") then Ok (ObjNode <$> nodes) else Ok [].

Lemma total_filter app apps t :
  foldl (λ total o, match o with
    | ObjApplication other => if competes app other then ra_Add total (app_requests other) else total
    | _ => total end) t (ObjApplication <$> apps) =
  foldl ra_Add t (app_requests <$> List.filter (competes app) apps).
Proof.
  revert t. induction apps as [|b apps IH]; intros t; simpl; [done|].
  rewrite IH. by destruct (competes app b).
Qed.

Lemma foldl_ra_Add_start l (t : ResourceAmounts) : foldl ra_Add t l ≡ ra_Add (foldl ra_Add ra_zero l) t.
Proof.
  revert t. induction l as [|x l IH]; intros t; simpl.
  - split; simpl; rewrite q_nano_add, q_nano_zero; lia.
  - rewrite (IH (ra_Add t x)), (IH (ra_Add ra_zero x)). split; simpl; rewrite !q_nano_add, q_nano_zero; lia.
Qed.

Lemma find_node_unique nodes n :
  NoDup (node_Name <$> nodes) → n ∈ nodes → find_node (node_Name n) (ObjNode <$> nodes) = Some n.
Proof.
  induction nodes as [|m nodes IH]; intros Hnd Hin; [by apply elem_of_nil in Hin|]. simpl.
  apply NoDup_cons in Hnd as [Hm Hnd]. apply elem_of_cons in Hin as [->|Hin].
  - by rewrite bool_decide_eq_true_2.
  - rewrite bool_decide_eq_false_2; [by apply IH|]. intros E. apply Hm. rewrite E.
    apply list_elem_of_fmap. eauto.
Qed.

(** The stricter polarity implies the admission one, on equivalent amounts. *)
Lemma Exceeds_weaken (a b cap : ResourceAmounts) :
  a ≡ b → ra_Exceeds a cap false = [] → ra_Exceeds b cap true = [].
Proof.
  intros [E1 E2]. rewrite !ra_Exceeds_nil.
  assert (∀ x y c, q_nano x = q_nano y → overResource x c false = false → overResource y c true = false) as H.
  { intros x y c Exy Hx. apply not_true_iff_false. rewrite overResource_spec.
    apply not_true_iff_false in Hx. rewrite overResource_spec in Hx.
    case_decide; [by intros [? _]|]. by rewrite <-Exy. }
  intros [H1 H2]. split; [by eapply H|by eapply H].
Qed.

(** Which applications the check counts against a binding: the node's occupants. *)
Lemma competitors_occupants apps app node :
  node ≠ "" → app ∈ apps → app_NodeName app = "" →
  NoDup ((λ a, (app_Namespace a, app_Name a)) <$> apps) →
  List.filter (competes (bound_to node app)) apps = occupants apps node.
Proof.
  intros Hnode Hin Hpend Hnd. unfold occupants. apply List.filter_ext_in. intros b Hb.
  apply list_elem_of_In in Hb. unfold competes, occupies, same_app.
  change (app_NodeName (bound_to node app)) with node.
  change (app_Namespace (bound_to node app)) with (app_Namespace app).
  change (app_Name (bound_to node app)) with (app_Name app).
  destruct (decide (app_NodeName b = node)) as [Hbn|Hbn].
  2:{ rewrite (bool_decide_eq_false_2 (app_NodeName b = node)) by done.
      by rewrite andb_false_r, andb_false_r. }
  rewrite (bool_decide_eq_true_2 (app_NodeName b = node)) by done.
  rewrite (bool_decide_eq_false_2 (app_NodeName b = "")) by congruence.
  destruct (decide (app_Namespace b = app_Namespace app)) as [E1|E1];
    [|rewrite (bool_decide_eq_false_2 (app_Namespace b = _)) by done; by destruct (Finished b)].
  destruct (decide (app_Name b = app_Name app)) as [E2|E2];
    [|rewrite (bool_decide_eq_false_2 (app_Name b = _)), andb_false_r by done; by destruct (Finished b)].
  exfalso. apply Hnode. rewrite <-Hbn, <-Hpend. f_equal.
  apply list_elem_of_lookup in Hin as [i Hi], Hb as [j Hj].
  assert (i = j) as ->.
  { eapply NoDup_lookup; [exact Hnd| |]; rewrite list_lookup_fmap; [by rewrite Hi|].
    rewrite Hj. simpl. by rewrite E1, E2. }
  congruence.
Qed.

(** The admission capacity check never refuses the scheduler's own bind: on the same
    applications and nodes, a node the scheduler's resource filter lets through is one
    whose capacity check accepts the application bound to it. *)
Theorem capacity_accepts_bind {H : Type} apps nodes app ni (x : H * CycleState CycleVal) ctx old :
  NoDup (node_Name <$> nodes) → NoDup ((λ a, (app_Namespace a, app_Name a)) <$> apps) →
  app ∈ apps → app_NodeName app = "" →
  ni ∈ snap_ordered (buildSnapshot nodes apps) →
  IsSuccess (snd (NodeResourcesFit_Filter app ni x)) = true →
  capacityCheck_Validate (Some (fleet apps nodes)) ctx
    (mkAttributes Update (ObjApplication (bound_to (ni_Name ni) app)) old "") = None.
Proof.
  intros Hnd Hkeys Hin Hpend Hni Hfit.
  unfold capacityCheck_Validate, IsSubresource. cbn [at_Operation at_Subresource at_Object].
  rewrite bool_decide_eq_false_2, bool_decide_eq_true_2 by done. cbn [negb orb].
  change (app_requests (bound_to _ app)) with (app_requests app).
  change (app_NodeName (bound_to (ni_Name ni) app)) with (ni_Name ni).
  destruct (ra_IsZero (app_requests app)); [done|]. case_bool_decide as Hname; [done|].
  unfold totalRequestsOnNode, nodeCapacity, list_kind, fleet. rewrite !decide_True by done.
  rewrite (decide_False (P := "Node" = "Application")) by done. rewrite total_filter.
  apply buildSnapshot_elem in Hni as (n & Hn & ->). unfold ni_Name in *. simpl in *.
  rewrite find_node_unique, competitors_occupants by done.
  unfold NodeResourcesFit_Filter in Hfit. simpl in Hfit.
  destruct (ra_Exceeds _ _ false) eqn:Ef in Hfit; [|done].
  change (app_requests (bound_to (node_Name n) app)) with (app_requests app).
  by rewrite (Exceeds_weaken _ _ _ (symmetry (foldl_ra_Add_start _ _)) Ef).
Qed.

(** ** app_policy.go *)

Definition mount_shape_ok (m : VolumeMount) : Prop :=
  vs_Type (vm_Volume m) ∈ [VolumeTypePV; VolumeTypeTmpfs; VolumeTypeSecret; VolumeTypeToken] ∧
  ValidMountPath (vm_MountPath m) = None ∧
  (IsSecret m = true → vs_Name (vm_Volume m) ≠ "" ∧
     ∀ it, it ∈ vs_Items (vm_Volume m) → ValidRelPath (ktp_Path it) = None).

Lemma item_paths_None i items : item_paths i items = None → ∀ it, it ∈ items → ValidRelPath (ktp_Path it) = None.
Proof.
  induction items as [|it items IH]; simpl; [by intros _ it ?%elem_of_nil|].
  destruct (ValidRelPath (ktp_Path it)) eqn:E; [done|]. intros H it' [->|Hin]%elem_of_cons; auto.
Qed.

Lemma volumes_ok_None i vs : volumes_ok i vs = None → ∀ m, m ∈ vs → mount_shape_ok m.
Proof.
  revert i. induction vs as [|v vs IH]; simpl; intros i; [by intros _ m ?%elem_of_nil|].
  destruct (volume_source_ok i (vm_Volume v)) eqn:Ev; [done|].
  destruct (ValidMountPath (vm_MountPath v)) eqn:Em; [done|]. simpl.
  intros Hr m [->|Hin]%elem_of_cons; [|by eapply IH]. unfold mount_shape_ok. split_and!; [|done|].
  - unfold volume_source_ok in Ev.
    destruct (decide (vs_Type (vm_Volume v) = VolumeTypePV)) as [->|H1]; [left|].
    destruct (decide (vs_Type (vm_Volume v) = VolumeTypeTmpfs)) as [->|H2]; [right; left|].
    destruct (decide (vs_Type (vm_Volume v) = VolumeTypeSecret)) as [->|H3]; [do 2 right; left|].
    destruct (decide (vs_Type (vm_Volume v) = VolumeTypeToken)) as [->|H4]; [do 3 right; left|].
    by rewrite !bool_decide_eq_false_2 in Ev.
  - unfold IsSecret. intros Ht%bool_decide_eq_true. unfold volume_source_ok in Ev. rewrite Ht in Ev. simpl in Ev.
    case_bool_decide as Hn; [done|]. destruct (negb _); [done|]. split; [done|]. by eapply item_paths_None.
Qed.

(** An application the shape policy admits declares non-negative requests and limits,
    no request above a declared limit - so its effective requests never exceed its limits
    - and at most 64 volumes, each of a known type on a clean absolute mount path, with
    every secret projection a clean relative path. *)
Theorem appPolicy_sound routed ctx a app :
  appPolicy_Validate routed ctx a = None → at_Operation a ≠ Delete → at_Subresource a = "" →
  at_Object a = ObjApplication app →
  let r := sp_Resources (app_Spec app) in
  let zero := @ra_zero HQ in
  fits zero (rr_Requests r) ∧ fits zero (rr_Limits r) ∧ fits zero (app_requests app) ∧
  (q_IsZero (ra_CPU (rr_Limits r)) = false →
     (q_nano (ra_CPU (app_requests app)) ≤ q_nano (ra_CPU (rr_Limits r)))%Z) ∧
  (q_IsZero (ra_Memory (rr_Limits r)) = false →
     (q_nano (ra_Memory (app_requests app)) ≤ q_nano (ra_Memory (rr_Limits r)))%Z) ∧
  (length (sp_Volumes (app_Spec app)) ≤ maxVolumesPerApp)%nat ∧
  (∀ m, m ∈ sp_Volumes (app_Spec app) → mount_shape_ok m) ∧
  validateEnv (sp_Env (app_Spec app)) = None.
Proof.
  intros H Hop Hsub Ho r zero. unfold appPolicy_Validate, IsSubresource in H.
  rewrite bool_decide_eq_false_2, bool_decide_eq_true_2, Ho in H by done. cbn [negb orb] in H.
  destruct (_ && negb routed); [done|]. destruct (jobFieldsAreForJobs _); [done|].
  fold r in H. destruct (_ || _) eqn:Eneg; [done|].
  rewrite !orb_false_iff, !Z.ltb_ge, !q_Sign_spec in Eneg. destruct Eneg as [[[S1 S2] S3] S4].
  destruct (_ && _) eqn:Ecpu; [done|]. destruct (_ && _) eqn:Emem in H; [done|].
  destruct (Nat.ltb_spec maxVolumesPerApp (length (sp_Volumes (app_Spec app)))) as [|Hlen]; [done|].
  destruct (volumes_ok 0 _) eqn:Ev; [done|].
  rewrite Z.sgn_nonneg in S1, S2, S3, S4.
  assert (∀ req lim, negb (q_IsZero lim) && (0 <? q_Cmp req lim)%Z = false → q_IsZero lim = false →
    (q_nano req ≤ q_nano lim)%Z) as Hle.
  { intros req lim Hb Hz. rewrite Hz in Hb. simpl in Hb. apply Z.ltb_ge in Hb. rewrite q_Cmp_spec in Hb.
    destruct (Z.sgn_spec (q_nano req - q_nano lim)) as [[? E]|[[? E]|[? E]]]; lia. }
  unfold zero, fits, app_requests, EffectiveRequests. fold r. simpl. rewrite !q_nano_zero.
  split_and!; try done; try (case_match; done); try lia.
  - intros Hz. destruct (q_IsZero (ra_CPU (rr_Requests r))); [apply Z.le_refl|by apply Hle].
  - intros Hz. destruct (q_IsZero (ra_Memory (rr_Requests r))); [apply Z.le_refl|by apply Hle].
  - by apply (volumes_ok_None 0).
Qed.
End Capacity.
