(* ===== verification/AdmissionDemo.v ===== *)
(** * A concrete control plane: witnesses of the admission theorems

    Two namespaces and an application in each, written through the reviewed store; the
    requests of the other theorems; and the one write that breaks the tenancy boundary. *)
From stdpp Require Import gmap strings list.
From Stdlib Require Import ZArith Ascii.
From S2P Require Import Prelude Resources CoreV1 Framework Plugins Scheduler SchedulerPass.
From S2P Require Import ApiObjects Uids Paths Admission AdmissionFacts Allocation References Store Integrity Tenancy Policies.
Import NanoQuantity.
#[local] Open Scope Z_scope.

Definition meta (ns name : string) (ann : gmap string string) : ObjectMeta :=
  mkObjectMeta ns name "" "" 1 ∅ ann 10 None [] [].

Definition demo_ns (name : string) (ann : gmap string string) : Object := ObjNamespace (mkNamespace (meta "" name ann)).

Definition tmpfs_mount : VolumeMount :=
  mkVolumeMount (mkVolumeSource VolumeTypeTmpfs "" (unit_ 0) [] None None "") "/tmp/x" false "".

Definition demo_spec (node : string) (cpu : Z) (sc : option SecurityContext) (env : list EnvVar) : ApplicationSpec :=
  mkAppSpec "img" ["/bin/app"] [] env []
    (mkRequirements (mkAmounts (unit_ cpu) (unit_ 1)) ra_zero)
    (mkLifecycle RestartAlways None None None) (mkPlacement node ∅ None None) None "" "" sc
    [tmpfs_mount].

Definition demo_app (ns name : string) (sc : option SecurityContext) : Application :=
  mkApplication (meta ns name ∅) (demo_spec "" 1 sc []) (mkAppStatus 0 "" "" "" None 0 0).

Ltac decided := refine (bool_decide_eq_true_1 _ _); vm_compute; reflexivity.

Definition unwrap {E A} (d : A) (r : result E A) : A := match r with Ok a => a | Err _ => d end.
Lemma unwrap_ok {E A} (d : A) (r : result E A) : is_ok r = true → r = Ok (unwrap d r).
Proof. by destruct r. Qed.

Lemma default_Some {A} (d : A) o : match o with Some _ => true | None => false end = true → o = Some (default d o).
Proof. by destruct o. Qed.

(** The object a review stores. *)
Definition admitted (s : list Object) (o : Object) : Attributes :=
  unwrap (mkAttributes Create o None "") (review (core_chain false) s None (mkAttributes Create o None "")).
Definition create (o : Object) (s : list Object) : list Object := put (at_Object (admitted s o)) s.

Definition store1 : list Object := create (demo_ns "red" ∅) [].
Definition store2 : list Object := create (demo_ns "blue" ∅) store1.
Definition store3 : list Object := create (ObjApplication (demo_app "red" "web" None)) store2.
Definition store4 : list Object := create (ObjApplication (demo_app "blue" "web" None)) store3.

Lemma create_reachable P s o :
  reachable (core_chain false) P s → P (RCreate o) s → obj_Name o ≠ "" →
  (obj_Kind o ∉ namespacedKinds → obj_Namespace o = "") →
  is_ok (review (core_chain false) s None (mkAttributes Create o None "")) = true →
  key (at_Object (admitted s o)) ∉ key <$> s →
  reachable (core_chain false) P (create o s).
Proof.
  intros Hr HP Hn Hsc Hok Hk. apply (reach_step _ P (RCreate o) s); [done..|].
  apply (step_create _ s None o (admitted s o)); [done..| |done]. by apply unwrap_ok.
Qed.

Ltac created :=
  apply create_reachable;
    [|done|done|intros Hk; first [reflexivity|exfalso; apply Hk; decided]|vm_compute; reflexivity|decided].

Lemma store4_reachable : reachable (core_chain false) honest store4.
Proof. unfold store4, store3, store2, store1. do 4 created. apply reach_empty. Qed.

(** The applications as stored. *)
Definition apps_of (s : list Object) : list Application :=
  omap (λ o, match o with ObjApplication a => Some a | _ => None end) s.

Definition stored (ns : string) (s : list Object) : Application :=
  default (demo_app ns "web" None) (List.find (λ a, bool_decide (app_Namespace a = ns)) (apps_of s)).

Lemma stored_elem ns s :
  existsb (λ a, bool_decide (app_Namespace a = ns)) (apps_of s) = true → ObjApplication (stored ns s) ∈ s.
Proof.
  unfold stored. intros (x & Hx & Hns)%existsb_elem.
  destruct (List.find _ _) as [a|] eqn:E.
  2:{ apply list_elem_of_In in Hx. rewrite (find_none _ _ E x Hx) in Hns. done. }
  simpl. clear Hx Hns x.
  apply find_some in E as [Hin _]. apply list_elem_of_In in Hin. unfold apps_of in Hin.
  apply list_elem_of_omap in Hin as ([] & Ho & ?); by simplify_eq.
Qed.

Lemma tenants_never_share_uid_witness :
  ∃ ua ub, run_as_user (stored "red" store4) = Some ua ∧ run_as_user (stored "blue" store4) = Some ub ∧ ua ≠ ub.
Proof.
  apply (tenants_never_share_uid (core_chain false) store4 (stored "red" store4) (stored "blue" store4)).
  - apply store4_reachable.
  - apply stored_elem. vm_compute. reflexivity.
  - apply stored_elem. vm_compute. reflexivity.
  - vm_compute. discriminate.
  - vm_compute. discriminate.
  - vm_compute. discriminate.
Defined.

Lemma store_integrity_witness : refs_hold store4 (ObjApplication (stored "red" store4)).
Proof.
  apply (store_integrity (core_chain false) honest store4).
  - apply store4_reachable.
  - apply stored_elem. vm_compute. reflexivity.
Defined.

(** The boundary rests on the annotation staying out of client hands, which no plugin of
    the chain enforces: a namespace created with another namespace's block is accepted,
    and its first application then runs under the other tenant's uid. *)
Theorem claimed_block_shares_uid :
  ∃ s a b, reachable (core_chain false) (λ _ _, True) s ∧ ObjApplication a ∈ s ∧ ObjApplication b ∈ s ∧
    app_Namespace a ≠ app_Namespace b ∧ run_as_user a = run_as_user b ∧ run_as_user a ≠ None.
Proof.
  set (s1 := create (demo_ns "red" ∅) []).
  set (s2 := create (demo_ns "evil" {[UIDRangeAnnotation := "1000000000/65536"]}) s1).
  set (s3 := create (ObjApplication (demo_app "red" "web" None)) s2).
  set (s4 := create (ObjApplication (demo_app "evil" "web" None)) s3).
  exists s4, (stored "red" s4), (stored "evil" s4).
  split; [unfold s4, s3, s2, s1; do 4 created; apply reach_empty|].
  split; [apply stored_elem; vm_compute; reflexivity|].
  split; [apply stored_elem; vm_compute; reflexivity|].
  split; [vm_compute; discriminate|]. split; [vm_compute; reflexivity|vm_compute; discriminate].
Qed.

(** ** Requests served side by side

    [Store.step] reviews and writes in one step.  The service holds nothing between the two, so
    two requests may be reviewed against the same listing and both be stored. *)

(** What the store holds when [a] and [b] are both reviewed against [s] and then created. *)
Definition race (a b : Object) (s : list Object) : list Object :=
  put (at_Object (admitted s b)) (put (at_Object (admitted s a)) s).

(** Two namespaces created side by side are given the same block, and the workloads of the two
    tenants run under one uid. *)
Theorem racing_namespaces_share_uid :
  let s0 := race (demo_ns "red" ∅) (demo_ns "blue" ∅) [] in
  let s := create (ObjApplication (demo_app "blue" "web" None)) (create (ObjApplication (demo_app "red" "web" None)) s0) in
  (∀ o, o ∈ [demo_ns "red" ∅; demo_ns "blue" ∅] →
     is_ok (review (core_chain false) [] None (mkAttributes Create o None "")) = true) ∧
  ObjApplication (stored "red" s) ∈ s ∧ ObjApplication (stored "blue" s) ∈ s ∧
  run_as_user (stored "red" s) = run_as_user (stored "blue" s) ∧ run_as_user (stored "red" s) ≠ None.
Proof.
  split; [|split; [apply stored_elem; vm_compute; reflexivity|]].
  - intros o [->|[->|[]%elem_of_nil]%elem_of_cons]%elem_of_cons; vm_compute; reflexivity.
  - split; [apply stored_elem; vm_compute; reflexivity|].
    split; [vm_compute; reflexivity|vm_compute; discriminate].
Qed.

(** An application with an inline volume named [data]. *)
Definition mounting_app (name : string) : Application :=
  mkApplication (meta "red" name ∅)
    (mkAppSpec "img" ["/bin/app"] [] [] [] (mkRequirements (mkAmounts (unit_ 1) (unit_ 1)) ra_zero)
      (mkLifecycle RestartAlways None None None) (mkPlacement "" ∅ None None) None "" "" None
      [mkVolumeMount (mkVolumeSource VolumeTypePV "data" (unit_ 1) [] None None "") "/data" false ""])
    (mkAppStatus 0 "" "" "" None 0 0).

(** Two applications created side by side both pass the exclusivity rule and mount one volume
    that nothing declares shared; one after the other, the second is refused. *)
Theorem racing_mounts_share_volume :
  let a := ObjApplication (mounting_app "a") in
  let b := ObjApplication (mounting_app "b") in
  is_ok (review (core_chain false) store1 None (mkAttributes Create a None "")) = true ∧
  is_ok (review (core_chain false) store1 None (mkAttributes Create b None "")) = true ∧
  is_ok (review (core_chain false) (create a store1) None (mkAttributes Create b None "")) = false ∧
  forallb (λ x, mounts_pv x "data") (apps_of (race a b store1)) = true ∧
  app_Name <$> apps_of (race a b store1) = ["b"; "a"] ∧
  existsb (λ o, bool_decide (obj_Kind o = "PersistentVolume")) (race a b store1) = false.
Proof.
  cbv zeta. do 5 (split; [vm_compute; reflexivity|]). vm_compute. reflexivity.
Qed.

(** ** Single reviews *)
Definition red_lister : string → result error (list Object) := listing store2.

Definition red_assigned : result AdmissionError Application := assignWorkloadID red_lister (demo_app "red" "web" None).

Lemma assignWorkloadID_spec_witness :
  ∃ os id gid, red_lister "Application" = Ok os ∧
    unwrap (demo_app "red" "web" None) red_assigned =
      with_spec (with_security_context (mkSecurityContext (Some id) (Some gid))) (demo_app "red" "web" None) ∧
    Contains (mkIDRange 1000000000 65536) id = true.
Proof.
  destruct (assignWorkloadID_spec red_lister (demo_app "red" "web" None)
    (unwrap (demo_app "red" "web" None) red_assigned) (mkIDRange 1000000000 65536))
    as (os & id & gid & H1 & H2 & _ & H3 & _).
  - apply unwrap_ok. vm_compute. reflexivity.
  - vm_compute. reflexivity.
  - vm_compute. reflexivity.
  - vm_compute. reflexivity.
  - exists os, id, gid. split; [exact H1|]. split; [exact H2|exact H3].
Defined.

Definition web_request : Attributes := mkAttributes Create (ObjApplication (demo_app "red" "web" None)) None "".
Definition web_admitted : Attributes := admitted store2 (ObjApplication (demo_app "red" "web" None)).
Definition is_app (o : Object) : bool := match o with ObjApplication _ => true | _ => false end.
Definition as_app (o : Object) : Application := match o with ObjApplication a => a | _ => demo_app "" "" None end.
Lemma as_app_ok o : is_app o = true → o = ObjApplication (as_app o).
Proof. by destruct o. Qed.
Definition web_app : Application := as_app (at_Object web_admitted).

Lemma chain_no_root_witness : floor_holds web_app.
Proof.
  apply (chain_no_root (core_chain false (Some (listing store2))) None web_request web_admitted web_app).
  - unfold core_chain. do 2 right. left.
  - apply unwrap_ok. vm_compute. reflexivity.
  - vm_compute. discriminate.
  - apply as_app_ok. vm_compute. reflexivity.
Defined.

Definition client : Identity := mkIdentity "alice" [].
Definition veto_request : Attributes :=
  mkAttributes Create (map_meta (set_finalizers ["mine.example/veto"]) (ObjApplication (demo_app "red" "web" None))) None "".
Definition veto_admitted : Attributes :=
  unwrap veto_request (finalizerOwnership_Admit (Some client) veto_request).

Lemma finalizers_controlled_witness :
  "mine.example/veto" ∈ om_Finalizers (obj_meta (at_Object veto_admitted)) ↔ "mine.example/veto" ∈ stored_finalizers None.
Proof.
  refine (proj1 (finalizers_controlled client veto_request veto_admitted _ _ _) "mine.example/veto" _).
  - apply unwrap_ok. vm_compute. reflexivity.
  - discriminate.
  - reflexivity.
  - intros [E|E]; discriminate E.
Defined.

Definition all_keys : EnvSecretRef := mkEnvSecretRef "db" "*" "" None.

Lemma second_wildcard_refused_witness :
  validateExecInputs (demo_spec "" 1 None [mkEnvVar "" "" (Some all_keys); mkEnvVar "" "" (Some all_keys)]) =
  Some (FEnvDuplicate 1 "").
Proof.
  apply (second_wildcard_refused all_keys
    (demo_spec "" 1 None [mkEnvVar "" "" (Some all_keys); mkEnvVar "" "" (Some all_keys)]) "/bin/app");
    try reflexivity. discriminate.
Defined.

Definition demo_node : Node :=
  mkNode (meta "" "n1" ∅) false
    (mkNodeStatus (mkAmounts (unit_ 4) (unit_ 8)) ra_zero "" "" true 100 [] (mkPlatform "linux" "amd64") false ∅).
Definition demo_ni : NodeInfo := mkNodeInfo demo_node ra_zero [].

Lemma capacity_accepts_bind_witness :
  capacityCheck_Validate (Some (fleet [demo_app "red" "web" None] [demo_node])) None
    (mkAttributes Update (ObjApplication (bound_to "n1" (demo_app "red" "web" None))) None "") = None.
Proof.
  apply (capacity_accepts_bind [demo_app "red" "web" None] [demo_node] (demo_app "red" "web" None) demo_ni
    (tt, ∅) None None).
  - decided.
  - decided.
  - left.
  - reflexivity.
  - apply buildSnapshot_elem. exists demo_node. split; [left|]. reflexivity.
  - vm_compute. reflexivity.
Defined.

Lemma appPolicy_sound_witness : mount_shape_ok tmpfs_mount.
Proof.
  destruct (appPolicy_sound false None web_request (demo_app "red" "web" None))
    as (_ & _ & _ & _ & _ & _ & H & _).
  - vm_compute. reflexivity.
  - discriminate.
  - reflexivity.
  - reflexivity.
  - apply H. left.
Defined.
