(* ===== verification/Seccomp.v ===== *)
(** * The workload's syscall filter (sandbox/seccomp.go)

    The classic-BPF program the sandbox installs, assembled as the code assembles it
    (emission, then patching of the jumps), an interpreter of the classic-BPF subset it
    uses, and the decision it is meant to take as a reference function. *)
From stdpp Require Import gmap strings list sorting.
From Stdlib Require Import ZArith Ascii.
From S2P Require Import Prelude Syscalls.
#[local] Open Scope Z_scope.

(** ** Data *)
Record sockFilter := mkFilter { sf_code : Z; sf_jt : Z; sf_jf : Z; sf_k : Z }.

Definition bpfLdWAbs : Z := 0x20.
Definition bpfJeqK : Z := 0x15.
Definition bpfJgeK : Z := 0x35.
Definition bpfJsetK : Z := 0x45.
Definition bpfRetK : Z := 0x06.

Definition offNr : Z := 0.
Definition offArch : Z := 4.
Definition offArgs0 : Z := 16.

Definition seccompRetAllow : Z := 0x7fff0000.
Definition seccompRetErrno : Z := 0x00050000.
Definition errnoEPERM : Z := 1.
Definition errnoENOSYS : Z := 38.

Definition cloneNewNamespaces : Z :=
  Z.lor (Z.lor (Z.lor (Z.lor (Z.lor (Z.lor 0x00020000 0x02000000) 0x04000000) 0x08000000)
    0x10000000) 0x20000000) 0x40000000.

Record archFilter := mkArch {
  af_auditArch : Z;
  af_clone : Z;
  af_clone3 : Z;
  af_denied : list Z;
  af_names : gmap string Z;
  af_maxNr : Z;
}.

(** A nil policy is [None]. *)
Record SeccompPolicy := mkPolicy { pol_Deny : list string; pol_Allow : list string }.

Inductive SeccompError :=
| NoFilterTable (goarch : string)
| EmptySyscallName
| FilteredByFlags (name : string)
| UnknownSyscall (entry : string)
| TooManyDenied (n : nat)
(** The panic of [jumpTo]. *)
| JumpOutOfRange (from to : Z).


Definition deniedAMD64 : list Z :=
  [101; 103; 135; 153; 155; 161; 163; 164; 165; 166; 167; 168; 169; 170; 171; 172; 173; 175; 176;
   179; 212; 227; 237; 238; 239; 246; 248; 249; 250; 272; 279; 298; 300; 304; 308; 310; 311; 312;
   313; 320; 321; 323; 425; 426; 427; 428; 429; 430; 431; 432; 433; 438; 440; 442; 443; 450].

Definition deniedARM64 : list Z :=
  [18; 39; 40; 41; 51; 58; 60; 89; 92; 97; 104; 105; 106; 112; 116; 117; 142; 161; 162; 170; 217;
   218; 219; 224; 225; 235; 236; 237; 239; 241; 262; 265; 268; 270; 271; 272; 273; 280; 282; 294;
   425; 426; 427; 428; 429; 430; 431; 432; 433; 438; 440; 442; 443; 450].

(** [archFilters]. *)
Definition archFilters (goarch : string) : option archFilter :=
  if bool_decide (goarch = "amd64")
  then Some (mkArch 0xC000003E 56 435 deniedAMD64 syscallsAMD64 syscallsAMD64Max)
  else if bool_decide (goarch = "arm64")
  then Some (mkArch 0xC00000B7 220 435 deniedARM64 syscallsARM64 syscallsARM64Max)
  else None.

(** ** Policies *)

(** [strconv.ParseUint name 10 32]. *)
Definition ParseUint32 (s : string) : option Z :=
  match GoStrings.parse_unsigned s with
  | Some z => if bool_decide (z < 2 ^ 32) then Some z else None
  | None => None
  end.

Definition syscallNumber (a : archFilter) (entry : string) : result SeccompError Z :=
  let name := GoStrings.TrimSpace entry in
  if bool_decide (name = "") then Err EmptySyscallName
  else if bool_decide (name = "clone") || bool_decide (name = "clone3") then Err (FilteredByFlags name)
  else match ParseUint32 name with
       | Some nr => Ok nr
       | None => match af_names a !! name with
                 | Some nr => Ok nr
                 | None => Err (UnknownSyscall entry)
                 end
       end.

Definition maxDenied : nat := 250.

(** One loop over a policy list: every entry resolved and folded into the set. *)
Fixpoint resolve_into (a : archFilter) (add : Z → gset Z → gset Z) (names : list string) (s : gset Z)
    : result SeccompError (gset Z) :=
  match names with
  | [] => Ok s
  | name :: names' => let* nr := syscallNumber a name in resolve_into a add names' (add nr s)
  end.

Definition applyPolicy (p : option SeccompPolicy) (a : archFilter) : result SeccompError (list Z) :=
  match p with
  | None => Ok (af_denied a)
  | Some p =>
      if (length (pol_Deny p) =? 0)%nat && (length (pol_Allow p) =? 0)%nat then Ok (af_denied a)
      else
        let* s1 := resolve_into a (λ nr s, {[nr]} ∪ s) (pol_Deny p) (list_to_set (af_denied a)) in
        let* s2 := resolve_into a (λ nr s, s ∖ {[nr]}) (pol_Allow p) s1 in
        if (maxDenied <? size s2)%nat then Err (TooManyDenied (size s2))
        else Ok (merge_sort Z.le (elements s2))
  end.

(** ** Assembly *)
Definition jumpTo (from to : nat) : result SeccompError Z :=
  let d := Z.of_nat to - Z.of_nat from - 1 in
  if (d <? 0) || (255 <? d) then Err (JumpOutOfRange (Z.of_nat from) (Z.of_nat to)) else Ok d.

Definition stmt (code k : Z) : sockFilter := mkFilter code 0 0 k.

Definition set_jump (on_true : bool) (d : Z) (i : sockFilter) : sockFilter :=
  if on_true then mkFilter (sf_code i) d (sf_jf i) (sf_k i)
  else mkFilter (sf_code i) (sf_jt i) d (sf_k i).

(** The patches, in order: instruction, which branch, target. *)
Fixpoint link (ps : list (nat * bool * nat)) (f : list sockFilter) : result SeccompError (list sockFilter) :=
  match ps with
  | [] => Ok f
  | (i, on_true, to) :: ps' => let* d := jumpTo i to in link ps' (alter (set_jump on_true d) i f)
  end.

(** The emitted program, jumps unresolved. *)
Definition emit (a : archFilter) (denied : list Z) : list sockFilter :=
  [stmt bpfLdWAbs offArch; stmt bpfJeqK (af_auditArch a);
   stmt bpfLdWAbs offNr; stmt bpfJgeK ((af_maxNr a + 1) mod 2 ^ 32);
   stmt bpfJeqK (af_clone a); stmt bpfJeqK (af_clone3 a)] ++
  (stmt bpfJeqK <$> denied) ++
  [stmt bpfRetK seccompRetAllow;
   stmt bpfRetK (Z.lor seccompRetErrno errnoEPERM);
   stmt bpfRetK (Z.lor seccompRetErrno errnoENOSYS);
   stmt bpfLdWAbs offArgs0; stmt bpfJsetK cloneNewNamespaces;
   stmt bpfRetK seccompRetAllow;
   stmt bpfRetK (Z.lor seccompRetErrno errnoEPERM)].

Definition assemble (a : archFilter) (denied : list Z) : result SeccompError (list sockFilter) :=
  let n := length denied in
  let archIdx := 1%nat in
  let ceilIdx := 3%nat in
  let cloneIdx := 4%nat in
  let clone3Idx := 5%nat in
  let deniedIdx := seq 6 n in
  let denyIdx := (7 + n)%nat in
  let enosysIdx := (8 + n)%nat in
  let cloneCheckIdx := (9 + n)%nat in
  let cloneFlagIdx := (10 + n)%nat in
  let cloneDenyIdx := (12 + n)%nat in
  link ([(archIdx, false, denyIdx); (ceilIdx, true, denyIdx);
         (cloneIdx, true, cloneCheckIdx); (clone3Idx, true, enosysIdx)] ++
        ((λ i, (i, true, denyIdx)) <$> deniedIdx) ++
        [(cloneFlagIdx, true, cloneDenyIdx)])
       (emit a denied).

(** [seccompProgram]. *)
Definition seccompProgram (goarch : string) (policy : option SeccompPolicy)
    : result SeccompError (list sockFilter) :=
  match archFilters goarch with
  | None => Err (NoFilterTable goarch)
  | Some a => let* denied := applyPolicy policy a in assemble a denied
  end.

(** ** Classic BPF, as seccomp runs it *)

(** struct seccomp_data. *)
Record seccomp_data := mkData { sd_nr : Z; sd_arch : Z; sd_ip : Z; sd_args : list Z }.

Definition word (lo : bool) (v : Z) : Z := if lo then v mod 2 ^ 32 else (v / 2 ^ 32) mod 2 ^ 32.

(** A 32-bit load at a byte offset of the (little-endian) structure. *)
Definition load (d : seccomp_data) (off : Z) : option Z :=
  if off =? 0 then Some (sd_nr d)
  else if off =? 4 then Some (sd_arch d)
  else if off =? 8 then Some (word true (sd_ip d))
  else if off =? 12 then Some (word false (sd_ip d))
  else if (16 <=? off) && (off mod 4 =? 0)
  then word (off mod 8 =? 0) <$> sd_args d !! Z.to_nat ((off - 16) / 8)
  else None.

(** One instruction: a verdict, or the next accumulator and program counter. *)
Definition bpf_step (i : sockFilter) (d : seccomp_data) (acc : Z) (pc : nat) : option (Z + Z * nat) :=
  let branch (c : bool) := Some (inr (acc, (S pc + Z.to_nat (if c then sf_jt i else sf_jf i))%nat)) in
  if sf_code i =? bpfLdWAbs then (λ v, inr (v, S pc)) <$> load d (sf_k i)
  else if sf_code i =? bpfJeqK then branch (acc =? sf_k i)
  else if sf_code i =? bpfJgeK then branch (sf_k i <=? acc)
  else if sf_code i =? bpfJsetK then branch (negb (Z.land acc (sf_k i) =? 0))
  else if sf_code i =? bpfRetK then Some (inl (sf_k i))
  else None.

Fixpoint run (fuel : nat) (prog : list sockFilter) (d : seccomp_data) (acc : Z) (pc : nat) : option Z :=
  match fuel with
  | O => None
  | S fuel' =>
      match prog !! pc with
      | None => None
      | Some i => match bpf_step i d acc pc with
                  | Some (inl v) => Some v
                  | Some (inr (acc', pc')) => run fuel' prog d acc' pc'
                  | None => None
                  end
      end
  end.

(** The kernel's verdict: jumps are forward, so the program's length bounds its steps. *)
Definition verdict (prog : list sockFilter) (d : seccomp_data) : option Z := run (length prog) prog d 0 0.

(** ** The intended decision *)
Inductive Action := Allow | Errno (e : Z).

Definition action_value (a : Action) : Z :=
  match a with Allow => seccompRetAllow | Errno e => Z.lor seccompRetErrno e end.

Definition decision (a : archFilter) (denied : list Z) (d : seccomp_data) : Action :=
  if negb (sd_arch d =? af_auditArch a) then Errno errnoEPERM
  else if af_maxNr a <? sd_nr d then Errno errnoEPERM
  else if sd_nr d =? af_clone a then
    if Z.land (word true (default 0 (sd_args d !! 0%nat))) cloneNewNamespaces =? 0
    then Allow else Errno errnoEPERM
  else if sd_nr d =? af_clone3 a then Errno errnoENOSYS
  else if bool_decide (sd_nr d ∈ denied) then Errno errnoEPERM
  else Allow.

(** ** Linking *)
Section Facts.
Implicit Types (ps : list (nat * bool * nat)) (f : list sockFilter).

Definition in_reach (p : nat * bool * nat) : Prop :=
  let '(i, _, to) := p in (i < to)%nat ∧ Z.of_nat to - Z.of_nat i - 1 ≤ 255.

Lemma jumpTo_ok i to : (i < to)%nat → Z.of_nat to - Z.of_nat i - 1 ≤ 255 →
  jumpTo i to = Ok (Z.of_nat to - Z.of_nat i - 1).
Proof.
  intros H1 H2. unfold jumpTo. rewrite (proj2 (Z.ltb_ge _ 0)) by lia.
  by rewrite (proj2 (Z.ltb_ge 255 _)).
Qed.

Lemma link_ok ps f :
  Forall in_reach ps → NoDup (ps.*1.*1) →
  ∃ f', link ps f = Ok f' ∧ length f' = length f ∧
    (∀ i b to, (i, b, to) ∈ ps → f' !! i = set_jump b (Z.of_nat to - Z.of_nat i - 1) <$> f !! i) ∧
    (∀ k, k ∉ ps.*1.*1 → f' !! k = f !! k).
Proof.
  revert f. induction ps as [|[[i b] to] ps IH]; intros f Hr Hnd; simpl.
  { exists f. split_and!; [done..| |done]. by intros i b to ?%elem_of_nil. }
  apply Forall_cons in Hr as [[Hlt Hd] Hr]. apply NoDup_cons in Hnd as [Hni Hnd].
  rewrite jumpTo_ok by done.
  destruct (IH (alter (set_jump b (Z.of_nat to - Z.of_nat i - 1)) i f) Hr Hnd) as (f' & -> & Hlen & Hin & Hout).
  exists f'. rewrite length_alter in Hlen. split_and!; [done..| |].
  - intros j b' to' [?|Hj]%elem_of_cons; [simplify_eq|].
    + rewrite Hout by done. by rewrite list_lookup_alter_eq.
    + rewrite (Hin j b' to' Hj), list_lookup_alter_ne; [done|]. intros ->. apply Hni.
      apply list_elem_of_fmap. exists (j, b'). split; [done|]. apply list_elem_of_fmap. by exists (j, b', to').
  - intros k [Hk Hks]%not_elem_of_cons. rewrite Hout by done. by rewrite list_lookup_alter_ne.
Qed.

(** ** The layout of a linked program *)
Record laid_out (a : archFilter) (denied : list Z) (f : list sockFilter) : Prop := {
  lo_length : length f = (13 + length denied)%nat;
  lo_0 : f !! 0%nat = Some (stmt bpfLdWAbs offArch);
  lo_1 : f !! 1%nat = Some (mkFilter bpfJeqK 0 (5 + Z.of_nat (length denied)) (af_auditArch a));
  lo_2 : f !! 2%nat = Some (stmt bpfLdWAbs offNr);
  lo_3 : f !! 3%nat = Some (mkFilter bpfJgeK (3 + Z.of_nat (length denied)) 0 ((af_maxNr a + 1) mod 2 ^ 32));
  lo_4 : f !! 4%nat = Some (mkFilter bpfJeqK (4 + Z.of_nat (length denied)) 0 (af_clone a));
  lo_5 : f !! 5%nat = Some (mkFilter bpfJeqK (2 + Z.of_nat (length denied)) 0 (af_clone3 a));
  lo_denied i nr : denied !! i = Some nr →
    f !! (6 + i)%nat = Some (mkFilter bpfJeqK (Z.of_nat (length denied) - Z.of_nat i) 0 nr);
  lo_allow : f !! (6 + length denied)%nat = Some (stmt bpfRetK seccompRetAllow);
  lo_deny : f !! (7 + length denied)%nat = Some (stmt bpfRetK (Z.lor seccompRetErrno errnoEPERM));
  lo_enosys : f !! (8 + length denied)%nat = Some (stmt bpfRetK (Z.lor seccompRetErrno errnoENOSYS));
  lo_args : f !! (9 + length denied)%nat = Some (stmt bpfLdWAbs offArgs0);
  lo_jset : f !! (10 + length denied)%nat = Some (mkFilter bpfJsetK 1 0 cloneNewNamespaces);
  lo_callow : f !! (11 + length denied)%nat = Some (stmt bpfRetK seccompRetAllow);
  lo_cdeny : f !! (12 + length denied)%nat = Some (stmt bpfRetK (Z.lor seccompRetErrno errnoEPERM));
}.

(** Looking up the emitted program, by position. *)
Lemma emit_denied a denied i nr :
  denied !! i = Some nr → emit a denied !! (6 + i)%nat = Some (stmt bpfJeqK nr).
Proof.
  intros Hi. unfold emit. rewrite lookup_app_r by (simpl; lia). simpl length.
  replace (6 + i - 6)%nat with i by lia. rewrite lookup_app_l.
  - by rewrite list_lookup_fmap, Hi.
  - rewrite length_fmap. by eapply lookup_lt_Some.
Qed.

Lemma emit_tail a denied i :
  emit a denied !! (6 + length denied + i)%nat =
  [stmt bpfRetK seccompRetAllow; stmt bpfRetK (Z.lor seccompRetErrno errnoEPERM);
   stmt bpfRetK (Z.lor seccompRetErrno errnoENOSYS); stmt bpfLdWAbs offArgs0;
   stmt bpfJsetK cloneNewNamespaces; stmt bpfRetK seccompRetAllow;
   stmt bpfRetK (Z.lor seccompRetErrno errnoEPERM)] !! i.
Proof.
  unfold emit. rewrite lookup_app_r by (simpl; lia). rewrite lookup_app_r by (rewrite length_fmap; simpl; lia).
  rewrite length_fmap. simpl length. f_equal. lia.
Qed.

Lemma patches_reach n :
  (n ≤ 250)%nat →
  Forall in_reach ([(1%nat, false, (7 + n)%nat); (3%nat, true, (7 + n)%nat);
    (4%nat, true, (9 + n)%nat); (5%nat, true, (8 + n)%nat)] ++
    ((λ i, (i, true, (7 + n)%nat)) <$> seq 6 n) ++ [((10 + n)%nat, true, (12 + n)%nat)]).
Proof.
  intros Hn. rewrite !Forall_app. split_and!.
  - repeat (apply Forall_cons_2; [simpl; lia|]). apply Forall_nil_2.
  - apply Forall_fmap, Forall_forall. intros i Hi%elem_of_seq. simpl. lia.
  - apply Forall_singleton. simpl. lia.
Qed.

Lemma patches_nodup n (t1 t2 t3 t4 t5 t6 : nat) :
  NoDup (([(1%nat, false, t1); (3%nat, true, t2); (4%nat, true, t3); (5%nat, true, t4)] ++
    ((λ i, (i, true, t5)) <$> seq 6 n) ++ [((10 + n)%nat, true, t6)]).*1.*1).
Proof.
  rewrite !fmap_app. rewrite <-!list_fmap_compose. rewrite (list_fmap_ext _ id (seq 6 n)) by done.
  rewrite list_fmap_id. cbn [fmap list_fmap].
  assert (∀ x, x ∈ [1; 3; 4; 5]%nat → x < 6)%nat as Hsm.
  { intros x Hx. repeat (apply elem_of_cons in Hx as [->|Hx]; [lia|]). by apply elem_of_nil in Hx. }
  apply NoDup_app. split_and!.
  - apply (bool_decide_eq_true_1 _). reflexivity.
  - intros x Hx. apply Hsm in Hx. rewrite elem_of_app, list_elem_of_singleton, elem_of_seq. simpl. lia.
  - apply NoDup_app. split_and!; [apply NoDup_seq| |apply NoDup_singleton].
    intros x Hx%elem_of_seq. rewrite list_elem_of_singleton. simpl. lia.
Qed.

Lemma assemble_ok a denied :
  (length denied ≤ maxDenied)%nat → ∃ f, assemble a denied = Ok f ∧ laid_out a denied f.
Proof.
  unfold maxDenied. intros Hn. unfold assemble. cbv zeta. set (n := length denied) in *.
  destruct (link_ok _ (emit a denied) (patches_reach n Hn) (patches_nodup n _ _ _ _ _ _))
    as (f & -> & Hlen & Hin & Hout). exists f. split; [done|].
  assert (∀ k, (k = 0 ∨ k = 2 ∨ 6 + n ≤ k ∧ k ≠ 10 + n)%nat → f !! k = emit a denied !! k) as Hkeep.
  { intros k Hk. apply Hout. rewrite !fmap_app. rewrite <-!list_fmap_compose.
    rewrite (list_fmap_ext _ id (seq 6 n)), list_fmap_id by done.
    rewrite !elem_of_app. simpl. rewrite elem_of_seq, !elem_of_cons. intros H.
    rewrite elem_of_nil in H. lia. }
  assert (∀ i b to, (i, b, to) ∈ [(1%nat, false, (7 + n)%nat); (3%nat, true, (7 + n)%nat);
    (4%nat, true, (9 + n)%nat); (5%nat, true, (8 + n)%nat)] →
    f !! i = set_jump b (Z.of_nat to - Z.of_nat i - 1) <$> emit a denied !! i) as Hhead.
  { intros i b to H. apply Hin, elem_of_app. by left. }
  assert (∀ i, f !! (6 + n + i)%nat = emit a denied !! (6 + n + i)%nat ∨ i = 4%nat) as Htail.
  { intros i. destruct (decide (i = 4%nat)); [by right|left]. apply Hkeep. lia. }
  assert (∀ i k v, k = (6 + n + i)%nat → i ≠ 4%nat → [stmt bpfRetK seccompRetAllow; stmt bpfRetK (Z.lor seccompRetErrno errnoEPERM);
     stmt bpfRetK (Z.lor seccompRetErrno errnoENOSYS); stmt bpfLdWAbs offArgs0;
     stmt bpfJsetK cloneNewNamespaces; stmt bpfRetK seccompRetAllow;
     stmt bpfRetK (Z.lor seccompRetErrno errnoEPERM)] !! i = Some v → f !! k = Some v) as Ht.
  { intros i k v -> Hi Hv. destruct (Htail i) as [->| ->]; [|done]. exact (eq_trans (emit_tail a denied i) Hv). }
  split.
  - rewrite Hlen. unfold emit. rewrite !length_app, length_fmap. simpl. fold n. lia.
  - by rewrite Hkeep by lia.
  - rewrite (Hhead 1%nat false (7 + n)%nat) by left. simpl. do 2 f_equal. lia.
  - by rewrite Hkeep by lia.
  - rewrite (Hhead 3%nat true (7 + n)%nat) by (right; left). simpl. do 2 f_equal. lia.
  - rewrite (Hhead 4%nat true (9 + n)%nat) by (do 2 right; left). simpl. do 2 f_equal. lia.
  - rewrite (Hhead 5%nat true (8 + n)%nat) by (do 3 right; left). simpl. do 2 f_equal. lia.
  - intros i nr Hi. rewrite (Hin (6 + i)%nat true (7 + n)%nat).
    + rewrite (emit_denied a denied i nr Hi). unfold set_jump, stmt. simpl. do 2 f_equal. fold n. lia.
    + apply elem_of_app. right. apply elem_of_app. left. apply list_elem_of_fmap. exists (6 + i)%nat.
      split; [done|]. apply elem_of_seq. apply lookup_lt_Some in Hi. fold n in Hi. lia.
  - apply (Ht 0%nat); [fold n; lia|done|done].
  - apply (Ht 1%nat); [fold n; lia|done|done].
  - apply (Ht 2%nat); [fold n; lia|done|done].
  - apply (Ht 3%nat); [fold n; lia|done|done].
  - assert (f !! (10 + n)%nat = set_jump true 1 <$> emit a denied !! (6 + length denied + 4)%nat) as H.
    { rewrite (Hin (10 + n)%nat true (12 + n)%nat).
      - f_equal; [f_equal; lia|f_equal; fold n; lia].
      - apply elem_of_app. right. apply elem_of_app. right. left. }
    rewrite emit_tail in H. exact H.
  - apply (Ht 5%nat); [fold n; lia|done|done].
  - apply (Ht 6%nat); [fold n; lia|done|done].
Qed.

(** ** Running it *)
Lemma run_ld k f d acc pc off v :
  f !! pc = Some (stmt bpfLdWAbs off) → load d off = Some v → run (S k) f d acc pc = run k f d v (S pc).
Proof. intros Hf Hl. simpl. rewrite Hf. unfold bpf_step. simpl. by rewrite Hl. Qed.

Lemma run_jeq k f d acc pc jt jf x :
  f !! pc = Some (mkFilter bpfJeqK jt jf x) →
  run (S k) f d acc pc = run k f d acc (S pc + Z.to_nat (if (acc =? x)%Z then jt else jf))%nat.
Proof. intros Hf. simpl. by rewrite Hf. Qed.

Lemma run_jge k f d acc pc jt jf x :
  f !! pc = Some (mkFilter bpfJgeK jt jf x) →
  run (S k) f d acc pc = run k f d acc (S pc + Z.to_nat (if (x <=? acc)%Z then jt else jf))%nat.
Proof. intros Hf. simpl. by rewrite Hf. Qed.

Lemma run_jset k f d acc pc jt jf x :
  f !! pc = Some (mkFilter bpfJsetK jt jf x) →
  run (S k) f d acc pc =
  run k f d acc (S pc + Z.to_nat (if negb (Z.land acc x =? 0)%Z then jt else jf))%nat.
Proof. intros Hf. simpl. by rewrite Hf. Qed.

Lemma run_ret k f d acc pc v : f !! pc = Some (stmt bpfRetK v) → run (S k) f d acc pc = Some v.
Proof. intros Hf. simpl. by rewrite Hf. Qed.

(** The comparisons with the denied numbers, from the [i]-th on. *)
Lemma run_denied a denied f d nr i k :
  laid_out a denied f → (i ≤ length denied)%nat → (length denied - i + 1 < k)%nat →
  run k f d nr (6 + i) =
  Some (action_value (if bool_decide (nr ∈ drop i denied) then Errno errnoEPERM else Allow)).
Proof.
  intros Hlo. remember (length denied - i)%nat as m eqn:Em. revert i k Em.
  induction m as [|m IH]; intros i k Em Hi Hk; (destruct k as [|k]; [lia|]).
  - assert (i = length denied) as -> by lia. rewrite drop_all, bool_decide_eq_false_2 by apply not_elem_of_nil.
    by rewrite (run_ret _ _ _ _ _ _ (lo_allow _ _ _ Hlo)).
  - destruct (lookup_lt_is_Some_2 denied i) as [x Hx]; [lia|].
    rewrite (run_jeq _ _ _ _ _ _ _ _ (lo_denied _ _ _ Hlo i x Hx)).
    rewrite (drop_S _ _ _ Hx). destruct (Z.eqb_spec nr x) as [->|Hne].
    + rewrite bool_decide_eq_true_2 by left. destruct k as [|k]; [lia|].
      replace (S (6 + i) + Z.to_nat (Z.of_nat (length denied) - Z.of_nat i))%nat
        with (7 + length denied)%nat by lia.
      by rewrite (run_ret _ _ _ _ _ _ (lo_deny _ _ _ Hlo)).
    + replace (S (6 + i) + Z.to_nat 0)%nat with (6 + S i)%nat by lia. rewrite IH by lia.
      rewrite (bool_decide_ext (nr ∈ x :: drop (S i) denied) (nr ∈ drop (S i) denied)); [done|].
      rewrite elem_of_cons. naive_solver.
Qed.

(** A syscall as the kernel describes it. *)
Definition valid_data (d : seccomp_data) : Prop := 0 ≤ sd_nr d < 2 ^ 32 ∧ length (sd_args d) = 6%nat.

Lemma run_clone a denied f d k acc :
  laid_out a denied f → valid_data d →
  run (3 + k) f d acc (9 + length denied) =
  Some (action_value (if Z.land (word true (default 0 (sd_args d !! 0%nat))) cloneNewNamespaces =? 0
                      then Allow else Errno errnoEPERM)).
Proof.
  intros Hlo [_ Hargs]. destruct (lookup_lt_is_Some_2 (sd_args d) 0) as [v Hv]; [lia|].
  assert (load d offArgs0 = Some (word true v)) as Hl.
  { transitivity (word true <$> sd_args d !! 0%nat); [reflexivity|by rewrite Hv]. }
  rewrite Hv. change (3 + k)%nat with (S (S (S k))).
  rewrite (run_ld _ _ _ _ _ _ _ (lo_args _ _ _ Hlo) Hl).
  rewrite (run_jset _ _ _ _ (S (9 + length denied)) _ _ _ (lo_jset _ _ _ Hlo)). simpl default.
  destruct (Z.land (word true v) cloneNewNamespaces =? 0); simpl negb; cbv iota.
  - replace (S (S (9 + length denied)) + Z.to_nat 0)%nat with (11 + length denied)%nat by lia.
    by rewrite (run_ret _ _ _ _ _ _ (lo_callow _ _ _ Hlo)).
  - replace (S (S (9 + length denied)) + Z.to_nat 1)%nat with (12 + length denied)%nat by lia.
    by rewrite (run_ret _ _ _ _ _ _ (lo_cdeny _ _ _ Hlo)).
Qed.

Lemma laid_out_verdict a denied f d :
  laid_out a denied f → valid_data d → 0 ≤ af_maxNr a < 2 ^ 32 - 1 →
  verdict f d = Some (action_value (decision a denied d)).
Proof.
  intros Hlo Hd Hmax. pose proof Hd as [Hnr _]. unfold verdict. rewrite (lo_length _ _ _ Hlo).
  change (13 + length denied)%nat with (S (S (S (S (S (S (7 + length denied))))))).
  assert (∀ k acc, (0 < k)%nat → run k f d acc (7 + length denied) = Some (action_value (Errno errnoEPERM))) as Hdeny.
  { intros [|k] acc Hk; [lia|]. by rewrite (run_ret _ _ _ _ _ _ (lo_deny _ _ _ Hlo)). }
  unfold decision.
  rewrite (run_ld _ _ _ _ _ _ (sd_arch d) (lo_0 _ _ _ Hlo)) by done.
  rewrite (run_jeq _ _ _ _ _ _ _ _ (lo_1 _ _ _ Hlo)).
  destruct (Z.eqb_spec (sd_arch d) (af_auditArch a)); cbn [negb].
  2:{ replace (S 1 + Z.to_nat (5 + Z.of_nat (length denied)))%nat with (7 + length denied)%nat by lia.
      apply Hdeny. lia. }
  change (S 1 + Z.to_nat 0)%nat with 2%nat.
  rewrite (run_ld _ _ _ _ _ _ (sd_nr d) (lo_2 _ _ _ Hlo)) by done.
  rewrite (run_jge _ _ _ _ _ _ _ _ (lo_3 _ _ _ Hlo)). rewrite (Z.mod_small (af_maxNr a + 1)) by lia.
  destruct (Z.leb_spec (af_maxNr a + 1) (sd_nr d)).
  { rewrite (proj2 (Z.ltb_lt _ _)) by lia.
    replace (S 3 + Z.to_nat (3 + Z.of_nat (length denied)))%nat with (7 + length denied)%nat by lia.
    apply Hdeny. lia. }
  rewrite (proj2 (Z.ltb_ge _ _)) by lia. change (S 3 + Z.to_nat 0)%nat with 4%nat.
  rewrite (run_jeq _ _ _ _ _ _ _ _ (lo_4 _ _ _ Hlo)).
  destruct (Z.eqb_spec (sd_nr d) (af_clone a)).
  { replace (S 4 + Z.to_nat (4 + Z.of_nat (length denied)))%nat with (9 + length denied)%nat by lia.
    change (S (7 + length denied))%nat with (3 + (5 + length denied))%nat. by apply (run_clone a). }
  change (S 4 + Z.to_nat 0)%nat with 5%nat.
  rewrite (run_jeq _ _ _ _ _ _ _ _ (lo_5 _ _ _ Hlo)).
  destruct (Z.eqb_spec (sd_nr d) (af_clone3 a)).
  { replace (S 5 + Z.to_nat (2 + Z.of_nat (length denied)))%nat with (8 + length denied)%nat by lia.
    change (7 + length denied)%nat with (S (6 + length denied)).
    by rewrite (run_ret _ _ _ _ _ _ (lo_enosys _ _ _ Hlo)). }
  change (S 5 + Z.to_nat 0)%nat with (6 + 0)%nat. rewrite (run_denied a denied) by (done || lia). done.
Qed.
End Facts.
