(* ===== verification/SeccompTheorems.v ===== *)
(** * The syscall filter's theorems: policy semantics, totality, refinement *)
From stdpp Require Import gmap strings list sorting.
From Stdlib Require Import ZArith Ascii.
From S2P Require Import Prelude Syscalls Seccomp.
#[local] Open Scope Z_scope.

Section Policy.
Implicit Types (a : archFilter) (s : gset Z).

(** [name] is an entry of [names] that denotes [nr]. *)
Definition names_syscall a (names : list string) (nr : Z) : Prop :=
  ∃ name, name ∈ names ∧ syscallNumber a name = Ok nr.

Lemma names_syscall_cons a name names nr0 nr :
  syscallNumber a name = Ok nr0 →
  names_syscall a (name :: names) nr ↔ nr = nr0 ∨ names_syscall a names nr.
Proof.
  intros E. unfold names_syscall. split.
  - intros (n & [->|Hn]%elem_of_cons & Hnr); [left; congruence|right; eauto].
  - intros [->|(n & Hn & Hnr)]; [exists name; split; [left|done]|exists n; split; [by right|done]].
Qed.

Lemma resolve_add a names s s' :
  resolve_into a (λ nr s, {[nr]} ∪ s) names s = Ok s' →
  ∀ nr, nr ∈ s' ↔ nr ∈ s ∨ names_syscall a names nr.
Proof.
  revert s. induction names as [|name names IH]; intros s; simpl.
  - intros [= <-] nr. split; [by left|]. intros [?|(n & ?%elem_of_nil & _)]; done.
  - destruct (syscallNumber a name) as [nr0|] eqn:E; [|done]. intros Hs nr.
    rewrite (IH _ Hs), (names_syscall_cons _ _ _ _ _ E), elem_of_union, elem_of_singleton. tauto.
Qed.

Lemma resolve_remove a names s s' :
  resolve_into a (λ nr s, s ∖ {[nr]}) names s = Ok s' →
  ∀ nr, nr ∈ s' ↔ nr ∈ s ∧ ¬ names_syscall a names nr.
Proof.
  revert s. induction names as [|name names IH]; intros s; simpl.
  - intros [= <-] nr. split; [intros; split; [done|]; by intros (n & ?%elem_of_nil & _)|tauto].
  - destruct (syscallNumber a name) as [nr0|] eqn:E; [|done]. intros Hs nr.
    rewrite (IH _ Hs), (names_syscall_cons _ _ _ _ _ E), elem_of_difference, elem_of_singleton. tauto.
Qed.

Lemma syscallNumber_no_jump a name i j : syscallNumber a name ≠ Err (JumpOutOfRange i j).
Proof.
  unfold syscallNumber. case_bool_decide; [done|]. destruct (_ || _); [done|].
  destruct (ParseUint32 _); [done|]. by destruct (af_names a !! _).
Qed.

Lemma resolve_no_jump a add names s i j : resolve_into a add names s ≠ Err (JumpOutOfRange i j).
Proof.
  revert s. induction names as [|name names IH]; intros s; simpl; [done|].
  pose proof (syscallNumber_no_jump a name i j) as H.
  destruct (syscallNumber a name); [apply IH|congruence].
Qed.

Lemma applyPolicy_no_jump p a i j : applyPolicy p a ≠ Err (JumpOutOfRange i j).
Proof.
  unfold applyPolicy. destruct p as [p|]; [|done]. destruct (_ && _); [done|].
  pose proof (resolve_no_jump a (λ nr s, {[nr]} ∪ s) (pol_Deny p) (list_to_set (af_denied a)) i j).
  destruct (resolve_into _ _ _ _) as [s1|]; [|congruence].
  pose proof (resolve_no_jump a (λ nr s, s ∖ {[nr]}) (pol_Allow p) s1 i j).
  destruct (resolve_into _ _ _ _); [|congruence]. by destruct (_ <? _)%nat.
Qed.

Lemma applyPolicy_length p a denied :
  applyPolicy p a = Ok denied → (length (af_denied a) ≤ maxDenied)%nat → (length denied ≤ maxDenied)%nat.
Proof.
  unfold applyPolicy. destruct p as [p|]; [|by intros [= <-]].
  destruct (_ && _); [by intros [= <-]|].
  destruct (resolve_into _ _ _ _) as [s1|]; [|done].
  destruct (resolve_into _ _ _ _) as [s2|]; [|done].
  destruct (Nat.ltb_spec maxDenied (size s2)); [done|]. intros [= <-] _.
  rewrite (merge_sort_Permutation Z.le (elements s2)). done.
Qed.

(** What a policy means: the installed denylist is the architecture's, plus every
    syscall Deny names, minus every syscall Allow names - so a syscall named in both is
    allowed, whatever the order and repetitions. *)
Theorem applyPolicy_spec p a denied nr :
  applyPolicy (Some p) a = Ok denied →
  nr ∈ denied ↔
  (nr ∈ af_denied a ∨ names_syscall a (pol_Deny p) nr) ∧ ¬ names_syscall a (pol_Allow p) nr.
Proof.
  unfold applyPolicy. destruct p as [deny allow]. simpl.
  destruct (_ && _) eqn:E.
  - apply andb_true_iff in E as [H1%Nat.eqb_eq H2%Nat.eqb_eq].
    apply length_zero_iff_nil in H1 as ->, H2 as ->. intros [= <-].
    assert (¬ names_syscall a [] nr) by (by intros (n & ?%elem_of_nil & _)). tauto.
  - destruct (resolve_into _ _ deny _) as [s1|] eqn:E1; [|done].
    destruct (resolve_into _ _ allow _) as [s2|] eqn:E2; [|done].
    destruct (_ <? _)%nat; [done|]. intros [= <-].
    rewrite (merge_sort_Permutation Z.le (elements s2)), elem_of_elements.
    rewrite (resolve_remove _ _ _ _ E2), (resolve_add _ _ _ _ E1), elem_of_list_to_set. done.
Qed.
End Policy.

Lemma table_bounds goarch a :
  archFilters goarch = Some a → (length (af_denied a) ≤ maxDenied)%nat ∧ 0 ≤ af_maxNr a < 2 ^ 32 - 1.
Proof.
  unfold archFilters. case_bool_decide; [|case_bool_decide; [|done]]; intros [= <-];
    (split; [apply Nat.leb_le; reflexivity|vm_compute; split; done]).
Qed.

(** Assembling never panics and never installs a truncated jump: for every policy the
    result is a program, the policy's own error or the refusal of an unknown
    architecture; no jump is ever out of the 8-bit range. *)
Theorem seccompProgram_total goarch policy :
  (archFilters goarch = None ∧ seccompProgram goarch policy = Err (NoFilterTable goarch)) ∨
  ∃ a, archFilters goarch = Some a ∧
    ((∃ e, applyPolicy policy a = Err e ∧ seccompProgram goarch policy = Err e ∧ ∀ i j, e ≠ JumpOutOfRange i j) ∨
     (∃ denied prog, applyPolicy policy a = Ok denied ∧ seccompProgram goarch policy = Ok prog ∧
        length prog = (13 + length denied)%nat)).
Proof.
  unfold seccompProgram. destruct (archFilters goarch) as [a|] eqn:Ea; [right; exists a; split; [done|]|by left].
  destruct (applyPolicy policy a) as [denied|e] eqn:Ep.
  - right. apply table_bounds in Ea as [Hlen _].
    destruct (assemble_ok a denied (applyPolicy_length _ _ _ Ep Hlen)) as (prog & Hp & Hlo).
    exists denied, prog. split_and!; [done..|]. by apply (lo_length a denied).
  - left. exists e. split_and!; [done..|]. intros i j ->. by apply applyPolicy_no_jump in Ep.
Qed.

(** C6: the installed program decides every system call as specified: a foreign ABI or a
    number above the table is refused, clone is allowed unless it asks for a namespace,
    clone3 reads as not implemented, a denied number is refused and the rest is allowed;
    and it always reaches a verdict within its own length. *)
Theorem seccomp_refines goarch policy prog d :
  seccompProgram goarch policy = Ok prog → valid_data d →
  ∃ a denied, archFilters goarch = Some a ∧ applyPolicy policy a = Ok denied ∧
    verdict prog d = Some (action_value (decision a denied d)).
Proof.
  unfold seccompProgram. destruct (archFilters goarch) as [a|] eqn:Ea; [|done].
  destruct (applyPolicy policy a) as [denied|] eqn:Ep; [|done]. intros Hp Hd.
  apply table_bounds in Ea as [Hlen Hmax]. exists a, denied. split_and!; [done..|].
  destruct (assemble_ok a denied (applyPolicy_length _ _ _ Ep Hlen)) as (prog' & Hp' & Hlo).
  assert (prog = prog') as -> by congruence. by apply laid_out_verdict.
Qed.

(** ** The tables *)
Definition amd64 : archFilter := mkArch 0xC000003E 56 435 deniedAMD64 syscallsAMD64 syscallsAMD64Max.
Definition arm64 : archFilter := mkArch 0xC00000B7 220 435 deniedARM64 syscallsARM64 syscallsARM64Max.

(** [entries] is the content of [a]'s name table. *)
Definition table_of a (entries : list (string * Z)) : Prop :=
  NoDup entries.*1 ∧ af_names a = list_to_map entries.

Lemma table_of_lookup a entries name nr :
  table_of a entries → af_names a !! name = Some nr ↔ (name, nr) ∈ entries.
Proof. intros [Hnd ->]. symmetry. by apply elem_of_list_to_map. Qed.

Lemma tables goarch a :
  archFilters goarch = Some a →
  (a = amd64 ∧ table_of a syscallsAMD64_entries) ∨ (a = arm64 ∧ table_of a syscallsARM64_entries).
Proof.
  unfold archFilters. case_bool_decide; [|case_bool_decide; [|done]]; intros [= <-]; [left|right];
    (split; [done|split; [|reflexivity]]; refine (bool_decide_eq_true_1 _ _); vm_compute; reflexivity).
Qed.

(** The names of the built-in denylist. *)
Definition denied_by_name a (name : string) : Prop := ∃ nr, af_names a !! name = Some nr ∧ nr ∈ af_denied a.
(** The names of an entry list whose number is denied. *)
Definition denied_names (denied : list Z) (entries : list (string * Z)) : list string :=
  (List.filter (λ e, bool_decide (e.2 ∈ denied)) entries).*1.

Lemma denied_names_spec a entries name :
  table_of a entries → denied_by_name a name ↔ name ∈ denied_names (af_denied a) entries.
Proof.
  intros Ht. unfold denied_names, denied_by_name. rewrite list_elem_of_fmap. split.
  - intros (nr & Hn & Hd). exists (name, nr). split; [done|].
    rewrite filter_elem, bool_decide_eq_true. split; [by apply (table_of_lookup a entries)|done].
  - intros ((n & nr) & -> & Hin). rewrite filter_elem, bool_decide_eq_true in Hin. destruct Hin as [Hin Hd].
    exists nr. split; [by apply (table_of_lookup a entries)|done].
Qed.

(** What is checked of every entry: its number is under the ceiling, and its name, clone and
    clone3 apart, is one a policy can use. *)
Definition entry_ok (a : archFilter) (e : string * Z) : bool :=
  (0 <=? e.2) && (e.2 <=? af_maxNr a) &&
  (bool_decide (e.1 ∈ ["clone"; "clone3"]) ||
   bool_decide (GoStrings.TrimSpace e.1 = e.1 ∧ e.1 ≠ "" ∧ ParseUint32 e.1 = None)).

Lemma entry_ok_spec a entries name nr :
  table_of a entries → forallb (entry_ok a) entries = true → af_names a !! name = Some nr →
  0 ≤ nr ≤ af_maxNr a ∧ (name ∉ ["clone"; "clone3"] → syscallNumber a name = Ok nr).
Proof.
  intros Ht Hall Hn. assert (entry_ok a (name, nr) = true) as Hok.
  { eapply forallb_elem; [exact Hall|]. by apply (table_of_lookup a entries). }
  unfold entry_ok in Hok. cbn [fst snd] in Hok.
  apply andb_true_iff in Hok as [[?%Z.leb_le ?%Z.leb_le]%andb_true_iff Hok]. split; [done|]. intros Hc.
  rewrite bool_decide_eq_false_2 in Hok by done. apply bool_decide_eq_true in Hok as (Htr & Hne & Hp).
  unfold syscallNumber. rewrite Htr, bool_decide_eq_false_2, Hp, Hn by done.
  rewrite !bool_decide_eq_false_2; [done|intros ->; apply Hc; set_solver..].
Qed.

(** Every element of [l] is in [k]. *)
Definition listed `{EqDecision A} (l k : list A) : bool := forallb (λ x, bool_decide (x ∈ k)) l.

Lemma listed_elem `{EqDecision A} (l k : list A) x : listed l k = true → x ∈ l → x ∈ k.
Proof. unfold listed. rewrite forallb_elem. intros H Hx. by apply H, bool_decide_eq_true in Hx. Qed.

Lemma named_all_spec a entries l nr :
  table_of a entries → listed l entries.*2 = true → nr ∈ l → ∃ name, af_names a !! name = Some nr.
Proof.
  intros Ht Hall Hin. pose proof (listed_elem _ _ _ Hall Hin) as Hd.
  apply list_elem_of_fmap in Hd as ((name & nr') & -> & He).
  exists name. by apply (table_of_lookup a entries).
Qed.

(** The tables fit the filter on both architectures: every name but clone and clone3 is
    one a policy can use and resolves to its own number, no number exceeds the ceiling and
    some syscall reaches it, the structural clone branches test the numbers the table
    gives those names, and every built-in denied number names a syscall. *)
Theorem syscall_table_sound goarch a :
  archFilters goarch = Some a →
  (∀ name nr, af_names a !! name = Some nr →
     0 ≤ nr ≤ af_maxNr a ∧ (name ∉ ["clone"; "clone3"] → syscallNumber a name = Ok nr)) ∧
  (∃ name, af_names a !! name = Some (af_maxNr a)) ∧
  af_names a !! "clone" = Some (af_clone a) ∧ af_names a !! "clone3" = Some (af_clone3 a) ∧
  (∀ nr, nr ∈ af_denied a → ∃ name, af_names a !! name = Some nr).
Proof.
  intros [[-> Ht]|[-> Ht]]%tables; split_and!;
    try (intros name nr; eapply entry_ok_spec; [exact Ht|vm_compute; reflexivity]);
    try (eapply (named_all_spec _ _ [_] _ Ht); [|left]; vm_compute; reflexivity);
    try (vm_compute; reflexivity);
    intros nr; eapply named_all_spec; try exact Ht; vm_compute; reflexivity.
Qed.

(** The two architectures deny the same system calls: a name is on the built-in denylist
    of amd64 exactly when it is on arm64's or is one of the two port-I/O calls arm64 does
    not have. *)
Theorem denied_abi_parity name :
  denied_by_name amd64 name ↔ denied_by_name arm64 name ∨ name ∈ ["iopl"; "ioperm"].
Proof.
  rewrite (denied_names_spec amd64 syscallsAMD64_entries), (denied_names_spec arm64 syscallsARM64_entries).
  2, 3: split; [refine (bool_decide_eq_true_1 _ _); vm_compute|]; reflexivity.
  rewrite <-elem_of_app. split; apply listed_elem; vm_compute; reflexivity.
Qed.

(** ** A policy on amd64 *)
Module SeccompDemo.
Definition policy : SeccompPolicy := mkPolicy [" read "; "7"; "ptrace"] ["ptrace"].
Definition prog : list sockFilter :=
  match seccompProgram "amd64" (Some policy) with Ok p => p | Err _ => [] end.
Definition denied : list Z := match applyPolicy (Some policy) amd64 with Ok l => l | Err _ => [] end.

Definition call (nr flags : Z) : seccomp_data := mkData nr 0xC000003E 0 [flags; 0; 0; 0; 0; 0].

(** read is denied by the policy, ptrace allowed by it, unshare still denied; a plain
    clone passes, one with CLONE_NEWUSER does not. *)
Example demo_verdicts :
  (verdict prog ∘ uncurry call) <$> [(0, 0); (101, 0); (272, 0); (56, 0x100); (56, 0x10000000); (435, 0)] =
  Some <$> [Z.lor seccompRetErrno 1; seccompRetAllow; Z.lor seccompRetErrno 1; seccompRetAllow;
            Z.lor seccompRetErrno 1; Z.lor seccompRetErrno 38].
Proof. vm_compute. reflexivity. Qed.

Lemma applyPolicy_spec_witness :
  101 ∈ denied ↔
  (101 ∈ af_denied amd64 ∨ names_syscall amd64 (pol_Deny policy) 101) ∧
  ¬ names_syscall amd64 (pol_Allow policy) 101.
Proof. apply (applyPolicy_spec policy amd64 denied 101). vm_compute. reflexivity. Defined.

Lemma seccomp_refines_witness :
  ∃ a denied, archFilters "amd64" = Some a ∧ applyPolicy (Some policy) a = Ok denied ∧
    verdict prog (call 0 0) = Some (action_value (decision a denied (call 0 0))).
Proof.
  apply (seccomp_refines "amd64" (Some policy) prog (call 0 0)).
  - vm_compute. reflexivity.
  - split; [vm_compute; split; done|reflexivity].
Defined.

Lemma syscall_table_sound_witness : syscallNumber arm64 "io_uring_setup" = Ok 425.
Proof.
  apply (syscall_table_sound "arm64" arm64 eq_refl); [vm_compute; reflexivity|].
  refine (bool_decide_eq_true_1 _ _). vm_compute. reflexivity.
Defined.
End SeccompDemo.
