(* ===== verification/Bolt.v ===== *)
(** * The embedded store (pkg/storage/bolt/bolt.go)

    Objects as the store sees them: metadata plus the JSON text of every other top-level
    field.  [marshal] and [decode] are the JSON encoding through the scheme, on the members
    of the top-level object.  A bbolt transaction ([transact]) is a function of the buckets
    that either commits its result or leaves them alone; [io] is the error its commit may
    return.  Randomness and the clock are arguments of [bolt_Create].

    The watch bus is part of the state: a subscription is a channel with its buffer. *)
From stdpp Require Import gmap strings list sorting.
From Stdlib Require Import ZArith Ascii.
From S2P Require Import Prelude Resources CoreV1 ApiObjects.
#[local] Open Scope Z_scope.

(** ** Constants *)
Definition sep : string := String Ascii.zero "".
Definition watchBuf : nat := 64.
Definition maxHistory : nat := 10.

(** ** The storage contract's errors (api/storage/storage.go) *)
Inductive StoreError :=
| ErrNotFound
| ErrAlreadyExists
| ErrConflict
| EKindRequired
| ENameRequired
| ESubresourceRequired
| ENoField (subresource : string)
| EUidRequired
| ENoRevisions (kind : string)
| EDecode (e : error)
| ENotRegistered (gvk : string * string * string)
| EIO (e : error).

(** ** The scheme (api/scheme/scheme.go) *)
Definition GVK : Type := string * string * string.

Record Resource := mkResource {
  res_Plural : string;
  res_Singular : string;
  res_ShortNames : list string;
  res_Namespaced : bool;
  res_NoHistory : bool;
}.

Record Scheme := mkScheme {
  sch_m : gset GVK;
  sch_res : gmap GVK Resource;
}.

(** ** Objects and their encoding *)
Record TObject := mkTObject {
  ob_APIVersion : string;
  ob_Kind : string;
  ob_meta : ObjectMeta;
  (** The other top-level fields, as raw JSON. *)
  ob_fields : gmap string string;
}.

Inductive Json := JMeta (m : ObjectMeta) | JText (s : string).
#[export] Instance Json_eq_dec : EqDecision Json.
Proof. solve_decision. Defined.

Abbreviation Enc := (gmap string Json).

Definition headers : list string := ["apiVersion"; "kind"; "metadata"].

Definition put_text (k v : string) (e : Enc) : Enc :=
  if bool_decide (v = "") then delete k e else <[k := JText v]> e.

Definition marshal (o : TObject) : Enc :=
  put_text "apiVersion" (ob_APIVersion o)
    (put_text "kind" (ob_Kind o)
      (<["metadata" := JMeta (ob_meta o)]> (JText <$> ob_fields o))).

Definition text_of (k : string) (e : Enc) : string :=
  match e !! k with Some (JText s) => s | _ => "" end.

Definition json_text (v : Json) : option string := match v with JText s => Some s | JMeta _ => None end.

Definition unmarshal (e : Enc) : TObject :=
  mkTObject (text_of "apiVersion" e) (text_of "kind" e)
    (match e !! "metadata" with Some (JMeta m) => m | _ => zero_meta end)
    (omap json_text (foldr delete e headers)).

(** Equality of two raw members; an absent one is empty. *)
Definition raw_eq (v : Json) (w : option Json) : bool := bool_decide (v = default (JText "") w).

Definition subresourceField (k : string) : bool := bool_decide (k = "status").
Definition coreField (k : string) : bool := negb (subresourceField k).

(** ** Subscriptions *)
Inductive EventType := Added | Modified | Deleted.
Record WatchEvent := mkWatchEvent { we_Type : EventType; we_Object : Enc }.

(** ** Keys *)
Definition recordKey (namespace name : string) : string := namespace +:+ "/" +:+ name.

Definition digit (d : Z) : ascii := ascii_of_nat (Z.to_nat (48 + d)).

(** The [k] low decimal digits, zero-padded: the %0kd of a number below 10^k. *)
Fixpoint pad (k : nat) (n : Z) : string :=
  match k with
  | O => ""
  | S k' => String (digit ((n / 10 ^ Z.of_nat k') mod 10)) (pad k' n)
  end.

Definition historyKey (uid : string) (rv : Z) : string := uid +:+ sep +:+ pad 20 rv.

(** The value [strconv.ParseUint s 10 64] returns beside the error the code drops. *)
Definition ParseUint_value (s : string) : Z :=
  match GoStrings.parse_unsigned s with
  | Some z => if z <? 2 ^ 64 then z else 2 ^ 64 - 1
  | None => 0
  end.

(** ** Buckets *)
Record Buckets := mkBuckets {
  bk_seq : gmap string string;
  bk_heads : gmap string (gmap string Enc);
  bk_history : gmap string (gmap string Enc);
}.

Definition bucket (b : gmap string (gmap string Enc)) (bkey : string) : gmap string Enc :=
  default ∅ (b !! bkey).

Definition head (t : Buckets) (bkey key : string) : option Enc := bucket (bk_heads t) bkey !! key.
Definition revision (t : Buckets) (bkey : string) (uid : string) (rv : Z) : option Enc :=
  bucket (bk_history t) bkey !! historyKey uid rv.

(** The keys of a bucket in the order a cursor visits them. *)
Definition cursor (b : gmap string Enc) : list string := sort_stable String.ltb (map_to_list b).*1.

Fixpoint take_while {A} (f : A → bool) (l : list A) : list A :=
  match l with [] => [] | x :: l' => if f x then x :: take_while f l' else [] end.
Fixpoint drop_while {A} (f : A → bool) (l : list A) : list A :=
  match l with [] => [] | x :: l' => if f x then drop_while f l' else l end.

(** [for k := c.Seek(prefix); HasPrefix(k, prefix); k = c.Next()]. *)
Definition seek_prefix (prefix : string) (b : gmap string Enc) : list string :=
  take_while (GoStrings.has_prefix prefix) (drop_while (λ k, String.ltb k prefix) (cursor b)).

Definition pruneHistory (uid : string) (h : gmap string Enc) : gmap string Enc :=
  let keys := seek_prefix (uid +:+ sep) h in
  foldr delete h (take (length keys - maxHistory) keys).

Definition deleteHistory (bkey uid : string) (t : Buckets) : Buckets :=
  match bk_history t !! bkey with
  | None => t
  | Some h =>
      mkBuckets (bk_seq t) (bk_heads t)
        (<[bkey := foldr delete h (seek_prefix (uid +:+ sep) h)]> (bk_history t))
  end.

Definition putHead (bkey key : string) (enc : Enc) (t : Buckets) : Buckets :=
  mkBuckets (bk_seq t) (<[bkey := <[key := enc]> (bucket (bk_heads t) bkey)]> (bk_heads t)) (bk_history t).

Definition deleteHead (bkey key : string) (t : Buckets) : Buckets :=
  mkBuckets (bk_seq t) (alter (delete key) bkey (bk_heads t)) (bk_history t).

(** [nextRV]: the new version and the counter advanced. *)
Definition nextRV (bkey : string) (t : Buckets) : Z * Buckets :=
  let rv := match bk_seq t !! bkey with Some v => ParseUint_value v | None => 0 end in
  let rv := (rv + 1) mod 2 ^ 64 in
  (rv, mkBuckets (<[bkey := GoStrings.itoa rv]> (bk_seq t)) (bk_heads t) (bk_history t)).

(** [checkResourceVersion]. *)
Definition checkResourceVersion (want stored : ObjectMeta) : option StoreError :=
  if negb (bool_decide (om_ResourceVersion want = "")) &&
     negb (bool_decide (om_ResourceVersion want = om_ResourceVersion stored))
  then Some ErrConflict else None.

(** Whether some member of [a] that a spec watcher reads differs in [b]. *)
Definition differs (a b : Enc) : bool :=
  existsb (λ kv, coreField kv.1 && negb (bool_decide (kv.1 = "metadata")) && negb (raw_eq kv.2 (b !! kv.1)))
    (map_to_list a).

(** [nextGeneration]. *)
Definition nextGeneration (incoming : TObject) (stored : Enc) (current : Z) : Z :=
  let inc := marshal incoming in
  if differs inc stored || differs stored inc then wrap64 (current + 1) else current.

Definition core_part (e : Enc) : Enc := filter (λ kv, coreField kv.1 = true) e.
Definition sub_part (e : Enc) : Enc := filter (λ kv, coreField kv.1 = false) e.

(** The core members of [e] over the subresource members of [stored]. *)
Definition merge_parts (e stored : Enc) : Enc := sub_part stored ∪ core_part e.

(** [mergeCore]. *)
Definition mergeCore (obj : TObject) (stored : Enc) : Enc := merge_parts (marshal obj) stored.

Definition with_meta (f : ObjectMeta → ObjectMeta) (o : TObject) : TObject :=
  mkTObject (ob_APIVersion o) (ob_Kind o) (f (ob_meta o)) (ob_fields o).

(** ** The store *)
Section Bolt.
(** apimachinery: the group and version of an apiVersion, and label selectors. *)
Context (ParseGroupVersion : string → result error (string * string)).
Context {Selector : Type} (sel_Parse : string → result error Selector)
  (sel_Empty : Selector → bool) (sel_Matches : Selector → gmap string string → bool)
  (sel_Everything : Selector).
Context (sch : Scheme).

Record subscription := mkSub {
  sub_id : nat;
  sub_ch : list WatchEvent;
  sub_selector : Selector;
  sub_namespace : string;
}.

Record DB := mkDB {
  db_buckets : Buckets;
  db_subs : gmap string (list subscription);
  db_next : nat;
  db_done : bool;
}.

Record TypesMeta := mkTypesMeta {
  tm_ApiVersion : string;
  tm_Kind : string;
  tm_Namespace : string;
  tm_Name : string;
}.

Definition bucketKeyFor (gvk : GVK) : result StoreError string :=
  let '(group, _, kind) := gvk in
  if bool_decide (kind = "") then Err EKindRequired else Ok (group +:+ "/" +:+ kind).

Definition bucketKeyForMeta (m : TypesMeta) : result StoreError string :=
  match ParseGroupVersion (tm_ApiVersion m) with
  | Err e => Err (EDecode e)
  | Ok (g, v) => bucketKeyFor (g, v, tm_Kind m)
  end.

(** [GetObjectKind().GroupVersionKind()]: an unparseable apiVersion has no group. *)
Definition gvk_of (o : TObject) : GVK :=
  match ParseGroupVersion (ob_APIVersion o) with
  | Ok (g, v) => (g, v, ob_Kind o)
  | Err _ => ("", "", ob_Kind o)
  end.

(** [Scheme.Decode] then the unmarshalling of the rest. *)
Definition decode (e : Enc) : result StoreError TObject :=
  if bool_decide (text_of "kind" e = "") then Err (EDecode "couldn't get apiVersion/kind")
  else match ParseGroupVersion (text_of "apiVersion" e) with
       | Err err => Err (EDecode err)
       | Ok (g, v) =>
           if bool_decide ((g, v, text_of "kind" e) ∈ sch_m sch) then Ok (unmarshal e)
           else Err (ENotRegistered (g, v, text_of "kind" e))
       end.

(** The buckets of Kinds marked NoHistory, computed at [Open]. *)
Definition noHistory (bkey : string) : bool :=
  existsb (λ gr, res_NoHistory gr.2 &&
    match bucketKeyFor gr.1 with Ok k => bool_decide (k = bkey) | Err _ => false end)
    (map_to_list (sch_res sch)).

Definition commit (bkey key uid : string) (rv : Z) (enc : Enc) (t : Buckets) : Buckets :=
  let t := putHead bkey key enc t in
  if noHistory bkey then t
  else
    let h := <[historyKey uid rv := enc]> (bucket (bk_history t) bkey) in
    mkBuckets (bk_seq t) (bk_heads t) (<[bkey := pruneHistory uid h]> (bk_history t)).

(** [Open] on existing buckets: the history of NoHistory Kinds is dropped. *)
Definition bolt_Open (t : Buckets) : DB :=
  mkDB (mkBuckets (bk_seq t) (bk_heads t) (filter (λ kv, noHistory kv.1 = false) (bk_history t)))
    ∅ 0 false.

(** [db.Update]: the transaction's effect, or none. *)
Definition transact {A} (io : option error) (f : Buckets → result StoreError (Buckets * A)) (s : DB)
    : result StoreError (DB * A) :=
  match f (db_buckets s) with
  | Err e => Err e
  | Ok (t, a) =>
      match io with
      | Some e => Err (EIO e)
      | None => Ok (mkDB t (db_subs s) (db_next s) (db_done s), a)
      end
  end.

(** ** Publishing *)
Definition interested (ns : string) (lbls : gmap string string) (x : subscription) : bool :=
  (bool_decide (sub_namespace x = "") || bool_decide (sub_namespace x = ns)) &&
  (sel_Empty (sub_selector x) || sel_Matches (sub_selector x) lbls).

(** A non-blocking send: a full buffer drops the event. *)
Definition send (ev : WatchEvent) (x : subscription) : subscription :=
  if (length (sub_ch x) <? watchBuf)%nat
  then mkSub (sub_id x) (sub_ch x ++ [ev]) (sub_selector x) (sub_namespace x) else x.

Definition publish (bkey : string) (et : EventType) (raw : Enc) (ns : string)
    (lbls : gmap string string) (s : DB) : DB :=
  mkDB (db_buckets s)
    (alter (fmap (λ x, if interested ns lbls x then send (mkWatchEvent et raw) x else x)) bkey (db_subs s))
    (db_next s) (db_done s).

(** ** Writes *)
Definition bolt_Create (uid : string) (now : Z) (io : option error) (obj : TObject) (s : DB)
    : DB * result StoreError TObject :=
  match bucketKeyFor (gvk_of obj) with
  | Err e => (s, Err e)
  | Ok bkey =>
      let m := ob_meta obj in
      if bool_decide (om_Name m = "") then (s, Err ENameRequired)
      else
        let key := recordKey (om_Namespace m) (om_Name m) in
        match transact io (λ t,
          match head t bkey key with
          | Some _ => Err ErrAlreadyExists
          | None =>
              let '(rv, t) := nextRV bkey t in
              let out := with_meta (λ m, set_creationTimestamp (now - now mod 10 ^ 9)
                (set_generation 1 (set_resourceVersion (GoStrings.itoa rv) (set_uid uid m)))) obj in
              Ok (commit bkey key uid rv (marshal out) t, out)
          end) s with
        | Err e => (s, Err e)
        | Ok (s', out) =>
            (publish bkey Added (marshal out) (om_Namespace m) (om_Labels m) s', Ok out)
        end
  end.

Definition bolt_Update (io : option error) (obj : TObject) (s : DB) : DB * result StoreError TObject :=
  match bucketKeyFor (gvk_of obj) with
  | Err e => (s, Err e)
  | Ok bkey =>
      let m := ob_meta obj in
      let key := recordKey (om_Namespace m) (om_Name m) in
      match transact io (λ t,
        match head t bkey key with
        | None => Err ErrNotFound
        | Some cur =>
            let* old := decode cur in
            let oldm := ob_meta old in
            match checkResourceVersion m oldm with
            | Some e => Err e
            | None =>
                let '(rv, t) := nextRV bkey t in
                let out := with_meta (λ m, set_resourceVersion (GoStrings.itoa rv)
                  (set_creationTimestamp (om_CreationTimestamp oldm) (set_uid (om_UID oldm) m))) obj in
                let out := with_meta (set_generation (nextGeneration out cur (om_Generation oldm))) out in
                let merged := mergeCore out cur in
                let* result := decode merged in
                Ok (commit bkey key (om_UID oldm) rv merged t, (merged, result))
            end
        end) s with
      | Err e => (s, Err e)
      | Ok (s', (enc, result)) =>
          (publish bkey Modified enc (om_Namespace m) (om_Labels m) s', Ok result)
      end
  end.

Definition bolt_UpdateSubresource (io : option error) (subresource : string) (obj : TObject) (s : DB)
    : DB * result StoreError TObject :=
  if bool_decide (subresource = "") then (s, Err ESubresourceRequired)
  else match bucketKeyFor (gvk_of obj) with
  | Err e => (s, Err e)
  | Ok bkey =>
      let m := ob_meta obj in
      let key := recordKey (om_Namespace m) (om_Name m) in
      match marshal obj !! subresource with
      | None => (s, Err (ENoField subresource))
      | Some subVal =>
          match transact io (λ t,
            match head t bkey key with
            | None => Err ErrNotFound
            | Some cur =>
                let* old := decode cur in
                match checkResourceVersion m (ob_meta old) with
                | Some e => Err e
                | None =>
                    if raw_eq subVal (cur !! subresource) then Ok (t, (None, old))
                    else
                      let* result := decode (<[subresource := subVal]> cur) in
                      let enc := marshal result in
                      Ok (putHead bkey key enc t, (Some enc, result))
                end
            end) s with
          | Err e => (s, Err e)
          | Ok (s', (None, result)) => (s', Ok result)
          | Ok (s', (Some enc, result)) =>
              let rm := ob_meta result in
              (publish bkey Modified enc (om_Namespace rm) (om_Labels rm) s', Ok result)
          end
      end
  end.

Definition bolt_GetRevision (m : TypesMeta) (uid : string) (targetRV : Z) (s : DB)
    : result StoreError TObject :=
  let* bkey := bucketKeyForMeta m in
  if bool_decide (uid = "") then Err EUidRequired
  else if targetRV <=? 0 then Err ErrNotFound
  else match revision (db_buckets s) bkey uid targetRV with
       | None => Err ErrNotFound
       | Some snap => decode snap
       end.

Definition bolt_Rollback (io : option error) (m : TypesMeta) (uid : string) (targetRV : Z) (s : DB)
    : DB * result StoreError TObject :=
  match bucketKeyForMeta m with
  | Err e => (s, Err e)
  | Ok bkey =>
      if bool_decide (uid = "") then (s, Err EUidRequired)
      else if targetRV <=? 0 then (s, Err ErrNotFound)
      else if noHistory bkey then (s, Err (ENoRevisions (tm_Kind m)))
      else match transact io (λ t,
        match revision t bkey uid targetRV with
        | None => Err ErrNotFound
        | Some snap =>
            let* snapObj := decode snap in
            let key := recordKey (om_Namespace (ob_meta snapObj)) (om_Name (ob_meta snapObj)) in
            match head t bkey key with
            | None => Err ErrNotFound
            | Some cur =>
                let '(rv, t) := nextRV bkey t in
                let* result := decode (merge_parts snap cur) in
                let* curObj := decode cur in
                let result := with_meta (set_resourceVersion (GoStrings.itoa rv)) result in
                let result := with_meta
                  (set_generation (nextGeneration result cur (om_Generation (ob_meta curObj)))) result in
                Ok (commit bkey key uid rv (marshal result) t, result)
            end
        end) s with
      | Err e => (s, Err e)
      | Ok (s', result) =>
          (publish bkey Modified (marshal result) (om_Namespace (ob_meta result))
             (om_Labels (ob_meta result)) s', Ok result)
      end
  end.

Definition bolt_Delete (io : option error) (m : TypesMeta) (s : DB) : DB * result StoreError unit :=
  match bucketKeyForMeta m with
  | Err e => (s, Err e)
  | Ok bkey =>
      let key := recordKey (tm_Namespace m) (tm_Name m) in
      match transact io (λ t,
        match head t bkey key with
        | None => Err ErrNotFound
        | Some cur =>
            let* obj := decode cur in
            Ok (deleteHistory bkey (om_UID (ob_meta obj)) (deleteHead bkey key t), (cur, obj))
        end) s with
      | Err e => (s, Err e)
      | Ok (s', (raw, obj)) =>
          (publish bkey Deleted raw (om_Namespace (ob_meta obj)) (om_Labels (ob_meta obj)) s', Ok tt)
      end
  end.

(** ** Reads *)
Definition bolt_Get (m : TypesMeta) (s : DB) : result StoreError TObject :=
  let* bkey := bucketKeyForMeta m in
  match head (db_buckets s) bkey (recordKey (tm_Namespace m) (tm_Name m)) with
  | None => Err ErrNotFound
  | Some v => decode v
  end.

Definition parseSelector (s : string) : result StoreError Selector :=
  if bool_decide (s = "") then Ok sel_Everything
  else match sel_Parse s with Ok sel => Ok sel | Err e => Err (EDecode e) end.

Definition matches (o : TObject) (sel : Selector) : bool :=
  sel_Empty sel || sel_Matches sel (om_Labels (ob_meta o)).

(** The loop of [List] over the records in cursor order. *)
Fixpoint list_records (ns : string) (sel : Selector) (b : gmap string Enc) (keys : list string)
    : result StoreError (list TObject) :=
  match keys with
  | [] => Ok []
  | k :: keys' =>
      match b !! k with
      | None => list_records ns sel b keys'
      | Some v =>
          let* o := decode v in
          let* rest := list_records ns sel b keys' in
          if negb (bool_decide (ns = "")) && negb (bool_decide (om_Namespace (ob_meta o) = ns)) then Ok rest
          else if matches o sel then Ok (o :: rest) else Ok rest
      end
  end.

Definition bolt_List (m : TypesMeta) (labelSelector : string) (s : DB)
    : result StoreError (list TObject) :=
  let* bkey := bucketKeyForMeta m in
  let* sel := parseSelector labelSelector in
  let b := bucket (bk_heads (db_buckets s)) bkey in
  list_records (tm_Namespace m) sel b (cursor b).

(** ** Watches *)
Definition bolt_Watch (m : TypesMeta) (labelSelector : string) (s : DB)
    : DB * result StoreError (string * nat) :=
  match bucketKeyForMeta m with
  | Err e => (s, Err e)
  | Ok bkey =>
      match parseSelector labelSelector with
      | Err e => (s, Err e)
      | Ok sel =>
          let x := mkSub (db_next s) [] sel (tm_Namespace m) in
          (mkDB (db_buckets s) (<[bkey := default [] (db_subs s !! bkey) ++ [x]]> (db_subs s))
             (S (db_next s)) (db_done s), Ok (bkey, db_next s))
      end
  end.

(** [removeSub], when the watch's context ends. *)
Definition removeSub (bkey : string) (id : nat) (s : DB) : DB :=
  let subs := List.filter (λ x, negb (bool_decide (sub_id x = id))) (default [] (db_subs s !! bkey)) in
  mkDB (db_buckets s)
    (match subs with [] => delete bkey (db_subs s) | _ => <[bkey := subs]> (db_subs s) end)
    (db_next s) (db_done s).

(** The consumer takes the oldest buffered event. *)
Definition receive (bkey : string) (id : nat) (s : DB) : DB * option WatchEvent :=
  let subs := default [] (db_subs s !! bkey) in
  (mkDB (db_buckets s)
     (alter (fmap (λ x, if bool_decide (sub_id x = id)
        then mkSub (sub_id x) (tail (sub_ch x)) (sub_selector x) (sub_namespace x) else x)) bkey (db_subs s))
     (db_next s) (db_done s),
   match List.find (λ x, bool_decide (sub_id x = id)) subs with
   | Some x => List.head (sub_ch x)
   | None => None
   end).

Definition bolt_Close (s : DB) : DB := mkDB (db_buckets s) ∅ (db_next s) true.
End Bolt.
