(* ===== verification/BoltFacts.v ===== *)
(** * Facts about the embedded store's encoding, keys and history

    The encoding round-trips; a merge takes one object's core and the other's status; the
    zero-padded history keys order as the versions do, so that a prefix scan lists an
    object's revisions oldest first and pruning keeps the newest. *)
From stdpp Require Import gmap strings list sorting.
From Stdlib Require Import ZArith Ascii.
From S2P Require Import Prelude Resources CoreV1 ApiObjects Bolt.
#[local] Open Scope Z_scope.

(** ** Encoding *)
Definition wf_obj (o : TObject) : Prop :=
  ob_Kind o ≠ "" ∧ (∀ h, h ∈ headers → ob_fields o !! h = None) ∧
  ∀ k v, ob_fields o !! k = Some v → v ≠ "".

Lemma put_text_eq k v e : put_text k v e !! k = if bool_decide (v = "") then None else Some (JText v).
Proof. unfold put_text. case_bool_decide; [apply lookup_delete_eq|apply lookup_insert_eq]. Qed.

Lemma put_text_ne k k' v e : k ≠ k' → put_text k v e !! k' = e !! k'.
Proof. intros. unfold put_text. case_bool_decide; [by rewrite lookup_delete_ne|by rewrite lookup_insert_ne]. Qed.

Lemma marshal_field o k : k ∉ headers → marshal o !! k = JText <$> ob_fields o !! k.
Proof.
  intros Hk. assert (k ≠ "apiVersion" ∧ k ≠ "kind" ∧ k ≠ "metadata") as (?&?&?)
    by (split_and!; intros ->; apply Hk; unfold headers; set_solver).
  unfold marshal. by rewrite !put_text_ne, lookup_insert_ne, lookup_fmap.
Qed.

Lemma marshal_api o : marshal o !! "apiVersion" = if bool_decide (ob_APIVersion o = "") then None else Some (JText (ob_APIVersion o)).
Proof. unfold marshal. apply put_text_eq. Qed.
Lemma marshal_kind o : marshal o !! "kind" = if bool_decide (ob_Kind o = "") then None else Some (JText (ob_Kind o)).
Proof. unfold marshal. rewrite put_text_ne by done. apply put_text_eq. Qed.
Lemma marshal_meta o : marshal o !! "metadata" = Some (JMeta (ob_meta o)).
Proof. unfold marshal. rewrite !put_text_ne by done. apply lookup_insert_eq. Qed.

Lemma text_api o : text_of "apiVersion" (marshal o) = ob_APIVersion o.
Proof. unfold text_of. rewrite marshal_api. by case_bool_decide. Qed.
Lemma text_kind o : text_of "kind" (marshal o) = ob_Kind o.
Proof. unfold text_of. rewrite marshal_kind. by case_bool_decide. Qed.

Lemma not_headers k : k ∉ headers ↔ k ≠ "apiVersion" ∧ k ≠ "kind" ∧ k ≠ "metadata".
Proof. unfold headers. set_solver. Qed.

Lemma lookup_headers (e : Enc) k : k ∉ headers → foldr delete e headers !! k = e !! k.
Proof. intros (?&?&?)%not_headers. simpl. by rewrite !lookup_delete_ne. Qed.

Lemma lookup_headers_None (e : Enc) k : k ∈ headers → foldr delete e headers !! k = None.
Proof.
  intros Hk. apply eq_None_not_Some. simpl. intros [x Hx]. rewrite !lookup_delete_Some in Hx.
  unfold headers in Hk. set_solver.
Qed.

Lemma unmarshal_marshal o : wf_obj o → unmarshal (marshal o) = o.
Proof.
  intros (Hk & Hf & _). destruct o as [api kind m f]. unfold unmarshal.
  rewrite text_api, text_kind, marshal_meta. f_equal. apply map_eq. intros k.
  rewrite lookup_omap. destruct (decide (k ∈ headers)) as [Hh|Hh].
  - rewrite lookup_headers_None by done. simpl. by rewrite Hf.
  - rewrite lookup_headers, marshal_field by done. simpl. by destruct (f !! k).
Qed.

Lemma marshal_inj o o' : wf_obj o → wf_obj o' → marshal o = marshal o' → o = o'.
Proof. intros H H' E. by rewrite <-(unmarshal_marshal o H), E, unmarshal_marshal. Qed.

(** ** Merging *)
(** [a] with the status of [b]. *)
Definition with_status_of (b a : TObject) : TObject :=
  mkTObject (ob_APIVersion a) (ob_Kind a) (ob_meta a)
    (partial_alter (λ _, ob_fields b !! "status") "status" (ob_fields a)).

Lemma status_not_header h : h ∈ headers → "status" ≠ h.
Proof. unfold headers. set_solver. Qed.

Lemma with_status_of_wf a b : wf_obj a → wf_obj b → wf_obj (with_status_of b a).
Proof.
  intros (Hk & Hf & Hv) (_ & _ & Hv'). split_and!; [done|..]; simpl.
  - intros h Hh. rewrite lookup_partial_alter_ne by (by apply status_not_header). by apply Hf.
  - intros k v. destruct (decide (k = "status")) as [->|Hne].
    + rewrite lookup_partial_alter_eq. apply Hv'.
    + rewrite lookup_partial_alter_ne by done. apply Hv.
Qed.

Lemma merge_lookup (a b : Enc) k :
  merge_parts a b !! k = if coreField k then a !! k else b !! k.
Proof.
  unfold merge_parts, core_part, sub_part. rewrite lookup_union, !map_lookup_filter. simpl.
  destruct (coreField k).
  - destruct (b !! k), (a !! k); simpl; rewrite ?option_guard_False, ?option_guard_True by done; done.
  - destruct (b !! k), (a !! k); simpl; rewrite ?option_guard_False, ?option_guard_True by done; done.
Qed.

Lemma coreField_ne k : k ≠ "status" → coreField k = true.
Proof. intros. unfold coreField, subresourceField. by rewrite bool_decide_eq_false_2. Qed.

Lemma merge_marshal a b : merge_parts (marshal a) (marshal b) = marshal (with_status_of b a).
Proof.
  apply map_eq. intros k. rewrite merge_lookup.
  destruct (decide (k = "status")) as [->|Hk].
  - simpl. rewrite !marshal_field by (unfold headers; set_solver). simpl. by rewrite lookup_partial_alter_eq.
  - rewrite coreField_ne by done. destruct (decide (k ∈ headers)) as [Hh|Hh].
    + unfold headers in Hh. rewrite !elem_of_cons in Hh.
      destruct Hh as [->|[->|[->|[]%elem_of_nil]]]; by rewrite ?marshal_api, ?marshal_kind, ?marshal_meta.
    + rewrite !marshal_field by done. simpl. by rewrite lookup_partial_alter_ne.
Qed.

(** [b] with the status text [v]. *)
Definition set_status (v : string) (b : TObject) : TObject :=
  mkTObject (ob_APIVersion b) (ob_Kind b) (ob_meta b) (<["status" := v]> (ob_fields b)).

Lemma set_status_wf v b : v ≠ "" → wf_obj b → wf_obj (set_status v b).
Proof.
  intros Hne (Hk & Hf & Hv). split_and!; [done|..]; simpl.
  - intros h Hh. rewrite lookup_insert_ne by (by apply status_not_header). by apply Hf.
  - intros k w. rewrite lookup_insert_Some. intros [[_ <-]|[_ ?]]; eauto.
Qed.

Lemma insert_status_marshal v b : <["status" := JText v]> (marshal b) = marshal (set_status v b).
Proof.
  apply map_eq. intros k. destruct (decide (k = "status")) as [->|Hk].
  - rewrite lookup_insert_eq, marshal_field by (unfold headers; set_solver). simpl. by rewrite lookup_insert_eq.
  - rewrite lookup_insert_ne by done. destruct (decide (k ∈ headers)) as [Hh|Hh].
    + unfold headers in Hh. rewrite !elem_of_cons in Hh.
      destruct Hh as [->|[->|[->|[]%elem_of_nil]]]; by rewrite ?marshal_api, ?marshal_kind, ?marshal_meta.
    + rewrite !marshal_field by done. simpl. by rewrite lookup_insert_ne.
Qed.

(** ** Generation *)
(** The desired state a spec watcher reads. *)
Definition same_desired (a b : TObject) : Prop :=
  ob_APIVersion a = ob_APIVersion b ∧ ob_Kind a = ob_Kind b ∧
  ∀ k, k ≠ "status" → ob_fields a !! k = ob_fields b !! k.

Lemma differs_true a b :
  differs a b = true ↔ ∃ k v, a !! k = Some v ∧ k ≠ "status" ∧ k ≠ "metadata" ∧ v ≠ default (JText "") (b !! k).
Proof.
  unfold differs. rewrite existsb_elem. split.
  - intros ((k & v) & Hin%elem_of_map_to_list & H). exists k, v. simpl in H.
    unfold coreField, subresourceField, raw_eq in H. bools. naive_solver.
  - intros (k & v & Hk & Hs & Hm & Hne). exists (k, v). rewrite elem_of_map_to_list. split; [done|].
    simpl. unfold coreField, subresourceField, raw_eq. bools. auto.
Qed.

Lemma differs_desired a b : wf_obj a → wf_obj b → same_desired a b → differs (marshal a) (marshal b) = false.
Proof.
  intros Ha Hb (Hapi & Hkind & Hf). apply not_true_iff_false. rewrite differs_true.
  intros (k & v & Hk & Hs & Hm & Hne). apply Hne. destruct (decide (k ∈ headers)) as [Hh|Hh].
  - unfold headers in Hh. rewrite !elem_of_cons in Hh.
    destruct Hh as [->|[->|[->|[]%elem_of_nil]]]; [| |done].
    + rewrite marshal_api in *. by rewrite <-Hapi, Hk.
    + rewrite marshal_kind in *. by rewrite <-Hkind, Hk.
  - rewrite marshal_field in * by done. by rewrite <-Hf, Hk.
Qed.

(** A member [a] has and [b] does not, or differently. *)
Lemma differs_member a b k v :
  wf_obj a → marshal a !! k = Some v → k ≠ "status" → k ≠ "metadata" → marshal b !! k ≠ Some v →
  differs (marshal a) (marshal b) = true.
Proof.
  intros (Hkind & _ & Hv) Hk Hs Hm Hne. apply differs_true. exists k, v. split_and!; try done.
  destruct (marshal b !! k); simpl; [congruence|]. intros ->.
  destruct (decide (k ∈ headers)) as [Hh|Hh].
  - unfold headers in Hh. rewrite !elem_of_cons in Hh.
    destruct Hh as [->|[->|[->|[]%elem_of_nil]]]; [| |done];
      rewrite ?marshal_api, ?marshal_kind in Hk; case_bool_decide; simplify_eq.
  - rewrite marshal_field in Hk by done. destruct (ob_fields a !! k) eqn:E; simplify_eq/=. by apply Hv in E.
Qed.

Lemma differs_complete a b :
  wf_obj a → wf_obj b → differs (marshal a) (marshal b) = false → differs (marshal b) (marshal a) = false →
  same_desired a b.
Proof.
  intros Ha Hb H1 H2.
  assert (∀ k, k ≠ "status" → k ≠ "metadata" → marshal a !! k = marshal b !! k) as Hall.
  { intros k Hs Hm. destruct (marshal a !! k) as [v|] eqn:E1.
    - destruct (decide (marshal b !! k = Some v)) as [->|Hne]; [done|].
      by rewrite (differs_member a b k v) in H1.
    - destruct (marshal b !! k) as [v|] eqn:E2; [|done].
      rewrite (differs_member b a k v) in H2; try done. by rewrite E1. }
  split_and!.
  - rewrite <-(text_api a), <-(text_api b). unfold text_of. by rewrite Hall.
  - rewrite <-(text_kind a), <-(text_kind b). unfold text_of. by rewrite Hall.
  - intros k Hs. destruct (decide (k ∈ headers)) as [Hh|Hh].
    + destruct Ha as (_ & Ha & _), Hb as (_ & Hb & _). by rewrite Ha, Hb.
    + assert (k ≠ "metadata") as Hm by (by apply not_headers).
      specialize (Hall k Hs Hm). rewrite !marshal_field in Hall by done.
      destruct (ob_fields a !! k), (ob_fields b !! k); simplify_eq/=; done.
Qed.

(** Generation moves exactly when the desired state does. *)
Lemma nextGeneration_spec a b g :
  wf_obj a → wf_obj b →
  (same_desired a b → nextGeneration a (marshal b) g = g) ∧
  (¬ same_desired a b → nextGeneration a (marshal b) g = wrap64 (g + 1)).
Proof.
  intros Ha Hb. unfold nextGeneration. split; intros H.
  - rewrite !differs_desired; try done. destruct H as (? & ? & H). split_and!; [done..|]. intros. by rewrite H.
  - destruct (differs (marshal a) (marshal b)) eqn:E1; [done|].
    destruct (differs (marshal b) (marshal a)) eqn:E2; [done|]. by destruct H; apply differs_complete.
Qed.

(** ** String order *)
Lemma leb_cons c d s t :
  String.leb (String c s) (String d t) =
  match Ascii.compare c d with Lt => true | Eq => String.leb s t | Gt => false end.
Proof. unfold String.leb. simpl. by destruct (Ascii.compare c d). Qed.

Lemma has_prefix_app p s : GoStrings.has_prefix p (p +:+ s) = true.
Proof. induction p as [|c p IH]; simpl; [done|]. by rewrite bool_decide_eq_true_2. Qed.

Lemma has_prefix_Some p s : GoStrings.has_prefix p s = true → ∃ t, s = p +:+ t.
Proof.
  revert s. induction p as [|c p IH]; intros s; simpl; [by eauto|].
  destruct s as [|d s]; [done|]. rewrite andb_true_iff, bool_decide_eq_true.
  intros [-> (t & ->)%IH]. by exists t.
Qed.

Lemma has_prefix_leb p s : GoStrings.has_prefix p s = true → String.leb p s = true.
Proof.
  revert s. induction p as [|c p IH]; intros [|d s]; simpl; try done.
  rewrite andb_true_iff, bool_decide_eq_true. intros [-> H]. rewrite leb_cons.
  unfold Ascii.compare. rewrite N.compare_refl. auto.
Qed.

(** The strings with a prefix are contiguous in the order. *)
Lemma has_prefix_between p a b :
  String.leb p a = true → String.leb a b = true → GoStrings.has_prefix p b = true →
  GoStrings.has_prefix p a = true.
Proof.
  revert a b. induction p as [|c p IH]; intros a b; simpl; [done|].
  destruct b as [|d b]; [done|]. rewrite andb_true_iff, bool_decide_eq_true. intros Hpa Hab [-> Hb].
  destruct a as [|c a]; [done|]. rewrite leb_cons in Hpa, Hab.
  rewrite (Ascii.compare_antisym c d) in Hab.
  destruct (Ascii.compare d c) eqn:E; simpl in Hab; try done.
  apply Ascii.compare_eq_iff in E as ->. rewrite bool_decide_eq_true_2 by done. simpl. by apply (IH a b).
Qed.

Lemma take_while_filter p l :
  StronglySorted (λ x y, String.leb x y = true) l → (∀ x, x ∈ l → String.leb p x = true) →
  take_while (GoStrings.has_prefix p) l = List.filter (GoStrings.has_prefix p) l.
Proof.
  induction 1 as [|x l Hl IH Hx]; intros Hp; [done|]. simpl.
  destruct (GoStrings.has_prefix p x) eqn:E.
  - f_equal. apply IH. intros y Hy. apply Hp. by right.
  - symmetry. apply elem_of_nil_inv. intros y [Hy Hpy]%filter_elem.
    rewrite Forall_forall in Hx. rewrite (has_prefix_between p x y) in E; try done; [|by apply Hx].
    apply Hp. left.
Qed.

Lemma seek_filter p l :
  StronglySorted (λ x y, String.leb x y = true) l →
  take_while (GoStrings.has_prefix p) (drop_while (λ k, String.ltb k p) l) =
  List.filter (GoStrings.has_prefix p) l.
Proof.
  induction 1 as [|x l Hl IH Hx]; [done|]. cbn [drop_while].
  destruct (String.ltb x p) eqn:E.
  - rewrite IH. simpl. destruct (GoStrings.has_prefix p x) eqn:Ep; [|done].
    apply has_prefix_leb in Ep. rewrite string_ltb_leb, Ep in E. done.
  - apply take_while_filter; [by constructor|]. rewrite string_ltb_leb, negb_false_iff in E.
    intros y [->|Hy]%elem_of_cons; [done|]. rewrite Forall_forall in Hx.
    apply (string_leb_trans _ x); [done|by apply Hx].
Qed.

Lemma cursor_sorted b : StronglySorted (λ x y, String.leb x y = true) (cursor b).
Proof.
  eapply StronglySorted_weaken; [|apply (sort_stable_sorted String.ltb (string_key_strict_weak id))].
  intros x y H. unfold not_after in H. by rewrite string_ltb_leb, negb_false_iff in H.
Qed.

Lemma cursor_elem b k : k ∈ cursor b ↔ is_Some (b !! k).
Proof.
  unfold cursor. rewrite sort_stable_perm, list_elem_of_fmap. split.
  - intros ((k' & v) & -> & H%elem_of_map_to_list). by eexists.
  - intros [v Hv]. exists (k, v). split; [done|]. by apply elem_of_map_to_list.
Qed.

Lemma cursor_nodup b : NoDup (cursor b).
Proof. unfold cursor. rewrite sort_stable_perm. apply NoDup_fst_map_to_list. Qed.

Lemma seek_prefix_filter p b : seek_prefix p b = List.filter (GoStrings.has_prefix p) (cursor b).
Proof. apply seek_filter, cursor_sorted. Qed.

Lemma seek_prefix_empty p : seek_prefix p ∅ = [].
Proof. rewrite seek_prefix_filter. unfold cursor. by rewrite map_to_list_empty. Qed.

Lemma seek_prefix_elem p b k :
  k ∈ seek_prefix p b ↔ is_Some (b !! k) ∧ GoStrings.has_prefix p k = true.
Proof. by rewrite seek_prefix_filter, filter_elem, cursor_elem. Qed.

(** ** History keys *)
Lemma digit_compare x y :
  0 ≤ x < 10 → 0 ≤ y < 10 → Ascii.compare (digit x) (digit y) = (x ?= y).
Proof.
  intros Hx Hy. unfold Ascii.compare, digit, ascii_of_nat.
  rewrite !N_ascii_embedding by lia. rewrite !Z_nat_N, <-N2Z.inj_compare, !Z2N.id by lia.
  apply Z.add_compare_mono_l.
Qed.

Lemma pad_mod k n : pad k (n mod 10 ^ Z.of_nat k) = pad k n.
Proof.
  assert (∀ j, (j ≤ k)%nat → pad j (n mod 10 ^ Z.of_nat k) = pad j n) as H; [|by apply H].
  induction j as [|j IH]; intros Hj; [done|]. cbn [pad]. rewrite IH by lia. f_equal. f_equal.
  replace (Z.of_nat k) with (Z.of_nat j + (1 + Z.of_nat (k - j - 1))) by lia.
  rewrite !Z.pow_add_r, Z.pow_1_r by lia. rewrite Z.rem_mul_r by (try apply Z.pow_nonzero; lia).
  rewrite (Z.mul_comm (10 ^ Z.of_nat j)), Z.div_add by (apply Z.pow_nonzero; lia).
  rewrite (Z.div_small (n mod _)) by (apply Z.mod_pos_bound; lia). rewrite Z.add_0_l.
  rewrite Z.rem_mul_r by (try apply Z.pow_nonzero; lia).
  rewrite (Z.mul_comm 10), Z.mod_add, Z.mod_mod by lia. done.
Qed.

(** Padded numbers order as numbers do. *)
Lemma pad_compare k a b :
  0 ≤ a < 10 ^ Z.of_nat k → 0 ≤ b < 10 ^ Z.of_nat k → (pad k a ?= pad k b)%string = (a ?= b).
Proof.
  revert a b. induction k as [|k IH]; intros a b.
  - simpl. intros. replace a with 0 by lia. by replace b with 0 by lia.
  - rewrite Nat2Z.inj_succ, Z.pow_succ_r by lia. intros Ha Hb. cbn [pad String.compare].
    set (p := 10 ^ Z.of_nat k) in *. assert (0 < p) by (apply Z.pow_pos_nonneg; lia).
    assert (0 ≤ a / p < 10 ∧ 0 ≤ b / p < 10) as [Hda Hdb].
    { split; (split; [apply Z.div_pos; lia|apply Z.div_lt_upper_bound; lia]). }
    rewrite !Z.mod_small by done. rewrite digit_compare by done.
    pose proof (Z.div_mod a p ltac:(lia)) as Ea. pose proof (Z.div_mod b p ltac:(lia)) as Eb.
    pose proof (Z.mod_pos_bound a p ltac:(lia)). pose proof (Z.mod_pos_bound b p ltac:(lia)).
    destruct (Z.compare_spec (a / p) (b / p)) as [E|E|E].
    + rewrite <-(pad_mod k a), <-(pad_mod k b). fold p. rewrite IH by done.
      symmetry. destruct (Z.compare_spec (a mod p) (b mod p));
        [apply Z.compare_eq_iff|apply Z.compare_lt_iff|apply Z.compare_gt_iff]; rewrite Ea, Eb, E; lia.
    + symmetry. apply Z.compare_lt_iff. nia.
    + symmetry. apply Z.compare_gt_iff. nia.
Qed.

Lemma compare_app u x y : (u +:+ x ?= u +:+ y)%string = (x ?= y)%string.
Proof.
  induction u as [|c u IH]; simpl; [done|]. unfold Ascii.compare. by rewrite N.compare_refl.
Qed.

Definition uid_ok (uid : string) : Prop := uid ≠ "" ∧ GoStrings.no_char Ascii.zero uid = true.
Definition version (rv : Z) : Prop := 0 < rv < 2 ^ 64.

Lemma historyKey_leb uid r r' :
  version r → version r' → String.leb (historyKey uid r) (historyKey uid r') = (r <=? r').
Proof.
  unfold version. intros H H'. unfold historyKey, String.leb. rewrite !compare_app, pad_compare by (simpl; lia).
  unfold Z.leb. by destruct (r ?= r').
Qed.

Lemma historyKey_cons uid r : historyKey uid r = uid +:+ String Ascii.zero (pad 20 r).
Proof. reflexivity. Qed.

Lemma pad_length k n : String.length (pad k n) = k.
Proof. induction k as [|k IH]; simpl; [done|]. by rewrite IH. Qed.

Lemma append_length (a b : string) : String.length (a +:+ b) = (String.length a + String.length b)%nat.
Proof.
  induction a as [|c a IH]; [done|].
  change (S (String.length (a +:+ b)) = S (String.length a + String.length b)). by rewrite IH.
Qed.

Lemma append_inj_len (a b x y : string) :
  String.length x = String.length y → a +:+ x = b +:+ y → a = b ∧ x = y.
Proof.
  intros Hl. revert b. induction a as [|c a IH]; intros [|d b] E; [done|..].
  - change (x = String d (b +:+ y)) in E. subst x. cbn [String.length] in Hl. fold (String.append b y) in Hl. rewrite append_length in Hl. lia.
  - change (String c (a +:+ x) = y) in E. subst y. cbn [String.length] in Hl. fold (String.append a x) in Hl. rewrite append_length in Hl. lia.
  - change (String c (a +:+ x) = String d (b +:+ y)) in E. injection E as -> E. by destruct (IH b E) as [-> ->].
Qed.

Lemma historyKey_inj uid r uid' r' :
  version r → version r' → historyKey uid r = historyKey uid' r' → uid = uid' ∧ r = r'.
Proof.
  intros Hr Hr' E. pose proof E as E'. rewrite !historyKey_cons in E'.
  apply append_inj_len in E' as [-> _]; [|cbn [String.length]; by rewrite !pad_length].
  split; [done|]. pose proof (historyKey_leb uid' r r' Hr Hr') as H1.
  pose proof (historyKey_leb uid' r' r Hr' Hr) as H2. rewrite E, string_leb_refl in H1.
  rewrite E, string_leb_refl in H2. symmetry in H1, H2. bools. lia.
Qed.

Lemma append_assoc (a b c : string) : (a +:+ b) +:+ c = a +:+ b +:+ c.
Proof. induction a as [|x a IH]; [done|]. change (String x ((a +:+ b) +:+ c) = String x (a +:+ b +:+ c)). by f_equal. Qed.

Lemma historyKey_prefix uid uid' r :
  uid_ok uid → uid_ok uid' →
  GoStrings.has_prefix (uid +:+ sep) (historyKey uid' r) = true ↔ uid = uid'.
Proof.
  intros [_ Hu] [_ Hu']. split.
  - intros (t & E)%has_prefix_Some. rewrite historyKey_cons, append_assoc in E.
    change (sep +:+ t) with (String Ascii.zero t) in E.
    pose proof (GoStrings.cut_app Ascii.zero uid t Hu) as H1.
    pose proof (GoStrings.cut_app Ascii.zero uid' (pad 20 r) Hu') as H2. rewrite E, H1 in H2. congruence.
  - intros ->. unfold historyKey. rewrite <-append_assoc. apply has_prefix_app.
Qed.

(** ** Pruning *)
Lemma foldr_delete_lookup (h : gmap string Enc) ks k :
  foldr delete h ks !! k = if bool_decide (k ∈ ks) then None else h !! k.
Proof.
  induction ks as [|k' ks IH]; cbn [foldr].
  - by rewrite bool_decide_eq_false_2 by (by intros ?%elem_of_nil).
  - destruct (decide (k = k')) as [->|Hne].
    + rewrite lookup_delete_eq, bool_decide_eq_true_2; [done|left].
    + rewrite lookup_delete_ne by done. rewrite IH.
      by rewrite (bool_decide_ext (k ∈ k' :: ks) (k ∈ ks)) by set_solver.
Qed.

Lemma seek_prefix_ext p (h h' : gmap string Enc) :
  (∀ k, GoStrings.has_prefix p k = true → is_Some (h !! k) ↔ is_Some (h' !! k)) →
  seek_prefix p h ≡ₚ seek_prefix p h'.
Proof.
  intros H. apply NoDup_Permutation.
  - rewrite seek_prefix_filter. apply NoDup_ListNoDup, List.NoDup_filter, NoDup_ListNoDup, cursor_nodup.
  - rewrite seek_prefix_filter. apply NoDup_ListNoDup, List.NoDup_filter, NoDup_ListNoDup, cursor_nodup.
  - intros k. rewrite !seek_prefix_elem. naive_solver.
Qed.

Lemma seek_prefix_nodup p h : NoDup (seek_prefix p h).
Proof. rewrite seek_prefix_filter. apply NoDup_ListNoDup, List.NoDup_filter, NoDup_ListNoDup, cursor_nodup. Qed.

Lemma pruned_lookup uid h k :
  pruneHistory uid h !! k =
  let keys := seek_prefix (uid +:+ sep) h in
  if bool_decide (k ∈ take (length keys - maxHistory) keys) then None else h !! k.
Proof. unfold pruneHistory. apply foldr_delete_lookup. Qed.

Lemma pruned_other uid h k :
  GoStrings.has_prefix (uid +:+ sep) k = false → pruneHistory uid h !! k = h !! k.
Proof.
  intros Hp. rewrite pruned_lookup. cbv zeta. rewrite bool_decide_eq_false_2; [done|].
  intros Hin%elem_of_take. destruct Hin as (i & Hi & _).
  apply list_elem_of_lookup_2, seek_prefix_elem in Hi as [_ Hi]. congruence.
Qed.

(** What is left of the object's revisions is the newest of them. *)
Lemma pruned_keys uid h :
  seek_prefix (uid +:+ sep) (pruneHistory uid h) ≡ₚ
  let keys := seek_prefix (uid +:+ sep) h in drop (length keys - maxHistory) keys.
Proof.
  cbv zeta. set (keys := seek_prefix _ h). set (n := (length keys - maxHistory)%nat).
  pose proof (seek_prefix_nodup (uid +:+ sep) h) as Hnd. fold keys in Hnd.
  apply NoDup_Permutation; [apply seek_prefix_nodup| |].
  - eapply sublist_NoDup; [exact Hnd|apply sublist_drop].
  - intros k. rewrite seek_prefix_elem, pruned_lookup. cbv zeta. fold keys. fold n.
    rewrite <-(take_drop n keys) in Hnd. apply NoDup_app in Hnd as (_ & Hdis & _).
    split.
    + intros [Hs Hp]. case_bool_decide as Ht; [by destruct Hs|].
      assert (k ∈ keys) as Hk by (by apply seek_prefix_elem).
      rewrite <-(take_drop n keys), elem_of_app in Hk. tauto.
    + intros Hd. rewrite bool_decide_eq_false_2 by (intros ?; by eapply Hdis).
      apply seek_prefix_elem. eapply sublist_subseteq; [apply sublist_drop|exact Hd].
Qed.

Lemma pruned_length uid h : (length (seek_prefix (uid +:+ sep) (pruneHistory uid h)) ≤ maxHistory)%nat.
Proof. rewrite pruned_keys. cbv zeta. rewrite length_drop. lia. Qed.

Lemma seek_prefix_sorted p h : StronglySorted (λ x y, String.leb x y = true) (seek_prefix p h).
Proof.
  rewrite seek_prefix_filter. pose proof (cursor_sorted h) as H.
  induction H as [|x l Hl IH Hx]; simpl; [constructor|].
  destruct (GoStrings.has_prefix p x); [|done]. constructor; [done|].
  rewrite Forall_forall in *. intros y [Hy _]%filter_elem. by apply Hx.
Qed.

(** A revision is pruned only for ten newer ones. *)
Lemma pruned_gone uid h k :
  k ∈ seek_prefix (uid +:+ sep) h → pruneHistory uid h !! k = None →
  let kept := drop (length (seek_prefix (uid +:+ sep) h) - maxHistory) (seek_prefix (uid +:+ sep) h) in
  length kept = maxHistory ∧ ∀ k', k' ∈ kept → String.leb k k' = true ∧ k ≠ k'.
Proof.
  intros Hk Hp. cbv zeta. rewrite pruned_lookup in Hp. cbv zeta in Hp.
  pose proof (seek_prefix_sorted (uid +:+ sep) h) as Hs. pose proof (seek_prefix_nodup (uid +:+ sep) h) as Hnd.
  apply seek_prefix_elem in Hk as [[v Hv] _].
  set (keys := seek_prefix _ h) in *. set (n := (length keys - maxHistory)%nat) in *.
  case_bool_decide as Hin; [|congruence].
  assert (n ≠ 0%nat) as Hn by (intros E; rewrite E, take_0 in Hin; by apply elem_of_nil in Hin).
  split; [rewrite length_drop; lia|]. intros k' Hk'. rewrite <-(take_drop n keys) in Hs, Hnd.
  split; [exact (StronglySorted_app_1_elem_of _ _ _ _ _ Hs Hin Hk')|]. intros <-.
  apply NoDup_app in Hnd as (_ & Hdis & _). by eapply Hdis.
Qed.

Lemma pruned_newest uid h k :
  is_Some (h !! k) → (∀ k', k' ∈ seek_prefix (uid +:+ sep) h → String.leb k' k = true) →
  pruneHistory uid h !! k = h !! k.
Proof.
  intros [v Hv] Hmax. destruct (GoStrings.has_prefix (uid +:+ sep) k) eqn:Ep; [|by apply pruned_other].
  destruct (pruneHistory uid h !! k) eqn:E.
  - rewrite pruned_lookup in E. cbv zeta in E. case_bool_decide; congruence.
  - destruct (pruned_gone uid h k) as [Hlen Hk]; [by apply seek_prefix_elem|done|].
    destruct (drop _ _) as [|k' l] eqn:Ed; [done|]. destruct (Hk k') as [H1 H2]; [left|].
    destruct H2. apply string_leb_antisym; [done|]. apply Hmax.
    eapply sublist_subseteq; [apply (sublist_drop _ (length (seek_prefix (uid +:+ sep) h) - maxHistory))|].
    rewrite Ed. left.
Qed.

(** ** Counters *)
Lemma ParseUint_itoa z : version z → ParseUint_value (GoStrings.itoa z) = z.
Proof.
  intros Hz. unfold version in Hz. rewrite GoStrings.itoa_pos by lia.
  pose proof (GoStrings.parse_digits_pretty_go (Z.to_N z) "") as Hp. simpl in Hp.
  rewrite Z2N.id in Hp by lia. unfold ParseUint_value.
  assert (pretty.pretty_N_go (Z.to_N z) "" ≠ "") as Hne.
  { intros E. rewrite E in Hp. simpl in Hp. simplify_eq. lia. }
  rewrite (GoStrings.parse_unsigned_digits _ z Hp Hne). destruct (Z.ltb_spec z (2 ^ 64)); lia.
Qed.

Lemma itoa_inj a b : version a → version b → GoStrings.itoa a = GoStrings.itoa b → a = b.
Proof. intros Ha Hb E. by rewrite <-(ParseUint_itoa a Ha), E, ParseUint_itoa. Qed.

Definition counter (t : Buckets) (bkey : string) : Z :=
  match bk_seq t !! bkey with Some v => ParseUint_value v | None => 0 end.

(** The uid a history prefix carries is all it matches. *)
Lemma historyKey_prefix_gen uid uid' r :
  uid_ok uid → uid_ok uid' → GoStrings.has_prefix (uid +:+ sep) (uid' +:+ sep +:+ r) = true → uid = uid'.
Proof.
  intros [_ Hu] [_ Hu'] (t & E)%has_prefix_Some. rewrite append_assoc in E.
  change (sep +:+ t) with (String Ascii.zero t) in E. change (sep +:+ r) with (String Ascii.zero r) in E.
  pose proof (GoStrings.cut_app Ascii.zero uid t Hu) as H1.
  pose proof (GoStrings.cut_app Ascii.zero uid' r Hu') as H2. rewrite E, H1 in H2. congruence.
Qed.

Lemma with_status_of_self o : with_status_of o o = o.
Proof.
  destruct o as [api kind m f]. unfold with_status_of. simpl. f_equal. apply map_eq. intros k.
  destruct (decide (k = "status")) as [->|]; [by rewrite lookup_partial_alter_eq|by rewrite lookup_partial_alter_ne].
Qed.
