(* ===== verification/BoltInvariant.v ===== *)
(** * The embedded store's invariant

    Every record decodes and sits under its own key, an object's uid names one record, each
    retained revision belongs to the live object of its uid, no object keeps more than
    [maxHistory] of them, the newest is the record itself, and no version exceeds its Kind's
    counter.  Every write preserves it. *)
From stdpp Require Import gmap strings list sorting.
From Stdlib Require Import ZArith Ascii.
From S2P Require Import Prelude Resources CoreV1 ApiObjects Bolt BoltFacts.
#[local] Open Scope Z_scope.

Section Invariant.
Context (ParseGroupVersion : string → result error (string * string)) (sch : Scheme).
Abbreviation decode := (decode ParseGroupVersion sch).
Abbreviation gvk_of := (gvk_of ParseGroupVersion).
Abbreviation noHistory := (noHistory sch).
Abbreviation commit := (commit sch).
Implicit Types (t : Buckets) (o : TObject).

Definition uid_of o : string := om_UID (ob_meta o).
Definition key_of o : string := recordKey (om_Namespace (ob_meta o)) (om_Name (ob_meta o)).

Definition registered o : Prop :=
  ∃ g v, ParseGroupVersion (ob_APIVersion o) = Ok (g, v) ∧ (g, v, ob_Kind o) ∈ sch_m sch.

Lemma decode_marshal o : wf_obj o → registered o → decode (marshal o) = Ok o.
Proof.
  intros Hwf (g & v & Hp & Hin). unfold Bolt.decode. rewrite text_kind, text_api, Hp.
  destruct Hwf as (Hk & ? & ?). rewrite bool_decide_eq_false_2, bool_decide_eq_true_2 by done.
  by rewrite unmarshal_marshal.
Qed.

(** An object as the store holds it in [bkey], its version [rv] being at most [n]. *)
Record stored_obj (bkey : string) (n : Z) (o : TObject) (rv : Z) : Prop := {
  so_wf : wf_obj o;
  so_registered : registered o;
  so_bucket : bucketKeyFor (gvk_of o) = Ok bkey;
  so_uid : uid_ok (uid_of o);
  so_version : om_ResourceVersion (ob_meta o) = GoStrings.itoa rv;
  so_range : version rv;
  so_bound : rv ≤ n;
}.

Lemma so_decode bkey n o rv : stored_obj bkey n o rv → decode (marshal o) = Ok o.
Proof. intros []. by apply decode_marshal. Qed.

Lemma so_weaken bkey n n' o rv : n ≤ n' → stored_obj bkey n o rv → stored_obj bkey n' o rv.
Proof. intros ? []. split; try done. lia. Qed.

Record store_wf t : Prop := {
  sw_seq bkey v : bk_seq t !! bkey = Some v → ∃ n, v = GoStrings.itoa n ∧ version n;
  sw_head bkey key enc : head t bkey key = Some enc →
    ∃ o rv, enc = marshal o ∧ stored_obj bkey (counter t bkey) o rv ∧ key = key_of o;
  sw_owner bkey o o' : head t bkey (key_of o) = Some (marshal o) →
    head t bkey (key_of o') = Some (marshal o') → wf_obj o → wf_obj o' →
    uid_of o = uid_of o' → key_of o = key_of o';
  sw_history bkey hk enc : bucket (bk_history t) bkey !! hk = Some enc →
    noHistory bkey = false ∧ ∃ o rv cur, enc = marshal o ∧ stored_obj bkey (counter t bkey) o rv ∧
      hk = historyKey (uid_of o) rv ∧ head t bkey (key_of o) = Some (marshal cur) ∧ wf_obj cur ∧
      uid_of cur = uid_of o;
  sw_bound bkey uid : uid_ok uid →
    (length (seek_prefix (uid +:+ sep) (bucket (bk_history t) bkey)) ≤ maxHistory)%nat;
  sw_latest bkey o rv : noHistory bkey = false → head t bkey (key_of o) = Some (marshal o) →
    stored_obj bkey (counter t bkey) o rv →
    ∃ o', revision t bkey (uid_of o) rv = Some (marshal o') ∧ wf_obj o' ∧ with_status_of o o' = o;
}.

(** ** The pieces of a write *)
Lemma bucket_insert b bkey x bkey' :
  bucket (<[bkey := x]> b) bkey' = if bool_decide (bkey' = bkey) then x else bucket b bkey'.
Proof.
  unfold bucket. case_bool_decide as H; [subst; by rewrite lookup_insert_eq|by rewrite lookup_insert_ne].
Qed.

Lemma head_putHead bkey key enc t bkey' key' :
  head (putHead bkey key enc t) bkey' key' =
  if bool_decide (bkey' = bkey ∧ key' = key) then Some enc else head t bkey' key'.
Proof.
  unfold head, putHead. cbn [bk_heads]. rewrite bucket_insert.
  destruct (decide (bkey' = bkey)) as [->|Hb].
  - rewrite (bool_decide_eq_true_2 (bkey = bkey)) by done.
    destruct (decide (key' = key)) as [->|Hk].
    + by rewrite lookup_insert_eq, bool_decide_eq_true_2.
    + rewrite lookup_insert_ne by done. by rewrite bool_decide_eq_false_2 by naive_solver.
  - rewrite !bool_decide_eq_false_2 by naive_solver. done.
Qed.

Lemma head_commit bkey key uid rv enc t bkey' key' :
  head (commit bkey key uid rv enc t) bkey' key' =
  if bool_decide (bkey' = bkey ∧ key' = key) then Some enc else head t bkey' key'.
Proof.
  rewrite <-head_putHead. unfold Bolt.commit. by destruct (noHistory bkey).
Qed.

Lemma counter_commit bkey key uid rv enc t bkey' :
  counter (commit bkey key uid rv enc t) bkey' = counter t bkey'.
Proof. unfold Bolt.commit. by destruct (noHistory bkey). Qed.

Lemma history_commit bkey key uid rv enc t bkey' :
  bucket (bk_history (commit bkey key uid rv enc t)) bkey' =
  if bool_decide (bkey' = bkey) && negb (noHistory bkey)
  then pruneHistory uid (<[historyKey uid rv := enc]> (bucket (bk_history t) bkey))
  else bucket (bk_history t) bkey'.
Proof.
  unfold Bolt.commit. destruct (noHistory bkey) eqn:E; simpl; [by rewrite andb_false_r|].
  rewrite andb_true_r. apply bucket_insert.
Qed.

(** The next version of a Kind, short of the counter's end. *)
Lemma nextRV_spec bkey t :
  store_wf t → counter t bkey < 2 ^ 64 - 1 →
  nextRV bkey t = (counter t bkey + 1,
    mkBuckets (<[bkey := GoStrings.itoa (counter t bkey + 1)]> (bk_seq t)) (bk_heads t) (bk_history t)) ∧
  version (counter t bkey + 1).
Proof.
  intros Hwf Hroom. unfold nextRV. fold (counter t bkey).
  assert (0 ≤ counter t bkey) as Hpos.
  { unfold counter in *. destruct (bk_seq t !! bkey) eqn:E; [|done].
    destruct (sw_seq t Hwf _ _ E) as (n & -> & Hn). rewrite ParseUint_itoa by done. unfold version in Hn. lia. }
  rewrite Z.mod_small by lia. split; [done|]. unfold version. lia.
Qed.

Lemma counter_next bkey t n bkey' :
  version n →
  counter (mkBuckets (<[bkey := GoStrings.itoa n]> (bk_seq t)) (bk_heads t) (bk_history t)) bkey' =
  if bool_decide (bkey' = bkey) then n else counter t bkey'.
Proof.
  intros Hn. unfold counter. cbn [bk_seq]. case_bool_decide as H.
  - subst. by rewrite lookup_insert_eq, ParseUint_itoa.
  - by rewrite lookup_insert_ne.
Qed.

Lemma stored_head t bkey key enc :
  store_wf t → head t bkey key = Some enc →
  ∃ o rv, enc = marshal o ∧ stored_obj bkey (counter t bkey) o rv ∧ key = key_of o ∧
    head t bkey (key_of o) = Some (marshal o).
Proof.
  intros Hwf H. destruct (sw_head t Hwf _ _ _ H) as (o & rv & -> & Ho & ->). eauto 10.
Qed.

(** [uid] is the uid of the record at [key] and of no other. *)
Definition owns t bkey key uid : Prop :=
  ∀ o, head t bkey (key_of o) = Some (marshal o) → wf_obj o → uid_of o = uid ↔ key_of o = key.

(** Committing a core write of [o] at the next version. *)
Definition core_write bkey o t : Buckets :=
  commit bkey (key_of o) (uid_of o) (counter t bkey + 1) (marshal o) (snd (nextRV bkey t)).

Section Commit.
Context (t : Buckets) (Hwf : store_wf t) (bkey : string) (o : TObject).
Context (Hroom : counter t bkey < 2 ^ 64 - 1).
Context (Ho : stored_obj bkey (counter t bkey + 1) o (counter t bkey + 1)).
Context (Hown : owns t bkey (key_of o) (uid_of o)).

Abbreviation n := (counter t bkey).
Abbreviation t' := (core_write bkey o t).

Lemma cw_head bkey' key' :
  head t' bkey' key' = if bool_decide (bkey' = bkey ∧ key' = key_of o) then Some (marshal o) else head t bkey' key'.
Proof. unfold core_write. destruct (nextRV_spec bkey t Hwf Hroom) as [-> _]. by rewrite head_commit. Qed.

Lemma cw_counter bkey' : counter t' bkey' = if bool_decide (bkey' = bkey) then n + 1 else counter t bkey'.
Proof.
  unfold core_write. destruct (nextRV_spec bkey t Hwf Hroom) as [-> Hv]. cbn [snd].
  by rewrite counter_commit, counter_next.
Qed.

Lemma cw_history bkey' :
  bucket (bk_history t') bkey' =
  if bool_decide (bkey' = bkey) && negb (noHistory bkey)
  then pruneHistory (uid_of o) (<[historyKey (uid_of o) (n + 1) := marshal o]> (bucket (bk_history t) bkey))
  else bucket (bk_history t) bkey'.
Proof. unfold core_write. destruct (nextRV_spec bkey t Hwf Hroom) as [-> _]. by rewrite history_commit. Qed.

Lemma cw_counter_le bkey' : counter t bkey' ≤ counter t' bkey'.
Proof. rewrite cw_counter. case_bool_decide; [subst; lia|lia]. Qed.

(** What is in the new history was in the old, or is the new revision. *)
Lemma cw_history_elem bkey' hk enc :
  bucket (bk_history t') bkey' !! hk = Some enc →
  bucket (bk_history t) bkey' !! hk = Some enc ∨
  (bkey' = bkey ∧ noHistory bkey = false ∧ hk = historyKey (uid_of o) (n + 1) ∧ enc = marshal o).
Proof.
  rewrite cw_history. destruct (_ && _) eqn:E; [|by left]. bools. destruct E as [-> Hno].
  rewrite pruned_lookup. cbv zeta. case_bool_decide; [done|].
  rewrite lookup_insert_Some. intros [[<- <-]|[_ ?]]; auto.
Qed.

(** A record of the new store. *)
Lemma cw_head_cases bkey' key' enc :
  head t' bkey' key' = Some enc →
  (bkey' = bkey ∧ key' = key_of o ∧ enc = marshal o) ∨
  (¬ (bkey' = bkey ∧ key' = key_of o) ∧ head t bkey' key' = Some enc).
Proof. rewrite cw_head. case_bool_decide; [intros; simplify_eq; tauto|auto]. Qed.

(** The history keys of the written object are its older versions and the new one. *)
Lemma cw_newest k :
  k ∈ seek_prefix (uid_of o +:+ sep) (<[historyKey (uid_of o) (n + 1) := marshal o]> (bucket (bk_history t) bkey)) →
  String.leb k (historyKey (uid_of o) (n + 1)) = true.
Proof.
  intros [[enc Hk] Hp]%seek_prefix_elem. rewrite lookup_insert_Some in Hk.
  destruct Hk as [[<- _]|[_ Hk]]; [apply string_leb_refl|].
  destruct (sw_history t Hwf _ _ _ Hk) as (_ & o' & rv & cur & _ & Ho' & -> & _).
  apply historyKey_prefix in Hp; [|apply Ho|apply Ho']. rewrite Hp.
  pose proof (so_range _ _ _ _ Ho). destruct Ho' as [_ _ _ _ _ Hr Hb].
  rewrite historyKey_leb by done. apply Z.leb_le. lia.
Qed.

Lemma cw_revision :
  noHistory bkey = false → revision t' bkey (uid_of o) (n + 1) = Some (marshal o).
Proof.
  intros Hno. unfold revision. rewrite cw_history, bool_decide_eq_true_2, Hno by done. simpl.
  rewrite pruned_newest; [apply lookup_insert_eq|rewrite lookup_insert_eq; by eexists|apply cw_newest].
Qed.

(** Another object's revisions stay. *)
Lemma cw_revision_other bkey' uid rv :
  uid_ok uid → (bkey' = bkey → uid ≠ uid_of o) → revision t' bkey' uid rv = revision t bkey' uid rv.
Proof.
  intros Hu Hne. unfold revision. rewrite cw_history. destruct (_ && _) eqn:E; [|done].
  bools. destruct E as [-> _]. assert (GoStrings.has_prefix (uid_of o +:+ sep) (historyKey uid rv) = false) as Hp.
  { apply not_true_iff_false. rewrite historyKey_prefix by (try apply Ho; done). intros ?. by apply Hne. }
  rewrite pruned_other, lookup_insert_ne; [done| |done].
  intros E. rewrite <-E in Hp. apply not_true_iff_false in Hp. destruct Hp.
  rewrite historyKey_prefix; [done|apply Ho..].
Qed.

Lemma cw_bound bkey' uid :
  uid_ok uid → (length (seek_prefix (uid +:+ sep) (bucket (bk_history t') bkey')) ≤ maxHistory)%nat.
Proof.
  intros Hu. rewrite cw_history. destruct (_ && _) eqn:E; [|by apply (sw_bound t Hwf)].
  bools. destruct E as [-> _]. destruct (decide (uid = uid_of o)) as [->|Hne]; [apply pruned_length|].
  rewrite (seek_prefix_ext _ _ (bucket (bk_history t) bkey)); [by apply (sw_bound t Hwf)|].
  intros k Hp. assert (GoStrings.has_prefix (uid_of o +:+ sep) k = false ∧ historyKey (uid_of o) (n + 1) ≠ k) as [Hp' Hk].
  { split.
    - apply not_true_iff_false. intros (r & ->)%has_prefix_Some. rewrite append_assoc in Hp.
      apply Hne. apply (historyKey_prefix_gen uid (uid_of o) r); [done|apply Ho|done].
    - intros <-. apply historyKey_prefix in Hp; [done|done|apply Ho]. }
  by rewrite pruned_other, lookup_insert_ne.
Qed.

Lemma cw_history_wf bkey' hk enc :
  bucket (bk_history t') bkey' !! hk = Some enc →
  noHistory bkey' = false ∧ ∃ a rv cur, enc = marshal a ∧ stored_obj bkey' (counter t' bkey') a rv ∧
    hk = historyKey (uid_of a) rv ∧ head t' bkey' (key_of a) = Some (marshal cur) ∧ wf_obj cur ∧
    uid_of cur = uid_of a.
Proof.
  intros [H|(-> & Hno & -> & ->)]%cw_history_elem.
  - destruct (sw_history t Hwf _ _ _ H) as (Hno & a & rv & cur & -> & Ha & -> & Hc & Hwc & Eu).
    split; [done|]. assert (stored_obj bkey' (counter t' bkey') a rv)
      by (eapply so_weaken; [apply cw_counter_le|done]).
    destruct (decide (bkey' = bkey ∧ key_of a = key_of o)) as [[-> Ek]|Hne].
    + exists a, rv, o. rewrite cw_head, bool_decide_eq_true_2 by done. split_and!; try done; [apply Ho|].
      destruct (stored_head t bkey _ _ Hwf Hc) as (c & rc & Mc & Hoc & Ekc & Hhc).
      apply marshal_inj in Mc as <-; [|done|apply Hoc].
      rewrite <-Eu. symmetry. apply (Hown cur); [done..|]. congruence.
    + exists a, rv, cur. rewrite cw_head, bool_decide_eq_false_2 by done. by split_and!.
  - split; [done|]. exists o, (n + 1), o. rewrite cw_counter, cw_head, !bool_decide_eq_true_2 by done.
    split_and!; try done; apply Ho.
Qed.

Lemma cw_latest bkey' a rv :
  noHistory bkey' = false → head t' bkey' (key_of a) = Some (marshal a) →
  stored_obj bkey' (counter t' bkey') a rv →
  ∃ a', revision t' bkey' (uid_of a) rv = Some (marshal a') ∧ wf_obj a' ∧ with_status_of a a' = a.
Proof.
  intros Hno Ha Hsa. apply cw_head_cases in Ha as [(-> & Ea & Ma)|[Hna Ha]].
  - apply marshal_inj in Ma as ->; [|apply Hsa|apply Ho]. exists o.
    assert (rv = n + 1) as ->.
    { apply itoa_inj; [apply Hsa|apply Ho|]. rewrite <-(so_version _ _ _ _ Hsa). apply Ho. }
    rewrite cw_revision by done. split_and!; [done|apply Ho|]. by apply with_status_of_self.
  - destruct (stored_head t bkey' _ _ Hwf Ha) as (a' & ra & Ma & Hoa & _ & _).
    apply marshal_inj in Ma as <-; [|apply Hsa|apply Hoa].
    assert (rv = ra) as ->.
    { apply itoa_inj; [apply Hsa|apply Hoa|]. rewrite <-(so_version _ _ _ _ Hsa). apply Hoa. }
    rewrite cw_revision_other; [by apply (sw_latest t Hwf)|apply Hoa|].
    intros -> Eu. apply Hna. split; [done|]. apply (Hown a); [done|apply Hoa|done].
Qed.

Lemma core_write_wf : store_wf t'.
Proof.
  pose proof (nextRV_spec bkey t Hwf Hroom) as [Hnext Hver].
  split; [..|apply cw_history_wf|apply cw_bound|apply cw_latest].
  - intros bkey' v. unfold core_write. rewrite Hnext. cbn [snd]. unfold Bolt.commit.
    intros Hs. assert ((<[bkey := GoStrings.itoa (n + 1)]> (bk_seq t)) !! bkey' = Some v) as Hs'
      by (by destruct (noHistory bkey)).
    rewrite lookup_insert_Some in Hs'. destruct Hs' as [[_ <-]|[_ Hs']]; [by eauto|]. by apply (sw_seq t Hwf bkey').
  - intros bkey' key' enc [(-> & -> & ->)|[_ H]]%cw_head_cases.
    + exists o, (n + 1). rewrite cw_counter, bool_decide_eq_true_2 by done. by split_and!.
    + destruct (sw_head t Hwf _ _ _ H) as (o' & rv & -> & Ho' & ->). exists o', rv. split_and!; try done.
      eapply so_weaken; [apply cw_counter_le|done].
  - intros bkey' a b Ha Hb Hwa Hwb E.
    apply cw_head_cases in Ha as [(-> & Ea & Ma)|[Hna Ha]], Hb as [(Eb1 & Eb & Mb)|[Hnb Hb]]; try congruence.
    + apply marshal_inj in Ma as ->; [|done|apply Ho]. symmetry. by apply Hown.
    + subst bkey'. apply marshal_inj in Mb as ->; [|done|apply Ho]. by apply Hown.
    + by apply (sw_owner t Hwf bkey').
Qed.
End Commit.

(** ** Status writes *)
Section Status.
Context (t : Buckets) (Hwf : store_wf t) (bkey : string) (cur o : TObject) (rv : Z).
Context (Hcur : head t bkey (key_of cur) = Some (marshal cur)) (Hsc : stored_obj bkey (counter t bkey) cur rv).
Context (Hwo : wf_obj o) (Hsame : with_status_of o cur = o).

Abbreviation t' := (putHead bkey (key_of cur) (marshal o) t).

Lemma status_meta : ob_meta o = ob_meta cur ∧ ob_APIVersion o = ob_APIVersion cur ∧ ob_Kind o = ob_Kind cur.
Proof. by rewrite <-Hsame. Qed.

Lemma status_stored : stored_obj bkey (counter t bkey) o rv ∧ key_of o = key_of cur ∧ uid_of o = uid_of cur.
Proof.
  destruct status_meta as (Em & Ea & Ek), Hsc as [? Hreg Hb Hu Hv Hr Hbd].
  unfold key_of, uid_of, registered, Bolt.gvk_of in *. split_and!; [|by rewrite Em..].
  split; unfold registered, Bolt.gvk_of, uid_of; rewrite ?Em, ?Ea, ?Ek; done.
Qed.

Lemma st_head bkey' key' :
  head t' bkey' key' = if bool_decide (bkey' = bkey ∧ key' = key_of cur) then Some (marshal o) else head t bkey' key'.
Proof. apply head_putHead. Qed.

Lemma st_head_cases bkey' a :
  head t' bkey' (key_of a) = Some (marshal a) → wf_obj a →
  (bkey' = bkey ∧ a = o) ∨ (¬ (bkey' = bkey ∧ key_of a = key_of cur) ∧ head t bkey' (key_of a) = Some (marshal a)).
Proof.
  intros H Ha. rewrite st_head in H. case_bool_decide as Hb; [|by right].
  simplify_eq. left. destruct Hb as [-> _]. split; [done|]. symmetry. by apply marshal_inj.
Qed.

(** The record's uid before and after. *)
Lemma st_before bkey' a :
  head t' bkey' (key_of a) = Some (marshal a) → wf_obj a →
  ∃ b, head t bkey' (key_of b) = Some (marshal b) ∧ wf_obj b ∧ key_of b = key_of a ∧ uid_of b = uid_of a.
Proof.
  intros H Ha. destruct status_stored as (Hso & Ek & Eu).
  destruct (st_head_cases _ _ H Ha) as [[-> ->]|[_ H']]; [exists cur; by split_and!; try apply Hsc|by eauto].
Qed.

Lemma status_write_wf : store_wf t'.
Proof.
  destruct status_stored as (Hso & Ek & Eu). split.
  - apply (sw_seq t Hwf).
  - intros bkey' key' enc. rewrite st_head. case_bool_decide as Hb.
    + destruct Hb as [-> ->]. intros [= <-]. exists o, rv. by split_and!.
    + apply (sw_head t Hwf).
  - intros bkey' a b Ha Hb Hwa Hwb E.
    destruct (st_before _ _ Ha Hwa) as (a' & ? & ? & <- & ?), (st_before _ _ Hb Hwb) as (b' & ? & ? & <- & ?).
    apply (sw_owner t Hwf bkey'); try done. congruence.
  - intros bkey' hk enc H. destruct (sw_history t Hwf _ _ _ H) as (Hno & a & r & c & -> & Ha & -> & Hc & Hwc & E).
    split; [done|]. exists a, r. rewrite st_head. case_bool_decide as Hb; [|by exists c].
    exists o. destruct Hb as [-> Eka]. split_and!; try done. rewrite Eka, Hcur in Hc.
    simplify_eq. rewrite Eu, <-E. f_equal. apply marshal_inj; [apply Hsc|done|done].
  - apply (sw_bound t Hwf).
  - intros bkey' a r Hno H Hsa. destruct (st_head_cases _ _ H) as [[-> ->]|[_ H']]; [apply Hsa| |by apply (sw_latest t Hwf)].
    assert (r = rv) as ->.
    { apply itoa_inj; [apply Hsa|apply Hsc|]. rewrite <-(so_version _ _ _ _ Hsa). apply Hso. }
    destruct (sw_latest t Hwf bkey cur rv Hno Hcur Hsc) as (o' & Hrev & Hwo' & E').
    exists o'. rewrite Eu. split_and!; [done..|]. rewrite <-Hsame, <-E'.
    destruct o as [? ? ? fo], o' as [? ? ? fo']. unfold with_status_of in *. simpl in *. f_equal.
    apply map_eq. intros k. destruct (decide (k = "status")) as [->|];
      rewrite ?lookup_partial_alter_eq, ?lookup_partial_alter_ne by done; done.
Qed.
End Status.

(** ** Deletion *)
Section Deletion.
Context (t : Buckets) (Hwf : store_wf t) (bkey : string) (cur : TObject) (rv : Z).
Context (Hcur : head t bkey (key_of cur) = Some (marshal cur)) (Hsc : stored_obj bkey (counter t bkey) cur rv).

Abbreviation t' := (deleteHistory bkey (uid_of cur) (deleteHead bkey (key_of cur) t)).

Lemma dl_head bkey' key' :
  head t' bkey' key' = if bool_decide (bkey' = bkey ∧ key' = key_of cur) then None else head t bkey' key'.
Proof.
  assert (head t' bkey' key' = head (deleteHead bkey (key_of cur) t) bkey' key') as ->.
  { unfold deleteHistory. by destruct (_ !! bkey). }
  unfold head, deleteHead, bucket. cbn [bk_heads]. destruct (decide (bkey' = bkey)) as [->|Hb].
  - rewrite lookup_alter_eq. destruct (bk_heads t !! bkey) as [b|]; simpl; [|by case_bool_decide].
    destruct (decide (key' = key_of cur)) as [->|].
    + by rewrite lookup_delete_eq, bool_decide_eq_true_2.
    + rewrite lookup_delete_ne by done. by rewrite bool_decide_eq_false_2 by naive_solver.
  - rewrite lookup_alter_ne by done. by rewrite bool_decide_eq_false_2 by naive_solver.
Qed.

Lemma dl_counter bkey' : counter t' bkey' = counter t bkey'.
Proof. unfold counter, deleteHistory. by destruct (_ !! bkey). Qed.

Lemma dl_history bkey' hk :
  bucket (bk_history t') bkey' !! hk =
  if bool_decide (bkey' = bkey) && GoStrings.has_prefix (uid_of cur +:+ sep) hk then None
  else bucket (bk_history t) bkey' !! hk.
Proof.
  unfold deleteHistory. cbn [bk_history deleteHead]. destruct (bk_history t !! bkey) as [h|] eqn:Eh; cbn [bk_history].
  - rewrite bucket_insert. case_bool_decide as Hb; [|done]. subst bkey'. rewrite foldr_delete_lookup.
    assert (bucket (bk_history t) bkey = h) as -> by (unfold bucket; by rewrite Eh). simpl.
    destruct (GoStrings.has_prefix _ hk) eqn:Ep; case_bool_decide as Hin; try done.
    + rewrite seek_prefix_elem in Hin. apply eq_None_not_Some. tauto.
    + apply seek_prefix_elem in Hin as [_ ?]. congruence.
  - destruct (_ && _) eqn:E; [|done]. bools. destruct E as [-> _].
    unfold bucket. cbn [bk_history deleteHead]. rewrite Eh. apply lookup_empty.
Qed.

(** A revision that is left belongs to another object. *)
Lemma dl_left bkey' hk enc :
  bucket (bk_history t') bkey' !! hk = Some enc →
  bucket (bk_history t) bkey' !! hk = Some enc ∧
  (bkey' = bkey → GoStrings.has_prefix (uid_of cur +:+ sep) hk = false).
Proof.
  rewrite dl_history. destruct (_ && _) eqn:E; [done|]. intros H. split; [done|]. intros ->.
  by rewrite bool_decide_eq_true_2 in E.
Qed.

Lemma delete_wf : store_wf t'.
Proof.
  split.
  - intros bkey' v. unfold deleteHistory. destruct (_ !! bkey); apply (sw_seq t Hwf).
  - intros bkey' key' enc. rewrite dl_head, dl_counter. case_bool_decide; [done|]. apply (sw_head t Hwf).
  - intros bkey' a b. rewrite !dl_head. do 2 (case_bool_decide; [done|]). apply (sw_owner t Hwf).
  - intros bkey' hk enc [H Hp]%dl_left.
    destruct (sw_history t Hwf _ _ _ H) as (Hno & a & r & c & -> & Ha & -> & Hc & Hwc & E).
    split; [done|]. exists a, r, c. rewrite dl_head, dl_counter. split_and!; try done.
    rewrite bool_decide_eq_false_2; [done|]. intros [-> Ek]. specialize (Hp eq_refl).
    apply not_true_iff_false in Hp. destruct Hp. apply historyKey_prefix; [apply Hsc|apply Ha|].
    rewrite Ek, Hcur in Hc. simplify_eq. rewrite <-E. f_equal. apply marshal_inj; [apply Hsc|done|done].
  - intros bkey' uid Hu. transitivity (length (seek_prefix (uid +:+ sep) (bucket (bk_history t) bkey')));
      [|by apply (sw_bound t Hwf)].
    apply submseteq_length, NoDup_submseteq; [apply seek_prefix_nodup|].
    intros k. rewrite !seek_prefix_elem. intros [[e (He & _)%dl_left] Hp]. split; [by eexists|done].
  - intros bkey' a r Hno. rewrite dl_head, dl_counter. case_bool_decide as Hb; [done|]. intros Ha Hsa.
    destruct (sw_latest t Hwf _ _ _ Hno Ha Hsa) as (o' & Hrev & ?). exists o'. split; [|done].
    unfold revision in *. rewrite dl_history. destruct (_ && _) eqn:E; [|done]. bools. destruct E as [-> Hp].
    apply historyKey_prefix in Hp; [|apply Hsc|apply Hsa]. destruct Hb. split; [done|].
    apply (sw_owner t Hwf bkey); try done; [apply Hsa|apply Hsc].
Qed.
End Deletion.
End Invariant.
