(* ===== verification/BoltTheorems.v ===== *)
(** * What the embedded store promises

    Each operation on a well-formed store is described by the buckets it leaves
    ([create_spec] and the like); the promises of the storage contract follow: optimistic
    concurrency, the split between core state and status, rollback, retention, and the
    watch bus. *)
From stdpp Require Import gmap strings list sorting.
From Stdlib Require Import ZArith Ascii.
From S2P Require Import Prelude Resources CoreV1 ApiObjects Bolt BoltFacts BoltInvariant.
#[local] Open Scope Z_scope.

Section Operations.
Context (ParseGroupVersion : string → result error (string * string)).
Context {Selector : Type} (sel_Parse : string → result error Selector)
  (sel_Empty : Selector → bool) (sel_Matches : Selector → gmap string string → bool)
  (sel_Everything : Selector).
Context (sch : Scheme).
Abbreviation DB := (DB (Selector := Selector)).
Abbreviation decode := (decode ParseGroupVersion sch).
Abbreviation gvk_of := (gvk_of ParseGroupVersion).
Abbreviation registered := (registered ParseGroupVersion sch).
Abbreviation stored_obj := (stored_obj ParseGroupVersion sch).
Abbreviation store_wf := (store_wf ParseGroupVersion sch).
Abbreviation core_write := (core_write sch).
Abbreviation noHistory := (noHistory sch).
Abbreviation publish := (publish sel_Empty sel_Matches).
Abbreviation bolt_Create := (bolt_Create ParseGroupVersion sel_Empty sel_Matches sch).
Abbreviation bolt_Update := (bolt_Update ParseGroupVersion sel_Empty sel_Matches sch).
Abbreviation bolt_UpdateSubresource := (bolt_UpdateSubresource ParseGroupVersion sel_Empty sel_Matches sch).
Abbreviation bolt_Rollback := (bolt_Rollback ParseGroupVersion sel_Empty sel_Matches sch).
Abbreviation bolt_Delete := (bolt_Delete ParseGroupVersion sel_Empty sel_Matches sch).
Abbreviation bolt_Get := (bolt_Get ParseGroupVersion sch).
Implicit Types (s : DB) (o obj cur : TObject) (io : option error).

Definition with_buckets (t : Buckets) s : DB := mkDB t (db_subs s) (db_next s) (db_done s).

Definition roomy s : Prop := ∀ bkey, counter (db_buckets s) bkey < 2 ^ 64 - 1.

(** No stored object carries [uid]: what a fresh random uid is. *)
Definition fresh_uid (uid : string) s : Prop :=
  ∀ bkey o, head (db_buckets s) bkey (key_of o) = Some (marshal o) → wf_obj o → uid_of o ≠ uid.

(** The record of [bkey] at [cur]'s key. *)
Definition holds s bkey cur rv : Prop :=
  head (db_buckets s) bkey (key_of cur) = Some (marshal cur) ∧
  stored_obj bkey (counter (db_buckets s) bkey) cur rv.

Lemma holds_head s bkey key enc :
  store_wf (db_buckets s) → head (db_buckets s) bkey key = Some enc →
  ∃ cur rv, enc = marshal cur ∧ key = key_of cur ∧ holds s bkey cur rv.
Proof.
  intros Hwf H. destruct (stored_head _ _ _ _ _ _ Hwf H) as (cur & rv & -> & Hs & -> & Hh). by exists cur, rv.
Qed.

Lemma holds_decode s bkey cur rv : holds s bkey cur rv → decode (marshal cur) = Ok cur.
Proof. intros [_ H]. by eapply so_decode. Qed.

Lemma holds_owns s bkey cur rv :
  store_wf (db_buckets s) → holds s bkey cur rv → owns (db_buckets s) bkey (key_of cur) (uid_of cur).
Proof.
  intros Hwf [Hh Hs] o Ho Hwo. split; intros E.
  - eapply (sw_owner _ _ _ Hwf); try done. apply Hs.
  - rewrite E, Hh in Ho. simplify_eq. f_equal. symmetry. apply marshal_inj; [apply Hs|done|done].
Qed.

(** ** Stamping *)
Definition create_stamp (uid : string) (now rv : Z) obj : TObject :=
  with_meta (λ m, set_creationTimestamp (now - now mod 10 ^ 9)
    (set_generation 1 (set_resourceVersion (GoStrings.itoa rv) (set_uid uid m)))) obj.

Definition update_stamp (rv : Z) cur obj : TObject :=
  let out := with_meta (λ m, set_resourceVersion (GoStrings.itoa rv)
    (set_creationTimestamp (om_CreationTimestamp (ob_meta cur)) (set_uid (uid_of cur) m))) obj in
  with_status_of cur
    (with_meta (set_generation (nextGeneration out (marshal cur) (om_Generation (ob_meta cur)))) out).

Definition rollback_stamp (rv : Z) cur snap : TObject :=
  let out := with_meta (set_resourceVersion (GoStrings.itoa rv)) (with_status_of cur snap) in
  with_meta (set_generation (nextGeneration out (marshal cur) (om_Generation (ob_meta cur)))) out.

Lemma with_meta_wf f o : wf_obj o → wf_obj (with_meta f o).
Proof. done. Qed.
Lemma with_meta_registered f o : registered o → registered (with_meta f o).
Proof. done. Qed.

(** The outcome of a transaction that goes through unless its commit fails. *)
Definition committed {R} io s (p : DB * R) : DB * result StoreError R :=
  match io with Some e => (s, Err (EIO e)) | None => (p.1, Ok p.2) end.

(** ** Create *)
Lemma create_ok uid now obj s bkey :
  store_wf (db_buckets s) → roomy s → wf_obj obj → registered obj → uid_ok uid → fresh_uid uid s →
  bucketKeyFor (gvk_of obj) = Ok bkey → om_Name (ob_meta obj) ≠ "" →
  head (db_buckets s) bkey (key_of obj) = None →
  let n := counter (db_buckets s) bkey + 1 in
  let out := create_stamp uid now n obj in
  store_wf (core_write bkey out (db_buckets s)) ∧ stored_obj bkey n out n ∧
  owns (db_buckets s) bkey (key_of out) (uid_of out) ∧
  ∀ io, bolt_Create uid now io obj s = committed io s
    (publish bkey Added (marshal out) (om_Namespace (ob_meta out)) (om_Labels (ob_meta out))
       (with_buckets (core_write bkey out (db_buckets s)) s), out).
Proof.
  intros Hwf Hroom Hwo Hreg Huid Hfr Eb En Eh n out.
  pose proof (nextRV_spec _ _ bkey _ Hwf (Hroom bkey)) as [Hn Hv]. fold n in Hn, Hv.
  assert (stored_obj bkey n out n) as Hso by (by split; try lia).
  assert (owns (db_buckets s) bkey (key_of out) (uid_of out)) as Hown.
  { intros o Ho Hwfo. split; intros E; [by destruct (Hfr bkey o)|].
    change (key_of o = key_of obj) in E. by rewrite E, Eh in Ho. }
  split_and!; try done; [by eapply core_write_wf|]. intros io. unfold Bolt.bolt_Create.
  rewrite Eb, bool_decide_eq_false_2 by done. fold (key_of obj). unfold transact. rewrite Eh, Hn.
  destruct io; [done|]. unfold committed, BoltInvariant.core_write. fold n. by rewrite Hn.
Qed.

Lemma create_spec uid now io obj s :
  store_wf (db_buckets s) → roomy s → wf_obj obj → registered obj → uid_ok uid → fresh_uid uid s →
  let r := bolt_Create uid now io obj s in
  (∃ e, r = (s, Err e)) ∨
  ∃ bkey out, out = create_stamp uid now (counter (db_buckets s) bkey + 1) obj ∧
    bucketKeyFor (gvk_of obj) = Ok bkey ∧ head (db_buckets s) bkey (key_of obj) = None ∧
    store_wf (core_write bkey out (db_buckets s)) ∧
    stored_obj bkey (counter (db_buckets s) bkey + 1) out (counter (db_buckets s) bkey + 1) ∧
    owns (db_buckets s) bkey (key_of out) (uid_of out) ∧
    r = (publish bkey Added (marshal out) (om_Namespace (ob_meta out)) (om_Labels (ob_meta out))
           (with_buckets (core_write bkey out (db_buckets s)) s), Ok out).
Proof.
  intros Hwf Hroom Hwo Hreg Huid Hfr. cbv zeta.
  destruct (bucketKeyFor (gvk_of obj)) as [bkey|e] eqn:Eb; [|left; unfold Bolt.bolt_Create; rewrite Eb; by eauto].
  destruct (decide (om_Name (ob_meta obj) = "")) as [En|En].
  { left. unfold Bolt.bolt_Create. rewrite Eb, bool_decide_eq_true_2 by done. eauto. }
  destruct (head (db_buckets s) bkey (key_of obj)) as [enc|] eqn:Eh.
  { left. unfold Bolt.bolt_Create, transact. rewrite Eb, bool_decide_eq_false_2 by done.
    fold (key_of obj). rewrite Eh. eauto. }
  destruct (create_ok uid now obj s bkey Hwf Hroom Hwo Hreg Huid Hfr Eb En Eh) as (Hw & Hso & Hown & Hrun).
  rewrite Hrun. destruct io; [by left; eexists|]. right. eexists bkey, _. by split_and!.
Qed.

(** ** Update *)
Lemma update_stamp_stored s bkey cur rv obj :
  store_wf (db_buckets s) → roomy s → holds s bkey cur rv → wf_obj obj → registered obj →
  bucketKeyFor (gvk_of obj) = Ok bkey → key_of obj = key_of cur →
  let n := counter (db_buckets s) bkey + 1 in
  let out := update_stamp n cur obj in
  stored_obj bkey n out n ∧ owns (db_buckets s) bkey (key_of out) (uid_of out) ∧ key_of out = key_of cur.
Proof.
  intros Hwf Hroom Hh Hwo Hreg Hb Hk n out.
  pose proof (nextRV_spec _ _ bkey _ Hwf (Hroom bkey)) as [_ Hv]. split_and!.
  - split; try done; [|apply Hh]. apply with_status_of_wf; [done|apply Hh].
  - change (owns (db_buckets s) bkey (key_of obj) (uid_of cur)). rewrite Hk. by eapply holds_owns.
  - done.
Qed.

Lemma update_ok obj s bkey cur rv :
  store_wf (db_buckets s) → roomy s → wf_obj obj → registered obj →
  bucketKeyFor (gvk_of obj) = Ok bkey → holds s bkey cur rv → key_of obj = key_of cur →
  checkResourceVersion (ob_meta obj) (ob_meta cur) = None →
  let out := update_stamp (counter (db_buckets s) bkey + 1) cur obj in
  store_wf (core_write bkey out (db_buckets s)) ∧
  ∀ io, bolt_Update io obj s = committed io s
    (publish bkey Modified (marshal out) (om_Namespace (ob_meta out)) (om_Labels (ob_meta out))
       (with_buckets (core_write bkey out (db_buckets s)) s), out).
Proof.
  intros Hwf Hroom Hwo Hreg Eb Hh Ek Ec out.
  pose proof (nextRV_spec _ _ bkey _ Hwf (Hroom bkey)) as [Hn Hv].
  destruct (update_stamp_stored s bkey cur rv obj Hwf Hroom Hh Hwo Hreg Eb Ek) as (Hso & Hown & Eko).
  set (n := counter (db_buckets s) bkey) in *. fold out in Hso, Hown, Eko.
  split; [by eapply core_write_wf|]. intros io. unfold Bolt.bolt_Update, transact. rewrite Eb.
  fold (key_of obj). rewrite Ek, (proj1 Hh), (holds_decode _ _ _ _ Hh), Ec, Hn.
  unfold mergeCore. rewrite merge_marshal.
  match goal with |- context [Bolt.decode _ _ (marshal ?x)] => change x with out end.
  rewrite (so_decode _ _ _ _ _ _ Hso). destruct io; [done|].
  unfold committed, BoltInvariant.core_write. fold n. by rewrite Hn, Eko.
Qed.

Lemma update_spec io obj s :
  store_wf (db_buckets s) → roomy s → wf_obj obj → registered obj →
  let r := bolt_Update io obj s in
  (∃ e, r = (s, Err e)) ∨
  ∃ bkey cur rv out, out = update_stamp (counter (db_buckets s) bkey + 1) cur obj ∧
    bucketKeyFor (gvk_of obj) = Ok bkey ∧ holds s bkey cur rv ∧ key_of obj = key_of cur ∧
    checkResourceVersion (ob_meta obj) (ob_meta cur) = None ∧
    store_wf (core_write bkey out (db_buckets s)) ∧
    r = (publish bkey Modified (marshal out) (om_Namespace (ob_meta out)) (om_Labels (ob_meta out))
           (with_buckets (core_write bkey out (db_buckets s)) s), Ok out).
Proof.
  intros Hwf Hroom Hwo Hreg. cbv zeta.
  destruct (bucketKeyFor (gvk_of obj)) as [bkey|e] eqn:Eb; [|left; unfold Bolt.bolt_Update; rewrite Eb; by eauto].
  destruct (head (db_buckets s) bkey (key_of obj)) as [enc|] eqn:Eh.
  2: { left. unfold Bolt.bolt_Update, transact. rewrite Eb. fold (key_of obj). rewrite Eh. eauto. }
  destruct (holds_head _ _ _ _ Hwf Eh) as (cur & rv & -> & Ek & Hh).
  destruct (checkResourceVersion (ob_meta obj) (ob_meta cur)) eqn:Ec.
  { left. unfold Bolt.bolt_Update, transact. rewrite Eb. fold (key_of obj).
    rewrite Eh, (holds_decode _ _ _ _ Hh), Ec. eauto. }
  destruct (update_ok obj s bkey cur rv Hwf Hroom Hwo Hreg Eb Hh Ek Ec) as (Hw & Hrun).
  rewrite Hrun. destruct io; [by left; eexists|]. right. eexists bkey, cur, rv, _. by split_and!; try apply Hh.
Qed.

(** ** UpdateSubresource *)
Lemma with_buckets_id s : with_buckets (db_buckets s) s = s.
Proof. by destruct s. Qed.

Lemma set_status_same v cur : with_status_of (set_status v cur) cur = set_status v cur.
Proof.
  destruct cur as [api kind m f]. unfold with_status_of, set_status. simpl. f_equal. apply map_eq. intros k.
  rewrite lookup_insert_eq. destruct (decide (k = "status")) as [->|];
    [by rewrite lookup_partial_alter_eq, lookup_insert_eq|by rewrite lookup_partial_alter_ne, lookup_insert_ne].
Qed.

Definition status_write bkey cur v (t : Buckets) : Buckets :=
  putHead bkey (key_of cur) (marshal (set_status v cur)) t.

Lemma status_ok obj s bkey cur rv v :
  store_wf (db_buckets s) → wf_obj obj → bucketKeyFor (gvk_of obj) = Ok bkey →
  holds s bkey cur rv → key_of obj = key_of cur → ob_fields obj !! "status" = Some v →
  checkResourceVersion (ob_meta obj) (ob_meta cur) = None →
  store_wf (status_write bkey cur v (db_buckets s)) ∧
  ∀ io, bolt_UpdateSubresource io "status" obj s = committed io s
    (if bool_decide (ob_fields cur !! "status" = Some v) then (s, cur)
     else (publish bkey Modified (marshal (set_status v cur)) (om_Namespace (ob_meta cur))
             (om_Labels (ob_meta cur)) (with_buckets (status_write bkey cur v (db_buckets s)) s),
           set_status v cur)).
Proof.
  intros Hwf Hwo Eb Hh Ek Ev Ec. assert (v ≠ "") as Hv by (by eapply Hwo).
  assert (wf_obj (set_status v cur)) as Hws by (apply set_status_wf; [done|apply Hh]). split.
  { eapply (status_write_wf _ _ _ Hwf bkey cur (set_status v cur)); try apply Hh; [done|apply set_status_same]. }
  intros io. unfold Bolt.bolt_UpdateSubresource, transact.
  rewrite bool_decide_eq_false_2, Eb, marshal_field, Ev by (done || (apply not_headers; done)). simpl (JText <$> _).
  fold (key_of obj). rewrite Ek, (proj1 Hh), (holds_decode _ _ _ _ Hh), Ec.
  unfold raw_eq. rewrite marshal_field by (apply not_headers; done).
  assert (JText v = default (JText "") (JText <$> ob_fields cur !! "status") ↔ ob_fields cur !! "status" = Some v) as Hiff.
  { destruct (ob_fields cur !! "status"); simpl; split; congruence. }
  rewrite (bool_decide_ext _ _ Hiff). case_bool_decide.
  - destruct io; [done|]. by destruct s.
  - rewrite insert_status_marshal, (decode_marshal _ _ (set_status v cur) Hws) by apply Hh. by destruct io.
Qed.

Lemma status_spec io obj s :
  store_wf (db_buckets s) → wf_obj obj → registered obj →
  let r := bolt_UpdateSubresource io "status" obj s in
  (∃ e, r = (s, Err e)) ∨
  ∃ bkey cur rv v, bucketKeyFor (gvk_of obj) = Ok bkey ∧ holds s bkey cur rv ∧ key_of obj = key_of cur ∧
    ob_fields obj !! "status" = Some v ∧
    ((ob_fields cur !! "status" = Some v ∧ r = (s, Ok cur)) ∨
     (ob_fields cur !! "status" ≠ Some v ∧ store_wf (status_write bkey cur v (db_buckets s)) ∧
      r = (publish bkey Modified (marshal (set_status v cur)) (om_Namespace (ob_meta cur))
             (om_Labels (ob_meta cur)) (with_buckets (status_write bkey cur v (db_buckets s)) s),
           Ok (set_status v cur)))).
Proof.
  intros Hwf Hwo Hreg. cbv zeta.
  destruct (bucketKeyFor (gvk_of obj)) as [bkey|e] eqn:Eb;
    [|left; unfold Bolt.bolt_UpdateSubresource; rewrite bool_decide_eq_false_2, Eb by done; by eauto].
  destruct (ob_fields obj !! "status") as [v|] eqn:Ev.
  2: { left. unfold Bolt.bolt_UpdateSubresource. rewrite bool_decide_eq_false_2, Eb by done.
       rewrite marshal_field, Ev by (apply not_headers; done). by eauto. }
  destruct (head (db_buckets s) bkey (key_of obj)) as [enc|] eqn:Eh.
  2: { left. unfold Bolt.bolt_UpdateSubresource, transact. rewrite bool_decide_eq_false_2, Eb by done.
       rewrite marshal_field, Ev by (apply not_headers; done). simpl (JText <$> _). fold (key_of obj). rewrite Eh. by eauto. }
  destruct (holds_head _ _ _ _ Hwf Eh) as (cur & rv & -> & Ek & Hh).
  destruct (checkResourceVersion (ob_meta obj) (ob_meta cur)) eqn:Ec.
  { left. unfold Bolt.bolt_UpdateSubresource, transact. rewrite bool_decide_eq_false_2, Eb by done.
    rewrite marshal_field, Ev by (apply not_headers; done). simpl (JText <$> _). fold (key_of obj).
    rewrite Eh, (holds_decode _ _ _ _ Hh), Ec. by eauto. }
  destruct (status_ok obj s bkey cur rv v Hwf Hwo Eb Hh Ek Ev Ec) as (Hw & Hrun). rewrite Hrun.
  destruct io; [by left; eexists|]. right. exists bkey, cur, rv, v. split_and!; try done; try apply Hh.
  case_bool_decide; [by left|by right].
Qed.

(** ** Rollback *)
Lemma revision_stored s bkey uid rv enc :
  store_wf (db_buckets s) → version rv → revision (db_buckets s) bkey uid rv = Some enc →
  noHistory bkey = false ∧ ∃ snap cur rc, enc = marshal snap ∧
    stored_obj bkey (counter (db_buckets s) bkey) snap rv ∧ uid_of snap = uid ∧
    holds s bkey cur rc ∧ key_of snap = key_of cur ∧ uid_of cur = uid.
Proof.
  intros Hwf Hv Hr. destruct (sw_history _ _ _ Hwf _ _ _ Hr) as (Hno & snap & r & c & -> & Hs & Ek & Hc & Hwc & Eu).
  split; [done|]. apply historyKey_inj in Ek as [-> ->]; [|done|apply Hs].
  destruct (holds_head _ _ _ _ Hwf Hc) as (cur & rc & Ec & Ekc & Hh). exists snap, cur, rc.
  apply marshal_inj in Ec as ->; [|done|apply Hh]. split_and!; try done; apply Hh.
Qed.

Lemma rollback_ok m bkey uid rv enc s :
  store_wf (db_buckets s) → roomy s → version rv → uid ≠ "" →
  bucketKeyForMeta ParseGroupVersion m = Ok bkey → revision (db_buckets s) bkey uid rv = Some enc →
  ∃ snap cur rc out, enc = marshal snap ∧ stored_obj bkey (counter (db_buckets s) bkey) snap rv ∧
    uid_of snap = uid ∧ holds s bkey cur rc ∧ key_of snap = key_of cur ∧ uid_of cur = uid ∧
    out = rollback_stamp (counter (db_buckets s) bkey + 1) cur snap ∧
    store_wf (core_write bkey out (db_buckets s)) ∧
    stored_obj bkey (counter (db_buckets s) bkey + 1) out (counter (db_buckets s) bkey + 1) ∧
    owns (db_buckets s) bkey (key_of out) (uid_of out) ∧
    (∀ io, bolt_Rollback io m uid rv s =
      match io with
      | Some e => (s, Err (EIO e))
      | None => (publish bkey Modified (marshal out) (om_Namespace (ob_meta out)) (om_Labels (ob_meta out))
           (with_buckets (core_write bkey out (db_buckets s)) s), Ok out)
      end).
Proof.
  intros Hwf Hroom Hv Hu Hb Hr.
  destruct (revision_stored s bkey uid rv enc Hwf Hv Hr) as (Hno & snap & cur & rc & -> & Hs & Eus & Hh & Ek & Euc).
  pose proof (nextRV_spec _ _ bkey _ Hwf (Hroom bkey)) as [Hn Hnv].
  set (n := counter (db_buckets s) bkey) in *.
  set (out := rollback_stamp (n + 1) cur snap).
  assert (wf_obj (with_status_of cur snap)) as Hws by (apply with_status_of_wf; [apply Hs|apply Hh]).
  assert (stored_obj bkey (n + 1) out (n + 1)) as Hso by (split; try done; apply Hs).
  assert (owns (db_buckets s) bkey (key_of out) (uid_of out)) as Hown.
  { change (owns (db_buckets s) bkey (key_of snap) (uid_of snap)). rewrite Ek, Eus, <-Euc. by eapply holds_owns. }
  exists snap, cur, rc, out. split_and!; try done; [apply Hh..|by eapply core_write_wf|].
  intros io. unfold Bolt.bolt_Rollback. rewrite Hb, bool_decide_eq_false_2 by done.
  destruct (Z.leb_spec rv 0); [unfold version in Hv; lia|]. rewrite Hno. unfold transact. rewrite Hr.
  rewrite (so_decode _ _ _ _ _ _ Hs). fold (key_of snap). rewrite Ek.
  destruct Hh as [Hh Hsc]. rewrite Hh, Hn, merge_marshal.
  rewrite (decode_marshal _ _ (with_status_of cur snap) Hws) by apply Hs.
  rewrite (so_decode _ _ _ _ _ _ Hsc). destruct io; [done|].
  unfold with_buckets, BoltInvariant.core_write. rewrite Hn. cbn [snd].
  assert (key_of out = key_of cur) as -> by exact Ek. by assert (uid_of out = uid) as -> by exact Eus.
Qed.

Lemma rollback_spec io m uid rv s :
  store_wf (db_buckets s) → roomy s → is_int64 rv →
  let r := bolt_Rollback io m uid rv s in
  (∃ e, r = (s, Err e)) ∨
  ∃ bkey out, store_wf (core_write bkey out (db_buckets s)) ∧
    stored_obj bkey (counter (db_buckets s) bkey + 1) out (counter (db_buckets s) bkey + 1) ∧
    owns (db_buckets s) bkey (key_of out) (uid_of out) ∧
    r = (publish bkey Modified (marshal out) (om_Namespace (ob_meta out)) (om_Labels (ob_meta out))
           (with_buckets (core_write bkey out (db_buckets s)) s), Ok out).
Proof.
  intros Hwf Hroom Hrv. cbv zeta. destruct (bucketKeyForMeta ParseGroupVersion m) as [bkey|] eqn:Eb.
  2: { unfold Bolt.bolt_Rollback. rewrite Eb. eauto. }
  destruct (decide (uid = "")) as [Hu|Hu].
  { unfold Bolt.bolt_Rollback. rewrite Eb, bool_decide_eq_true_2 by done. eauto. }
  destruct (decide (0 < rv)) as [Hpos|Hpos].
  2: { unfold Bolt.bolt_Rollback. rewrite Eb, bool_decide_eq_false_2 by done.
       destruct (Z.leb_spec rv 0); [by eauto|lia]. }
  destruct (revision (db_buckets s) bkey uid rv) as [enc|] eqn:Er.
  - destruct (rollback_ok m bkey uid rv enc s Hwf Hroom)
      as (snap & cur & rc & out & _ & _ & _ & _ & _ & _ & _ & Hw & Hso & Hown & Hrb); [unfold version; int64|done..|].
    rewrite Hrb. destruct io; [by eauto|]. right. exists bkey, out. by split_and!.
  - left. unfold Bolt.bolt_Rollback, transact. rewrite Eb, Er, bool_decide_eq_false_2 by done.
    destruct (rv <=? 0), (noHistory bkey); eauto.
Qed.

(** ** Delete *)
Definition erase_obj bkey cur (t : Buckets) : Buckets :=
  deleteHistory bkey (uid_of cur) (deleteHead bkey (key_of cur) t).

Lemma delete_spec io m s :
  store_wf (db_buckets s) →
  let r := bolt_Delete io m s in
  (∃ e, r = (s, Err e)) ∨
  ∃ bkey cur rv, bucketKeyForMeta ParseGroupVersion m = Ok bkey ∧ holds s bkey cur rv ∧
    recordKey (tm_Namespace m) (tm_Name m) = key_of cur ∧ store_wf (erase_obj bkey cur (db_buckets s)) ∧
    r = (publish bkey Deleted (marshal cur) (om_Namespace (ob_meta cur)) (om_Labels (ob_meta cur))
           (with_buckets (erase_obj bkey cur (db_buckets s)) s), Ok tt).
Proof.
  intros Hwf. cbv zeta. unfold Bolt.bolt_Delete.
  destruct (bucketKeyForMeta _ m) as [bkey|e] eqn:Eb; [|by eauto]. unfold transact.
  destruct (head (db_buckets s) bkey _) as [enc|] eqn:Eh; [|by eauto].
  destruct (holds_head _ _ _ _ Hwf Eh) as (cur & rv & -> & Ek & Hh).
  rewrite (holds_decode _ _ _ _ Hh). destruct io; [by eauto|].
  right. exists bkey, cur, rv. split_and!; try done; [apply Hh..| |by rewrite Ek].
  eapply delete_wf; [done|apply Hh..].
Qed.

(** ** The watch bus *)
Definition event_meta (ev : WatchEvent) : ObjectMeta := ob_meta (unmarshal (we_Object ev)).

(** A buffer within its bound, holding only events its subscription asked for. *)
Definition sub_ok (x : subscription) : Prop :=
  (length (sub_ch x) ≤ watchBuf)%nat ∧
  ∀ ev, ev ∈ sub_ch x →
    interested sel_Empty sel_Matches (om_Namespace (event_meta ev)) (om_Labels (event_meta ev)) x = true.

Definition subs_ok s : Prop := ∀ bkey l x, db_subs s !! bkey = Some l → x ∈ l → sub_ok x.

Lemma send_ok ev x :
  sub_ok x → interested sel_Empty sel_Matches (om_Namespace (event_meta ev)) (om_Labels (event_meta ev)) x = true →
  sub_ok (send ev x).
Proof.
  intros [Hl He] Hi. unfold send. destruct (Nat.ltb_spec (length (sub_ch x)) watchBuf); [|by split].
  split; simpl.
  - rewrite length_app. simpl. lia.
  - intros ev' [?| ->%list_elem_of_singleton]%elem_of_app; [by apply He|done].
Qed.

(** A map over the subscribers of one Kind. *)
Lemma alter_subs_ok s bkey f t next done :
  subs_ok s → (∀ x, sub_ok x → sub_ok (f x)) → subs_ok (mkDB t (alter (fmap f) bkey (db_subs s)) next done).
Proof.
  intros Hs Hf bkey' l x. cbn [db_subs]. destruct (decide (bkey' = bkey)) as [->|].
  - rewrite lookup_alter_eq. destruct (db_subs s !! bkey) as [l'|] eqn:E; simpl; [|done].
    intros [= <-] (y & -> & Hy)%list_elem_of_fmap. eauto.
  - rewrite lookup_alter_ne by done. apply Hs.
Qed.

Lemma publish_ok bkey et o t s :
  wf_obj o → subs_ok s →
  subs_ok (publish bkey et (marshal o) (om_Namespace (ob_meta o)) (om_Labels (ob_meta o)) (with_buckets t s)).
Proof.
  intros Ho Hs. apply (alter_subs_ok s); [done|]. intros x Hx.
  destruct (interested _ _ _ _ x) eqn:E; [|done]. apply send_ok; [done|].
  unfold event_meta. cbn [we_Object]. by rewrite unmarshal_marshal.
Qed.

(** ** Runs *)
Inductive bolt_step : DB → DB → Prop :=
| bs_create s uid now io obj : roomy s → wf_obj obj → registered obj → uid_ok uid → fresh_uid uid s →
    bolt_step s (bolt_Create uid now io obj s).1
| bs_update s io obj : roomy s → wf_obj obj → registered obj → bolt_step s (bolt_Update io obj s).1
| bs_status s io obj : wf_obj obj → registered obj →
    bolt_step s (bolt_UpdateSubresource io "status" obj s).1
| bs_rollback s io m uid rv : roomy s → is_int64 rv → bolt_step s (bolt_Rollback io m uid rv s).1
| bs_delete s io m : bolt_step s (bolt_Delete io m s).1
| bs_watch s m sel : bolt_step s (bolt_Watch ParseGroupVersion sel_Parse sel_Everything m sel s).1
| bs_removeSub s bkey id : bolt_step s (removeSub bkey id s)
| bs_receive s bkey id : bolt_step s (receive bkey id s).1
| bs_close s : bolt_step s (bolt_Close s)
| bs_open s : bolt_step s (bolt_Open sch (db_buckets s)).

Inductive bolt_reachable : DB → Prop :=
| br_new : bolt_reachable (bolt_Open sch (mkBuckets ∅ ∅ ∅))
| br_step s s' : bolt_reachable s → bolt_step s s' → bolt_reachable s'.

Lemma empty_wf : store_wf (mkBuckets ∅ ∅ ∅).
Proof.
  assert (∀ (b : gmap string (gmap string Enc)) bkey, b = ∅ → bucket b bkey = ∅) as Hb.
  { intros b bkey ->. unfold bucket. by rewrite lookup_empty. }
  split; unfold head, revision; cbn [bk_seq bk_heads bk_history]; intros *; rewrite ?Hb by done;
    rewrite ?lookup_empty, ?seek_prefix_empty; try done. intros _. simpl. lia.
Qed.

Lemma open_wf t : store_wf t → store_wf (db_buckets (bolt_Open (Selector := Selector) sch t)).
Proof.
  intros Hwf. cbn [bolt_Open db_buckets].
  assert (∀ bkey, noHistory bkey = false →
    bucket (filter (λ kv, noHistory kv.1 = false) (bk_history t)) bkey = bucket (bk_history t) bkey) as Hb.
  { intros bkey Hno. unfold bucket. rewrite map_lookup_filter. destruct (bk_history t !! bkey); simpl; [|done].
    by rewrite option_guard_True. }
  assert (∀ bkey, noHistory bkey = true →
    bucket (filter (λ kv, noHistory kv.1 = false) (bk_history t)) bkey = ∅) as Hb'.
  { intros bkey Hno. unfold bucket. rewrite map_lookup_filter. destruct (bk_history t !! bkey); simpl; [|done].
    rewrite option_guard_False; [done|]. by rewrite Hno. }
  split; try apply Hwf.
  - intros bkey hk enc. cbn [bk_history]. destruct (noHistory bkey) eqn:Eno.
    + by rewrite Hb', lookup_empty.
    + rewrite Hb by done. rewrite <-Eno at 1. apply (sw_history _ _ _ Hwf).
  - intros bkey uid Hu. cbn [bk_history]. destruct (noHistory bkey) eqn:Eno.
    + rewrite Hb', seek_prefix_empty by done. simpl. lia.
    + rewrite Hb by done. by apply (sw_bound _ _ _ Hwf).
  - intros bkey o rv Hno Ho Hs. unfold revision. cbn [bk_history]. rewrite Hb by done.
    by apply (sw_latest _ _ _ Hwf).
Qed.

Lemma subs_shrink s t subs next done :
  subs_ok s → (∀ bkey l x, subs !! bkey = Some l → x ∈ l → ∃ l', db_subs s !! bkey = Some l' ∧ x ∈ l') →
  subs_ok (mkDB t subs next done).
Proof. intros Hs Hsub bkey l x Hl Hx. destruct (Hsub _ _ _ Hl Hx) as (l' & ? & ?). by eapply Hs. Qed.

Lemma removeSub_ok s bkey id : subs_ok s → subs_ok (removeSub bkey id s).
Proof.
  intros Hs. unfold removeSub. set (f := List.filter _ _). eapply subs_shrink; [done|].
  intros bkey' l x Hl Hx. assert (subs_from : f = [] ∧ (delete bkey (db_subs s)) !! bkey' = Some l ∨
    (<[bkey := f]> (db_subs s)) !! bkey' = Some l) by (destruct f; auto).
  destruct subs_from as [[_ H]|H].
  - rewrite lookup_delete_Some in H. naive_solver.
  - rewrite lookup_insert_Some in H. destruct H as [[<- <-]|[_ H]]; [|by eauto].
    subst f. apply filter_elem in Hx as [Hx _]. destruct (db_subs s !! bkey); simpl in Hx; [by eauto|].
    by apply elem_of_nil in Hx.
Qed.

(** [wf_store]: what every reachable state satisfies. *)
Definition wf_store s : Prop := store_wf (db_buckets s) ∧ subs_ok s.

Lemma bolt_step_wf s s' : bolt_step s s' → wf_store s → wf_store s'.
Proof.
  intros Hst [Hwf Hs]. destruct Hst as [s uid now io obj Hroom Hwo Hreg Hu Hfr|s io obj Hroom Hwo Hreg
    |s io obj Hwo Hreg|s io m uid rv Hroom Hrv|s io m|s m sel|s bkey id|s bkey id|s|s].
  - destruct (create_spec uid now io obj s Hwf Hroom Hwo Hreg Hu Hfr) as [(e & ->)|(bkey & out & Eo & _ & _ & Hw & Hso & _ & ->)];
      [done|]. split; [done|]. apply publish_ok; [apply Hso|done].
  - destruct (update_spec io obj s Hwf Hroom Hwo Hreg) as [(e & ->)|(bkey & cur & rv & out & Eo & Eb & Hh & Ek & _ & Hw & ->)]; [done|].
    split; [done|]. apply publish_ok; [|done]. subst out.
    by eapply (update_stamp_stored s bkey cur rv obj).
  - destruct (status_spec io obj s Hwf Hwo Hreg) as [(e & ->)|(bkey & cur & rv & v & _ & Hh & _ & Ev & [[_ ->]|(_ & Hw & ->)])]; [done..|].
    split; [done|]. apply (publish_ok _ _ (set_status v cur)); [|done].
    apply set_status_wf; [by eapply Hwo|apply Hh].
  - destruct (rollback_spec io m uid rv s Hwf Hroom Hrv) as [(e & ->)|(bkey & out & Hw & Hso & _ & ->)]; [done|].
    split; [done|]. apply publish_ok; [apply Hso|done].
  - destruct (delete_spec io m s Hwf) as [(e & ->)|(bkey & cur & rv & _ & Hh & _ & Hw & ->)]; [done|].
    split; [done|]. apply publish_ok; [apply Hh|done].
  - unfold bolt_Watch. destruct (bucketKeyForMeta _ m) as [bk|]; [|done].
    destruct (parseSelector _ _ sel) as [sel'|]; [|done].
    split; [done|]. intros bkey l x. cbn [fst db_subs]. rewrite lookup_insert_Some.
    intros [[<- <-]|[_ H]] Hx; [|by eapply Hs].
    apply elem_of_app in Hx as [Hx|Hx%list_elem_of_singleton]; [|subst x].
    + destruct (db_subs s !! bk) eqn:E; simpl in Hx; [by eapply Hs|by apply elem_of_nil in Hx].
    + split; [simpl; lia|]. by intros ev ?%elem_of_nil.
  - split; [done|]. by apply removeSub_ok.
  - split; [done|]. apply (alter_subs_ok s); [done|]. intros x [Hl He]. case_bool_decide; [|done].
    split; simpl.
    + destruct (sub_ch x); simpl in *; lia.
    + intros ev Hin. apply He. destruct (sub_ch x); [done|]. by right.
  - split; [done|]. intros bkey l x. cbn. by rewrite lookup_empty.
  - split; [by apply open_wf|]. intros bkey l x. cbn. by rewrite lookup_empty.
Qed.

(** ** Retention *)
(** Ten retained revisions newer than [rv]. *)
Definition outlived (t : Buckets) (bkey uid : string) (rv : Z) : Prop :=
  ∃ rvs : list Z, NoDup rvs ∧ length rvs = maxHistory ∧
    ∀ r, r ∈ rvs → rv < r ∧ is_Some (revision t bkey uid r).

Lemma list_preimage {A B} (f : A → B) (P : A → Prop) (l : list B) :
  (∀ y, y ∈ l → ∃ x, y = f x ∧ P x) → ∃ xs : list A, l = f <$> xs ∧ ∀ x, x ∈ xs → P x.
Proof.
  induction l as [|y l IH]; intros H; [exists []; split; [done|]; by intros x ?%elem_of_nil|].
  destruct (H y) as (x & -> & Hx); [left|]. destruct IH as (xs & -> & Hxs); [intros; apply H; by right|].
  exists (x :: xs). split; [done|]. by intros z [->|?]%elem_of_cons; [|apply Hxs].
Qed.

Lemma core_write_retention t bkey o bkey' uid rv snap :
  store_wf t → counter t bkey < 2 ^ 64 - 1 → stored_obj bkey (counter t bkey + 1) o (counter t bkey + 1) →
  uid_ok uid → version rv → revision t bkey' uid rv = Some snap →
  revision (core_write bkey o t) bkey' uid rv = Some snap ∨ outlived (core_write bkey o t) bkey' uid rv.
Proof.
  intros Hwf Hroom Hso Hu Hv Hr. set (n := counter t bkey) in *.
  destruct (decide (bkey' = bkey ∧ uid = uid_of o)) as [[-> ->]|Hne].
  2: { left. erewrite cw_revision_other; [exact Hr|done..|naive_solver]. }
  destruct (sw_history _ _ _ Hwf _ _ _ Hr) as (Hno & a & ra & _ & _ & Ha & Ek & _).
  assert (∀ k e, bucket (bk_history t) bkey !! k = Some e → GoStrings.has_prefix (uid_of o +:+ sep) k = true →
    ∃ r, k = historyKey (uid_of o) r ∧ version r ∧ r ≤ n) as Hkeys.
  { intros k e Hk Hp. destruct (sw_history _ _ _ Hwf _ _ _ Hk) as (_ & b & rb & _ & _ & Hb & -> & _).
    apply historyKey_prefix in Hp; [|done|apply Hb]. exists rb. split_and!; [congruence|apply Hb..]. }
  apply historyKey_inj in Ek as [_ <-]; [|done|apply Ha].
  set (h := <[historyKey (uid_of o) (n + 1) := marshal o]> (bucket (bk_history t) bkey)).
  assert (∀ r, revision (core_write bkey o t) bkey (uid_of o) r = pruneHistory (uid_of o) h !! historyKey (uid_of o) r) as Hrev.
  { intros r. unfold revision. erewrite cw_history; [|done..]. by rewrite bool_decide_eq_true_2, Hno. }
  assert (h !! historyKey (uid_of o) rv = Some snap) as Hin.
  { unfold h. rewrite lookup_insert_ne; [done|]. intros E.
    apply historyKey_inj in E as [_ E]; [|apply Hso|done]. pose proof (so_bound _ _ _ _ _ _ Ha). fold n in H. lia. }
  destruct (pruneHistory (uid_of o) h !! historyKey (uid_of o) rv) as [e|] eqn:Ep.
  { left. rewrite Hrev, Ep. rewrite pruned_lookup in Ep. cbv zeta in Ep. case_bool_decide; congruence. }
  right. assert (historyKey (uid_of o) rv ∈ seek_prefix (uid_of o +:+ sep) h) as Hmem.
  { apply seek_prefix_elem. split; [by eexists|]. apply historyKey_prefix; done. }
  destruct (pruned_gone (uid_of o) h _ Hmem Ep) as [Hlen Hkept].
  pose proof (pruned_keys (uid_of o) h) as Hpk. cbv zeta in Hpk.
  apply Permutation_length in Hpk as Hpl. rewrite Hlen in Hpl.
  destruct (list_preimage (historyKey (uid_of o)) (λ r, rv < r ∧ is_Some (revision (core_write bkey o t) bkey (uid_of o) r))
    (seek_prefix (uid_of o +:+ sep) (pruneHistory (uid_of o) h))) as (rvs & Er & Hrvs).
  - intros k Hk. destruct (Hkept k) as [Hle Hneq]; [by rewrite <-Hpk|]. apply seek_prefix_elem in Hk as [Hs Hp].
    assert (∃ r, k = historyKey (uid_of o) r ∧ version r) as (r & -> & Hvr).
    { destruct Hs as [e He]. rewrite pruned_lookup in He. cbv zeta in He. case_bool_decide; [done|].
      unfold h in He. rewrite lookup_insert_Some in He. destruct He as [[<- _]|[_ He]].
      - exists (n + 1). split; [done|apply Hso].
      - destruct (Hkeys k e He Hp) as (r & -> & ? & _). eauto. }
    exists r. rewrite Hrev. split_and!; [done| |done].
    rewrite historyKey_leb in Hle by done. apply Z.leb_le in Hle.
    assert (rv ≠ r) by (by intros ->). lia.
  - exists rvs. split_and!; [|by rewrite Er, length_fmap in Hpl|done].
    apply (NoDup_fmap_1 (historyKey (uid_of o))). rewrite <-Er. apply seek_prefix_nodup.
Qed.

Lemma erase_retention t bk cur rc bkey uid rv snap :
  store_wf t → head t bk (key_of cur) = Some (marshal cur) → stored_obj bk (counter t bk) cur rc →
  uid_ok uid → revision t bkey uid rv = Some snap →
  revision (erase_obj bk cur t) bkey uid rv = Some snap ∨ outlived (erase_obj bk cur t) bkey uid rv ∨
  ∀ o, head (erase_obj bk cur t) bkey (key_of o) = Some (marshal o) → wf_obj o → uid_of o ≠ uid.
Proof.
  intros Hwf Hh Hsc Hu Hr. unfold revision at 1, erase_obj at 1. rewrite dl_history.
  destruct (_ && _) eqn:E; [|by left]. right. right. bools. destruct E as [-> Hp].
  apply historyKey_prefix in Hp as <-; [|apply Hsc|done]. intros o. unfold erase_obj. rewrite dl_head.
  case_bool_decide as Hb; [done|]. intros Ho Hwo Eu. apply Hb. split; [done|].
  apply (sw_owner _ _ _ Hwf bk); try done. apply Hsc.
Qed.

Lemma rollback_desired rv cur snap :
  same_desired snap cur ↔
  same_desired (with_meta (set_resourceVersion (GoStrings.itoa rv)) (with_status_of cur snap)) cur.
Proof.
  unfold same_desired. simpl. split; intros (? & ? & H); split_and!; try done; intros k Hk; specialize (H k Hk);
    by rewrite lookup_partial_alter_ne in *.
Qed.

Lemma reachable_wf s : bolt_reachable s → wf_store s.
Proof.
  induction 1 as [|s s' _ IH Hst]; [|by eapply bolt_step_wf].
  split; [apply open_wf, empty_wf|]. intros bkey l x. cbn. by rewrite lookup_empty.
Qed.

(** ** Properties *)

(** C20: whatever sequence of creates, updates, status writes, rollbacks, deletions, watches
    and reopenings the store has been through, and whichever commits failed: every record
    decodes and sits under its own key, a uid names one record, every retained revision is a
    past version of the live object of its uid, no object keeps more than ten, the newest is
    the record itself, no version exceeds its Kind's counter, a Kind without history has
    none, and no watcher holds more than its buffer or an event outside its namespace and
    selector. *)
Theorem bolt_invariant s : bolt_reachable s → wf_store s.
Proof. apply reachable_wf. Qed.

(** A revision is never lost early: across any step of a reachable store, a retained
    revision of an object stays retained as it is, unless the object itself is deleted by
    that step or ten newer revisions of it are retained. *)
Theorem bolt_retention s s' bkey uid rv snap :
  bolt_reachable s → bolt_step s s' → uid_ok uid → version rv →
  revision (db_buckets s) bkey uid rv = Some snap →
  revision (db_buckets s') bkey uid rv = Some snap ∨
  outlived (db_buckets s') bkey uid rv ∨
  ∀ o, head (db_buckets s') bkey (key_of o) = Some (marshal o) → wf_obj o → uid_of o ≠ uid.
Proof.
  intros [Hwf _]%reachable_wf Hst Hu Hv Hr.
  destruct Hst as [s uid' now io obj Hroom Hwo Hreg Hu' Hfr|s io obj Hroom Hwo Hreg
    |s io obj Hwo Hreg|s io m uid' rv' Hroom Hrv|s io m|s m sel|s bkey' id|s bkey' id|s|s]; try by left.
  - destruct (create_spec uid' now io obj s Hwf Hroom Hwo Hreg Hu' Hfr) as [(e & ->)|(bk & out & _ & _ & _ & _ & Hso & _ & ->)];
      [by left|]. destruct (core_write_retention (db_buckets s) bk out bkey uid rv snap); auto.
  - destruct (update_spec io obj s Hwf Hroom Hwo Hreg) as [(e & ->)|(bk & cur & rc & out & -> & Eb & Hh & Ek & _ & _ & ->)]; [by left|].
    destruct (update_stamp_stored s bk cur rc obj Hwf Hroom Hh Hwo Hreg Eb Ek) as (Hso & _).
    destruct (core_write_retention (db_buckets s) bk _ bkey uid rv snap Hwf (Hroom bk) Hso); auto.
  - destruct (status_spec io obj s Hwf Hwo Hreg) as [(e & ->)|(bk & cur & rc & v & _ & Hh & _ & Ev & [[_ ->]|(_ & _ & ->)])]; by left.
  - destruct (rollback_spec io m uid' rv' s Hwf Hroom Hrv) as [(e & ->)|(bk & out & _ & Hso & _ & ->)]; [by left|].
    destruct (core_write_retention (db_buckets s) bk out bkey uid rv snap); auto.
  - destruct (delete_spec io m s Hwf) as [(e & ->)|(bk & cur & rc & _ & Hh & _ & _ & ->)]; [by left|].
    destruct Hh as [Hh Hsc]. exact (erase_retention (db_buckets s) bk cur rc bkey uid rv snap Hwf Hh Hsc Hu Hr).
  - left. unfold bolt_Watch. destruct (bucketKeyForMeta _ m); [|done]. by destruct (parseSelector _ _ sel).
  - left. cbn [bolt_Open db_buckets]. unfold revision, bucket in *. cbn [bk_history]. rewrite map_lookup_filter.
    assert (noHistory bkey = false) as Hno by (by eapply (sw_history _ _ _ Hwf)).
    destruct (bk_history (db_buckets s) !! bkey); simpl in *; [|done]. by rewrite option_guard_True.
Qed.

(** C9: no lost update: after a successful update, another writer holding the version token
    that update started from is refused with a conflict, for a spec write and for a status
    write alike, and changes nothing. *)
Theorem bolt_no_lost_update s s' io io' obj obj' out :
  bolt_reachable s → roomy s → wf_obj obj → registered obj →
  bolt_Update io obj s = (s', Ok out) →
  gvk_of obj' = gvk_of obj → key_of obj' = key_of obj →
  om_ResourceVersion (ob_meta obj') = om_ResourceVersion (ob_meta obj) →
  om_ResourceVersion (ob_meta obj) ≠ "" → is_Some (marshal obj' !! "status") →
  bolt_Update io' obj' s' = (s', Err ErrConflict) ∧
  bolt_UpdateSubresource io' "status" obj' s' = (s', Err ErrConflict).
Proof.
  intros [Hwf _]%reachable_wf Hroom Hwo Hreg Hup Eg Ek Ev Hne [sv Hsv].
  destruct (update_spec io obj s Hwf Hroom Hwo Hreg) as [(e & He)|(bk & cur & rc & o & Eo & Eb & Hh & Ekc & Ec & Hw & He)];
    rewrite Hup in He; simplify_eq.
  destruct (update_stamp_stored s bk cur rc obj Hwf Hroom Hh Hwo Hreg Eb Ekc) as (Hso & _ & Eko).
  set (out := update_stamp _ cur obj) in *. set (s' := publish _ _ _ _ _ _).
  assert (head (db_buckets s') bk (key_of obj') = Some (marshal out)) as Hd.
  { cbn [s' Bolt.publish db_buckets with_buckets]. rewrite (cw_head _ _ _ Hwf _ _ (Hroom bk)).
    rewrite bool_decide_eq_true_2; [done|]. split; [done|]. congruence. }
  assert (checkResourceVersion (ob_meta obj') (ob_meta out) = Some ErrConflict) as Hc.
  { unfold checkResourceVersion in *. rewrite Ev, (so_version _ _ _ _ _ _ Hso).
    rewrite (bool_decide_eq_false_2 (_ = "")) in * by done. simpl in *.
    destruct (decide (om_ResourceVersion (ob_meta obj) = om_ResourceVersion (ob_meta cur))) as [E|E];
      [|by rewrite bool_decide_eq_false_2 in Ec].
    rewrite bool_decide_eq_false_2; [done|]. rewrite E. destruct Hh as [_ Hh].
    rewrite (so_version _ _ _ _ _ _ Hh). intros E'. apply itoa_inj in E'; [|apply Hh|apply Hso].
    pose proof (so_bound _ _ _ _ _ _ Hh). lia. }
  pose proof (so_decode _ _ _ _ _ _ Hso) as Hdec. fold out in Hdec.
  split; unfold Bolt.bolt_Update, Bolt.bolt_UpdateSubresource, transact; fold (key_of obj');
    rewrite ?(bool_decide_eq_false_2 ("status" = "")), Eg, Eb, ?Hsv by done; by rewrite Hd, Hdec, Hc.
Qed.

(** C23: rolling back to a revision [GetRevision] returns succeeds, short of a failed commit
    (which changes nothing): the object is again what the revision was in every field but
    its status, which stays the live object's, and its version, which is the Kind's next;
    the generation stays when the desired state did not change and moves by one otherwise;
    reading the object, and the new revision, gives exactly that. *)
Theorem bolt_rollback_restores s m uid rv snap :
  bolt_reachable s → roomy s → is_int64 rv →
  bolt_GetRevision ParseGroupVersion sch m uid rv s = Ok snap →
  let m' := mkTypesMeta (tm_ApiVersion m) (tm_Kind m) (om_Namespace (ob_meta snap)) (om_Name (ob_meta snap)) in
  (∀ e, bolt_Rollback (Some e) m uid rv s = (s, Err (EIO e))) ∧
  ∃ bkey cur s' out,
    bucketKeyForMeta ParseGroupVersion m = Ok bkey ∧
    bolt_Rollback None m uid rv s = (s', Ok out) ∧
    bolt_Get m' s = Ok cur ∧ uid_of cur = uid ∧
    bolt_Get m' s' = Ok out ∧
    bolt_GetRevision ParseGroupVersion sch m uid (counter (db_buckets s) bkey + 1) s' = Ok out ∧
    (∀ k, k ≠ "status" → ob_fields out !! k = ob_fields snap !! k) ∧
    ob_fields out !! "status" = ob_fields cur !! "status" ∧
    ob_meta out = set_generation (om_Generation (ob_meta out))
      (set_resourceVersion (GoStrings.itoa (counter (db_buckets s) bkey + 1)) (ob_meta snap)) ∧
    (same_desired snap cur → om_Generation (ob_meta out) = om_Generation (ob_meta cur)) ∧
    (¬ same_desired snap cur → om_Generation (ob_meta out) = wrap64 (om_Generation (ob_meta cur) + 1)).
Proof.
  intros [Hwf _]%reachable_wf Hroom Hrv Hg m'. unfold bolt_GetRevision in Hg.
  destruct (bucketKeyForMeta ParseGroupVersion m) as [bkey|] eqn:Eb; [|done].
  case_bool_decide as Hu; [done|]. destruct (Z.leb_spec rv 0); [done|].
  destruct (revision (db_buckets s) bkey uid rv) as [enc|] eqn:Er; [|done].
  assert (version rv) as Hv by (unfold version; int64).
  destruct (revision_stored s bkey uid rv enc Hwf Hv Er) as (Hno & _).
  destruct (rollback_ok m bkey uid rv enc s Hwf Hroom Hv Hu Eb Er)
    as (sn & cur & rc & out & -> & Hs & Eus & Hh & Ek & Euc & Eo & Hw & Hso & Hown & Hrun).
  rewrite (so_decode _ _ _ _ _ _ Hs) in Hg. simplify_eq. split; [intros e; by rewrite Hrun|].
  set (out := rollback_stamp _ cur snap) in *. set (n := counter (db_buckets s) bkey) in *.
  assert (∀ s : DB, bolt_Get m' s = match head (db_buckets s) bkey (key_of snap) with
    | None => Err ErrNotFound | Some v => decode v end) as Hget.
  { intros s''. unfold Bolt.bolt_Get. cbn [m' tm_Namespace tm_Name]. unfold bucketKeyForMeta in *. cbn [m' tm_ApiVersion tm_Kind].
    by rewrite Eb. }
  destruct Hh as [Hh Hsc]. eexists bkey, cur, _, out. rewrite Hrun. split_and!; try done.
  - by rewrite Hget, Ek, Hh, (so_decode _ _ _ _ _ _ Hsc).
  - rewrite Hget. cbn [fst Bolt.publish db_buckets with_buckets]. rewrite (cw_head _ _ _ Hwf _ _ (Hroom bkey)).
    rewrite bool_decide_eq_true_2 by done. by apply (so_decode _ _ _ _ _ _ Hso).
  - unfold bolt_GetRevision. rewrite Eb, bool_decide_eq_false_2 by done.
    pose proof (so_range _ _ _ _ _ _ Hso) as Hr1. fold n. destruct (Z.leb_spec (n + 1) 0); [unfold version in Hr1; lia|].
    cbn [fst Bolt.publish db_buckets with_buckets].
    pose proof (cw_revision _ _ _ Hwf bkey out (Hroom bkey) Hso Hno) as Hcr. fold n in Hcr.
    change (uid_of out) with (uid_of snap) in Hcr. rewrite Hcr.
    by apply (so_decode _ _ _ _ _ _ Hso).
  - intros k Hk. simpl. by rewrite lookup_partial_alter_ne.
  - simpl. by rewrite lookup_partial_alter_eq.
  - intros Hd. apply nextGeneration_spec; [..|exact (proj1 (rollback_desired _ _ _) Hd)]; [|apply Hsc].
    apply with_status_of_wf; [apply Hs|apply Hsc].
  - intros Hd. apply nextGeneration_spec; [..|intros Hd'; by apply Hd, (rollback_desired (n + 1))]; [|apply Hsc].
    apply with_status_of_wf; [apply Hs|apply Hsc].
Qed.
End Operations.
