(* ===== verification/BoltContract.v ===== *)
(** * The storage contract and its refinement

    [spec_step] is what api/storage/storage.go promises, on a map of objects and one version
    counter per Kind: names are unique, a stale token is refused, a core write advances the
    version and keeps the status, a status write changes the status alone, an error or a
    failed commit changes nothing.  The bolt store implements it, operation by operation and
    for every sequence of operations. *)
From stdpp Require Import gmap strings list sorting.
From Stdlib Require Import ZArith Ascii.
From S2P Require Import Prelude Resources CoreV1 ApiObjects Bolt BoltFacts BoltInvariant BoltTheorems.
#[local] Open Scope Z_scope.

(** ** The abstract store *)
Record Abs := mkAbs {
  ab_obj : string → string → option TObject;
  ab_rv : string → Z;
}.

#[export] Instance Abs_equiv : Equiv Abs := λ A B,
  (∀ bkey key, ab_obj A bkey key = ab_obj B bkey key) ∧ (∀ bkey, ab_rv A bkey = ab_rv B bkey).

#[export] Instance Abs_equivalence : Equivalence (≡@{Abs}).
Proof.
  split; [by split|by intros A B [H H']; split|].
  intros A B C [H1 H1'] [H2 H2']. split; intros; by rewrite ?H1, ?H1'.
Qed.

Definition ab_put (bkey key : string) (v : option TObject) (A : Abs) : Abs :=
  mkAbs (λ b k, if bool_decide (b = bkey ∧ k = key) then v else ab_obj A b k) (ab_rv A).

Definition ab_tick (bkey : string) (A : Abs) : Abs :=
  mkAbs (ab_obj A) (λ b, if bool_decide (b = bkey) then ab_rv A b + 1 else ab_rv A b).

#[export] Instance ab_put_proper bkey key v : Proper ((≡) ==> (≡)) (ab_put bkey key v).
Proof. intros A B [H H']. split; simpl; intros; rewrite ?H, ?H'; done. Qed.
#[export] Instance ab_tick_proper bkey : Proper ((≡) ==> (≡)) (ab_tick bkey).
Proof. intros A B [H H']. split; simpl; intros; rewrite ?H, ?H'; done. Qed.

(** ** The contract *)
Inductive Op :=
| OpCreate (uid : string) (now : Z) (obj : TObject)
| OpUpdate (obj : TObject)
| OpStatus (obj : TObject)
| OpDelete (m : TypesMeta)
| OpGet (m : TypesMeta).

(** A token that is neither empty nor current. *)
Definition stale (obj cur : TObject) : bool :=
  negb (bool_decide (om_ResourceVersion (ob_meta obj) = "")) &&
  negb (bool_decide (om_ResourceVersion (ob_meta obj) = om_ResourceVersion (ob_meta cur))).

(** What a spec watcher reads of an object. *)
Definition desired (o : TObject) : string * string * gmap string string :=
  (ob_APIVersion o, ob_Kind o, delete "status" (ob_fields o)).

(** The object an update of [cur] to [obj] leaves at version [rv]. *)
Definition spec_update (rv : Z) (cur obj : TObject) : TObject :=
  let m := ob_meta obj in
  mkTObject (ob_APIVersion obj) (ob_Kind obj)
    (mkObjectMeta (om_Namespace m) (om_Name m) (om_UID (ob_meta cur)) (GoStrings.itoa rv)
       (if bool_decide (desired obj = desired cur) then om_Generation (ob_meta cur)
        else wrap64 (om_Generation (ob_meta cur) + 1))
       (om_Labels m) (om_Annotations m) (om_CreationTimestamp (ob_meta cur)) (om_DeletionTimestamp m) (om_Finalizers m) (om_OwnerReferences m))
    (partial_alter (λ _, ob_fields cur !! "status") "status" (ob_fields obj)).

Section Contract.
Context (ParseGroupVersion : string → result error (string * string)).
Context {Selector : Type} (sel_Empty : Selector → bool)
  (sel_Matches : Selector → gmap string string → bool).
Context (sch : Scheme).
Abbreviation DB := (DB (Selector := Selector)).
Abbreviation gvk_of := (gvk_of ParseGroupVersion).
Abbreviation bucketKeyForMeta := (bucketKeyForMeta ParseGroupVersion).
Abbreviation registered := (registered ParseGroupVersion sch).
Abbreviation stored_obj := (stored_obj ParseGroupVersion sch).
Abbreviation store_wf := (store_wf ParseGroupVersion sch).
Abbreviation holds := (holds ParseGroupVersion sch).
Abbreviation core_write := (core_write sch).
Abbreviation publish := (publish sel_Empty sel_Matches).
Abbreviation bolt_Create := (bolt_Create ParseGroupVersion sel_Empty sel_Matches sch).
Abbreviation bolt_Update := (bolt_Update ParseGroupVersion sel_Empty sel_Matches sch).
Abbreviation bolt_UpdateSubresource := (bolt_UpdateSubresource ParseGroupVersion sel_Empty sel_Matches sch).
Abbreviation bolt_Delete := (bolt_Delete ParseGroupVersion sel_Empty sel_Matches sch).
Abbreviation bolt_Get := (bolt_Get ParseGroupVersion sch).
Implicit Types (s : DB) (o obj cur : TObject) (io : option error) (A B : Abs).

Definition spec_write (op : Op) A : result StoreError (Abs * option TObject) :=
  match op with
  | OpCreate uid now obj =>
      let* bkey := bucketKeyFor (gvk_of obj) in
      if bool_decide (om_Name (ob_meta obj) = "") then Err ENameRequired
      else match ab_obj A bkey (key_of obj) with
           | Some _ => Err ErrAlreadyExists
           | None =>
               let out := create_stamp uid now (ab_rv A bkey + 1) obj in
               Ok (ab_put bkey (key_of obj) (Some out) (ab_tick bkey A), Some out)
           end
  | OpUpdate obj =>
      let* bkey := bucketKeyFor (gvk_of obj) in
      match ab_obj A bkey (key_of obj) with
      | None => Err ErrNotFound
      | Some cur =>
          if stale obj cur then Err ErrConflict
          else let out := spec_update (ab_rv A bkey + 1) cur obj in
               Ok (ab_put bkey (key_of obj) (Some out) (ab_tick bkey A), Some out)
      end
  | OpStatus obj =>
      let* bkey := bucketKeyFor (gvk_of obj) in
      match ob_fields obj !! "status" with
      | None => Err (ENoField "status")
      | Some v =>
          match ab_obj A bkey (key_of obj) with
          | None => Err ErrNotFound
          | Some cur =>
              if stale obj cur then Err ErrConflict
              else Ok (ab_put bkey (key_of obj) (Some (set_status v cur)) A, Some (set_status v cur))
          end
      end
  | OpDelete m =>
      let* bkey := bucketKeyForMeta m in
      match ab_obj A bkey (recordKey (tm_Namespace m) (tm_Name m)) with
      | None => Err ErrNotFound
      | Some _ => Ok (ab_put bkey (recordKey (tm_Namespace m) (tm_Name m)) None A, None)
      end
  | OpGet m =>
      let* bkey := bucketKeyForMeta m in
      match ab_obj A bkey (recordKey (tm_Namespace m) (tm_Name m)) with
      | None => Err ErrNotFound
      | Some cur => Ok (A, Some cur)
      end
  end.

Definition writes (op : Op) : bool := match op with OpGet _ => false | _ => true end.

(** All or nothing: an error, or a commit that fails, leaves the store as it was. *)
Definition spec_step (io : option error) (op : Op) A : Abs * result StoreError (option TObject) :=
  match spec_write op A, io with
  | Err e, _ => (A, Err e)
  | Ok (A', r), Some e => if writes op then (A, Err (EIO e)) else (A', Ok r)
  | Ok (A', r), None => (A', Ok r)
  end.

Definition bolt_run io (op : Op) s : DB * result StoreError (option TObject) :=
  let lift (p : DB * result StoreError TObject) : DB * result StoreError (option TObject) :=
    (p.1, match p.2 with Ok o => Ok (Some o) | Err e => Err e end) in
  match op with
  | OpCreate uid now obj => lift (bolt_Create uid now io obj s)
  | OpUpdate obj => lift (bolt_Update io obj s)
  | OpStatus obj => lift (bolt_UpdateSubresource io "status" obj s)
  | OpDelete m => let p := bolt_Delete io m s in (p.1, match p.2 with Ok _ => Ok None | Err e => Err e end)
  | OpGet m => lift (s, bolt_Get m s)
  end.

(** What an operation relies on: a well-formed object of a registered Kind, a fresh uid and
    a counter short of its end. *)
Definition op_ok (op : Op) s : Prop :=
  roomy s ∧
  match op with
  | OpCreate uid _ obj => wf_obj obj ∧ registered obj ∧ uid_ok uid ∧ fresh_uid uid s
  | OpUpdate obj | OpStatus obj => wf_obj obj ∧ registered obj
  | _ => True
  end.

(** The abstract view of a store. *)
Definition abs s : Abs :=
  mkAbs (λ bkey key, unmarshal <$> head (db_buckets s) bkey key) (counter (db_buckets s)).

(** ** The view *)
Lemma view_holds s bkey cur rv : holds s bkey cur rv → ab_obj (abs s) bkey (key_of cur) = Some cur.
Proof. intros [H Hs]. simpl. rewrite H. simpl. rewrite unmarshal_marshal; [done|apply Hs]. Qed.

Lemma abs_publish bkey et raw ns lbls s : abs (publish bkey et raw ns lbls s) = abs s.
Proof. done. Qed.

Lemma abs_core_write s bkey o :
  store_wf (db_buckets s) → roomy s →
  stored_obj bkey (counter (db_buckets s) bkey + 1) o (counter (db_buckets s) bkey + 1) →
  abs (with_buckets (core_write bkey o (db_buckets s)) s) ≡ ab_put bkey (key_of o) (Some o) (ab_tick bkey (abs s)).
Proof.
  intros Hwf Hroom Hso. split; simpl.
  - intros b k. rewrite (cw_head _ _ _ Hwf _ _ (Hroom bkey)). case_bool_decide; simpl; [|done].
    rewrite unmarshal_marshal; [done|apply Hso].
  - intros b. rewrite (cw_counter _ _ _ Hwf _ _ (Hroom bkey)). by case_bool_decide as H; [rewrite H|].
Qed.

Lemma stale_check obj cur :
  checkResourceVersion (ob_meta obj) (ob_meta cur) = if stale obj cur then Some ErrConflict else None.
Proof. done. Qed.

Lemma desired_same a b : desired a = desired b ↔ same_desired a b.
Proof.
  unfold desired, same_desired. split.
  - intros [= Ha Hk Hf]. split_and!; try done. intros k Hne.
    by rewrite <-(lookup_delete_ne (ob_fields a) "status" k), Hf, lookup_delete_ne.
  - intros (-> & -> & Hf). f_equal. apply map_eq. intros k. destruct (decide (k = "status")) as [->|].
    + by rewrite !lookup_delete_eq.
    + rewrite !lookup_delete_ne by done. by apply Hf.
Qed.

Lemma update_stamp_spec rv cur obj : wf_obj cur → wf_obj obj → update_stamp rv cur obj = spec_update rv cur obj.
Proof.
  intros Hc Ho. unfold update_stamp, spec_update. cbv zeta. unfold with_status_of, with_meta. cbn.
  f_equal. set (out := mkTObject _ _ _ _).
  destruct (nextGeneration_spec out cur (om_Generation (ob_meta cur)) Ho Hc) as [H1 H2].
  case_bool_decide as Hd.
  - rewrite H1; [done|]. by apply (desired_same obj cur).
  - rewrite H2; [done|]. intros ?. by apply Hd, (desired_same obj cur).
Qed.

(** ** Each operation *)
Definition agrees io (op : Op) s : Prop :=
  abs (bolt_run io op s).1 ≡ (spec_step io op (abs s)).1 ∧
  (bolt_run io op s).2 = (spec_step io op (abs s)).2.

(** An operation that refuses on both sides. *)
Lemma agrees_err io op s e :
  bolt_run io op s = (s, Err e) → spec_write op (abs s) = Err e → agrees io op s.
Proof. intros H Hs. unfold agrees, spec_step. by rewrite H, Hs. Qed.

(** An operation that goes through unless its commit fails. *)
Lemma agrees_ok io op s s' A r :
  writes op = true → bolt_run io op s = committed io s (s', r) →
  spec_write op (abs s) = Ok (A, r) → abs s' ≡ A → agrees io op s.
Proof. intros Hw H Hs HA. unfold agrees, spec_step. rewrite H, Hs, Hw. by destruct io. Qed.

Lemma lift_committed io s s' (o : TObject) :
  ((committed io s (s', o)).1, match (committed io s (s', o)).2 with Ok o => Ok (Some o) | Err e => Err e end) =
  committed io s (s', Some o).
Proof. by destruct io. Qed.

Lemma create_agrees uid now obj io s : store_wf (db_buckets s) → op_ok (OpCreate uid now obj) s →
  agrees io (OpCreate uid now obj) s.
Proof.
  intros Hwf (Hroom & Hwo & Hreg & Hu & Hfr).
  destruct (bucketKeyFor (gvk_of obj)) as [bkey|e] eqn:Eb.
  2: { by apply (agrees_err _ _ _ e); simpl; unfold Bolt.bolt_Create; rewrite Eb. }
  destruct (decide (om_Name (ob_meta obj) = "")) as [En|En].
  { by apply (agrees_err _ _ _ ENameRequired); simpl; unfold Bolt.bolt_Create; rewrite Eb; simpl; rewrite bool_decide_eq_true_2. }
  destruct (head (db_buckets s) bkey (key_of obj)) as [enc|] eqn:Eh.
  { apply (agrees_err _ _ _ ErrAlreadyExists); simpl; unfold Bolt.bolt_Create, transact;
      rewrite Eb; simpl; rewrite bool_decide_eq_false_2 by done; fold (key_of obj); by rewrite Eh. }
  destruct (create_ok _ sel_Empty sel_Matches sch uid now obj s bkey Hwf Hroom Hwo Hreg Hu Hfr Eb En Eh)
    as (_ & Hso & _ & Hrun).
  eapply agrees_ok; [done|simpl; rewrite Hrun; apply lift_committed|..].
  - simpl. rewrite Eb. simpl. rewrite bool_decide_eq_false_2, Eh by done. done.
  - rewrite abs_publish. by apply (abs_core_write s bkey (create_stamp _ _ _ _)).
Qed.

Lemma update_agrees obj io s : store_wf (db_buckets s) → op_ok (OpUpdate obj) s → agrees io (OpUpdate obj) s.
Proof.
  intros Hwf (Hroom & Hwo & Hreg).
  destruct (bucketKeyFor (gvk_of obj)) as [bkey|e] eqn:Eb.
  2: { by apply (agrees_err _ _ _ e); simpl; unfold Bolt.bolt_Update; rewrite Eb. }
  destruct (head (db_buckets s) bkey (key_of obj)) as [enc|] eqn:Eh.
  2: { apply (agrees_err _ _ _ ErrNotFound); simpl; unfold Bolt.bolt_Update, transact;
         rewrite Eb; fold (key_of obj); simpl; by rewrite Eh. }
  destruct (holds_head _ _ _ _ _ _ Hwf Eh) as (cur & rv & -> & Ek & Hh).
  pose proof (view_holds _ _ _ _ Hh) as Hview. rewrite <-Ek in Hview.
  destruct (stale obj cur) eqn:Ec.
  { apply (agrees_err _ _ _ ErrConflict); cbn [bolt_run spec_write].
    - unfold Bolt.bolt_Update, transact. rewrite Eb. fold (key_of obj).
      by rewrite Eh, (holds_decode _ _ _ _ _ _ Hh), stale_check, Ec.
    - rewrite Eb, Hview, Ec. done. }
  destruct (update_ok _ sel_Empty sel_Matches sch obj s bkey cur rv Hwf Hroom Hwo Hreg Eb Hh Ek) as (_ & Hrun);
    [by rewrite stale_check, Ec|].
  destruct (update_stamp_stored _ _ s bkey cur rv obj Hwf Hroom Hh Hwo Hreg Eb Ek) as (Hso & _ & Eko).
  eapply agrees_ok; [done|simpl; rewrite Hrun; apply lift_committed|..].
  - cbn [spec_write]. rewrite Eb, Hview, Ec. rewrite update_stamp_spec; [done|apply Hh|done].
  - rewrite abs_publish, <-update_stamp_spec by (done || apply Hh). rewrite Ek, <-Eko.
    by apply abs_core_write.
Qed.

Lemma abs_status_write s bkey cur rv v :
  wf_obj (set_status v cur) → holds s bkey cur rv →
  abs (with_buckets (status_write bkey cur v (db_buckets s)) s) ≡
  ab_put bkey (key_of cur) (Some (set_status v cur)) (abs s).
Proof.
  intros Hwf Hh. split; [|done]. intros b k. cbn [ab_obj abs ab_put db_buckets with_buckets].
  unfold status_write. rewrite head_putHead. case_bool_decide; [|done]. simpl. by rewrite unmarshal_marshal.
Qed.

Lemma status_agrees obj io s : store_wf (db_buckets s) → op_ok (OpStatus obj) s → agrees io (OpStatus obj) s.
Proof.
  intros Hwf (Hroom & Hwo & Hreg).
  destruct (bucketKeyFor (gvk_of obj)) as [bkey|e] eqn:Eb.
  2: { by apply (agrees_err _ _ _ e); simpl; unfold Bolt.bolt_UpdateSubresource; rewrite ?bool_decide_eq_false_2, Eb. }
  assert (marshal obj !! "status" = JText <$> ob_fields obj !! "status") as Hm
    by (apply marshal_field, not_headers; done).
  destruct (ob_fields obj !! "status") as [v|] eqn:Ev; simpl in Hm.
  2: { by apply (agrees_err _ _ _ (ENoField "status")); simpl; unfold Bolt.bolt_UpdateSubresource;
         rewrite ?bool_decide_eq_false_2, Eb, ?Hm, ?Ev. }
  destruct (head (db_buckets s) bkey (key_of obj)) as [enc|] eqn:Eh.
  2: { apply (agrees_err _ _ _ ErrNotFound); simpl; unfold Bolt.bolt_UpdateSubresource, transact;
         rewrite ?bool_decide_eq_false_2, Eb, ?Hm, ?Ev by done; fold (key_of obj); simpl; by rewrite Eh. }
  destruct (holds_head _ _ _ _ _ _ Hwf Eh) as (cur & rv & -> & Ek & Hh).
  pose proof (view_holds _ _ _ _ Hh) as Hview. rewrite <-Ek in Hview.
  destruct (stale obj cur) eqn:Ec.
  { apply (agrees_err _ _ _ ErrConflict); cbn [bolt_run spec_write].
    - unfold Bolt.bolt_UpdateSubresource, transact. rewrite ?bool_decide_eq_false_2, Eb, Hm by done. fold (key_of obj).
      by rewrite Eh, (holds_decode _ _ _ _ _ _ Hh), stale_check, Ec.
    - by rewrite Eb, Ev, Hview, Ec. }
  destruct (status_ok _ sel_Empty sel_Matches sch obj s bkey cur rv v Hwf Hwo Eb Hh Ek Ev) as (_ & Hrun);
    [by rewrite stale_check, Ec|].
  assert (wf_obj (set_status v cur)) as Hws by (apply set_status_wf; [by eapply Hwo|apply Hh]).
  assert (spec_write (OpStatus obj) (abs s) =
    Ok (ab_put bkey (key_of obj) (Some (set_status v cur)) (abs s), Some (set_status v cur))) as Hspec
    by (cbn [spec_write]; by rewrite Eb, Ev, Hview, Ec).
  revert Hrun. case_bool_decide as Hsame; intros Hrun.
  - assert (set_status v cur = cur) as Es.
    { destruct cur. unfold set_status. simpl in *. by rewrite insert_id. }
    rewrite Es in Hspec. eapply agrees_ok; [done|simpl; rewrite Hrun; apply lift_committed|done|].
    split; [|done]. intros b k. cbn [ab_put ab_obj]. case_bool_decide as Hb; [|done]. by destruct Hb as [-> ->].
  - eapply agrees_ok; [done|simpl; rewrite Hrun; apply lift_committed|done|].
    rewrite abs_publish, Ek. by eapply abs_status_write.
Qed.

Lemma delete_agrees m io s : store_wf (db_buckets s) → agrees io (OpDelete m) s.
Proof.
  intros Hwf. destruct (bucketKeyForMeta m) as [bkey|e] eqn:Eb.
  2: { by apply (agrees_err _ _ _ e); simpl; unfold Bolt.bolt_Delete; rewrite Eb. }
  set (key := recordKey (tm_Namespace m) (tm_Name m)).
  destruct (head (db_buckets s) bkey key) as [enc|] eqn:Eh.
  2: { by apply (agrees_err _ _ _ ErrNotFound); simpl; unfold Bolt.bolt_Delete, transact;
         rewrite Eb; fold key; rewrite Eh. }
  destruct (holds_head _ _ _ _ _ _ Hwf Eh) as (cur & rv & -> & Ek & Hh).
  eapply (agrees_ok io _ s (publish bkey Deleted (marshal cur) (om_Namespace (ob_meta cur)) (om_Labels (ob_meta cur))
    (with_buckets (erase_obj bkey cur (db_buckets s)) s))); [done|..].
  - simpl. unfold Bolt.bolt_Delete, transact. rewrite Eb. fold key.
    rewrite Eh, (holds_decode _ _ _ _ _ _ Hh). rewrite Ek. by destruct io.
  - cbn [spec_write]. rewrite Eb. fold key. cbn [ab_obj abs]. by rewrite Eh.
  - rewrite abs_publish. split.
    + intros b k. cbn [ab_put ab_obj abs db_buckets with_buckets]. unfold erase_obj. rewrite dl_head, Ek.
      by case_bool_decide.
    + intros b. cbn [ab_put ab_rv abs db_buckets with_buckets]. apply dl_counter.
Qed.

Lemma get_agrees m io s : store_wf (db_buckets s) → agrees io (OpGet m) s.
Proof.
  intros Hwf. unfold agrees, spec_step. cbn [bolt_run spec_write writes fst snd]. unfold Bolt.bolt_Get.
  destruct (bucketKeyForMeta m) as [bkey|e]; [|done]. cbn [abs ab_obj].
  destruct (head (db_buckets s) bkey _) as [enc|] eqn:Eh; simpl; [|done].
  destruct (holds_head _ _ _ _ _ _ Hwf Eh) as (cur & rv & -> & Ek & Hh).
  rewrite (holds_decode _ _ _ _ _ _ Hh), unmarshal_marshal by apply Hh. by destruct io.
Qed.

Lemma run_agrees io op s : store_wf (db_buckets s) → op_ok op s → agrees io op s.
Proof.
  intros Hwf Hok. destruct op; [by apply create_agrees|by apply update_agrees|by apply status_agrees
    |by apply delete_agrees|by apply get_agrees].
Qed.

(** ** Sequences of operations *)
#[local] Instance spec_step_proper io op : Proper ((≡) ==> prod_relation (≡) (=)) (spec_step io op).
Proof.
  intros A B HAB. destruct HAB as [Ho Hr]. unfold spec_step.
  assert (match spec_write op A, spec_write op B with
          | Ok (A', r), Ok (B', r') => A' ≡ B' ∧ r = r' | Err e, Err e' => e = e' | _, _ => False end) as H.
  { destruct op; cbn [spec_write]; try (destruct (bucketKeyFor _) as [bkey|]; [|done]);
      try (destruct (bucketKeyForMeta _) as [bkey|]; [|done]).
    - case_bool_decide; [done|]. rewrite Ho, Hr. destruct (ab_obj B _ _); [done|].
      split; [|done]. f_equiv. by split; simpl; intros; rewrite ?Ho, ?Hr.
    - rewrite Ho, Hr. destruct (ab_obj B _ _); [|done]. destruct (stale _ _); [done|].
      split; [|done]. f_equiv. by split; simpl; intros; rewrite ?Ho, ?Hr.
    - destruct (_ !! _); [|done]. rewrite Ho. destruct (ab_obj B _ _); [|done]. destruct (stale _ _); [done|].
      split; [|done]. by f_equiv.
    - rewrite Ho. destruct (ab_obj B _ _); [|done]. split; [|done]. by f_equiv.
    - rewrite Ho. by destruct (ab_obj B _ _). }
  destruct (spec_write op A) as [[A' r]|e], (spec_write op B) as [[B' r']|e']; try done.
  - destruct H as [HA ->], io; [destruct (writes op)|]; by split.
  - by subst.
Qed.

(** The results of a sequence, in order. *)
Fixpoint bolt_runs (l : list (option error * Op)) s : DB * list (result StoreError (option TObject)) :=
  match l with
  | [] => (s, [])
  | (io, op) :: l' =>
      let p := bolt_run io op s in
      let q := bolt_runs l' p.1 in (q.1, p.2 :: q.2)
  end.

Fixpoint spec_runs (l : list (option error * Op)) A : Abs * list (result StoreError (option TObject)) :=
  match l with
  | [] => (A, [])
  | (io, op) :: l' =>
      let p := spec_step io op A in
      let q := spec_runs l' p.1 in (q.1, p.2 :: q.2)
  end.

Fixpoint ops_ok (l : list (option error * Op)) s : Prop :=
  match l with
  | [] => True
  | (io, op) :: l' => op_ok op s ∧ ops_ok l' (bolt_run io op s).1
  end.

#[local] Instance spec_runs_proper l : Proper ((≡) ==> prod_relation (≡) (=)) (spec_runs l).
Proof.
  induction l as [|[io op] l IH]; intros A B HAB; [done|]. cbn [spec_runs].
  destruct (spec_step_proper io op A B HAB) as [H1 H2]. destruct (IH _ _ H1) as [H3 H4].
  split; [done|]. simpl. congruence.
Qed.

Lemma run_wf io op s : store_wf (db_buckets s) → op_ok op s → store_wf (db_buckets (bolt_run io op s).1).
Proof.
  intros Hwf [Hroom Hok]. destruct op as [uid now obj|obj|obj|m|m]; cbn [bolt_run fst]; [..|done].
  - destruct Hok as (? & ? & ? & ?).
    destruct (create_spec _ sel_Empty sel_Matches sch uid now io obj s Hwf Hroom) as [[e ->]|(? & ? & _ & _ & _ & Hw & _ & _ & ->)]; done.
  - destruct Hok as [? ?].
    destruct (update_spec _ sel_Empty sel_Matches sch io obj s Hwf Hroom) as [[e ->]|(? & ? & ? & ? & _ & _ & _ & _ & _ & Hw & ->)]; done.
  - destruct Hok as [? ?].
    destruct (status_spec _ sel_Empty sel_Matches sch io obj s Hwf) as [[e ->]|(? & ? & ? & ? & _ & _ & _ & _ & [[_ ->]|(_ & Hw & ->)])]; done.
  - destruct (delete_spec _ sel_Empty sel_Matches sch io m s Hwf) as [[e ->]|(? & ? & ? & _ & _ & _ & Hw & ->)]; done.
Qed.

Lemma runs_agree l s :
  store_wf (db_buckets s) → ops_ok l s →
  abs (bolt_runs l s).1 ≡ (spec_runs l (abs s)).1 ∧ (bolt_runs l s).2 = (spec_runs l (abs s)).2.
Proof.
  revert s. induction l as [|[io op] l IH]; intros s Hwf Hok; [done|]. destruct Hok as [Hop Hok].
  cbn [bolt_runs spec_runs fst snd]. destruct (run_agrees io op s Hwf Hop) as [H1 H2].
  destruct (IH _ (run_wf io op s Hwf Hop) Hok) as [H3 H4].
  destruct (spec_runs_proper l _ _ H1) as [H5 H6].
  split; [by etrans|]. by rewrite H2, H4, H6.
Qed.

Definition new_store : DB := bolt_Open sch (mkBuckets ∅ ∅ ∅).
Definition no_objects : Abs := mkAbs (λ _ _, None) (λ _, 0).

Lemma abs_new : abs new_store ≡ no_objects.
Proof.
  split; intros; cbn; [|done]. unfold head, bucket. cbn [bk_heads]. by rewrite lookup_empty.
Qed.

(** C5: the embedded store refines the storage contract: for every sequence of creates,
    updates, status writes, deletions and reads on a new store, with any of the commits
    failing, each call returns what the contract says (names unique per Kind, stale tokens
    refused, a core write at the Kind's next version with the status kept and the generation
    moved exactly when the desired state changed, a status write that changes nothing else,
    nothing changed by an error or a failed commit), and the store ends up holding exactly
    the objects and counters the contract says. *)
Theorem bolt_refines l :
  ops_ok l new_store →
  abs (bolt_runs l new_store).1 ≡ (spec_runs l no_objects).1 ∧
  (bolt_runs l new_store).2 = (spec_runs l no_objects).2.
Proof.
  intros Hok. destruct (runs_agree l new_store) as [H1 H2]; [apply open_wf, empty_wf|done|].
  destruct (spec_runs_proper l _ _ abs_new) as [H3 H4]. split; [by etrans|by rewrite H2].
Qed.
End Contract.

(** ** A store at work: the witnesses of the store's properties

    Two Kinds, one with history and one without; an object created, updated, given a status,
    rolled back. *)
Module BoltDemo.
#[local] Open Scope Z_scope.
(** ** Checks that compute *)
Definition wf_objb (o : TObject) : bool :=
  negb (bool_decide (ob_Kind o = "")) &&
  bool_decide (Forall (λ h, ob_fields o !! h = None) headers) &&
  bool_decide (map_Forall (λ _ v, v ≠ "") (ob_fields o)).

Lemma wf_objb_ok o : wf_objb o = true → wf_obj o.
Proof.
  unfold wf_objb. rewrite !andb_true_iff, !bool_decide_eq_true, negb_true_iff, bool_decide_eq_false.
  intros [[? H] ?]. split_and!; [done| |done]. intros h Hh. by apply (proj1 (Forall_forall _ _) H).
Qed.

Lemma is_Someb {A} (x : option A) : match x with Some _ => true | None => false end = true → is_Some x.
Proof. by destruct x. Qed.

Lemma is_Some_default (x : option Enc) : is_Some x → x = Some (default ∅ x).
Proof. by intros [v ->]. Qed.

Section Checks.
Context {Selector : Type}.
Implicit Types (s : DB (Selector := Selector)).

Definition roomyb s : bool :=
  bool_decide (map_Forall (λ _ v, ParseUint_value v < 2 ^ 64 - 1) (bk_seq (db_buckets s))).

Lemma roomyb_ok s : roomyb s = true → roomy s.
Proof.
  unfold roomyb. rewrite bool_decide_eq_true. intros H bkey. unfold counter.
  destruct (bk_seq (db_buckets s) !! bkey) eqn:E; [by apply (H _ _ E)|done].
Qed.

Definition freshb (uid : string) s : bool :=
  bool_decide (map_Forall (λ _ b, map_Forall (λ _ e, om_UID (ob_meta (unmarshal e)) ≠ uid) b)
    (bk_heads (db_buckets s))).

Lemma freshb_ok uid s : freshb uid s = true → fresh_uid uid s.
Proof.
  unfold freshb. rewrite bool_decide_eq_true. intros H bkey o Ho Hwf Eu. unfold head, bucket in Ho.
  destruct (bk_heads (db_buckets s) !! bkey) as [b|] eqn:E; [|done].
  apply (H _ _ E _ _ Ho). by rewrite unmarshal_marshal.
Qed.
End Checks.

(** ** The instance *)
Definition demo_ParseGroupVersion (s : string) : result error (string * string) :=
  match GoStrings.cut "/"%char s with
  | Some (g, v) => Ok (g, v)
  | None => Ok ("", s)
  end.
Definition demo_sel_Parse (s : string) : result error unit := Ok tt.
Definition demo_sel_Empty (_ : unit) : bool := true.
Definition demo_sel_Matches (_ : unit) (_ : gmap string string) : bool := true.

Definition demo_scheme : Scheme :=
  let app := ("core.horchestra.io", "v1", "Application") in
  let csr := ("core.horchestra.io", "v1", "CertificateSigningRequest") in
  mkScheme {[app; csr]}
    (<[app := mkResource "applications" "application" [] true false]>
      {[csr := mkResource "certificatesigningrequests" "certificatesigningrequest" [] false true]}).

Definition demo_app (rv spec status : string) : TObject :=
  mkTObject "core.horchestra.io/v1" "Application"
    (mkObjectMeta "default" "web" "" rv 0 ∅ ∅ 0 None [] [])
    (<["spec" := spec]> {["status" := status]}).

Definition demo_meta : TypesMeta := mkTypesMeta "core.horchestra.io/v1" "Application" "default" "web".
Definition demo_bkey : string := "core.horchestra.io/Application".

Abbreviation demo_Create := (bolt_Create demo_ParseGroupVersion demo_sel_Empty demo_sel_Matches demo_scheme).
Abbreviation demo_Update := (bolt_Update demo_ParseGroupVersion demo_sel_Empty demo_sel_Matches demo_scheme).
Abbreviation demo_step := (bolt_step demo_ParseGroupVersion demo_sel_Parse demo_sel_Empty demo_sel_Matches tt demo_scheme).
Abbreviation demo_reachable :=
  (bolt_reachable demo_ParseGroupVersion demo_sel_Parse demo_sel_Empty demo_sel_Matches tt demo_scheme).

Definition demo_s0 : DB (Selector := unit) := bolt_Open demo_scheme (mkBuckets ∅ ∅ ∅).
Definition demo_s1 : DB := (demo_Create "u1" 1500000000 None (demo_app "" "one" "new") demo_s0).1.
Definition demo_s2 : DB := (demo_Update None (demo_app "1" "two" "forged") demo_s1).1.

Lemma demo_registered rv spec status :
  registered demo_ParseGroupVersion demo_scheme (demo_app rv spec status).
Proof. exists "core.horchestra.io", "v1". split; [vm_compute; reflexivity|]. by vm_compute. Qed.

Lemma demo_reachable_1 : demo_reachable demo_s1.
Proof.
  eapply br_step; [apply br_new|]. apply bs_create.
  - apply roomyb_ok. by vm_compute.
  - apply wf_objb_ok. by vm_compute.
  - apply demo_registered.
  - by split.
  - apply freshb_ok. by vm_compute.
Qed.

Lemma demo_step_2 : demo_step demo_s1 demo_s2.
Proof.
  apply bs_update; [apply roomyb_ok; by vm_compute|apply wf_objb_ok; by vm_compute|apply demo_registered].
Qed.

Lemma demo_reachable_2 : demo_reachable demo_s2.
Proof. eapply br_step; [apply demo_reachable_1|apply demo_step_2]. Qed.

(** ** Witnesses *)
Lemma bolt_invariant_witness :
  wf_store demo_ParseGroupVersion demo_sel_Empty demo_sel_Matches demo_scheme demo_s2 ∧
  is_Some (revision (db_buckets demo_s2) demo_bkey "u1" 1).
Proof.
  split; [|by apply is_Someb; vm_compute].
  apply (bolt_invariant demo_ParseGroupVersion demo_sel_Parse demo_sel_Empty demo_sel_Matches tt), demo_reachable_2.
Defined.

Lemma bolt_retention_witness :
  is_Some (revision (db_buckets demo_s1) demo_bkey "u1" 1) ∧
  (revision (db_buckets demo_s2) demo_bkey "u1" 1 = Some (default ∅ (revision (db_buckets demo_s1) demo_bkey "u1" 1)) ∨
   outlived (db_buckets demo_s2) demo_bkey "u1" 1 ∨
   (∀ o, head (db_buckets demo_s2) demo_bkey (key_of o) = Some (marshal o) → wf_obj o → uid_of o ≠ "u1")).
Proof.
  split; [by apply is_Someb; vm_compute|].
  apply (bolt_retention demo_ParseGroupVersion demo_sel_Parse demo_sel_Empty demo_sel_Matches tt demo_scheme demo_s1);
    [apply demo_reachable_1|apply demo_step_2|by split|by split|apply is_Some_default, is_Someb; by vm_compute].
Defined.

Lemma bolt_no_lost_update_witness :
  (demo_Update None (demo_app "1" "two" "forged") demo_s1).2 =
    Ok (unmarshal (default ∅ (head (db_buckets demo_s2) demo_bkey "default/web"))) ∧
  demo_Update None (demo_app "1" "three" "x") demo_s2 = (demo_s2, Err ErrConflict) ∧
  bolt_UpdateSubresource demo_ParseGroupVersion demo_sel_Empty demo_sel_Matches demo_scheme None "status"
    (demo_app "1" "three" "x") demo_s2 = (demo_s2, Err ErrConflict).
Proof.
  split; [vm_compute; reflexivity|].
  apply (bolt_no_lost_update demo_ParseGroupVersion demo_sel_Parse demo_sel_Empty demo_sel_Matches tt demo_scheme
    demo_s1 demo_s2 None None (demo_app "1" "two" "forged") (demo_app "1" "three" "x")
    (unmarshal (default ∅ (head (db_buckets demo_s2) demo_bkey "default/web"))));
    [apply demo_reachable_1|apply roomyb_ok; by vm_compute|apply wf_objb_ok; by vm_compute|apply demo_registered
    |vm_compute; reflexivity|done|done|done|done|by apply is_Someb; vm_compute].
Defined.

Lemma bolt_rollback_restores_witness :
  ∃ s' out, bolt_Rollback demo_ParseGroupVersion demo_sel_Empty demo_sel_Matches demo_scheme None demo_meta "u1" 1 demo_s2
      = (s', Ok out) ∧
    ob_fields out !! "spec" = Some "one" ∧ bolt_Get demo_ParseGroupVersion demo_scheme demo_meta s' = Ok out.
Proof.
  destruct (bolt_rollback_restores demo_ParseGroupVersion demo_sel_Parse demo_sel_Empty demo_sel_Matches tt demo_scheme
    demo_s2 demo_meta "u1" 1 (unmarshal (default ∅ (revision (db_buckets demo_s2) demo_bkey "u1" 1))))
    as [_ (bkey & cur & s' & out & _ & Hr & _ & _ & Hg & _ & Hf & _)];
    [apply demo_reachable_2|apply roomyb_ok; by vm_compute|by split|vm_compute; reflexivity|].
  exists s', out. split_and!; [exact Hr| |exact Hg]. rewrite Hf by done. vm_compute. reflexivity.
Defined.

Definition demo_ops : list (option error * Op) :=
  [(None, OpCreate "u1" 1500000000 (demo_app "" "one" "new"));
   (Some "disk full", OpUpdate (demo_app "1" "two" "forged"));
   (None, OpUpdate (demo_app "1" "two" "forged"));
   (None, OpUpdate (demo_app "1" "three" "late"));
   (None, OpStatus (demo_app "2" "two" "ready"));
   (None, OpGet demo_meta);
   (None, OpDelete demo_meta);
   (None, OpGet demo_meta)].

Lemma demo_ops_ok : ops_ok demo_ParseGroupVersion demo_sel_Empty demo_sel_Matches demo_scheme demo_ops (new_store demo_scheme).
Proof.
  assert (∀ rv a b, a ≠ "" → b ≠ "" → wf_obj (demo_app rv a b)) as Hwf.
  { intros rv a b Ha Hb. split_and!; [done|..].
    - intros h Hh. unfold headers in Hh. rewrite !elem_of_cons in Hh. by destruct Hh as [->|[->|[->|[]%elem_of_nil]]].
    - intros k v. cbn [ob_fields demo_app]. rewrite lookup_insert_Some, lookup_singleton_Some. naive_solver. }
  pose proof demo_registered as Hreg. unfold demo_ops.
  split; [split; [apply roomyb_ok; by vm_compute|split_and!; [by apply Hwf|apply Hreg|done|apply freshb_ok; by vm_compute]]|].
  do 4 (split; [split; [apply roomyb_ok; by vm_compute|split; [by apply Hwf|apply Hreg]]|]).
  do 3 (split; [split; [apply roomyb_ok; by vm_compute|done]|]). done.
Qed.

Lemma bolt_refines_witness :
  (bolt_runs demo_ParseGroupVersion demo_sel_Empty demo_sel_Matches demo_scheme demo_ops (new_store demo_scheme)).2 =
  (spec_runs demo_ParseGroupVersion demo_ops no_objects).2.
Proof.
  apply (bolt_refines demo_ParseGroupVersion demo_sel_Empty demo_sel_Matches demo_scheme demo_ops), demo_ops_ok.
Defined.
End BoltDemo.
