(* ===== verification/ApiService.v ===== *)
(** * The API service (controller/service/service.go)

    The layer every write of the control plane goes through: decode the body, bind the
    request's namespace, review the typed object, hand it to the store, and map the store's
    and the chain's errors onto API errors.  The store is a record of operations
    ([Storage]); what the service relies on is the class [StorageContract], stated on the
    set of objects a store holds.

    JSON, the schema compiler and the patch library are parameters.  A [Body] is a request
    body; the environment [E] is what one store call draws from outside (a fresh uid, the
    clock, the outcome of its commit). *)
From stdpp Require Import gmap strings list.
From Stdlib Require Import ZArith Ascii.
From S2P Require Import Prelude Resources CoreV1 ApiObjects Uids Paths Admission AdmissionFacts Allocation References.
From S2P Require Import Store Integrity Tenancy Bolt.
#[local] Open Scope Z_scope.

(** ** Errors *)
Inductive InvalidCause :=
| NameRequired
| BadName (msgs : list string)
| BadNamespace (msgs : list string)
| Undecodable (e : error)
| Schema (errs : list error)
| Refused (e : AdmissionError).

(** [k8s.io/apimachinery/pkg/api/errors], by the resource or kind and the name they carry. *)
Inductive ApiError :=
| NotFound (r : string * string) (name : string)
| AlreadyExists (r : string * string) (name : string)
| Conflict (r : string * string) (name : string)
| Forbidden (r : string * string) (name : string) (e : AdmissionError)
| Invalid (gk : string * string) (name : string) (why : InvalidCause)
| BadRequest (why : string)
| EntityTooLarge (limit : Z)
| UnsupportedPatch (pt : string) (name : string)
| InternalError (why : error)
| StoreInternal (e : StoreError).

(** [errors.AsType[*admission.ForbiddenError]]: the denials, also under the wrapping of a
    set's child. *)
Fixpoint is_Forbidden (e : AdmissionError) : bool :=
  match e with
  | EChild _ e' => is_Forbidden e'
  | FUidOutsideBlock _ _ _ _ | FUidRangeAnnotation _ | FNamespaceUidRange _ _ | FNoFreeBlock _
  | FNoFreeID _ _ | FRunAsUserUnset | FRunAs _ | FExecModifier _ | FExecControlChars _ _
  | FEnvControlChars _ _ | FEnvDuplicate _ _ | FDeletionTimestamp | FReservedLabels _
  | FCapacity _ _ _ | FNamespaceNotEmpty _ | FPVInUse _ _ | FPVExclusive _ _ | FSecretInUse _ _
  | FTooManyTuples _ | FWildcardPath _ _ | FEscalatePath _ _ | FWildcard _ _ _ | FEscalate _ _ _ _
  | FTooManySecrets _ | FSecretAccess _ _ | FServiceJoin _ _ | FNodeWrites _ _ | FNodeOther _ _
  | FNodeSpec _ | FNodeLabels _ | FCSRImmutable | FSecretGate _ | FServiceNodeName _
  | FClusterIP _ _ | FServiceRange _ _ | FServiceRangeExhausted _ _ | FOwnerReference _
  | FReservedAnnotation _ | FReservedLabel _ | FChildSpec _ _ => true
  | _ => false
  end.

(** The text a plugin's list error carries. *)
Definition store_text (e : StoreError) : error :=
  match e with
  | ErrNotFound => "not found"
  | ErrAlreadyExists => "already exists"
  | ErrConflict => "modified concurrently"
  | EDecode e | EIO e => e
  | _ => "storage"
  end.

(** ** The storage interface (api/storage/storage.go) *)
Record Storage {HQ : Quantity} (S E : Type) := mkStorage {
  st_Create : E → Object → S → S * result StoreError Object;
  st_Update : E → Object → S → S * result StoreError Object;
  st_UpdateSubresource : E → string → Object → S → S * result StoreError Object;
  st_Rollback : E → TypesMeta → string → Z → S → S * result StoreError Object;
  st_GetRevision : TypesMeta → string → Z → S → result StoreError Object;
  st_Delete : E → TypesMeta → S → S * result StoreError unit;
  st_Get : TypesMeta → S → result StoreError Object;
  st_List : TypesMeta → string → S → result StoreError (list Object);
  st_Watch : TypesMeta → string → S → S * result StoreError (string * nat);
}.
Arguments mkStorage {HQ S E}.
Arguments st_Create {HQ S E}.
Arguments st_Update {HQ S E}.
Arguments st_UpdateSubresource {HQ S E}.
Arguments st_Rollback {HQ S E}.
Arguments st_GetRevision {HQ S E}.
Arguments st_Delete {HQ S E}.
Arguments st_Get {HQ S E}.
Arguments st_List {HQ S E}.
Arguments st_Watch {HQ S E}.

(** The API version each kind is registered under (the group_version.go files). *)
Definition apiVersion_of (kind : string) : string :=
  if bool_decide (kind ∈ ["Role"; "RoleBinding"; "ClusterRole"; "ClusterRoleBinding"]) then "rbac.horchestra.io/v1"
  else if bool_decide (kind = "CertificateSigningRequest") then "certificates.horchestra.io/v1"
  else GroupVersion.

(** [resourceMeta]. *)
Definition resourceMeta (kind : string) : TypesMeta := mkTypesMeta (apiVersion_of kind) kind "" "".

Definition address (m : TypesMeta) : string * string * string := (tm_Kind m, tm_Namespace m, tm_Name m).

Definition FinalizerOrphanDependents : string := "orphan".
Definition MergePatchType : string := "application/merge-patch+json".
Definition JSONPatchType : string := "application/json-patch+json".
Definition DeletePropagationOrphan : string := "Orphan".
Definition maxJSONPatchOperations : nat := Z.to_nat 10000.

Definition gvk_Kind (gvk : GVK) : string := gvk.2.
Definition gvk_Group (gvk : GVK) : string := gvk.1.1.
Definition gk_of (gvk : GVK) : string * string := (gvk_Group gvk, gvk_Kind gvk).

(** [schema.GroupVersion.String]. *)
Definition gv_String (gvk : GVK) : string :=
  if bool_decide (gvk_Group gvk = "") then gvk.1.2 else gvk_Group gvk +:+ "/" +:+ gvk.1.2.

(** Code outside the repository that the service calls: apimachinery's names, JSON and the
    patch library; and [Scheme.Default] and [Scheme.Validate], which run a JSON schema
    compiled by reflection. *)
Record Libs {HQ : Quantity} (Body Patch : Type) := mkLibs {
  ParseGroupVersion : string → result error (string * string);
  UnsafeGuessKindToResource : GVK → string * string;
  IsDNS1123Subdomain : string → list string;
  IsDNS1123Label : string → list string;
  json_Marshal : Object → result error Body;
  json_Unmarshal : GVK → Body → Object * option error;
  MergePatch : Body → Body → result error Body;
  DecodePatch : Body → result error Patch;
  patch_len : Patch → nat;
  ApplyPatch : Patch → Body → result error Body;
  scheme_Default : GVK → Body → result error Body;
  scheme_Validate : GVK → Body → list error;
}.
Arguments mkLibs {HQ Body Patch}.
Arguments ParseGroupVersion {HQ Body Patch}.
Arguments UnsafeGuessKindToResource {HQ Body Patch}.
Arguments IsDNS1123Subdomain {HQ Body Patch}.
Arguments IsDNS1123Label {HQ Body Patch}.
Arguments json_Marshal {HQ Body Patch}.
Arguments json_Unmarshal {HQ Body Patch}.
Arguments MergePatch {HQ Body Patch}.
Arguments DecodePatch {HQ Body Patch}.
Arguments patch_len {HQ Body Patch}.
Arguments ApplyPatch {HQ Body Patch}.
Arguments scheme_Default {HQ Body Patch}.
Arguments scheme_Validate {HQ Body Patch}.

Section Service.
Context {HQ : Quantity}.
Implicit Types (m : TypesMeta) (gvk : GVK) (ctx : Ctx).

(** [metaOf]. *)
Definition metaOf gvk (obj : Object) : TypesMeta :=
  mkTypesMeta (gv_String gvk) (gvk_Kind gvk) (obj_Namespace obj) (obj_Name obj).

(** [invalid]. *)
Definition invalid gvk (name : string) (why : InvalidCause) : ApiError := Invalid (gk_of gvk) name why.

(** [bindNamespace]. *)
Definition bindNamespace (obj : Object) (ns : string) : result ApiError Object :=
  let got := obj_Namespace obj in
  if negb (bool_decide (got = "")) && negb (bool_decide (got = ns)) then
    if bool_decide (ns = "") then Err (BadRequest "the object must not set metadata.namespace")
    else Err (BadRequest "the namespace of the object does not match the namespace of the request")
  else Ok (map_meta (λ mt, set_identity ns (om_Name mt) mt) obj).

(** [rebindIdentity]. *)
Definition rebindIdentity (obj : Object) (ref : Object) : Object :=
  let r := obj_meta ref in
  map_meta (λ mt, set_resourceVersion (om_ResourceVersion r)
    (set_uid (om_UID r) (set_identity (om_Namespace r) (om_Name r) mt))) obj.

(** [hasDependents]. *)
Definition hasDependents gvk : bool :=
  bool_decide (gvk_Group gvk = "horchestra.io") && bool_decide (gvk_Kind gvk = "ApplicationSet").

Context {S E : Type} (st : Storage S E) (chain : Lister → list Plugin).
Implicit Types (s : S) (e : E).

Context {Body Patch : Type} (lib : Libs Body Patch) (sch : Scheme).

(** [gvkOf]: a version that does not parse is empty. *)
Definition gvkOf m : GVK :=
  match ParseGroupVersion lib (tm_ApiVersion m) with
  | Ok (g, v) => (g, v, tm_Kind m)
  | Err _ => ("", "", tm_Kind m)
  end.

(** [Scheme.GroupResource]. *)
Definition GroupResource gvk : string * string :=
  match sch_res sch !! gvk with
  | Some r => (gvk_Group gvk, res_Plural r)
  | None => UnsafeGuessKindToResource lib gvk
  end.

(** [apiError]. *)
Definition apiError (err : StoreError) gvk (name : string) : ApiError :=
  match err with
  | ErrNotFound => NotFound (GroupResource gvk) name
  | ErrAlreadyExists => AlreadyExists (GroupResource gvk) name
  | ErrConflict => Conflict (GroupResource gvk) name
  | _ => StoreInternal err
  end.

(** [admissionError]. *)
Definition admissionError gvk (name : string) (err : AdmissionError) : ApiError :=
  if is_Forbidden err then Forbidden (GroupResource gvk) name err else invalid gvk name (Refused err).

Definition lift {A} gvk (name : string) (r : result StoreError A) : result ApiError A :=
  match r with Ok a => Ok a | Err err => Err (apiError err gvk name) end.

(** The lister the chain is wired to: the store's List by kind.  (Every kind a plugin lists
    is a constant, none of them empty.) *)
Definition lister s : Lister :=
  Some (λ kind,
    if bool_decide (kind = "") then Ok []
    else match st_List st (resourceMeta kind) "" s with
         | Ok os => Ok os
         | Err err => Err (store_text err)
         end).

(** [decode]. *)
Definition decode gvk (data : Body) : result ApiError Object :=
  if negb (bool_decide (gvk ∈ sch_m sch)) then Err (InternalError "no type registered")
  else match scheme_Default lib gvk data with
       | Err err => Err (InternalError err)
       | Ok data =>
           let '(obj, decodeErr) := json_Unmarshal lib gvk data in
           match scheme_Validate lib gvk data with
           | [] => match decodeErr with
                   | Some err => Err (invalid gvk (obj_Name obj) (Undecodable err))
                   | None => Ok obj
                   end
           | errs => Err (invalid gvk (obj_Name obj) (Schema errs))
           end
       end.

(** [validIdentity]. *)
Definition validIdentity (obj : Object) : option InvalidCause :=
  match IsDNS1123Subdomain lib (obj_Name obj) with
  | (_ :: _) as msgs => Some (BadName msgs)
  | [] => if bool_decide (obj_Namespace obj = "") then None
          else match IsDNS1123Label lib (obj_Namespace obj) with
               | (_ :: _) as msgs => Some (BadNamespace msgs)
               | [] => None
               end
  end.

(** [admit]: the reviewed object. *)
Definition service_admit ctx gvk (obj : Object) (old : option Object) (op : Operation) (subresource : string) s
    : result ApiError Object :=
  match chain_Run (chain (lister s)) ctx (mkAttributes op obj old subresource) with
  | Err err => Err (admissionError gvk (obj_Name obj) err)
  | Ok a => Ok (at_Object a)
  end.

(** ** Reads *)
Definition service_Get m s : result ApiError Object := lift (gvkOf m) (tm_Name m) (st_Get st m s).
Definition service_List m (sel : string) s : result ApiError (list Object) := lift (gvkOf m) "" (st_List st m sel s).
Definition service_Watch m (sel : string) s : S * result ApiError (string * nat) :=
  let '(s', r) := st_Watch st m sel s in (s', lift (gvkOf m) "" r).

(** ** Writes *)
Definition service_Create ctx e gvk (data : Body) (ns : string) s : S * result ApiError Object :=
  match (let* obj := decode gvk data in
         let* obj := bindNamespace obj ns in
         if bool_decide (obj_Name obj = "") then Err (invalid gvk "" NameRequired)
         else match validIdentity obj with
              | Some why => Err (invalid gvk (obj_Name obj) why)
              | None => service_admit ctx gvk obj None Create "" s
              end) with
  | Err err => (s, Err err)
  | Ok obj => let '(s', r) := st_Create st e obj s in (s', lift gvk (obj_Name obj) r)
  end.

(** [checkUpdate]. *)
Definition checkUpdate ctx gvk (data : Body) (subresource ns name : string) s : result ApiError Object :=
  let* obj := decode gvk data in
  let* obj := bindNamespace obj ns in
  if negb (bool_decide (name = "")) && negb (bool_decide (obj_Name obj = "")) &&
     negb (bool_decide (obj_Name obj = name))
  then Err (BadRequest "the name of the object does not match the name on the URL")
  else
    let* old := lift gvk (obj_Name obj) (st_Get st (metaOf gvk obj) s) in
    service_admit ctx gvk obj (Some old) Update subresource s.

Definition service_Update ctx e gvk (data : Body) (ns name : string) s : S * result ApiError Object :=
  match checkUpdate ctx gvk data "" ns name s with
  | Err err => (s, Err err)
  | Ok obj => let '(s', r) := st_Update st e obj s in (s', lift gvk (obj_Name obj) r)
  end.

Definition service_UpdateSubresource ctx e gvk (subresource : string) (data : Body) (ns : string) s
    : S * result ApiError Object :=
  match checkUpdate ctx gvk data subresource ns "" s with
  | Err err => (s, Err err)
  | Ok obj => let '(s', r) := st_UpdateSubresource st e subresource obj s in (s', lift gvk (obj_Name obj) r)
  end.

(** The patched document. *)
Definition apply_patch m (pt : string) (data cur : Body) : result ApiError Body :=
  if bool_decide (pt = MergePatchType) then
    match MergePatch lib cur data with Ok b => Ok b | Err err => Err (BadRequest err) end
  else if bool_decide (pt = JSONPatchType) then
    match DecodePatch lib data with
    | Err err => Err (BadRequest err)
    | Ok p =>
        if (maxJSONPatchOperations <? patch_len lib p)%nat then Err (EntityTooLarge 10000)
        else match ApplyPatch lib p cur with Ok b => Ok b | Err err => Err (BadRequest err) end
    end
  else Err (UnsupportedPatch pt (tm_Name m)).

Definition service_Patch ctx e m (pt : string) (data : Body) s : S * result ApiError Object :=
  let gvk := gvkOf m in
  match (let* cur := lift gvk (tm_Name m) (st_Get st m s) in
         match json_Marshal lib cur with
         | Err err => Err (InternalError err)
         | Ok curJSON =>
             let* patched := apply_patch m pt data curJSON in
             let* obj := decode gvk patched in
             service_admit ctx gvk (rebindIdentity obj cur) (Some cur) Update "" s
         end) with
  | Err err => (s, Err err)
  | Ok obj => let '(s', r) := st_Update st e obj s in (s', lift gvk (tm_Name m) r)
  end.

(** [markDeleting]: whether the object is held. *)
Definition markDeleting e (now : Z) (cur : Object) (orphan : bool) s : S * result StoreError bool :=
  match om_Finalizers (obj_meta cur) with
  | [] => (s, Ok false)
  | fins =>
      let stamped := orphan && negb (bool_decide (FinalizerOrphanDependents ∈ fins)) in
      let cur := if stamped then map_meta (set_finalizers (fins ++ [FinalizerOrphanDependents])) cur else cur in
      let update c := match st_Update st e c s with
                      | (s', Ok _) => (s', Ok true)
                      | (s', Err err) => (s', Err err)
                      end in
      match om_DeletionTimestamp (obj_meta cur) with
      | Some _ => if stamped then update cur else (s, Ok true)
      | None => update (map_meta (set_deletionTimestamp (Some now)) cur)
      end
  end.

Definition service_Delete ctx e (now : Z) m (policy : option string) s : S * result ApiError unit :=
  let gvk := gvkOf m in
  match st_Get st m s with
  | Err err => (s, Err (apiError err gvk (tm_Name m)))
  | Ok cur =>
      let orphan := bool_decide (policy = Some DeletePropagationOrphan) in
      if orphan && negb (hasDependents gvk) then (s, Err (BadRequest "no dependents to orphan"))
      else match chain_Validate (chain (lister s)) ctx (mkAttributes Delete cur (Some cur) "") with
           | Some err => (s, Err (admissionError gvk (tm_Name m) err))
           | None =>
               match markDeleting e now cur orphan s with
               | (s', Err err) => (s', Err (apiError err gvk (tm_Name m)))
               | (s', Ok true) => (s', Ok tt)
               | (s', Ok false) => let '(s'', r) := st_Delete st e m s' in (s'', lift gvk (tm_Name m) r)
               end
           end
  end.

Definition service_Rollback ctx e m (uid : string) (targetRV : Z) s : S * result ApiError Object :=
  let gvk := gvkOf m in
  match (let* target := st_GetRevision st m uid targetRV s in
         let* cur := st_Get st m s in
         Ok (target, cur)) with
  | Err err => (s, Err (apiError err gvk (tm_Name m)))
  | Ok (target, cur) =>
      match chain_Validate (chain (lister s)) ctx (mkAttributes Update target (Some cur) "") with
      | Some err => (s, Err (admissionError gvk (tm_Name m) err))
      | None => let '(s', r) := st_Rollback st e m uid targetRV s in (s', lift gvk (tm_Name m) r)
      end
  end.

(** ** Requests *)
Inductive ApiRequest :=
| AGet m
| AList m (sel : string)
| AWatch m (sel : string)
| ACreate gvk (data : Body) (ns : string)
| AUpdate gvk (data : Body) (ns name : string)
| AUpdateSubresource gvk (subresource : string) (data : Body) (ns : string)
| APatch m (pt : string) (data : Body)
| ADelete (now : Z) m (policy : option string)
| ARollback m (uid : string) (targetRV : Z).

Definition answered {A} (p : S * result ApiError A) : S * option ApiError :=
  (p.1, match p.2 with Ok _ => None | Err err => Some err end).

Definition serve ctx e (r : ApiRequest) s : S * option ApiError :=
  match r with
  | AGet m => answered (s, service_Get m s)
  | AList m sel => answered (s, service_List m sel s)
  | AWatch m sel => answered (service_Watch m sel s)
  | ACreate gvk data ns => answered (service_Create ctx e gvk data ns s)
  | AUpdate gvk data ns name => answered (service_Update ctx e gvk data ns name s)
  | AUpdateSubresource gvk sub data ns => answered (service_UpdateSubresource ctx e gvk sub data ns s)
  | APatch m pt data => answered (service_Patch ctx e m pt data s)
  | ADelete now m policy => answered (service_Delete ctx e now m policy s)
  | ARollback m uid rv => answered (service_Rollback ctx e m uid rv s)
  end.
End Service.
