(* ===== verification/ApiContract.v ===== *)
(** * What the API service keeps, over any store that honours the storage contract

    [StorageContract] is the promise of api/storage/storage.go read on the set of objects a
    store holds.  Against it: every served request is a step of the reviewed store, so
    references keep resolving and tenants keep apart; a request changes nothing outside the
    object it addresses; a refused request changes nothing; and a deletion of a held object
    only marks it. *)
From stdpp Require Import gmap strings list.
From Stdlib Require Import ZArith Ascii FunctionalExtensionality.
From S2P Require Import Prelude Resources CoreV1 ApiObjects Uids Paths Admission AdmissionFacts Allocation References.
From S2P Require Import Store Integrity Tenancy Bolt ApiService.
#[local] Open Scope Z_scope.

Section Contract.
Context {HQ : Quantity}.

(** [out] is [o] as a store keeps it: version, generation, uid, creation time and status
    aside. *)
Definition stamped (o out : Object) : Prop :=
  key out = key o ∧ spec_kept o out ∧
  om_Finalizers (obj_meta out) = om_Finalizers (obj_meta o) ∧
  om_DeletionTimestamp (obj_meta out) = om_DeletionTimestamp (obj_meta o).

Lemma spec_kept_meta f o :
  om_Annotations (f (obj_meta o)) = om_Annotations (obj_meta o) →
  om_Labels (f (obj_meta o)) = om_Labels (obj_meta o) → spec_kept o (map_meta f o).
Proof. intros H Hl. destruct o; simpl in *; try done; by exists f. Qed.

Lemma stamped_refl o : stamped o o.
Proof.
  split_and!; try done. assert (map_meta id o = o) as Hid by (by destruct o as [[]|[]|[]|[]|[]|[]|[]|[]|[]|[]|[]|[]]).
  rewrite <-Hid at 2. by apply spec_kept_meta.
Qed.

Lemma spec_kept_trans a b c : spec_kept a b → spec_kept b c → spec_kept a c.
Proof.
  destruct a, b; simpl; try done; intros H1; try (by destruct H1 as [f H1]); destruct c; simpl;
    intros H2; try done; try congruence; try (by destruct H2 as [g H2]);
    destruct H1 as [f H1], H2 as [g H2]; simplify_eq; first [by exists (λ m, g (f m))|split; congruence].
Qed.

Lemma stamped_trans a b c : stamped a b → stamped b c → stamped a c.
Proof.
  intros (?&?&?&?) (?&?&?&?). split_and!; try congruence. by eapply spec_kept_trans.
Qed.

(** Two objects of a kind report the same. *)
Definition same_status (a b : Object) : Prop :=
  match a, b with
  | ObjApplication x, ObjApplication y => app_Status x = app_Status y
  | ObjNode x, ObjNode y => node_Status x = node_Status y
  | ObjApplicationSet x, ObjApplicationSet y => aset_Status x = aset_Status y
  | ObjCSR x, ObjCSR y => csr_Status x = csr_Status y
  | _, _ => True
  end.

Lemma same_status_meta f o : same_status o (map_meta f o).
Proof. by destruct o. Qed.

(** Records are keyed by "<namespace>/<name>": two identities never meet in one key as long as
    no namespace carries a slash. *)
Definition clean (ns : string) : Prop := GoStrings.no_char "/"%char ns = true.

(** What a store promises: [view] is the set of objects it holds, [ok] its own invariant
    and [ready] that one call can be served (a fresh uid, a counter short of its end). *)
Class StorageContract {S E : Type} (st : Storage S E) (view : S → list Object) (ok : S → Prop)
    (ready : E → S → Prop) : Prop := {
  ctr_list s kind : ok s → kind ≠ "" →
    st_List st (resourceMeta kind) "" s = Ok (List.filter (λ o, bool_decide (obj_Kind o = kind)) (view s));
  ctr_get s m o : ok s → clean (tm_Namespace m) → st_Get st m s = Ok o → o ∈ view s ∧ key o = address m;
  ctr_create e o s s' r : ok s → ready e s → clean (obj_Namespace o) → st_Create st e o s = (s', r) → ok s' ∧
    match r with
    | Ok out => key o ∉ key <$> view s ∧ stamped o out ∧ same_status o out ∧ same_members (view s') (put out (view s))
    | Err _ => same_members (view s') (view s)
    end;
  ctr_update e o s s' r : ok s → ready e s → clean (obj_Namespace o) → st_Update st e o s = (s', r) → ok s' ∧
    match r with
    | Ok out => (∃ old, old ∈ view s ∧ key old = key o ∧ om_UID (obj_meta out) = om_UID (obj_meta old)) ∧
        stamped o out ∧ same_members (view s') (put out (view s))
    | Err _ => same_members (view s') (view s)
    end;
  ctr_status e o s s' r : ok s → ready e s → clean (obj_Namespace o) → st_UpdateSubresource st e "status" o s = (s', r) → ok s' ∧
    match r with
    | Ok out => ∃ old, old ∈ view s ∧ key old = key o ∧ stamped old out ∧ same_status o out ∧
        same_members (view s') (put out (view s))
    | Err _ => same_members (view s') (view s)
    end;
  ctr_delete e m s s' r : ok s → ready e s → clean (tm_Namespace m) → st_Delete st e m s = (s', r) → ok s' ∧
    match r with
    | Ok _ => same_members (view s') (erase (address m) (view s))
    | Err _ => same_members (view s') (view s)
    end;
  (** A rollback puts the revision back where the revision was, whatever [m] addresses. *)
  ctr_rollback e m uid rv t s s' r : ok s → ready e s → st_GetRevision st m uid rv s = Ok t →
    st_Rollback st e m uid rv s = (s', r) → ok s' ∧
    match r with
    | Ok out => (∃ old, old ∈ view s ∧ key old = key t) ∧ stamped t out ∧
        same_members (view s') (put out (view s))
    | Err _ => same_members (view s') (view s)
    end;
  ctr_watch m sel s s' r : ok s → st_Watch st m sel s = (s', r) → ok s' ∧ view s' = view s;
}.
End Contract.

Section Served.
Context {HQ : Quantity} {S E : Type} (st : Storage S E) (view : S → list Object) (ok : S → Prop)
  (ready : E → S → Prop) `{!StorageContract st view ok ready}.
Context (chain : Lister → list Plugin) `{!ReviewChain chain}.
Context {Body Patch : Type} (lib : Libs Body Patch) (sch : Scheme).
(** json.Unmarshal fills the value it is given, so its type is the registered one. *)
Hypothesis json_kind : ∀ gvk b, gvk ∈ sch_m sch → obj_Kind (json_Unmarshal lib gvk b).1 = gvk_Kind gvk.

Abbreviation decode := (decode lib sch).
Abbreviation service_admit := (service_admit st chain lib sch).
Abbreviation checkUpdate := (checkUpdate st chain lib sch).
Abbreviation service_Create := (service_Create st chain lib sch).
Abbreviation service_Update := (service_Update st chain lib sch).
Abbreviation service_UpdateSubresource := (service_UpdateSubresource st chain lib sch).
Abbreviation service_Patch := (service_Patch st chain lib sch).
Abbreviation service_Delete := (service_Delete st chain lib sch).
Abbreviation service_Rollback := (service_Rollback st chain lib sch).
Abbreviation serve := (serve st chain lib sch).
Abbreviation ApiRequest := (ApiRequest (Body := Body)).
Implicit Types (o : Object) (m : TypesMeta) (gvk : GVK) (ctx : Ctx) (s : S) (e : E) (r : ApiRequest).

Lemma lister_view s : ok s → lister st s = Some (listing (view s)).
Proof.
  intros Hok. unfold lister, listing. f_equal. apply functional_extensionality. intros kind.
  case_bool_decide as Hk; [|by rewrite (ctr_list s kind Hok Hk)]. f_equal. symmetry.
  assert (∀ o, bool_decide (obj_Kind o = kind) = false) as Hno
    by (intros []; apply bool_decide_eq_false_2; by subst).
  induction (view s) as [|o l IH]; [done|]. simpl. by rewrite Hno.
Qed.

(** ** What a request submits, and where it may write *)

(** The write a request asks to be reviewed. *)
Definition submits r s : option Request :=
  match r with
  | ACreate gvk data ns =>
      match (let* obj := decode gvk data in bindNamespace obj ns) with Ok obj => Some (RCreate obj) | Err _ => None end
  | AUpdate gvk data ns _ =>
      match (let* obj := decode gvk data in bindNamespace obj ns) with Ok obj => Some (RUpdate obj) | Err _ => None end
  | APatch m pt data =>
      match st_Get st m s with
      | Err _ => None
      | Ok cur =>
          match json_Marshal lib cur with
          | Err _ => None
          | Ok doc =>
              match (let* patched := apply_patch lib m pt data doc in decode (gvkOf lib m) patched) with
              | Ok obj => Some (RUpdate (rebindIdentity obj cur))
              | Err _ => None
              end
          end
      end
  | ARollback m uid rv => match st_GetRevision st m uid rv s with Ok t => Some (RRollback t) | Err _ => None end
  | _ => None
  end.

(** What the routes of the server guarantee: a namespace is one path segment, that of a
    cluster-scoped kind's route is empty, and the only subresource with a route is the
    status. *)
Definition route r : Prop :=
  match r with
  | ACreate gvk _ ns => clean ns ∧ (gvk_Kind gvk ∉ namespacedKinds → ns = "")
  | AUpdate _ _ ns _ => clean ns
  | AUpdateSubresource _ sub _ ns => clean ns ∧ sub = "status"
  | APatch m _ _ | ADelete _ m _ | ARollback m _ _ => clean (tm_Namespace m)
  | _ => True
  end.

(** The identity a request served in [s] may write: the kind and namespace of its URL and the
    name of the document it carries, which an update of a named URL does not choose; the object
    a patch or a deletion addresses; and for a rollback the object its revision is one of, which
    need not be the addressed one. *)
Definition within r s (k : string * string * string) : Prop :=
  match r with
  | ACreate gvk data ns | AUpdateSubresource gvk _ data ns =>
      ∃ o, decode gvk data = Ok o ∧ k = (gvk_Kind gvk, ns, obj_Name o)
  | AUpdate gvk data ns name =>
      ∃ o, decode gvk data = Ok o ∧ k = (gvk_Kind gvk, ns, obj_Name o) ∧
        (name = "" ∨ obj_Name o = "" ∨ obj_Name o = name)
  | APatch m _ _ | ADelete _ m _ => k = address m
  | ARollback m uid rv => ∃ t, st_GetRevision st m uid rv s = Ok t ∧ k = key t
  | _ => False
  end.

(** Served, a request leaves the store's objects alone, writes one reviewed object (as the
    store stamps it), or erases one. *)
Inductive effect (W : string * string * string → Prop) (q : option Request) (l l' : list Object) : Prop :=
| effect_none : same_members l' l → effect W q l l'
| effect_put q' w out :
    (q = Some q' ∨ ∃ o, q' = RStatus o) → step chain q' l (put w l) → stamped w out →
    W (key out) → same_members l' (put out l) → effect W q l l'
| effect_erase o :
    step chain (RDelete o) l (erase (key o) l) → W (key o) →
    same_members l' (erase (key o) l) → effect W q l l'.

Lemma decode_kind gvk data o : decode gvk data = Ok o → obj_Kind o = gvk_Kind gvk.
Proof.
  unfold ApiService.decode. case_bool_decide as Hr; [|done]. cbn [negb].
  destruct (scheme_Default lib gvk data) as [d|]; [|done]. pose proof (json_kind gvk d Hr) as Hk. destruct (json_Unmarshal lib gvk d) as [obj derr].
  destruct (scheme_Validate lib gvk d); [|done]. destruct derr; [done|]. intros. by simplify_eq.
Qed.

Lemma bind_Ok o ns o' : bindNamespace o ns = Ok o' → key o' = (obj_Kind o, ns, obj_Name o).
Proof.
  unfold bindNamespace. destruct (_ && _); [by destruct (bool_decide _)|]. intros [= <-].
  unfold key, obj_Namespace, obj_Name. by rewrite map_meta_kind, map_meta_meta.
Qed.

Lemma bound_key gvk data ns o o' :
  decode gvk data = Ok o → bindNamespace o ns = Ok o' → (key o').1 = (gvk_Kind gvk, ns).
Proof. intros Hd%decode_kind ->%bind_Ok. by rewrite Hd. Qed.

Lemma bound_identity gvk data ns o o' :
  decode gvk data = Ok o → bindNamespace o ns = Ok o' → key o' = (gvk_Kind gvk, ns, obj_Name o).
Proof. intros Hd%decode_kind ->%bind_Ok. by rewrite Hd. Qed.

Lemma clean_key o o' : key o = key o' → clean (obj_Namespace o') → clean (obj_Namespace o).
Proof. by intros [-> _]%key_names. Qed.
Lemma clean_bound o gvk ns : (key o).1 = (gvk_Kind gvk, ns) → clean ns → clean (obj_Namespace o).
Proof. intros [= _ H]. by rewrite H. Qed.
Lemma clean_address o m : key o = address m → clean (tm_Namespace m) → clean (obj_Namespace o).
Proof. intros [= _ -> _]. done. Qed.

Lemma rebind_key o cur : obj_Kind o = obj_Kind cur → key (rebindIdentity o cur) = key cur.
Proof.
  intros H. unfold rebindIdentity, key, obj_Namespace, obj_Name. rewrite map_meta_kind, map_meta_meta, H. done.
Qed.

Lemma gvkOf_Kind m : gvk_Kind (gvkOf lib m) = tm_Kind m.
Proof. unfold gvkOf. by destruct (ParseGroupVersion lib _) as [[]|]. Qed.

Lemma admit_Ok ctx gvk o old op sub s o' :
  ok s → service_admit ctx gvk o old op sub s = Ok o' →
  ∃ a, review chain (view s) ctx (mkAttributes op o old sub) = Ok a ∧ at_Object a = o' ∧ key o' = key o.
Proof.
  intros Hok. unfold ApiService.service_admit, review. rewrite (lister_view s Hok).
  destruct (chain_Run _ _ _) as [a|] eqn:Er; [|done]. intros [= <-]. exists a. split_and!; [done..|].
  apply chain_Run_Ok in Er as [Ha _]. by apply rc_shell in Ha as (_ & _ & Hk).
Qed.

(** ** Each operation *)
Definition served {A} r s (p : S * result ApiError A) : Prop :=
  ok p.1 ∧
  match p.2 with
  | Ok _ => effect (within r s) (submits r s) (view s) (view p.1)
  | Err _ => same_members (view p.1) (view s)
  end.

Lemma unserved {A} r s (err : ApiError) : ok s → served r s (s, Err (A := A) err).
Proof. by split. Qed.

Lemma create_served ctx e gvk data ns s :
  ok s → ready e s → route (ACreate gvk data ns) →
  served (ACreate gvk data ns) s (service_Create ctx e gvk data ns s).
Proof.
  intros Hok Hre [Hcl Hrt]. unfold ApiService.service_Create.
  destruct (decode gvk data) as [o0|] eqn:Ed; [|by apply unserved].
  destruct (bindNamespace o0 ns) as [o|] eqn:Eb; [|by apply unserved].
  case_bool_decide as En; [by apply unserved|]. destruct (validIdentity _ o); [by apply unserved|].
  destruct (service_admit ctx gvk o None Create "" s) as [w|] eqn:Ea; [|by apply unserved].
  destruct (st_Create st e w s) as [s' res] eqn:Ec.
  destruct (admit_Ok _ _ _ _ _ _ _ _ Hok Ea) as (a & Hrev & <- & Hkey).
  pose proof (bound_key _ _ _ _ _ Ed Eb) as Hb.
  assert (clean (obj_Namespace (at_Object a))) as Hc by (eapply clean_key; [exact Hkey|]; by eapply clean_bound).
  destruct (ctr_create e _ s s' res Hok Hre Hc Ec) as [Hok' Hres]. split; [done|].
  destruct res as [out|]; [|done]. destruct Hres as (Hfresh & Hst & _ & Hv).
  apply (effect_put _ _ _ _ (RCreate o) (at_Object a) out); [left; simpl; by rewrite Ed, Eb| |done| |done].
  - apply (step_create _ _ ctx _ a); [done| |done|done]. inversion Hb as [[Hk Hns]].
    rewrite Hk, Hns. done.
  - cbn [within]. destruct Hst as (-> & _). rewrite Hkey. eauto using bound_identity.
Qed.

Lemma checked_update ctx gvk data sub ns name s w :
  ok s → clean ns → checkUpdate ctx gvk data sub ns name s = Ok w →
  ∃ o0 o old a, decode gvk data = Ok o0 ∧ bindNamespace o0 ns = Ok o ∧ old ∈ view s ∧ key old = key o ∧
    review chain (view s) ctx (mkAttributes Update o (Some old) sub) = Ok a ∧ at_Object a = w ∧ key w = key o ∧
    (key o).1 = (gvk_Kind gvk, ns) ∧ (name = "" ∨ (key o).2 = "" ∨ (key o).2 = name).
Proof.
  intros Hok Hcl. unfold ApiService.checkUpdate. destruct (decode gvk data) as [o0|] eqn:Ed; [|done].
  destruct (bindNamespace o0 ns) as [o|] eqn:Eb; [|done].
  destruct (negb _ && _ && _) eqn:En; [done|]. unfold lift.
  destruct (st_Get st (metaOf gvk o) s) as [old|] eqn:Eg; [|done]. intros Ea.
  destruct (admit_Ok _ _ _ _ _ _ _ _ Hok Ea) as (a & Hrev & Hw & Hkey).
  pose proof (bound_key _ _ _ _ _ Ed Eb) as Hb.
  apply (ctr_get (st := st)) in Eg as [Hin Hk]; [|done|by eapply clean_bound].
  exists o0, o, old, a. split_and!; try done.
  - rewrite Hk. unfold address, metaOf. simpl. unfold key in *. simpl in Hb. by inversion Hb.
  - unfold key. simpl. bools. destruct En as [[?|?]|?]; auto.
Qed.

Lemma update_served ctx e gvk data ns name s :
  ok s → ready e s → route (AUpdate gvk data ns name) → served (AUpdate gvk data ns name) s (service_Update ctx e gvk data ns name s).
Proof.
  intros Hok Hre Hcl. unfold ApiService.service_Update.
  destruct (checkUpdate ctx gvk data "" ns name s) as [w|] eqn:Ec; [|by apply unserved].
  destruct (checked_update _ _ _ _ _ _ _ _ Hok Hcl Ec) as (o0 & o & old & a & Ed & Eb & Hin & Hk & Hrev & <- & Hkey & H1 & H2).
  assert (clean (obj_Namespace (at_Object a))) as Hc by (eapply clean_key; [exact Hkey|]; by eapply clean_bound).
  destruct (st_Update st e (at_Object a) s) as [s' res] eqn:Eu.
  destruct (ctr_update e _ s s' res Hok Hre Hc Eu) as [Hok' Hres]. split; [done|].
  destruct res as [out|]; [|done]. destruct Hres as (_ & Hst & Hv).
  apply (effect_put _ _ _ _ (RUpdate o) (at_Object a) out); [left; simpl; by rewrite Ed, Eb| |done| |done].
  - by apply (step_update _ _ ctx _ old a).
  - cbn [within]. destruct Hst as (-> & _). rewrite Hkey. pose proof (bound_identity _ _ _ _ _ Ed Eb) as Hid.
    rewrite Hid in *. eauto.
Qed.

Lemma status_served ctx e gvk sub data ns s :
  ok s → ready e s → route (AUpdateSubresource gvk sub data ns) →
  served (AUpdateSubresource gvk sub data ns) s (service_UpdateSubresource ctx e gvk sub data ns s).
Proof.
  intros Hok Hre [Hcl ->]. unfold ApiService.service_UpdateSubresource.
  destruct (checkUpdate ctx gvk data "status" ns "" s) as [w|] eqn:Ec; [|by apply unserved].
  destruct (checked_update _ _ _ _ _ _ _ _ Hok Hcl Ec) as (o0 & o & _ & a & Ed & Eb & _ & _ & _ & <- & Hkey & H1 & _).
  destruct (st_UpdateSubresource st e "status" (at_Object a) s) as [s' res] eqn:Eu.
  assert (clean (obj_Namespace (at_Object a))) as Hc by (eapply clean_key; [exact Hkey|]; by eapply clean_bound).
  destruct (ctr_status e _ s s' res Hok Hre Hc Eu) as [Hok' Hres]. split; [done|].
  destruct res as [out|]; [|done]. destruct Hres as (old & Hin & Hko & (Hk & Hsp & Hf & Hd) & _ & Hv).
  apply (effect_put _ _ _ _ (RStatus out) out out); [right; by eexists| | | |done].
  - by apply (step_status _ _ old).
  - apply stamped_refl.
  - cbn [within]. rewrite Hk, Hko, Hkey. eauto using bound_identity.
Qed.

Lemma patch_served ctx e m pt data s :
  ok s → ready e s → clean (tm_Namespace m) → served (APatch m pt data) s (service_Patch ctx e m pt data s).
Proof.
  intros Hok Hre Hcl. unfold ApiService.service_Patch, lift.
  destruct (st_Get st m s) as [cur|] eqn:Eg; [|by apply unserved].
  destruct (json_Marshal lib cur) as [doc|] eqn:Em; [|by apply unserved].
  destruct (apply_patch lib m pt data doc) as [patched|] eqn:Ep; [|by apply unserved].
  destruct (decode _ patched) as [o0|] eqn:Ed; [|by apply unserved].
  destruct (service_admit _ _ _ _ _ _ _) as [w|] eqn:Ea; [|by apply unserved].
  destruct (admit_Ok _ _ _ _ _ _ _ _ Hok Ea) as (a & Hrev & <- & Hkey).
  destruct (ctr_get s m cur Hok Hcl Eg) as [Hin Hk].
  rewrite rebind_key in Hkey by (apply decode_kind in Ed as ->; rewrite gvkOf_Kind; by inversion Hk).
  assert (clean (obj_Namespace (at_Object a))) as Hc by (eapply clean_key; [exact Hkey|]; by eapply clean_address).
  destruct (st_Update st e (at_Object a) s) as [s' res] eqn:Eu.
  destruct (ctr_update e _ s s' res Hok Hre Hc Eu) as [Hok' Hres]. split; [done|].
  destruct res as [out|]; [|done]. destruct Hres as (_ & Hst & Hv).
  apply (effect_put _ _ _ _ (RUpdate (rebindIdentity o0 cur)) (at_Object a) out);
    [left; cbn [submits]; by rewrite Eg, Em, Ep, Ed| |done| |done].
  - apply (step_update _ _ ctx _ cur a); [done| |done]. symmetry. apply rebind_key.
    apply decode_kind in Ed as ->. rewrite gvkOf_Kind. by inversion Hk.
  - cbn [within]. destruct Hst as (-> & _). by rewrite Hkey.
Qed.

(** [out] is [cur] marked for deletion: its spec and its holds stay, and a clock that is
    running is not restarted. *)
Definition marked (cur out : Object) : Prop :=
  key out = key cur ∧ spec_kept cur out ∧ is_Some (om_DeletionTimestamp (obj_meta out)) ∧
  (∀ t, om_DeletionTimestamp (obj_meta cur) = Some t → om_DeletionTimestamp (obj_meta out) = Some t) ∧
  ∀ f, f ∈ om_Finalizers (obj_meta cur) → f ∈ om_Finalizers (obj_meta out).

(** A write of [cur] under other finalizers and clock, as the store keeps it. *)
Lemma marked_update cur fins t out :
  (∀ f, f ∈ om_Finalizers (obj_meta cur) → f ∈ fins) →
  (∀ t', om_DeletionTimestamp (obj_meta cur) = Some t' → t = t') →
  stamped (map_meta (λ mt, set_deletionTimestamp (Some t) (set_finalizers fins mt)) cur) out → marked cur out.
Proof.
  intros Hf Ht (Hk & Hsp & Hfo & Hd). rewrite map_meta_meta in Hfo, Hd. cbn in Hfo, Hd. split_and!.
  - rewrite Hk. unfold key, obj_Namespace, obj_Name. by rewrite map_meta_kind, map_meta_meta.
  - eapply spec_kept_trans; [|exact Hsp]. by apply spec_kept_meta.
  - by rewrite Hd.
  - intros t' ?%Ht. by subst.
  - by rewrite Hfo.
Qed.

Lemma map_meta_eq f g o : f (obj_meta o) = g (obj_meta o) → map_meta f o = map_meta g o.
Proof. destruct o; simpl; by intros ->. Qed.
Lemma map_meta_map f g o : map_meta f (map_meta g o) = map_meta (λ mt, f (g mt)) o.
Proof. by destruct o. Qed.
Lemma map_meta_self f o : f (obj_meta o) = obj_meta o → map_meta f o = o.
Proof. destruct o as [[]|[]|[]|[]|[]|[]|[]|[]|[]|[]|[]|[]]; simpl; by intros ->. Qed.

(** What the marking of [cur] leaves. *)
Definition mark_outcome cur s s' (res : result StoreError bool) : Prop :=
  ok s' ∧
  match res with
  | Err _ => same_members (view s') (view s)
  | Ok false => s' = s ∧ om_Finalizers (obj_meta cur) = []
  | Ok true => om_Finalizers (obj_meta cur) ≠ [] ∧
      ∃ out, marked cur out ∧ (s' = s ∧ out = cur ∨ same_members (view s') (put out (view s)))
  end.

Lemma update_marked e cur fins t s s' res :
  ok s → ready e s → clean (obj_Namespace cur) → om_Finalizers (obj_meta cur) ≠ [] →
  (∀ f, f ∈ om_Finalizers (obj_meta cur) → f ∈ fins) →
  (∀ t', om_DeletionTimestamp (obj_meta cur) = Some t' → t = t') →
  match st_Update st e (map_meta (λ mt, set_deletionTimestamp (Some t) (set_finalizers fins mt)) cur) s with
  | (s1, Ok _) => (s1, Ok true)
  | (s1, Err err) => (s1, Err err)
  end = (s', res) → mark_outcome cur s s' res.
Proof.
  intros Hok Hre Hcl Hne Hsub Ht. destruct (st_Update st e _ s) as [s1 r1] eqn:Eu.
  apply (ctr_update (st := st)) in Eu as [Hok1 H1];
    [|done|done|unfold obj_Namespace; by rewrite map_meta_meta].
  destruct r1 as [out|]; intros [= <- <-]; (split; [done|]); [|done].
  destruct H1 as (_ & Hst & Hv). split; [done|]. exists out. split; [by eapply marked_update|by right].
Qed.

Lemma mark_served e now cur orphan s s' res :
  ok s → ready e s → clean (obj_Namespace cur) → markDeleting st e now cur orphan s = (s', res) → mark_outcome cur s s' res.
Proof.
  intros Hok Hre Hcl. unfold markDeleting. destruct (om_Finalizers (obj_meta cur)) as [|f0 fs0] eqn:Ef.
  { intros [= <- <-]. split; [done|]. done. }
  rewrite <-Ef. assert (om_Finalizers (obj_meta cur) ≠ []) as Hne by (by rewrite Ef). clear f0 fs0 Ef.
  set (fins := om_Finalizers (obj_meta cur)) in *. set (add := orphan && _). cbv zeta.
  set (fins' := if add then fins ++ [FinalizerOrphanDependents] else fins).
  assert ((if add then map_meta (set_finalizers (fins ++ [FinalizerOrphanDependents])) cur else cur) =
    map_meta (set_finalizers fins') cur) as ->.
  { unfold fins'. destruct add; [done|]. symmetry. apply map_meta_self. by destruct (obj_meta cur). }
  rewrite map_meta_meta. cbn [set_finalizers om_DeletionTimestamp].
  assert (∀ f, f ∈ fins → f ∈ fins') as Hsub.
  { intros f Hf. unfold fins'. destruct add; [apply elem_of_app; by left|done]. }
  destruct (om_DeletionTimestamp (obj_meta cur)) as [t|] eqn:Et.
  - destruct add.
    + intros H. apply (update_marked e cur fins' t); [done..|rewrite Et; by intros t' [= <-]|].
      rewrite <-H, (map_meta_eq _ (set_finalizers fins')); [done|].
      rewrite <-Et. by destruct (obj_meta cur).
    + intros [= <- <-]. split; [done|]. split; [done|]. exists cur. split; [|by left].
      split_and!; [done|apply stamped_refl|by rewrite Et|done|done].
  - rewrite map_meta_map. apply update_marked; try done. by rewrite Et.
Qed.

Lemma delete_served ctx e now m policy s :
  ok s → ready e s → clean (tm_Namespace m) → served (ADelete now m policy) s (service_Delete ctx e now m policy s).
Proof.
  intros Hok Hre Hcl. unfold ApiService.service_Delete. destruct (st_Get st m s) as [cur|] eqn:Eg; [|by apply unserved].
  destruct (ctr_get s m cur Hok Hcl Eg) as [Hin Hk]. destruct (_ && _); [by apply unserved|].
  rewrite (lister_view s Hok). destruct (chain_Validate _ _ _) as [|] eqn:Ev; [by apply unserved|].
  destruct (markDeleting st e now cur _ s) as [s1 res] eqn:Em.
  destruct (mark_served _ _ _ _ _ _ _ Hok Hre (clean_address _ _ Hk Hcl) Em) as [Hok1 H1].
  destruct res as [[]|].
  - destruct H1 as (_ & out & (Hko & Hsp & _) & [[-> ->]|Hv]);
      [split; [done|]; by apply effect_none|].
    split; [done|]. apply (effect_put _ _ _ _ (RStatus out) out out); [right; by eexists| |apply stamped_refl| |done].
    + by apply (step_status _ _ cur).
    + cbn [within]. by rewrite Hko.
  - destruct H1 as [-> Hf]. destruct (st_Delete st e m s) as [s2 r2] eqn:Ed.
    destruct (ctr_delete e m s s2 r2 Hok Hre Hcl Ed) as [Hok2 H2]. split; [done|].
    destruct r2; [|done]. rewrite <-Hk in H2.
    apply (effect_erase _ _ _ _ cur); [|done..]. by apply (step_delete _ _ ctx).
  - by split.
Qed.

Lemma rollback_served ctx e m uid rv s :
  ok s → ready e s → served (ARollback m uid rv) s (service_Rollback ctx e m uid rv s).
Proof.
  intros Hok Hre. unfold ApiService.service_Rollback.
  destruct (st_GetRevision st m uid rv s) as [t|] eqn:Et; [|by apply unserved].
  destruct (st_Get st m s) as [cur|] eqn:Eg; [|by apply unserved].
  rewrite (lister_view s Hok). destruct (chain_Validate _ _ _) as [|] eqn:Ev; [by apply unserved|].
  destruct (st_Rollback st e m uid rv s) as [s' res] eqn:Er.
  destruct (ctr_rollback e m uid rv t s s' res Hok Hre Et Er) as [Hok' Hres]. split; [done|].
  destruct res as [out|]; [|done]. destruct Hres as ((old & Hin & Hko) & Hst & Hv).
  apply (effect_put _ _ _ _ (RRollback t) t out); [left; simpl; by rewrite Et| |done| |done].
  - by apply (step_rollback _ _ ctx cur old).
  - cbn [within]. destruct Hst as (-> & _). eauto.
Qed.

Lemma answered_served {A} r s (p : S * result ApiError A) s' x :
  served r s p → answered p = (s', x) →
  ok s' ∧ effect (within r s) (submits r s) (view s) (view s') ∧ (is_Some x → same_members (view s') (view s)).
Proof.
  intros [Hok H] [= <- <-]. split; [done|]. destruct p.2; [split; [done|by intros []]|].
  split; [by apply effect_none|done].
Qed.

Lemma serve_served ctx e r s s' x :
  ok s → ready e s → route r → serve ctx e r s = (s', x) →
  ok s' ∧ effect (within r s) (submits r s) (view s) (view s') ∧ (is_Some x → same_members (view s') (view s)).
Proof.
  intros Hok Hre Hrt. destruct r; apply answered_served.
  - split; [done|]. simpl. destruct (service_Get _ _ _ _ _); [by apply effect_none|done].
  - split; [done|]. simpl. destruct (service_List _ _ _ _ _ _); [by apply effect_none|done].
  - unfold service_Watch. destruct (st_Watch st m sel s) as [s1 r1] eqn:Ew.
    destruct (ctr_watch m sel s s1 r1 Hok Ew) as [Hok1 Hv]. split; [done|]. simpl. rewrite Hv.
    destruct (lift _ _ _ _ _); [by apply effect_none|done].
  - by apply create_served.
  - by apply update_served.
  - by apply status_served.
  - by apply patch_served.
  - by apply delete_served.
  - by apply rollback_served.
Qed.

(** ** Runs of the server *)
Lemma serve_sound ctx e r s s' x :
  ok s → ready e s → route r → sound (view s) → serve ctx e r s = (s', x) → sound (view s').
Proof.
  intros Hok Hre Hrt Hs H. destruct (serve_served _ _ _ _ _ _ Hok Hre Hrt H) as (_ & [Hv|q w out _ Hst Hsp _ Hv|o Hst _ Hv] & _);
    rewrite Hv; [done| |by eapply step_sound].
  destruct Hsp as (Hk & Hsp & _). apply (stamped_sound chain _ w); [by eapply step_sound|done..].
Qed.

Lemma serve_tenancy ctx e r s s' x :
  ok s → ready e s → route r → sound (view s) → tenancy (view s) →
  (∀ q, submits r s = Some q → honest q (view s)) → serve ctx e r s = (s', x) → tenancy (view s').
Proof.
  intros Hok Hre Hrt Hs Ht Hh H.
  destruct (serve_served _ _ _ _ _ _ Hok Hre Hrt H) as (_ & [Hv|q w out Hq Hst Hsp _ Hv|o Hst _ Hv] & _);
    rewrite Hv; [done| |by apply (step_tenancy chain (RDelete o) (view s))].
  assert (honest q (view s)) as Hhq by (destruct Hq as [Hq|[? ->]]; [by apply Hh|done]).
  destruct Hsp as (Hk & Hsp & _). apply (stamped_tenancy _ w); [|by apply (step_tenancy chain q (view s))|done..].
  by eapply step_sound.
Qed.

(** The states a server reaches from an empty store, by requests that satisfy [P], each served
    before the next is taken up. *)
Inductive ApiRun (P : ApiRequest → S → Prop) : S → Prop :=
| run_init s : ok s → view s = [] → ApiRun P s
| run_serve ctx e r s s' x :
    ApiRun P s → ready e s → route r → P r s → serve ctx e r s = (s', x) → ApiRun P s'.

Lemma run_ok P s : ApiRun P s → ok s ∧ sound (view s).
Proof.
  induction 1 as [s Hok Hv|ctx e r s s' x _ [Hok Hs] Hre Hrt _ H].
  - split; [done|]. rewrite Hv. apply (reachable_sound chain (λ _ _, True)), reach_empty.
  - split; [exact (proj1 (serve_served _ _ _ _ _ _ Hok Hre Hrt H))|by eapply serve_sound].
Qed.

Definition honest_request r s : Prop := ∀ q, submits r s = Some q → honest q (view s).

Lemma run_tenancy s : ApiRun honest_request s → tenancy (view s).
Proof.
  induction 1 as [s Hok Hv|ctx e r s s' x Hrun IH Hre Hrt Hh H].
  - rewrite Hv. apply (reachable_tenancy chain), reach_empty.
  - destruct (run_ok _ _ Hrun) as [Hok Hs]. by eapply serve_tenancy.
Qed.

(** ** Properties *)

(** C16: over any store that honours the storage contract, whatever sequence of requests the
    API has served, one at a time (creates, updates, patches, status writes, deletions and
    rollbacks, by anyone): the namespace of every stored namespaced object exists, so do the
    service an application joins and the secrets it requires, in its namespace, and two
    applications mount one volume only if it is declared shared. *)
Theorem api_integrity P s o : ApiRun P s → o ∈ view s → refs_hold (view s) o.
Proof. intros [_ (_ & _ & Hi)]%run_ok. apply Hi. Qed.

(** Over any such store, as long as no request writes the block annotation of a
    namespace, workloads of two namespaces never run under one uid. *)
Theorem api_tenants_apart s a b :
  ApiRun honest_request s → ObjApplication a ∈ view s → ObjApplication b ∈ view s →
  app_Namespace a ≠ "" → app_Namespace b ≠ "" → app_Namespace a ≠ app_Namespace b →
  ∃ ua ub, run_as_user a = Some ua ∧ run_as_user b = Some ub ∧ ua ≠ ub.
Proof.
  intros Hr. pose proof (run_ok _ _ Hr) as [_ Hs]. by apply (tenancy_apart _ Hs (run_tenancy s Hr)).
Qed.

(** C17: a request writes one object at most, and inside its address: a create, an update and a
    status write the object of the kind and the namespace of the URL that bears the name of
    the document sent, which for an update of a named URL is that name or empty; a patch and a
    deletion the object of the URL; a rollback the object the named revision is one of (which
    the code does not compare with the URL).  Every other stored object is the same
    afterwards. *)
Theorem request_confined P ctx e r s s' x o :
  ApiRun P s → ready e s → route r → serve ctx e r s = (s', x) →
  ¬ within r s (key o) → o ∈ view s' ↔ o ∈ view s.
Proof.
  intros Hrun Hre Hrt H Hw. destruct (run_ok _ _ Hrun) as [Hok _].
  destruct (serve_served _ _ _ _ _ _ Hok Hre Hrt H) as (_ & [Hv|q w out _ _ _ Hin Hv|o' _ Hin Hv] & _); rewrite (Hv o).
  - done.
  - rewrite put_elem. split; [intros [->|[? _]]; done|]. intros Ho. right. split; [done|]. congruence.
  - rewrite erase_elem. split; [by intros [? _]|]. intros Ho. split; [done|]. congruence.
Qed.

(** C18: a request that is answered with an error (refused, stale, not found, or failed in the
    store) leaves every stored object as it was. *)
Theorem refused_changes_nothing P ctx e r s s' err o :
  ApiRun P s → ready e s → route r → serve ctx e r s = (s', Some err) → o ∈ view s' ↔ o ∈ view s.
Proof.
  intros [Hok _]%run_ok Hre Hrt H. destruct (serve_served _ _ _ _ _ _ Hok Hre Hrt H) as (_ & _ & Hr).
  apply Hr. by eexists.
Qed.

(** A deletion is two-phase: an object under a finalizer is only marked (it stays, with
    its spec and every hold it had, and repeating the request does not restart its clock); an
    object nothing holds is gone. *)
Theorem delete_two_phase P ctx e now m policy s s' :
  ApiRun P s → ready e s → clean (tm_Namespace m) → serve ctx e (ADelete now m policy) s = (s', None) →
  ∃ cur, cur ∈ view s ∧ key cur = address m ∧
    (om_Finalizers (obj_meta cur) = [] → ∀ o, o ∈ view s' → key o ≠ address m) ∧
    (om_Finalizers (obj_meta cur) ≠ [] → ∃ out, out ∈ view s' ∧ marked cur out).
Proof.
  intros [Hok _]%run_ok Hre Hcl. cbn [ApiService.serve]. unfold answered.
  destruct (service_Delete _ _ _ _ _ _) as [s1 [|er]] eqn:Ec; intros H; inversion H; subst. revert Ec.
  unfold ApiService.service_Delete. destruct (st_Get st m s) as [cur|] eqn:Eg; [|done].
  destruct (ctr_get s m cur Hok Hcl Eg) as [Hin Hk]. destruct (_ && _); [done|]. destruct (chain_Validate _ _ _); [done|].
  destruct (markDeleting st e now cur _ s) as [s2 res] eqn:Em.
  destruct (mark_served _ _ _ _ _ _ _ Hok Hre (clean_address _ _ Hk Hcl) Em) as [Hok1 H1]. intros H2. exists cur. split_and!; [done..| |].
  - intros Hf. destruct res as [[]|]; [by destruct H1| |done]. destruct H1 as [-> _].
    destruct (st_Delete st e m s) as [s3 r3] eqn:Ed. inversion H2; subst.
    apply (ctr_delete (st := st)) in Ed as [_ Hv]; [|done..]. destruct r3; [|done].
    intros o Ho%Hv. by apply erase_elem in Ho as [_ ?].
  - intros Hne. destruct res as [[]|]; [|by destruct H1|done]. inversion H2; subst.
    destruct H1 as (_ & out & Hm & [[-> ->]|Hv]); exists out || exists cur; (split; [|done]); [done|].
    apply Hv, put_elem. by left.
Qed.
End Served.
