(* ===== verification/BoltService.v ===== *)
(** * The embedded store honours the service's contract

    The bolt store of [Bolt] behind the [Storage] interface: typed objects go in and out
    through their JSON ([ObjectCodec]), and the laws of [StorageContract] are discharged from
    the operation lemmas of [BoltTheorems].  What the API promises over any store therefore
    holds over this one. *)
From stdpp Require Import gmap strings list sorting.
From Stdlib Require Import ZArith Ascii.
From S2P Require Import Prelude Resources CoreV1 ApiObjects Uids Paths Admission AdmissionFacts Allocation References.
From S2P Require Import Store Integrity Tenancy Bolt BoltFacts BoltInvariant BoltTheorems ApiService ApiContract.
#[local] Open Scope Z_scope.

(** The API group of a kind. *)
Definition group_of (kind : string) : string :=
  if bool_decide (kind ∈ ["Role"; "RoleBinding"; "ClusterRole"; "ClusterRoleBinding"]) then "rbac.horchestra.io"
  else if bool_decide (kind = "CertificateSigningRequest") then "certificates.horchestra.io"
  else "horchestra.io".

Definition kinds : list string :=
  ["Namespace"; "Node"; "Application"; "ApplicationSet"; "PersistentVolume"; "Secret"; "Service"; "Role";
   "RoleBinding"; "ClusterRole"; "ClusterRoleBinding"; "CertificateSigningRequest"].

Definition bkey_of (kind : string) : string := group_of kind +:+ "/" +:+ kind.

(** A string is split at its first slash in one way. *)
Lemma slash_inj a b x y :
  clean a → clean b → a +:+ "/" +:+ x = b +:+ "/" +:+ y → a = b ∧ x = y.
Proof.
  intros Ha Hb E. pose proof (GoStrings.cut_app "/"%char a x Ha) as H1.
  pose proof (GoStrings.cut_app "/"%char b y Hb) as H2.
  change (a +:+ String "/" x = b +:+ String "/" y) in E. rewrite E, H2 in H1. by simplify_eq.
Qed.

Lemma group_clean kind : clean (group_of kind).
Proof. unfold group_of. by repeat case_bool_decide. Qed.

Lemma bkey_inj k k' : bkey_of k = bkey_of k' → k = k'.
Proof. intros H. apply slash_inj in H as [_ ?]; [done|apply group_clean..]. Qed.

Section BoltService.
Context {HQ : Quantity}.
Context (ParseGroupVersion : string → result error (string * string)).
Context {Selector : Type} (sel_Parse : string → result error Selector)
  (sel_Empty : Selector → bool) (sel_Matches : Selector → gmap string string → bool)
  (sel_Everything : Selector).
Context (sch : Scheme).
Context (enc : Object → TObject) (dec : TObject → Object).
Abbreviation DB := (DB (Selector := Selector)).
Abbreviation registered := (registered ParseGroupVersion sch).
Abbreviation store_wf := (store_wf ParseGroupVersion sch).
Abbreviation stored_obj := (stored_obj ParseGroupVersion sch).
Abbreviation gvk_of := (gvk_of ParseGroupVersion).
Abbreviation core_write := (core_write sch).
Abbreviation publish := (publish sel_Empty sel_Matches).
Abbreviation bolt_List := (bolt_List ParseGroupVersion sel_Parse sel_Empty sel_Matches sel_Everything sch).
Implicit Types (s : DB) (o : Object) (t : Buckets).

(** What the JSON of a typed object is: its headers and metadata are the object's, its other
    members do not depend on the metadata, and its status decodes apart from the rest. *)
Class ObjectCodec : Prop := {
  cd_inv o : dec (enc o) = o;
  cd_kind o : ob_Kind (enc o) = obj_Kind o;
  cd_api o : ob_APIVersion (enc o) = apiVersion_of (obj_Kind o);
  cd_meta o : ob_meta (enc o) = obj_meta o;
  cd_wf o : wf_obj (enc o);
  cd_registered o : registered (enc o);
  cd_map_meta f o : enc (map_meta f o) = with_meta f (enc o);
  cd_status o cur : obj_Kind o = obj_Kind cur →
    ∃ x, enc x = with_status_of (enc cur) (enc o) ∧ spec_kept o x ∧ same_status cur x;
}.

(** apimachinery: the group of an apiVersion is what precedes its one slash, and the
    selector of no text selects everything. *)
Class Apimachinery : Prop := {
  am_api kind : ParseGroupVersion (apiVersion_of kind) = Ok (group_of kind, "v1");
  am_clean api g v : ParseGroupVersion api = Ok (g, v) → clean g;
  am_everything : sel_Empty sel_Everything = true;
}.

(** ** The store behind the interface *)
Definition lift_dec (p : DB * result StoreError TObject) : DB * result StoreError Object :=
  (p.1, match p.2 with Ok o => Ok (dec o) | Err e => Err e end).

(** What one call draws from outside: the uid, the clock and its commit's error. *)
Definition BoltEnv : Type := string * Z * option error.

Definition bolt_storage : Storage DB BoltEnv :=
  mkStorage
    (λ e o s, lift_dec (bolt_Create ParseGroupVersion sel_Empty sel_Matches sch e.1.1 e.1.2 e.2 (enc o) s))
    (λ e o s, lift_dec (bolt_Update ParseGroupVersion sel_Empty sel_Matches sch e.2 (enc o) s))
    (λ e sub o s, lift_dec (bolt_UpdateSubresource ParseGroupVersion sel_Empty sel_Matches sch e.2 sub (enc o) s))
    (λ e m uid rv s, lift_dec (bolt_Rollback ParseGroupVersion sel_Empty sel_Matches sch e.2 m uid (wrap64 rv) s))
    (λ m uid rv s, match bolt_GetRevision ParseGroupVersion sch m uid (wrap64 rv) s with
                   | Ok o => Ok (dec o) | Err err => Err err end)
    (λ e m s, bolt_Delete ParseGroupVersion sel_Empty sel_Matches sch e.2 m s)
    (λ m s, match bolt_Get ParseGroupVersion sch m s with Ok o => Ok (dec o) | Err err => Err err end)
    (λ m sel s, match bolt_List m sel s with Ok os => Ok (dec <$> os) | Err err => Err err end)
    (bolt_Watch ParseGroupVersion sel_Parse sel_Everything).

Definition view s : list Object :=
  kinds ≫= λ k, match bolt_List (resourceMeta k) "" s with Ok os => dec <$> os | Err _ => [] end.

(** Every record and every revision is the JSON of an object with a clean namespace. *)
Definition typed_enc (e : Enc) : Prop := ∃ o, e = marshal (enc o) ∧ clean (obj_Namespace o).
Definition typed t : Prop :=
  (∀ bkey key e, head t bkey key = Some e → typed_enc e) ∧
  (∀ bkey hk e, bucket (bk_history t) bkey !! hk = Some e → typed_enc e).
Definition ok s : Prop := store_wf (db_buckets s) ∧ typed (db_buckets s).

Definition ready (e : BoltEnv) s : Prop := roomy s ∧ uid_ok e.1.1 ∧ fresh_uid e.1.1 s.

Context {codec : ObjectCodec} {apim : Apimachinery}.

(** ** The view *)
Definition rkey o : string := recordKey (obj_Namespace o) (obj_Name o).

Lemma key_of_enc o : key_of (enc o) = rkey o.
Proof. unfold key_of. by rewrite cd_meta. Qed.

Lemma bucket_of_enc o : bucketKeyFor (gvk_of (enc o)) = Ok (bkey_of (obj_Kind o)).
Proof.
  unfold Bolt.gvk_of. rewrite cd_api, am_api, cd_kind. simpl. by rewrite bool_decide_eq_false_2 by (by destruct o).
Qed.

Lemma rkey_inj o o' :
  clean (obj_Namespace o) → clean (obj_Namespace o') → obj_Kind o = obj_Kind o' → rkey o = rkey o' → key o = key o'.
Proof. intros Hc Hc' Hk Hr. apply slash_inj in Hr as [Hn Hm]; [|done..]. unfold key. congruence. Qed.

Lemma enc_inj o o' : marshal (enc o) = marshal (enc o') → o = o'.
Proof. intros E%marshal_inj; [|apply cd_wf..]. by rewrite <-(cd_inv o), E, cd_inv. Qed.

(** A record is in the bucket of its kind under its own key. *)
Lemma head_typed s bkey key e :
  ok s → head (db_buckets s) bkey key = Some e →
  ∃ o, e = marshal (enc o) ∧ bkey = bkey_of (obj_Kind o) ∧ key = rkey o ∧ clean (obj_Namespace o).
Proof.
  intros [Hwf [Ht _]] Hh. destruct (Ht _ _ _ Hh) as (o & -> & Hc). exists o. split; [done|].
  destruct (sw_head _ _ _ Hwf _ _ _ Hh) as (o' & rv & Ee & Hs & ->).
  apply marshal_inj in Ee as <-; [|apply cd_wf|apply Hs]. split_and!; [|by apply key_of_enc|done].
  pose proof (so_bucket _ _ _ _ _ _ Hs) as Hb. rewrite bucket_of_enc in Hb. congruence.
Qed.

Lemma decode_enc o : Bolt.decode ParseGroupVersion sch (marshal (enc o)) = Ok (enc o).
Proof. apply decode_marshal; [apply cd_wf|apply cd_registered]. Qed.

(** The objects of one bucket, in cursor order. *)
Definition records (b : gmap string Enc) : list Object := omap (λ k, dec <$> (unmarshal <$> b !! k)) (cursor b).

Lemma list_all s bkey keys :
  ok s →
  let b := bucket (bk_heads (db_buckets s)) bkey in
  list_records ParseGroupVersion sel_Empty sel_Matches sch "" sel_Everything b keys =
    Ok (omap (λ k, unmarshal <$> b !! k) keys).
Proof.
  intros Hok b. induction keys as [|k keys IH]; [done|]. simpl.
  destruct (b !! k) as [e|] eqn:E; [|done].
  destruct (head_typed s bkey k e Hok E) as (o & -> & _). rewrite decode_enc, IH. cbn [negb andb].
  unfold matches. rewrite am_everything. simpl. by rewrite unmarshal_marshal by apply cd_wf.
Qed.

Lemma omap_fmap {A B C} (g : B → C) (f : A → option B) (l : list A) : g <$> omap f l = omap (λ x, g <$> f x) l.
Proof. induction l as [|x l IH]; simpl; [done|]. destruct (f x); simpl; [f_equal|]; exact IH. Qed.

Lemma list_of_kind s k :
  ok s → k ≠ "" →
  st_List bolt_storage (resourceMeta k) "" s = Ok (records (bucket (bk_heads (db_buckets s)) (bkey_of k))).
Proof.
  intros Hok Hk. simpl. unfold Bolt.bolt_List, bucketKeyForMeta. simpl. rewrite am_api. simpl.
  rewrite bool_decide_eq_false_2 by done. fold (bkey_of k). rewrite list_all by done.
  unfold records. by rewrite omap_fmap.
Qed.

Lemma records_elem s bkey o :
  ok s → o ∈ records (bucket (bk_heads (db_buckets s)) bkey) ↔
  bkey = bkey_of (obj_Kind o) ∧ head (db_buckets s) bkey (rkey o) = Some (marshal (enc o)).
Proof.
  intros Hok. unfold records. rewrite list_elem_of_omap. split.
  - intros (k & _ & E). destruct (_ !! k) as [e|] eqn:Ee; [|done]. simpl in E. injection E as <-.
    destruct (head_typed s bkey k e Hok Ee) as (o & -> & -> & -> & _).
    rewrite unmarshal_marshal, cd_inv by apply cd_wf. done.
  - intros [_ Hh]. exists (rkey o). split; [apply cursor_elem; by eexists|]. unfold head in Hh. rewrite Hh. simpl.
    by rewrite unmarshal_marshal, cd_inv by apply cd_wf.
Qed.

Lemma kind_known o : obj_Kind o ∈ kinds ∧ obj_Kind o ≠ "".
Proof. unfold kinds. destruct o; (split; [simpl; set_solver|done]). Qed.

Lemma view_eq s : ok s → view s = kinds ≫= λ k, records (bucket (bk_heads (db_buckets s)) (bkey_of k)).
Proof.
  intros Hok. unfold view. assert (∀ k, k ∈ kinds → k ≠ "") as Hne by (unfold kinds; set_solver).
  revert Hne. generalize kinds. intros l Hne. induction l as [|k l IH]; [done|].
  rewrite !bind_cons. f_equal; [|apply IH; set_solver].
  assert (k ≠ "") as Hk by (apply Hne; left).
  pose proof (list_of_kind s k Hok Hk) as Hl. simpl in Hl.
  destruct (bolt_List (resourceMeta k) "" s); congruence.
Qed.

(** The objects of one kind are those of its bucket. *)
Lemma view_kind s kind :
  ok s → List.filter (λ o, bool_decide (obj_Kind o = kind)) (view s) = records (bucket (bk_heads (db_buckets s)) (bkey_of kind)).
Proof.
  intros Hok. rewrite view_eq by done. set (R := λ k, records (bucket (bk_heads (db_buckets s)) (bkey_of k))).
  assert (∀ k o, o ∈ R k → obj_Kind o = k) as Hk.
  { intros k o [Hb _]%records_elem; [|done]. by apply bkey_inj in Hb. }
  assert (∀ k, List.filter (λ o, bool_decide (obj_Kind o = kind)) (R k) = if bool_decide (k = kind) then R k else []) as Hf.
  { intros k. specialize (Hk k). induction (R k) as [|o l IH]; [by case_bool_decide|]. simpl.
    rewrite (Hk o) by left. rewrite IH by (intros; apply Hk; by right). by case_bool_decide. }
  assert (∀ l, NoDup l → List.filter (λ o, bool_decide (obj_Kind o = kind)) (l ≫= R) =
    if bool_decide (kind ∈ l) then R kind else []) as Hl.
  { induction l as [|k l IH]; intros Hnd; [by rewrite bool_decide_eq_false_2 by apply not_elem_of_nil|].
    apply NoDup_cons in Hnd as [Hni Hnd]. rewrite bind_cons, List.filter_app, Hf, IH by done.
    destruct (decide (k = kind)) as [->|Hne].
    - rewrite (bool_decide_eq_true_2 (kind = kind)), (bool_decide_eq_false_2 (kind ∈ l)) by done.
      by rewrite app_nil_r, bool_decide_eq_true_2 by left.
    - rewrite (bool_decide_eq_false_2 (k = kind)) by done. simpl.
      assert (kind ∈ k :: l ↔ kind ∈ l) as Hiff by set_solver. by rewrite (bool_decide_ext _ _ Hiff). }
  rewrite Hl; [|refine (bool_decide_eq_true_1 _ _); by vm_compute].
  case_bool_decide as Hin; [done|]. symmetry. fold (R kind). destruct (R kind) as [|o l] eqn:E; [done|].
  exfalso. apply Hin. rewrite <-(Hk kind o) by (rewrite E; left). apply kind_known.
Qed.

Lemma view_elem s o :
  ok s → o ∈ view s ↔ head (db_buckets s) (bkey_of (obj_Kind o)) (rkey o) = Some (marshal (enc o)).
Proof.
  intros Hok. rewrite view_eq by done. rewrite list_elem_of_bind. split.
  - intros (k & [Hk Hh]%records_elem & _); [|done]. by rewrite <-Hk.
  - intros Hh. exists (obj_Kind o). split; [by apply records_elem|apply kind_known].
Qed.

Lemma view_clean s o : ok s → o ∈ view s → clean (obj_Namespace o).
Proof.
  intros Hok Ho%view_elem; [|done]. destruct (head_typed s _ _ _ Hok Ho) as (o' & E%enc_inj & _ & _ & Hc). by subst.
Qed.

(** ** Writes seen through the view *)
Lemma view_put s s' o :
  ok s → ok s' → clean (obj_Namespace o) →
  (∀ b k, head (db_buckets s') b k =
     if bool_decide (b = bkey_of (obj_Kind o) ∧ k = rkey o) then Some (marshal (enc o)) else head (db_buckets s) b k) →
  same_members (view s') (put o (view s)).
Proof.
  intros Hok Hok' Hc Hh x. rewrite put_elem, !view_elem, Hh by done. case_bool_decide as Hb.
  - split; [intros [= E%enc_inj]; by left|]. intros [->|[Hx Hne]]; [done|]. exfalso. apply Hne.
    destruct Hb as [Hb Hr]. apply rkey_inj; [|done|by apply bkey_inj|done]. eapply view_clean; [exact Hok|]. by apply view_elem.
  - split; [|by intros [->|[? _]]; [destruct Hb|]]. intros Hx. right. split; [done|]. intros E.
    apply Hb. pose proof (key_kind _ _ E) as ->. pose proof (key_names _ _ E) as [E1 E2]. split; [done|].
    unfold rkey. congruence.
Qed.

Lemma view_erase s s' o :
  ok s → ok s' → clean (obj_Namespace o) →
  (∀ b k, head (db_buckets s') b k =
     if bool_decide (b = bkey_of (obj_Kind o) ∧ k = rkey o) then None else head (db_buckets s) b k) →
  same_members (view s') (erase (key o) (view s)).
Proof.
  intros Hok Hok' Hc Hh x. rewrite erase_elem, !view_elem, Hh by done. case_bool_decide as Hb.
  - split; [done|]. intros [Hx Hne]. exfalso. apply Hne. destruct Hb as [Hb Hr].
    apply rkey_inj; [|done|by apply bkey_inj|done]. eapply view_clean; [exact Hok|]. by apply view_elem.
  - split; [|by intros [? _]]. intros Hx. split; [done|]. intros E.
    apply Hb. pose proof (key_kind _ _ E) as ->. pose proof (key_names _ _ E) as [E1 E2]. split; [done|].
    unfold rkey. congruence.
Qed.

(** ** Records kept typed *)
Lemma typed_core_write s bkey o :
  ok s → roomy s → clean (obj_Namespace o) → typed (core_write bkey (enc o) (db_buckets s)).
Proof.
  intros [Hwf [Hh Hi]] Hroom Hc. split.
  - intros b k e H. rewrite (cw_head _ _ _ Hwf _ _ (Hroom bkey)) in H. case_bool_decide; [|by eapply Hh].
    injection H as <-. by exists o.
  - intros b k e [H|(_ & _ & _ & ->)]%(cw_history_elem _ _ _ Hwf _ _ (Hroom bkey)); [by eapply Hi|by exists o].
Qed.

Lemma typed_putHead t bkey k o : typed t → clean (obj_Namespace o) → typed (putHead bkey k (marshal (enc o)) t).
Proof.
  intros [Hh Hi] Hc. split; [|done]. intros b k' e. rewrite head_putHead. case_bool_decide; [|by eapply Hh].
  intros [= <-]. by exists o.
Qed.

Lemma holds_typed s bkey cur rv :
  ok s → holds ParseGroupVersion sch s bkey cur rv →
  ∃ c, cur = enc c ∧ bkey = bkey_of (obj_Kind c) ∧ c ∈ view s ∧ clean (obj_Namespace c).
Proof.
  intros Hok [Hh Hs]. destruct (head_typed s _ _ _ Hok Hh) as (c & Ec & -> & Ek & Hc).
  apply marshal_inj in Ec as ->; [|apply Hs|apply cd_wf]. exists c. split_and!; try done.
  apply view_elem; [done|]. by rewrite <-key_of_enc.
Qed.

(** ** Stamps *)
Lemma stamped_meta f o :
  (∀ m, om_Namespace (f m) = om_Namespace m ∧ om_Name (f m) = om_Name m ∧ om_Annotations (f m) = om_Annotations m ∧
    om_Finalizers (f m) = om_Finalizers m ∧ om_Labels (f m) = om_Labels m ∧ om_DeletionTimestamp (f m) = om_DeletionTimestamp m) →
  stamped o (map_meta f o).
Proof.
  intros Hf. destruct (Hf (obj_meta o)) as (H1 & H2 & H3 & H4 & H5 & H6). split_and!.
  - unfold key, obj_Namespace, obj_Name. by rewrite map_meta_kind, map_meta_meta, H1, H2.
  - by apply spec_kept_meta.
  - by rewrite map_meta_meta.
  - by rewrite map_meta_meta.
Qed.

Lemma stamped_status o c :
  obj_Kind o = obj_Kind c → ∃ x, enc x = with_status_of (enc c) (enc o) ∧ stamped o x ∧ same_status c x.
Proof.
  intros (x & Hx & Hsp & Hss)%cd_status. exists x. split; [done|]. split; [|done].
  assert (obj_meta x = obj_meta o) as Hm by (by rewrite <-!cd_meta, Hx).
  assert (obj_Kind x = obj_Kind o) as Hk by (by rewrite <-!cd_kind, Hx).
  split_and!; [|done|by rewrite Hm..]. unfold key, obj_Namespace, obj_Name. by rewrite Hk, Hm.
Qed.

Lemma set_status_of v o c :
  ob_fields (enc o) !! "status" = Some v → set_status v (enc c) = with_status_of (enc o) (enc c).
Proof.
  intros H. unfold set_status, with_status_of. by rewrite H.
Qed.

Lemma stamped_clean o x : stamped o x → clean (obj_Namespace o) → clean (obj_Namespace x).
Proof. intros (Hk & _) Hc. by apply key_names in Hk as [-> _]. Qed.

Lemma stamped_place o x : stamped o x → obj_Kind x = obj_Kind o ∧ rkey x = rkey o.
Proof.
  intros (Hk & _). split; [by apply key_kind|]. apply key_names in Hk as [H1 H2]. unfold rkey. by rewrite H1, H2.
Qed.

(** A core write of [x] at its own place. *)
Lemma core_write_put s bkey x et raw ns lbls :
  let s' := publish bkey et raw ns lbls (with_buckets (core_write bkey (enc x) (db_buckets s)) s) in
  ok s → roomy s → clean (obj_Namespace x) → bkey = bkey_of (obj_Kind x) →
  store_wf (core_write bkey (enc x) (db_buckets s)) →
  ok s' ∧ same_members (view s') (put x (view s)).
Proof.
  intros s' Hok Hroom Hc Hb Hw. assert (ok s') as Hok' by (split; [done|by apply typed_core_write]).
  split; [done|]. apply view_put; try done. intros b k. unfold s'. cbn [db_buckets with_buckets Bolt.publish].
  destruct Hok as [Hwf _]. rewrite (cw_head _ _ _ Hwf _ _ (Hroom bkey)), key_of_enc. by subst bkey.
Qed.

(** ** The laws *)
Lemma law_create e o s s' r :
  ok s → ready e s → clean (obj_Namespace o) → st_Create bolt_storage e o s = (s', r) → ok s' ∧
  match r with
  | Ok out => key o ∉ key <$> view s ∧ stamped o out ∧ same_status o out ∧ same_members (view s') (put out (view s))
  | Err _ => same_members (view s') (view s)
  end.
Proof.
  intros Hok (Hroom & Hu & Hfr) Hc. cbn [st_Create bolt_storage]. unfold lift_dec.
  destruct (create_spec ParseGroupVersion sel_Empty sel_Matches sch e.1.1 e.1.2 e.2 (enc o) s (proj1 Hok) Hroom
    (cd_wf o) (cd_registered o) Hu Hfr) as [(err & ->)|(bkey & out & Eo & Eb & Eh & Hw & _ & _ & ->)];
    intros [= <- <-]; [done|].
  rewrite bucket_of_enc in Eb. injection Eb as <-. unfold create_stamp in Eo. rewrite <-cd_map_meta in Eo. subst out.
  match goal with |- context [enc (map_meta ?f o)] => set (x := map_meta f o) end.
  assert (stamped o x) as Hst by (by apply stamped_meta).
  destruct (core_write_put s (bkey_of (obj_Kind o)) x Added (marshal (enc x)) (om_Namespace (ob_meta (enc x)))
    (om_Labels (ob_meta (enc x))) Hok Hroom) as [Hok' Hv];
    [by eapply stamped_clean|by rewrite (proj1 (stamped_place _ _ Hst))|done|].
  split; [done|]. rewrite cd_inv. split_and!; try done; [|by apply same_status_meta].
  intros (y & Hy & Hin)%list_elem_of_fmap. apply view_elem in Hin; [|done].
  rewrite key_of_enc in Eh. pose proof (key_kind _ _ Hy) as Hk. pose proof (key_names _ _ Hy) as [H1 H2].
  rewrite <-Hk in Hin. unfold rkey in Hin, Eh. by rewrite <-H1, <-H2, Eh in Hin.
Qed.

Lemma law_update e o s s' r :
  ok s → ready e s → clean (obj_Namespace o) → st_Update bolt_storage e o s = (s', r) → ok s' ∧
  match r with
  | Ok out => (∃ old, old ∈ view s ∧ key old = key o ∧ om_UID (obj_meta out) = om_UID (obj_meta old)) ∧
      stamped o out ∧ same_members (view s') (put out (view s))
  | Err _ => same_members (view s') (view s)
  end.
Proof.
  intros Hok (Hroom & _) Hc. cbn [st_Update bolt_storage]. unfold lift_dec.
  destruct (update_spec ParseGroupVersion sel_Empty sel_Matches sch e.2 (enc o) s (proj1 Hok) Hroom
    (cd_wf o) (cd_registered o)) as [(err & ->)|(bkey & cur & rv & out & Eo & Eb & Hh & Ek & _ & Hw & ->)];
    intros [= <- <-]; [done|].
  destruct (holds_typed _ _ _ _ Hok Hh) as (c & -> & -> & Hin & Hcc). rewrite bucket_of_enc in Eb.
  injection Eb as Hkk%bkey_inj. unfold update_stamp in Eo. cbv zeta in Eo. rewrite <-!cd_map_meta in Eo.
  match type of Eo with out = with_status_of _ (enc ?y) => set (o1 := y) in Eo end.
  assert (stamped o o1) as H1 by (eapply stamped_trans; by apply stamped_meta).
  destruct (stamped_status o1 c) as (x & Hx & H2 & _); [by rewrite (proj1 (stamped_place _ _ H1))|].
  rewrite <-Hx in Eo. subst out. pose proof (stamped_trans _ _ _ H1 H2) as Hst.
  destruct (core_write_put s (bkey_of (obj_Kind c)) x Modified (marshal (enc x)) (om_Namespace (ob_meta (enc x)))
    (om_Labels (ob_meta (enc x))) Hok Hroom) as [Hok' Hv];
    [by eapply stamped_clean|by rewrite (proj1 (stamped_place _ _ Hst)), Hkk|done|].
  split; [done|]. rewrite cd_inv. split_and!; try done. exists c. split_and!; [done| |].
  - symmetry. rewrite !key_of_enc in Ek. by apply rkey_inj.
  - rewrite <-(cd_meta x), Hx. simpl. rewrite cd_meta. unfold o1. rewrite !map_meta_meta. simpl. by rewrite <-cd_meta.
Qed.

Lemma law_status e o s s' r :
  ok s → ready e s → clean (obj_Namespace o) → st_UpdateSubresource bolt_storage e "status" o s = (s', r) → ok s' ∧
  match r with
  | Ok out => ∃ old, old ∈ view s ∧ key old = key o ∧ stamped old out ∧ same_status o out ∧
      same_members (view s') (put out (view s))
  | Err _ => same_members (view s') (view s)
  end.
Proof.
  intros Hok _ Hc. cbn [st_UpdateSubresource bolt_storage]. unfold lift_dec.
  destruct (status_spec ParseGroupVersion sel_Empty sel_Matches sch e.2 (enc o) s (proj1 Hok) (cd_wf o) (cd_registered o))
    as [(err & ->)|(bkey & cur & rv & v & Eb & Hh & Ek & Ev & [[Ecur ->]|(_ & Hw & ->)])]; intros [= <- <-]; [done|..];
    destruct (holds_typed _ _ _ _ Hok Hh) as (c & -> & -> & Hin & Hcc); rewrite bucket_of_enc in Eb;
    injection Eb as Hkk%bkey_inj; rewrite !key_of_enc in Ek;
    assert (key c = key o) as Hkey by (symmetry; by apply rkey_inj).
  - split; [done|]. rewrite cd_inv. exists c. split_and!; [done..|apply stamped_refl| |].
    { destruct (stamped_status c o) as (x & Hx & _ & Hss); [done|]. assert (x = c) as ->; [|done].
      rewrite <-(cd_inv x), <-(cd_inv c), Hx. f_equal. rewrite <-(set_status_of v o c Ev). unfold set_status.
      rewrite insert_id by done. by destruct (enc c). }
    apply view_put; try done.
    intros b k. case_bool_decide as Hb; [|done]. destruct Hb as [-> ->]. by apply view_elem.
  - destruct (stamped_status c o) as (x & Hx & Hst & Hss); [done|].
    destruct (stamped_place _ _ Hst) as [Hxk Hxr].
    unfold status_write in *. rewrite (set_status_of v o c Ev), <-Hx, key_of_enc in *.
    set (s1 := Bolt.publish _ _ _ _ _ _ _ _).
    assert (ok s1) as Hok1.
    { split; [done|]. apply typed_putHead; [apply Hok|by eapply stamped_clean]. }
    split; [done|]. rewrite cd_inv. exists c. split_and!; try done.
    apply view_put; [done|done|by eapply stamped_clean|]. intros b k. unfold s1.
    cbn [db_buckets with_buckets Bolt.publish]. by rewrite head_putHead, Hxk, Hxr.
Qed.

(** An address and a record of one bucket are of one kind. *)
Lemma meta_kind m o :
  bucketKeyForMeta ParseGroupVersion m = Ok (bkey_of (obj_Kind o)) → tm_Kind m = obj_Kind o.
Proof.
  unfold bucketKeyForMeta. destruct (ParseGroupVersion (tm_ApiVersion m)) as [[g v]|] eqn:Ep; [|done]. simpl.
  case_bool_decide; [done|]. intros [= E]. apply slash_inj in E as [_ ?]; [done|by eapply am_clean|apply group_clean].
Qed.

Lemma meta_key m o :
  clean (tm_Namespace m) → clean (obj_Namespace o) →
  bucketKeyForMeta ParseGroupVersion m = Ok (bkey_of (obj_Kind o)) →
  recordKey (tm_Namespace m) (tm_Name m) = rkey o → key o = address m.
Proof.
  intros Hm Ho Hk%meta_kind Hr. apply slash_inj in Hr as [H1 H2]; [|done..]. unfold key, address. by rewrite Hk, H1, H2.
Qed.

Lemma law_get s m o :
  ok s → clean (tm_Namespace m) → st_Get bolt_storage m s = Ok o → o ∈ view s ∧ key o = address m.
Proof.
  intros Hok Hc. cbn [st_Get bolt_storage]. unfold bolt_Get.
  destruct (bucketKeyForMeta _ m) as [bkey|] eqn:Eb; [|done].
  destruct (head _ _ _) as [e|] eqn:Eh; [|done].
  destruct (head_typed s _ _ _ Hok Eh) as (c & -> & -> & Ek & Hcc). rewrite decode_enc, cd_inv. intros [= <-]. split.
  - apply view_elem; [done|]. by rewrite <-Ek.
  - by apply meta_key.
Qed.

Lemma law_delete e m s s' r :
  ok s → ready e s → clean (tm_Namespace m) → st_Delete bolt_storage e m s = (s', r) → ok s' ∧
  match r with
  | Ok _ => same_members (view s') (erase (address m) (view s))
  | Err _ => same_members (view s') (view s)
  end.
Proof.
  intros Hok _ Hc. cbn [st_Delete bolt_storage].
  destruct (delete_spec ParseGroupVersion sel_Empty sel_Matches sch e.2 m s (proj1 Hok))
    as [(err & ->)|(bkey & cur & rv & Eb & Hh & Ek & Hw & ->)]; intros [= <- <-]; [done|].
  destruct (holds_typed _ _ _ _ Hok Hh) as (c & -> & -> & Hin & Hcc). rewrite key_of_enc in Ek.
  pose proof (meta_key m c Hc Hcc Eb Ek) as <-.
  set (s1 := Bolt.publish _ _ _ _ _ _ _ _).
  assert (∀ b k, head (db_buckets s1) b k =
    if bool_decide (b = bkey_of (obj_Kind c) ∧ k = rkey c) then None else head (db_buckets s) b k) as Hhd.
  { intros b k. unfold s1, erase_obj. cbn [db_buckets with_buckets Bolt.publish].
    by rewrite dl_head, key_of_enc. }
  assert (ok s1) as Hok1.
  { destruct Hok as [_ [Ht Hi]]. split; [done|]. split.
    - intros b k x. rewrite Hhd. case_bool_decide; [done|]. apply Ht.
    - intros b k x. unfold s1, erase_obj. cbn [db_buckets with_buckets Bolt.publish].
      rewrite dl_history. destruct (_ && _); [done|]. apply Hi. }
  split; [done|]. by apply view_erase.
Qed.

Lemma law_rollback e m uid rv (tgt : Object) s s' r :
  ok s → ready e s → st_GetRevision bolt_storage m uid rv s = Ok tgt →
  st_Rollback bolt_storage e m uid rv s = (s', r) → ok s' ∧
  match r with
  | Ok out => (∃ old, old ∈ view s ∧ key old = key tgt) ∧ stamped tgt out ∧ same_members (view s') (put out (view s))
  | Err _ => same_members (view s') (view s)
  end.
Proof.
  intros Hok (Hroom & _). cbn [st_GetRevision st_Rollback bolt_storage]. unfold bolt_GetRevision, lift_dec.
  destruct (bucketKeyForMeta _ m) as [bkey|] eqn:Eb; [|done]. case_bool_decide as Hu; [done|].
  pose proof (wrap64_is_int64 rv) as Hrv. set (z := wrap64 rv) in *. destruct (Z.leb_spec z 0); [done|].
  destruct (revision _ _ _ _) as [snap|] eqn:Er; [|done].
  assert (version z) as Hv by (unfold version; int64).
  destruct (rollback_ok ParseGroupVersion sel_Empty sel_Matches sch m bkey uid z snap s (proj1 Hok) Hroom Hv Hu Eb Er)
    as (sn & cur & rc & out & -> & Hs & _ & Hh & Ek & _ & Eo & Hw & _ & _ & Hrun).
  rewrite Hrun. destruct Hok as [Hwf Htd]. destruct (proj2 Htd _ _ _ Er) as (t0 & Et & Hct).
  apply marshal_inj in Et as ->; [|apply Hs|apply cd_wf]. rewrite decode_enc, cd_inv. intros [= <-].
  destruct e.2; intros [= <- <-]; [done|].
  destruct (holds_typed _ _ _ _ (conj Hwf Htd) Hh) as (c & -> & -> & Hin & Hcc).
  pose proof (so_bucket _ _ _ _ _ _ Hs) as Hbk. rewrite bucket_of_enc in Hbk. injection Hbk as Hkk%bkey_inj.
  destruct (stamped_status t0 c Hkk) as (x0 & Hx0 & Hst0 & _).
  unfold rollback_stamp in Eo. cbv zeta in Eo. rewrite <-Hx0, <-!cd_map_meta in Eo.
  match type of Eo with out = enc ?y => set (x := y) in Eo end. subst out.
  assert (stamped t0 x) as Hst by (eapply stamped_trans; [exact Hst0|]; eapply stamped_trans; by apply stamped_meta).
  destruct (core_write_put s (bkey_of (obj_Kind c)) x Modified (marshal (enc x)) (om_Namespace (ob_meta (enc x)))
    (om_Labels (ob_meta (enc x))) (conj Hwf Htd) Hroom) as [Hok' Hvw];
    [by eapply stamped_clean|by rewrite (proj1 (stamped_place _ _ Hst)), Hkk|done|].
  split; [done|]. rewrite cd_inv. split_and!; try done. exists c. split; [done|].
  rewrite !key_of_enc in Ek. symmetry. by apply rkey_inj.
Qed.

(** ** The instance *)
#[export] Instance bolt_contract : StorageContract bolt_storage view ok ready.
Proof.
  split.
  - intros s kind Hok Hne. rewrite list_of_kind by done. f_equal. symmetry. by apply view_kind.
  - apply law_get.
  - apply law_create.
  - apply law_update.
  - apply law_status.
  - apply law_delete.
  - apply law_rollback.
  - intros m sel s s' r Hok. cbn [st_Watch bolt_storage]. unfold bolt_Watch.
    destruct (bucketKeyForMeta _ m); [|by intros [= <- _]].
    destruct (parseSelector _ _ sel); intros [= <- _]; done.
Qed.

(** A new store holds nothing and honours its invariant: the runs of the server start here. *)
Lemma new_ok : ok (bolt_Open (Selector := Selector) sch (mkBuckets ∅ ∅ ∅)) ∧
  view (bolt_Open (Selector := Selector) sch (mkBuckets ∅ ∅ ∅)) = [].
Proof.
  set (s := bolt_Open sch (mkBuckets ∅ ∅ ∅)). assert (ok s) as Hok.
  { split; [apply open_wf, empty_wf|]. split; intros b k e; unfold s, head, bucket; simpl.
    - by rewrite lookup_empty.
    - rewrite map_filter_empty. by rewrite lookup_empty. }
  split; [done|]. destruct (view s) as [|o l] eqn:E; [done|]. exfalso.
  assert (o ∈ view s) as Ho by (rewrite E; left). apply view_elem in Ho; [|done].
  unfold s, head, bucket in Ho. simpl in Ho. by rewrite lookup_empty in Ho.
Qed.

(** The API over the embedded store: whatever has been served, references resolve and the
    store's own invariant holds. *)
Theorem bolt_api_sound {Body Patch : Type} (lib : Libs Body Patch) (chain : Lister → list Plugin) `{!ReviewChain chain}
    (P : ApiRequest (Body := Body) → DB → Prop) s :
  (∀ gvk b, gvk ∈ sch_m sch → obj_Kind (json_Unmarshal lib gvk b).1 = gvk_Kind gvk) →
  ApiRun bolt_storage view ok ready chain lib sch P s →
  store_wf (db_buckets s) ∧ integrity (view s).
Proof.
  intros Hj Hrun. destruct (run_ok bolt_storage view ok ready chain lib sch Hj P s Hrun) as [[Hwf _] (_ & _ & Hi)]. done.
Qed.
End BoltService.

(** ** A served run: witnesses of the API service's theorems

    A store kept as a list of objects honours the contract; over it, two namespaces and two
    applications are created by requests, one application is placed and deleted, and the two
    gaps the contract leaves open are exhibited: a rollback writes the object its revision
    names rather than the one it addresses, and an update that omits the deletion mark
    withdraws it. *)
From S2P Require Import Framework Plugins Scheduler SchedulerPass.
From S2P Require Import Policies.
From S2P Require Import AdmissionDemo.
Module ApiDemo.
Import NanoQuantity.
#[local] Open Scope Z_scope.
(** ** A reference store *)
Definition RefState : Type := list Object.

Definition at_key (k : string * string * string) (s : RefState) : option Object :=
  List.find (λ o, bool_decide (key o = k)) s.

Definition ref_Create (uid : string) (o : Object) (s : RefState) : RefState * result StoreError Object :=
  match at_key (key o) s with
  | Some _ => (s, Err ErrAlreadyExists)
  | None => let out := map_meta (set_uid uid) o in (put out s, Ok out)
  end.

Definition ref_Update (_ : string) (o : Object) (s : RefState) : RefState * result StoreError Object :=
  match at_key (key o) s with
  | None => (s, Err ErrNotFound)
  | Some old =>
      match checkResourceVersion (obj_meta o) (obj_meta old) with
      | Some err => (s, Err err)
      | None => let out := map_meta (set_uid (om_UID (obj_meta old))) o in (put out s, Ok out)
      end
  end.

Definition status_from (o old : Object) : Object :=
  match old, o with
  | ObjApplication a, ObjApplication b => ObjApplication (mkApplication (app_meta a) (app_Spec a) (app_Status b))
  | ObjNode a, ObjNode b => ObjNode (mkNode (node_meta a) (node_Unschedulable a) (node_Status b))
  | ObjApplicationSet a, ObjApplicationSet b => ObjApplicationSet (mkAppSet (aset_meta a) (aset_Spec a) (aset_Status b))
  | ObjCSR a, ObjCSR b => ObjCSR (mkCSR (csr_meta a) (csr_Spec a) (csr_Status b))
  | _, _ => old
  end.

Definition ref_Status (_ : string) (sub : string) (o : Object) (s : RefState) : RefState * result StoreError Object :=
  match at_key (key o) s with
  | None => (s, Err ErrNotFound)
  | Some old => let out := status_from o old in (put out s, Ok out)
  end.

Definition ref_Delete (_ : string) (m : TypesMeta) (s : RefState) : RefState * result StoreError unit :=
  match at_key (address m) s with
  | None => (s, Err ErrNotFound)
  | Some _ => (erase (address m) s, Ok tt)
  end.

Definition ref_storage : Storage RefState string :=
  mkStorage ref_Create ref_Update ref_Status (λ _ _ _ _ s, (s, Err ErrNotFound)) (λ _ _ _ _, Err ErrNotFound)
    ref_Delete (λ m s, match at_key (address m) s with Some o => Ok o | None => Err ErrNotFound end)
    (λ m _ s, Ok (List.filter (λ o, bool_decide (obj_Kind o = tm_Kind m)) s)) (λ _ _ s, (s, Ok ("", 0%nat))).

Lemma at_key_Some k s o : at_key k s = Some o → o ∈ s ∧ key o = k.
Proof. intros [Hin Hk]%find_some. apply list_elem_of_In in Hin. split; [done|]. by apply bool_decide_eq_true in Hk. Qed.
Lemma at_key_None k s : at_key k s = None → k ∉ key <$> s.
Proof.
  intros H (o & -> & Hin)%list_elem_of_fmap. apply list_elem_of_In in Hin. pose proof (find_none _ _ H o Hin) as E.
  by apply bool_decide_eq_false in E.
Qed.

Lemma stamped_uid uid o : stamped o (map_meta (set_uid uid) o).
Proof.
  split_and!; try (rewrite map_meta_meta; done); [|by apply spec_kept_meta].
  unfold key, obj_Namespace, obj_Name. by rewrite map_meta_kind, map_meta_meta.
Qed.

#[export] Instance ref_contract : StorageContract ref_storage id (λ _, True) (λ _ _, True).
Proof.
  split; unfold id.
  - done.
  - intros s m o _ _. simpl. destruct (at_key _ s) eqn:E; [|done]. intros [= <-]. by apply at_key_Some.
  - intros e o s s' r _ _ _. simpl. unfold ref_Create. destruct (at_key _ s) eqn:E; intros [= <- <-]; (split; [done|]).
    + reflexivity.
    + split_and!; [by apply at_key_None|apply stamped_uid|apply same_status_meta|reflexivity].
  - intros e o s s' r _ _ _. simpl. unfold ref_Update.
    destruct (at_key _ s) as [old|] eqn:E; [|intros [= <- <-]; by split].
    destruct (checkResourceVersion _ _); intros [= <- <-]; (split; [done|]); [reflexivity|].
    apply at_key_Some in E as [Hin Hk]. split_and!; [exists old|apply stamped_uid|reflexivity].
    split_and!; [done..|]. by rewrite map_meta_meta.
  - intros e o s s' r _ _ _. simpl. unfold ref_Status.
    destruct (at_key _ s) as [old|] eqn:E; [|intros [= <- <-]; by split].
    intros [= <- <-]. split; [done|]. apply at_key_Some in E as [Hin Hk]. exists old. split_and!; [done..| | |reflexivity].
    + destruct old, o; try apply stamped_refl; by split_and!.
    + by destruct old, o.
  - intros e m s s' r _ _ _. simpl. unfold ref_Delete. destruct (at_key _ s); intros [= <- <-]; by split.
  - intros e m uid rv t s s' r _ _. done.
  - intros m sel s s' r _ [= <- _]. done.
Qed.

(** ** The served requests *)
Definition demo_sch : Scheme :=
  mkScheme {[("horchestra.io", "v1", "Namespace"); ("horchestra.io", "v1", "Application")]} ∅.

(** A body is the object it encodes; one of another kind does not decode. *)
Definition demo_Unmarshal (gvk : GVK) (b : Object) : Object * option error :=
  if bool_decide (obj_Kind b = gvk_Kind gvk) then (b, None)
  else (if bool_decide (gvk_Kind gvk = "Namespace") then demo_ns "" ∅ else ObjApplication (demo_app "" "" None),
        Some "type mismatch").

Lemma demo_json_kind gvk b : gvk ∈ sch_m demo_sch → obj_Kind (demo_Unmarshal gvk b).1 = gvk_Kind gvk.
Proof.
  unfold demo_Unmarshal. case_bool_decide; [done|]. simpl. rewrite elem_of_union, !elem_of_singleton.
  by intros [->| ->].
Qed.

Definition demo_lib : Libs Object unit :=
  mkLibs (λ _, Ok ("horchestra.io", "v1")) gk_of (λ _, []) (λ _, []) Ok demo_Unmarshal (λ _ p, Ok p)
    (λ _, Err "not a patch") (λ _, 0%nat) (λ _ b, Ok b) (λ _ b, Ok b) (λ _ _, []).

Abbreviation demo_serve := (serve ref_storage (core_chain false) demo_lib demo_sch).
Abbreviation demo_Run := (ApiRun ref_storage id (λ _, True) (λ _ _, True) (core_chain false) demo_lib demo_sch).
Abbreviation demo_honest := (honest_request ref_storage id demo_lib demo_sch).

Definition ns_gvk : GVK := ("horchestra.io", "v1", "Namespace").
Definition app_gvk : GVK := ("horchestra.io", "v1", "Application").
Definition app_at (ns name : string) : TypesMeta := mkTypesMeta GroupVersion "Application" ns name.

Definition held (a : Application) : Object := map_meta (set_finalizers ["example/hold"]) (ObjApplication a).

Definition requests : list (ApiRequest (Body := Object)) :=
  [ACreate ns_gvk (demo_ns "red" ∅) "";
   ACreate ns_gvk (demo_ns "blue" ∅) "";
   ACreate app_gvk (held (demo_app "red" "web" None)) "red";
   ACreate app_gvk (ObjApplication (demo_app "" "web" None)) "blue"].

Definition served_all (rs : list (ApiRequest (Body := Object))) (s : RefState) : RefState :=
  foldl (λ s r, (demo_serve None "uid" r s).1) s rs.

Definition live : RefState := served_all requests [].
Definition delete_red : ApiRequest (Body := Object) := ADelete 77 (app_at "red" "web") None.
Definition dying : RefState := (demo_serve None "uid" delete_red live).1.

Lemma demo_step ctx r P s : demo_Run P s → route r → P r s → demo_Run P (demo_serve ctx "uid" r s).1.
Proof.
  intros H Hr HP. apply (run_serve _ _ _ _ _ _ _ _ ctx "uid" r s _ (demo_serve ctx "uid" r s).2); try done.
  apply surjective_pairing.
Qed.

Lemma demo_create_honest gvk o ns s :
  (∀ n, o = ObjNamespace n → annotation n = "") → demo_honest (ACreate gvk o ns) s.
Proof.
  intros H q. cbn [submits]. unfold decode. case_bool_decide; [|done].
  cbn [negb demo_lib scheme_Default json_Unmarshal scheme_Validate]. unfold demo_Unmarshal.
  case_bool_decide; [|done]. unfold bindNamespace. destruct (_ && _); [by destruct (bool_decide _)|].
  intros [= <-]. destruct o; try done. by apply (H n).
Qed.

Lemma live_run : demo_Run demo_honest live.
Proof.
  unfold live, served_all, requests. cbn [foldl].
  apply demo_step; [apply demo_step; [apply demo_step; [apply demo_step|..]|..]|..].
  - by apply run_init.
  - by split.
  - apply demo_create_honest. intros n [= <-]. reflexivity.
  - by split.
  - apply demo_create_honest. intros n [= <-]. reflexivity.
  - split; [reflexivity|]. intros H. exfalso. apply H. decided.
  - by apply demo_create_honest.
  - split; [reflexivity|]. intros H. exfalso. apply H. decided.
  - by apply demo_create_honest.
Qed.

Lemma api_tenants_apart_witness :
  ∃ ua ub, run_as_user (stored "red" live) = Some ua ∧ run_as_user (stored "blue" live) = Some ub ∧ ua ≠ ub.
Proof.
  apply (api_tenants_apart ref_storage id (λ _, True) (λ _ _, True) (core_chain false) demo_lib demo_sch demo_json_kind
    live (stored "red" live) (stored "blue" live)).
  - apply live_run.
  - apply stored_elem. vm_compute. reflexivity.
  - apply stored_elem. vm_compute. reflexivity.
  - vm_compute. discriminate.
  - vm_compute. discriminate.
  - vm_compute. discriminate.
Defined.

Lemma api_integrity_witness : refs_hold live (ObjApplication (stored "red" live)).
Proof.
  apply (api_integrity ref_storage id (λ _, True) (λ _ _, True) (core_chain false) demo_lib demo_sch demo_json_kind
    demo_honest live).
  - apply live_run.
  - apply stored_elem. vm_compute. reflexivity.
Defined.

Lemma delete_two_phase_witness :
  ∃ cur, cur ∈ live ∧ key cur = ("Application", "red", "web") ∧
    (om_Finalizers (obj_meta cur) ≠ [] → ∃ out, out ∈ dying ∧ marked cur out).
Proof.
  destruct (delete_two_phase ref_storage id (λ _, True) (λ _ _, True) (core_chain false) demo_lib demo_sch
    demo_json_kind demo_honest None "uid" 77 (app_at "red" "web") None live dying) as (cur & H1 & H2 & _ & H3).
  - apply live_run.
  - exact I.
  - reflexivity.
  - change (demo_serve None "uid" delete_red live = (dying, None)).
    rewrite (surjective_pairing (demo_serve None "uid" delete_red live)). apply (f_equal (pair dying)). vm_compute. reflexivity.
  - exists cur. split; [exact H1|]. split; [exact H2|exact H3].
Defined.

Lemma request_confined_witness :
  ObjApplication (stored "blue" live) ∈ dying ↔ ObjApplication (stored "blue" live) ∈ live.
Proof.
  apply (request_confined ref_storage id (λ _, True) (λ _ _, True) (core_chain false) demo_lib demo_sch
    demo_json_kind demo_honest None "uid" delete_red live dying (demo_serve None "uid" delete_red live).2).
  - apply live_run.
  - exact I.
  - reflexivity.
  - apply surjective_pairing.
  - cbn [within delete_red]. vm_compute. discriminate.
Defined.

(** A namespace that still holds workloads may not be deleted. *)
Definition delete_ns : ApiRequest (Body := Object) := ADelete 77 (mkTypesMeta GroupVersion "Namespace" "" "red") None.
Definition undeleted : RefState := (demo_serve None "uid" delete_ns live).1.
Definition refusal : ApiError := default (InternalError "none") (demo_serve None "uid" delete_ns live).2.

Lemma refused_changes_nothing_witness :
  ObjApplication (stored "red" live) ∈ undeleted ↔ ObjApplication (stored "red" live) ∈ live.
Proof.
  apply (refused_changes_nothing ref_storage id (λ _, True) (λ _ _, True) (core_chain false) demo_lib demo_sch
    demo_json_kind demo_honest None "uid" delete_ns live undeleted refusal).
  - apply live_run.
  - exact I.
  - reflexivity.
  - rewrite (surjective_pairing (demo_serve None "uid" delete_ns live)).
    apply (f_equal (pair undeleted)), default_Some. vm_compute. reflexivity.
Defined.

(** ** Two gaps *)

(** An update whose body omits the deletion mark is accepted, and the object is no longer
    being deleted: the guard holds the mark only against being set. *)
Definition revive : ApiRequest (Body := Object) := AUpdate app_gvk (ObjApplication (demo_app "red" "web" None)) "red" "web".
Definition revived : RefState := (demo_serve (Some client) "uid" revive dying).1.
Definition mark_of (s : RefState) : option Z :=
  o ← at_key ("Application", "red", "web") s; om_DeletionTimestamp (obj_meta o).

Theorem update_withdraws_deletion :
  mark_of dying = Some 77 ∧ (demo_serve (Some client) "uid" revive dying).2 = None ∧ mark_of revived = None.
Proof. by vm_compute. Qed.

(** A rollback restores the object its uid names; the name and the namespace it addresses,
    which the review and the authorization of the request are about, play no part. *)
Theorem rollback_ignores_address pgv {Selector : Type} sel_Empty sel_Matches sch io m m' uid rv
    (s : DB (Selector := Selector)) :
  tm_ApiVersion m = tm_ApiVersion m' → tm_Kind m = tm_Kind m' →
  bolt_Rollback pgv sel_Empty sel_Matches sch io m uid rv s = bolt_Rollback pgv sel_Empty sel_Matches sch io m' uid rv s.
Proof. intros Hv Hk. unfold bolt_Rollback, bucketKeyForMeta. by rewrite Hv, Hk. Qed.
End ApiDemo.
