(* ===== verification/Authz.v ===== *)
(** * Authorization (controller/authz)

    The attributes of a request and how they are read off it, the built-in grants, the
    projection of the RBAC objects into policy lines and path grants, and the decision.
    The Casbin engine is a parameter: [Enforce] on a loaded policy, [AddPolicies]; the model
    text the code hands it is [rbac_matcher]. *)
From stdpp Require Import gmap strings list.
From Stdlib Require Import ZArith Ascii.
From S2P Require Import Prelude Resources CoreV1 ApiObjects Uids Paths Admission.

Definition core_GroupName : string := "horchestra.io".
Definition cert_GroupName : string := "certificates.horchestra.io".
Definition NodeGroup : string := "system:nodes".
Definition AdminGroup : string := "system:masters".

(** ** Strings *)
(** [strings.Trim s "c"]. *)
Fixpoint trim_left (c : ascii) (s : string) : string :=
  match s with String d s' => if bool_decide (d = c) then trim_left c s' else s | EmptyString => "" end.
Fixpoint trim_right (c : ascii) (s : string) : string :=
  match s with
  | EmptyString => ""
  | String d s' =>
      match trim_right c s' with
      | EmptyString => if bool_decide (d = c) then "" else String d ""
      | t => String d t
      end
  end.
Definition trim (c : ascii) (s : string) : string := trim_right c (trim_left c s).

(** [strings.Count] of a one-byte substring. *)
Fixpoint count_char (c : ascii) (s : string) : nat :=
  match s with
  | EmptyString => 0
  | String d s' => (if bool_decide (d = c) then 1 else 0) + count_char c s'
  end.

(** [strings.CutSuffix s "*"] and [strings.HasSuffix s "*"]. *)
Fixpoint cut_star (s : string) : option string :=
  match s with
  | EmptyString => None
  | String c s' =>
      match s' with
      | EmptyString => if bool_decide (c = "*"%char) then Some "" else None
      | _ => String c <$> cut_star s'
      end
  end.
Definition has_star (s : string) : bool := match cut_star s with Some _ => true | None => false end.

(** [strings.ToLower] on ASCII. *)
Definition lower_char (c : ascii) : ascii :=
  let n := nat_of_ascii c in
  if bool_decide (65 ≤ n ≤ 90) then ascii_of_nat (n + 32) else c.
Fixpoint ToLower (s : string) : string :=
  match s with EmptyString => "" | String c s' => String (lower_char c) (ToLower s') end.

Definition contains (x : string) (l : list string) : bool := bool_decide (x ∈ l).

(** ** Request attributes (authz.go) *)
Record AuthAttributes := mkAuthAttributes {
  aa_User : option Identity;
  aa_Verb : string;
  aa_Group : string;
  aa_Resource : string;
  aa_Namespace : string;
  aa_Name : string;
  aa_Subresource : string;
  aa_ResourceRequest : bool;
  aa_Path : string;
}.

(** [Attributes.Target]. *)
Definition Target (at_ : AuthAttributes) : string :=
  if bool_decide (aa_Subresource at_ = "") then aa_Resource at_
  else aa_Resource at_ +:+ "/" +:+ aa_Subresource at_.

Definition AllowedNonResourcePath (path : string) : bool :=
  if contains path ["/api"; "/apis"; "/version"; "/version/"; "/openapi"; "/livez"; "/readyz"] then true
  else if GoStrings.has_prefix "/openapi/" path then true
  else if GoStrings.has_prefix "/api/" path then true
  else if GoStrings.has_prefix "/apis/" path then (count_char "/" (trim "/" path) <=? 2)%nat
  else false.

Definition nodeAuthorizes (at_ : AuthAttributes) : bool :=
  match aa_User at_ with
  | None => false
  | Some u =>
      if negb (contains NodeGroup (id_Groups u)) then false
      else if bool_decide (aa_Group at_ = core_GroupName) then
        bool_decide (Target at_ = "nodes") && contains (aa_Verb at_) ["create"; "get"; "update"; "patch"]
      else if bool_decide (aa_Group at_ = cert_GroupName) then
        bool_decide (Target at_ = "certificatesigningrequests") && contains (aa_Verb at_) ["create"; "get"; "list"]
      else false
  end.

Definition isPublicNamespaceRead (at_ : AuthAttributes) : bool :=
  bool_decide (aa_Group at_ = core_GroupName) && bool_decide (aa_Resource at_ = "namespaces") &&
  (bool_decide (aa_Verb at_ = "list") || bool_decide (aa_Verb at_ = "watch")).

Definition isAdmin (groups : list string) : bool := contains AdminGroup groups.

Definition isReadVerb (v : string) : bool := contains v ["*"; "get"; "list"; "watch"].

Fixpoint subjectMatches (subjects : list Subject) (id : Identity) : bool :=
  match subjects with
  | [] => false
  | s :: l =>
      if bool_decide (sub_Kind s = "User") then
        if bool_decide (sub_Name s = id_Name id) then true else subjectMatches l id
      else if bool_decide (sub_Kind s = "Group") then
        if contains (sub_Name s) (id_Groups id) then true else subjectMatches l id
      else subjectMatches l id
  end.

(** A request as the handler sees it. *)
Record HttpRequest := mkHttpRequest { hr_Method : string; hr_Path : string; hr_watch : string }.

(** [AttributesFromRequest]. *)
Definition verb_of (method : string) (watch : bool) (name : string) : string :=
  if bool_decide (method = "POST") then "create"
  else if bool_decide (method = "PUT") || bool_decide (method = "PATCH") then "update"
  else if bool_decide (method = "DELETE") then "delete"
  else if watch then "watch"
  else if bool_decide (name = "") then "list" else "get".

Definition AttributesFromRequest (r : HttpRequest) (user : option Identity) : AuthAttributes :=
  let parts := split "/" (trim "/" (hr_Path r)) in
  match parts with
  | p0 :: group :: _ :: rest =>
      if (length rest =? 0)%nat || negb (bool_decide (p0 = "apis"))
      then mkAuthAttributes user (ToLower (hr_Method r)) "" "" "" "" "" false (hr_Path r)
      else
        let namespaced := (3 <=? length rest)%nat && bool_decide (rest !! 0 = Some "namespaces") in
        let ns := if namespaced then default "" (rest !! 1) else "" in
        let rest := if namespaced then drop 2 rest else rest in
        let name := default "" (rest !! 1) in
        mkAuthAttributes user (verb_of (hr_Method r) (bool_decide (hr_watch r = "true")) name)
          group (default "" (rest !! 0)) ns name (default "" (rest !! 2)) true (hr_Path r)
  | _ => mkAuthAttributes user (ToLower (hr_Method r)) "" "" "" "" "" false (hr_Path r)
  end.

(** ** Path grants (nonresource.go) *)
Record nonResourceGrant := mkGrant { g_verbs : list string; g_urls : list string }.

Definition matchesPath (pattern path : string) : bool :=
  match cut_star pattern with
  | Some prefix => GoStrings.has_prefix prefix path
  | None => bool_decide (pattern = path)
  end.

Definition grant_allows (g : nonResourceGrant) (verb path : string) : bool :=
  if negb (contains verb (g_verbs g)) && negb (contains "*" (g_verbs g)) then false
  else existsb (λ u, matchesPath u path) (g_urls g).

(** ** Subjects (casbin.go) *)
Definition userSubject (name : string) : string := "user:" +:+ name.
Definition groupSubject (name : string) : string := "group:" +:+ name.
Definition subjectString (s : Subject) : string :=
  if bool_decide (sub_Kind s = "User") then userSubject (sub_Name s)
  else if bool_decide (sub_Kind s = "Group") then groupSubject (sub_Name s) else "".
Definition groupSubjects (groups : list string) : list string := groupSubject <$> groups.
Definition subjectsOf (id : Identity) : list string := userSubject (id_Name id) :: groupSubjects (id_Groups id).

(** ** The policy *)
(** A line: subject, namespace, apiGroup, resource, verb. *)
Definition Line : Type := string * string * string * string * string.

(** The matcher of [rbacModel]. *)
Definition wild (p r : string) : bool := bool_decide (p = "*") || bool_decide (r = p).
Definition rbac_matcher (r p : Line) : bool :=
  let '(rsub, rns, rgrp, rres, ract) := r in
  let '(psub, pns, pgrp, pres, pact) := p in
  bool_decide (rsub = psub) && wild pns rns && wild pgrp rgrp && wild pres rres && wild pact ract.

Record policy := mkPolicy {
  po_rules : list Line;
  po_paths : gmap string (list nonResourceGrant);
}.

(** The projection's state: the keys seen and what has been emitted. *)
Abbreviation Emitted := (gset string * policy)%type.

Definition line_key (l : Line) : string :=
  let '(sub, ns, g, res, verb) := l in
  let z := String Ascii.zero "" in
  sub +:+ z +:+ ns +:+ z +:+ g +:+ z +:+ res +:+ z +:+ verb.

Definition emit_line (st : Emitted) (l : Line) : Emitted :=
  let '(seen, p) := st in
  if bool_decide (line_key l ∈ seen) then st
  else ({[line_key l]} ∪ seen, mkPolicy (po_rules p ++ [l]) (po_paths p)).

(** The lines of one rule, in loop order. *)
Definition rule_lines (sub ns : string) (r : PolicyRule) : list Line :=
  g ← pr_APIGroups r; res ← pr_Resources r; verb ← pr_Verbs r; [(sub, ns, g, res, verb)].

Definition emit_rule (sub ns : string) (st : Emitted) (r : PolicyRule) : Emitted :=
  let '(seen, p) := st in
  let p := if negb (length (pr_NonResourceURLs r) =? 0)%nat && bool_decide (ns = "*")
           then mkPolicy (po_rules p)
                  (<[sub := default [] (po_paths p !! sub) ++ [mkGrant (pr_Verbs r) (pr_NonResourceURLs r)]]> (po_paths p))
           else p in
  foldl emit_line (seen, p) (rule_lines sub ns r).

Definition emit_subject (ns : string) (rules : list PolicyRule) (st : Emitted) (s : Subject) : Emitted :=
  let sub := subjectString s in
  if bool_decide (sub = "") then st else foldl (emit_rule sub ns) st rules.

Definition emit (subjects : list Subject) (ns : string) (rules : list PolicyRule) (st : Emitted) : Emitted :=
  foldl (emit_subject ns rules) st subjects.

Section Authz.
Context {HQ : Quantity}.

(** What the authorizer asks of a storage: lists by Kind, gets by Kind, namespace and name. *)
Record Reader := mkReader {
  rd_List : string → result error (list Object);
  rd_Get : string → string → string → result error Object;
}.

Definition existingNamespaces (store : Reader) : result error (gset string) :=
  let* list := rd_List store "Namespace" in
  Ok (foldl (λ live o, match o with ObjNamespace n => {[nsp_Name n]} ∪ live | _ => live end) ∅ list).

(** [roleRefRules]: nil when the role is absent. *)
Definition roleRefRules (store : Reader) (ref : RoleRef) (namespace : string) : list PolicyRule :=
  if bool_decide (ref_Kind ref = "Role") then
    match rd_Get store "Role" namespace (ref_Name ref) with
    | Ok (ObjRole r) => role_Rules r
    | _ => []
    end
  else if bool_decide (ref_Kind ref = "ClusterRole") then
    match rd_Get store "ClusterRole" "" (ref_Name ref) with
    | Ok (ObjClusterRole r) => role_Rules r
    | _ => []
    end
  else [].

Definition project_binding (store : Reader) (live : gset string) (st : Emitted) (o : Object) : Emitted :=
  match o with
  | ObjRoleBinding rb =>
      let ns := om_Namespace (rb_meta rb) in
      if negb (bool_decide (ns = "")) && negb (bool_decide (ns ∈ live)) then st
      else emit (rb_Subjects rb) ns (roleRefRules store (rb_RoleRef rb) ns) st
  | _ => st
  end.

Definition project_cluster_binding (store : Reader) (st : Emitted) (o : Object) : Emitted :=
  match o with
  | ObjClusterRoleBinding crb =>
      if bool_decide (ref_Kind (rb_RoleRef crb) = "ClusterRole")
      then emit (rb_Subjects crb) "*" (roleRefRules store (rb_RoleRef crb) "") st
      else st
  | _ => st
  end.

(** [rulesFromStore]. *)
Definition rulesFromStore (store : Reader) : result error policy :=
  let* bindings := rd_List store "RoleBinding" in
  let* live := existingNamespaces store in
  let st := foldl (project_binding store live) (∅, mkPolicy [] ∅) bindings in
  let* cbindings := rd_List store "ClusterRoleBinding" in
  Ok (snd (foldl (project_cluster_binding store) st cbindings)).

(** ** The authorizer *)
Section Engine.
Context (Enforce : list Line → Line → result error bool)
  (AddPolicies : list Line → list Line → result error (list Line)).

(** The enforcer's loaded lines and the path grants. *)
Record Casbin := mkCasbin {
  ca_e : list Line;
  ca_paths : gmap string (list nonResourceGrant);
}.

Definition NewCasbin : Casbin := mkCasbin [] ∅.

Definition allowsPath (c : Casbin) (u : Identity) (at_ : AuthAttributes) : bool :=
  if bool_decide (ca_paths c = ∅) then false
  else existsb (λ sub, existsb (λ g, grant_allows g (aa_Verb at_) (aa_Path at_)) (default [] (ca_paths c !! sub)))
         (subjectsOf u).

Fixpoint enforce_any (c : Casbin) (at_ : AuthAttributes) (subs : list string) : result error bool :=
  match subs with
  | [] => Ok false
  | sub :: subs' =>
      let* ok := Enforce (ca_e c) (sub, aa_Namespace at_, aa_Group at_, Target at_, aa_Verb at_) in
      if ok : bool then Ok true else enforce_any c at_ subs'
  end.

Definition Authorize (c : Casbin) (at_ : AuthAttributes) : result error bool :=
  match aa_User at_ with
  | None => Ok false
  | Some u =>
      if isAdmin (id_Groups u) then Ok true
      else if negb (aa_ResourceRequest at_) then Ok (AllowedNonResourcePath (aa_Path at_) || allowsPath c u at_)
      else if nodeAuthorizes at_ || isPublicNamespaceRead at_ then Ok true
      else enforce_any c at_ (subjectsOf u)
  end.

(** [LoadFromStore]: the new state and the error. *)
Definition LoadFromStore (store : Reader) (c : Casbin) : Casbin * option error :=
  match rulesFromStore store with
  | Err e => (c, Some e)
  | Ok p =>
      if (length (po_rules p) =? 0)%nat then (mkCasbin [] (po_paths p), None)
      else match AddPolicies [] (po_rules p) with
           | Err e => (mkCasbin [] (po_paths p), Some e)
           | Ok lines => (mkCasbin lines (po_paths p), None)
           end
  end.
End Engine.

(** ** Namespaces a caller can see *)
Definition selectsNamespaced (sch : list (string * string * bool)) (groups resources : list string) : bool :=
  existsb (λ res,
    if bool_decide (res = "*") then true
    else
      let plural := match GoStrings.cut "/" res with Some (p, _) => p | None => res end in
      existsb (λ '(group, p, namespaced),
        bool_decide (p = plural) && namespaced && (contains "*" groups || contains group groups)) sch) resources.

(** [grantsClusterRead]; [sch] is the (group, plural, namespaced) of each registered
    resource, [None] a nil scheme. *)
Definition grantsClusterRead (sch : option (list (string * string * bool))) (rules : list PolicyRule) : bool :=
  match sch with
  | None => false
  | Some sch =>
      existsb (λ r, negb ((length (pr_APIGroups r) =? 0)%nat || (length (pr_Resources r) =? 0)%nat) &&
        existsb isReadVerb (pr_Verbs r) && selectsNamespaced sch (pr_APIGroups r) (pr_Resources r)) rules
  end.

Definition sees_all (store : Reader) (sch : option (list (string * string * bool))) (id : Identity) (o : Object) : bool :=
  match o with
  | ObjClusterRoleBinding crb =>
      bool_decide (ref_Kind (rb_RoleRef crb) = "ClusterRole") && subjectMatches (rb_Subjects crb) id &&
      grantsClusterRead sch (roleRefRules store (rb_RoleRef crb) "")
  | _ => false
  end.

(** [AccessibleNamespaces]: [None] is every namespace. *)
Definition AccessibleNamespaces (store : Reader) (sch : option (list (string * string * bool)))
    (id : option Identity) : result error (option (gset string)) :=
  match id with
  | None => Ok (Some ∅)
  | Some id =>
      if isAdmin (id_Groups id) then Ok None
      else
        let* crbs := rd_List store "ClusterRoleBinding" in
        if existsb (sees_all store sch id) crbs then Ok None
        else
          let* bindings := rd_List store "RoleBinding" in
          let* live := existingNamespaces store in
          Ok (Some (foldl (λ acc o, match o with
            | ObjRoleBinding rb =>
                let ns := om_Namespace (rb_meta rb) in
                if (bool_decide (ns = "") || bool_decide (ns ∈ live)) && subjectMatches (rb_Subjects rb) id
                then {[ns]} ∪ acc else acc
            | _ => acc
            end) ∅ bindings))
  end.
End Authz.
