(* ===== verification/AuthzFacts.v ===== *)
(** * RBAC semantics and the authorizer's decision

    [allowed] is the declarative reading of the RBAC objects: a binding confers the rules
    of its role on its subjects, in its namespace or everywhere.  [Authorize] over the
    policy projected from a store decides exactly that. *)
From stdpp Require Import gmap strings list.
From Stdlib Require Import ZArith Ascii.
From S2P Require Import Prelude Resources CoreV1 ApiObjects Uids Paths Admission AdmissionFacts Allocation.
From S2P Require Import References Store Authz.

(** ** Subjects *)
Lemma append_inj (p a b : string) : p +:+ a = p +:+ b → a = b.
Proof. induction p as [|c p IH]; [done|]. intros [= H]. by apply IH. Qed.

Lemma subject_in id s :
  subjectString s ≠ "" ∧ subjectString s ∈ subjectsOf id ↔
  (sub_Kind s = "User" ∧ sub_Name s = id_Name id) ∨ (sub_Kind s = "Group" ∧ sub_Name s ∈ id_Groups id).
Proof.
  unfold subjectString, subjectsOf, groupSubjects. rewrite elem_of_cons, list_elem_of_fmap. split.
  - intros [Hne Hin]. case_bool_decide as Hu; [|case_bool_decide as Hg; [|done]].
    + left. split; [done|]. destruct Hin as [H|(g & H & _)]; [by apply append_inj in H|done].
    + right. split; [done|]. destruct Hin as [H|(g & H & Hg')]; [done|]. by apply append_inj in H as ->.
  - intros [[Hk Hn]|[Hk Hn]].
    + rewrite bool_decide_eq_true_2 by done. split; [done|]. left. by rewrite Hn.
    + rewrite bool_decide_eq_false_2, bool_decide_eq_true_2 by (rewrite ?Hk; done).
      split; [done|]. right. eauto.
Qed.

Lemma subjectMatches_spec subjects id :
  subjectMatches subjects id = true ↔
  ∃ s, s ∈ subjects ∧ subjectString s ≠ "" ∧ subjectString s ∈ subjectsOf id.
Proof.
  induction subjects as [|s l IH]; simpl.
  - split; [done|]. by intros (s & ?%elem_of_nil & _).
  - transitivity ((sub_Kind s = "User" ∧ sub_Name s = id_Name id ∨ sub_Kind s = "Group" ∧ sub_Name s ∈ id_Groups id)
      ∨ subjectMatches l id = true).
    + unfold contains. destruct (decide (sub_Kind s = "User")) as [E|E].
      * rewrite E, bool_decide_eq_true_2 by done. case_bool_decide; intuition congruence.
      * rewrite bool_decide_eq_false_2 by done. repeat case_bool_decide; intuition congruence.
    + rewrite IH, <-subject_in. split.
      * intros [?|(s' & ? & ?)]; [exists s; by split; [left|]|exists s'; by split; [right|]].
      * intros (s' & [->|?]%elem_of_cons & ?); [by left|right; eauto].
Qed.

(** ** The projection *)
Abbreviation rules_of st := (po_rules (snd st)).
Abbreviation paths_of st sub := (default [] (po_paths (snd st) !! sub)).

(** The keys seen are those of the lines emitted, each once. *)
Definition seen_ok (st : Emitted) : Prop :=
  (∀ k, k ∈ fst st ↔ ∃ l, l ∈ rules_of st ∧ line_key l = k) ∧ NoDup (line_key <$> rules_of st).

(** [st'] is [st] with the lines [L] (up to key collisions) and the grants [P]. *)
Record adds (L : Line → Prop) (P : string → nonResourceGrant → Prop) (st st' : Emitted) : Prop := {
  ad_seen : seen_ok st';
  ad_sound l : l ∈ rules_of st' → l ∈ rules_of st ∨ L l;
  ad_keep l : l ∈ rules_of st → l ∈ rules_of st';
  ad_complete l : L l → ∃ l', l' ∈ rules_of st' ∧ line_key l' = line_key l;
  ad_paths sub g : g ∈ paths_of st' sub ↔ g ∈ paths_of st sub ∨ P sub g;
}.

Lemma adds_none st : seen_ok st → adds (λ _, False) (λ _ _, False) st st.
Proof. intros. split; try done; naive_solver. Qed.

Lemma adds_app L P L' P' st st1 st2 :
  adds L P st st1 → adds L' P' st1 st2 → adds (λ l, L l ∨ L' l) (λ sub g, P sub g ∨ P' sub g) st st2.
Proof.
  intros [H1 H2 H3 H4 H5] [H1' H2' H3' H4' H5']. split; [done|..].
  - intros l Hl. apply H2' in Hl as [Hl|Hl]; [apply H2 in Hl|]; tauto.
  - auto.
  - intros l [Hl|Hl]; [|auto]. destruct (H4 l Hl) as (l' & Hl' & E). exists l'. auto.
  - intros sub g. rewrite H5', H5. tauto.
Qed.

Lemma adds_iff L P L' P' st st' :
  (∀ l, L l ↔ L' l) → (∀ sub g, P sub g ↔ P' sub g) → adds L P st st' → adds L' P' st st'.
Proof.
  intros HL HP [H1 H2 H3 H4 H5]. split; [done|..].
  - intros l Hl. rewrite <-HL. auto.
  - done.
  - intros l Hl. apply H4. by apply HL.
  - intros sub g. by rewrite H5, HP.
Qed.

(** A loop of additions. *)
Lemma adds_fold {A} (f : Emitted → A → Emitted) L P xs st :
  (∀ st x, seen_ok st → adds (L x) (P x) st (f st x)) → seen_ok st →
  adds (λ l, ∃ x, x ∈ xs ∧ L x l) (λ sub g, ∃ x, x ∈ xs ∧ P x sub g) st (foldl f st xs).
Proof.
  intros Hf. revert st. induction xs as [|x xs IH]; intros st Hs; simpl.
  - eapply adds_iff; [..|by apply adds_none]; intros; (split; [done|]); by intros (x & ?%elem_of_nil & _).
  - eapply adds_iff; [..|eapply adds_app; [by apply Hf|apply IH, (ad_seen _ _ _ _ (Hf st x Hs))]];
      intros; setoid_rewrite elem_of_cons; naive_solver.
Qed.

Lemma adds_line st l : seen_ok st → adds (λ l', l' = l) (λ _ _, False) st (emit_line st l).
Proof.
  intros [Hs Hnd]. destruct st as [seen p]. unfold emit_line. case_bool_decide as Hk.
  - split; try done; [naive_solver..| |naive_solver]. intros l' ->. apply Hs in Hk as (l' & ? & ?). eauto.
  - assert (line_key l ∉ line_key <$> po_rules p) as Hn.
    { intros (l' & E & Hl')%list_elem_of_fmap. apply Hk, Hs. by exists l'. }
    split; simpl.
    + split; simpl.
      * intros k. rewrite elem_of_union, elem_of_singleton, (Hs k). setoid_rewrite elem_of_app.
        setoid_rewrite list_elem_of_singleton. naive_solver.
      * rewrite fmap_app. apply NoDup_app. split_and!; [done| |apply NoDup_singleton].
        intros k Hin [= ->]%list_elem_of_singleton. done.
    + intros l'. rewrite elem_of_app, list_elem_of_singleton. tauto.
    + intros l'. rewrite elem_of_app. tauto.
    + intros l' ->. exists l. rewrite elem_of_app, list_elem_of_singleton. auto.
    + tauto.
Qed.

Definition rule_grant (ns : string) (r : PolicyRule) (g : nonResourceGrant) : Prop :=
  pr_NonResourceURLs r ≠ [] ∧ ns = "*" ∧ g = mkGrant (pr_Verbs r) (pr_NonResourceURLs r).

Lemma adds_rule sub ns st r :
  seen_ok st →
  adds (λ l, l ∈ rule_lines sub ns r) (λ sub' g, sub' = sub ∧ rule_grant ns r g) st (emit_rule sub ns st r).
Proof.
  intros Hs. destruct st as [seen p]. unfold emit_rule.
  set (p' := if _ : bool then _ else p).
  assert (adds (λ _, False) (λ sub' g, sub' = sub ∧ rule_grant ns r g) (seen, p) (seen, p')) as Hp.
  { subst p'. unfold rule_grant. destruct (_ && _) eqn:E.
    - apply andb_true_iff in E as [E1 E2]. rewrite bool_decide_eq_true in E2.
      rewrite negb_true_iff, Nat.eqb_neq in E1.
      assert (pr_NonResourceURLs r ≠ []) as Hne by (by intros H; rewrite H in E1).
      split; simpl; try done; try tauto. intros sub' g. destruct (decide (sub' = sub)) as [->|Hne'].
      + rewrite lookup_insert_eq. simpl. rewrite elem_of_app, list_elem_of_singleton. naive_solver.
      + rewrite lookup_insert_ne by done. naive_solver.
    - split; try done; try tauto. intros sub' g. split; [tauto|]. intros [?|(-> & Hne & -> & _)]; [done|].
      destruct (pr_NonResourceURLs r); [done|]. by rewrite bool_decide_eq_true_2 in E. }
  eapply adds_iff; [..|eapply adds_app; [apply Hp|apply (adds_fold emit_line (λ l l', l' = l) (λ _ _ _, False));
    [intros; by apply adds_line|apply Hp]]]; simpl.
  - intros l. naive_solver.
  - intros sub' g. naive_solver.
Qed.

Lemma adds_emit subjects ns rules st :
  seen_ok st →
  adds (λ l, ∃ s r, s ∈ subjects ∧ subjectString s ≠ "" ∧ r ∈ rules ∧ l ∈ rule_lines (subjectString s) ns r)
       (λ sub g, ∃ s r, s ∈ subjects ∧ subjectString s ≠ "" ∧ sub = subjectString s ∧ r ∈ rules ∧ rule_grant ns r g)
       st (emit subjects ns rules st).
Proof.
  intros Hs. eapply adds_iff; [..|apply (adds_fold (emit_subject ns rules)
    (λ s l, subjectString s ≠ "" ∧ ∃ r, r ∈ rules ∧ l ∈ rule_lines (subjectString s) ns r)
    (λ s sub g, subjectString s ≠ "" ∧ ∃ r, r ∈ rules ∧ sub = subjectString s ∧ rule_grant ns r g)); [|done]];
    [naive_solver..|].
  clear st Hs. intros st s Hs. unfold emit_subject. case_bool_decide as He.
  - eapply adds_iff; [..|by apply adds_none]; naive_solver.
  - eapply adds_iff; [..|apply (adds_fold (emit_rule (subjectString s) ns)
      (λ r l, l ∈ rule_lines (subjectString s) ns r)
      (λ r sub g, sub = subjectString s ∧ rule_grant ns r g)); [intros; by apply adds_rule|done]]; naive_solver.
Qed.

(** ** Declarative semantics *)
Section Semantics.
Context {HQ : Quantity}.
Implicit Types (s : list Object) (id u : Identity).

(** The store as the authorizer reads it. *)
Definition get_object s (kind ns name : string) : result error Object :=
  match List.find (λ o, bool_decide (key o = (kind, ns, name))) s with
  | Some o => Ok o
  | None => Err "not found"
  end.
Definition reader s : Reader := mkReader (listing s) (get_object s).

Definition live_namespace s (ns : string) : Prop := ∃ n, ObjNamespace n ∈ s ∧ nsp_Name n = ns.

(** A binding of [s] confers [rules] on [subjects] within [scope]; ["*"] is every namespace
    and the cluster-scoped objects. *)
Inductive confers s : list Subject → string → list PolicyRule → Prop :=
| confers_role_binding b :
    ObjRoleBinding b ∈ s →
    om_Namespace (rb_meta b) = "" ∨ live_namespace s (om_Namespace (rb_meta b)) →
    confers s (rb_Subjects b) (om_Namespace (rb_meta b))
      (roleRefRules (reader s) (rb_RoleRef b) (om_Namespace (rb_meta b)))
| confers_cluster_role_binding b :
    ObjClusterRoleBinding b ∈ s → ref_Kind (rb_RoleRef b) = "ClusterRole" →
    confers s (rb_Subjects b) "*" (roleRefRules (reader s) (rb_RoleRef b) "").

(** An entry of a rule covers a value. *)
Definition covers (entries : list string) (x : string) : Prop := "*" ∈ entries ∨ x ∈ entries.

Definition holds_resource s id (at_ : AuthAttributes) : Prop :=
  ∃ subjects scope rules r, confers s subjects scope rules ∧ subjectMatches subjects id = true ∧
    (scope = "*" ∨ scope = aa_Namespace at_) ∧ r ∈ rules ∧
    covers (pr_APIGroups r) (aa_Group at_) ∧ covers (pr_Resources r) (Target at_) ∧ covers (pr_Verbs r) (aa_Verb at_).

Definition holds_path s id (at_ : AuthAttributes) : Prop :=
  ∃ subjects rules r, confers s subjects "*" rules ∧ subjectMatches subjects id = true ∧ r ∈ rules ∧
    covers (pr_Verbs r) (aa_Verb at_) ∧ ∃ url, url ∈ pr_NonResourceURLs r ∧ matchesPath url (aa_Path at_) = true.

Definition allowed s (at_ : AuthAttributes) : Prop :=
  ∃ u, aa_User at_ = Some u ∧
    (isAdmin (id_Groups u) = true ∨
     (aa_ResourceRequest at_ = false ∧ (AllowedNonResourcePath (aa_Path at_) = true ∨ holds_path s u at_)) ∨
     (aa_ResourceRequest at_ = true ∧
        (nodeAuthorizes at_ = true ∨ isPublicNamespaceRead at_ = true ∨ holds_resource s u at_))).

(** The strings of the lines carry no NUL, the separator of the projection's keys. *)
Definition nul_free_line (l : Line) : Prop :=
  let '(sub, ns, g, res, verb) := l in
  Forall (λ x, GoStrings.no_char Ascii.zero x = true) [sub; ns; g; res; verb].

Definition granted_line s (l : Line) : Prop :=
  ∃ subjects scope rules subj r, confers s subjects scope rules ∧ subj ∈ subjects ∧ subjectString subj ≠ "" ∧
    r ∈ rules ∧ l ∈ rule_lines (subjectString subj) scope r.

Definition nul_free s : Prop := ∀ l, granted_line s l → nul_free_line l.

Lemma nul_sep_inj a b x y :
  GoStrings.no_char Ascii.zero a = true → GoStrings.no_char Ascii.zero b = true →
  a +:+ String Ascii.zero x = b +:+ String Ascii.zero y → a = b ∧ x = y.
Proof.
  intros Ha Hb E. pose proof (GoStrings.cut_app Ascii.zero a x Ha) as H1.
  rewrite E, GoStrings.cut_app in H1 by done. by simplify_eq.
Qed.

Lemma line_key_inj l l' : nul_free_line l → nul_free_line l' → line_key l = line_key l' → l = l'.
Proof.
  destruct l as [[[[a b] c] d] e], l' as [[[[a' b'] c'] d'] e'].
  unfold nul_free_line, line_key. rewrite !Forall_cons. intros (?&?&?&?&?&_) (?&?&?&?&?&_) E.
  apply nul_sep_inj in E as [-> E]; [|done..]. apply nul_sep_inj in E as [-> E]; [|done..].
  apply nul_sep_inj in E as [-> E]; [|done..]. by apply nul_sep_inj in E as [-> ->].
Qed.

Lemma existing_spec s : ∃ live, existingNamespaces (reader s) = Ok live ∧ ∀ ns, ns ∈ live ↔ live_namespace s ns.
Proof.
  eexists. split; [done|]. intros ns. unfold live_namespace.
  assert (∀ (os : list Object) (acc : gset string), ns ∈ foldl (λ live (o : Object), match o with ObjNamespace n => {[nsp_Name n]} ∪ live | _ => live end) acc os
    ↔ ns ∈ acc ∨ ∃ n, ObjNamespace n ∈ os ∧ nsp_Name n = ns) as Hgen.
  { induction os as [|o os IH]; intros acc; simpl.
    - split; [by left|]. intros [?|(n & ?%elem_of_nil & _)]; done.
    - rewrite IH. setoid_rewrite elem_of_cons. destruct o; set_solver. }
  rewrite Hgen. setoid_rewrite listing_elem. set_solver.
Qed.

(** ** What the projection of a store holds *)
(** What one listed binding adds. *)
Definition binding_adds s (o : Object) (subjects : list Subject) (scope : string) (rules : list PolicyRule) : Prop :=
  match o with
  | ObjRoleBinding b =>
      (om_Namespace (rb_meta b) = "" ∨ live_namespace s (om_Namespace (rb_meta b))) ∧
      subjects = rb_Subjects b ∧ scope = om_Namespace (rb_meta b) ∧
      rules = roleRefRules (reader s) (rb_RoleRef b) (om_Namespace (rb_meta b))
  | ObjClusterRoleBinding b =>
      ref_Kind (rb_RoleRef b) = "ClusterRole" ∧ subjects = rb_Subjects b ∧ scope = "*" ∧
      rules = roleRefRules (reader s) (rb_RoleRef b) ""
  | _ => False
  end.

Lemma confers_iff s subjects scope rules :
  confers s subjects scope rules ↔ ∃ o, o ∈ s ∧ binding_adds s o subjects scope rules.
Proof.
  split.
  - intros [b Hin Hl|b Hin Hk]; [exists (ObjRoleBinding b)|exists (ObjClusterRoleBinding b)]; by split_and!.
  - intros ([] & Hin & Hb); try done.
    + destruct Hb as (? & -> & -> & ->). by apply confers_role_binding.
    + destruct Hb as (? & -> & -> & ->). by apply confers_cluster_role_binding.
Qed.

Definition added_lines s (o : Object) (l : Line) : Prop :=
  ∃ subjects scope rules sj r, binding_adds s o subjects scope rules ∧ sj ∈ subjects ∧ subjectString sj ≠ "" ∧
    r ∈ rules ∧ l ∈ rule_lines (subjectString sj) scope r.
Definition added_paths s (o : Object) (sub : string) (g : nonResourceGrant) : Prop :=
  ∃ subjects scope rules sj r, binding_adds s o subjects scope rules ∧ sj ∈ subjects ∧ subjectString sj ≠ "" ∧
    sub = subjectString sj ∧ r ∈ rules ∧ rule_grant scope r g.

Lemma adds_skip s o st :
  seen_ok st → (∀ subjects scope rules, ¬ binding_adds s o subjects scope rules) →
  adds (added_lines s o) (added_paths s o) st st.
Proof.
  intros Hs Hn. eapply adds_iff; [..|by apply adds_none]; intros; (split; [done|]);
    intros (? & ? & ? & ? & ? & H & _); by apply Hn in H.
Qed.

Lemma adds_one s o subjects scope rules st :
  seen_ok st → (∀ a b c, binding_adds s o a b c ↔ a = subjects ∧ b = scope ∧ c = rules) →
  adds (added_lines s o) (added_paths s o) st (emit subjects scope rules st).
Proof.
  intros Hs Hiff. eapply adds_iff; [..|by apply adds_emit]; intros; unfold added_lines, added_paths;
    setoid_rewrite Hiff; naive_solver.
Qed.

Lemma adds_binding s live o st :
  (∀ ns, ns ∈ live ↔ live_namespace s ns) → seen_ok st → obj_Kind o = "RoleBinding" →
  adds (added_lines s o) (added_paths s o) st (project_binding (reader s) live st o).
Proof.
  intros Hlive Hs Hk. destruct o as [| | | | | | | |b| | |]; try done. unfold project_binding. cbv zeta.
  destruct (_ && _) eqn:E.
  - apply andb_true_iff in E as [E1 E2]. rewrite negb_true_iff, bool_decide_eq_false in E1, E2.
    rewrite Hlive in E2. apply adds_skip; [done|]. simpl. tauto.
  - apply adds_one; [done|]. intros x y z. simpl. rewrite <-Hlive.
    apply andb_false_iff in E as [E|E]; rewrite negb_false_iff, bool_decide_eq_true in E; tauto.
Qed.

Lemma adds_cluster_binding s o st :
  seen_ok st → obj_Kind o = "ClusterRoleBinding" →
  adds (added_lines s o) (added_paths s o) st (project_cluster_binding (reader s) st o).
Proof.
  intros Hs Hk. destruct o as [| | | | | | | | | |b|]; try done. unfold project_cluster_binding.
  case_bool_decide; [apply adds_one|apply adds_skip]; simpl; naive_solver.
Qed.

(** A loop over the listed objects of a Kind. *)
Lemma adds_listed s (f : Emitted → Object → Emitted) kind st :
  (∀ st o, seen_ok st → obj_Kind o = kind → adds (added_lines s o) (added_paths s o) st (f st o)) → seen_ok st →
  adds (λ l, ∃ o, (o ∈ s ∧ obj_Kind o = kind) ∧ added_lines s o l)
       (λ sub g, ∃ o, (o ∈ s ∧ obj_Kind o = kind) ∧ added_paths s o sub g)
       st (foldl f st (List.filter (λ o, bool_decide (obj_Kind o = kind)) s)).
Proof.
  intros Hf Hs.
  assert (∀ os st, (∀ o, o ∈ os → obj_Kind o = kind) → seen_ok st →
    adds (λ l, ∃ o, o ∈ os ∧ added_lines s o l) (λ sub g, ∃ o, o ∈ os ∧ added_paths s o sub g) st (foldl f st os)) as Hgen.
  { clear st Hs. induction os as [|o os IH]; intros st Hos Hs; simpl.
    - eapply adds_iff; [..|by apply adds_none]; intros; (split; [done|]); by intros (x & ?%elem_of_nil & _).
    - assert (adds (added_lines s o) (added_paths s o) st (f st o)) as Ho by (apply Hf; [done|apply Hos; left]).
      eapply adds_iff; [..|eapply adds_app; [apply Ho|apply IH; [intros; apply Hos; by right|apply Ho]]];
        intros; setoid_rewrite elem_of_cons; naive_solver. }
  eapply adds_iff; [..|apply Hgen; [by intros o [_ ?]%listing_elem|done]];
    intros; simpl; setoid_rewrite listing_elem; done.
Qed.

Lemma project_spec s :
  ∃ p, rulesFromStore (reader s) = Ok p ∧ NoDup (po_rules p) ∧
    (∀ l, l ∈ po_rules p → granted_line s l) ∧
    (∀ l, granted_line s l → ∃ l', l' ∈ po_rules p ∧ line_key l' = line_key l) ∧
    (∀ sub g, g ∈ default [] (po_paths p !! sub) ↔
      ∃ subjects scope rules subj r, confers s subjects scope rules ∧ subj ∈ subjects ∧ subjectString subj ≠ "" ∧
        sub = subjectString subj ∧ r ∈ rules ∧ rule_grant scope r g).
Proof.
  unfold rulesFromStore. destruct (existing_spec s) as (live & -> & Hlive). cbn [rd_List reader listing].
  eexists. split; [reflexivity|]. set (st0 := (∅, mkPolicy [] ∅) : Emitted).
  assert (seen_ok st0) as H0.
  { split; [|apply NoDup_nil_2]. intros k. split; [by intros ?%elem_of_empty|]. by intros (l & ?%elem_of_nil & _). }
  pose proof (adds_listed s (project_binding (reader s) live) "RoleBinding" st0
    (λ st o Hs Hk, adds_binding s live o st Hlive Hs Hk) H0) as Hb.
  pose proof (adds_listed s (project_cluster_binding (reader s)) "ClusterRoleBinding" _
    (λ st o Hs Hk, adds_cluster_binding s o st Hs Hk) (ad_seen _ _ _ _ Hb)) as Hc.
  assert (∀ o a b c, binding_adds s o a b c → obj_Kind o = "RoleBinding" ∨ obj_Kind o = "ClusterRoleBinding") as Hkind.
  { intros [] ???; simpl; tauto. }
  destruct (adds_app _ _ _ _ _ _ _ Hb Hc) as [Hseen Hsound _ Hcomplete Hpaths]. clear Hb Hc.
  unfold granted_line. setoid_rewrite confers_iff. split_and!.
  - apply (NoDup_fmap_1 line_key). apply Hseen.
  - intros l Hl. apply Hsound in Hl as [?%elem_of_nil|[Hl|Hl]]; [done|..]; unfold added_lines in Hl; naive_solver.
  - intros l (subjects & scope & rules & sj & r & (o & Ho & Hadd) & Hr). apply Hcomplete. unfold added_lines.
    destruct (Hkind _ _ _ _ Hadd); [left|right]; exists o; split; [done|by eexists _, _, _, _, _|done|by eexists _, _, _, _, _].
  - intros sub g. rewrite Hpaths. cbn [snd st0 po_paths]. rewrite lookup_empty. simpl. rewrite elem_of_nil. split.
    + unfold added_paths. naive_solver.
    + intros (subjects & scope & rules & sj & r & (o & Ho & Hadd) & Hr). right. unfold added_paths.
      destruct (Hkind _ _ _ _ Hadd); [left|right]; exists o; split; [done|by eexists _, _, _, _, _|done|by eexists _, _, _, _, _].
Qed.
End Semantics.
