(* ===== verification/Escalation.v ===== *)
(** * Plugins that ask what the author of a write may do

    rbac_rules.go, rbac_escalation.go, secret_access.go and service_join.go: an author may
    grant only what it holds, mount only a Secret it can read, join only a Service it can
    read.  The [Authorizer] is an interface of the plugins: a decision procedure that may
    fail. *)
From stdpp Require Import gmap strings list.
From Stdlib Require Import ZArith Ascii.
From S2P Require Import Prelude Resources CoreV1 ApiObjects Uids Paths Admission Authz.

Abbreviation Authorizer := (option (AuthAttributes → result error bool)).

Section Plugins.
Context {HQ : Quantity}.

(** A loop that returns its first error. *)
Definition first_error {A} (f : A → option AdmissionError) : list A → option AdmissionError :=
  fix go (l : list A) : option AdmissionError :=
    match l with [] => None | x :: l' => check* f x in go l' end.

Lemma first_error_None {A} (f : A → option AdmissionError) l :
  first_error f l = None ↔ ∀ x, x ∈ l → f x = None.
Proof.
  induction l as [|x l IH]; simpl.
  - split; [|done]. by intros _ x ?%elem_of_nil.
  - destruct (f x) eqn:E.
    + split; [done|]. intros H. rewrite H in E; [done|left].
    + rewrite IH. split; [|intros H y Hy; apply H; by right]. intros H y [->|Hy]%elem_of_cons; auto.
Qed.

(** ** rbac_rules.go *)
Definition rule_ok (namespaced : bool) (i : nat) (rule : PolicyRule) : option AdmissionError :=
  let groups := negb (length (pr_APIGroups rule) =? 0)%nat in
  let res := negb (length (pr_Resources rule) =? 0)%nat in
  let resources := groups || res in
  let paths := negb (length (pr_NonResourceURLs rule) =? 0)%nat in
  if resources && paths then Some (ERule i "a rule grants resources or nonResourceURLs, not both")
  else if negb resources && negb paths then Some (ERule i "a rule must name resources or nonResourceURLs")
  else if resources && (negb groups || negb res)
  then Some (ERule i "a resource rule needs both apiGroups and resources")
  else if (length (pr_Verbs rule) =? 0)%nat then Some (ERule i "a rule with no verbs grants nothing")
  else if paths && namespaced then Some (ERule i "a request path is not in any namespace")
  else first_error (λ u, if negb (bool_decide (u = "*")) && negb (GoStrings.has_prefix "/" u)
         then Some (ERule i "not a request path") else None) (pr_NonResourceURLs rule).

Fixpoint rules_ok (namespaced : bool) (i : nat) (rules : list PolicyRule) : option AdmissionError :=
  match rules with
  | [] => None
  | r :: rules' => check* rule_ok namespaced i r in rules_ok namespaced (S i) rules'
  end.

Definition rbacRules_Validate (ctx : Ctx) (a : Attributes) : option AdmissionError :=
  if bool_decide (at_Operation a = Delete) || IsSubresource a then None
  else match at_Object a with
       | ObjRole r => rules_ok true 0 (role_Rules r)
       | ObjClusterRole r => rules_ok false 0 (role_Rules r)
       | _ => None
       end.
Definition rbacRules : Plugin := mkPlugin no_admit rbacRules_Validate.

(** ** rbac_escalation.go *)
Definition maxEscalationTuples : Z := 10000.

Definition rule_tuples (acc : Z) (r : PolicyRule) : Z :=
  let len {A} (l : list A) := Z.of_nat (length l) in
  let acc := wrap64 (acc + Z.max (len (pr_APIGroups r)) 1 * Z.max (len (pr_Resources r)) 1 * Z.max (len (pr_Verbs r)) 1) in
  wrap64 (acc + len (pr_NonResourceURLs r) * Z.max (len (pr_Verbs r)) 1).

Definition ask (authorize : AuthAttributes → result error bool) (q : AuthAttributes) (refused : AdmissionError)
    : option AdmissionError :=
  match authorize q with
  | Err e => Some (EAuthorize e)
  | Ok true => None
  | Ok false => Some refused
  end.

Definition path_query (id : Identity) (verb url : string) : AuthAttributes :=
  mkAuthAttributes (Some id) verb "" "" "" "" "" false url.
Definition resource_query (id : Identity) (namespace group res verb : string) : AuthAttributes :=
  mkAuthAttributes (Some id) verb group res namespace "" "" true "".

Definition check_path (authorize : AuthAttributes → result error bool) (id : Identity) (uv : string * string)
    : option AdmissionError :=
  let '(url, verb) := uv in
  if bool_decide (verb = "*") || has_star url then Some (FWildcardPath verb url)
  else ask authorize (path_query id verb url) (FEscalatePath verb url).

Definition check_resource (authorize : AuthAttributes → result error bool) (id : Identity) (namespace : string)
    (t : string * string * string) : option AdmissionError :=
  let '(g, res, verb) := t in
  if bool_decide (g = "*") || bool_decide (res = "*") || bool_decide (verb = "*") then Some (FWildcard g res verb)
  else ask authorize (resource_query id namespace g res verb) (FEscalate verb g res namespace).

Definition rule_paths (r : PolicyRule) : list (string * string) :=
  url ← pr_NonResourceURLs r; verb ← pr_Verbs r; [(url, verb)].
Definition rule_resources (r : PolicyRule) : list (string * string * string) :=
  g ← pr_APIGroups r; res ← pr_Resources r; verb ← pr_Verbs r; [(g, res, verb)].

(** [rbacEscalation.check]. *)
Definition escalation_check (authorize : AuthAttributes → result error bool) (id : Identity) (namespace : string)
    (rules : list PolicyRule) : option AdmissionError :=
  let tuples := foldl rule_tuples 0%Z rules in
  if (maxEscalationTuples <? tuples)%Z then Some (FTooManyTuples tuples)
  else first_error (λ r,
    check* first_error (check_path authorize id) (rule_paths r) in
    first_error (check_resource authorize id namespace) (rule_resources r)) rules.

(** The first listed object [f] picks. *)
Fixpoint find_rules (f : Object → option (list PolicyRule)) (os : list Object) : list PolicyRule :=
  match os with
  | [] => []
  | o :: os' => match f o with Some rules => rules | None => find_rules f os' end
  end.

Definition listed (l : string → result error (list Object)) (kind : string) : list Object :=
  match l kind with Ok os => os | Err _ => [] end.

(** [referencedRules]. *)
Definition referencedRules (lister : Lister) (ref : RoleRef) (ns : string) : list PolicyRule :=
  match lister with
  | None => []
  | Some l =>
      if bool_decide (ref_Kind ref = "Role") then
        find_rules (λ o, match o with
          | ObjRole r => if bool_decide (om_Name (role_meta r) = ref_Name ref) &&
                            bool_decide (om_Namespace (role_meta r) = ns) then Some (role_Rules r) else None
          | _ => None end) (listed l "Role")
      else if bool_decide (ref_Kind ref = "ClusterRole") then
        find_rules (λ o, match o with
          | ObjClusterRole r => if bool_decide (om_Name (role_meta r) = ref_Name ref) then Some (role_Rules r) else None
          | _ => None end) (listed l "ClusterRole")
      else []
  end.

(** The rules a write grants and the namespace they are judged in. *)
Definition granted_by (lister : Lister) (o : Object) : option (string * list PolicyRule) :=
  match o with
  | ObjRole r => Some (om_Namespace (role_meta r), role_Rules r)
  | ObjClusterRole r => Some ("", role_Rules r)
  | ObjRoleBinding b =>
      let ns := om_Namespace (rb_meta b) in Some (ns, referencedRules lister (rb_RoleRef b) ns)
  | ObjClusterRoleBinding b => Some ("", referencedRules lister (rb_RoleRef b) "")
  | _ => None
  end.

Definition rbacEscalation_Validate (authorizer : Authorizer) (lister : Lister) (ctx : Ctx) (a : Attributes)
    : option AdmissionError :=
  match authorizer with
  | None => None
  | Some authorize =>
      if bool_decide (at_Operation a = Delete) || IsSubresource a then None
      else match ctx with
           | None => None
           | Some id =>
               if contains AdminGroup (id_Groups id) then None
               else match granted_by lister (at_Object a) with
                    | None => None
                    | Some (namespace, rules) => escalation_check authorize id namespace rules
                    end
           end
  end.
Definition rbacEscalation (authorizer : Authorizer) (lister : Lister) : Plugin :=
  mkPlugin no_admit (rbacEscalation_Validate authorizer lister).

(** ** secret_access.go *)
Definition maxSecretRefs : nat := 64.

(** [secretRefs] of secret_access.go. *)
Definition env_secrets (env : list EnvVar) : list string :=
  omap (λ e, match ev_SecretRef e with
             | Some r => if bool_decide (esr_Name r = "") then None else Some (esr_Name r)
             | None => None end) env.
Definition volume_secrets (vs : list VolumeMount) : list string :=
  omap (λ v, if IsSecret v && negb (bool_decide (vs_Name (vm_Volume v) = ""))
             then Some (vs_Name (vm_Volume v)) else None) vs.
Definition access_secretRefs (env : list EnvVar) (vs : list VolumeMount) : list string :=
  env_secrets env ++ volume_secrets vs.

(** [slices.Compact]. *)
Fixpoint compact (l : list string) : list string :=
  match l with
  | x :: (y :: _) as l' => if bool_decide (x = y) then compact l' else x :: compact l'
  | _ => l
  end.

Definition secrets_named (o : Object) : option (string * list string) :=
  match o with
  | ObjApplication app =>
      Some (app_Namespace app, access_secretRefs (sp_Env (app_Spec app)) (sp_Volumes (app_Spec app)))
  | ObjApplicationSet set =>
      let sp := aset_Spec set in
      Some (om_Namespace (aset_meta set),
        access_secretRefs (com_Env (ass_Common sp)) (com_Volumes (ass_Common sp)) ++
        (child ← ass_Applications sp; access_secretRefs (sp_Env (nas_Spec child)) (sp_Volumes (nas_Spec child))))
  | _ => None
  end.

Definition secretAccess_Validate (authorizer : Authorizer) (ctx : Ctx) (a : Attributes) : option AdmissionError :=
  match authorizer with
  | None => None
  | Some authorize =>
      if bool_decide (at_Operation a = Delete) || IsSubresource a then None
      else match ctx with
           | None => None
           | Some id =>
               if contains AdminGroup (id_Groups id) then None
               else match secrets_named (at_Object a) with
                    | None => None
                    | Some (namespace, names) =>
                        let names := compact (sort_stable String.ltb names) in
                        if (maxSecretRefs <? length names)%nat then Some (FTooManySecrets (length names))
                        else first_error (λ name, ask authorize
                          (mkAuthAttributes (Some id) "get" core_GroupName "secrets" namespace name "" true "")
                          (FSecretAccess name namespace)) names
                    end
           end
  end.
Definition secretAccess (authorizer : Authorizer) : Plugin :=
  mkPlugin no_admit (secretAccess_Validate authorizer).

(** ** service_join.go *)
Definition join_check (authorize : AuthAttributes → result error bool) (id : Identity) (namespace service : string)
    : option AdmissionError :=
  if bool_decide (service = "") then None
  else ask authorize (mkAuthAttributes (Some id) "get" core_GroupName "services" namespace service "" true "")
         (FServiceJoin service namespace).

Definition serviceJoin_Validate (authorizer : Authorizer) (ctx : Ctx) (a : Attributes) : option AdmissionError :=
  match authorizer with
  | None => None
  | Some authorize =>
      if bool_decide (at_Operation a = Delete) || IsSubresource a then None
      else match ctx with
           | None => None
           | Some id =>
               if contains AdminGroup (id_Groups id) then None
               else match at_Object a with
                    | ObjApplication app =>
                        join_check authorize id (app_Namespace app) (sp_ServiceName (app_Spec app))
                    | ObjApplicationSet set =>
                        first_error (λ child, join_check authorize id (om_Namespace (aset_meta set))
                          (sp_ServiceName (nas_Spec child))) (ass_Applications (aset_Spec set))
                    | _ => None
                    end
           end
  end.
Definition serviceJoin (authorizer : Authorizer) : Plugin :=
  mkPlugin no_admit (serviceJoin_Validate authorizer).

(** [WithEscalationCheck]. *)
Definition WithEscalationCheck (chain : list Plugin) (authorizer : Authorizer) (lister : Lister) : list Plugin :=
  match authorizer with
  | None => chain
  | Some _ => chain ++ [rbacEscalation authorizer lister; secretAccess authorizer; serviceJoin authorizer]
  end.
End Plugins.
