(* ===== verification/AuthzTheorems.v ===== *)
(** * The authorizer decides RBAC, and no write grants what its author lacks

    [Authorize], over the policy loaded from a store, decides [allowed]; a caller shown
    every namespace may read in every one; and a Role, ClusterRole or binding the admission
    chain accepts hands nobody anything its author does not hold. *)
From stdpp Require Import gmap strings list.
From Stdlib Require Import ZArith Ascii.
From S2P Require Import Prelude Resources CoreV1 ApiObjects Uids Paths Admission AdmissionFacts Allocation.
From S2P Require Import References Store Authz AuthzFacts Escalation.

(** What the code relies on of the Casbin engine: a request passes when some loaded line
    satisfies the model's matcher, and distinct lines load into an empty policy. *)
Class CasbinEngine (Enforce : list Line → Line → result error bool)
    (AddPolicies : list Line → list Line → result error (list Line)) : Prop := {
  Enforce_matcher pol r : Enforce pol r = Ok (existsb (rbac_matcher r) pol);
  AddPolicies_distinct rules : NoDup rules → AddPolicies [] rules = Ok rules;
}.

Section Decision.
Context {HQ : Quantity}.
Context {Enforce : list Line → Line → result error bool}
  {AddPolicies : list Line → list Line → result error (list Line)} `{!CasbinEngine Enforce AddPolicies}.
Implicit Types (s : list Object) (id u : Identity) (q : AuthAttributes).

(** The authorizer after loading [s]. *)
Definition loaded s : Casbin := (LoadFromStore AddPolicies (reader s) NewCasbin).1.

Lemma loaded_spec s :
  ∃ p, loaded s = mkCasbin (po_rules p) (po_paths p) ∧ rulesFromStore (reader s) = Ok p ∧
    (LoadFromStore AddPolicies (reader s) NewCasbin).2 = None.
Proof.
  destruct (project_spec s) as (p & Hp & Hnd & _). exists p. unfold loaded, LoadFromStore. rewrite Hp.
  destruct (Nat.eqb_spec (length (po_rules p)) 0) as [E|_].
  - apply nil_length_inv in E. by rewrite E.
  - by rewrite AddPolicies_distinct.
Qed.

Lemma Ok_inj {E A} (a b : A) : Ok (E := E) a = Ok b → a = b.
Proof. congruence. Qed.

Lemma wild_spec p r : wild p r = true ↔ p = "*" ∨ r = p.
Proof. unfold wild. by rewrite orb_true_iff, !bool_decide_eq_true. Qed.

Lemma enforce_any_spec c q subs :
  enforce_any Enforce c q subs = Ok (existsb (λ sub, existsb (rbac_matcher (sub, aa_Namespace q, aa_Group q, Target q, aa_Verb q)) (ca_e c)) subs).
Proof.
  induction subs as [|sub subs IH]; simpl; [done|]. rewrite Enforce_matcher.
  destruct (existsb _ (ca_e c)); simpl; [done|apply IH].
Qed.

Lemma rule_lines_elem sub ns r l :
  l ∈ rule_lines sub ns r ↔
  ∃ g res verb, l = (sub, ns, g, res, verb) ∧ g ∈ pr_APIGroups r ∧ res ∈ pr_Resources r ∧ verb ∈ pr_Verbs r.
Proof.
  unfold rule_lines. rewrite list_elem_of_bind. setoid_rewrite list_elem_of_bind. setoid_rewrite list_elem_of_bind.
  setoid_rewrite list_elem_of_singleton. naive_solver.
Qed.

(** A request a line answers, in terms of the rule the line came from. *)
Lemma matcher_rule sub ns r q :
  (∃ l, l ∈ rule_lines sub ns r ∧ rbac_matcher (sub, aa_Namespace q, aa_Group q, Target q, aa_Verb q) l = true) ↔
  (ns = "*" ∨ ns = aa_Namespace q) ∧ covers (pr_APIGroups r) (aa_Group q) ∧
    covers (pr_Resources r) (Target q) ∧ covers (pr_Verbs r) (aa_Verb q).
Proof.
  setoid_rewrite rule_lines_elem. unfold covers. split.
  - intros (l & (g & res & verb & -> & Hg & Hr & Hv) & Hm). simpl in Hm.
    rewrite !andb_true_iff, !wild_spec in Hm. destruct Hm as [[[[_ H1] H2] H3] H4].
    split_and!; [naive_solver|destruct H2; subst; auto|destruct H3; subst; auto|destruct H4; subst; auto].
  - intros (H1 & H2 & H3 & H4).
    assert (∀ (l : list string) x, "*" ∈ l ∨ x ∈ l → ∃ y, y ∈ l ∧ (y = "*" ∨ x = y)) as Hex by naive_solver.
    destruct (Hex _ _ H2) as (g & ? & ?), (Hex _ _ H3) as (res & ? & ?), (Hex _ _ H4) as (verb & ? & ?).
    exists (sub, ns, g, res, verb). split; [by eauto 10|]. simpl.
    rewrite !andb_true_iff, !wild_spec, bool_decide_eq_true. naive_solver.
Qed.

Lemma holds_resource_lines s id q :
  holds_resource s id q ↔
  ∃ l sub, granted_line s l ∧ sub ∈ subjectsOf id ∧
    rbac_matcher (sub, aa_Namespace q, aa_Group q, Target q, aa_Verb q) l = true.
Proof.
  unfold holds_resource, granted_line. split.
  - intros (subjects & scope & rules & r & Hc & (sj & Hin & Hne & Hsub)%subjectMatches_spec & Hsc & Hr & Hcov).
    destruct (proj2 (matcher_rule (subjectString sj) scope r q)) as (l & Hl & Hm); [tauto|].
    exists l, (subjectString sj). split_and!; [|done..]. by exists subjects, scope, rules, sj, r.
  - intros (l & sub & (subjects & scope & rules & sj & r & Hc & Hin & Hne & Hr & Hl) & Hsub & Hm).
    assert (sub = subjectString sj) as ->.
    { apply rule_lines_elem in Hl as (? & ? & ? & -> & _). simpl in Hm. rewrite !andb_true_iff, bool_decide_eq_true in Hm. tauto. }
    destruct (proj1 (matcher_rule (subjectString sj) scope r q)) as (Hsc & Hcov); [by eauto|].
    exists subjects, scope, rules, r. split_and!; try tauto. apply subjectMatches_spec. eauto.
Qed.

Lemma grant_allows_spec g verb path :
  grant_allows g verb path = true ↔ covers (g_verbs g) verb ∧ ∃ url, url ∈ g_urls g ∧ matchesPath url path = true.
Proof.
  unfold grant_allows, covers, contains. rewrite <-existsb_elem.
  destruct (decide (verb ∈ g_verbs g)), (decide ("*" ∈ g_verbs g));
    rewrite ?(bool_decide_eq_true_2 (verb ∈ _)), ?(bool_decide_eq_false_2 (verb ∈ _)),
      ?(bool_decide_eq_true_2 ("*" ∈ _)), ?(bool_decide_eq_false_2 ("*" ∈ _)) by done; simpl; intuition congruence.
Qed.

Lemma allowsPath_spec s id q : allowsPath (loaded s) id q = true ↔ holds_path s id q.
Proof.
  destruct (loaded_spec s) as (p & -> & Hp & _).
  destruct (project_spec s) as (p' & Hp' & _ & _ & _ & Hpaths). rewrite Hp in Hp'. injection Hp' as <-.
  transitivity (∃ sub g, sub ∈ subjectsOf id ∧ g ∈ default [] (po_paths p !! sub) ∧ grant_allows g (aa_Verb q) (aa_Path q) = true).
  - unfold allowsPath. cbn [ca_paths]. case_bool_decide as He.
    + rewrite He. split; [done|]. intros (sub & g & _ & Hg & _). rewrite lookup_empty in Hg. by apply elem_of_nil in Hg.
    + rewrite existsb_elem. setoid_rewrite existsb_elem. naive_solver.
  - setoid_rewrite Hpaths. setoid_rewrite grant_allows_spec. unfold holds_path, rule_grant. split.
    + intros (sub & g & Hsub & (subjects & scope & rules & sj & r & Hc & Hin & Hne & -> & Hr & Hnn & -> & ->) & Hv & url & Hu).
      exists subjects, rules, r. split_and!; try done; [apply subjectMatches_spec; by eauto|by eauto].
    + intros (subjects & rules & r & Hc & (sj & Hin & Hne & Hsub)%subjectMatches_spec & Hr & Hv & url & Hu & Hm).
      exists (subjectString sj), (mkGrant (pr_Verbs r) (pr_NonResourceURLs r)). split_and!; try done; [|by eauto].
      exists subjects, "*", rules, sj, r. split_and!; try done. by intros E; rewrite E in Hu; apply elem_of_nil in Hu.
Qed.

(** Nothing beyond what the RBAC objects grant, whatever the strings in them. *)
Lemma authorize_sound s q : Authorize Enforce (loaded s) q = Ok true → allowed s q.
Proof.
  unfold Authorize, allowed. destruct (aa_User q) as [u|]; [|done]. intros H. exists u. split; [done|].
  destruct (isAdmin (id_Groups u)); [by left|]. right.
  destruct (aa_ResourceRequest q); cbn [negb] in H; [right|left]; (split; [done|]).
  - destruct (nodeAuthorizes q); [by left|]. destruct (isPublicNamespaceRead q); [by right; left|]. right. right.
    cbn [orb] in H. rewrite enforce_any_spec in H. apply Ok_inj in H. apply existsb_elem in H as (sub & Hsub & H).
    apply existsb_elem in H as (l & Hl & Hm). apply holds_resource_lines. exists l, sub. split_and!; try done.
    destruct (loaded_spec s) as (p & E & Hp & _). rewrite E in Hl.
    destruct (project_spec s) as (p' & Hp' & _ & Hs & _). rewrite Hp in Hp'. injection Hp' as <-. by apply Hs.
  - injection H as H. apply orb_true_iff in H as [H|H]; [by left|right]. by apply allowsPath_spec.
Qed.

Lemma authorize_complete s q : nul_free s → allowed s q → Authorize Enforce (loaded s) q = Ok true.
Proof.
  intros Hnul (u & Hu & H). unfold Authorize. rewrite Hu. destruct (isAdmin (id_Groups u)); [done|].
  destruct H as [H|[[-> H]|[-> H]]]; [done|..]; cbn [negb].
  - f_equal. apply orb_true_iff. destruct H as [H|H]; [by left|right]. by apply allowsPath_spec.
  - destruct (nodeAuthorizes q); [done|]. destruct (isPublicNamespaceRead q); [done|]. cbn [orb].
    destruct H as [?|[?|H]]; [done|done|]. rewrite enforce_any_spec. f_equal. apply existsb_elem.
    apply holds_resource_lines in H as (l & sub & Hl & Hsub & Hm). exists sub. split; [done|]. apply existsb_elem.
    destruct (loaded_spec s) as (p & -> & Hp & _). destruct (project_spec s) as (p' & Hp' & _ & Hs & Hc & _).
    rewrite Hp in Hp'. injection Hp' as <-. destruct (Hc l Hl) as (l' & Hin & E).
    apply line_key_inj in E as ->; [|apply Hnul; by apply Hs|by apply Hnul]. by exists l.
Qed.

Lemma authorize_total s q : ∃ b, Authorize Enforce (loaded s) q = Ok b.
Proof.
  unfold Authorize. destruct (aa_User q) as [u|]; [|by eauto]. destruct (isAdmin _); [by eauto|].
  destruct (negb _); [by eauto|]. destruct (_ || _); [by eauto|]. rewrite enforce_any_spec. eauto.
Qed.

(** C10: the authorizer decides RBAC: over the policy it loads from the store, [Authorize]
    never fails and says yes exactly when the caller is in the admin group, or the request
    is one of the fixed grants (discovery paths, a node's own resources, listing
    namespaces), or some RoleBinding of a live namespace, or ClusterRoleBinding to a
    ClusterRole, names the caller or one of its groups and refers to a role one of whose
    rules covers the group, the resource with its subresource and the verb (or, for a path
    and a cluster-wide binding, the verb and the path), in the request's namespace. *)
Theorem authorize_decides s q :
  nul_free s →
  ∃ b, Authorize Enforce (loaded s) q = Ok b ∧ (b = true ↔ allowed s q).
Proof.
  intros Hnul. destruct (authorize_total s q) as [b Hb]. exists b. split; [done|]. split.
  - intros ->. by apply authorize_sound.
  - intros H. apply (authorize_complete s q Hnul) in H. congruence.
Qed.

(** ** Escalation *)
(** What the service ensures of a stored object's namespace. *)
Definition scoped s : Prop :=
  ∀ o, o ∈ s → match o with
  | ObjRoleBinding b => om_Namespace (rb_meta b) ≠ ""
  | ObjClusterRole r => om_Namespace (role_meta r) = ""
  | _ => True
  end.

Definition is_rbac (o : Object) : bool :=
  match o with ObjRole _ | ObjRoleBinding _ | ObjClusterRole _ | ObjClusterRoleBinding _ => true | _ => false end.

Definition with_user (id : Identity) q : AuthAttributes :=
  mkAuthAttributes (Some id) (aa_Verb q) (aa_Group q) (aa_Resource q) (aa_Namespace q) (aa_Name q)
    (aa_Subresource q) (aa_ResourceRequest q) (aa_Path q).

Lemma get_put s o kind ns name :
  get_object (put o s) kind ns name =
  if bool_decide (key o = (kind, ns, name)) then Ok o else get_object s kind ns name.
Proof.
  unfold get_object, put. simpl. case_bool_decide as Hk; [done|].
  enough (List.find (λ o', bool_decide (key o' = (kind, ns, name))) (erase (key o) s) =
    List.find (λ o', bool_decide (key o' = (kind, ns, name))) s) as -> by done.
  unfold erase. induction s as [|x s IH]; simpl; [done|].
  destruct (decide (key x = key o)) as [E|E].
  - rewrite bool_decide_eq_true_2 by done. simpl. rewrite IH. by rewrite E, bool_decide_eq_false_2.
  - rewrite bool_decide_eq_false_2 by done. simpl. by rewrite IH.
Qed.

Lemma roleRefRules_put s o ref ns r :
  r ∈ roleRefRules (reader (put o s)) ref ns →
  r ∈ roleRefRules (reader s) ref ns ∨
  (∃ ro, o = ObjRole ro ∧ om_Namespace (role_meta ro) = ns ∧ r ∈ role_Rules ro) ∨
  (∃ ro, o = ObjClusterRole ro ∧ r ∈ role_Rules ro).
Proof.
  unfold roleRefRules. cbn [rd_Get reader]. rewrite !get_put.
  destruct (bool_decide (ref_Kind ref = "Role")).
  - case_bool_decide as Hk; [|by left]. destruct o as [| | | | | | |ro| |ro| |]; unfold key in Hk;
      simplify_eq/=; intros Hr; eauto 10.
  - destruct (bool_decide (ref_Kind ref = "ClusterRole")); [|by left].
    case_bool_decide as Hk; [|by left]. destruct o as [| | | | | | |ro| |ro| |]; unfold key in Hk;
      simplify_eq/=; intros Hr; eauto 10.
Qed.

(** The lister's answer and the authorizer's read agree. *)
Lemma referenced_eq s ref ns :
  scoped s → referencedRules (Some (listing s)) ref ns = roleRefRules (reader s) ref ns.
Proof.
  intros Hs. unfold referencedRules, roleRefRules. cbn [listed listing rd_Get reader]. unfold get_object.
  case_bool_decide; [|case_bool_decide; [|done]].
  - clear Hs. induction s as [|o s IH]; simpl; [done|].
    destruct o as [| | | | | | |r| | | |]; try exact IH. cbn [List.filter List.find find_rules].
    rewrite (bool_decide_eq_true_2 (obj_Kind _ = _)) by done. cbn [find_rules].
    destruct (decide (key (ObjRole r) = ("Role", ns, ref_Name ref))) as [Hk|Hk];
      [rewrite (bool_decide_eq_true_2 (key _ = _)) by done|rewrite (bool_decide_eq_false_2 (key _ = _)) by done];
      unfold key in Hk; simpl in Hk.
    + injection Hk as E1 E2. unfold obj_Namespace, obj_Name in *. simpl in *. by rewrite !bool_decide_eq_true_2.
    + destruct (_ && _) eqn:E; [|exact IH]. apply andb_true_iff in E as [E1 E2].
      rewrite bool_decide_eq_true in E1, E2. destruct Hk. by rewrite <-E1, <-E2.
  - induction s as [|o s IH]; simpl; [done|].
    assert (scoped s) as Hs' by (intros x Hx; apply Hs; by right). specialize (IH Hs').
    destruct o as [| | | | | | | | |r| |]; try exact IH. cbn [List.filter List.find find_rules].
    rewrite (bool_decide_eq_true_2 (obj_Kind _ = _)) by done. cbn [find_rules].
    specialize (Hs (ObjClusterRole r) (list_elem_of_here _ _)). simpl in Hs.
    destruct (decide (key (ObjClusterRole r) = ("ClusterRole", "", ref_Name ref))) as [Hk|Hk];
      [rewrite (bool_decide_eq_true_2 (key _ = _)) by done|rewrite (bool_decide_eq_false_2 (key _ = _)) by done];
      unfold key in Hk; simpl in Hk.
    + injection Hk as _ E2. unfold obj_Name in E2. simpl in E2. by rewrite bool_decide_eq_true_2.
    + rewrite bool_decide_eq_false_2; [exact IH|]. intros E. destruct Hk. unfold obj_Namespace, obj_Name. simpl. congruence.
Qed.

Lemma live_put s o ns : is_rbac o = true → live_namespace (put o s) ns → live_namespace s ns.
Proof. intros Hr (n & [E|[Hin _]]%put_elem & <-); [by subst|by exists n]. Qed.

(** A rule somebody is conferred after the write was conferred before it, or was judged. *)
Lemma confers_put s o subjects scope rules r :
  is_rbac o = true → scoped s → confers (put o s) subjects scope rules → r ∈ rules →
  (∃ rules', confers s subjects scope rules' ∧ r ∈ rules') ∨
  (∃ nsc rs, granted_by (Some (listing s)) o = Some (nsc, rs) ∧ r ∈ rs ∧ (nsc = scope ∨ nsc = "")).
Proof.
  intros Hrb Hs Hc Hr. destruct Hc as [b [E|[Hin _]]%put_elem Hl|b [E|[Hin _]]%put_elem Hk].
  - subst o. right. eexists _, _. split; [done|]. rewrite referenced_eq by done. split; [|by left].
    apply roleRefRules_put in Hr as [Hr|[(ro & ? & _)|(ro & ? & _)]]; done.
  - apply roleRefRules_put in Hr as [Hr|[(ro & -> & <- & Hr)|(ro & -> & Hr)]].
    + left. eexists. split; [|exact Hr]. apply confers_role_binding; [done|].
      destruct Hl as [?|?]; [by left|right; by eapply live_put].
    + right. eexists _, _. split; [done|]. auto.
    + right. eexists _, _. split; [done|]. auto.
  - subst o. right. eexists _, _. split; [done|]. rewrite referenced_eq by done. split; [|by right].
    apply roleRefRules_put in Hr as [Hr|[(ro & ? & _)|(ro & ? & _)]]; done.
  - apply roleRefRules_put in Hr as [Hr|[(ro & -> & Ens & Hr)|(ro & -> & Hr)]].
    + left. eexists. split; [|exact Hr]. by apply confers_cluster_role_binding.
    + right. eexists _, _. split; [done|]. auto.
    + right. eexists _, _. split; [done|]. auto.
Qed.

(** What the check has verified of a rule it passes. *)
Lemma escalation_checked authorize id ns rules r :
  escalation_check authorize id ns rules = None → r ∈ rules →
  (∀ url verb, url ∈ pr_NonResourceURLs r → verb ∈ pr_Verbs r →
     verb ≠ "*" ∧ has_star url = false ∧ authorize (path_query id verb url) = Ok true) ∧
  (∀ g res verb, g ∈ pr_APIGroups r → res ∈ pr_Resources r → verb ∈ pr_Verbs r →
     g ≠ "*" ∧ res ≠ "*" ∧ verb ≠ "*" ∧ authorize (resource_query id ns g res verb) = Ok true).
Proof.
  unfold escalation_check. destruct (_ <? _)%Z; [done|]. rewrite first_error_None. intros H Hr. specialize (H r Hr).
  simpl in H. destruct (first_error _ (rule_paths r)) eqn:Ep; [done|].
  rewrite first_error_None in Ep. rewrite first_error_None in H.
  assert (∀ qq e, ask authorize qq e = None → authorize qq = Ok true) as Hask.
  { intros qq e. unfold ask. destruct (authorize qq) as [[]|]; done. }
  split.
  - intros url verb Hu Hv. specialize (Ep (url, verb)). ospecialize (Ep _).
    { unfold rule_paths. apply list_elem_of_bind. exists url. split; [|done].
      apply list_elem_of_bind. exists verb. split; [|done]. by apply list_elem_of_singleton. }
    simpl in Ep. destruct (_ || _) eqn:E; [done|]. apply orb_false_iff in E as [E1 E2].
    rewrite bool_decide_eq_false in E1. split_and!; try done. by eapply Hask.
  - intros g res verb Hg Hres Hv. specialize (H (g, res, verb)). ospecialize (H _).
    { unfold rule_resources. apply list_elem_of_bind. exists g. split; [|done]. apply list_elem_of_bind.
      exists res. split; [|done]. apply list_elem_of_bind. exists verb. split; [|done]. by apply list_elem_of_singleton. }
    simpl in H. destruct (_ || _) eqn:E; [done|]. rewrite !orb_false_iff, !bool_decide_eq_false in E.
    destruct E as [[? ?] ?]. split_and!; try done. by eapply Hask.
Qed.

Lemma no_slash_target r sub : r +:+ "/" +:+ sub ≠ "namespaces".
Proof.
  intros E. assert (GoStrings.no_char "/" (r +:+ "/" +:+ sub) = true) as H by (by rewrite E).
  rewrite GoStrings.no_char_app in H. apply andb_true_iff in H as [_ H]. done.
Qed.

(** Holding a resource permission where it was judged is holding it where it is granted. *)
Lemma transfer_resource s id q nsc :
  scoped s → aa_ResourceRequest q = true →
  nsc = aa_Namespace q ∨ nsc = "*" ∨ nsc = "" →
  allowed s (resource_query id nsc (aa_Group q) (Target q) (aa_Verb q)) → allowed s (with_user id q).
Proof.
  intros Hs Hreq Hns (u & [= <-] & H). exists id. split; [done|].
  destruct H as [H|[[? _]|[_ H]]]; [by left|done|]. right. right. split; [done|].
  destruct H as [H|[H|H]]; [left|right; left|right; right].
  - exact H.
  - unfold isPublicNamespaceRead in *. simpl in *. rewrite !andb_true_iff, bool_decide_eq_true in *.
    destruct H as [[HG HT] HV]. rewrite bool_decide_eq_true in HT |- *. split_and!; try done.
    unfold Target in HT. destruct (decide (aa_Subresource q = "")).
    + by rewrite bool_decide_eq_true_2 in HT.
    + rewrite bool_decide_eq_false_2 in HT by done. by apply no_slash_target in HT.
  - destruct H as (subjects & scope & rules & r & Hc & Hm & Hsc & Hr & Hcg & Hcr & Hcv).
    exists subjects, scope, rules, r. split_and!; try done. simpl in *.
    destruct Hsc as [->|Hsc]; [by left|]. destruct Hns as [->|[->| ->]]; [by right|by left|].
    subst scope. apply confers_iff in Hc as ([| | | | | | | |b| |b|] & Hin & Hb); try done; simpl in Hb.
    + destruct Hb as (_ & _ & E & _). by destruct (Hs _ Hin).
    + by destruct Hb as (_ & _ & E & _).
Qed.

Lemma transfer_path s id q url :
  aa_ResourceRequest q = false → aa_Path q = url →
  allowed s (path_query id (aa_Verb q) url) → allowed s (with_user id q).
Proof.
  intros Hreq <- (u & [= <-] & H). exists id. split; [done|].
  destruct H as [H|[[_ H]|[? _]]]; [by left| |done]. right. left. by split.
Qed.

Lemma covers_concrete l x : covers l x → "*" ∉ l → x ∈ l.
Proof. by intros [?|?]. Qed.

(** The declarative form: what a judged write lets anybody do was possible before, or is
    something the author may do. *)
Lemma escalation_step s id o nsc rs q authorize :
  scoped s → is_rbac o = true → granted_by (Some (listing s)) o = Some (nsc, rs) →
  escalation_check authorize id nsc rs = None → (∀ qq, authorize qq = Ok true → allowed s qq) →
  allowed (put o s) q → allowed s q ∨ allowed s (with_user id q).
Proof.
  intros Hs Hrb Hg Hck Hauth (u & Hu & H). destruct H as [H|[[Hreq H]|[Hreq H]]]; [left; exists u; auto|..].
  - destruct H as [H|(subjects & rules & r & Hc & Hm & Hr & Hv & url & Hurl & Hp)]; [left; exists u; auto 10|].
    destruct (confers_put s o _ _ _ r Hrb Hs Hc Hr) as [(rules' & Hc' & Hr')|(nsc' & rs' & Hg' & Hr' & _)].
    { left. exists u. split; [done|]. right. left. split; [done|]. right. exists subjects, rules', r. eauto 10. }
    right. rewrite Hg in Hg'. simplify_eq. destruct (escalation_checked _ _ _ _ r Hck Hr') as [Hpath _].
    assert (aa_Verb q ∈ pr_Verbs r) as Hv'.
    { apply covers_concrete; [done|]. intros Hstar. by destruct (Hpath url "*" Hurl Hstar). }
    destruct (Hpath url _ Hurl Hv') as (_ & Hns & Hok). eapply (transfer_path s id q url); [done| |by apply Hauth].
    unfold matchesPath, has_star in *. destruct (cut_star url); [done|]. by apply bool_decide_eq_true in Hp as ->.
  - destruct H as [H|[H|(subjects & scope & rules & r & Hc & Hm & Hsc & Hr & Hcg & Hcr & Hcv)]];
      [left; exists u; auto 10..|].
    destruct (confers_put s o _ _ _ r Hrb Hs Hc Hr) as [(rules' & Hc' & Hr')|(nsc' & rs' & Hg' & Hr' & Hn)].
    { left. exists u. split; [done|]. right. right. split; [done|]. right. right. exists subjects, scope, rules', r. eauto 10. }
    right. rewrite Hg in Hg'. simplify_eq. destruct (escalation_checked _ _ _ _ r Hck Hr') as [_ Hres].
    assert (∃ g res verb, g ∈ pr_APIGroups r ∧ res ∈ pr_Resources r ∧ verb ∈ pr_Verbs r) as (g0 & r0 & v0 & Hg0 & Hr0 & Hv0)
      by (unfold covers in *; naive_solver).
    assert (aa_Group q ∈ pr_APIGroups r) as Hg1
      by (apply covers_concrete; [done|]; intros X; by destruct (Hres "*" r0 v0 X Hr0 Hv0)).
    assert (Target q ∈ pr_Resources r) as Hr1
      by (apply covers_concrete; [done|]; intros X; by destruct (Hres g0 "*" v0 Hg0 X Hv0) as (_ & ? & _)).
    assert (aa_Verb q ∈ pr_Verbs r) as Hv1
      by (apply covers_concrete; [done|]; intros X; by destruct (Hres g0 r0 "*" Hg0 Hr0 X) as (_ & _ & ? & _)).
    destruct (Hres _ _ _ Hg1 Hr1 Hv1) as (_ & _ & _ & Hok).
    apply (transfer_resource s id q nsc'); [done|done| |by apply Hauth]. naive_solver.
Qed.

(** C7: no privilege escalation through RBAC writes: when the chain accepts a Role,
    ClusterRole, RoleBinding or ClusterRoleBinding written by [id], then whatever request
    anybody is authorized for once the write is stored was authorized before it, or is one
    [id] itself was already authorized for. *)
Theorem no_escalation s id o op old q :
  nul_free s → scoped s → is_rbac o = true → op ≠ Delete →
  rbacEscalation_Validate (Some (Authorize Enforce (loaded s))) (Some (listing s)) (Some id)
    (mkAttributes op o old "") = None →
  Authorize Enforce (loaded (put o s)) q = Ok true →
  Authorize Enforce (loaded s) q = Ok true ∨ Authorize Enforce (loaded s) (with_user id q) = Ok true.
Proof.
  intros Hnul Hs Hrb Hop Hv Hq%authorize_sound. unfold rbacEscalation_Validate in Hv. cbn [at_Operation at_Object] in Hv.
  rewrite bool_decide_eq_false_2 in Hv by done. change (IsSubresource _) with false in Hv. cbn [orb] in Hv.
  destruct (contains AdminGroup (id_Groups id)) eqn:Ea.
  { right. unfold Authorize. simpl. unfold isAdmin. by rewrite Ea. }
  destruct (granted_by (Some (listing s)) o) as [[nsc rs]|] eqn:Eg; [|by destruct o].
  destruct (escalation_step s id o nsc rs q _ Hs Hrb Eg Hv (authorize_sound s) Hq);
    [left|right]; by apply authorize_complete.
Qed.

(** ** Namespaces *)
Lemma selectsNamespaced_some sch groups resources :
  selectsNamespaced sch groups resources = true → ∃ res, res ∈ resources.
Proof. unfold selectsNamespaced. intros (res & Hin & _)%existsb_elem. eauto. Qed.

(** A caller that is shown every namespace is an admin, or may read something in every
    namespace: one apiGroup, resource and read verb it is authorized for whatever the
    namespace of the request. *)
Theorem sees_all_reads_everywhere s sch id :
  nul_free s → AccessibleNamespaces (reader s) sch (Some id) = Ok None →
  isAdmin (id_Groups id) = true ∨
  ∃ group res verb, verb ∈ ["get"; "list"; "watch"] ∧
    ∀ ns, Authorize Enforce (loaded s) (resource_query id ns group res verb) = Ok true.
Proof.
  intros Hnul. unfold AccessibleNamespaces. destruct (isAdmin (id_Groups id)); [by left|]. right.
  cbn [rd_List reader listing] in *. destruct (existsb _ _) eqn:E.
  2: { destruct (existing_spec s) as (live & Hl & _). rewrite Hl in H. done. }
  apply existsb_elem in E as (o & [Hin _]%listing_elem & Ho).
  destruct o as [| | | | | | | | | |b|]; try done. simpl in Ho. rewrite !andb_true_iff, bool_decide_eq_true in Ho.
  destruct Ho as [[Hk Hm] Hg]. unfold grantsClusterRead in Hg. destruct sch as [sch|]; [|done].
  apply existsb_elem in Hg as (r & Hr & Hg). rewrite !andb_true_iff, negb_true_iff, orb_false_iff, !Nat.eqb_neq in Hg.
  destruct Hg as [[[Hgr Hre] Hv] _]. apply existsb_elem in Hv as (v & Hv & Hread).
  destruct (pr_APIGroups r) as [|group gs] eqn:Eg; [done|]. destruct (pr_Resources r) as [|res rs] eqn:Er; [done|].
  set (verb := if bool_decide (v = "*") then "get" else v).
  exists group, res, verb. split.
  - subst verb. unfold isReadVerb, contains in Hread. rewrite bool_decide_eq_true in Hread.
    case_bool_decide; [|]; set_solver.
  - intros ns. apply authorize_complete; [done|]. exists id. split; [done|]. right. right. split; [done|]. right. right.
    exists (rb_Subjects b), "*", (roleRefRules (reader s) (rb_RoleRef b) ""), r. split_and!; try done.
    + by apply confers_cluster_role_binding.
    + by left.
    + right. rewrite Eg. left.
    + right. rewrite Er. left.
    + subst verb. simpl. case_bool_decide; [subst; by left|by right].
Qed.
End Decision.

(** ** Secrets and services a write names *)
Section Named.
Context {HQ : Quantity}.

Lemma compact_elem l (x : string) : x ∈ compact l ↔ x ∈ l.
Proof.
  induction l as [|a l IH]; [done|]. destruct l as [|b l]; [done|]. cbn [compact].
  case_bool_decide as E.
  - subst. rewrite IH, !elem_of_cons. tauto.
  - rewrite !(elem_of_cons _ x a), IH. done.
Qed.

Lemma secretRefs_named (app : Application) x :
  x ∈ SecretRefs app ↔ x ∈ access_secretRefs (sp_Env (app_Spec app)) (sp_Volumes (app_Spec app)).
Proof.
  rewrite SecretRefs_elem. unfold secretRefs, access_secretRefs, env_secrets, volume_secrets.
  rewrite elem_of_union, !elem_of_list_to_set, elem_of_app, !list_elem_of_fmap, !list_elem_of_omap. split.
  - intros [(m & -> & [Hm Hc]%filter_elem)|(r & -> & [Hr Hc]%filter_elem)].
    + right. exists m. split; [done|]. simpl in *. rewrite !andb_true_iff in Hc. destruct Hc as [[-> ->] _]. done.
    + left. apply list_elem_of_omap in Hr as (e & He & Er). exists e. split; [done|]. rewrite Er.
      rewrite andb_true_iff, negb_true_iff in Hc. destruct Hc as [-> _]. done.
  - intros [(e & He & H)|(m & Hm & H)].
    + right. destruct (ev_SecretRef e) as [r|] eqn:Er; [|done]. case_bool_decide as En; [done|]. simplify_eq.
      exists r. split; [done|]. apply filter_elem. split; [apply list_elem_of_omap; eauto|].
      rewrite bool_decide_eq_false_2 by done. done.
    + left. exists m. destruct (_ && _) eqn:E; [|done]. simplify_eq/=. split; [done|]. apply filter_elem.
      split; [done|]. by rewrite E.
Qed.

(** Every secret an accepted write names is one its author may get. *)
Lemma secretAccess_named authorize id a ns names x :
  secretAccess_Validate (Some authorize) (Some id) a = None →
  at_Operation a ≠ Delete → IsSubresource a = false → contains AdminGroup (id_Groups id) = false →
  secrets_named (at_Object a) = Some (ns, names) → x ∈ names →
  authorize (mkAuthAttributes (Some id) "get" core_GroupName "secrets" ns x "" true "") = Ok true.
Proof.
  intros H Hop Hsub Hadm Hn Hx. unfold secretAccess_Validate in H.
  rewrite bool_decide_eq_false_2, Hsub, Hadm, Hn in H by done. cbn [orb] in H.
  destruct (_ <? _); [done|]. rewrite first_error_None in H.
  specialize (H x). ospecialize (H _); [by rewrite compact_elem, sort_stable_perm|].
  unfold ask in H. by destruct (authorize _) as [[]|].
Qed.

(** Mounting a secret is reading it: when the chain accepts an Application written by a
    caller outside the admin group, that caller is authorized to get every Secret the
    workload consumes, in its volumes or its environment, optional references and wildcard
    keys included. *)
Theorem secret_access_required authorize id app op old x :
  secretAccess_Validate (Some authorize) (Some id) (mkAttributes op (ObjApplication app) old "") = None →
  op ≠ Delete → isAdmin (id_Groups id) = false → x ∈ SecretRefs app →
  authorize (mkAuthAttributes (Some id) "get" core_GroupName "secrets" (app_Namespace app) x "" true "") = Ok true.
Proof.
  intros H Hop Hadm Hx%secretRefs_named. by eapply secretAccess_named.
Qed.

(** The escalation check fails open: when the roles cannot be listed, a RoleBinding or
    ClusterRoleBinding is accepted whatever role it refers to. *)
Theorem escalation_fails_open authorize id op b old e :
  rbacEscalation_Validate (Some authorize) (Some (λ _, Err e)) (Some id) (mkAttributes op (ObjRoleBinding b) old "") = None ∧
  rbacEscalation_Validate (Some authorize) (Some (λ _, Err e)) (Some id) (mkAttributes op (ObjClusterRoleBinding b) old "") = None.
Proof.
  unfold rbacEscalation_Validate. cbn [at_Operation at_Object granted_by]. unfold referencedRules. simpl.
  destruct (_ || _); [done|]. destruct (contains _ _); [done|].
  split; by destruct (bool_decide (ref_Kind (rb_RoleRef b) = "Role")), (bool_decide (ref_Kind (rb_RoleRef b) = "ClusterRole")).
Qed.
End Named.

(** ** A tenant with a role: witnesses of the authorization theorems *)
Module AuthzDemo.
Import NanoQuantity.
(** ** Strings without NUL, by computation *)
Definition clean (x : string) : bool := GoStrings.no_char Ascii.zero x.

Definition clean_rule (r : PolicyRule) : bool :=
  forallb clean (pr_APIGroups r) && forallb clean (pr_Resources r) && forallb clean (pr_Verbs r).

Definition clean_object (o : Object) : bool :=
  match o with
  | ObjRole r | ObjClusterRole r => forallb clean_rule (role_Rules r)
  | ObjRoleBinding b | ObjClusterRoleBinding b =>
      clean (om_Namespace (rb_meta b)) && forallb (λ x, clean (sub_Name x)) (rb_Subjects b)
  | _ => true
  end.

Lemma get_object_elem s kind ns name (o : Object) : get_object s kind ns name = Ok o → o ∈ s.
Proof.
  unfold get_object. destruct (List.find _ s) eqn:E; [|done]. intros; simplify_eq.
  apply find_some in E as [E _]. by apply list_elem_of_In.
Qed.

Lemma roleRefRules_clean s ref ns r :
  forallb clean_object s = true → r ∈ roleRefRules (reader s) ref ns → clean_rule r = true.
Proof.
  intros Hs. rewrite forallb_elem in Hs. unfold roleRefRules. cbn [rd_Get reader].
  assert (∀ k n nm ro, (get_object s k n nm = Ok (ObjRole ro) ∨ get_object s k n nm = Ok (ObjClusterRole ro)) →
    r ∈ role_Rules ro → clean_rule r = true) as H.
  { intros k n nm ro [Hg|Hg] Hr; apply get_object_elem, Hs in Hg; simpl in Hg; rewrite forallb_elem in Hg; auto. }
  destruct (bool_decide _); [|destruct (bool_decide _)].
  - destruct (get_object s "Role" ns (ref_Name ref)) as [[]|] eqn:E; try by intros ?%elem_of_nil. eauto.
  - destruct (get_object s "ClusterRole" "" (ref_Name ref)) as [[]|] eqn:E; try by intros ?%elem_of_nil. eauto.
  - by intros ?%elem_of_nil.
Qed.

Lemma clean_nul_free s : forallb clean_object s = true → nul_free s.
Proof.
  intros Hs l (subjects & scope & rules & sj & r & Hc & Hin & Hne & Hr & Hl).
  apply rule_lines_elem in Hl as (g & res & verb & -> & Hg & Hres & Hv).
  assert (clean_rule r = true) as Hrule.
  { apply confers_iff in Hc as ([] & _ & Hb); try done; destruct Hb as (_ & _ & _ & ->); by eapply roleRefRules_clean. }
  assert (clean (sub_Name sj) = true ∧ clean scope = true) as [Hsj Hsc].
  { rewrite forallb_elem in Hs. apply confers_iff in Hc as ([] & Ho & Hb); try done; apply Hs in Ho; simpl in Ho;
      rewrite andb_true_iff, forallb_elem in Ho; destruct Hb as (_ & -> & -> & _), Ho as [? Ho]; split; auto. }
  unfold clean_rule in Hrule. rewrite !andb_true_iff, !forallb_elem in Hrule. destruct Hrule as [[H1 H2] H3].
  unfold nul_free_line. repeat constructor; try by auto.
  unfold subjectString in *. repeat case_bool_decide; try done.
Qed.

(** ** The instance *)
Definition demo_Enforce (pol : list Line) (r : Line) : result error bool := Ok (existsb (rbac_matcher r) pol).
Definition demo_AddPolicies (old rules : list Line) : result error (list Line) := Ok (old ++ rules).
#[export] Instance demo_engine : CasbinEngine demo_Enforce demo_AddPolicies.
Proof. by split. Qed.

Definition named (ns name : string) : ObjectMeta := mkObjectMeta ns name "" "" 1 ∅ ∅ 10 None [] [].
Definition read_apps : PolicyRule := mkPolicyRule ["horchestra.io"] ["applications"; "secrets"] ["get"; "list"] [].

Definition demo_rbac : list Object :=
  [ObjNamespace (mkNamespace (named "" "red"));
   ObjRole (mkRole (named "red" "reader") [read_apps]);
   ObjClusterRole (mkRole (named "" "auditor") [mkPolicyRule ["*"] ["*"] ["get"] []]);
   ObjRoleBinding (mkRoleBinding (named "red" "alice") [mkSubject "User" "alice"] (mkRoleRef "Role" "reader"));
   ObjClusterRoleBinding (mkRoleBinding (named "" "audit") [mkSubject "Group" "auditors"] (mkRoleRef "ClusterRole" "auditor"))].

Definition alice : Identity := mkIdentity "alice" ["tenants"].
Definition bob : Identity := mkIdentity "bob" [].
Definition carol : Identity := mkIdentity "carol" ["auditors"].
Definition demo_scheme : list (string * string * bool) := [("horchestra.io", "applications", true)].

(** The grant alice writes for bob. *)
Definition demo_grant : Object :=
  ObjRoleBinding (mkRoleBinding (named "red" "bob") [mkSubject "User" "bob"] (mkRoleRef "Role" "reader")).

Abbreviation demo_loaded s := (loaded (AddPolicies := demo_AddPolicies) s).

Lemma demo_nul_free : nul_free demo_rbac.
Proof. apply clean_nul_free. by vm_compute. Qed.

Lemma demo_scoped : scoped demo_rbac.
Proof. intros o Ho. unfold demo_rbac in Ho. rewrite !elem_of_cons in Ho.
  by destruct Ho as [->|[->|[->|[->|[->|?%elem_of_nil]]]]].
Qed.

(** ** Witnesses *)
Lemma authorize_decides_witness :
  (∃ b, Authorize demo_Enforce (demo_loaded demo_rbac) (resource_query alice "red" "horchestra.io" "applications" "get") = Ok b ∧
    (b = true ↔ allowed demo_rbac (resource_query alice "red" "horchestra.io" "applications" "get"))) ∧
  Authorize demo_Enforce (demo_loaded demo_rbac) (resource_query alice "blue" "horchestra.io" "applications" "get") = Ok false.
Proof. split; [apply authorize_decides, demo_nul_free|by vm_compute]. Defined.

Lemma no_escalation_witness :
  Authorize demo_Enforce (demo_loaded demo_rbac) (resource_query bob "red" "horchestra.io" "secrets" "get") = Ok false ∧
  (Authorize demo_Enforce (demo_loaded demo_rbac) (resource_query bob "red" "horchestra.io" "secrets" "get") = Ok true ∨
   Authorize demo_Enforce (demo_loaded demo_rbac)
     (with_user alice (resource_query bob "red" "horchestra.io" "secrets" "get")) = Ok true).
Proof.
  split; [by vm_compute|].
  apply (no_escalation (AddPolicies := demo_AddPolicies) demo_rbac alice demo_grant Create None);
    [apply demo_nul_free|apply demo_scoped|done|done|by vm_compute|by vm_compute].
Defined.

Lemma sees_all_reads_everywhere_witness :
  isAdmin (id_Groups carol) = true ∨
  ∃ group res verb, verb ∈ ["get"; "list"; "watch"] ∧
    ∀ ns, Authorize demo_Enforce (demo_loaded demo_rbac) (resource_query carol ns group res verb) = Ok true.
Proof.
  apply (sees_all_reads_everywhere (AddPolicies := demo_AddPolicies) demo_rbac (Some demo_scheme) carol);
    [apply demo_nul_free|by vm_compute].
Defined.

Definition demo_env_app : Application :=
  mkApplication (named "red" "web")
    (mkAppSpec "img" ["/bin/app"] [] [mkEnvVar "TOKEN" "" (Some (mkEnvSecretRef "db" "token" "" None))] []
      (mkRequirements ra_zero ra_zero) (mkLifecycle RestartAlways None None None) (mkPlacement "" ∅ None None) None "" "" None [])
    (mkAppStatus 0 "" "" "" None 0 0).

Lemma secret_access_required_witness :
  Authorize demo_Enforce (demo_loaded demo_rbac)
    (mkAuthAttributes (Some alice) "get" core_GroupName "secrets" "red" "db" "" true "") = Ok true.
Proof.
  apply (secret_access_required (Authorize demo_Enforce (demo_loaded demo_rbac)) alice demo_env_app Create None "db");
    [by vm_compute|done|done|]. rewrite secretRefs_named. by vm_compute; left.
Defined.
End AuthzDemo.
