(* ===== verification/Guards.v ===== *)
(** * Plugins that pin what a writer may not change

    defaulting (plugins.go), secret_policy.go, csr_policy.go, child_ownership.go and
    node_restriction.go, with the feature gates (api/features/features.go) and the vault
    role syntax (api/core/v1/vaultsecret.go) they read.  PEM and X.509 are parameters of the
    certificate policy. *)
From stdpp Require Import gmap strings list.
From Stdlib Require Import ZArith Ascii.
From Stdlib Require String.
From S2P Require Import Prelude Resources CoreV1 ApiObjects Uids Paths Admission Authz Escalation.

(** ** Feature gates *)
Definition VaultStaticRoles : string := "VaultStaticRoles".
Definition AutoNodeCertRotation : string := "AutoNodeCertRotation".
Definition VaultDynamicSecrets : string := "VaultDynamicSecrets".
Definition NodeLogs : string := "NodeLogs".

(** [registry]: each known gate's default. *)
Definition registry : gmap string bool :=
  <[VaultStaticRoles := false]> (<[VaultDynamicSecrets := false]>
    (<[AutoNodeCertRotation := false]> {[NodeLogs := false]})).

Abbreviation Gates := (gmap string bool).

(** [Gates.Enabled]. *)
Definition Enabled (g : Gates) (f : string) : bool :=
  match g !! f with Some v => v | None => default false (registry !! f) end.

Definition ParseBool (s : string) : option bool :=
  if contains s ["1"; "t"; "T"; "TRUE"; "true"; "True"] then Some true
  else if contains s ["0"; "f"; "F"; "FALSE"; "false"; "False"] then Some false
  else None.

Inductive GateError := GNoValue (part : string) | GUnknown (name : string) | GNotBool (name value : string).

Fixpoint parse_gates (g : Gates) (parts : list string) : result GateError Gates :=
  match parts with
  | [] => Ok g
  | part :: parts' =>
      let part := GoStrings.TrimSpace part in
      if bool_decide (part = "") then parse_gates g parts'
      else match GoStrings.cut "=" part with
           | None => Err (GNoValue part)
           | Some (name, value) =>
               let f := GoStrings.TrimSpace name in
               match registry !! f with
               | None => Err (GUnknown f)
               | Some _ =>
                   match ParseBool (GoStrings.TrimSpace value) with
                   | None => Err (GNotBool f value)
                   | Some on => parse_gates (<[f := on]> g) parts'
                   end
               end
           end
  end.

(** [features.Parse]; a nil map and an empty one are the same gates. *)
Definition ParseGates (s : string) : result GateError Gates :=
  let s := GoStrings.TrimSpace s in
  if bool_decide (s = "") then Ok ∅ else parse_gates ∅ (split "," s).

(** ** Vault roles *)
Record EngineRole := mkEngineRole { er_Mount : string; er_Role : string }.

(** [strings.LastIndex v "/"], as the two halves. *)
Fixpoint cut_last (c : ascii) (s : string) : option (string * string) :=
  match s with
  | EmptyString => None
  | String d s' =>
      match cut_last c s' with
      | Some (a, b) => Some (String d a, b)
      | None => if bool_decide (d = c) then Some ("", s') else None
      end
  end.

Definition bad_segment (seg : string) : bool := contains seg [""; "."; ".."].

Definition role_chars : list ascii :=
  [ascii_of_nat 32; ascii_of_nat 9; ascii_of_nat 13; ascii_of_nat 10; "?"; "#"; "%"]%char.

Definition ParseEngineRole (v : string) : result error EngineRole :=
  let v := trim "/" (GoStrings.TrimSpace v) in
  match cut_last "/" v with
  | None => Err "want <mount>/<role>"
  | Some (mount, role) =>
      if bool_decide (mount = "") then Err "the mount is empty"
      else if existsb bad_segment (split "/" mount) then Err "not a path segment"
      else if bool_decide (role = "") then Err "the role is empty"
      else if existsb bad_segment (split "/" role) then Err "not a path segment"
      else if ContainsAny v role_chars then Err "a mount or role may not carry whitespace or URL punctuation"
      else Ok (mkEngineRole mount role)
  end.

Section Guards.
Context {HQ : Quantity}.

(** ** plugins.go: defaulting stamps the Kind, which a typed value carries by construction *)
Definition defaulting : Plugin := mkPlugin no_admit (λ _ _, None).

(** ** secret_policy.go *)
Definition maxSecretBytes : Z := 2 ^ 20.
Definition SecretTypeOpaque : string := "Opaque".
Definition SecretTypeVault : string := "horchestra.io/vault".
Definition AnnExternalSecretPath : string := "secrets.horchestra.io/path".
Definition AnnExternalSecretStaticRole : string := "secrets.horchestra.io/static-role".
Definition AnnExternalSecretDynamicRole : string := "secrets.horchestra.io/dynamic-role".

Definition secretPolicy_Admit (ctx : Ctx) (a : Attributes) : result AdmissionError Attributes :=
  match at_Object a with
  | ObjSecret sec =>
      let ty := if bool_decide (sec_Type sec = "") then SecretTypeOpaque else sec_Type sec in
      let data := if bool_decide (sec_StringData sec = ∅) then sec_Data sec
                  else (String.list_ascii_of_string <$> sec_StringData sec) ∪ sec_Data sec in
      Ok (with_object a (ObjSecret (mkSecret (sec_meta sec) (sec_Immutable sec) ty data ∅)))
  | _ => Ok a
  end.

(** [validateVaultSource]. *)
Definition validateVaultSource (gates : Gates) (sec : Secret) : option AdmissionError :=
  let value ann := GoStrings.TrimSpace (default "" (om_Annotations (sec_meta sec) !! ann)) in
  let sources := [(AnnExternalSecretPath, ""); (AnnExternalSecretStaticRole, VaultStaticRoles);
                  (AnnExternalSecretDynamicRole, VaultDynamicSecrets)] in
  match List.filter (λ src, negb (bool_decide (value src.1 = ""))) sources with
  | [] => Some (ESecretData "a vault secret names its value")
  | [(ann, gate)] =>
      if bool_decide (gate = "") then None
      else if negb (Enabled gates gate) then Some (FSecretGate ann)
      else match ParseEngineRole (value ann) with
           | Err e => Some (ESecretData e)
           | Ok _ => None
           end
  | _ => Some (ESecretData "a secret names one source")
  end.

(** The loop over the keys: the total size, or the first bad key. *)
Fixpoint secret_size (kvs : list (string * list ascii)) (total : Z) : result AdmissionError Z :=
  match kvs with
  | [] => Ok total
  | (k, v) :: kvs' =>
      match ValidBaseName k "key" with
      | Some e => Err (ESecretKey e)
      | None => secret_size kvs' (total + Z.of_nat (String.length k) + Z.of_nat (length v))
      end
  end.

Definition is_true (b : option bool) : bool := default false b.

Definition secretPolicy_Validate (gates : Gates) (ctx : Ctx) (a : Attributes) : option AdmissionError :=
  if bool_decide (at_Operation a = Delete) || IsSubresource a then None
  else match at_Object a with
  | ObjSecret sec =>
      check* (if bool_decide (sec_Type sec = SecretTypeVault) then
                if negb (bool_decide (sec_Data sec = ∅)) then Some (ESecretData "a vault secret carries no inline data")
                else validateVaultSource gates sec
              else None) in
      match secret_size (map_to_list (sec_Data sec)) 0 with
      | Err e => Some e
      | Ok total =>
          if (maxSecretBytes <? total)%Z then Some (ESecretSize total)
          else if bool_decide (at_Operation a = Update) then
            match at_OldObject a with
            | Some (ObjSecret old) =>
                if is_true (sec_Immutable old) then
                  if negb (is_true (sec_Immutable sec)) then Some (ESecretData "the immutable flag may not be cleared")
                  else if negb (bool_decide (sec_Data old = sec_Data sec))
                  then Some (ESecretData "secret is immutable and its data may not change")
                  else None
                else None
            | _ => None
            end
          else None
      end
  | _ => None
  end.
Definition secretPolicy (gates : Gates) : Plugin := mkPlugin secretPolicy_Admit (secretPolicy_Validate gates).

(** ** csr_policy.go *)
Definition with_csr (m : ObjectMeta) (st : CSRStatus) (c : CertificateSigningRequest) : CertificateSigningRequest :=
  mkCSR m (csr_Spec c) st.

(** One reserved key of [dst] taken from [old], or dropped when [old] has none. *)
Definition carry_key (old dst : gmap string string) (key : string) : gmap string string :=
  match old !! key with Some v => <[key := v]> dst | None => delete key dst end.

(** [preserveRequester]. *)
Definition preserveRequester (c old : CertificateSigningRequest) : ObjectMeta :=
  set_annotations
    (foldl (carry_key (om_Annotations (csr_meta old))) (om_Annotations (csr_meta c)) [AnnRequester; AnnRequesterGroups])
    (csr_meta c).

Definition csrPolicy_Admit (ctx : Ctx) (a : Attributes) : result AdmissionError Attributes :=
  match at_Object a with
  | ObjCSR c =>
      if IsSubresource a then Ok a
      else match at_Operation a with
      | Update =>
          match at_OldObject a with
          | Some (ObjCSR old) =>
              if negb (bool_decide (csp_Request (csr_Spec c) = csp_Request (csr_Spec old))) ||
                 negb (bool_decide (csp_NodeName (csr_Spec c) = csp_NodeName (csr_Spec old)))
              then Err FCSRImmutable
              else Ok (with_object a (ObjCSR (with_csr (preserveRequester c old) (csr_Status old) c)))
          | _ => Ok a
          end
      | Create =>
          let m := match ctx with
                   | Some id => set_annotations (<[AnnRequesterGroups := GoStrings.join "," (id_Groups id)]>
                       (<[AnnRequester := id_Name id]> (om_Annotations (csr_meta c)))) (csr_meta c)
                   | None => csr_meta c
                   end in
          Ok (with_object a (ObjCSR (with_csr m (mkCSRStatus CSRPending [] "") c)))
      | Delete => Ok a
      end
  | _ => Ok a
  end.

Section CSR.
(** encoding/pem and crypto/x509: the block of a PEM text, and a certificate request's
    common name with the outcome of its signature check. *)
Context (pem_Decode : list ascii → option (string * list ascii))
  (ParseCertificateRequest : list ascii → result error (string * option error)).

Definition csrPolicy_Validate (ctx : Ctx) (a : Attributes) : option AdmissionError :=
  if bool_decide (at_Operation a = Delete) then None
  else match at_Object a with
       | ObjCSR c =>
           match pem_Decode (csp_Request (csr_Spec c)) with
           | None => Some (ECSR "not a PEM CERTIFICATE REQUEST")
           | Some (ty, bytes) =>
               if negb (bool_decide (ty = "CERTIFICATE REQUEST")) then Some (ECSR "not a PEM CERTIFICATE REQUEST")
               else match ParseCertificateRequest bytes with
                    | Err e => Some (ECSR e)
                    | Ok (cn, Some e) => Some (ECSR "bad signature")
                    | Ok (cn, None) => if bool_decide (cn = "") then Some (ECSR "no common name") else None
                    end
           end
       | _ => None
       end.
Definition csrPolicy : Plugin := mkPlugin csrPolicy_Admit csrPolicy_Validate.
End CSR.

(** ** child_ownership.go *)
(** [clientWrittenApp]. *)
Definition clientWrittenApp (ctx : Ctx) (a : Attributes) : option Application :=
  match ctx with
  | None => None
  | Some _ =>
      if bool_decide (at_Operation a = Delete) || IsSubresource a then None
      else match at_Object a with ObjApplication app => Some app | _ => None end
  end.

Definition map_app_meta (f : ObjectMeta → ObjectMeta) (app : Application) : Application :=
  mkApplication (f (app_meta app)) (app_Spec app) (app_Status app).

Definition carry_ownership (old m : ObjectMeta) : ObjectMeta :=
  set_labels (foldl (carry_key (om_Labels old)) (om_Labels m) ReservedChildLabels)
    (set_annotations (carry_key (om_Annotations old) (om_Annotations m) AnnAppsetSpecHash)
      (set_ownerReferences (om_OwnerReferences old) m)).

Definition childOwnership_Admit (ctx : Ctx) (a : Attributes) : result AdmissionError Attributes :=
  match clientWrittenApp ctx a with
  | None => Ok a
  | Some app =>
      match at_Operation a with
      | Create =>
          match AppsetOwnerOf (om_OwnerReferences (app_meta app)) with
          | Some ref => Err (FOwnerReference (or_Name ref))
          | None =>
              if bool_decide (is_Some (om_Annotations (app_meta app) !! AnnAppsetSpecHash))
              then Err (FReservedAnnotation AnnAppsetSpecHash)
              else match List.find (λ key, bool_decide (is_Some (om_Labels (app_meta app) !! key))) ReservedChildLabels with
                   | Some key => Err (FReservedLabel key)
                   | None => Ok a
                   end
          end
      | Update =>
          match at_OldObject a with
          | Some (ObjApplication old) =>
              Ok (with_object a (ObjApplication (map_app_meta (carry_ownership (app_meta old)) app)))
          | _ => Ok a
          end
      | Delete => Ok a
      end
  end.

Section SpecEq.
(** [reflect.DeepEqual] on the application spec. *)
Context `{!EqDecision ApplicationSpec}.

Definition childOwnership_Validate (ctx : Ctx) (a : Attributes) : option AdmissionError :=
  match clientWrittenApp ctx a with
  | None => None
  | Some app =>
      if negb (bool_decide (at_Operation a = Update)) then None
      else match at_OldObject a with
           | Some (ObjApplication old) =>
               match AppsetOwnerOf (om_OwnerReferences (app_meta old)) with
               | None => None
               | Some ref =>
                   if bool_decide (app_Spec app = app_Spec old) then None
                   else Some (FChildSpec (app_Name app) (or_Name ref))
               end
           | _ => None
           end
  end.
Definition childOwnership : Plugin := mkPlugin childOwnership_Admit childOwnership_Validate.
End SpecEq.

(** ** node_restriction.go *)
(** [storedNode]. *)
Definition storedNode (l : string → result error (list Object)) (name : string) : result AdmissionError (option Node) :=
  let* list := list_kind l "Node" in Ok (find_node name list).

Definition nodeRestriction_Validate (lister : Lister) (ctx : Ctx) (a : Attributes) : option AdmissionError :=
  match ctx with
  | None => None
  | Some id =>
      if negb (contains NodeGroup (id_Groups id)) then None
      else match at_Object a with
      | ObjCSR _ => None
      | ObjNode incoming =>
          if negb (bool_decide (node_Name incoming = id_Name id)) then Some (FNodeOther (id_Name id) (node_Name incoming))
          else match at_Operation a with
          | Create =>
              if node_Unschedulable incoming then Some (FNodeSpec (id_Name id))
              else if negb (bool_decide (node_Labels incoming = ∅)) then Some (FNodeLabels (id_Name id))
              else None
          | Delete => None
          | Update =>
              match lister with
              | None => None
              | Some l =>
                  match storedNode l (id_Name id) with
                  | Err e => Some e
                  | Ok None => None
                  | Ok (Some stored) =>
                      if negb (bool_decide (node_Labels incoming = node_Labels stored)) then Some (FNodeLabels (id_Name id))
                      else if negb (Bool.eqb (node_Unschedulable incoming) (node_Unschedulable stored))
                      then Some (FNodeSpec (id_Name id)) else None
                  end
              end
          end
      | o => Some (FNodeWrites (id_Name id) (obj_Kind o))
      end
  end.
Definition nodeRestriction (lister : Lister) : Plugin := mkPlugin no_admit (nodeRestriction_Validate lister).
End Guards.
