(* ===== verification/Services.v ===== *)
(** * Services: their ports, names and addresses

    service_policy.go, service_address.go and service_vip.go.  An address is its family,
    its number and its zone ([net/netip]); reading and printing one are parameters. *)
From stdpp Require Import gmap strings list.
From Stdlib Require Import ZArith Ascii.
From S2P Require Import Prelude Resources CoreV1 ApiObjects Uids Paths Admission Authz Escalation.
#[local] Open Scope Z_scope.

(** ** net/netip *)
Inductive Addr := V4 (n : Z) | V6 (n : Z) (zone : string).
#[export] Instance Addr_eq_dec : EqDecision Addr.
Proof. solve_decision. Defined.

Definition addr_num (a : Addr) : Z := match a with V4 n | V6 n _ => n end.
Definition Is4 (a : Addr) : bool := match a with V4 _ => true | V6 _ _ => false end.
Definition BitLen (a : Addr) : Z := if Is4 a then 32 else 128.

(** An IPv4-mapped IPv6 address is ::ffff:0:0/96. *)
Definition Unmap (a : Addr) : Addr :=
  match a with
  | V4 n => V4 n
  | V6 n z => if n / 2 ^ 32 =? 16 ^ 4 - 1 then V4 (n mod 2 ^ 32) else V6 n z
  end.
(** 0.0.0.0, and :: without a zone. *)
Definition IsUnspecified (a : Addr) : bool :=
  match a with V4 n => n =? 0 | V6 n z => (n =? 0) && bool_decide (z = "") end.
(** 224.0.0.0/4 and ff00::/8; a mapped address is judged as IPv4. *)
Definition IsMulticast (a : Addr) : bool :=
  match Unmap a with V4 n => n / 2 ^ 28 =? 14 | V6 n _ => n / 2 ^ 120 =? 255 end.
(** [Next]: [None] is the zero Addr after the last one. *)
Definition Next (a : Addr) : option Addr :=
  if addr_num a + 1 <? 2 ^ BitLen a then
    Some match a with V4 n => V4 (n + 1) | V6 n z => V6 (n + 1) z end
  else None.

(** A CIDR: an address without zone and its prefix length. *)
Record Prefix := mkPrefix { pf_Addr : Addr; pf_Bits : Z }.

Definition block_size (p : Prefix) : Z := 2 ^ (BitLen (pf_Addr p) - pf_Bits p).
Definition with_num (a : Addr) (n : Z) : Addr := match a with V4 _ => V4 n | V6 _ _ => V6 n "" end.
Definition Masked (p : Prefix) : Prefix :=
  mkPrefix (with_num (pf_Addr p) (addr_num (pf_Addr p) / block_size p * block_size p)) (pf_Bits p).
(** A prefix contains only zoneless addresses of its family. *)
Definition Contains (p : Prefix) (a : Addr) : bool :=
  match pf_Addr p, a with
  | V4 m, V4 n => n / block_size p =? m / block_size p
  | V6 m _, V6 n z => bool_decide (z = "") && (n / block_size p =? m / block_size p)
  | _, _ => false
  end.

(** The text forms. *)
Class Netip := {
  ParseAddr : string → result error Addr;
  addr_String : Addr → string;
  ParsePrefix : string → result error Prefix;
}.

(** Addresses within their family's range. *)
Definition addr_ok (a : Addr) : Prop := 0 ≤ addr_num a < 2 ^ BitLen a.
Definition prefix_ok (p : Prefix) : Prop :=
  addr_ok (pf_Addr p) ∧ 0 ≤ pf_Bits p ≤ BitLen (pf_Addr p) ∧ match pf_Addr p with V6 _ z => z = "" | V4 _ => True end.

(** What [net/netip] documents: printing round-trips, and a parsed CIDR is well formed. *)
Class NetipLaws `{!Netip} : Prop := {
  ParseAddr_String a : addr_ok a → ParseAddr (addr_String a) = Ok a;
  ParsePrefix_ok s p : ParsePrefix s = Ok p → prefix_ok p;
}.

Section Services.
Context {HQ : Quantity} {HN : Netip}.

(** [serviceUnderReview]. *)
Definition serviceUnderReview (a : Attributes) : option Service :=
  if bool_decide (at_Operation a = Delete) || IsSubresource a then None
  else match at_Object a with ObjService s => Some s | _ => None end.

(** ** service_policy.go *)
(** [dns1123Label], [dns1123Name]: ^[a-z0-9]([-a-z0-9]*[a-z0-9])?$. *)
Definition alnum (c : ascii) : bool :=
  let n := nat_of_ascii c in bool_decide (97 ≤ n ≤ 122)%nat || bool_decide (48 ≤ n ≤ 57)%nat.
Fixpoint label_tail (s : string) : bool :=
  match s with
  | EmptyString => false
  | String c EmptyString => alnum c
  | String c s' => (alnum c || bool_decide (c = "-"%char)) && label_tail s'
  end.
Definition dns1123 (s : string) : bool :=
  match s with
  | EmptyString => false
  | String c EmptyString => alnum c
  | String c s' => alnum c && label_tail s'
  end.

Fixpoint notANodeName_loop (svc : Service) (nodes : list Object) : option AdmissionError :=
  match nodes with
  | [] => None
  | ObjNode n :: nodes' =>
      if existsb (λ p, bool_decide (CatalogName svc p = node_Name n)) (svc_Ports svc)
      then Some (FServiceNodeName (node_Name n)) else notANodeName_loop svc nodes'
  | _ :: nodes' => notANodeName_loop svc nodes'
  end.

(** [notANodeName]. *)
Definition notANodeName (lister : Lister) (svc : Service) : option AdmissionError :=
  match lister with
  | None => None
  | Some l => match list_kind l "Node" with Err e => Some e | Ok nodes => notANodeName_loop svc nodes end
  end.

(** The loop over spec.ports. *)
Fixpoint ports_ok (named : bool) (i : nat) (seenName : gset string) (seenPort : gset Z) (ports : list ServicePort)
    : option AdmissionError :=
  match ports with
  | [] => None
  | p :: ports' =>
      if named && bool_decide (svp_Name p = "") then Some (EServicePorts i "must name each port")
      else if negb (bool_decide (svp_Name p = "")) && negb (dns1123 (svp_Name p))
      then Some (EServicePorts i "not a DNS-1123 label")
      else if negb (bool_decide (svp_Name p = "")) && bool_decide (svp_Name p ∈ seenName)
      then Some (EServicePorts i "name used twice")
      else if bool_decide (svp_Port p ∈ seenPort) then Some (EServicePorts i "port declared twice")
      else if negb (bool_decide (svp_TargetName p = "")) && negb (svp_TargetPort p =? 0)
      then Some (EServicePorts i "targetName and targetPort")
      else ports_ok named (S i) ({[svp_Name p]} ∪ seenName) ({[svp_Port p]} ∪ seenPort) ports'
  end.

Definition servicePolicy_Validate (lister : Lister) (ctx : Ctx) (a : Attributes) : option AdmissionError :=
  match serviceUnderReview a with
  | None => None
  | Some svc =>
      check* notANodeName lister svc in
      if (length (svc_Ports svc) =? 0)%nat then Some (EServicePorts 0 "a service with no ports answers nothing")
      else ports_ok (1 <? length (svc_Ports svc))%nat 0 ∅ ∅ (svc_Ports svc)
  end.
Definition servicePolicy (lister : Lister) : Plugin := mkPlugin no_admit (servicePolicy_Validate lister).

(** ** service_address.go *)
(** Two spellings of one address. *)
Definition same_addr (a b : Addr) : bool := bool_decide (Unmap a = Unmap b).

Fixpoint notANodes_loop (ip : string) (addr : Addr) (nodes : list Object) : option AdmissionError :=
  match nodes with
  | [] => None
  | ObjNode n :: nodes' =>
      if bool_decide (ns_IP (node_Status n) = "") then notANodes_loop ip addr nodes'
      else match ParseAddr (ns_IP (node_Status n)) with
           | Ok got => if same_addr got addr then Some (FClusterIP ip "is a node's own address")
                       else notANodes_loop ip addr nodes'
           | Err _ => notANodes_loop ip addr nodes'
           end
  | _ :: nodes' => notANodes_loop ip addr nodes'
  end.

Definition same_service (a b : Service) : bool :=
  bool_decide (om_Namespace (svc_meta a) = om_Namespace (svc_meta b)) &&
  bool_decide (om_Name (svc_meta a) = om_Name (svc_meta b)).

Fixpoint notTaken_loop (svc : Service) (addr : Addr) (services : list Object) : option AdmissionError :=
  match services with
  | [] => None
  | ObjService other :: l =>
      if bool_decide (svc_ClusterIP other = "") then notTaken_loop svc addr l
      else if same_service other svc then notTaken_loop svc addr l
      else match ParseAddr (svc_ClusterIP other) with
           | Ok got => if same_addr got addr then Some (FClusterIP (svc_ClusterIP svc) "is another service's address")
                       else notTaken_loop svc addr l
           | Err _ => notTaken_loop svc addr l
           end
  | _ :: l => notTaken_loop svc addr l
  end.

Definition serviceAddress_Validate (lister : Lister) (ctx : Ctx) (a : Attributes) : option AdmissionError :=
  match serviceUnderReview a with
  | None => None
  | Some svc =>
      if bool_decide (svc_ClusterIP svc = "") then None
      else match ParseAddr (svc_ClusterIP svc) with
      | Err _ => Some (FClusterIP (svc_ClusterIP svc) "is not an IP address")
      | Ok addr =>
          if IsUnspecified addr then Some (FClusterIP (svc_ClusterIP svc) "is not an address a caller can connect to")
          else if IsMulticast addr then Some (FClusterIP (svc_ClusterIP svc) "is a multicast address")
          else match lister with
          | None => None
          | Some l =>
              match list_kind l "Node" with
              | Err e => Some e
              | Ok nodes =>
                  check* notANodes_loop (svc_ClusterIP svc) addr nodes in
                  match list_kind l "Service" with
                  | Err e => Some e
                  | Ok services => notTaken_loop svc addr services
                  end
              end
          end
      end
  end.
Definition serviceAddress (lister : Lister) : Plugin := mkPlugin no_admit (serviceAddress_Validate lister).

(** ** service_vip.go *)
(** [lastAddr]: the bits past the prefix set to one. *)
Definition lastAddr (p : Prefix) : Addr :=
  with_num (pf_Addr p) (Z.lor (addr_num (pf_Addr p)) (block_size p - 1)).

(** [serviceVIP.inUse]. *)
Definition inUse (l : string → result error (list Object)) : result AdmissionError (gset string) :=
  let* services := list_kind l "Service" in
  let used := foldl (λ used o, match o with
    | ObjService s => if bool_decide (svc_ClusterIP s = "") then used else {[svc_ClusterIP s]} ∪ used
    | _ => used end) ∅ services in
  let* nodes := list_kind l "Node" in
  Ok (foldl (λ used o, match o with
    | ObjNode n => if bool_decide (ns_IP (node_Status n) = "") then used else {[ns_IP (node_Status n)]} ∪ used
    | _ => used end) used nodes).

(** The scan of [firstFree]: [None] when the range is exhausted. *)
Fixpoint scan (fuel : nat) (prefix : Prefix) (last : Addr) (used : gset string) (a : option Addr) : option string :=
  match fuel, a with
  | S fuel', Some a =>
      if negb (Contains prefix a) then None
      else if Is4 a && bool_decide (a = last) then None
      else if negb (bool_decide (addr_String a ∈ used)) then Some (addr_String a)
      else scan fuel' prefix last used (Next a)
  | _, _ => None
  end.

(** [firstFree]: one address more than are in use is enough to look at. *)
Definition firstFree (cidr : string) (used : gset string) : result AdmissionError string :=
  match ParsePrefix cidr with
  | Err e => Err (FServiceRange cidr e)
  | Ok prefix =>
      let prefix := Masked prefix in
      match scan (S (size used)) prefix (lastAddr prefix) used (Next (pf_Addr prefix)) with
      | Some ip => Ok ip
      | None => Err (FServiceRangeExhausted cidr (size used))
      end
  end.

Definition set_clusterIP (ip : string) (s : Service) : Service := mkService (svc_meta s) ip (svc_Ports s).

Definition serviceVIP_Admit (lister : Lister) (cidr : string) (ctx : Ctx) (a : Attributes)
    : result AdmissionError Attributes :=
  match at_Object a, lister with
  | ObjService svc, Some l =>
      if bool_decide (cidr = "") then Ok a
      else match at_Operation a with
      | Update =>
          if negb (bool_decide (svc_ClusterIP svc = "")) then Ok a
          else match at_OldObject a with
               | Some (ObjService old) => Ok (with_object a (ObjService (set_clusterIP (svc_ClusterIP old) svc)))
               | _ => Ok a
               end
      | Create =>
          if negb (bool_decide (svc_ClusterIP svc = "")) then Ok a
          else
            let* used := inUse l in
            let* ip := firstFree cidr used in
            Ok (with_object a (ObjService (set_clusterIP ip svc)))
      | Delete => Ok a
      end
  | _, _ => Ok a
  end.
Definition serviceVIP (lister : Lister) (cidr : string) : Plugin :=
  mkPlugin (serviceVIP_Admit lister cidr) (λ _ _, None).
End Services.
