(* ===== verification/ServicesTheorems.v ===== *)
(** * What an accepted Service is, and how its address is chosen

    The allocator's scan finds the first free address of the range and gives up only when
    there is none; an accepted service has distinct ports and catalog names, none of them a
    node's, and an address no other service or node has.  Allocation and review disagree on
    one thing: the first compares spellings, the second addresses. *)
From stdpp Require Import gmap strings list.
From Stdlib Require Import ZArith Ascii.
From S2P Require Import Prelude Resources CoreV1 ApiObjects Uids Paths Admission AdmissionFacts Authz.
From S2P Require Import Escalation Allocation References Store AuthzFacts Services.
#[local] Open Scope Z_scope.

Section Scan.
Context {HN : Netip} {HL : NetipLaws}.

Lemma with_num_num a n : addr_num (with_num a n) = n.
Proof. by destruct a. Qed.
Lemma with_num_is4 a n : Is4 (with_num a n) = Is4 a.
Proof. by destruct a. Qed.
Lemma with_num_bits a n : BitLen (with_num a n) = BitLen a.
Proof. unfold BitLen. by rewrite with_num_is4. Qed.
Lemma with_num_inj a n m : with_num a n = with_num a m → n = m.
Proof. intros H. by rewrite <-(with_num_num a n), H, with_num_num. Qed.

Lemma Next_with_num a n :
  Next (with_num a n) = if n + 1 <? 2 ^ BitLen a then Some (with_num a (n + 1)) else None.
Proof. unfold Next. rewrite with_num_num, with_num_bits. by destruct (_ <? _), a. Qed.

(** One turn of the scan at the address of number [n]. *)
Definition scan_body (prefix : Prefix) (last : Addr) (used : gset string) (n : Z) : option (option string) :=
  let a := with_num (pf_Addr prefix) n in
  if negb ((0 <=? n) && (n <? 2 ^ BitLen (pf_Addr prefix))) then Some None
  else if negb (Contains prefix a) then Some None
  else if Is4 a && bool_decide (a = last) then Some None
  else if negb (bool_decide (addr_String a ∈ used)) then Some (Some (addr_String a))
  else None.

Lemma scan_walk fuel prefix last used n :
  0 ≤ n →
  scan fuel prefix last used (if n <? 2 ^ BitLen (pf_Addr prefix) then Some (with_num (pf_Addr prefix) n) else None) =
  default None (walk fuel (scan_body prefix last used) n).
Proof.
  revert n. induction fuel as [|fuel IH]; intros n Hn; simpl; [done|].
  unfold scan_body at 1. rewrite (proj2 (Z.leb_le 0 n) Hn).
  destruct (n <? 2 ^ BitLen (pf_Addr prefix)) eqn:E; simpl; [|done].
  destruct (Contains prefix (with_num _ n)); simpl; [|done]. destruct (Is4 _ && _); simpl; [done|].
  destruct (bool_decide (addr_String _ ∈ used)); simpl; [|done]. rewrite <-IH, Next_with_num by lia. done.
Qed.

Lemma length_omap_le {A B} (f : A → option B) (l : list A) : (length (omap f l) ≤ length l)%nat.
Proof. induction l as [|x l IH]; csimpl; [done|]. destruct (f x); csimpl; lia. Qed.

(** The numbers of the addresses in use. *)
Definition used_nums (used : gset string) : gset Z :=
  list_to_set (omap (λ s, match ParseAddr s with Ok a => Some (addr_num a) | Err _ => None end) (elements used)).

Lemma used_nums_size used : (size (used_nums used) ≤ size used)%nat.
Proof.
  assert (∀ l : list Z, (size (list_to_set l : gset Z) ≤ length l)%nat) as Hl.
  { induction l as [|x l IH]; [done|]. rewrite list_to_set_cons, size_union_alt, size_singleton.
    assert (size ((list_to_set l : gset Z) ∖ {[x]}) ≤ size (list_to_set l : gset Z))%nat
      by (apply subseteq_size; set_solver). cbn [length]. lia. }
  unfold used_nums. etrans; [apply Hl|]. apply length_omap_le.
Qed.

Lemma with_num_ok a n : 0 ≤ n < 2 ^ BitLen a → addr_ok (with_num a n).
Proof. intros H. unfold addr_ok. by rewrite with_num_num, with_num_bits. Qed.

(** A turn that goes on has met an address in use. *)
Lemma scan_body_None prefix last used n :
  scan_body prefix last used n = None →
  0 ≤ n ∧ Contains prefix (with_num (pf_Addr prefix) n) = true ∧ addr_ok (with_num (pf_Addr prefix) n) ∧
  addr_String (with_num (pf_Addr prefix) n) ∈ used ∧
  (Is4 (pf_Addr prefix) = true → with_num (pf_Addr prefix) n ≠ last).
Proof.
  unfold scan_body. destruct (0 <=? n) eqn:E0; simpl; [|done]. destruct (n <? _) eqn:E1; simpl; [|done].
  destruct (Contains _ _) eqn:Ec; simpl; [|done]. destruct (Is4 _ && _) eqn:E4; [done|].
  destruct (bool_decide (addr_String _ ∈ used)) eqn:Hu; simpl; [|done]. apply bool_decide_eq_true in Hu.
  intros _. apply Z.leb_le in E0. apply Z.ltb_lt in E1.
  split_and!; try done; [apply with_num_ok; lia|]. intros H4 E. rewrite with_num_is4, H4 in E4. simpl in E4.
  by rewrite bool_decide_eq_true_2 in E4.
Qed.

(** The scan's fuel is enough: one turn more than there are addresses in use. *)
Lemma scan_fuel prefix last used n : is_Some (walk (S (size used)) (scan_body prefix last used) n).
Proof.
  pose proof (used_nums_size used).
  apply (walk_finds _ _ _ (used_nums used) (λ k, k)); [|done|lia].
  intros k (_ & _ & Hok & Hu & _)%scan_body_None. unfold used_nums.
  apply elem_of_list_to_set, list_elem_of_omap. exists (addr_String (with_num (pf_Addr prefix) k)).
  split; [by apply elem_of_elements|]. by rewrite ParseAddr_String, with_num_num.
Qed.

(** The addresses the allocator may hand out: in the range, past its first one, and not an
    IPv4 range's last. *)
Definition usable (prefix : Prefix) (n : Z) : Prop :=
  addr_num (pf_Addr prefix) < n < 2 ^ BitLen (pf_Addr prefix) ∧
  Contains prefix (with_num (pf_Addr prefix) n) = true ∧
  (Is4 (pf_Addr prefix) = true → with_num (pf_Addr prefix) n ≠ lastAddr prefix).

Lemma masked_addr p : with_num (pf_Addr (Masked p)) (addr_num (pf_Addr (Masked p))) = pf_Addr (Masked p).
Proof. unfold Masked. destruct p as [[]]; done. Qed.

Lemma block_pos p : prefix_ok p → 0 < block_size p.
Proof. intros (_ & Hb & _). unfold block_size. apply Z.pow_pos_nonneg; lia. Qed.

Lemma masked_ok p : prefix_ok p → prefix_ok (Masked p).
Proof.
  intros Hp. pose proof (block_pos p Hp) as Hbs. destruct Hp as (Ha & Hb & Hz). unfold prefix_ok, Masked, addr_ok in *.
  cbn [pf_Addr pf_Bits]. rewrite with_num_num, with_num_bits.
  pose proof (Z.mul_div_le (addr_num (pf_Addr p)) (block_size p) Hbs).
  pose proof (Z.div_pos (addr_num (pf_Addr p)) (block_size p)). split_and!; try lia; try nia.
  by destruct (pf_Addr p).
Qed.

(** The addresses of a masked range are its first and the [block_size - 1] after it. *)
Lemma masked_contains p n :
  prefix_ok p → Contains (Masked p) (with_num (pf_Addr (Masked p)) n) = true ↔
  addr_num (pf_Addr (Masked p)) ≤ n < addr_num (pf_Addr (Masked p)) + block_size p.
Proof.
  intros Hp. pose proof (block_pos p Hp) as Hbs.
  assert (block_size (Masked p) = block_size p) as Eb by (unfold block_size, Masked; simpl; by rewrite with_num_bits).
  assert (Contains (Masked p) (with_num (pf_Addr (Masked p)) n) =
    (n / block_size p =? addr_num (pf_Addr (Masked p)) / block_size p)) as ->.
  { unfold Contains. rewrite Eb. unfold Masked. cbn [pf_Addr]. by destruct (pf_Addr p). }
  rewrite Z.eqb_eq. assert (addr_num (pf_Addr (Masked p)) = addr_num (pf_Addr p) / block_size p * block_size p) as ->
    by (unfold Masked; simpl; by rewrite with_num_num).
  set (k := addr_num (pf_Addr p) / block_size p). rewrite Z.div_mul by lia.
  pose proof (Z.div_mod n (block_size p)). pose proof (Z.mod_pos_bound n (block_size p) Hbs). nia.
Qed.

Lemma contains_below p n m :
  prefix_ok p → Contains (Masked p) (with_num (pf_Addr (Masked p)) n) = true →
  addr_num (pf_Addr (Masked p)) ≤ m ≤ n → Contains (Masked p) (with_num (pf_Addr (Masked p)) m) = true.
Proof. intros Hp. rewrite !masked_contains by done. lia. Qed.

(** The last address of a range is its first plus the block: the low bits are clear. *)
Lemma last_number p :
  prefix_ok p →
  Z.lor (addr_num (pf_Addr (Masked p))) (block_size (Masked p) - 1) = addr_num (pf_Addr (Masked p)) + block_size p - 1.
Proof.
  intros Hp. destruct Hp as (_ & Hb & _).
  assert (block_size (Masked p) = block_size p) as -> by (unfold block_size, Masked; simpl; by rewrite with_num_bits).
  assert (addr_num (pf_Addr (Masked p)) = addr_num (pf_Addr p) / block_size p * block_size p) as ->
    by (unfold Masked; simpl; by rewrite with_num_num).
  unfold block_size. set (k := BitLen (pf_Addr p) - pf_Bits p). set (x := _ / 2 ^ k).
  assert (0 ≤ k) by lia. rewrite <-Z.shiftl_mul_pow2 by done.
  replace (2 ^ k - 1) with (Z.ones k) by (rewrite Z.ones_equiv; lia).
  rewrite <-Z.add_nocarry_lor.
  - rewrite Z.ones_equiv. lia.
  - apply Z.bits_inj'. intros i Hi. rewrite Z.land_spec, Z.bits_0, Z.shiftl_spec by done.
    destruct (decide (i < k)).
    + by rewrite Z.testbit_neg_r by lia.
    + rewrite Z.ones_spec_high by lia. apply andb_false_r.
Qed.

(** The service-address allocator returns the first usable address of its range that
    nothing uses, and reports the range exhausted only when every usable address is in
    use. *)
Theorem firstFree_spec cidr used p :
  ParsePrefix cidr = Ok p →
  match firstFree cidr used with
  | Ok ip => ∃ n, usable (Masked p) n ∧ ip = addr_String (with_num (pf_Addr (Masked p)) n) ∧ ip ∉ used ∧
      ∀ m, addr_num (pf_Addr (Masked p)) < m < n → addr_String (with_num (pf_Addr (Masked p)) m) ∈ used
  | Err _ => ∀ n, usable (Masked p) n → addr_String (with_num (pf_Addr (Masked p)) n) ∈ used
  end.
Proof.
  intros Hp. unfold firstFree. rewrite Hp. apply ParsePrefix_ok in Hp.
  set (q := Masked p). pose proof (masked_ok p Hp) as Hq. fold q in Hq. destruct Hq as (Hok & _).
  set (b := addr_num (pf_Addr q)) in *. set (last := lastAddr q).
  assert (Next (pf_Addr q) = if b + 1 <? 2 ^ BitLen (pf_Addr q) then Some (with_num (pf_Addr q) (b + 1)) else None) as Hnext.
  { transitivity (Next (with_num (pf_Addr q) b)); [|apply Next_with_num]. f_equal. symmetry. apply (masked_addr p). }
  rewrite Hnext, scan_walk by (unfold addr_ok in Hok; fold b in Hok; lia).
  destruct (scan_fuel q last used (b + 1)) as [r Hr]. rewrite Hr. cbn [default].
  apply walk_Some in Hr as (j & Hj & Hbody & Hbefore).
  assert (∀ m, b < m < j → addr_String (with_num (pf_Addr q) m) ∈ used) as Hused.
  { intros m Hm. by apply (scan_body_None q last used m), Hbefore; lia. }
  destruct r as [ip|]; unfold id.
  - exists j. unfold scan_body in Hbody. destruct (0 <=? j); simpl in Hbody; [|done].
    destruct (j <? _) eqn:E1; simpl in Hbody; [|done]. destruct (Contains _ _) eqn:Ec; simpl in Hbody; [|done].
    destruct (Is4 _ && _) eqn:E4; [done|]. destruct (bool_decide (addr_String _ ∈ used)) eqn:Hu; simpl in Hbody; [done|].
    apply bool_decide_eq_false in Hu. simplify_eq.
    apply Z.ltb_lt in E1. split_and!; try done. split_and!; try done; [fold b; lia|].
    intros H4 E. change (Is4 (with_num (pf_Addr q) j) && bool_decide (with_num (pf_Addr q) j = last) = false) in E4.
    rewrite with_num_is4, H4 in E4. by rewrite bool_decide_eq_true_2 in E4.
  - intros n ((Hn1 & Hn2) & Hc & Hl). fold b in Hn1. destruct (decide (n < j)) as [Hlt|Hge]; [by apply Hused|].
    exfalso. unfold scan_body in Hbody. unfold addr_ok in Hok. fold b in Hok.
    rewrite (proj2 (Z.leb_le 0 j)), (proj2 (Z.ltb_lt j _)) in Hbody by lia. cbn [negb andb] in Hbody.
    assert (Contains q (with_num (pf_Addr q) j) = true) as Hcj by (apply (contains_below p n j Hp Hc); fold q b; lia).
    rewrite Hcj in Hbody. cbn [negb] in Hbody.
    destruct (Is4 _ && _) eqn:E4; [|by destruct (bool_decide (addr_String _ ∈ used))]. rewrite with_num_is4 in E4.
    apply andb_true_iff in E4 as [E4 El]. rewrite bool_decide_eq_true in El.
    assert (j = n) as ->; [|by apply Hl].
    assert (j = b + block_size p - 1).
    { apply (with_num_inj (pf_Addr q)). rewrite El. unfold last, lastAddr. f_equal. apply last_number; done. }
    apply (masked_contains p n Hp) in Hc. fold q b in Hc. lia.
Qed.
End Scan.

Section Review.
Context {HQ : Quantity} {HN : Netip} {HL : NetipLaws}.
Implicit Types (s : list Object) (svc : Service).

Lemma ports_ok_None named i sn sp ports :
  ports_ok named i sn sp ports = None →
  NoDup (svp_Port <$> ports) ∧ (∀ p, p ∈ ports → svp_Port p ∉ sp) ∧
  (named = true → NoDup (svp_Name <$> ports) ∧ ∀ p, p ∈ ports → svp_Name p ≠ "" ∧ svp_Name p ∉ sn).
Proof.
  revert i sn sp. induction ports as [|p ports IH]; intros i sn sp; cbn [ports_ok].
  - intros _. split_and!; [apply NoDup_nil_2|by intros p ?%elem_of_nil|]. intros _.
    split; [apply NoDup_nil_2|by intros p ?%elem_of_nil].
  - destruct (named && _) eqn:E1; [done|]. destruct (negb _ && negb (dns1123 _)); [done|].
    destruct (negb _ && bool_decide (svp_Name p ∈ sn)) eqn:E3; [done|].
    destruct (bool_decide (svp_Port p ∈ sp)) eqn:E4; [done|]. apply bool_decide_eq_false in E4.
    destruct (negb _ && negb _); [done|]. intros (H1 & H2 & H3)%IH. split_and!.
    + rewrite fmap_cons. apply NoDup_cons. split; [|done]. intros (q & E & Hq)%list_elem_of_fmap.
      specialize (H2 q Hq). set_solver.
    + intros q [->|Hq]%elem_of_cons; [done|]. specialize (H2 q Hq). set_solver.
    + intros ->. destruct (H3 eq_refl) as [Hn Hs]. cbn [andb] in E1. apply bool_decide_eq_false in E1.
      rewrite bool_decide_eq_false_2 in E3 by done. cbn [negb andb] in E3. apply bool_decide_eq_false in E3.
      split.
      * rewrite fmap_cons. apply NoDup_cons. split; [|done]. intros (q & E & Hq)%list_elem_of_fmap.
        specialize (Hs q Hq). set_solver.
      * intros q [->|Hq]%elem_of_cons; [done|]. specialize (Hs q Hq). set_solver.
Qed.

Lemma catalog_distinct svc :
  ports_ok (1 <? length (svc_Ports svc))%nat 0 ∅ ∅ (svc_Ports svc) = None →
  NoDup (CatalogName svc <$> svc_Ports svc).
Proof.
  intros (_ & _ & H)%ports_ok_None. destruct (svc_Ports svc) as [|p [|q l]] eqn:E.
  - apply NoDup_nil_2.
  - apply NoDup_singleton.
  - rewrite <-E in *. destruct (H ltac:(by rewrite E)) as [Hnd Hs].
    assert (CatalogName svc <$> svc_Ports svc = (λ n, om_Name (svc_meta svc) +:+ "-" +:+ n) <$> (svp_Name <$> svc_Ports svc)) as ->.
    { rewrite <-list_fmap_compose. apply list_fmap_ext. intros i x Hx. unfold CatalogName. simpl.
      rewrite bool_decide_eq_false_2; [done|]. apply Hs. by eapply list_elem_of_lookup_2. }
    apply NoDup_fmap_2; [|done]. intros x y Exy. by apply AuthzFacts.append_inj, AuthzFacts.append_inj in Exy.
Qed.

Lemma notANodeName_None svc os n p :
  notANodeName_loop svc os = None → ObjNode n ∈ os → p ∈ svc_Ports svc → CatalogName svc p ≠ node_Name n.
Proof.
  induction os as [|o os IH]; [by intros _ ?%elem_of_nil|]. intros H [E|Hin]%elem_of_cons Hp.
  - subst o. cbn [notANodeName_loop] in H. destruct (existsb _ _) eqn:Ee; [done|].
    rewrite existsb_elem_false in Ee. specialize (Ee p Hp). by apply bool_decide_eq_false in Ee.
  - apply IH; [|done..]. destruct o; try exact H. cbn [notANodeName_loop] in H. by destruct (existsb _ _).
Qed.

Lemma notANodes_None ip addr os n a :
  notANodes_loop ip addr os = None → ObjNode n ∈ os → ns_IP (node_Status n) ≠ "" →
  ParseAddr (ns_IP (node_Status n)) = Ok a → Unmap a ≠ Unmap addr.
Proof.
  induction os as [|o os IH]; [by intros _ ?%elem_of_nil|]. intros H [E|Hin]%elem_of_cons Hne Ha.
  - subst o. cbn [notANodes_loop] in H. rewrite bool_decide_eq_false_2, Ha in H by done.
    unfold same_addr in H. by case_bool_decide.
  - apply IH; try done. destruct o; try exact H. cbn [notANodes_loop] in H. case_bool_decide; [done|].
    destruct (ParseAddr (ns_IP (node_Status n0))); [|done]. by destruct (same_addr _ _).
Qed.

Lemma notTaken_None svc addr os other a :
  notTaken_loop svc addr os = None → ObjService other ∈ os → svc_ClusterIP other ≠ "" →
  same_service other svc = false → ParseAddr (svc_ClusterIP other) = Ok a → Unmap a ≠ Unmap addr.
Proof.
  induction os as [|o os IH]; [by intros _ ?%elem_of_nil|]. intros H [E|Hin]%elem_of_cons Hne Hs Ha.
  - subst o. cbn [notTaken_loop] in H. rewrite bool_decide_eq_false_2, Hs, Ha in H by done.
    unfold same_addr in H. by case_bool_decide.
  - apply IH; try done. destruct o; try exact H. cbn [notTaken_loop] in H. case_bool_decide; [done|].
    destruct (same_service s svc); [done|].
    destruct (ParseAddr (svc_ClusterIP s)); [|done]. by destruct (same_addr _ _).
Qed.

(** What the two service plugins establish of an address against a store. *)
Definition address_free s svc (addr : Addr) : Prop :=
  (∀ n a, ObjNode n ∈ s → ns_IP (node_Status n) ≠ "" → ParseAddr (ns_IP (node_Status n)) = Ok a → Unmap a ≠ Unmap addr) ∧
  (∀ other a, ObjService other ∈ s → svc_ClusterIP other ≠ "" → same_service other svc = false →
     ParseAddr (svc_ClusterIP other) = Ok a → Unmap a ≠ Unmap addr).

Lemma address_reviewed s ctx op svc old :
  op ≠ Delete → serviceAddress_Validate (Some (listing s)) ctx (mkAttributes op (ObjService svc) old "") = None →
  svc_ClusterIP svc ≠ "" →
  ∃ addr, ParseAddr (svc_ClusterIP svc) = Ok addr ∧ IsUnspecified addr = false ∧ IsMulticast addr = false ∧
    address_free s svc addr.
Proof.
  intros Hop H Hip. unfold serviceAddress_Validate, serviceUnderReview in H. cbn [at_Operation at_Object] in H.
  rewrite bool_decide_eq_false_2 in H by done. change (IsSubresource _) with false in H. cbn [orb] in H.
  rewrite bool_decide_eq_false_2 in H by done. destruct (ParseAddr (svc_ClusterIP svc)) as [addr|]; [|done].
  exists addr. destruct (IsUnspecified addr); [done|]. destruct (IsMulticast addr); [done|]. cbn [list_kind listing] in H.
  destruct (notANodes_loop _ _ _) eqn:En; [done|]. split_and!; try done. split.
  - intros n a Hn Hne Ha. eapply notANodes_None; [done| |done..]. by apply listing_elem.
  - intros other a Ho Hne Hs Ha. eapply notTaken_None; [done| |done..]. by apply listing_elem.
Qed.

(** A Service the chain accepts answers on at least one port, its port numbers and the
    names it registers in the catalog are distinct, none of those names is a node's, and
    its address, when it has one, is a unicast address that no node and no other stored
    service has, however either of them spells it. *)
Theorem service_accepted s ctx op svc old :
  op ≠ Delete →
  servicePolicy_Validate (Some (listing s)) ctx (mkAttributes op (ObjService svc) old "") = None →
  serviceAddress_Validate (Some (listing s)) ctx (mkAttributes op (ObjService svc) old "") = None →
  svc_Ports svc ≠ [] ∧ NoDup (svp_Port <$> svc_Ports svc) ∧ NoDup (CatalogName svc <$> svc_Ports svc) ∧
  (∀ n p, ObjNode n ∈ s → p ∈ svc_Ports svc → CatalogName svc p ≠ node_Name n) ∧
  (svc_ClusterIP svc ≠ "" →
    ∃ addr, ParseAddr (svc_ClusterIP svc) = Ok addr ∧ IsUnspecified addr = false ∧ IsMulticast addr = false ∧
      address_free s svc addr).
Proof.
  intros Hop Hp Ha. unfold servicePolicy_Validate, serviceUnderReview in Hp. cbn [at_Operation at_Object] in Hp.
  rewrite bool_decide_eq_false_2 in Hp by done. change (IsSubresource _) with false in Hp. cbn [orb] in Hp.
  unfold notANodeName in Hp. cbn [list_kind listing] in Hp.
  destruct (notANodeName_loop _ _) eqn:En; [done|]. destruct (_ =? _)%nat eqn:El; [done|].
  split_and!.
  - intros E. by rewrite E in El.
  - by apply ports_ok_None in Hp as (H & _).
  - by apply catalog_distinct.
  - intros n p Hn Hin. eapply notANodeName_None; [done| |done]. by apply listing_elem.
  - by eapply address_reviewed.
Qed.

Lemma Unmap_mapped n : 0 ≤ n < 2 ^ 32 → Unmap (V6 ((16 ^ 4 - 1) * 2 ^ 32 + n) "") = V4 n.
Proof.
  intros Hn. unfold Unmap. rewrite Z.add_comm, Z.div_add, Z.div_small by lia.
  change (0 + (16 ^ 4 - 1) =? 16 ^ 4 - 1) with true. cbn match. by rewrite Z.mod_add, Z.mod_small by lia.
Qed.

(** Allocation compares spellings, review compares addresses: a Service that declares
    the IPv4-mapped spelling of the address the allocator would pick next is invisible to
    the allocator, and every Service created without an address is then refused. *)
Theorem vip_blocked_by_spelling s cidr ctx svc other n :
  cidr ≠ "" → svc_ClusterIP svc = "" →
  (∀ used, inUse (listing s) = Ok used → firstFree cidr used = Ok (addr_String (V4 n))) →
  0 ≤ n < 2 ^ 32 → addr_String (V4 n) ≠ "" →
  ObjService other ∈ s → same_service other svc = false → svc_ClusterIP other ≠ "" →
  svc_ClusterIP other = addr_String (V6 ((16 ^ 4 - 1) * 2 ^ 32 + n) "") →
  ∃ a' e, serviceVIP_Admit (Some (listing s)) cidr ctx (mkAttributes Create (ObjService svc) None "") = Ok a' ∧
    serviceAddress_Validate (Some (listing s)) ctx a' = Some e.
Proof.
  intros Hc Hip Hff Hn Hne Ho Hs Hone Hoip.
  assert (∃ used, inUse (listing s) = Ok used) as [used Hu] by (unfold inUse; simpl; eauto).
  eexists (mkAttributes Create (ObjService (set_clusterIP (addr_String (V4 n)) svc)) None "").
  destruct (serviceAddress_Validate (Some (listing s)) ctx
    (mkAttributes Create (ObjService (set_clusterIP (addr_String (V4 n)) svc)) None "")) as [e|] eqn:Ev.
  - exists e. split; [|done]. unfold serviceVIP_Admit. cbn [at_Object at_Operation].
    rewrite bool_decide_eq_false_2, bool_decide_eq_true_2, Hu by done. cbn [negb]. by rewrite (Hff used Hu).
  - exfalso. apply address_reviewed in Ev as (addr & Hp & _ & _ & _ & Hfree); [|done..]. simpl in Hp.
    rewrite ParseAddr_String in Hp by exact Hn. simplify_eq.
    apply (Hfree other (V6 ((16 ^ 4 - 1) * 2 ^ 32 + n) "")); try done.
    + rewrite Hoip. apply ParseAddr_String. unfold addr_ok, BitLen. cbn [addr_num Is4]. lia.
    + by rewrite Unmap_mapped.
Qed.
End Review.

(** ** An address notation: witnesses of the Service theorems

    A concrete reading of addresses, with which the laws of [NetipLaws] hold: the family, the
    number plus one in decimal and, for IPv6, a slash and the zone; a range is its prefix
    length, a slash and its address. *)
From S2P Require Import AdmissionDemo.
Module ServicesDemo.
Import NanoQuantity GoStrings.
#[local] Open Scope Z_scope.
Definition number_of (s : string) : result error Z :=
  match parse_digits 0 s with Some z => Ok (z - 1) | None => Err "not a number" end.

Definition demo_ParseAddr (s : string) : result error Addr :=
  match s with
  | String "4"%char s' => let* n := number_of s' in Ok (V4 n)
  | String "6"%char s' =>
      match cut "/"%char s' with
      | Some (d, zone) => let* n := number_of d in Ok (V6 n zone)
      | None => Err "no zone"
      end
  | _ => Err "no family"
  end.
Definition demo_addr_String (a : Addr) : string :=
  match a with
  | V4 n => String "4" (itoa (n + 1))
  | V6 n z => String "6" (itoa (n + 1) +:+ String "/" z)
  end.

Definition prefix_okb (p : Prefix) : bool :=
  (0 <=? addr_num (pf_Addr p)) && (addr_num (pf_Addr p) <? 2 ^ BitLen (pf_Addr p)) &&
  ((0 <=? pf_Bits p) && (pf_Bits p <=? BitLen (pf_Addr p))) &&
  match pf_Addr p with V6 _ z => bool_decide (z = "") | V4 _ => true end.
Definition demo_ParsePrefix (s : string) : result error Prefix :=
  match cut "/"%char s with
  | Some (bits, a) =>
      let* b := number_of bits in
      let* addr := demo_ParseAddr a in
      let p := mkPrefix addr (b + 1) in
      if prefix_okb p then Ok p else Err "out of range"
  | None => Err "no length"
  end.

#[export] Instance demo_Netip : Netip :=
  {| ParseAddr := demo_ParseAddr; addr_String := demo_addr_String; ParsePrefix := demo_ParsePrefix |}.

Lemma number_of_itoa n : 0 ≤ n → number_of (itoa (n + 1)) = Ok n.
Proof.
  intros Hn. unfold number_of. rewrite itoa_pos, parse_digits_pretty_go by lia. cbn [parse_digits].
  rewrite Z2N.id by lia. f_equal. lia.
Qed.

#[export] Instance demo_NetipLaws : NetipLaws.
Proof.
  split.
  - intros [n|n z] [Hn _]; cbn [addr_num] in Hn; cbn.
    + by rewrite number_of_itoa.
    + rewrite cut_app by (apply no_slash_itoa; lia). by rewrite number_of_itoa.
  - intros s p. cbn. unfold demo_ParsePrefix. destruct (cut _ s) as [[bits a]|]; [|done].
    destruct (number_of bits) as [b|]; [|done]. destruct (demo_ParseAddr a) as [addr|]; [|done]. cbn.
    destruct (prefix_okb _) eqn:E; [|done]. intros [= <-]. unfold prefix_okb in E.
    rewrite !andb_true_iff, Z.ltb_lt, !Z.leb_le in E. destruct E as [[[? ?] [? ?]] Hz]. split_and!; try done.
    cbn in *. destruct addr; [done|]. by apply bool_decide_eq_true in Hz.
Qed.

(** 10.0.0.0/29, in this notation. *)
Definition range : string := "29/4167772161".

Lemma firstFree_spec_witness :
  let p := mkPrefix (V4 167772160) 29 in
  match firstFree range {["4167772162"]} with
  | Ok ip => ∃ n, usable (Masked p) n ∧ ip = addr_String (with_num (pf_Addr (Masked p)) n) ∧ ip ∉ ({["4167772162"]} : gset string) ∧
      ∀ m, addr_num (pf_Addr (Masked p)) < m < n → addr_String (with_num (pf_Addr (Masked p)) m) ∈ ({["4167772162"]} : gset string)
  | Err _ => ∀ n, usable (Masked p) n → addr_String (with_num (pf_Addr (Masked p)) n) ∈ ({["4167772162"]} : gset string)
  end.
Proof. exact (firstFree_spec range {["4167772162"]} (mkPrefix (V4 167772160) 29) eq_refl). Defined.

Definition service (name ip : string) (ports : list ServicePort) : Service := mkService (meta "red" name ∅) ip ports.
Definition http : ServicePort := mkServicePort "http" 80 "" 0 "".
Definition metrics : ServicePort := mkServicePort "metrics" 9090 "" 0 "".

Lemma service_accepted_witness :
  let svc := service "shop" "4167772162" [http; metrics] in
  svc_Ports svc ≠ [] ∧ NoDup (svp_Port <$> svc_Ports svc).
Proof.
  intros svc.
  destruct (service_accepted [ObjNode demo_node; ObjService (service "db" "4167772163" [http])] None Create svc None)
    as (H1 & H2 & _); [done|vm_compute; reflexivity|vm_compute; reflexivity|]. exact (conj H1 H2).
Defined.

(** A service that declares the mapped spelling of the range's first address. *)
Definition squatter : Service := service "db" "6281470849515522/" [http].
Definition mapped_store : list Object := [ObjService squatter].

Lemma vip_blocked_by_spelling_witness :
  ∃ a' e, serviceVIP_Admit (Some (listing mapped_store)) range None
      (mkAttributes Create (ObjService (service "shop" "" [http])) None "") = Ok a' ∧
    serviceAddress_Validate (Some (listing mapped_store)) None a' = Some e.
Proof.
  apply (vip_blocked_by_spelling mapped_store range None (service "shop" "" [http]) squatter 167772161).
  - done.
  - reflexivity.
  - intros used [= <-]. vm_compute. reflexivity.
  - lia.
  - done.
  - left.
  - reflexivity.
  - done.
  - vm_compute. reflexivity.
Defined.
End ServicesDemo.
