(* ===== verification/AppSet.v ===== *)
(** * ApplicationSets: what a set renders (controller/loops/appset)

    expand.go and init.go, and the pure parts of controller.go: the children and Services a
    set renders, the gate its init steps put before its services, co-location on the
    anchor's node, the merge of a rendered child over the stored one, and the status rolled
    up.  A Go map is a [gmap]; where the code sorts its keys the model does, and where it
    ranges in map order the model takes [map_to_list]'s.  The digest of a spec and the hash
    suffix of an overlong name are parameters. *)
From stdpp Require Import gmap strings list.
From Stdlib Require Import ZArith Ascii.
From S2P Require Import Prelude Resources CoreV1 ApiObjects Uids Paths Admission Authz Services.
#[local] Open Scope Z_scope.

Definition MaxChildren : nat := 500.
Definition PlacementSameNode : string := "sameNode".
Definition FinalizerOrphanDependents : string := "orphan".
Definition AppSetPhaseReady : string := "Ready".
Definition AppSetPhaseProgressing : string := "Progressing".
Definition AppSetPhaseTerminating : string := "Terminating".

(** [fmt]'s %q of a plain name. *)
Definition quote (s : string) : string := String (ascii_of_nat 34) (s +:+ String (ascii_of_nat 34) "").

(** ** sanitizeName *)
(** Bytes of a rune after its first. *)
Definition continuation (c : ascii) : bool := let n := nat_of_ascii c in bool_decide (128 ≤ n < 192)%nat.

Fixpoint sanitize_chars (s : string) : string :=
  match s with
  | EmptyString => ""
  | String c s' =>
      let c := lower_char c in
      if alnum c || bool_decide (c = "-"%char) || bool_decide (c = "."%char) then String c (sanitize_chars s')
      else if continuation c then sanitize_chars s'
      else String "-" (sanitize_chars s')
  end.

Definition edge (c : ascii) : bool := bool_decide (c = "-"%char) || bool_decide (c = "."%char).
Fixpoint trim_edges_left (s : string) : string :=
  match s with String c s' => if edge c then trim_edges_left s' else s | EmptyString => "" end.
Fixpoint trim_edges_right (s : string) : string :=
  match s with
  | EmptyString => ""
  | String c s' =>
      match trim_edges_right s' with
      | EmptyString => if edge c then "" else String c ""
      | t => String c t
      end
  end.

Section Names.
(** The first four bytes of a SHA-256, in hex. *)
Context (hash8 : string → string).

Definition sanitizeName (name : string) : string :=
  let s := trim_edges_right (trim_edges_left (sanitize_chars name)) in
  if (253 <? String.length s)%nat then String.substring 0 244 s +:+ "-" +:+ hash8 s else s.
End Names.

Abbreviation Children := (gmap string Application).

Section AppSet.
Context {HQ : Quantity} (hash8 : string → string) (specHash : ApplicationSpec → string).
Implicit Types (set : ApplicationSet) (comp : NamedApplicationSpec).

Definition aset_Name set : string := om_Name (aset_meta set).
Definition aset_Namespace set : string := om_Namespace (aset_meta set).
Definition aset_UID set : string := om_UID (aset_meta set).

Definition SameNode (s : ApplicationSetSpec) : bool := bool_decide (ass_PlacementMode s = PlacementSameNode).
Definition RolloutBudget (s : ApplicationSetSpec) : Z :=
  if ro_MaxUnavailable (ass_Rollout s) <? 0 then 0 else ro_MaxUnavailable (ass_Rollout s).
Definition Prune (s : ApplicationSetSpec) : bool :=
  match ro_Prune (ass_Rollout s) with None => true | Some b => b end.

(** ** Projection of the shared block *)
Fixpoint project_env (have : gset string) (env common : list EnvVar) : list EnvVar :=
  match common with
  | [] => env
  | e :: common' =>
      if bool_decide (ev_Name e ∈ have) then project_env have env common'
      else project_env ({[ev_Name e]} ∪ have) (env ++ [e]) common'
  end.

Definition with_env_volumes (env : list EnvVar) (vols : list VolumeMount) (s : ApplicationSpec) : ApplicationSpec :=
  mkAppSpec (sp_Image s) (sp_Command s) (sp_Args s) env (sp_Ports s) (sp_Resources s) (sp_Lifecycle s)
    (sp_Placement s) (sp_HostNetwork s) (sp_ServiceName s) (sp_RuntimeClassName s) (sp_SecurityContext s) vols.

(** [projectCommon]. *)
Definition projectCommon (spec : ApplicationSpec) (common : CommonMeta) : ApplicationSpec :=
  let have : gset string := list_to_set (vm_MountPath <$> sp_Volumes spec) in
  with_env_volumes
    (project_env (list_to_set (ev_Name <$> sp_Env spec)) (sp_Env spec) (com_Env common))
    (sp_Volumes spec ++ List.filter (λ m, negb (bool_decide (vm_MountPath m ∈ have))) (com_Volumes common))
    spec.

(** [mergeStrings]: the second wins. *)
Definition mergeStrings (base over : gmap string string) : gmap string string := over ∪ base.

(** [selectorMatches]: an absent label reads as the empty string. *)
Definition selectorMatches (selector have : gmap string string) : bool :=
  forallb (λ kv, bool_decide (default "" (have !! kv.1) = kv.2)) (map_to_list selector).

(** [childLabels]. *)
Definition childLabels set comp : gmap string string :=
  <[LabelComponent := nas_Name comp]> (<[LabelApplicationSet := aset_Name set]>
    (mergeStrings (com_Labels (ass_Common (aset_Spec set))) (cm_Labels (nas_Metadata comp)))).

(** [renderedServiceName]. *)
Definition renderedServiceName set comp : string :=
  if (length (sp_Ports (nas_Spec comp)) =? 0)%nat || negb (bool_decide (sp_ServiceName (nas_Spec comp) = "")) ||
     RunToCompletion (sp_Lifecycle (nas_Spec comp))
  then "" else sanitizeName hash8 (aset_Name set +:+ "-" +:+ nas_Name comp).

(** [serviceFor]. *)
Definition serviceFor set comp : string :=
  if negb (bool_decide (sp_ServiceName (nas_Spec comp) = "")) then sp_ServiceName (nas_Spec comp)
  else renderedServiceName set comp.

Definition set_owner set : OwnerReference :=
  mkOwnerRef GroupVersion "ApplicationSet" (aset_Name set) (aset_UID set) (Some true).

Definition with_service (svc : string) (s : ApplicationSpec) : ApplicationSpec :=
  mkAppSpec (sp_Image s) (sp_Command s) (sp_Args s) (sp_Env s) (sp_Ports s) (sp_Resources s) (sp_Lifecycle s)
    (sp_Placement s) (sp_HostNetwork s) svc (sp_RuntimeClassName s) (sp_SecurityContext s) (sp_Volumes s).
Definition with_nodeName (node : string) (s : ApplicationSpec) : ApplicationSpec :=
  mkAppSpec (sp_Image s) (sp_Command s) (sp_Args s) (sp_Env s) (sp_Ports s) (sp_Resources s) (sp_Lifecycle s)
    (mkPlacement node (pl_NodeSelector (sp_Placement s)) (pl_Affinity (sp_Placement s)) (pl_Priority (sp_Placement s)))
    (sp_HostNetwork s) (sp_ServiceName s) (sp_RuntimeClassName s) (sp_SecurityContext s) (sp_Volumes s).

Definition zero_status : ApplicationStatus := mkAppStatus 0 "" "" "" None 0 0.

(** [buildChild]: the spec is copied, so the set is never written through it. *)
Definition child_spec set comp (node : string) : ApplicationSpec :=
  let spec := projectCommon (nas_Spec comp) (ass_Common (aset_Spec set)) in
  let svc := serviceFor set comp in
  let spec := if bool_decide (svc = "") then spec else with_service svc spec in
  if bool_decide (node = "") then spec else with_nodeName node spec.

Definition child_name set comp (node : string) (replica : option Z) : string :=
  aset_Name set +:+ "-" +:+ nas_Name comp +:+
  match replica with Some i => "-" +:+ GoStrings.itoa i | None => "" end +:+
  (if bool_decide (node = "") then "" else "-" +:+ node).

Definition buildChild set comp (node : string) (replica : option Z) : Application :=
  let spec := child_spec set comp node in
  let annotations := <[AnnAppsetSpecHash := specHash spec]>
    (mergeStrings (com_Annotations (ass_Common (aset_Spec set))) (cm_Annotations (nas_Metadata comp))) in
  mkApplication
    (mkObjectMeta (aset_Namespace set) (sanitizeName hash8 (child_name set comp node replica)) "" "" 0
       (childLabels set comp) annotations 0 None [] [set_owner set])
    spec zero_status.

(** [replicaIndexes]. *)
Definition replicaIndexes comp : list (option Z) :=
  match sc_Replicas (nas_Scale comp) with
  | None => [None]
  | Some n => Some <$> seqZ 0 n
  end.

(** The children of one component, in loop order. *)
Definition component_children set (nodes : list Node) comp : list Application :=
  match sc_NodeSpread (nas_Scale comp) with
  | None => (λ r, buildChild set comp "" r) <$> replicaIndexes comp
  | Some selector =>
      (λ n, buildChild set comp (node_Name n) None) <$>
        List.filter (λ n, selectorMatches selector (SchedulingLabels n)) nodes
  end.

(** The [add] of Expand over the candidates, in order. *)
Fixpoint add_children (seen : gset string) (acc candidates : list Application) : result error (list Application) :=
  match candidates with
  | [] => Ok acc
  | c :: l =>
      if bool_decide (app_Name c ∈ seen) then Err "renders a duplicate child name"
      else if (MaxChildren <=? length acc)%nat then Err "renders more children than the limit"
      else add_children ({[app_Name c]} ∪ seen) (acc ++ [c]) l
  end.

(** [Expand]. *)
Definition Expand set (nodes : list Node) : result error (list Application) :=
  match ass_Applications (aset_Spec set) with
  | [] => Err "has no applications"
  | comps => add_children ∅ [] (comp ← comps; component_children set nodes comp)
  end.

(** int32 of an int. *)
Definition wrap32 (z : Z) : Z := (z + 2 ^ 31) mod 2 ^ 32 - 2 ^ 31.

(** [ExpandServices]. *)
Definition component_service set comp : option Service :=
  let name := renderedServiceName set comp in
  if bool_decide (name = "") then None
  else Some (mkService
    (mkObjectMeta (aset_Namespace set) name "" "" 0
       (<[LabelComponent := nas_Name comp]> {[LabelApplicationSet := aset_Name set]}) ∅ 0 None [] [set_owner set])
    "" ((λ p, mkServicePort (port_Name p) (wrap32 (port_Port p)) "" 0 "") <$> sp_Ports (nas_Spec comp))).
Definition ExpandServices set : list Service := omap (component_service set) (ass_Applications (aset_Spec set)).

(** ** init.go *)
Definition initComponents set : gmap string bool :=
  foldl (λ m comp, <[nas_Name comp := RunToCompletion (sp_Lifecycle (nas_Spec comp))]> m) ∅
    (ass_Applications (aset_Spec set)).
Definition isInit set (component : string) : bool := default false (initComponents set !! component).
Definition componentOf (app : Application) : string := default "" (om_Labels (app_meta app) !! LabelComponent).

Definition keys_of (m : Children) : list string := sort_stable String.ltb (map_to_list m).*1.

(** [childrenOf]. *)
Definition childrenOf (desired : Children) (component : string) : list string :=
  sort_stable String.ltb
    (List.filter (λ kv, bool_decide (componentOf kv.2 = component)) (map_to_list desired)).*1.

Fixpoint anchor_step set (desired : Children) (comps : list NamedApplicationSpec) : option string :=
  match comps with
  | [] => None
  | comp :: comps' =>
      if isInit set (nas_Name comp) then
        match childrenOf desired (nas_Name comp) with
        | name :: _ => Some name
        | [] => anchor_step set desired comps'
        end
      else anchor_step set desired comps'
  end.

(** [anchorChild]. *)
Definition anchorChild set (desired : Children) : string :=
  match anchor_step set desired (ass_Applications (aset_Spec set)) with
  | Some name => name
  | None => match keys_of desired with name :: _ => name | [] => "" end
  end.

Definition initializing (component detail : string) : Condition :=
  mkCondition "Initialized" "False" "Initializing" ("init step " +:+ quote component +:+ " has not completed: " +:+ detail).

Definition exitDetail (app : Application) : string :=
  match st_ExitCode (app_Status app) with
  | None => "the node reported no exit status"
  | Some c => "exit " +:+ GoStrings.itoa c
  end.

(** [stepHold]. *)
Fixpoint stepHold (component : string) (existing : Children) (names : list string) : option Condition :=
  match names with
  | [] => None
  | name :: names' =>
      match existing !! name with
      | None => Some (initializing component ("child " +:+ quote name +:+ " has not been created yet"))
      | Some cur =>
          if bool_decide (st_Phase (app_Status cur) = AppPhaseFailed) then
            Some (mkCondition "Initialized" "False" "InitFailed"
              ("init step " +:+ quote component +:+ " failed: " +:+ exitDetail cur))
          else if negb (Finished cur) then
            Some (initializing component ("child " +:+ quote name +:+ " is still running"))
          else stepHold component existing names'
      end
  end.

(** The loop over the init steps: the children allowed so far and the hold, if any. *)
Fixpoint init_steps set (desired existing : Children) (allowed : Children) (comps : list NamedApplicationSpec)
    : Children * option Condition :=
  match comps with
  | [] => (allowed, None)
  | comp :: comps' =>
      if negb (isInit set (nas_Name comp)) then init_steps set desired existing allowed comps'
      else
        let names := childrenOf desired (nas_Name comp) in
        let allowed := foldl (λ m name, match desired !! name with Some a => <[name := a]> m | None => m end) allowed names in
        match stepHold (nas_Name comp) existing names with
        | Some cond => (allowed, Some cond)
        | None => init_steps set desired existing allowed comps'
        end
  end.

(** [initGate]. *)
Definition initGate set (desired existing : Children) : Children * option Condition :=
  match init_steps set desired existing ∅ (ass_Applications (aset_Spec set)) with
  | (allowed, Some cond) => (allowed, Some cond)
  | (allowed, None) => (filter (λ kv, isInit set (componentOf kv.2) = false) desired ∪ allowed, None)
  end.

(** [initChildCount]. *)
Definition initChildCount set (rendered : list Application) : Z :=
  Z.of_nat (length (List.filter (λ a, isInit set (componentOf a)) rendered)).

(** ** controller.go, the pure parts *)
Definition child_node (a : Application) : string := pl_NodeName (sp_Placement (app_Spec a)).

(** The zero Application a missing key reads as. *)
Definition zero_app : Application :=
  mkApplication zero_meta
    (mkAppSpec "" [] [] [] [] (mkRequirements ra_zero ra_zero) (mkLifecycle "" None None None)
       (mkPlacement "" ∅ None None) None "" "" None []) zero_status.

(** [pinSameNode]. *)
Definition pinSameNode (desired existing : Children) (anchor : string) : Children * bool :=
  if bool_decide (desired = ∅) || bool_decide (anchor = "") then (desired, false)
  else
    let node := match existing !! anchor with Some cur => child_node cur | None => "" end in
    if bool_decide (node = "") then
      ({[anchor := default zero_app (desired !! anchor)]}, true)
    else
      (map_imap (λ name child,
         Some (if negb (bool_decide (name = anchor)) && bool_decide (child_node child = "")
               then with_spec (with_nodeName node) child else child)) desired, false).

(** [readyNodes]. *)
Definition readyNodes (nodes : list Node) : gmap string bool :=
  foldl (λ m n, <[node_Name n := ns_Ready (node_Status n)]> m) ∅ nodes.

(** [childRunning]. *)
Definition childRunning (app : Application) (ready : gmap string bool) : bool :=
  negb (bool_decide (child_node app = "")) && default false (ready !! child_node app) &&
  bool_decide (st_Phase (app_Status app) = AppPhaseRunning) &&
  (st_ObservedGeneration (app_Status app) =? om_Generation (app_meta app)).

(** [ownedRefs], [ownedBySet], [ownedChildren]. *)
Definition ownedRefs (refs : list OwnerReference) (namespace : string) set : bool :=
  match AppsetOwnerOf refs with
  | None => false
  | Some ref => bool_decide (namespace = aset_Namespace set) && bool_decide (or_Name ref = aset_Name set) &&
                bool_decide (or_UID ref = aset_UID set)
  end.
Definition ownedBySet (app : Application) set : bool :=
  ownedRefs (om_OwnerReferences (app_meta app)) (app_Namespace app) set.
Definition by_name (apps : list Application) : Children := foldl (λ m a, <[app_Name a := a]> m) ∅ apps.
Definition ownedChildren set (apps : list Application) : Children :=
  by_name (List.filter (λ a, ownedBySet a set) apps).

Definition hash_of (a : Application) : string := default "" (om_Annotations (app_meta a) !! AnnAppsetSpecHash).

(** [mergeManaged]. *)
Definition mergeManaged (cur desired : Application) : Application * bool :=
  let spec := if bool_decide (child_node desired = "") then with_nodeName (child_node cur) (app_Spec desired)
              else app_Spec desired in
  let changed := negb (bool_decide (hash_of cur = hash_of desired)) ||
    negb (bool_decide (om_Labels (app_meta cur) = om_Labels (app_meta desired))) ||
    (negb (bool_decide (child_node desired = "")) && negb (bool_decide (child_node cur = child_node desired))) in
  (mkApplication
     (set_ownerReferences (om_OwnerReferences (app_meta desired))
        (set_annotations (om_Annotations (app_meta desired))
           (set_labels (om_Labels (app_meta desired)) (app_meta cur)))) spec (app_Status cur),
   changed).

(** [rollupPhase]. *)
Definition rollupPhase (desired current running : Z) (conds : list Condition) : string :=
  match List.find (λ c, bool_decide (cond_Status c = "False") && negb (bool_decide (cond_Reason c = ""))) conds with
  | Some c => cond_Reason c
  | None => if (desired =? current) && (desired =? running) then AppSetPhaseReady else AppSetPhaseProgressing
  end.

Definition child_status set (ready : gmap string bool) (name : string) (a : Application) : ChildStatus :=
  mkChildStatus name (child_node a)
    (if isInit set (componentOf a) then
       if bool_decide (st_Phase (app_Status a) = "") then "Pending" else st_Phase (app_Status a)
     else if bool_decide (child_node a = "") then "Pending"
     else if childRunning a ready then "Running" else "Scheduled").

(** [buildStatus]. *)
Definition buildStatus set (existing : Children) (desired : Z) (nodes : list Node) (conds : list Condition)
    : ApplicationSetStatus :=
  let ready := readyNodes nodes in
  let all := map_to_list existing in
  let services := List.filter (λ kv, negb (isInit set (componentOf kv.2))) all in
  let count f := Z.of_nat (length (List.filter (λ kv : string * Application, f kv.2) services)) in
  let current := Z.of_nat (length services) in
  let scheduled := count (λ a, negb (bool_decide (child_node a = ""))) in
  let running := count (λ a, childRunning a ready) in
  mkAppSetStatus (rollupPhase desired current running conds) "" desired current scheduled running
    ((λ kv, child_status set ready kv.1 kv.2) <$> all) conds.

(** [terminatingPhase]. *)
Definition terminatingPhase (st : ApplicationSetStatus) : ApplicationSetStatus :=
  mkAppSetStatus AppSetPhaseTerminating (asst_ObservedResourceVersion st) (asst_Desired st) (asst_Current st)
    (asst_Scheduled st) (asst_Running st) (asst_Children st) (asst_Conditions st).
End AppSet.
