(* ===== verification/DefaultChain.v ===== *)
(** * The admission chain the controller runs

    applicationset.go and [DefaultChain] (plugins.go): the set plugin, which judges the
    children and Services a set renders as if each had been written by hand, and the seventeen
    plugins in order.  The chain keeps the contract [ReviewChain] of [Store], so every theorem
    proved there of a reviewed store holds of it. *)
From stdpp Require Import gmap strings list.
From Stdlib Require Import ZArith Ascii.
From S2P Require Import Prelude Resources CoreV1 ApiObjects Uids Paths Admission AdmissionFacts Allocation.
From S2P Require Import References Store Policies Authz Escalation Guards Services AppSet.
#[local] Open Scope Z_scope.

Section SetPolicy.
Context {HQ : Quantity} {HN : Netip} (hash8 : string → string) (specHash : ApplicationSpec → string).

(** [validateReplicas]. *)
Definition validateReplicas (i : nat) (comp : NamedApplicationSpec) : option AdmissionError :=
  match sc_Replicas (nas_Scale comp) with
  | None => None
  | Some n =>
      if n <? 1 then Some (EAppSet i "scale.replicas: must be at least 1")
      else match sc_NodeSpread (nas_Scale comp) with
           | Some _ => Some (EAppSet i "scale.replicas and scale.nodeSpread are mutually exclusive fan-outs")
           | None => None
           end
  end.

Fixpoint no_nodeSpread (i : nat) (comps : list NamedApplicationSpec) : option AdmissionError :=
  match comps with
  | [] => None
  | comp :: comps' =>
      match sc_NodeSpread (nas_Scale comp) with
      | Some _ => Some (EAppSet i "nodeSpread contradicts placement.mode=sameNode")
      | None => no_nodeSpread (S i) comps'
      end
  end.

(** [validatePlacement]. *)
Definition validatePlacement (set : ApplicationSet) : option AdmissionError :=
  let mode := ass_PlacementMode (aset_Spec set) in
  if negb (bool_decide (mode = "") || bool_decide (mode = PlacementSameNode))
  then Some (EAppSet 0 "spec.placement.mode is not a known mode")
  else if negb (SameNode (aset_Spec set)) then None
  else no_nodeSpread 0 (ass_Applications (aset_Spec set)).

(** The loop over spec.applications. *)
Fixpoint components_ok (seen : gset string) (i : nat) (comps : list NamedApplicationSpec) : option AdmissionError :=
  match comps with
  | [] => None
  | comp :: comps' =>
      if negb (dns1123 (nas_Name comp)) then Some (EAppSet i "name is not a valid DNS-1123 name")
      else if bool_decide (nas_Name comp ∈ seen) then Some (EAppSet i "duplicate component name")
      else if bool_decide (is_Some (sc_NodeSpread (nas_Scale comp))) &&
              negb (bool_decide (pl_NodeName (sp_Placement (nas_Spec comp)) = ""))
      then Some (EAppSet i "a nodeSpread component must not set spec.placement.nodeName")
      else check* validateReplicas i comp in
           components_ok ({[nas_Name comp]} ∪ seen) (S i) comps'
  end.

(** [applicationSet.nodes]. *)
Definition set_nodes (lister : Lister) : result AdmissionError (list Node) :=
  match lister with
  | None => Ok []
  | Some l => let* list := list_kind l "Node" in
              Ok (omap (λ o, match o with ObjNode n => Some n | _ => None end) list)
  end.

(** A rendered child, judged as a create. *)
Definition child_ok (routed : bool) (ctx : Ctx) (child : Application) : option AdmissionError :=
  match policyEnforcement_Admit ctx (mkAttributes Create (ObjApplication child) None "") with
  | Err e => Some (EChild (app_Name child) e)
  | Ok a =>
      match appPolicy_Validate routed ctx a with
      | Some e => Some (EChild (app_Name child) e)
      | None => EChild (app_Name child) <$> policyEnforcement_Validate ctx a
      end
  end.
Definition service_ok (lister : Lister) (ctx : Ctx) (svc : Service) : option AdmissionError :=
  EChild (om_Name (svc_meta svc)) <$>
    servicePolicy_Validate lister ctx (mkAttributes Create (ObjService svc) None "").

Definition applicationSet_Validate (routed : bool) (lister : Lister) (ctx : Ctx) (a : Attributes)
    : option AdmissionError :=
  if bool_decide (at_Operation a = Delete) || IsSubresource a then None
  else match at_Object a with
  | ObjApplicationSet set =>
      if (length (ass_Applications (aset_Spec set)) =? 0)%nat
      then Some (EAppSet 0 "at least one application is required")
      else
        check* components_ok ∅ 0 (ass_Applications (aset_Spec set)) in
        check* validatePlacement set in
        if ro_MaxUnavailable (ass_Rollout (aset_Spec set)) <? 0
        then Some (EAppSet 0 "maxUnavailable must not be negative")
        else match set_nodes lister with
        | Err e => Some e
        | Ok nodes =>
            match Expand hash8 specHash set nodes with
            | Err e => Some (EExpand e)
            | Ok children =>
                check* first_error (child_ok routed ctx) children in
                first_error (service_ok lister ctx) (ExpandServices hash8 set)
            end
        end
  | _ => None
  end.
Definition applicationSet (routed : bool) (lister : Lister) : Plugin :=
  mkPlugin no_admit (applicationSet_Validate routed lister).

(** ** The chain *)
Context (pem_Decode : list ascii → option (string * list ascii))
  (ParseCertificateRequest : list ascii → result error (string * option error)).
Context `{!EqDecision ApplicationSpec}.

Definition DefaultChain (gates : Gates) (serviceCIDR : string) (routed : bool) (lister : Lister) : list Plugin :=
  [defaulting;
   secretPolicy gates;
   csrPolicy pem_Decode ParseCertificateRequest;
   rbacRules;
   applicationSet routed lister;
   childOwnership;
   finalizerOwnership;
   uidAllocation lister;
   serviceVIP lister serviceCIDR;
   policyEnforcement;
   appPolicy routed;
   servicePolicy lister;
   serviceAddress lister;
   nodePolicy;
   nodeRestriction lister;
   referenceCheck lister;
   capacityCheck lister].

(** ** The contract *)
Lemma shell_refl a : shell a a.
Proof. done. Qed.
Lemma shell_trans a b c : shell a b → shell b c → shell a c.
Proof. intros (? & ? & ?) (? & ? & ?). split_and!; congruence. Qed.
Lemma shell_object a o : key o = key (at_Object a) → shell a (with_object a o).
Proof. done. Qed.

Lemma secret_shell ctx a a' : secretPolicy_Admit ctx a = Ok a' → shell a a'.
Proof.
  unfold secretPolicy_Admit. destruct (at_Object a) eqn:E; intros [= <-]; try apply shell_refl.
  apply shell_object. by rewrite E.
Qed.
Lemma csr_shell ctx a a' : csrPolicy_Admit ctx a = Ok a' → shell a a'.
Proof.
  unfold csrPolicy_Admit. destruct (at_Object a) eqn:E; try (intros [= <-]; apply shell_refl).
  destruct (IsSubresource a); [intros [= <-]; apply shell_refl|].
  destruct (at_Operation a); [| |intros [= <-]; apply shell_refl].
  - intros [= <-]. apply shell_object. rewrite E. by destruct ctx.
  - destruct (at_OldObject a) as [[]|]; try (intros [= <-]; apply shell_refl).
    destruct (_ || _); [done|]. intros [= <-]. apply shell_object. by rewrite E.
Qed.
Lemma ownership_shell ctx a a' : childOwnership_Admit ctx a = Ok a' → shell a a'.
Proof.
  unfold childOwnership_Admit. destruct (clientWrittenApp ctx a) as [app|] eqn:Ec; [|intros [= <-]; apply shell_refl].
  assert (at_Object a = ObjApplication app) as E.
  { unfold clientWrittenApp in Ec. destruct ctx; [|done]. destruct (_ || _); [done|].
    destruct (at_Object a); by simplify_eq. }
  destruct (at_Operation a); [| |intros [= <-]; apply shell_refl].
  - destruct (AppsetOwnerOf _); [done|]. destruct (bool_decide _); [done|].
    destruct (List.find _ _); [done|]. intros [= <-]; apply shell_refl.
  - destruct (at_OldObject a) as [[]|]; intros [= <-]; try apply shell_refl. apply shell_object. by rewrite E.
Qed.
Lemma vip_shell l cidr ctx a a' : serviceVIP_Admit l cidr ctx a = Ok a' → shell a a'.
Proof.
  unfold serviceVIP_Admit. destruct (at_Object a) eqn:E; try (intros [= <-]; apply shell_refl).
  destruct l as [l|]; [|intros [= <-]; apply shell_refl]. destruct (bool_decide _); [intros [= <-]; apply shell_refl|].
  destruct (at_Operation a); [| |intros [= <-]; apply shell_refl].
  - destruct (negb _); [intros [= <-]; apply shell_refl|]. destruct (inUse l) as [used|]; [|done].
    destruct (firstFree cidr used) as [ip|]; [|done].
    intros [= <-]. apply shell_object. by rewrite E.
  - destruct (negb _); [intros [= <-]; apply shell_refl|].
    destruct (at_OldObject a) as [[]|]; intros [= <-]; try apply shell_refl. apply shell_object. by rewrite E.
Qed.

Lemma admit_all_shell c ctx a a' :
  (∀ p a a', p ∈ c → pl_Admit p ctx a = Ok a' → shell a a') → admit_all c ctx a = Ok a' → shell a a'.
Proof.
  revert a. induction c as [|p c IH]; intros a H; cbn [admit_all]; [intros [= <-]; apply shell_refl|].
  destruct (pl_Admit p ctx a) as [a1|] eqn:E; [|done]. intros Ha. eapply shell_trans.
  - eapply H; [left|exact E].
  - apply IH; [|done]. intros q b b' Hq. apply H. by right.
Qed.

Lemma default_shell gates cidr routed l ctx a a' :
  admit_all (DefaultChain gates cidr routed l) ctx a = Ok a' → shell a a'.
Proof.
  apply admit_all_shell. intros p b b' Hp. unfold DefaultChain in Hp. rewrite !elem_of_cons, elem_of_nil in Hp.
  repeat destruct Hp as [->|Hp]; cbn [pl_Admit]; unfold no_admit; try (intros [= <-]; apply shell_refl); try done.
  - apply secret_shell.
  - apply csr_shell.
  - apply ownership_shell.
  - apply finalizer_shell.
  - apply uid_shell.
  - apply vip_shell.
  - apply policy_shell.
Qed.

(** On a namespace only the finalizer and the uid plugins act. *)
Lemma namespace_admits ctx l cidr a n :
  at_Object a = ObjNamespace n →
  secretPolicy_Admit ctx a = Ok a ∧ csrPolicy_Admit ctx a = Ok a ∧ childOwnership_Admit ctx a = Ok a ∧
  serviceVIP_Admit l cidr ctx a = Ok a ∧ policyEnforcement_Admit ctx a = Ok a.
Proof.
  intros E. unfold secretPolicy_Admit, csrPolicy_Admit, childOwnership_Admit, clientWrittenApp, serviceVIP_Admit,
    policyEnforcement_Admit. rewrite E. split_and!; try done.
  - destruct ctx; [|done]. by destruct (_ || _).
  - by destruct (bool_decide _).
Qed.

Lemma default_namespace gates cidr routed l ctx op n old a' :
  op ≠ Delete →
  admit_all (DefaultChain gates cidr routed (Some l)) ctx (mkAttributes op (ObjNamespace n) old "") = Ok a' →
  ∃ n1 n', om_Annotations (nsp_meta n1) = om_Annotations (nsp_meta n) ∧ nsp_Name n1 = nsp_Name n ∧
    assignBlock l n1 = Ok n' ∧ at_Object a' = ObjNamespace n'.
Proof.
  intros Hop H. apply (core_namespace routed l ctx op n old a' Hop). revert H.
  unfold DefaultChain, core_chain, defaulting, secretPolicy, csrPolicy, rbacRules, applicationSet, childOwnership,
    finalizerOwnership, uidAllocation, serviceVIP, policyEnforcement, appPolicy, servicePolicy, serviceAddress,
    nodePolicy, nodeRestriction, referenceCheck, capacityCheck, no_admit. cbn [admit_all pl_Admit].
  set (a := mkAttributes op (ObjNamespace n) old "").
  destruct (namespace_admits ctx (Some l) cidr a n eq_refl) as (-> & -> & -> & _ & _).
  destruct (finalizerOwnership_Admit ctx a) as [a1|] eqn:E1; [|done].
  destruct (uidAllocation_Admit (Some l) ctx a1) as [a2|] eqn:E2; [|done].
  assert (∃ n2, at_Object a2 = ObjNamespace n2) as [n2 Hn2].
  { apply finalizer_shell in E1 as (_ & _ & K1). apply uid_shell in E2 as (_ & _ & K2).
    rewrite K1 in K2. apply key_kind in K2. by apply kind_ns. }
  by destruct (namespace_admits ctx (Some l) cidr a2 n2 Hn2) as (_ & _ & _ & -> & ->).
Qed.

#[export] Instance default_chain_review gates cidr routed : ReviewChain (DefaultChain gates cidr routed).
Proof.
  split.
  - intros l. unfold DefaultChain. do 15 right. left.
  - intros l. unfold DefaultChain. do 7 right. left.
  - intros l. unfold DefaultChain. do 9 right. left.
  - intros l ctx a a'. apply default_shell.
  - intros l ctx op n old a'. apply default_namespace.
Qed.

(** ** A set is no way around a refusal *)
Lemma components_ok_None seen i comps :
  components_ok seen i comps = None →
  NoDup (nas_Name <$> comps) ∧ (∀ c, c ∈ comps → nas_Name c ∉ seen) ∧
  ∀ c n, c ∈ comps → sc_Replicas (nas_Scale c) = Some n → 1 ≤ n ∧ sc_NodeSpread (nas_Scale c) = None.
Proof.
  revert seen i. induction comps as [|c comps IH]; intros seen i; cbn [components_ok].
  { intros _. split_and!; [constructor|set_solver|set_solver]. }
  destruct (negb (dns1123 _)); [done|]. destruct (decide (nas_Name c ∈ seen)) as [Hs|Hs];
    [by rewrite (bool_decide_eq_true_2 _ Hs)|rewrite (bool_decide_eq_false_2 _ Hs)].
  destruct (_ && _); [done|]. destruct (validateReplicas i c) eqn:Er; [done|].
  intros (Hnd & Hseen & Hrep)%IH. split_and!.
  - rewrite fmap_cons, NoDup_cons. split; [|done]. intros (c' & Hc' & Hin)%list_elem_of_fmap.
    apply (Hseen c' Hin). rewrite <- Hc'. set_solver.
  - intros c' [->|Hin]%elem_of_cons; [done|]. specialize (Hseen c' Hin). set_solver.
  - intros c' n [->|Hin]%elem_of_cons; [|by apply Hrep]. unfold validateReplicas in Er. intros E. rewrite E in Er.
    destruct (Z.ltb_spec n 1); [done|]. destruct (sc_NodeSpread _); [done|]. done.
Qed.

(** The nodes of a store. *)
Definition fleet_of (s : list Object) : list Node :=
  omap (λ o, match o with ObjNode n => Some n | _ => None end) (List.filter (λ o, bool_decide (obj_Kind o = "Node")) s).

(** A child as a create would leave it after the floor's defaults. *)
Definition floored (ctx : Ctx) (child : Application) : option Application :=
  match policyEnforcement_Admit ctx (mkAttributes Create (ObjApplication child) None "") with
  | Ok (mkAttributes _ (ObjApplication app) _ _) => Some app
  | _ => None
  end.

Lemma child_ok_floor routed ctx child :
  child_ok routed ctx child = None →
  ∃ app, floored ctx child = Some app ∧ floor_holds app ∧
    appPolicy_Validate routed ctx (mkAttributes Create (ObjApplication app) None "") = None.
Proof.
  unfold child_ok, floored. destruct (policyEnforcement_Admit ctx _) as [a|] eqn:E; [|done].
  destruct (policy_shell _ _ _ E) as (Hop & Hsub & Hk). apply key_kind in Hk.
  cbn [at_Operation at_Subresource at_Object obj_Kind] in Hop, Hsub, Hk. apply kind_app in Hk as [app Ho].
  assert (at_OldObject a = None) as Hold.
  { revert E. unfold policyEnforcement_Admit. cbn. by intros [= <-]. }
  destruct a as [op o old sub]. cbn in Hop, Hsub, Ho, Hold. subst. cbn.
  destruct (appPolicy_Validate _ _ _) eqn:Ea; [done|].
  destruct (policyEnforcement_Validate _ _) eqn:Ep; [done|]. intros _. exists app. split_and!; [done| |done].
  by apply (policyEnforcement_floor ctx (mkAttributes Create (ObjApplication app) None "")).
Qed.

(** An ApplicationSet the chain accepts is no way around a refusal: it expands over the
    nodes the store holds, to children with distinct names; each child, judged as if it had been
    written by hand, satisfies the no-root floor and the application policy; each Service it
    renders satisfies the service policy; its components are distinct and its fan-outs do not
    contradict each other. *)
Theorem set_no_bypass routed s ctx op set old :
  op ≠ Delete →
  applicationSet_Validate routed (Some (listing s)) ctx (mkAttributes op (ObjApplicationSet set) old "") = None →
  (∃ children, Expand hash8 specHash set (fleet_of s) = Ok children ∧
    ∀ child, child ∈ children → ∃ app, floored ctx child = Some app ∧ floor_holds app ∧
      appPolicy_Validate routed ctx (mkAttributes Create (ObjApplication app) None "") = None) ∧
  (∀ svc, svc ∈ ExpandServices hash8 set →
     servicePolicy_Validate (Some (listing s)) ctx (mkAttributes Create (ObjService svc) None "") = None) ∧
  NoDup (nas_Name <$> ass_Applications (aset_Spec set)) ∧
  (∀ c n, c ∈ ass_Applications (aset_Spec set) → sc_Replicas (nas_Scale c) = Some n →
     1 ≤ n ∧ sc_NodeSpread (nas_Scale c) = None) ∧
  0 ≤ ro_MaxUnavailable (ass_Rollout (aset_Spec set)).
Proof.
  intros Hop. unfold applicationSet_Validate. cbn [at_Operation at_Object].
  rewrite bool_decide_eq_false_2 by done. change (IsSubresource _) with false. cbn [orb].
  destruct (_ =? 0)%nat; [done|]. destruct (components_ok _ _ _) eqn:Ec; [done|].
  apply components_ok_None in Ec as (Hnd & _ & Hrep).
  destruct (validatePlacement set); [done|]. destruct (Z.ltb_spec (ro_MaxUnavailable (ass_Rollout (aset_Spec set))) 0); [done|].
  change (set_nodes (Some (listing s))) with (Ok (fleet_of s) : result AdmissionError (list Node)).
  cbv beta iota. destruct (Expand _ _ _ _) as [children|] eqn:Ex; [|done].
  destruct (first_error (child_ok routed ctx) children) eqn:Echild; [done|]. intros Esvc.
  pose proof (proj1 (first_error_None _ _) Echild) as Hchild. pose proof (proj1 (first_error_None _ _) Esvc) as Hsvc.
  clear Echild Esvc. split_and!; try done.
  - exists children. split; [done|]. intros child Hc. by apply child_ok_floor, Hchild.
  - intros svc Hs. specialize (Hsvc svc Hs). unfold service_ok in Hsvc. by apply fmap_None in Hsvc.
Qed.
End SetPolicy.
