(* ===== verification/AppSetLoop.v ===== *)
(** * The ApplicationSet loop (controller/loops/appset/controller.go)

    One pass of the loop against a cluster.  The cluster is what the loop sees of it: the
    lists it reads, and for each write the error it answers.  [reply] and [services] answer
    as a function of the writes made so far, so that every behaviour of the cluster during a
    pass is some choice of them; the pass itself is the list of writes it makes, in order. *)
From stdpp Require Import gmap strings list.
From Stdlib Require Import ZArith Ascii.
From S2P Require Import Prelude Resources CoreV1 ApiObjects Uids Paths Admission Authz Services AppSet.
#[local] Open Scope Z_scope.

Section Loop.
Context {HQ : Quantity} (hash8 : string → string) (specHash : ApplicationSpec → string).

(** The writes of [Cluster]. *)
Inductive Act :=
| ActCreateApplication (a : Application)
| ActUpdateApplication (a : Application)
| ActDeleteApplication (namespace name : string)
| ActCreateService (s : Service)
| ActUpdateService (s : Service)
| ActDeleteService (namespace name : string)
| ActUpdateSetStatus (set : ApplicationSet)
| ActUpdateSet (set : ApplicationSet)
| ActDeleteSet (namespace name : string).

Abbreviation Log := (list Act).

Context (reply : Log → Act → option error) (services : Log → result error (list Service)).
Implicit Types (set : ApplicationSet) (log : Log).

(** A write, and the error it answers. *)
Definition call (act : Act) log : Log * option error := (log ++ [act], reply log act).

Definition set_status (st : ApplicationSetStatus) set : ApplicationSet :=
  mkAppSet (aset_meta set) (aset_Spec set) st.

(** [childSetEqual]. *)
Definition zero_child : ChildStatus := mkChildStatus "" "" "".
Definition childSetEqual (a b : list ChildStatus) : bool :=
  let index := foldl (λ m c, <[chs_Name c := c]> m) (∅ : gmap string ChildStatus) a in
  (length a =? length b)%nat &&
  forallb (λ c, bool_decide (default zero_child (index !! chs_Name c) = c)) b.

(** [statusEqual]. *)
Definition statusEqual (a b : ApplicationSetStatus) : bool :=
  bool_decide (asst_Phase a = asst_Phase b) &&
  ((asst_Desired a =? asst_Desired b) && (asst_Current a =? asst_Current b) &&
   (asst_Scheduled a =? asst_Scheduled b) && (asst_Running a =? asst_Running b)) &&
  bool_decide (asst_Conditions a = asst_Conditions b) &&
  childSetEqual (asst_Children a) (asst_Children b).

Definition write_if_changed set (st : ApplicationSetStatus) log : Log :=
  if statusEqual (aset_Status set) st then log
  else (call (ActUpdateSetStatus (set_status st set)) log).1.

(** [writeStatus]. *)
Definition writeStatus set existing (desired : Z) nodes conds log : Log :=
  write_if_changed set (buildStatus set existing desired nodes conds) log.

(** [holdTerminating]. *)
Definition holdTerminating set existing log : Log :=
  write_if_changed set (terminatingPhase (buildStatus set existing (asst_Desired (aset_Status set)) [] [])) log.

(** ** Deletion of a set *)
Definition orphanRequested set : bool := bool_decide (FinalizerOrphanDependents ∈ om_Finalizers (aset_meta set)).

(** [ReleaseAppsetChild]. *)
Definition release_app (a : Application) : Application :=
  mkApplication (ReleaseAppsetMeta (app_meta a)) (app_Spec a) (app_Status a).

(** [release]: the writes and whether every child made it. *)
Definition release (existing : Children) log : Log * bool :=
  foldl (λ '(log, ok) kv,
    let '(log, err) := call (ActUpdateApplication (release_app kv.2)) log in
    (log, ok && bool_decide (err = None))) (log, true) (map_to_list existing).

(** [ownedServices]. *)
Definition ownedServices set log : result error (list Service) :=
  let* all := services log in
  Ok (List.filter (λ s, ownedRefs (om_OwnerReferences (svc_meta s)) (om_Namespace (svc_meta s)) set) all).

(** [releaseServices]. *)
Definition releaseServices set log : Log * bool :=
  match ownedServices set log with
  | Err _ => (log, false)
  | Ok owned =>
      foldl (λ '(log, ok) s,
        let '(log, err) := call (ActUpdateService
          (mkService (ReleaseAppsetMeta (svc_meta s)) (svc_ClusterIP s) (svc_Ports s))) log in
        (log, ok && bool_decide (err = None))) (log, true) owned
  end.

(** Deletes until one fails. *)
Fixpoint delete_services (owned : list Service) log : Log * bool :=
  match owned with
  | [] => (log, true)
  | s :: owned' =>
      let '(log, err) := call (ActDeleteService (om_Namespace (svc_meta s)) (om_Name (svc_meta s))) log in
      match err with None => delete_services owned' log | Some _ => (log, false) end
  end.

Definition kept_finalizers set : list string :=
  List.filter (λ f, negb (bool_decide (f = FinalizerChildTeardown) || bool_decide (f = FinalizerOrphanDependents)))
    (om_Finalizers (aset_meta set)).

(** The end of [finishCascade]: drop the hold, then erase the set. *)
Definition drop_hold set log : Log :=
  let kept := kept_finalizers set in
  let '(log, ok) :=
    if (length kept <? length (om_Finalizers (aset_meta set)))%nat then
      let '(log, err) := call (ActUpdateSet
        (mkAppSet (set_finalizers kept (aset_meta set)) (aset_Spec set) (aset_Status set))) log in
      (log, bool_decide (err = None))
    else (log, true) in
  if negb ok then log
  else match kept with
       | [] => (call (ActDeleteSet (aset_Namespace set) (aset_Name set)) log).1
       | _ => log
       end.

(** [finishCascade]. *)
Definition finishCascade set log : Log :=
  if orphanRequested set then drop_hold set log
  else match ownedServices set log with
       | Err _ => log
       | Ok owned => let '(log, ok) := delete_services owned log in if ok then drop_hold set log else log
       end.

(** [cascade]. *)
Definition cascade set (existing : Children) log : Log :=
  if orphanRequested set then
    let '(log, ok) := releaseServices set log in
    if negb ok then holdTerminating set existing log
    else let '(log, ok) := release existing log in
         if negb ok then holdTerminating set existing log else finishCascade set log
  else
    let log := foldl (λ log kv,
      if Deleting kv.2 then log
      else (call (ActDeleteApplication (app_Namespace kv.2) (app_Name kv.2)) log).1) log (map_to_list existing) in
    if negb (bool_decide (existing = ∅)) then holdTerminating set existing log else finishCascade set log.

(** ** Services *)
Definition serviceHasMembers (apps : list Application) (svc : Service) : bool :=
  existsb (λ a, bool_decide (app_Namespace a = om_Namespace (svc_meta svc)) &&
                bool_decide (sp_ServiceName (app_Spec a) = om_Name (svc_meta svc))) apps.

Definition services_by_name (l : list Service) : gmap string Service :=
  foldl (λ m s, <[om_Name (svc_meta s) := s]> m) ∅ l.

Definition converge_service (byName owned desired : gmap string Service) log (name : string) : Log :=
  match desired !! name, byName !! name with
  | None, _ => log
  | Some want, None => (call (ActCreateService want) log).1
  | Some want, Some cur =>
      if negb (bool_decide (is_Some (owned !! name))) then log
      else if bool_decide (svc_Ports cur = svc_Ports want) then log
      else (call (ActUpdateService (mkService (svc_meta cur) (svc_ClusterIP cur) (svc_Ports want))) log).1
  end.

(** [convergeServices]. *)
Definition convergeServices set (apps : list Application) log : Log :=
  match services log with
  | Err _ => log
  | Ok all =>
      let mine := List.filter (λ s, bool_decide (om_Namespace (svc_meta s) = aset_Namespace set)) all in
      let byName := services_by_name mine in
      let owned := services_by_name
        (List.filter (λ s, ownedRefs (om_OwnerReferences (svc_meta s)) (om_Namespace (svc_meta s)) set) mine) in
      let desired := services_by_name (ExpandServices hash8 set) in
      let log := foldl (converge_service byName owned desired) log (sort_stable String.ltb (map_to_list desired).*1) in
      if negb (Prune (aset_Spec set)) then log
      else foldl (λ log kv,
        if bool_decide (is_Some (desired !! kv.1)) || serviceHasMembers apps kv.2 then log
        else (call (ActDeleteService (om_Namespace (svc_meta kv.2)) kv.1) log).1) log (map_to_list owned)
  end.

(** ** One set *)
Definition converged : Condition := mkCondition "Converged" "True" "Converged" "".
Definition awaiting_anchor : Condition :=
  mkCondition "Converged" "False" "AwaitingAnchor" "co-located set: waiting for the anchor child to be scheduled".
Definition rollout_held (budget : Z) : Condition :=
  mkCondition "Converged" "False" "RolloutHeld" ("rolling update held at maxUnavailable=" +:+ GoStrings.itoa budget).

(** The children already down, of those the set wants. *)
Definition already_down (desired existing : Children) (ready : gmap string bool) : Z :=
  Z.of_nat (length (List.filter (λ kv, bool_decide (is_Some (desired !! kv.1)) && negb (childRunning kv.2 ready))
    (map_to_list existing))).

(** The rollout loop over the sorted names: the writes and the condition left. *)
Fixpoint roll (desired existing : Children) (ready : gmap string bool) (budget unavailable : Z) (cond : Condition)
    (names : list string) log : Log * Condition :=
  match names with
  | [] => (log, cond)
  | name :: names' =>
      match desired !! name with
      | None => roll desired existing ready budget unavailable cond names' log
      | Some d =>
          match existing !! name with
          | None => roll desired existing ready budget unavailable cond names' (call (ActCreateApplication d) log).1
          | Some cur =>
              let '(merged, changed) := mergeManaged cur d in
              if negb changed then roll desired existing ready budget unavailable cond names' log
              else
                let available := childRunning cur ready in
                if available && (0 <? budget) && (budget <=? unavailable) then (log, rollout_held budget)
                else
                  let '(log, err) := call (ActUpdateApplication merged) log in
                  match err with
                  | Some _ => roll desired existing ready budget unavailable cond names' log
                  | None => roll desired existing ready budget
                      (if available && (0 <? budget) then unavailable + 1 else unavailable) cond names' log
                  end
          end
      end
  end.

(** The prune of the children the pass does not want. *)
Definition prune_children (desired existing : Children) log : Log :=
  foldl (λ log kv, if bool_decide (is_Some (desired !! kv.1)) then log
                   else (call (ActDeleteApplication (app_Namespace kv.2) kv.1) log).1) log (map_to_list existing).

(** The children a pass wants, with the conditions that hold some back. *)
Definition wanted set (nodes : list Node) (existing : Children) (rendered : list Application)
    : Children * option Condition * Condition :=
  let '(desired, initCond) := initGate set (by_name rendered) existing in
  if SameNode (aset_Spec set) then
    let '(desired, held) := pinSameNode desired existing (anchorChild set desired) in
    (desired, initCond, if held : bool then awaiting_anchor else converged)
  else (desired, initCond, converged).

(** [reconcileSet]. *)
Definition reconcileSet set (nodes : list Node) (apps : list Application) log : Log :=
  let existing := ownedChildren set apps in
  if aset_Deleting set then cascade set existing log
  else match Expand hash8 specHash set nodes with
  | Err e =>
      writeStatus set existing (asst_Desired (aset_Status set)) nodes [mkCondition "Rendered" "False" "RenderError" e] log
  | Ok rendered =>
      let log := convergeServices set apps log in
      let '(desired, initCond, cond) := wanted set nodes existing rendered in
      let serviceCount := Z.of_nat (length rendered) - initChildCount set rendered in
      let ready := readyNodes nodes in
      let budget := RolloutBudget (aset_Spec set) in
      let unavailable := if 0 <? budget then already_down desired existing ready else 0 in
      let '(log, cond) := roll desired existing ready budget unavailable cond (keys_of desired) log in
      let log := if Prune (aset_Spec set) then prune_children desired existing log else log in
      writeStatus set existing serviceCount nodes
        ([mkCondition "Rendered" "True" "Expanded" ""; cond] ++ option_list initCond) log
  end.

(** ** A pass *)
Definition set_key set : string := aset_Namespace set +:+ "/" +:+ aset_Name set.

(** Whether the sweep keeps a child: a live set still owns it. *)
Definition gc_keeps (live : gmap string ApplicationSet) (a : Application) (ref : OwnerReference) : bool :=
  match live !! (app_Namespace a +:+ "/" +:+ or_Name ref) with
  | Some s => ownedBySet a s
  | None => false
  end.

Definition gc_step (live : gmap string ApplicationSet) log (a : Application) : Log :=
  match AppsetOwnerOf (om_OwnerReferences (app_meta a)) with
  | None => log
  | Some ref => if gc_keeps live a ref then log
                else (call (ActDeleteApplication (app_Namespace a) (app_Name a)) log).1
  end.

(** [reconcileOnce]. *)
Definition reconcileOnce (sets : result error (list ApplicationSet)) (nodes : result error (list Node))
    (apps : result error (list Application)) : Log :=
  match sets, nodes, apps with
  | Ok sets, Ok nodes, Ok apps =>
      let live := foldl (λ m s, <[set_key s := s]> m) ∅ sets in
      let log := foldl (gc_step live) [] apps in
      foldl (λ log s, reconcileSet s nodes apps log) log sets
  | _, _, _ => []
  end.
End Loop.
