(* ===== verification/AppSetFacts.v ===== *)
(** * ApplicationSets: rendering, and lemmas on the maps a pass works on

    What [Expand] answers on every input, that no child carries a secret its set did not
    name, and the facts the theorems on passes share: logs that grow, and the ownership of
    the children a pass wants. *)
From stdpp Require Import gmap strings list.
From Stdlib Require Import ZArith Ascii.
From S2P Require Import Prelude Resources CoreV1 ApiObjects Uids Paths Admission Authz Escalation Services.
From S2P Require Import AppSet AppSetLoop.
#[local] Open Scope Z_scope.

(** ** Ownership *)
Section Ownership.
Context {HQ : Quantity}.
Implicit Types (set : ApplicationSet).

(** [m] is controlled by the set: its first controlling ApplicationSet reference names the set,
    by name and uid, and they share the namespace. *)
Definition controlled_by set (m : ObjectMeta) : Prop :=
  om_Namespace m = aset_Namespace set ∧
  ∃ ref, AppsetOwnerOf (om_OwnerReferences m) = Some ref ∧ or_Name ref = aset_Name set ∧ or_UID ref = aset_UID set.

Lemma ownedRefs_controlled set m : ownedRefs (om_OwnerReferences m) (om_Namespace m) set = true ↔ controlled_by set m.
Proof.
  unfold ownedRefs, controlled_by. destruct (AppsetOwnerOf _) as [ref|]; [|naive_solver].
  rewrite !andb_true_iff, !bool_decide_eq_true. naive_solver.
Qed.
Lemma ownedBySet_controlled set a : ownedBySet a set = true → controlled_by set (app_meta a).
Proof. apply ownedRefs_controlled. Qed.

End Ownership.

Section Rendering.
Context {HQ : Quantity} (hash8 : string → string) (specHash : ApplicationSpec → string).
Implicit Types (set : ApplicationSet) (comp : NamedApplicationSpec).

(** The children a set stands for, before the limits are applied. *)
Definition candidates set (nodes : list Node) : list Application :=
  comp ← ass_Applications (aset_Spec set); component_children hash8 specHash set nodes comp.

Lemma add_children_Ok seen acc cs l :
  add_children seen acc cs = Ok l ↔
  l = acc ++ cs ∧ NoDup (app_Name <$> cs) ∧ (∀ c, c ∈ cs → app_Name c ∉ seen) ∧
  (cs ≠ [] → length (acc ++ cs) ≤ MaxChildren)%nat.
Proof.
  revert seen acc. induction cs as [|c cs IH]; intros seen acc; cbn [add_children].
  { rewrite app_nil_r. split; [intros [= <-]|by intros [-> _]].
    split_and!; [done|constructor|set_solver|done]. }
  destruct (decide (app_Name c ∈ seen)) as [Hs|Hs].
  { rewrite (bool_decide_eq_true_2 _ Hs). split; [done|].
    intros (_ & _ & Hn & _). exfalso. by apply (Hn c); [left|]. }
  rewrite (bool_decide_eq_false_2 _ Hs).
  destruct (Nat.leb_spec MaxChildren (length acc)) as [Hl|Hl].
  { split; [done|]. intros (_ & _ & _ & Hle). specialize (Hle ltac:(done)).
    rewrite length_app in Hle. simpl in Hle. lia. }
  rewrite IH, <- (assoc_L (++)). rewrite fmap_cons, NoDup_cons, !length_app. simpl. split.
  - intros (-> & Hnd & Hnot & Hle). split_and!; [done| |done| |].
    + intros (c' & Hc' & Hin)%list_elem_of_fmap. apply (Hnot c' Hin). rewrite Hc'. set_solver.
    + intros c' [->|Hin]%elem_of_cons; [done|]. specialize (Hnot c' Hin). set_solver.
    + intros _. destruct cs; simpl in *; [lia|]. specialize (Hle ltac:(done)). lia.
  - intros (-> & (Hni & Hnd) & Hnot & Hle). specialize (Hle ltac:(done)). split_and!; [done|done| |lia].
    intros c' Hin. rewrite not_elem_of_union, not_elem_of_singleton. split.
    + intros Heq. apply Hni. apply list_elem_of_fmap. by exists c'.
    + apply Hnot. by right.
Qed.

(** [Expand] succeeds exactly when the set has an application, no two of the children it
    stands for share a name and there are at most [MaxChildren] of them; its answer is then
    those children, all of them, in order. *)
Theorem Expand_spec set nodes l :
  Expand hash8 specHash set nodes = Ok l ↔
  l = candidates set nodes ∧ ass_Applications (aset_Spec set) ≠ [] ∧
  NoDup (app_Name <$> l) ∧ (length l ≤ MaxChildren)%nat.
Proof.
  unfold Expand, candidates. destruct (ass_Applications (aset_Spec set)) as [|comp comps] eqn:E.
  { split; [done|by intros (_ & ? & _)]. }
  rewrite add_children_Ok. simpl. split.
  - intros (-> & Hnd & _ & Hle). split_and!; [done|done|done|].
    destruct (_ ++ _) eqn:E'; [simpl; lia|by apply Hle].
  - intros (-> & _ & Hnd & Hle). split_and!; [done|done|set_solver|done].
Qed.

(** ** What a child carries *)
Lemma candidates_elem set nodes a :
  a ∈ candidates set nodes ↔
  ∃ comp, comp ∈ ass_Applications (aset_Spec set) ∧ a ∈ component_children hash8 specHash set nodes comp.
Proof. unfold candidates. rewrite list_elem_of_bind. set_solver. Qed.

Lemma component_children_build set nodes comp a :
  a ∈ component_children hash8 specHash set nodes comp →
  ∃ node r, a = buildChild hash8 specHash set comp node r ∧
            (node = "" ∨ ∃ n, n ∈ nodes ∧ node = node_Name n).
Proof.
  unfold component_children. destruct (sc_NodeSpread _) as [sel|].
  - intros (n & -> & [Hn _]%filter_elem)%list_elem_of_fmap. exists (node_Name n), None. eauto.
  - intros (r & -> & _)%list_elem_of_fmap. eauto.
Qed.

Lemma Expand_child set nodes l a :
  Expand hash8 specHash set nodes = Ok l → a ∈ l →
  ∃ comp node r, comp ∈ ass_Applications (aset_Spec set) ∧ a = buildChild hash8 specHash set comp node r ∧
            (node = "" ∨ ∃ n, n ∈ nodes ∧ node = node_Name n).
Proof.
  unfold Expand. destruct (ass_Applications (aset_Spec set)) as [|c cs] eqn:E; [done|].
  rewrite add_children_Ok, <- E. intros (-> & _) (comp & Ha & Hc)%list_elem_of_bind.
  apply component_children_build in Ha as (node & r & Ha). eauto 10.
Qed.

Lemma AppsetOwnerOf_set_owner set : AppsetOwnerOf [set_owner set] = Some (set_owner set).
Proof. reflexivity. Qed.

Lemma buildChild_owned set comp node r : ownedBySet (buildChild hash8 specHash set comp node r) set = true.
Proof.
  unfold ownedBySet, ownedRefs. cbn [buildChild app_meta om_OwnerReferences].
  rewrite AppsetOwnerOf_set_owner. cbn. by rewrite !bool_decide_eq_true_2.
Qed.

Lemma buildChild_component set comp node r :
  componentOf (buildChild hash8 specHash set comp node r) = nas_Name comp.
Proof. unfold componentOf. cbn. unfold childLabels. by rewrite lookup_insert_eq. Qed.

Lemma project_env_subset have env common e : e ∈ project_env have env common → e ∈ env ∨ e ∈ common.
Proof.
  revert have env. induction common as [|c common IH]; intros have env; simpl; [by left|].
  destruct (bool_decide _).
  - intros [?|?]%IH; [by left|right; by right].
  - intros [[?| ->%list_elem_of_singleton]%elem_of_app|?]%IH; [by left|right; left|right; by right].
Qed.

Lemma access_secretRefs_mono env vs env' vs' s :
  (∀ e, e ∈ env → e ∈ env') → (∀ v, v ∈ vs → v ∈ vs') →
  s ∈ access_secretRefs env vs → s ∈ access_secretRefs env' vs'.
Proof.
  intros He Hv. unfold access_secretRefs, env_secrets, volume_secrets.
  rewrite !elem_of_app, !list_elem_of_omap. intros [(e & Hin & H)|(v & Hin & H)]; [left|right]; eauto.
Qed.

Lemma access_secretRefs_app env vs env' vs' s :
  s ∈ access_secretRefs (env ++ env') (vs ++ vs') →
  s ∈ access_secretRefs env vs ∨ s ∈ access_secretRefs env' vs'.
Proof.
  unfold access_secretRefs, env_secrets, volume_secrets. rewrite !omap_app, !elem_of_app. tauto.
Qed.

Lemma child_spec_env set comp node e :
  e ∈ sp_Env (child_spec hash8 set comp node) → e ∈ sp_Env (nas_Spec comp) ++ com_Env (ass_Common (aset_Spec set)).
Proof.
  unfold child_spec. intros H. rewrite elem_of_app. destruct (bool_decide _), (bool_decide _);
  by apply (project_env_subset _ _ _ _ H).
Qed.
Lemma child_spec_volumes set comp node v :
  v ∈ sp_Volumes (child_spec hash8 set comp node) →
  v ∈ sp_Volumes (nas_Spec comp) ++ com_Volumes (ass_Common (aset_Spec set)).
Proof.
  unfold child_spec. intros H. rewrite elem_of_app.
  assert (v ∈ sp_Volumes (nas_Spec comp) ++
            List.filter (λ m, negb (bool_decide (vm_MountPath m ∈@{gset string} list_to_set (vm_MountPath <$> sp_Volumes (nas_Spec comp)))))
              (com_Volumes (ass_Common (aset_Spec set)))) as [?|[? _]%filter_elem]%elem_of_app
    by (destruct (bool_decide _), (bool_decide _); exact H); auto.
Qed.

(** A child a set renders is the set's own: it lives in the set's namespace, the set is
    its controller, it names the component it came from and it carries the digest of its
    spec; and every secret it uses is one the set named when it was admitted, so the right to
    read a secret is asked of whoever wrote the set, never lent by the loop. *)
Theorem rendered_children_covered set nodes l a :
  Expand hash8 specHash set nodes = Ok l → a ∈ l →
  controlled_by set (app_meta a) ∧
  componentOf a ∈ nas_Name <$> ass_Applications (aset_Spec set) ∧
  hash_of a = specHash (app_Spec a) ∧
  ∀ ns used, secrets_named (ObjApplication a) = Some (ns, used) →
    ∃ named, secrets_named (ObjApplicationSet set) = Some (ns, named) ∧ used ⊆ named.
Proof.
  intros Hx Ha. destruct (Expand_child _ _ _ _ Hx Ha) as (comp & node & r & Hc & -> & _).
  split_and!; [apply ownedBySet_controlled, buildChild_owned| | |].
  - rewrite buildChild_component. by apply list_elem_of_fmap_2.
  - unfold hash_of. cbn. by rewrite lookup_insert_eq.
  - intros ns used [= <- <-]. cbn [secrets_named]. eexists. split; [reflexivity|].
    intros s Hs. apply (access_secretRefs_mono _ _ _ _ s (child_spec_env set comp node) (child_spec_volumes set comp node)) in Hs.
    apply elem_of_app. apply access_secretRefs_app in Hs as [Hs|Hs]; [right|by left].
    apply list_elem_of_bind. by exists comp.
Qed.
End Rendering.

(** ** Logs that grow *)
Section Extends.
Context {HQ : Quantity} (reply : list Act → Act → option error).
Implicit Types (log : list Act) (P : Act → Prop).

(** [log'] is [log] with more writes, each of which satisfies [P]. *)
Definition extends P log log' : Prop := ∃ acts, log' = log ++ acts ∧ Forall P acts.

Lemma extends_refl P log : extends P log log.
Proof. exists []. by rewrite app_nil_r. Qed.
Lemma extends_trans P log1 log2 log3 : extends P log1 log2 → extends P log2 log3 → extends P log1 log3.
Proof.
  intros (l1 & -> & H1) (l2 & -> & H2). exists (l1 ++ l2). rewrite (assoc_L (++)). by split; [|apply Forall_app].
Qed.
Lemma extends_snoc P log act : P act → extends P log (log ++ [act]).
Proof. intros H. exists [act]. by split; [|apply Forall_singleton]. Qed.
Lemma extends_call P log act : P act → extends P log (call reply act log).1.
Proof. apply extends_snoc. Qed.
Lemma extends_weaken P Q log log' : (∀ act, P act → Q act) → extends P log log' → extends Q log log'.
Proof. intros H (l & -> & Hl). exists l. split; [done|]. by eapply Forall_impl. Qed.
Lemma extends_foldl {A} P (f : list Act → A → list Act) l log :
  (∀ log x, x ∈ l → extends P log (f log x)) → extends P log (foldl f log l).
Proof.
  revert log. induction l as [|x l IH]; intros log H; simpl; [apply extends_refl|].
  eapply extends_trans; [apply H; left|]. apply IH. intros log' y Hy. apply H. by right.
Qed.
Lemma extends_foldl_flag {A} P (f : list Act * bool → A → list Act * bool) l log ok :
  (∀ s x, x ∈ l → extends P s.1 (f s x).1) → extends P log (foldl f (log, ok) l).1.
Proof.
  intros H. change log with (log, ok).1 at 1. generalize (log, ok) as s.
  induction l as [|x l IH]; intros s; simpl; [apply extends_refl|].
  eapply extends_trans; [apply H; left|]. apply IH. intros s' y Hy. apply H. by right.
Qed.
Lemma extends_elem P log log' act : extends P log log' → act ∈ log' → act ∈ log ∨ P act.
Proof.
  intros (l & -> & Hl) [?|H]%elem_of_app; [by left|right]. rewrite Forall_forall in Hl. auto.
Qed.
End Extends.
Create HintDb appset discriminated.
#[export] Hint Resolve extends_refl extends_call : appset.

(** ** The maps a pass works on *)
Section Maps.
Context {HQ : Quantity}.
Implicit Types (set : ApplicationSet).

Lemma by_name_go l (m : Children) n a :
  foldl (λ m a, <[app_Name a := a]> m) m l !! n = Some a → (a ∈ l ∧ app_Name a = n) ∨ m !! n = Some a.
Proof.
  revert m. induction l as [|x l IH]; intros m; simpl; [by right|].
  intros [[? ?]|H]%IH; [left; split; [by right|done]|].
  destruct (decide (app_Name x = n)) as [<-|Hne].
  - rewrite lookup_insert_eq in H. injection H as ->. left. split; [left|done].
  - rewrite lookup_insert_ne in H by done. by right.
Qed.
Lemma by_name_Some l n a : by_name l !! n = Some a → a ∈ l ∧ app_Name a = n.
Proof. intros [?|H]%by_name_go; [done|]. by rewrite lookup_empty in H. Qed.
Lemma by_name_none_go l (m : Children) n :
  foldl (λ m a, <[app_Name a := a]> m) m l !! n = None ↔ n ∉ app_Name <$> l ∧ m !! n = None.
Proof.
  revert m. induction l as [|x l IH]; intros m; simpl; [set_solver|].
  rewrite IH, not_elem_of_cons. destruct (decide (app_Name x = n)) as [<-|Hne].
  - rewrite lookup_insert_eq. naive_solver.
  - rewrite lookup_insert_ne by done. naive_solver.
Qed.
Lemma by_name_None l n : by_name l !! n = None ↔ n ∉ app_Name <$> l.
Proof. unfold by_name. rewrite by_name_none_go. rewrite lookup_empty. naive_solver. Qed.

Lemma ownedChildren_Some set apps n a :
  ownedChildren set apps !! n = Some a → a ∈ apps ∧ app_Name a = n ∧ ownedBySet a set = true.
Proof. intros [[? ?]%filter_elem ?]%by_name_Some. auto. Qed.

Lemma ownedBySet_namespace a set : ownedBySet a set = true → app_Namespace a = aset_Namespace set.
Proof.
  unfold ownedBySet, ownedRefs. destruct (AppsetOwnerOf _); [|done].
  rewrite !andb_true_iff, !bool_decide_eq_true. naive_solver.
Qed.

(** What every child a pass wants satisfies: its key is its name, and the set owns it. *)
Definition own_child set (m : Children) : Prop :=
  ∀ n a, m !! n = Some a → app_Name a = n ∧ ownedBySet a set = true.

Lemma own_child_empty set : own_child set ∅.
Proof. intros n a H. by rewrite lookup_empty in H. Qed.
Lemma own_child_union set m1 m2 : own_child set m1 → own_child set m2 → own_child set (m1 ∪ m2).
Proof. intros H1 H2 n a [H|[_ H]]%lookup_union_Some_raw; eauto. Qed.
Lemma own_child_sub set m1 m2 : m1 ⊆ m2 → own_child set m2 → own_child set m1.
Proof. intros Hsub H n a Ha. apply H. by eapply lookup_weaken. Qed.
Lemma init_steps_sub set desired existing comps allowed :
  allowed ⊆ desired → (init_steps set desired existing allowed comps).1 ⊆ desired.
Proof.
  revert allowed. induction comps as [|comp comps IH]; intros allowed Hs; simpl; [done|].
  destruct (negb _); [by apply IH|].
  assert (Hf : ∀ names m, m ⊆ desired →
    foldl (λ m name, match desired !! name with Some a => <[name := a]> m | None => m end) m names ⊆ desired).
  { induction names as [|n names IHn]; intros m Hm; simpl; [done|]. apply IHn.
    destruct (desired !! n) eqn:E; [|done]. by apply insert_subseteq_l. }
  destruct (stepHold _ _ _); [by apply Hf|]. apply IH. by apply Hf.
Qed.

Lemma initGate_sub set desired existing : (initGate set desired existing).1 ⊆ desired.
Proof.
  unfold initGate. pose proof (init_steps_sub set desired existing (ass_Applications (aset_Spec set)) ∅
    (map_empty_subseteq _)) as H.
  destruct (init_steps _ _ _ _ _) as [allowed [c|]]; simpl in *; [done|].
  apply map_union_least; [apply map_filter_subseteq|done].
Qed.

Lemma elem_of_sorted_keys (m : Children) n : n ∈ keys_of m ↔ is_Some (m !! n).
Proof.
  unfold keys_of. rewrite sort_stable_perm, list_elem_of_fmap. split.
  - intros ([k a] & -> & H%elem_of_map_to_list). by exists a.
  - intros [a H]. exists (n, a). by rewrite elem_of_map_to_list.
Qed.
Lemma elem_of_childrenOf (m : Children) c n :
  n ∈ childrenOf m c ↔ ∃ a, m !! n = Some a ∧ componentOf a = c.
Proof.
  unfold childrenOf. rewrite sort_stable_perm, list_elem_of_fmap. split.
  - intros ([k a] & -> & [H%elem_of_map_to_list Hc%bool_decide_eq_true]%filter_elem). by exists a.
  - intros (a & H & Hc). exists (n, a). split; [done|]. apply filter_elem.
    by rewrite elem_of_map_to_list, bool_decide_eq_true.
Qed.

Lemma anchorChild_in set desired : desired ≠ ∅ → is_Some (desired !! anchorChild set desired).
Proof.
  intros Hne. unfold anchorChild. destruct (anchor_step set desired _) as [n|] eqn:E.
  - revert E. induction (ass_Applications (aset_Spec set)) as [|comp comps IH]; simpl; [done|].
    destruct (isInit _ _); [|done]. destruct (childrenOf desired (nas_Name comp)) as [|n' ns] eqn:Ec; [done|].
    intros [= ->]. assert (n ∈ childrenOf desired (nas_Name comp)) as (a & Ha & _)%elem_of_childrenOf
      by (rewrite Ec; left). by exists a.
  - destruct (keys_of desired) as [|n ns] eqn:Ek.
    + exfalso. apply Hne. apply map_empty. intros i. apply eq_None_not_Some. intros H%elem_of_sorted_keys.
      rewrite Ek in H. by apply elem_of_nil in H.
    + apply elem_of_sorted_keys. rewrite Ek. left.
Qed.

Lemma own_child_pin set desired existing :
  own_child set desired → own_child set (pinSameNode desired existing (anchorChild set desired)).1.
Proof.
  intros H. unfold pinSameNode. destruct (decide (desired = ∅)) as [->|Hne]; [exact H|].
  rewrite (bool_decide_eq_false_2 _ Hne). cbn [orb].
  destruct (bool_decide (anchorChild set desired = "")); [exact H|].
  destruct (bool_decide _); intros n a.
  - destruct (anchorChild_in set desired Hne) as [d Hd]. cbn. rewrite Hd.
    intros [<- <-]%lookup_singleton_Some. by apply H.
  - cbn. rewrite map_lookup_imap. destruct (desired !! n) as [d|] eqn:Ed; [|done]. cbn.
    intros [= <-]. destruct (H n d Ed) as [Hn Ho]. by destruct (negb _ && _).
Qed.

Context (hash8 : string → string) (specHash : ApplicationSpec → string).
Lemma own_child_rendered set nodes l :
  Expand hash8 specHash set nodes = Ok l → own_child set (by_name l).
Proof.
  intros Hx n a [Ha <-]%by_name_Some. split; [done|].
  destruct (Expand_child _ _ _ _ _ _ Hx Ha) as (comp & node & r & _ & -> & _). apply buildChild_owned.
Qed.

Lemma wanted_own set nodes existing l :
  Expand hash8 specHash set nodes = Ok l → own_child set (wanted set nodes existing l).1.1.
Proof.
  intros Hx%own_child_rendered. unfold wanted.
  pose proof (initGate_sub set (by_name l) existing) as Hs.
  destruct (initGate _ _ _) as [desired cond]; simpl in *.
  apply (own_child_sub _ _ _ Hs) in Hx. destruct (SameNode _); [|done].
  pose proof (own_child_pin set desired existing Hx) as Hp.
  by destruct (pinSameNode _ _ _).
Qed.
End Maps.
