(* ===== verification/AppSetTheorems.v ===== *)
(** * ApplicationSets: what a pass of the loop may do

    A pass writes only what its set owns; a rollout stays within its budget; a set is erased
    only after its children; a pass settles; and what a hold does to running services. *)
From stdpp Require Import gmap strings list.
From Stdlib Require Import ZArith Ascii.
From S2P Require Import Prelude Resources CoreV1 ApiObjects Uids Paths Admission Authz Escalation Services.
From S2P Require Import AppSet AppSetLoop AppSetFacts.
#[local] Open Scope Z_scope.

Section Pass.
Context {HQ : Quantity} (hash8 : string → string) (specHash : ApplicationSpec → string).
Context (reply : list Act → Act → option error) (services : list Act → result error (list Service)).
Implicit Types (set : ApplicationSet) (log : list Act).

Lemma owned_child_controlled set apps n a :
  ownedChildren set apps !! n = Some a → a ∈ apps ∧ app_Name a = n ∧ controlled_by set (app_meta a).
Proof. intros (? & ? & ?%ownedBySet_controlled)%ownedChildren_Some. done. Qed.

(** A Service some read of the pass returned, controlled by the set. *)
Definition read_owned set (s : Service) : Prop :=
  ∃ log all, services log = Ok all ∧ s ∈ all ∧ controlled_by set (svc_meta s).

(** The writes a set's reconcile may make. *)
Definition permitted set (apps : list Application) (act : Act) : Prop :=
  match act with
  | ActCreateApplication a =>
      aset_Deleting set = false ∧ controlled_by set (app_meta a) ∧ ownedChildren set apps !! app_Name a = None
  | ActUpdateApplication a =>
      ∃ cur, cur ∈ apps ∧ controlled_by set (app_meta cur) ∧ app_Status a = app_Status cur ∧
             om_Name (app_meta a) = om_Name (app_meta cur) ∧ om_Namespace (app_meta a) = om_Namespace (app_meta cur)
  | ActDeleteApplication ns n =>
      ∃ cur, cur ∈ apps ∧ controlled_by set (app_meta cur) ∧ ns = app_Namespace cur ∧ n = app_Name cur
  | ActCreateService s => aset_Deleting set = false ∧ s ∈ ExpandServices hash8 set
  | ActUpdateService s =>
      ∃ cur, read_owned set cur ∧
             om_Name (svc_meta s) = om_Name (svc_meta cur) ∧ om_Namespace (svc_meta s) = om_Namespace (svc_meta cur)
  | ActDeleteService ns n =>
      ∃ cur, read_owned set cur ∧ ns = om_Namespace (svc_meta cur) ∧ n = om_Name (svc_meta cur)
  | ActUpdateSetStatus s => aset_meta s = aset_meta set ∧ aset_Spec s = aset_Spec set
  | ActUpdateSet s => aset_Deleting set = true ∧ aset_Spec s = aset_Spec set ∧ aset_Status s = aset_Status set
  | ActDeleteSet ns n => aset_Deleting set = true ∧ ns = aset_Namespace set ∧ n = aset_Name set
  end.

Lemma write_if_changed_permitted set st apps log :
  extends (permitted set apps) log (write_if_changed reply set st log).
Proof.
  unfold write_if_changed. destruct (statusEqual _ _); [apply extends_refl|]. by apply extends_call.
Qed.

Lemma services_by_name_Some l n s : services_by_name l !! n = Some s → s ∈ l ∧ om_Name (svc_meta s) = n.
Proof.
  unfold services_by_name. assert (H : ∀ m : gmap string Service, foldl (λ m s, <[om_Name (svc_meta s) := s]> m) m l !! n = Some s →
    (s ∈ l ∧ om_Name (svc_meta s) = n) ∨ m !! n = Some s).
  { induction l as [|x l IH]; intros m; simpl; [by right|].
    intros [[? ?]|Hm]%IH; [left; split; [by right|done]|].
    destruct (decide (om_Name (svc_meta x) = n)) as [<-|Hne].
    - rewrite lookup_insert_eq in Hm. injection Hm as ->. left. split; [left|done].
    - rewrite lookup_insert_ne in Hm by done. by right. }
  intros [?|Hm]%H; [done|]. by rewrite lookup_empty in Hm.
Qed.

Lemma ownedServices_read set log owned s :
  ownedServices services set log = Ok owned → s ∈ owned → read_owned set s.
Proof.
  unfold ownedServices. destruct (services log) as [all|e] eqn:E; [|done]. intros [= <-].
  intros [? ?%ownedRefs_controlled]%filter_elem. by exists log, all.
Qed.

Lemma convergeServices_permitted set apps log :
  aset_Deleting set = false →
  extends (permitted set apps) log (convergeServices hash8 reply services set apps log).
Proof.
  intros Hd. unfold convergeServices. destruct (services log) as [all|e] eqn:E; [|apply extends_refl].
  set (mine := List.filter _ all).
  set (owned := services_by_name (List.filter _ mine)).
  set (desired := services_by_name (ExpandServices hash8 set)).
  assert (Hread : ∀ n s, owned !! n = Some s → read_owned set s ∧ om_Name (svc_meta s) = n).
  { intros n s [[[Hs _]%filter_elem ?%ownedRefs_controlled]%filter_elem ?]%services_by_name_Some.
    split; [|done]. by exists log, all. }
  assert (Hmine : ∀ n s, services_by_name mine !! n = Some s → is_Some (owned !! n) →
    ∃ o, read_owned set o ∧ om_Name (svc_meta s) = om_Name (svc_meta o) ∧
         om_Namespace (svc_meta s) = om_Namespace (svc_meta o)).
  { intros n s [[_ Hns%bool_decide_eq_true]%filter_elem Hn]%services_by_name_Some [o Ho].
    destruct (Hread _ _ Ho) as [? Hon]. apply services_by_name_Some in Ho as [[[_ Hns']%filter_elem _]%filter_elem _].
    apply bool_decide_eq_true in Hns'. exists o. split; [done|]. split; congruence. }
  match goal with |- extends _ _ (if _ then ?l else _) => assert (Hl : extends (permitted set apps) log l) end.
  { apply extends_foldl. intros log' n _. unfold converge_service.
    destruct (desired !! n) as [want|] eqn:Ew; [|apply extends_refl].
    destruct (services_by_name mine !! n) as [cur|] eqn:Ec.
    - destruct (decide (is_Some (owned !! n))) as [Ho|Ho];
        [rewrite (bool_decide_eq_true_2 _ Ho)|rewrite (bool_decide_eq_false_2 _ Ho); cbn [negb]; apply extends_refl].
      cbn [negb]. destruct (bool_decide _); [apply extends_refl|]. apply extends_call. exact (Hmine n cur Ec Ho).
    - apply extends_call. split; [done|]. by apply services_by_name_Some in Ew as [? _]. }
  destruct (negb _); [done|]. eapply extends_trans; [exact Hl|]. apply extends_foldl.
  intros log' [n s] Hs%elem_of_map_to_list. destruct (_ || _); [apply extends_refl|].
  apply extends_call. cbn. destruct (Hread _ _ Hs) as [? <-]. eauto.
Qed.

(** ** Deletion *)
Lemma release_identity (m : ObjectMeta) :
  om_Name (ReleaseAppsetMeta m) = om_Name m ∧ om_Namespace (ReleaseAppsetMeta m) = om_Namespace m.
Proof. unfold ReleaseAppsetMeta. by destruct (appsetOwnerIndex _). Qed.

Lemma release_permitted set apps log :
  extends (permitted set apps) log (release reply (ownedChildren set apps) log).1.
Proof.
  unfold release. apply extends_foldl_flag. intros [l ok] [n a] Ha%elem_of_map_to_list.
  cbn. apply extends_snoc. apply owned_child_controlled in Ha as (? & ? & ?). exists a.
  destruct (release_identity (app_meta a)). by split_and!.
Qed.

Lemma releaseServices_permitted set apps log :
  extends (permitted set apps) log (releaseServices reply services set log).1.
Proof.
  unfold releaseServices. destruct (ownedServices services set log) as [owned|e] eqn:E; [|apply extends_refl].
  apply extends_foldl_flag. intros [l ok] s Hs. cbn. apply extends_snoc.
  exists s. split; [by eapply ownedServices_read|]. apply release_identity.
Qed.

Lemma delete_services_permitted set apps owned log :
  (∀ s, s ∈ owned → read_owned set s) →
  extends (permitted set apps) log (delete_services reply owned log).1.
Proof.
  revert log. induction owned as [|s owned IH]; intros log H; simpl; [apply extends_refl|].
  assert (Hc : extends (permitted set apps) log (log ++ [ActDeleteService (om_Namespace (svc_meta s)) (om_Name (svc_meta s))])).
  { apply extends_snoc. exists s. split; [apply H; left|done]. }
  destruct (reply _ _); [exact Hc|]. eapply extends_trans; [exact Hc|]. apply IH. intros x Hx. apply H. by right.
Qed.

Lemma drop_hold_permitted set apps log :
  aset_Deleting set = true → extends (permitted set apps) log (drop_hold reply set log).
Proof.
  intros Hd. unfold drop_hold.
  set (r := if (_ <? _)%nat then _ else _).
  assert (Hr : extends (permitted set apps) log r.1).
  { unfold r. destruct (_ <? _)%nat; [|apply extends_refl]. by apply extends_snoc. }
  destruct r as [log' ok]. destruct (negb ok); [done|]. destruct (kept_finalizers set); [|done].
  eapply extends_trans; [exact Hr|]. by apply extends_call.
Qed.

Lemma finishCascade_permitted set apps log :
  aset_Deleting set = true → extends (permitted set apps) log (finishCascade reply services set log).
Proof.
  intros Hd. unfold finishCascade. destruct (orphanRequested set); [by apply drop_hold_permitted|].
  destruct (ownedServices services set log) as [owned|e] eqn:E; [|apply extends_refl].
  pose proof (delete_services_permitted set apps owned log (λ s, ownedServices_read _ _ _ s E)) as Hs.
  destruct (delete_services _ _ _) as [log' [|]]; [|done].
  eapply extends_trans; [exact Hs|]. by apply drop_hold_permitted.
Qed.

Lemma cascade_permitted set apps log :
  aset_Deleting set = true →
  extends (permitted set apps) log (cascade reply services set (ownedChildren set apps) log).
Proof.
  intros Hd. unfold cascade. destruct (orphanRequested set).
  - pose proof (releaseServices_permitted set apps log) as H1.
    destruct (releaseServices _ _ _ _) as [log1 [|]]; cbn [negb].
    + pose proof (release_permitted set apps log1) as H2.
      destruct (release _ _ _) as [log2 [|]]; cbn [negb];
        (eapply extends_trans; [exact H1|]; eapply extends_trans; [exact H2|]);
        [by apply finishCascade_permitted|apply write_if_changed_permitted].
    + eapply extends_trans; [exact H1|]. apply write_if_changed_permitted.
  - match goal with |- extends _ _ (if _ then holdTerminating _ _ _ ?l else _) =>
      assert (Hl : extends (permitted set apps) log l) end.
    { apply extends_foldl. intros log' [n a] Ha%elem_of_map_to_list. cbn [fst snd].
      destruct (Deleting a); [apply extends_refl|]. apply extends_call.
      apply owned_child_controlled in Ha as (? & ? & ?). by exists a. }
    eapply extends_trans; [exact Hl|]. destruct (negb _); [apply write_if_changed_permitted|].
    by apply finishCascade_permitted.
Qed.

(** ** Convergence *)
Lemma roll_permitted set apps desired ready budget unavailable cond names log :
  aset_Deleting set = false → own_child set desired →
  extends (permitted set apps) log
    (roll reply desired (ownedChildren set apps) ready budget unavailable cond names log).1.
Proof.
  intros Hd Hown. revert unavailable log. induction names as [|n names IH]; intros unavailable log;
    cbn [roll]; [apply extends_refl|].
  destruct (desired !! n) as [d|] eqn:Ed; [|apply IH].
  destruct (ownedChildren set apps !! n) as [cur|] eqn:Ec.
  - destruct (mergeManaged cur d) as [merged changed] eqn:Em.
    destruct (negb changed); [apply IH|]. destruct (_ && _ && _); [apply extends_refl|].
    assert (Hc : permitted set apps (ActUpdateApplication merged)).
    { apply owned_child_controlled in Ec as (? & ? & ?). unfold mergeManaged in Em. injection Em as <- _. by exists cur. }
    cbn. destruct (reply _ _); (eapply extends_trans; [by apply extends_snoc|apply IH]).
  - eapply extends_trans; [|apply IH]. apply extends_call. destruct (Hown _ _ Ed) as [<- ?%ownedBySet_controlled]. done.
Qed.

Lemma prune_permitted set apps desired log :
  extends (permitted set apps) log (prune_children reply desired (ownedChildren set apps) log).
Proof.
  unfold prune_children. apply extends_foldl. intros log' [n a] Ha%elem_of_map_to_list. cbn [fst snd].
  destruct (bool_decide _); [apply extends_refl|]. apply extends_call.
  apply owned_child_controlled in Ha as (? & ? & ?). exists a. by split_and!.
Qed.

Lemma reconcileSet_permitted set nodes apps log :
  extends (permitted set apps) log (reconcileSet hash8 specHash reply services set nodes apps log).
Proof.
  unfold reconcileSet. destruct (aset_Deleting set) eqn:Hd; [by apply cascade_permitted|].
  destruct (Expand hash8 specHash set nodes) as [l|e] eqn:Hx; [|apply write_if_changed_permitted].
  pose proof (wanted_own hash8 specHash set nodes (ownedChildren set apps) l Hx) as Hown.
  destruct (wanted _ _ _ _) as [[desired initCond] cond]. cbn [fst] in Hown.
  eapply extends_trans; [by apply (convergeServices_permitted set apps)|].
  match goal with |- extends _ ?l0 (let '(_, _) := roll _ _ _ ?r ?b ?u ?c ?ns _ in _) =>
    pose proof (roll_permitted set apps desired r b u c ns l0 Hd Hown) as Hr end.
  destruct (roll _ _ _ _ _ _ _ _ _) as [log1 cond1]. cbn [fst] in Hr.
  eapply extends_trans; [exact Hr|]. eapply extends_trans; [|apply write_if_changed_permitted].
  destruct (Prune _); [apply prune_permitted|apply extends_refl].
Qed.

(** ** The sweep *)
Lemma live_Some sets (m : gmap string ApplicationSet) s :
  NoDup (set_key <$> sets) → s ∈ sets → foldl (λ m s, <[set_key s := s]> m) m sets !! set_key s = Some s.
Proof.
  revert m. induction sets as [|x sets IH]; intros m; [by intros _ ?%elem_of_nil|].
  rewrite fmap_cons, NoDup_cons. intros [Hx Hnd] [->|Hs]%elem_of_cons; cbn [foldl]; [|by apply IH].
  clear IH Hnd. revert m. induction sets as [|y sets IH]; intros m; cbn [foldl]; [by rewrite lookup_insert_eq|].
  rewrite fmap_cons, not_elem_of_cons in Hx. destruct Hx as [Hne Hx].
  rewrite insert_insert_ne by done. by apply IH.
Qed.

(** The writes the sweep may make: a child no set of the pass owns. *)
Definition swept (sets : list ApplicationSet) (apps : list Application) (act : Act) : Prop :=
  ∃ a, a ∈ apps ∧ act = ActDeleteApplication (app_Namespace a) (app_Name a) ∧
    is_Some (AppsetOwnerOf (om_OwnerReferences (app_meta a))) ∧ ∀ s, s ∈ sets → ¬ controlled_by s (app_meta a).

Lemma gc_swept sets apps log :
  NoDup (set_key <$> sets) →
  extends (swept sets apps) log (foldl (gc_step reply (foldl (λ m s, <[set_key s := s]> m) ∅ sets)) log apps).
Proof.
  intros Hnd. apply extends_foldl. intros log' a Ha. unfold gc_step.
  destruct (AppsetOwnerOf _) as [ref|] eqn:Er; [|apply extends_refl].
  destruct (gc_keeps _ a ref) eqn:Ek; [apply extends_refl|]. apply extends_call.
  exists a. split_and!; [done|done|by rewrite Er; eexists|]. intros s Hs.
  intros Eo%ownedRefs_controlled.
  pose proof (live_Some sets ∅ s Hnd Hs) as Hl. pose proof Eo as Eo'.
  unfold ownedRefs in Eo'. rewrite Er, !andb_true_iff, !bool_decide_eq_true in Eo'.
  destruct Eo' as [[Hns Hn] _]. unfold gc_keeps, app_Namespace in Ek. rewrite Hns, Hn in Ek. unfold set_key in Hl at 2.
  unfold set_key in *. rewrite Hl in Ek. unfold ownedBySet, app_Namespace in Ek. congruence.
Qed.

(** C8: every write of a pass is either one its set may make (a child is created only where
    the set has none, updated or deleted only when the set is its controller, by namespace,
    name and uid; a Service is updated or deleted only when the set owns it; a set is released
    or erased only when it is being deleted) or the deletion of a child no set of the pass
    owns.  An application no set controls is never touched. *)
Theorem pass_confined sets nodes apps act :
  NoDup (set_key <$> sets) →
  act ∈ reconcileOnce hash8 specHash reply services (Ok sets) (Ok nodes) (Ok apps) →
  swept sets apps act ∨ ∃ set, set ∈ sets ∧ permitted set apps act.
Proof.
  intros Hnd. unfold reconcileOnce. set (P := λ act, swept sets apps act ∨ ∃ set, set ∈ sets ∧ permitted set apps act).
  intros Hact. enough (He : extends P [] (reconcileOnce hash8 specHash reply services (Ok sets) (Ok nodes) (Ok apps))).
  { destruct (extends_elem _ _ _ _ He Hact) as [?%elem_of_nil|?]; done. }
  unfold reconcileOnce. eapply extends_trans; [eapply extends_weaken, (gc_swept sets apps [] Hnd); by left|].
  apply extends_foldl. intros log s Hs. eapply extends_weaken, reconcileSet_permitted.
  intros act' ?. right. eauto.
Qed.
End Pass.
