(* ===== verification/AppSetRollout.v ===== *)
(** * ApplicationSets: rollouts, deletion, and passes that settle

    A budgeted rollout never takes down more running children than its budget; a set is
    erased only after everything it owns has been dealt with; a pass whose writes succeed
    leaves children the next pass does not write; and what a held init step does to services
    that already run. *)
From stdpp Require Import gmap strings list.
From Stdlib Require Import ZArith Ascii.
From S2P Require Import Prelude Resources CoreV1 ApiObjects Uids Paths Admission Authz Escalation Services.
From S2P Require Import AppSet AppSetLoop AppSetFacts AppSetTheorems.
#[local] Open Scope Z_scope.

Section Rollout.
Context {HQ : Quantity} (hash8 : string → string) (specHash : ApplicationSpec → string).
Context (reply : list Act → Act → option error) (services : list Act → result error (list Service)).
Implicit Types (set : ApplicationSet) (log : list Act) (desired existing : Children).

(** ** Kinds of write *)
Definition service_write (act : Act) : Prop :=
  match act with ActCreateService _ | ActUpdateService _ | ActDeleteService _ _ => True | _ => False end.
Definition status_write (act : Act) : Prop := match act with ActUpdateSetStatus _ => True | _ => False end.
Definition delete_write (act : Act) : Prop := match act with ActDeleteApplication _ _ => True | _ => False end.
Definition app_write (act : Act) : Prop :=
  match act with ActCreateApplication _ | ActUpdateApplication _ | ActDeleteApplication _ _ => True | _ => False end.
Definition set_delete (act : Act) : Prop := match act with ActDeleteSet _ _ => True | _ => False end.

Lemma convergeServices_shape set apps log :
  extends service_write log (convergeServices hash8 reply services set apps log).
Proof.
  unfold convergeServices. destruct (services log) as [all|e]; [|apply extends_refl].
  match goal with |- extends _ _ (if _ then ?l else _) => assert (Hl : extends service_write log l) end.
  { apply extends_foldl. intros log' n _. unfold converge_service.
    repeat case_match; try apply extends_refl; by apply extends_call. }
  destruct (negb _); [done|]. eapply extends_trans; [exact Hl|]. apply extends_foldl.
  intros log' [n s] _. destruct (_ || _); [apply extends_refl|]. by apply extends_call.
Qed.
Lemma prune_shape desired existing log : extends delete_write log (prune_children reply desired existing log).
Proof.
  unfold prune_children. apply extends_foldl. intros log' [n a] _.
  destruct (bool_decide _); [apply extends_refl|]. by apply extends_call.
Qed.
Lemma write_if_changed_shape set st log : extends status_write log (write_if_changed reply set st log).
Proof. unfold write_if_changed. destruct (statusEqual _ _); [apply extends_refl|]. by apply extends_call. Qed.

(** The stages of a reconcile: services, rollout, prune, status. *)
Lemma reconcileSet_stages set nodes apps rendered desired ic cond log :
  aset_Deleting set = false → Expand hash8 specHash set nodes = Ok rendered →
  wanted set nodes (ownedChildren set apps) rendered = (desired, ic, cond) →
  let existing := ownedChildren set apps in
  let ready := readyNodes nodes in
  let budget := RolloutBudget (aset_Spec set) in
  ∃ svc st, Forall service_write svc ∧ Forall status_write st ∧
    let rolled := (roll reply desired existing ready budget
      (if 0 <? budget then already_down desired existing ready else 0) cond (keys_of desired) (log ++ svc)).1 in
    reconcileSet hash8 specHash reply services set nodes apps log =
    (if Prune (aset_Spec set) then prune_children reply desired existing rolled else rolled) ++ st.
Proof.
  intros Hd Hx Hw existing ready budget. unfold reconcileSet. rewrite Hd, Hx. fold existing in Hw |- *. rewrite Hw.
  destruct (convergeServices_shape set apps log) as (svc & -> & Hsvc). exists svc.
  fold ready budget.
  destruct (roll _ _ _ _ _ _ _ _ _) as [rolled cond']. cbn [fst].
  unfold writeStatus. match goal with |- context [write_if_changed _ _ ?st ?l] =>
    destruct (write_if_changed_shape set st l) as (w & -> & Hw') end.
  by exists w.
Qed.

(** ** The budget *)
(** The writes that took a running child down: updates of one, that succeeded. *)
Definition disrupts existing (ready : gmap string bool) log (act : Act) : Z :=
  match act with
  | ActUpdateApplication a =>
      match existing !! app_Name a with
      | Some cur => if childRunning cur ready && bool_decide (reply log act = None) then 1 else 0
      | None => 0
      end
  | _ => 0
  end.
Fixpoint taken_down existing (ready : gmap string bool) log (acts : list Act) : Z :=
  match acts with
  | [] => 0
  | act :: acts' => disrupts existing ready log act + taken_down existing ready (log ++ [act]) acts'
  end.

Lemma taken_down_app existing ready log l1 l2 :
  taken_down existing ready log (l1 ++ l2) =
  taken_down existing ready log l1 + taken_down existing ready (log ++ l1) l2.
Proof.
  revert log. induction l1 as [|x l1 IH]; intros log; simpl; [by rewrite app_nil_r|].
  rewrite IH, <- (assoc_L (++)). simpl. lia.
Qed.
Lemma taken_down_zero existing ready log acts :
  Forall (λ act, match act with ActUpdateApplication _ => False | _ => True end) acts →
  taken_down existing ready log acts = 0.
Proof.
  intros H. revert log. induction H as [|act acts Ha _ IH]; intros log; simpl; [done|].
  rewrite IH. by destruct act.
Qed.

Lemma roll_budget desired existing ready budget cond names unavailable log :
  0 < budget → (∀ n a, existing !! n = Some a → app_Name a = n) →
  ∃ acts, (roll reply desired existing ready budget unavailable cond names log).1 = log ++ acts ∧
    unavailable + taken_down existing ready log acts ≤ Z.max budget unavailable.
Proof.
  intros Hb Hk. revert unavailable log. induction names as [|n names IH]; intros unavailable log; cbn [roll].
  { exists []. rewrite app_nil_r. split; [done|]. cbn. lia. }
  destruct (desired !! n) as [d|] eqn:Ed; [|apply IH].
  destruct (existing !! n) as [cur|] eqn:Ec.
  2: { change (call reply (ActCreateApplication d) log).1 with (log ++ [ActCreateApplication d]).
       destruct (IH unavailable (log ++ [ActCreateApplication d])) as (acts & -> & Hle).
       exists (ActCreateApplication d :: acts). rewrite <- (assoc_L (++)). split; [done|]. cbn. lia. }
  destruct (mergeManaged cur d) as [merged changed] eqn:Em.
  destruct (negb changed); [apply IH|].
  assert (Hn : app_Name merged = n).
  { unfold mergeManaged in Em. injection Em as <- _. cbn. by apply Hk. }
  destruct (childRunning cur ready && (0 <? budget) && (budget <=? unavailable)) eqn:Eh.
  { exists []. rewrite app_nil_r. split; [done|]. cbn. lia. }
  cbn [call]. destruct (reply log (ActUpdateApplication merged)) as [e|] eqn:Er.
  - destruct (IH unavailable (log ++ [ActUpdateApplication merged])) as (acts & -> & Hle).
    exists (ActUpdateApplication merged :: acts). rewrite <- (assoc_L (++)). split; [done|].
    cbn [taken_down disrupts]. rewrite Hn, Ec, Er, bool_decide_eq_false_2, andb_false_r by done. lia.
  - rewrite (proj2 (Z.ltb_lt 0 budget) Hb), andb_true_r in Eh |- *.
    destruct (IH (if childRunning cur ready then unavailable + 1 else unavailable)
      (log ++ [ActUpdateApplication merged])) as (acts & -> & Hle).
    exists (ActUpdateApplication merged :: acts). rewrite <- (assoc_L (++)). split; [done|].
    cbn [taken_down disrupts]. rewrite Hn, Ec, Er, bool_decide_eq_true_2, andb_true_r by done.
    destruct (childRunning cur ready); [apply Z.leb_gt in Eh|]; lia.
Qed.

(** C13: a rollout with a budget takes down no more running children than the budget leaves: of
    the children the pass wants, those already down and those a pass updates while they run
    are together at most [maxUnavailable] (or those already down, when they are more: then no
    running child is updated at all). *)
Theorem rollout_within_budget set nodes apps rendered desired ic cond log acts :
  aset_Deleting set = false → 0 < RolloutBudget (aset_Spec set) →
  Expand hash8 specHash set nodes = Ok rendered →
  wanted set nodes (ownedChildren set apps) rendered = (desired, ic, cond) →
  reconcileSet hash8 specHash reply services set nodes apps log = log ++ acts →
  let existing := ownedChildren set apps in
  let ready := readyNodes nodes in
  already_down desired existing ready + taken_down existing ready log acts
  ≤ Z.max (RolloutBudget (aset_Spec set)) (already_down desired existing ready).
Proof.
  intros Hd Hb Hx Hw Heq existing ready.
  destruct (reconcileSet_stages set nodes apps rendered desired ic cond log Hd Hx Hw) as (svc & st & Hsvc & Hst & Hr).
  rewrite Hr in Heq. clear Hr. fold existing ready in Heq.
  rewrite (proj2 (Z.ltb_lt _ _) Hb) in Heq.
  destruct (roll_budget desired existing ready (RolloutBudget (aset_Spec set)) cond (keys_of desired)
    (already_down desired existing ready) (log ++ svc) Hb) as (rolled & Hroll & Hle).
  { intros n a Ha. by apply ownedChildren_Some in Ha as (_ & ? & _). }
  rewrite Hroll in Heq.
  destruct (prune_shape desired existing ((log ++ svc) ++ rolled)) as (pruned & Hp & Hpr). rewrite Hp in Heq.
  assert (∃ tail, acts = svc ++ rolled ++ tail ∧
    Forall (λ act, match act with ActUpdateApplication _ => False | _ => True end) tail) as (tail & -> & Htail).
  { exists ((if Prune (aset_Spec set) then pruned else []) ++ st). split.
    - apply (app_inv_head log). rewrite <- Heq. destruct (Prune _); by rewrite ?app_nil_l, <- !(assoc_L (++)).
    - apply Forall_app. split; [destruct (Prune _); [|constructor]|]; eapply Forall_impl; eauto; intros []; done. }
  rewrite !taken_down_app, (taken_down_zero _ _ _ svc), (taken_down_zero _ _ _ tail); [lia|done|].
  eapply Forall_impl; [exact Hsvc|]. intros []; done.
Qed.

(** ** Deletion *)
(** A write of the log that succeeded. *)
Definition succeeded log (act : Act) : Prop := ∃ pre post, log = pre ++ act :: post ∧ reply pre act = None.

Lemma succeeded_app log l act : succeeded log act → succeeded (log ++ l) act.
Proof. intros (pre & post & -> & H). exists pre, (post ++ l). by rewrite <- (assoc_L (++)). Qed.
Lemma succeeded_extends P log log' act : extends P log log' → succeeded log act → succeeded log' act.
Proof. intros (l & -> & _). apply succeeded_app. Qed.
Lemma succeeded_snoc log act : reply log act = None → succeeded (log ++ [act]) act.
Proof. intros H. by exists log, []. Qed.

(** The loops that try every element and remember whether all succeeded. *)
Lemma try_all {A} (f : A → Act) l log ok log' :
  foldl (λ '(log, ok) x, let '(log, err) := call reply (f x) log in (log, ok && bool_decide (err = None)))
    (log, ok) l = (log', true) →
  ok = true ∧ ∀ x, x ∈ l → succeeded log' (f x).
Proof.
  revert log ok. induction l as [|x l IH]; intros log ok; cbn [foldl].
  { intros [= -> ->]. split; [done|]. by intros x ?%elem_of_nil. }
  cbn [call]. intros H. destruct (IH _ _ H) as [[-> Hx%bool_decide_eq_true]%andb_true_iff Hl].
  split; [done|]. intros y [->|Hy]%elem_of_cons; [|by apply Hl].
  apply succeeded_snoc in Hx. revert Hx. apply (succeeded_extends (λ _, True)).
  replace log' with (log', true).1 by done. rewrite <- H. apply extends_foldl_flag. intros [l' o] z _.
  by apply extends_snoc.
Qed.

Lemma delete_services_ok owned log log' :
  delete_services reply owned log = (log', true) →
  ∀ s, s ∈ owned → succeeded log' (ActDeleteService (om_Namespace (svc_meta s)) (om_Name (svc_meta s))).
Proof.
  assert (Hext : ∀ owned log, extends (λ _, True) log (delete_services reply owned log).1).
  { induction owned0 as [|s o IH]; intros l; cbn [delete_services call]; [apply extends_refl|].
    destruct (reply _ _); [|eapply extends_trans; [|apply IH]]; by apply extends_snoc. }
  revert log. induction owned as [|s owned IH]; intros log; cbn [delete_services call].
  { by intros _ s ?%elem_of_nil. }
  destruct (reply log _) eqn:Er; [done|]. intros H x [->|Hx]%elem_of_cons; [|by eapply IH].
  apply succeeded_snoc in Er. revert Er. apply (succeeded_extends (λ _, True)).
  replace log' with (log', true).1 by done. rewrite <- H. apply Hext.
Qed.

(** Everything the set owned was dealt with by the end of [log]. *)
Definition dealt_with set existing log : Prop :=
  if orphanRequested set then
    (∃ l owned, ownedServices services set l = Ok owned ∧ ∀ s, s ∈ owned → succeeded log (ActUpdateService
      (mkService (ReleaseAppsetMeta (svc_meta s)) (svc_ClusterIP s) (svc_Ports s)))) ∧
    (∀ n a, existing !! n = Some a → succeeded log (ActUpdateApplication (release_app a)))
  else
    existing = ∅ ∧
    ∃ l owned, ownedServices services set l = Ok owned ∧
      ∀ s, s ∈ owned → succeeded log (ActDeleteService (om_Namespace (svc_meta s)) (om_Name (svc_meta s))).

Definition no_erase (act : Act) : Prop := ¬ set_delete act.

Lemma drop_hold_erases set log :
  extends (λ act, set_delete act → kept_finalizers set = []) log (drop_hold reply set log).
Proof.
  unfold drop_hold. set (r := if (_ <? _)%nat then _ else _).
  assert (Hr : extends (λ act, set_delete act → kept_finalizers set = []) log r.1).
  { unfold r. destruct (_ <? _)%nat; [|apply extends_refl]. by apply extends_snoc. }
  destruct r as [log' ok]. destruct (negb ok); [done|]. destruct (kept_finalizers set) eqn:E; [|done].
  eapply extends_trans; [exact Hr|]. by apply extends_snoc.
Qed.

(** [log'] is [log] with writes of which an erase implies [Q]. *)
Definition erases_if (Q : Prop) log log' : Prop := extends (λ act, set_delete act → Q) log log'.

Lemma erases_if_status (Q : Prop) set st log : erases_if Q log (write_if_changed reply set st log).
Proof. eapply extends_weaken, write_if_changed_shape. by intros []. Qed.

Lemma finishCascade_erases set existing log :
  (if orphanRequested set then dealt_with set existing log else existing = ∅) →
  let log' := finishCascade reply services set log in
  erases_if (dealt_with set existing log' ∧ kept_finalizers set = []) log log'.
Proof.
  intros H. unfold finishCascade.
  assert (Hdrop : ∀ l, dealt_with set existing l →
    erases_if (dealt_with set existing (drop_hold reply set l) ∧ kept_finalizers set = []) l (drop_hold reply set l)).
  { intros l Hl. pose proof (drop_hold_erases set l) as Hd. eapply extends_weaken, Hd. intros act Ha Hs.
    split; [|by apply Ha]. revert Hl. unfold dealt_with. destruct (orphanRequested set).
    - intros [(l0 & owned & ? & Hsv) Hc]. split; [exists l0, owned; split; [done|]|];
        intros; eapply succeeded_extends; eauto.
    - intros [? (l0 & owned & ? & Hsv)]. split; [done|]. exists l0, owned. split; [done|].
      intros. eapply succeeded_extends; eauto. }
  destruct (orphanRequested set) eqn:Eo; [by apply Hdrop|].
  destruct (ownedServices services set log) as [owned|e] eqn:Es; [|apply extends_refl].
  assert (Hdel : extends no_erase log (delete_services reply owned log).1).
  { clear. revert log. induction owned as [|s o IH]; intros l; cbn [delete_services call]; [apply extends_refl|].
    destruct (reply _ _); [|eapply extends_trans; [|apply IH]]; apply extends_snoc; by intros ?. }
  destruct (delete_services reply owned log) as [log' [|]] eqn:Ed; cbn [fst] in Hdel.
  2: { eapply extends_weaken, Hdel. by intros act Hn Hs. }
  eapply extends_trans; [eapply extends_weaken, Hdel; by intros act Hn Hs|]. apply Hdrop.
  unfold dealt_with. rewrite Eo. split; [done|]. exists log, owned. split; [done|]. by eapply delete_services_ok.
Qed.

Lemma cascade_erases set existing log :
  let log' := cascade reply services set existing log in
  erases_if (dealt_with set existing log' ∧ kept_finalizers set = []) log log'.
Proof.
  unfold cascade. destruct (orphanRequested set) eqn:Eo.
  - destruct (releaseServices reply services set log) as [log1 ok1] eqn:E1.
    assert (H1 : extends no_erase log log1).
    { unfold releaseServices in E1. destruct (ownedServices services set log) as [owned|];
        [|injection E1 as <- _; apply extends_refl].
      change log1 with (log1, ok1).1. rewrite <- E1. apply extends_foldl_flag. intros [l o] s _.
      apply extends_snoc. by intros ?. }
    destruct ok1; cbn [negb].
    2: { eapply extends_trans; [eapply extends_weaken, H1; by intros act Hn Hs|]. apply erases_if_status. }
    destruct (release reply existing log1) as [log2 ok2] eqn:E2.
    assert (H2 : extends no_erase log1 log2).
    { change log2 with (log2, ok2).1. rewrite <- E2. apply extends_foldl_flag. intros [l o] [n a] _.
      apply extends_snoc. by intros ?. }
    eapply extends_trans; [eapply extends_weaken, H1; by intros act Hn Hs|].
    eapply extends_trans; [eapply extends_weaken, H2; by intros act Hn Hs|].
    destruct ok2; cbn [negb]; [|apply erases_if_status]. apply finishCascade_erases. rewrite Eo.
    unfold dealt_with. rewrite Eo. split.
    + unfold releaseServices in E1. destruct (ownedServices services set log) as [owned|] eqn:Es; [|done].
      exists log, owned. split; [done|]. intros s Hs. eapply succeeded_extends; [exact H2|].
      by apply (try_all (λ s, ActUpdateService
        (mkService (ReleaseAppsetMeta (svc_meta s)) (svc_ClusterIP s) (svc_Ports s))) owned log true log1 E1).
    + intros n a Ha%elem_of_map_to_list. unfold release in E2.
      by apply (try_all (λ kv, ActUpdateApplication (release_app kv.2)) (map_to_list existing) log1 true log2 E2) in Ha.
  - set (log1 := foldl _ log _).
    assert (H1 : extends no_erase log log1).
    { apply extends_foldl. intros l [n a] _. destruct (Deleting _); [apply extends_refl|]. apply extends_snoc. by intros ?. }
    eapply extends_trans; [eapply extends_weaken, H1; by intros act Hn Hs|].
    destruct (decide (existing = ∅)) as [He|He];
      [rewrite (bool_decide_eq_true_2 _ He)|rewrite (bool_decide_eq_false_2 _ He)]; cbn [negb].
    + apply finishCascade_erases. by rewrite Eo.
    + apply erases_if_status.
Qed.

(** C14: a set is erased last.  A reconcile that erases one erases a set being deleted, on which
    no finalizer but the loop's own was left, and only after everything it owned was dealt
    with: without --cascade=orphan it had no child left and each Service it owned was deleted;
    with it, each child and each Service it owned was released, every one of those writes
    having succeeded. *)
Theorem set_erased_last set nodes apps log ns n :
  ActDeleteSet ns n ∉ log →
  let log' := reconcileSet hash8 specHash reply services set nodes apps log in
  ActDeleteSet ns n ∈ log' →
  aset_Deleting set = true ∧ ns = aset_Namespace set ∧ n = aset_Name set ∧
  (∀ f, f ∈ om_Finalizers (aset_meta set) → f = FinalizerChildTeardown ∨ f = FinalizerOrphanDependents) ∧
  dealt_with set (ownedChildren set apps) log'.
Proof.
  intros Hn log' Hin.
  destruct (extends_elem _ _ _ _ (reconcileSet_permitted hash8 specHash reply services set nodes apps log) Hin)
    as [?|(Hd & -> & ->)]; [done|].
  assert (Hlog : log' = cascade reply services set (ownedChildren set apps) log).
  { unfold log', reconcileSet. by rewrite Hd. }
  rewrite Hlog in Hin |- *.
  destruct (extends_elem _ _ _ _ (cascade_erases set (ownedChildren set apps) log) Hin) as [?|He]; [done|].
  destruct (He I) as [Hdw Hk]. split_and!; try done. intros f Hf.
  destruct (decide (f = FinalizerChildTeardown)) as [->|H1]; [by left|].
  destruct (decide (f = FinalizerOrphanDependents)) as [->|H2]; [by right|]. exfalso.
  assert (f ∈ kept_finalizers set) as Hkf; [|rewrite Hk in Hkf; by apply elem_of_nil in Hkf].
  apply filter_elem. split; [done|]. by rewrite !bool_decide_eq_false_2.
Qed.

(** ** A held init step *)
Lemma init_steps_init set desired existing comps allowed n a :
  (∀ n a, allowed !! n = Some a → isInit set (componentOf a) = true) →
  (init_steps set desired existing allowed comps).1 !! n = Some a → isInit set (componentOf a) = true.
Proof.
  revert allowed. induction comps as [|comp comps IH]; intros allowed Hal; cbn [init_steps]; [by apply Hal|].
  destruct (isInit set (nas_Name comp)) eqn:Ei; cbn [negb]; [|by apply IH].
  set (allowed' := foldl _ allowed _).
  assert (Hal' : ∀ n a, allowed' !! n = Some a → isInit set (componentOf a) = true).
  { assert (Hall : Forall (λ n, ∃ a, desired !! n = Some a ∧ componentOf a = nas_Name comp)
      (childrenOf desired (nas_Name comp))) by (apply Forall_forall; intros x ?%elem_of_childrenOf; done).
    unfold allowed'. clear allowed' IH. revert allowed Hal. induction Hall as [|x l (b & Hb & Hc) _ IHl];
      intros allowed Hal; cbn [foldl]; [done|].
    apply IHl. rewrite Hb. intros m c. destruct (decide (m = x)) as [->|Hne].
    - rewrite lookup_insert_eq. intros [= <-]. by rewrite Hc.
    - rewrite lookup_insert_ne by done. apply Hal. }
  destruct (stepHold _ _ _); [by apply Hal'|by apply IH].
Qed.

Lemma prune_deletes desired existing log n a :
  existing !! n = Some a → desired !! n = None →
  ActDeleteApplication (app_Namespace a) n ∈ prune_children reply desired existing log.
Proof.
  intros Ha%elem_of_map_to_list Hd. unfold prune_children. revert log.
  induction (map_to_list existing) as [|[m b] l IH]; intros log; [by apply elem_of_nil in Ha|].
  cbn [foldl fst snd]. apply elem_of_cons in Ha as [[= <- <-]|Ha]; [|by apply IH].
  rewrite Hd, bool_decide_eq_false_2 by (by intros [? ?]).
  match goal with |- _ ∈ foldl ?f ?l0 ?l =>
    assert (extends (λ _, True) l0 (foldl f l0 l)) as (l' & -> & _) end.
  { apply extends_foldl. intros l' x _. destruct (bool_decide _); [apply extends_refl|]. by apply extends_snoc. }
  cbn [call fst]. rewrite !elem_of_app. left; right. left.
Qed.

(** While an init step holds a set back, a pass deletes every service child the set already
    had, though the set still renders it: the children withheld are not in the map the prune
    compares with, so one that exists is deleted as if it were no longer rendered. *)
Theorem init_hold_prunes_services set nodes apps rendered n r a c :
  aset_Deleting set = false → SameNode (aset_Spec set) = false → Prune (aset_Spec set) = true →
  Expand hash8 specHash set nodes = Ok rendered →
  (initGate set (by_name rendered) (ownedChildren set apps)).2 = Some c →
  by_name rendered !! n = Some r → isInit set (componentOf r) = false →
  ownedChildren set apps !! n = Some a →
  ActDeleteApplication (app_Namespace a) n ∈ reconcileSet hash8 specHash reply services set nodes apps [].
Proof.
  intros Hd Hsn Hp Hx Hg Hr Hi Ha. set (existing := ownedChildren set apps).
  destruct (wanted set nodes existing rendered) as [[desired ic] cond] eqn:Hw.
  destruct (reconcileSet_stages set nodes apps rendered desired ic cond [] Hd Hx Hw) as (svc & st & _ & _ & ->).
  rewrite Hp. apply elem_of_app. left. apply prune_deletes; [done|].
  unfold wanted in Hw. fold existing in Hg.
  pose proof (initGate_sub set (by_name rendered) existing) as Hsub.
  destruct (initGate set (by_name rendered) existing) as [allowed ic'] eqn:Eg. rewrite Hsn in Hw.
  injection Hw as -> -> _. cbn [fst snd] in Hsub, Hg. subst ic. unfold initGate in Eg.
  destruct (init_steps set (by_name rendered) existing ∅ _) as [al [c'|]] eqn:Es; [|done]. injection Eg as -> _.
  destruct (desired !! n) as [x|] eqn:Ex; [|done]. exfalso.
  pose proof (lookup_weaken _ _ _ _ Ex Hsub) as Hx'. rewrite Hr in Hx'. injection Hx' as <-.
  pose proof (init_steps_init set (by_name rendered) existing (ass_Applications (aset_Spec set)) ∅ n r) as Hinit.
  rewrite Es in Hinit. rewrite Hinit in Hi; [done| |done]. intros m y Hy. by rewrite lookup_empty in Hy.
Qed.
End Rollout.
