(* ===== verification/AppSetSettle.v ===== *)
(** * ApplicationSets: a pass settles

    The comment on [mergeManaged] tells of a write storm: admission changes what a pass
    writes, the next pass sees a difference and writes again.  Here the pass's writes are
    applied to the children through any [stored] that keeps what the loop compares, a deletion
    erasing a child nothing holds and marking one a finalizer holds, and the next pass creates
    and updates no application, and deletes only what is already being deleted. *)
From stdpp Require Import gmap strings list.
From Stdlib Require Import ZArith Ascii.
From S2P Require Import Prelude Resources CoreV1 ApiObjects Uids Paths Admission Authz Escalation Services.
From S2P Require Import AppSet AppSetLoop AppSetFacts AppSetTheorems AppSetRollout.
#[local] Open Scope Z_scope.

Section Settle.
Context {HQ : Quantity} (hash8 : string → string) (specHash : ApplicationSpec → string).
Context (reply : list Act → Act → option error) (services : list Act → result error (list Service)).
Implicit Types (set : ApplicationSet) (log : list Act) (desired existing : Children).

(** What admission and the store make of a written child: any change that keeps its name, its
    labels, the digest and a node it names. *)
Definition faithful (stored : Application → Application) : Prop :=
  ∀ a, app_Name (stored a) = app_Name a ∧ om_Labels (app_meta (stored a)) = om_Labels (app_meta a) ∧
       hash_of (stored a) = hash_of a ∧ (child_node a ≠ "" → child_node (stored a) = child_node a).

(** A child whose deletion was asked for at [now] while a finalizer holds it. *)
Definition mark_deleting (now : Z) (a : Application) : Application :=
  mkApplication (set_deletionTimestamp (Some (default now (om_DeletionTimestamp (app_meta a)))) (app_meta a))
    (app_Spec a) (app_Status a).

(** What the writes make of the set's children: a deletion erases a child without finalizers and
    only marks the others, which stay until their node has confirmed the teardown. *)
Definition apply_act (stored : Application → Application) (now : Z) (m : Children) (act : Act) : Children :=
  match act with
  | ActCreateApplication a | ActUpdateApplication a => <[app_Name a := stored a]> m
  | ActDeleteApplication _ n =>
      match m !! n with
      | Some a => if bool_decide (om_Finalizers (app_meta a) = []) then delete n m else <[n := mark_deleting now a]> m
      | None => m
      end
  | _ => m
  end.

(** No such child, or one being deleted. *)
Definition going (o : option Application) : Prop := ∀ a, o = Some a → Deleting a = true.

Lemma apply_delete_ne stored now m ns k n :
  k ≠ n → apply_act stored now m (ActDeleteApplication ns k) !! n = m !! n.
Proof.
  intros Hne. cbn [apply_act]. destruct (m !! k) as [a|]; [|done].
  case_bool_decide; [by rewrite lookup_delete_ne|by rewrite lookup_insert_ne].
Qed.

Lemma apply_delete_going stored now m ns n : going (apply_act stored now m (ActDeleteApplication ns n) !! n).
Proof.
  cbn [apply_act]. destruct (m !! n) as [a|] eqn:E; [|intros b; congruence].
  case_bool_decide; [by rewrite lookup_delete_eq|]. rewrite lookup_insert_eq. by intros b [= <-].
Qed.

(** A stored child the loop has nothing to write to. *)
Definition settled (d a : Application) : Prop :=
  hash_of a = hash_of d ∧ om_Labels (app_meta a) = om_Labels (app_meta d) ∧
  (child_node d ≠ "" → child_node a = child_node d).

Lemma mergeManaged_settled cur d : (mergeManaged cur d).2 = false ↔ settled d cur.
Proof.
  unfold mergeManaged, settled. cbn [snd].
  rewrite !orb_false_iff, !negb_false_iff, andb_false_iff, !negb_false_iff, !bool_decide_eq_true.
  destruct (decide (child_node d = "")); naive_solver.
Qed.

Lemma mergeManaged_stored stored cur d :
  faithful stored → settled d (stored (mergeManaged cur d).1) ∧ app_Name (mergeManaged cur d).1 = app_Name cur.
Proof.
  intros Hf. split; [|done]. destruct (Hf (mergeManaged cur d).1) as (_ & Hl & Hh & Hn).
  split_and!; [by rewrite Hh|by rewrite Hl|]. intros Hd.
  assert (Hm : child_node (mergeManaged cur d).1 = child_node d).
  { unfold mergeManaged, child_node at 1. cbn [fst app_Spec]. by rewrite (bool_decide_eq_false_2 _ Hd). }
  rewrite Hn, Hm; [done|by rewrite Hm].
Qed.

Lemma apply_other stored now acts m :
  Forall (λ act, ¬ app_write act) acts → foldl (apply_act stored now) m acts = m.
Proof.
  intros H. revert m. induction H as [|act acts Ha _ IH]; intros m; cbn [foldl]; [done|].
  rewrite IH. destruct act; try done; exfalso; by apply Ha.
Qed.

Lemma NoDup_keys (m : Children) : NoDup (keys_of m).
Proof. unfold keys_of. rewrite sort_stable_perm. apply NoDup_fst_map_to_list. Qed.

(** The rollout without a budget, every write succeeding. *)
Lemma roll_settles stored now desired existing ready unavailable cond names log :
  faithful stored → (∀ l a, reply l a = None) → NoDup names →
  (∀ n a, existing !! n = Some a → app_Name a = n) → (∀ n a, desired !! n = Some a → app_Name a = n) →
  ∃ acts, roll reply desired existing ready 0 unavailable cond names log = (log ++ acts, cond) ∧
    ∀ m, (∀ n, n ∈ names → m !! n = existing !! n) →
      (∀ n d, n ∈ names → desired !! n = Some d → ∃ a, foldl (apply_act stored now) m acts !! n = Some a ∧ settled d a) ∧
      (∀ n, n ∉ names → foldl (apply_act stored now) m acts !! n = m !! n).
Proof.
  intros Hf Hok Hnd He Hd. revert unavailable log.
  induction Hnd as [|n names Hn Hnd IH]; intros unavailable log; cbn [roll].
  { exists []. rewrite app_nil_r. split; [done|]. intros m _. split; [by intros n d ?%elem_of_nil|done]. }
  (* one write to [n], or none, then the rest *)
  assert (Hstep : ∀ pre log' u,
    (∀ m k, k ≠ n → foldl (apply_act stored now) m pre !! k = m !! k) →
    (∀ m, m !! n = existing !! n → ∀ d, desired !! n = Some d →
       ∃ a, foldl (apply_act stored now) m pre !! n = Some a ∧ settled d a) →
    log' = log ++ pre →
    ∃ acts, roll reply desired existing ready 0 u cond names log' = (log ++ acts, cond) ∧
    ∀ m, (∀ k, k ∈ n :: names → m !! k = existing !! k) →
      (∀ k d, k ∈ n :: names → desired !! k = Some d → ∃ a, foldl (apply_act stored now) m acts !! k = Some a ∧ settled d a) ∧
      (∀ k, k ∉ n :: names → foldl (apply_act stored now) m acts !! k = m !! k)).
  { intros pre log' u Hother Hthis ->. destruct (IH u (log ++ pre)) as (acts & -> & Hacts).
    exists (pre ++ acts). rewrite (assoc_L (++)). split; [done|]. intros m Hm.
    destruct (Hacts (foldl (apply_act stored now) m pre)) as [Hin Hout].
    { intros k Hk. rewrite Hother by (by intros ->). apply Hm. by right. }
    rewrite foldl_app. split.
    - intros k d [->|Hk]%elem_of_cons Hdk; [|by apply Hin]. rewrite Hout by done. apply Hthis; [apply Hm; left|done].
    - intros k [Hk1 Hk2]%not_elem_of_cons. by rewrite Hout, Hother. }
  destruct (desired !! n) as [d|] eqn:Ed.
  2: { apply (Hstep []); [done|done|by rewrite app_nil_r]. }
  destruct (existing !! n) as [cur|] eqn:Ec.
  - destruct (mergeManaged cur d) as [merged changed] eqn:Em.
    pose proof (mergeManaged_stored stored cur d Hf) as [Hs Hname]. pose proof (mergeManaged_settled cur d) as Hset.
    rewrite Em in Hs, Hname, Hset. cbn [fst snd] in Hs, Hname, Hset. rewrite (He _ _ Ec) in Hname.
    destruct changed; cbn [negb].
    + rewrite Z.ltb_irrefl, andb_false_r. cbn [andb call]. rewrite Hok.
      apply (Hstep [ActUpdateApplication merged]); [| |done]; cbn [foldl apply_act]; rewrite Hname.
      * intros m k Hk. by rewrite lookup_insert_ne.
      * intros m _ d' [= <-]. rewrite lookup_insert_eq. eauto.
    + apply (Hstep []); [done| |by rewrite app_nil_r]. intros m Hm d' [= <-]. cbn [foldl]. rewrite Hm.
      exists cur. split; [done|]. by apply Hset.
  - apply (Hstep [ActCreateApplication d]); [| |done]; cbn [foldl apply_act]; rewrite (Hd _ _ Ed).
    + intros m k Hk. by rewrite lookup_insert_ne.
    + intros m _ d' [= <-]. rewrite lookup_insert_eq. destruct (Hf d) as (_ & ? & ? & ?). by eexists.
Qed.

Lemma prune_applies stored now desired existing log :
  ∃ acts, prune_children reply desired existing log = log ++ acts ∧
    (∀ m n, is_Some (desired !! n) → foldl (apply_act stored now) m acts !! n = m !! n) ∧
    (∀ m n, (m !! n = None ∨ is_Some (existing !! n)) → desired !! n = None →
       going (foldl (apply_act stored now) m acts !! n)).
Proof.
  unfold prune_children.
  assert (Hgo : ∀ l log, ∃ acts,
    foldl (λ log kv, if bool_decide (is_Some (desired !! kv.1)) then log
      else (call reply (ActDeleteApplication (app_Namespace kv.2) kv.1) log).1) log l = log ++ acts ∧
    (∀ m n, is_Some (desired !! n) → foldl (apply_act stored now) m acts !! n = m !! n) ∧
    (∀ m n, (going (m !! n) ∨ n ∈ l.*1) → desired !! n = None → going (foldl (apply_act stored now) m acts !! n))).
  { induction l as [|[k a] l IH]; intros lg; cbn [foldl fst snd].
    { exists []. rewrite app_nil_r. split_and!; [done|done|]. intros m n [?|?%elem_of_nil] _; done. }
    destruct (decide (is_Some (desired !! k))) as [Hk|Hk];
      [rewrite (bool_decide_eq_true_2 _ Hk)|rewrite (bool_decide_eq_false_2 _ Hk)].
    - destruct (IH lg) as (acts & -> & H1 & H2). exists acts. split_and!; [done|done|].
      intros m n [?|[->|?]%elem_of_cons] Hn; [by apply H2; [left|]| |by apply H2; [right|]].
      cbn in Hn. rewrite Hn in Hk. by destruct Hk.
    - cbn [call fst]. destruct (IH (lg ++ [ActDeleteApplication (app_Namespace a) k])) as (acts & Heq & H1 & H2).
      cbn [call fst] in Heq. exists (ActDeleteApplication (app_Namespace a) k :: acts). rewrite Heq, <- (assoc_L (++)).
      split_and!; [done| |]; cbn [foldl].
      + intros m n Hn. rewrite H1 by done. apply apply_delete_ne. by intros ->.
      + intros m n Hmn Hn. apply H2; [|done]. destruct (decide (k = n)) as [->|Hne].
        * left. apply apply_delete_going.
        * rewrite apply_delete_ne by done. destruct Hmn as [?|[->|?]%elem_of_cons]; [by left|done|by right]. }
  destruct (Hgo (map_to_list existing) log) as (acts & Heq & H1 & H2). exists acts. split_and!; [done|done|].
  intros m n Hmn. apply H2. destruct Hmn as [E|[a Ha]]; [left; by rewrite E|right].
  apply list_elem_of_fmap. exists (n, a). by rewrite elem_of_map_to_list.
Qed.

(** ** Sets with neither init steps nor co-location *)
Definition plain set : Prop :=
  SameNode (aset_Spec set) = false ∧
  ∀ comp, comp ∈ ass_Applications (aset_Spec set) → RunToCompletion (sp_Lifecycle (nas_Spec comp)) = false.

Lemma plain_isInit set c : plain set → isInit set c = false.
Proof.
  intros [_ H]. unfold isInit, initComponents.
  enough (Hm : ∀ m : gmap string bool, default false (m !! c) = false →
    default false (foldl (λ m comp, <[nas_Name comp := RunToCompletion (sp_Lifecycle (nas_Spec comp))]> m) m
      (ass_Applications (aset_Spec set)) !! c) = false) by (apply Hm; by rewrite lookup_empty).
  induction (ass_Applications (aset_Spec set)) as [|comp comps IH]; intros m Hm; cbn [foldl]; [done|].
  apply IH; [intros x Hx; apply H; by right|]. rewrite (H comp (list_elem_of_here _ _)).
  destruct (decide (nas_Name comp = c)) as [->|Hne]; [by rewrite lookup_insert_eq|by rewrite lookup_insert_ne].
Qed.

Lemma plain_wanted set nodes existing rendered :
  plain set → wanted set nodes existing rendered = (by_name rendered, None, converged).
Proof.
  intros Hp. unfold wanted, initGate.
  assert (Hs : ∀ comps, init_steps set (by_name rendered) existing ∅ comps = (∅, None)).
  { induction comps as [|comp comps IH]; cbn [init_steps]; [done|]. by rewrite (plain_isInit set _ Hp). }
  rewrite Hs, (proj1 Hp), (right_id_L ∅ (∪)). f_equal. f_equal.
  apply map_filter_id. intros n a _. by apply plain_isInit.
Qed.

Lemma roll_quiet r desired existing ready budget unavailable cond names log :
  (∀ n d, desired !! n = Some d → ∃ a, existing !! n = Some a ∧ settled d a) →
  roll r desired existing ready budget unavailable cond names log = (log, cond).
Proof.
  intros H. induction names as [|n names IH]; cbn [roll]; [done|].
  destruct (desired !! n) as [d|] eqn:Ed; [|done]. destruct (H n d Ed) as (a & -> & Ha%mergeManaged_settled).
  destruct (mergeManaged a d) as [merged changed]. cbn [snd] in Ha. by subst changed.
Qed.
(** A delete repeated for a child that is being deleted already. *)
Definition repeated (existing : Children) (act : Act) : Prop :=
  ∃ ns n a, act = ActDeleteApplication ns n ∧ existing !! n = Some a ∧ Deleting a = true.

Lemma prune_repeats r desired existing log :
  (∀ n, desired !! n = None → going (existing !! n)) →
  ∃ acts, prune_children r desired existing log = log ++ acts ∧ Forall (repeated existing) acts.
Proof.
  intros H. unfold prune_children.
  assert (Hl : ∀ n a, (n, a) ∈ map_to_list existing → existing !! n = Some a) by (intros n a; apply elem_of_map_to_list).
  revert log. induction (map_to_list existing) as [|[n a] l IH]; intros log; cbn [foldl fst snd].
  { exists []. by rewrite app_nil_r. }
  assert (Hl' : ∀ k b, (k, b) ∈ l → existing !! k = Some b) by (intros k b Hkb; apply Hl; by right).
  case_bool_decide as Hn; [by apply IH|].
  destruct (IH Hl' (log ++ [ActDeleteApplication (app_Namespace a) n])) as (acts & Heq & Hacts).
  cbn [call fst] in *. rewrite Heq. exists (ActDeleteApplication (app_Namespace a) n :: acts).
  rewrite <- (assoc_L (++)). split; [done|]. constructor; [|done].
  assert (existing !! n = Some a) as Ha by (apply Hl; left).
  exists (app_Namespace a), n, a. split_and!; [done|done|].
  apply (H n); [by apply eq_None_not_Some|done].
Qed.

Lemma not_app_write acts : Forall service_write acts ∨ Forall status_write acts → Forall (λ act, ¬ app_write act) acts.
Proof. intros [H|H]; (eapply Forall_impl; [exact H|]); intros []; cbn; tauto. Qed.

(** A set whose children are settled, those it prunes erased or going. *)
Definition at_rest (prune : bool) desired existing : Prop :=
  (∀ n d, desired !! n = Some d → ∃ a, existing !! n = Some a ∧ settled d a) ∧
  (prune = true → ∀ n, desired !! n = None → going (existing !! n)).

Lemma pass_reaches_rest stored now set nodes apps rendered log acts :
  faithful stored → (∀ l a, reply l a = None) → plain set → aset_Deleting set = false →
  RolloutBudget (aset_Spec set) = 0 → Expand hash8 specHash set nodes = Ok rendered →
  reconcileSet hash8 specHash reply services set nodes apps log = log ++ acts →
  at_rest (Prune (aset_Spec set)) (by_name rendered) (foldl (apply_act stored now) (ownedChildren set apps) acts).
Proof.
  intros Hf Hok Hp Hd Hb Hx Heq. set (existing := ownedChildren set apps) in *.
  set (desired := by_name rendered).
  destruct (reconcileSet_stages hash8 specHash reply services set nodes apps rendered desired None converged log Hd Hx
    (plain_wanted set nodes existing rendered Hp)) as (svc & st & Hsvc & Hst & Hr).
  rewrite Hr, Hb in Heq. clear Hr. cbn [Z.ltb Z.compare] in Heq. fold existing in Heq.
  destruct (roll_settles stored now desired existing (readyNodes nodes) 0 converged (keys_of desired) (log ++ svc) Hf Hok
    (NoDup_keys _)) as (rolled & Hroll & Hsettle).
  { intros n a Ha. by apply ownedChildren_Some in Ha as (_ & ? & _). }
  { intros n a Ha. by apply by_name_Some in Ha as [_ ?]. }
  rewrite Hroll in Heq. cbn [fst] in Heq.
  destruct (prune_applies stored now desired existing ((log ++ svc) ++ rolled)) as (pruned & Hpe & Hkeep & Hgone).
  destruct (Hsettle existing ltac:(done)) as [Hin Hout].
  destruct (Prune (aset_Spec set)).
  - rewrite Hpe in Heq. assert (acts = svc ++ rolled ++ pruned ++ st) as ->.
    { apply (app_inv_head log). by rewrite <- Heq, <- !(assoc_L (++)). }
    rewrite !foldl_app, (apply_other _ _ svc), (apply_other _ _ st) by (apply not_app_write; auto). split.
    + intros n dd Hdd. rewrite Hkeep by (by exists dd). apply Hin; [|done]. apply elem_of_sorted_keys. by exists dd.
    + intros _ n Hn. apply Hgone; [|done]. rewrite Hout; [|rewrite elem_of_sorted_keys, Hn; by intros [? ?]].
      destruct (existing !! n); [right; by eexists|by left].
  - assert (acts = svc ++ rolled ++ st) as ->.
    { apply (app_inv_head log). by rewrite <- Heq, <- !(assoc_L (++)). }
    rewrite !foldl_app, (apply_other _ _ svc), (apply_other _ _ st) by (apply not_app_write; auto). split; [|done].
    intros n dd Hdd. apply Hin; [|done]. apply elem_of_sorted_keys. by exists dd.
Qed.

(** C15: a pass settles.  Take a set without init steps, co-location or a rollout budget, a pass
    on it in which every write succeeds, and let admission and the store change what was
    written in any way that keeps the name, the labels, the digest and a node it names, and
    erase a deleted child or, when a finalizer holds it, mark it.  Then the next pass, with the
    same nodes and over the children that resulted, creates and updates no application,
    whatever the store answers: the loop and admission cannot drive each other.  A delete it
    makes repeats that of a child which is still held. *)
Theorem pass_settles stored now set nodes apps apps' rendered log acts reply' services' log' act :
  faithful stored → (∀ l a, reply l a = None) → plain set → aset_Deleting set = false →
  RolloutBudget (aset_Spec set) = 0 → Expand hash8 specHash set nodes = Ok rendered →
  reconcileSet hash8 specHash reply services set nodes apps log = log ++ acts →
  ownedChildren set apps' = foldl (apply_act stored now) (ownedChildren set apps) acts →
  act ∈ reconcileSet hash8 specHash reply' services' set nodes apps' log' →
  act ∈ log' ∨ ¬ app_write act ∨ repeated (ownedChildren set apps') act.
Proof.
  intros Hf Hok Hp Hd Hb Hx Heq Happs.
  destruct (pass_reaches_rest stored now set nodes apps rendered log acts Hf Hok Hp Hd Hb Hx Heq) as [Hs Hk].
  rewrite <- Happs in Hs, Hk.
  destruct (reconcileSet_stages hash8 specHash reply' services' set nodes apps' rendered (by_name rendered) None converged
    log' Hd Hx (plain_wanted set nodes _ rendered Hp)) as (svc & st & Hsvc & Hst & ->).
  rewrite roll_quiet by done. cbn [fst].
  assert (∃ del, (if Prune (aset_Spec set)
      then prune_children reply' (by_name rendered) (ownedChildren set apps') (log' ++ svc) else log' ++ svc) =
    (log' ++ svc) ++ del ∧ Forall (repeated (ownedChildren set apps')) del) as (del & -> & Hdel).
  { destruct (Prune (aset_Spec set)); [by apply prune_repeats, Hk|]. exists []. by rewrite app_nil_r. }
  intros [[[?|H]%elem_of_app|H]%elem_of_app|H]%elem_of_app.
  - by left.
  - right. left. revert act H. by apply Forall_forall, not_app_write; left.
  - right. right. revert act H. by apply Forall_forall.
  - right. left. revert act H. by apply Forall_forall, not_app_write; right.
Qed.
End Settle.

(** ** A small shop of ApplicationSets: witnesses of the theorems on the loop *)
From S2P Require Import AdmissionFacts Allocation.
From S2P Require Import References Store AdmissionDemo.
Module AppSetDemo.
Import NanoQuantity.
#[local] Open Scope Z_scope.
Definition demo_hash8 (s : string) : string := "00000000".
Definition demo_specHash (s : ApplicationSpec) : string := sp_Image s.
Definition accepts (log : list Act) (act : Act) : option error := None.
Definition no_services (log : list Act) : result error (list Service) := Ok [].

Definition with_image (image : string) (s : ApplicationSpec) : ApplicationSpec :=
  mkAppSpec image (sp_Command s) (sp_Args s) (sp_Env s) (sp_Ports s) (sp_Resources s) (sp_Lifecycle s)
    (sp_Placement s) (sp_HostNetwork s) (sp_ServiceName s) (sp_RuntimeClassName s) (sp_SecurityContext s) (sp_Volumes s).
Definition with_restart (policy : string) (s : ApplicationSpec) : ApplicationSpec :=
  mkAppSpec (sp_Image s) (sp_Command s) (sp_Args s) (sp_Env s) (sp_Ports s) (sp_Resources s)
    (mkLifecycle policy None None None)
    (sp_Placement s) (sp_HostNetwork s) (sp_ServiceName s) (sp_RuntimeClassName s) (sp_SecurityContext s) (sp_Volumes s).

Definition db_secret : EnvVar := mkEnvVar "PASSWORD" "" (Some (mkEnvSecretRef "db" "password" "" None)).
Definition web (image : string) : NamedApplicationSpec :=
  mkNamedApp "web" (mkChildMeta ∅ ∅) (with_image image (demo_spec "" 1 None [])) (mkScale (Some 2) None).
Definition migrate : NamedApplicationSpec :=
  mkNamedApp "migrate" (mkChildMeta ∅ ∅) (with_restart RestartNever (demo_spec "" 1 None [])) (mkScale None None).

Definition shop (budget : Z) (deleted : option Z) (finalizers : list string) (comps : list NamedApplicationSpec)
    : ApplicationSet :=
  mkAppSet (mkObjectMeta "red" "shop" "u1" "" 1 ∅ ∅ 10 deleted finalizers [])
    (mkAppSetSpec comps (mkCommonMeta ∅ ∅ [db_secret] []) "" (mkRollout budget None))
    (mkAppSetStatus "" "" 0 0 0 0 [] []).

(** A stored child: bound to [n1] and reported running there. *)
Definition running (a : Application) : Application :=
  mkApplication (app_meta a) (with_nodeName "n1" (app_Spec a)) (mkAppStatus 0 AppPhaseRunning "" "" None 0 0).

Definition render (set : ApplicationSet) : list Application :=
  unwrap [] (Expand demo_hash8 demo_specHash set [demo_node]).
Definition up (set : ApplicationSet) : list Application := running <$> render set.
Definition no_child : Application := demo_app "" "" None.


(** ** Evaluation without reading results back *)
Lemma lookup_default_elem {A} (d : A) l i : (i <? length l)%nat = true → default d (l !! i) ∈ l.
Proof.
  intros H%Nat.ltb_lt. destruct (lookup_lt_is_Some_2 l i H) as [x Hx]. rewrite Hx. by eapply list_elem_of_lookup_2.
Qed.
Lemma by_name_elem l a : NoDup (app_Name <$> l) → a ∈ l → by_name l !! app_Name a = Some a.
Proof.
  intros Hnd Ha. destruct (by_name l !! app_Name a) as [b|] eqn:E.
  - apply by_name_Some in E as [Hb Hn]. f_equal.
    apply list_elem_of_lookup in Ha as [i Hi], Hb as [j Hj].
    assert (i = j) as ->; [|congruence].
    apply (NoDup_lookup _ _ _ (app_Name a) Hnd); rewrite list_lookup_fmap; [by rewrite Hi|].
    rewrite Hj. simpl. congruence.
  - apply by_name_None in E. exfalso. by apply E, list_elem_of_fmap_2.
Qed.

Lemma ownedChildren_values set (m : Children) :
  forallb (λ kv, bool_decide (app_Name kv.2 = kv.1) && ownedBySet kv.2 set) (map_to_list m) = true →
  ownedChildren set (map_to_list m).*2 = m.
Proof.
  rewrite forallb_elem. intros H.
  assert (Hk : ∀ n a, m !! n = Some a → app_Name a = n ∧ ownedBySet a set = true).
  { intros n a Ha%elem_of_map_to_list. specialize (H _ Ha). cbn in H.
    by rewrite andb_true_iff, bool_decide_eq_true in H. }
  assert (Hf : List.filter (λ a, ownedBySet a set) (map_to_list m).*2 = (map_to_list m).*2).
  { clear Hk. induction (map_to_list m) as [|kv l IH]; [done|]. cbn.
    pose proof (H kv ltac:(left)) as [_ ->]%andb_true_iff. f_equal. apply IH. intros x Hx. apply H. by right. }
  assert (Hn : app_Name <$> (map_to_list m).*2 = (map_to_list m).*1).
  { rewrite <- list_fmap_compose. apply list_fmap_ext. intros i [n a] Ha%list_elem_of_lookup_2%elem_of_map_to_list.
    by apply Hk in Ha as [? _]. }
  unfold ownedChildren. rewrite Hf. apply map_eq. intros n. destruct (m !! n) as [a|] eqn:E.
  - destruct (Hk _ _ E) as [<- _]. apply by_name_elem; [rewrite Hn; apply NoDup_fst_map_to_list|].
    apply elem_of_map_to_list in E. by apply (list_elem_of_fmap_2 snd) in E.
  - apply by_name_None. rewrite Hn. intros ([k a] & -> & Ha%elem_of_map_to_list)%list_elem_of_fmap. cbn in E. congruence.
Qed.

(** ** Rendering *)
Lemma rendered_children_covered_witness :
  let set := shop 0 None [] [web "v1"] in
  let a := default no_child (render set !! 0%nat) in
  controlled_by set (app_meta a) ∧ hash_of a = demo_specHash (app_Spec a).
Proof.
  intros set a.
  destruct (rendered_children_covered demo_hash8 demo_specHash set [demo_node] (render set) a) as (H1 & _ & H2 & _).
  - apply unwrap_ok. vm_compute. reflexivity.
  - apply lookup_default_elem. vm_compute. reflexivity.
  - exact (conj H1 H2).
Defined.

(** ** Passes *)
Definition acts_of (set : ApplicationSet) (apps : list Application) : list Act :=
  reconcileSet demo_hash8 demo_specHash accepts no_services set [demo_node] apps [].
Definition no_act : Act := ActDeleteSet "" "".

(** A rolling update of two running children. *)
Lemma pass_confined_witness :
  let set := shop 1 None [] [web "v2"] in
  let apps := up (shop 1 None [] [web "v1"]) in
  let act := default no_act
    (reconcileOnce demo_hash8 demo_specHash accepts no_services (Ok [set]) (Ok [demo_node]) (Ok apps) !! 0%nat) in
  swept [set] apps act ∨ ∃ set', set' ∈ [set] ∧ permitted demo_hash8 no_services set' apps act.
Proof.
  intros set apps act. apply (pass_confined demo_hash8 demo_specHash accepts no_services [set] [demo_node] apps act).
  - apply NoDup_singleton.
  - apply lookup_default_elem. vm_compute. reflexivity.
Defined.

Lemma web_plain budget image : plain (shop budget None [] [web image]).
Proof. split; [reflexivity|]. intros comp ->%list_elem_of_singleton. reflexivity. Qed.

Lemma rollout_within_budget_witness :
  let set := shop 1 None [] [web "v2"] in
  let apps := up (shop 1 None [] [web "v1"]) in
  let existing := ownedChildren set apps in
  let ready := readyNodes [demo_node] in
  let down := already_down (by_name (render set)) existing ready in
  down + taken_down accepts existing ready [] (acts_of set apps) ≤ Z.max 1 down.
Proof.
  intros set apps existing ready down.
  refine (rollout_within_budget demo_hash8 demo_specHash accepts no_services set [demo_node] apps (render set)
    (by_name (render set)) None converged [] (acts_of set apps) eq_refl eq_refl
    _ (plain_wanted set [demo_node] existing (render set) (web_plain 1 "v2")) eq_refl).
  apply unwrap_ok. vm_compute. reflexivity.
Defined.

(** A deleted set with no child left. *)
Lemma set_erased_last_witness :
  let set := shop 0 (Some 20) [FinalizerChildTeardown] [web "v1"] in
  aset_Deleting set = true ∧
  (∀ f, f ∈ om_Finalizers (aset_meta set) → f = FinalizerChildTeardown ∨ f = FinalizerOrphanDependents).
Proof.
  intros set.
  destruct (set_erased_last demo_hash8 demo_specHash accepts no_services set [demo_node] [] [] "red" "shop")
    as (H1 & _ & _ & H2 & _).
  - by intros ?%elem_of_nil.
  - right. left.
  - exact (conj H1 H2).
Defined.

(** A set of running services to which an init step is added: the pass deletes them. *)
Lemma init_hold_prunes_services_witness :
  let apps := up (shop 0 None [] [web "v1"]) in
  let set := shop 0 None [] [migrate; web "v1"] in
  let a := default no_child (ownedChildren set apps !! "shop-web-0") in
  ActDeleteApplication (app_Namespace a) "shop-web-0" ∈ acts_of set apps.
Proof.
  intros apps set a.
  refine (init_hold_prunes_services demo_hash8 demo_specHash accepts no_services set [demo_node] apps (render set)
    "shop-web-0" (default no_child (by_name (render set) !! "shop-web-0")) a
    (default converged (initGate set (by_name (render set)) (ownedChildren set apps)).2)
    eq_refl eq_refl eq_refl _ _ _ _ _).
  - apply unwrap_ok. vm_compute. reflexivity.
  - apply default_Some. vm_compute. reflexivity.
  - apply default_Some. vm_compute. reflexivity.
  - vm_compute. reflexivity.
  - apply default_Some. vm_compute. reflexivity.
Defined.

(** ** Settling, under an admission that fills in a security context *)
Definition defaulted (a : Application) : Application :=
  with_spec (with_security_context (mkSecurityContext (Some 1000) (Some 1000))) a.
Lemma defaulted_faithful : faithful defaulted.
Proof. intros a. by split_and!. Qed.

Lemma pass_settles_witness :
  let set := shop 0 None [] [web "v2"] in
  let apps := up (shop 0 None [] [web "v1"]) in
  let m := foldl (apply_act defaulted 5) (ownedChildren set apps) (acts_of set apps) in
  let act := default no_act (acts_of set (map_to_list m).*2 !! 0%nat) in
  act ∈ ([] : list Act) ∨ ¬ app_write act ∨ repeated (ownedChildren set (map_to_list m).*2) act.
Proof.
  intros set apps m act.
  refine (pass_settles demo_hash8 demo_specHash accepts no_services defaulted 5 set [demo_node]
    apps (map_to_list m).*2 (render set) [] (acts_of set apps) accepts no_services [] act
    defaulted_faithful (λ _ _, eq_refl) (web_plain 0 "v2") eq_refl eq_refl _ eq_refl _ _).
  - apply unwrap_ok. vm_compute. reflexivity.
  - apply ownedChildren_values. vm_compute. reflexivity.
  - apply lookup_default_elem. vm_compute. reflexivity.
Defined.
End AppSetDemo.
