(* ===== verification/GuardsTheorems.v ===== *)
(** * What the pinning plugins guarantee

    A client can neither forge nor shed a set's ownership of a child; a certificate request
    keeps the requester it was created by; a node's identity is confined to its own Node and
    its certificate requests; an immutable secret stays what it was, and no secret exceeds its
    size. *)
From stdpp Require Import gmap strings list.
From Stdlib Require Import ZArith Ascii.
From S2P Require Import Prelude Resources CoreV1 ApiObjects Uids Paths Admission AdmissionFacts Allocation.
From S2P Require Import References Store Authz Escalation Guards AdmissionDemo.
#[local] Open Scope Z_scope.

Section Guards.
Context {HQ : Quantity}.

(** ** Keys carried from the stored object *)
Lemma carry_key_lookup old dst k j :
  carry_key old dst k !! j = if decide (j = k) then old !! k else dst !! j.
Proof.
  unfold carry_key. case_decide as E.
  - subst j. destruct (old !! k); [apply lookup_insert_eq|apply lookup_delete_eq].
  - destruct (old !! k); [by rewrite lookup_insert_ne|by rewrite lookup_delete_ne].
Qed.

Lemma carry_keys_lookup old dst keys j :
  foldl (carry_key old) dst keys !! j = if decide (j ∈ keys) then old !! j else dst !! j.
Proof.
  revert dst. induction keys as [|k keys IH]; intros dst; cbn [foldl].
  { by rewrite decide_False by (by intros ?%elem_of_nil). }
  rewrite IH, carry_key_lookup. destruct (decide (j ∈ keys)) as [Hin|Hin].
  { by rewrite (decide_True (P := j ∈ k :: keys)) by (by right). }
  destruct (decide (j = k)) as [->|Hne].
  - by rewrite (decide_True (P := k ∈ k :: keys)) by left.
  - by rewrite decide_False by (by intros [?|?]%elem_of_cons).
Qed.

(** ** child_ownership.go *)
(** No mark of a set is on [m]. *)
Definition unmarked (m : ObjectMeta) : Prop :=
  AppsetOwnerOf (om_OwnerReferences m) = None ∧ om_Annotations m !! AnnAppsetSpecHash = None ∧
  ∀ key, key ∈ ReservedChildLabels → om_Labels m !! key = None.
(** [m] carries [old]'s marks. *)
Definition same_marks (old m : ObjectMeta) : Prop :=
  om_OwnerReferences m = om_OwnerReferences old ∧
  om_Annotations m !! AnnAppsetSpecHash = om_Annotations old !! AnnAppsetSpecHash ∧
  ∀ key, key ∈ ReservedChildLabels → om_Labels m !! key = om_Labels old !! key.

Lemma carry_ownership_same old m : same_marks old (carry_ownership old m).
Proof.
  unfold same_marks, carry_ownership.
  cbn [set_labels set_annotations set_ownerReferences om_OwnerReferences om_Annotations om_Labels]. split_and!.
  - done.
  - rewrite carry_key_lookup. by rewrite decide_True.
  - intros key Hk. rewrite carry_keys_lookup. by rewrite decide_True.
Qed.

Context `{!EqDecision ApplicationSpec}.

(** A client can neither claim nor shed a set's ownership of an application.  One it creates
    carries no controller reference to a set, no render digest and no reserved label; one it
    updates keeps exactly the references, the digest and the reserved labels stored; and a
    child of a set keeps the spec its set gave it. *)
Theorem client_cannot_forge_ownership id op app old a' :
  childOwnership_Admit (Some id) (mkAttributes op (ObjApplication app) old "") = Ok a' →
  childOwnership_Validate (Some id) a' = None →
  ∃ app', at_Object a' = ObjApplication app' ∧
    match op, old with
    | Create, _ => unmarked (app_meta app')
    | Update, Some (ObjApplication stored) =>
        same_marks (app_meta stored) (app_meta app') ∧
        (is_Some (AppsetOwnerOf (om_OwnerReferences (app_meta stored))) → app_Spec app' = app_Spec stored)
    | _, _ => app' = app
    end.
Proof.
  unfold childOwnership_Admit, clientWrittenApp. cbn [at_Operation at_Object at_OldObject].
  change (IsSubresource _) with false. rewrite orb_false_r.
  destruct op; [| |rewrite bool_decide_eq_true_2 by done; intros [= <-] _; by exists app];
    rewrite bool_decide_eq_false_2 by done.
  - destruct (AppsetOwnerOf _) eqn:Eo; [done|].
    destruct (om_Annotations (app_meta app) !! AnnAppsetSpecHash) eqn:Ea; [by rewrite bool_decide_eq_true_2|].
    rewrite bool_decide_eq_false_2 by (by intros [? ?]).
    destruct (List.find _ _) eqn:Ef; [done|]. intros [= <-] _. exists app. split; [done|]. split_and!; [done..|].
    intros key Hk%list_elem_of_In. pose proof (find_none _ _ Ef key Hk) as Hn. cbn beta in Hn.
    apply bool_decide_eq_false in Hn. by apply eq_None_not_Some.
  - destruct old as [[]|]; try (intros [= <-] _; by exists app).
    intros [= <-]. unfold childOwnership_Validate, clientWrittenApp. cbn [with_object at_Operation at_Object at_OldObject].
    change (IsSubresource _) with false. rewrite bool_decide_eq_false_2, bool_decide_eq_true_2 by done. cbn [orb negb].
    intros Hv. eexists. split; [reflexivity|]. split; [apply carry_ownership_same|]. intros [ref Hr]. rewrite Hr in Hv.
    cbn [map_app_meta app_Spec] in Hv |- *. destruct (decide (app_Spec app = app_Spec a)) as [E|E]; [done|].
    by rewrite bool_decide_eq_false_2 in Hv.
Qed.

(** ** csr_policy.go *)
Definition csr_ann (c : CertificateSigningRequest) (key : string) : option string := om_Annotations (csr_meta c) !! key.

(** What admission stores of a created request, and of an updated one. *)
Lemma csr_admit_create id c old a' :
  csrPolicy_Admit (Some id) (mkAttributes Create (ObjCSR c) old "") = Ok a' →
  ∃ c', at_Object a' = ObjCSR c' ∧ csr_Spec c' = csr_Spec c ∧ csr_ann c' AnnRequester = Some (id_Name id) ∧
    csr_ann c' AnnRequesterGroups = Some (GoStrings.join "," (id_Groups id)) ∧ csr_Status c' = mkCSRStatus CSRPending [] "".
Proof.
  unfold csrPolicy_Admit. cbn [at_Operation at_Object]. change (IsSubresource _) with false. cbn match.
  intros [= <-]. eexists. split; [reflexivity|].
  unfold csr_ann. cbn [with_csr csr_Spec csr_Status csr_meta set_annotations om_Annotations].
  by rewrite lookup_insert_eq, lookup_insert_ne, lookup_insert_eq by done.
Qed.
Lemma csr_admit_update ctx c stored a' :
  csrPolicy_Admit ctx (mkAttributes Update (ObjCSR c) (Some (ObjCSR stored)) "") = Ok a' →
  ∃ c', at_Object a' = ObjCSR c' ∧ csr_Spec c' = csr_Spec c ∧ csr_ann c' AnnRequester = csr_ann stored AnnRequester ∧
    csr_ann c' AnnRequesterGroups = csr_ann stored AnnRequesterGroups ∧ csr_Status c' = csr_Status stored ∧
    csp_Request (csr_Spec c') = csp_Request (csr_Spec stored) ∧ csp_NodeName (csr_Spec c') = csp_NodeName (csr_Spec stored).
Proof.
  unfold csrPolicy_Admit. cbn [at_Operation at_Object at_OldObject]. change (IsSubresource _) with false. cbn match.
  destruct (_ || _) eqn:E; [done|]. apply orb_false_iff in E as [E1 E2].
  rewrite negb_false_iff, bool_decide_eq_true in E1, E2. intros [= <-].
  eexists. split; [reflexivity|]. cbn [with_csr csr_Spec csr_Status csr_meta]. unfold csr_ann, preserveRequester.
  cbn [with_csr csr_meta set_annotations om_Annotations]. rewrite !carry_keys_lookup.
  rewrite !decide_True by (rewrite ?elem_of_cons; auto). by split_and!.
Qed.

(** A certificate request is signed for the one who asked.  Whoever creates one is recorded
    as its requester, whatever the request says, and it starts pending; an update leaves its
    status, its requester, the request and the node it names as they were. *)
Theorem csr_requester_pinned id op c old a' :
  csrPolicy_Admit (Some id) (mkAttributes op (ObjCSR c) old "") = Ok a' →
  ∃ c', at_Object a' = ObjCSR c' ∧ csr_Spec c' = csr_Spec c ∧
    match op, old with
    | Create, _ =>
        csr_ann c' AnnRequester = Some (id_Name id) ∧
        csr_ann c' AnnRequesterGroups = Some (GoStrings.join "," (id_Groups id)) ∧
        csr_Status c' = mkCSRStatus CSRPending [] ""
    | Update, Some (ObjCSR stored) =>
        csr_ann c' AnnRequester = csr_ann stored AnnRequester ∧
        csr_ann c' AnnRequesterGroups = csr_ann stored AnnRequesterGroups ∧
        csr_Status c' = csr_Status stored ∧
        csp_Request (csr_Spec c') = csp_Request (csr_Spec stored) ∧
        csp_NodeName (csr_Spec c') = csp_NodeName (csr_Spec stored)
    | _, _ => c' = c
    end.
Proof.
  destruct op; [| |intros [= <-]; by exists c].
  - intros (c' & Ho & Hs & H)%csr_admit_create. by exists c'.
  - destruct old as [[]|]; try (intros [= <-]; by exists c).
    intros (c' & Ho & Hs & H)%csr_admit_update. by exists c'.
Qed.

(** ** node_restriction.go *)
(** A node's identity is confined.  A write of it that the chain accepts is of a certificate
    request or of its own Node; it registers that Node without labels and schedulable, and an
    update keeps the labels and the cordon the store holds. *)
Theorem node_confined s id op o old :
  contains NodeGroup (id_Groups id) = true →
  nodeRestriction_Validate (Some (listing s)) (Some id) (mkAttributes op o old "") = None →
  match o with
  | ObjCSR _ => True
  | ObjNode n => node_Name n = id_Name id ∧
      match op with
      | Create => node_Labels n = ∅ ∧ node_Unschedulable n = false
      | Update => ∀ stored, find_node (id_Name id) (List.filter (λ o, bool_decide (obj_Kind o = "Node")) s) = Some stored →
          node_Labels n = node_Labels stored ∧ node_Unschedulable n = node_Unschedulable stored
      | Delete => True
      end
  | _ => False
  end.
Proof.
  intros Hg. unfold nodeRestriction_Validate. rewrite Hg. cbn [negb at_Object at_Operation]. destruct o as [|n| | | | | | | | | |]; try done.
  destruct (decide (node_Name n = id_Name id)) as [Hn|Hn];
    [rewrite (bool_decide_eq_true_2 _ Hn)|by rewrite (bool_decide_eq_false_2 _ Hn)]. cbn [negb].
  intros H. split; [done|]. destruct op; [| |done].
  - destruct (node_Unschedulable n); [done|]. destruct (decide (node_Labels n = ∅)) as [E|E]; [done|].
    by rewrite (bool_decide_eq_false_2 _ E) in H.
  - intros stored Hs. unfold storedNode, list_kind, listing in H. rewrite Hs in H.
    destruct (decide (node_Labels n = node_Labels stored)) as [E|E]; [|by rewrite (bool_decide_eq_false_2 _ E) in H].
    rewrite (bool_decide_eq_true_2 _ E) in H. cbn [negb] in H.
    destruct (Bool.eqb _ _) eqn:Eb; [|done]. by apply eqb_prop in Eb.
Qed.

(** ** secret_policy.go *)
Fixpoint bytes_of (kvs : list (string * list ascii)) : Z :=
  match kvs with [] => 0 | (k, v) :: kvs' => Z.of_nat (String.length k) + Z.of_nat (length v) + bytes_of kvs' end.

Lemma secret_size_Ok kvs total n :
  secret_size kvs total = Ok n →
  n = total + bytes_of kvs ∧ ∀ k v, (k, v) ∈ kvs → ValidBaseName k "key" = None.
Proof.
  revert total. induction kvs as [|[k v] kvs IH]; intros total; cbn [secret_size bytes_of].
  { intros [= <-]. split; [lia|]. by intros k v ?%elem_of_nil. }
  destruct (ValidBaseName k "key") eqn:E; [done|]. intros [-> H]%IH. split; [lia|].
  intros k' v' [[= -> ->]|Hin]%elem_of_cons; [done|by eapply H].
Qed.

(** A secret the chain accepts keeps to its bounds: its keys are base names, keys and values
    together are at most a mebibyte, a vault secret carries no inline data, and an update of an
    immutable secret leaves it immutable with the same data. *)
Theorem secret_accepted gates ctx op sec old :
  op ≠ Delete →
  secretPolicy_Validate gates ctx (mkAttributes op (ObjSecret sec) old "") = None →
  (∀ k v, sec_Data sec !! k = Some v → ValidBaseName k "key" = None) ∧
  bytes_of (map_to_list (sec_Data sec)) ≤ maxSecretBytes ∧
  (sec_Type sec = SecretTypeVault → sec_Data sec = ∅) ∧
  (∀ stored, op = Update → old = Some (ObjSecret stored) → sec_Immutable stored = Some true →
     sec_Immutable sec = Some true ∧ sec_Data sec = sec_Data stored).
Proof.
  intros Hop. unfold secretPolicy_Validate. cbn [at_Operation at_Object at_OldObject].
  rewrite bool_decide_eq_false_2 by done. change (IsSubresource _) with false. cbn [orb].
  match goal with |- match ?c with _ => _ end = None → _ => destruct c eqn:Ev end; [done|].
  destruct (secret_size _ _) as [total|] eqn:Es; [|done]. apply secret_size_Ok in Es as [-> Hkeys].
  destruct (Z.ltb_spec maxSecretBytes (0 + bytes_of (map_to_list (sec_Data sec)))); [done|]. intros H'. split_and!.
  - intros k v Hk. apply (Hkeys k v). by apply elem_of_map_to_list.
  - lia.
  - intros Ht. rewrite (bool_decide_eq_true_2 _ Ht) in Ev. destruct (decide (sec_Data sec = ∅)) as [E|E]; [done|].
    by rewrite (bool_decide_eq_false_2 _ E) in Ev.
  - intros stored -> -> Hi. rewrite bool_decide_eq_true_2, Hi in H' by done. cbn [is_true default] in H'.
    destruct (sec_Immutable sec) as [[]|]; try done. cbn [default negb] in H'. split; [done|].
    destruct (decide (sec_Data stored = sec_Data sec)) as [E|E]; [done|]. by rewrite (bool_decide_eq_false_2 _ E) in H'.
Qed.
End Guards.

(** ** Concrete writes: witnesses of the theorems on the pinning plugins and on the set plugin *)
From S2P Require Import Policies Services.
From S2P Require Import ServicesTheorems AppSet DefaultChain AppSetLoop AppSetFacts AppSetTheorems.
From S2P Require Import AppSetRollout AppSetSettle.
Module GuardsDemo.
Import ServicesDemo.
Import AppSetDemo.
Import NanoQuantity.
#[local] Open Scope Z_scope.
(** ** Equality of application specs *)
#[export] Instance Amounts_eq_dec : EqDecision (@ResourceAmounts nano).
Proof. intros [a b] [c d]. destruct (Z.eq_dec a c), (Z.eq_dec b d); [left; congruence|right; congruence..]. Defined.
#[export] Instance Requirements_eq_dec : EqDecision (@ResourceRequirements nano) := ltac:(solve_decision).
#[export] Instance EnvSecretRef_eq_dec : EqDecision EnvSecretRef := ltac:(solve_decision).
#[export] Instance EnvVar_eq_dec : EqDecision EnvVar := ltac:(solve_decision).
#[export] Instance Port_eq_dec : EqDecision Port := ltac:(solve_decision).
#[export] Instance Lifecycle_eq_dec : EqDecision Lifecycle := ltac:(solve_decision).
#[export] Instance NodeSelectorRequirement_eq_dec : EqDecision NodeSelectorRequirement := ltac:(solve_decision).
#[export] Instance NodeSelector_eq_dec : EqDecision NodeSelector := ltac:(solve_decision).
#[export] Instance PreferredNodeTerm_eq_dec : EqDecision PreferredNodeTerm := ltac:(solve_decision).
#[export] Instance NodeAffinity_eq_dec : EqDecision NodeAffinity := ltac:(solve_decision).
#[export] Instance WorkloadAffinityTerm_eq_dec : EqDecision WorkloadAffinityTerm := ltac:(solve_decision).
#[export] Instance WeightedTerm_eq_dec : EqDecision WeightedWorkloadAffinityTerm := ltac:(solve_decision).
#[export] Instance WorkloadAffinity_eq_dec : EqDecision WorkloadAffinity := ltac:(solve_decision).
#[export] Instance Affinity_eq_dec : EqDecision Affinity := ltac:(solve_decision).
#[export] Instance Placement_eq_dec : EqDecision Placement := ltac:(solve_decision).
#[export] Instance SecurityContext_eq_dec : EqDecision SecurityContext := ltac:(solve_decision).
#[export] Instance KeyToPath_eq_dec : EqDecision KeyToPath := ltac:(solve_decision).
#[export] Instance VolumeSource_eq_dec : EqDecision (@VolumeSource nano).
Proof. unfold EqDecision. intros [] []. unfold Decision. repeat decide equality; apply Z.eq_dec. Defined.
#[export] Instance VolumeMount_eq_dec : EqDecision (@VolumeMount nano) := ltac:(solve_decision).
#[export] Instance ApplicationSpec_eq_dec : EqDecision (@ApplicationSpec nano) := ltac:(solve_decision).

(** ** Writes *)
Definition tenant : Identity := mkIdentity "alice" ["tenants"].
Definition worker : Identity := mkIdentity "n1" [NodeGroup].

(** A tenant strips the marks of a set's child: they come back. *)
Definition owned_child : Application := default no_child (render (shop 0 None [] [web "v1"]) !! 0%nat).
Definition stripped : Application := mkApplication (meta "red" "shop-web-0" ∅) (app_Spec owned_child) (app_Status owned_child).

Lemma client_cannot_forge_ownership_witness :
  ∃ app', same_marks (app_meta owned_child) (app_meta app') ∧ app_Spec app' = app_Spec owned_child.
Proof.
  set (a' := mkAttributes Update (ObjApplication (map_app_meta (carry_ownership (app_meta owned_child)) stripped))
    (Some (ObjApplication owned_child)) "").
  destruct (client_cannot_forge_ownership tenant Update stripped (Some (ObjApplication owned_child)) a')
    as (app' & _ & H1 & H2).
  - reflexivity.
  - vm_compute. reflexivity.
  - exists app'. split; [exact H1|]. apply H2. exists (set_owner (shop 0 None [] [web "v1"])). vm_compute. reflexivity.
Defined.

Definition demo_csr : CertificateSigningRequest :=
  mkCSR (meta "" "csr-n1" {[AnnRequester := "somebody-else"]}) (mkCSRSpec ["x"%char] [] "n1") (mkCSRStatus CSRApproved [] "").

Lemma csr_requester_pinned_witness :
  ∃ c', csr_Spec c' = csr_Spec demo_csr ∧ csr_ann c' AnnRequester = Some "n1" ∧
    csr_Status c' = mkCSRStatus CSRPending [] "".
Proof.
  destruct (csr_requester_pinned worker Create demo_csr None
    (unwrap (mkAttributes Create (ObjCSR demo_csr) None "")
      (csrPolicy_Admit (Some worker) (mkAttributes Create (ObjCSR demo_csr) None "")))) as (c' & _ & H1 & H2 & _ & H3).
  - reflexivity.
  - exists c'. exact (conj H1 (conj H2 H3)).
Defined.

Lemma node_confined_witness :
  node_Name demo_node = id_Name worker ∧
  ∀ stored, find_node "n1" [ObjNode demo_node] = Some stored →
    node_Labels demo_node = node_Labels stored ∧ node_Unschedulable demo_node = node_Unschedulable stored.
Proof.
  exact (node_confined [ObjNode demo_node] worker Update (ObjNode demo_node) (Some (ObjNode demo_node))
    eq_refl ltac:(vm_compute; reflexivity)).
Defined.

Definition token : Secret :=
  mkSecret (meta "red" "db" ∅) (Some true) SecretTypeOpaque {["password" := ["s"; "e"; "c"]%char]} ∅.

Lemma secret_accepted_witness : bytes_of (map_to_list (sec_Data token)) ≤ maxSecretBytes.
Proof.
  destruct (secret_accepted ∅ None Update token (Some (ObjSecret token))) as (_ & H & _).
  - done.
  - vm_compute. reflexivity.
  - exact H.
Defined.

Lemma set_no_bypass_witness :
  NoDup (nas_Name <$> ass_Applications (aset_Spec (shop 1 None [] [migrate; web "v1"]))).
Proof.
  destruct (set_no_bypass demo_hash8 demo_specHash false [ObjNode demo_node] None Create
    (shop 1 None [] [migrate; web "v1"]) None) as (_ & _ & H & _).
  - done.
  - vm_compute. reflexivity.
  - exact H.
Defined.
End GuardsDemo.
