(* ===== verification/NodeCSR.v ===== *)
(** * The node certificate loop (controller/loops/nodecsr/csr.go)

    The loop that signs a node's renewal of its own certificate, holds every other request
    with a reason, and reclaims old ones.  PEM, X.509 and the signer are parameters; the
    cluster answers each write as a function of the writes before it. *)
From stdpp Require Import gmap strings list.
From Stdlib Require Import ZArith Ascii.
From Stdlib Require String.
From S2P Require Import Prelude Resources CoreV1 ApiObjects Uids Paths Admission Authz Escalation Guards.
From S2P Require Import GuardsTheorems AdmissionFacts Allocation References Store AdmissionDemo.
#[local] Open Scope Z_scope.

(** Durations, in nanoseconds. *)
Definition hour : Z := 3600 * 10 ^ 9.
Definition defaultTTL : Z := 90 * 24 * hour.
Definition defaultRetention : Z := hour.
Definition defaultMaxPendingAge : Z := 24 * hour.

Abbreviation Bytes := (list ascii).
Abbreviation CSR := CertificateSigningRequest.

Inductive CSRAct := ActUpdateCSRStatus (c : CSR) | ActDeleteCSR (name : string).

Section Loop.
(** encoding/pem and crypto/x509, as in the certificate policy. *)
Context (pem_Decode : Bytes → option (string * Bytes))
  (ParseCertificateRequest : Bytes → result error (string * option error)).

(** [Config], and the [Controller] [New] makes of it. *)
Record Config := mkConfig {
  cfg_Signer : option (Bytes → list string → Z → result error Bytes);
  cfg_AutoApproval : bool;
  cfg_TTL : Z;
  cfg_Retention : Z;
  cfg_MaxPendingAge : Z;
}.
Record Controller := mkController {
  ctl_signer : option (Bytes → list string → Z → result error Bytes);
  ctl_autoApprove : bool;
  ctl_ttl : Z;
  ctl_retention : Z;
  ctl_maxPendingAge : Z;
}.
Definition New (cfg : Config) : Controller :=
  mkController (cfg_Signer cfg) (cfg_AutoApproval cfg)
    (if cfg_TTL cfg <=? 0 then defaultTTL else cfg_TTL cfg)
    (if cfg_Retention cfg <=? 0 then defaultRetention else cfg_Retention cfg)
    (if cfg_MaxPendingAge cfg <=? 0 then defaultMaxPendingAge else cfg_MaxPendingAge cfg).

Context (reply : list CSRAct → CSRAct → option error).
Implicit Types (c : CSR) (log : list CSRAct).

Definition csr_call (act : CSRAct) log : list CSRAct * option error := (log ++ [act], reply log act).

(** [decided]: the status has moved past pending. *)
Definition decided c : bool :=
  negb (bool_decide (cst_Phase (csr_Status c) = "")) && negb (bool_decide (cst_Phase (csr_Status c) = CSRPending)).

(** [setStatus]. *)
Definition with_status (st : CSRStatus) c : CSR := mkCSR (csr_meta c) (csr_Spec c) st.
Definition setStatus c (st : CSRStatus) log : list CSRAct := (csr_call (ActUpdateCSRStatus (with_status st c)) log).1.

(** [csrCommonName]. *)
Definition csrCommonName (request : Bytes) : result error string :=
  match pem_Decode request with
  | None => Err "not a PEM block"
  | Some (_, bytes) =>
      match ParseCertificateRequest bytes with
      | Err e => Err e
      | Ok (cn, _) => Ok cn
      end
  end.

Definition requester_of c : string := default "" (om_Annotations (csr_meta c) !! AnnRequester).
Definition groups_of c : string := default "" (om_Annotations (csr_meta c) !! AnnRequesterGroups).

(** [notSelfRotation]: empty when a node renews its own certificate. *)
Definition notSelfRotation c (cn : string) : string :=
  let requester := requester_of c in
  if bool_decide (cn = "") then "the request carries no common name"
  else if bool_decide (requester = "") then "the request carries no verified requester"
  else if negb (contains NodeGroup (split "," (groups_of c))) then requester +:+ " is not a node identity"
  else if negb (bool_decide (requester = cn)) then requester +:+ " asks for a certificate naming " +:+ cn
  else "".

Definition remedies : string := "issue it out of band, turn the automation on, or sign through a Vault PKI engine".
Definition rotation_off : string := "automatic node certificate rotation is off".

(** [hold]. *)
Definition hold c (why : string) log : list CSRAct :=
  if negb (bool_decide (cst_Reason (csr_Status c) = "")) then log
  else setStatus c (mkCSRStatus CSRPending [] ("held: " +:+ why +:+ " - " +:+ remedies)) log.

(** [sign]. *)
Definition sign (ctl : Controller) c log : list CSRAct :=
  match ctl_signer ctl with
  | None => setStatus c (mkCSRStatus CSRApproved [] "") log
  | Some signer =>
      match signer (csp_Request (csr_Spec c)) [NodeGroup] (ctl_ttl ctl) with
      | Err _ => log
      | Ok cert => setStatus c (mkCSRStatus CSRApproved cert "") log
      end
  end.

(** [reconcileCSR]. *)
Definition reconcileCSR (ctl : Controller) c log : list CSRAct :=
  if decided c then log
  else match csrCommonName (csp_Request (csr_Spec c)) with
       | Err e => setStatus c (mkCSRStatus CSRDenied [] ("unparseable CSR: " +:+ e)) log
       | Ok cn =>
           let why := notSelfRotation c cn in
           if negb (bool_decide (why = "")) then hold c why log
           else if negb (ctl_autoApprove ctl) then hold c rotation_off log
           else sign ctl c log
       end.

(** [gc]: the log, and whether the request was deleted; the zero time is 0. *)
Definition gc (ctl : Controller) (now : Z) c log : list CSRAct * bool :=
  if om_CreationTimestamp (csr_meta c) =? 0 then (log, false)
  else
    let age := time_Sub now (om_CreationTimestamp (csr_meta c)) in
    if (decided c && (ctl_retention ctl <? age)) || (negb (decided c) && (ctl_maxPendingAge ctl <? age)) then
      let '(log, err) := csr_call (ActDeleteCSR (om_Name (csr_meta c))) log in
      (log, bool_decide (err = None))
    else (log, false).

Definition csr_step (ctl : Controller) (now : Z) log c : list CSRAct :=
  let '(log, gone) := gc ctl now c log in if gone : bool then log else reconcileCSR ctl c log.

(** [reconcileOnce]; the clock is read for each request. *)
Definition csr_reconcileOnce (ctl : Controller) (now : CSR → Z) (csrs : result error (list CSR)) : list CSRAct :=
  match csrs with
  | Err _ => []
  | Ok csrs => foldl (λ log c, csr_step ctl (now c) log c) [] csrs
  end.

(** ** What a pass signs *)
(** [c] is a node's renewal of its own certificate, as the loop judges it. *)
Definition self_rotation c (cn : string) : Prop :=
  csrCommonName (csp_Request (csr_Spec c)) = Ok cn ∧ cn ≠ "" ∧ requester_of c = cn ∧
  NodeGroup ∈ split "," (groups_of c).

Lemma contains_elem x l : contains x l = true ↔ x ∈ l.
Proof. apply bool_decide_eq_true. Qed.

Lemma quoted_nonempty a b : a ≠ "" → a +:+ b ≠ "".
Proof. by destruct a. Qed.

Lemma notSelfRotation_empty c cn :
  notSelfRotation c cn = "" ↔ cn ≠ "" ∧ requester_of c = cn ∧ NodeGroup ∈ split "," (groups_of c).
Proof.
  unfold notSelfRotation. rewrite <-contains_elem.
  destruct (decide (cn = "")) as [->|Hcn]; [rewrite bool_decide_eq_true_2 by done; naive_solver|].
  rewrite bool_decide_eq_false_2 by done.
  destruct (decide (requester_of c = "")) as [E|E]; [rewrite (bool_decide_eq_true_2 _ E); naive_solver|].
  rewrite (bool_decide_eq_false_2 _ E). pose proof (quoted_nonempty (requester_of c)) as Hq.
  destruct (contains _ _); cbn [negb]; [|split; [by intros ?%Hq|naive_solver]].
  destruct (decide (requester_of c = cn)) as [E'|E'].
  - rewrite (bool_decide_eq_true_2 _ E'). naive_solver.
  - rewrite (bool_decide_eq_false_2 _ E'). split; [by intros ?%Hq|naive_solver].
Qed.

(** The writes a step may make on a request. *)
Definition csr_permitted (ctl : Controller) c (act : CSRAct) : Prop :=
  match act with
  | ActDeleteCSR name => name = om_Name (csr_meta c)
  | ActUpdateCSRStatus c' =>
      decided c = false ∧ csr_meta c' = csr_meta c ∧ csr_Spec c' = csr_Spec c ∧
      (cst_Phase (csr_Status c') = CSRApproved →
         ctl_autoApprove ctl = true ∧ (∃ cn, self_rotation c cn) ∧
         match ctl_signer ctl with
         | None => cst_Certificate (csr_Status c') = []
         | Some signer => signer (csp_Request (csr_Spec c)) [NodeGroup] (ctl_ttl ctl) = Ok (cst_Certificate (csr_Status c'))
         end)
  end.

Lemma step_permitted ctl now log c :
  ∃ acts, csr_step ctl now log c = log ++ acts ∧ Forall (csr_permitted ctl c) acts.
Proof.
  assert (Hrec : ∀ log, ∃ acts, reconcileCSR ctl c log = log ++ acts ∧ Forall (csr_permitted ctl c) acts).
  { intros lg. unfold reconcileCSR. destruct (decided c) eqn:Ed; [exists []; by rewrite app_nil_r|].
    assert (Hset : ∀ st, csr_permitted ctl c (ActUpdateCSRStatus (with_status st c)) →
      ∃ acts, setStatus c st lg = lg ++ acts ∧ Forall (csr_permitted ctl c) acts).
    { intros st Hst. eexists. split; [reflexivity|]. by apply Forall_singleton. }
    assert (Hhold : ∀ why, ∃ acts, hold c why lg = lg ++ acts ∧ Forall (csr_permitted ctl c) acts).
    { intros why. unfold hold. destruct (negb _); [exists []; by rewrite app_nil_r|]. by apply Hset; split_and!. }
    destruct (csrCommonName _) as [cn|e] eqn:Ecn; [|by apply Hset; split_and!].
    destruct (decide (notSelfRotation c cn = "")) as [Hw|Hw];
      [rewrite (bool_decide_eq_true_2 _ Hw)|rewrite (bool_decide_eq_false_2 _ Hw); apply Hhold]. cbn [negb].
    destruct (ctl_autoApprove ctl) eqn:Ea; [|apply Hhold]. cbn [negb]. unfold sign.
    apply notSelfRotation_empty in Hw as (? & ? & ?). assert (self_rotation c cn) by done.
    destruct (ctl_signer ctl) as [signer|] eqn:Es.
    - destruct (signer _ _ _) as [cert|] eqn:Ec; [|exists []; by rewrite app_nil_r]. apply Hset. split_and!; try done. intros _. rewrite Es. eauto.
    - apply Hset. split_and!; try done. intros _. rewrite Es. eauto. }
  unfold csr_step, gc. destruct (_ =? 0); [apply Hrec|].
  destruct (_ || _); [|apply Hrec]. cbn [csr_call].
  destruct (bool_decide _); [eexists; split; [reflexivity|by apply Forall_singleton]|].
  destruct (Hrec (log ++ [ActDeleteCSR (om_Name (csr_meta c))])) as (acts & -> & Hacts).
  exists (ActDeleteCSR (om_Name (csr_meta c)) :: acts). rewrite <- (assoc_L (++)). split; [done|by constructor].
Qed.

Lemma pass_permitted ctl now csrs log act :
  act ∈ foldl (λ log c, csr_step ctl (now c) log c) log csrs → act ∈ log ∨ ∃ c, c ∈ csrs ∧ csr_permitted ctl c act.
Proof.
  revert log. induction csrs as [|c csrs IH]; intros log; cbn [foldl]; [by left|].
  intros [H|(c' & Hc' & Hp)]%IH; [|right; exists c'; split; [by right|done]].
  destruct (step_permitted ctl (now c) log c) as (acts & E & Hacts). rewrite E in H.
  apply elem_of_app in H as [?|H]; [by left|]. right. exists c. split; [left|].
  rewrite Forall_forall in Hacts. by apply Hacts.
Qed.

(** ** With admission: who a certificate is issued to *)
Definition comma_free (groups : list string) : Prop := ∀ g, g ∈ groups → GoStrings.no_char ","%char g = true.

(** A request [id] created: as admission stored it, updated by anyone, moved by the loop. *)
Inductive history {HQ : Quantity} (id : Identity) : CSR → Prop :=
| hist_create incoming a c :
    csrPolicy_Admit (Some id) (mkAttributes Create (ObjCSR incoming) None "") = Ok a → at_Object a = ObjCSR c →
    history id c
| hist_update ctx stored incoming a c :
    history id stored →
    csrPolicy_Admit ctx (mkAttributes Update (ObjCSR incoming) (Some (ObjCSR stored)) "") = Ok a →
    at_Object a = ObjCSR c → history id c
| hist_status c st : history id c → history id (with_status st c).

Lemma history_requester {HQ : Quantity} id c :
  history id c → requester_of c = id_Name id ∧ groups_of c = GoStrings.join "," (id_Groups id).
Proof.
  unfold requester_of, groups_of. induction 1 as [incoming a c Ha Ho|ctx stored incoming a c _ IH Ha Ho|c st _ IH]; [| |done].
  - apply csr_admit_create in Ha as (c' & Ho' & _ & H1 & H2 & _). rewrite Ho in Ho'. injection Ho' as <-.
    unfold csr_ann in H1, H2. by rewrite H1, H2.
  - apply csr_admit_update in Ha as (c' & Ho' & _ & H1 & H2 & _). rewrite Ho in Ho'. injection Ho' as <-.
    unfold csr_ann in H1, H2. by rewrite H1, H2.
Qed.

(** C12: a certificate is only ever issued to a node renewing its own.  An approval a pass writes
    is of a request it listed, undecided until then, with automatic rotation on; what is signed
    carries the node group and no other.  And whoever created that request is the node the
    certificate names and, provided no group name of theirs contains a comma, a member of the
    node group, whatever was written to the request in between. *)
Theorem certificate_only_to_self {HQ : Quantity} ctl now csrs c' :
  ActUpdateCSRStatus c' ∈ csr_reconcileOnce ctl now (Ok csrs) → cst_Phase (csr_Status c') = CSRApproved →
  ∃ c, c ∈ csrs ∧ decided c = false ∧ csr_meta c' = csr_meta c ∧ csr_Spec c' = csr_Spec c ∧
    ctl_autoApprove ctl = true ∧
    match ctl_signer ctl with
    | None => cst_Certificate (csr_Status c') = []
    | Some signer => signer (csp_Request (csr_Spec c)) [NodeGroup] (ctl_ttl ctl) = Ok (cst_Certificate (csr_Status c'))
    end ∧
    ∀ id, history id c →
      csrCommonName (csp_Request (csr_Spec c)) = Ok (id_Name id) ∧
      (comma_free (id_Groups id) → NodeGroup ∈ id_Groups id).
Proof.
  intros Hin Hp. apply pass_permitted in Hin as [?%elem_of_nil|(c & Hc & Hd & Hm & Hs & Happ)]; [done|].
  destruct (Happ Hp) as (Hauto & (cn & Hcn & Hne & Hreq & Hg) & Hsig). exists c. split_and!; try done.
  intros id [Hr Hgr]%history_requester. split; [congruence|]. intros Hcf. rewrite Hgr in Hg.
  destruct (id_Groups id) as [|g gs] eqn:Eg.
  { cbn in Hg. apply list_elem_of_singleton in Hg. done. }
  by rewrite (split_join_sep ","%char) in Hg.
Qed.

(** A request held because rotation was off is decided again: once the controller runs with
    rotation on, a pass approves it. *)
Theorem held_request_decided_again ctl c cn now :
  self_rotation c cn → cst_Phase (csr_Status c) = CSRPending → ctl_autoApprove ctl = true → ctl_signer ctl = None →
  om_CreationTimestamp (csr_meta c) = 0 →
  csr_reconcileOnce ctl now (Ok [c]) = [ActUpdateCSRStatus (with_status (mkCSRStatus CSRApproved [] "") c)].
Proof.
  intros (Hcn & Hne & Hreq & Hg) Hph Ha Hs Ht. cbn. unfold csr_step, gc. rewrite Ht. cbn [Z.eqb].
  unfold reconcileCSR, decided. rewrite Hph, andb_false_r, Hcn.
  rewrite (proj2 (notSelfRotation_empty c cn)) by done. rewrite Ha. cbn. unfold sign. by rewrite Hs.
Qed.
End Loop.

(** ** Instances *)
Section Demo.
Import NanoQuantity.
Definition demo_pem (b : Bytes) : option (string * Bytes) := Some ("CERTIFICATE REQUEST", b).
Definition demo_x509 (b : Bytes) : result error (string * option error) := Ok (String.string_of_list_ascii b, None).
Definition demo_controller : Controller := New (mkConfig (Some (λ b _ _, Ok b)) true 0 0 0).
Definition csr_accepts (log : list CSRAct) (act : CSRAct) : option error := None.

(** The request for a certificate naming [n1], as admission stores it for [id]. *)
Definition csr_from (id : Identity) : CSR :=
  match csrPolicy_Admit (Some id)
    (mkAttributes Create (ObjCSR (mkCSR (meta "" "renewal" ∅) (mkCSRSpec ["n"; "1"]%char [] "") (mkCSRStatus "" [] ""))) None "") with
  | Ok a => match at_Object a with ObjCSR c => c | _ => mkCSR (meta "" "" ∅) (mkCSRSpec [] [] "") (mkCSRStatus "" [] "") end
  | _ => mkCSR (meta "" "" ∅) (mkCSRSpec [] [] "") (mkCSRStatus "" [] "")
  end.
Lemma csr_from_history id : history id (csr_from id).
Proof. eapply hist_create; reflexivity. Qed.

Definition signed_by (id : Identity) : CSR := with_status (mkCSRStatus CSRApproved ["n"; "1"]%char "") (csr_from id).

Lemma certificate_only_to_self_witness :
  ∃ c, c ∈ [csr_from (mkIdentity "n1" [NodeGroup])] ∧ decided c = false ∧
    csr_Spec (signed_by (mkIdentity "n1" [NodeGroup])) = csr_Spec c.
Proof.
  destruct (certificate_only_to_self demo_pem demo_x509 csr_accepts demo_controller (λ _, 20)
    [csr_from (mkIdentity "n1" [NodeGroup])] (signed_by (mkIdentity "n1" [NodeGroup]))) as (c & H1 & H2 & _ & H3 & _).
  - left.
  - reflexivity.
  - exists c. exact (conj H1 (conj H2 H3)).
Defined.

(** An identity that is not a node's gets a node certificate when one of its groups is named
    with a comma: the groups are stored joined and read back split. *)
Theorem comma_group_signed :
  let id := mkIdentity "n1" ["ops,system:nodes"] in
  NodeGroup ∉ id_Groups id ∧ history id (csr_from id) ∧
  csr_reconcileOnce demo_pem demo_x509 csr_accepts demo_controller (λ _, 20) (Ok [csr_from id]) =
    [ActUpdateCSRStatus (signed_by id)].
Proof.
  split_and!; [by intros ?%list_elem_of_singleton|apply csr_from_history|reflexivity].
Qed.
End Demo.
