(* ===== verification/DesiredState.v ===== *)
(** * What a node is told to run

    controller/nodeserver/server.go: the desired state pushed to a node (its applications, the
    volumes, secrets and secret stores they need, routed addresses, identity tokens and the
    fleet's routes and services), the signature that deduplicates pushes, and the push itself.

    The control plane's lists are arguments: a build reads each kind once, so one answer per
    kind is every behaviour of the store.  JSON encoding, SHA-256 and the token minter are
    parameters; a build asks the minter at most once for a workload and an audience. *)
From stdpp Require Import gmap strings list.
From Stdlib Require Import ZArith Ascii.
From S2P Require Import Prelude Resources CoreV1 ApiObjects Admission Guards Services.
Import GoStrings.
#[local] Open Scope Z_scope.

(** ** api/secrets/v1 *)
Definition AuthMethodCert : string := "cert".
Definition AuthMethodKubernetes : string := "kubernetes".

Record SecretStoreAuth := mkSecretStoreAuth { ssa_Method : string; ssa_Path : string; ssa_Role : string }.
Record SecretStoreSpec := mkSecretStoreSpec {
  sss_Provider : string;
  sss_Server : string;
  sss_Mount : string;
  sss_KVVersion : Z;
  sss_VaultNamespace : string;
  sss_CABundle : list ascii;
  sss_Auth : SecretStoreAuth;
}.
Record SecretStore := mkSecretStore { ss_meta : ObjectMeta; ss_Spec : SecretStoreSpec }.

(** ** api/core/v1 *)
Definition TokenAudienceVault : string := "vault".
Definition RoutedGateway : string := "169.254.1.1".
Definition wrap32 (z : Z) : Z := (z + 2 ^ 31) mod 2 ^ 32 - 2 ^ 31.

(** [ServicePort.TargetFor], on an instance. *)
Definition TargetFor {HQ : Quantity} (p : ServicePort) (app : Application) : Z :=
  if negb (svp_TargetPort p =? 0) then svp_TargetPort p
  else if bool_decide (svp_TargetName p = "") then svp_Port p
  else match List.find (λ ap, bool_decide (port_Name ap = svp_TargetName p)) (sp_Ports (app_Spec app)) with
       | Some ap => wrap32 (port_Port ap)
       | None => svp_Port p
       end.

(** ** The messages of api/node and api/netd *)
Record WorkloadToken := mkWorkloadToken { wt_Workload : string; wt_Token : string; wt_Audience : string }.
Record WorkloadNetwork := mkWorkloadNetwork { wn_Workload : string; wn_Address : string; wn_Gateway : string; wn_Mtu : Z }.
Record Route := mkRoute { rt_Cidr : string; rt_NodeIp : string }.
Record Backend := mkBackend { be_Address : string; be_Port : Z }.
Record ServiceRule := mkServiceRule {
  sr_ClusterIp : string; sr_Port : Z; sr_Protocol : string; sr_Backends : list Backend;
}.
Record Desired (Body : Type) := mkDesired {
  ds_Applications : list Body;
  ds_PersistentVolumes : list Body;
  ds_Secrets : list Body;
  ds_SecretStores : list Body;
  ds_WorkloadNetworks : list WorkloadNetwork;
  ds_WorkloadTokens : list WorkloadToken;
  ds_Routes : list Route;
  ds_Services : list ServiceRule;
}.
Arguments mkDesired {Body}.
Arguments ds_Applications {Body}.
Arguments ds_PersistentVolumes {Body}.
Arguments ds_Secrets {Body}.
Arguments ds_SecretStores {Body}.
Arguments ds_WorkloadNetworks {Body}.
Arguments ds_WorkloadTokens {Body}.
Arguments ds_Routes {Body}.
Arguments ds_Services {Body}.

(** ** Signatures *)
Definition NUL : string := String (ascii_of_nat 0) "".
Definition LF : string := String (ascii_of_nat 10) "".

(** [sigPart]. *)
Definition sigPart (kind namespace name uid : string) (generation : Z) : string :=
  kind +:+ NUL +:+ WorkloadID namespace name +:+ NUL +:+ uid +:+ NUL +:+ itoa generation.

(** The bytes hashed: each part, in order, and a newline. *)
Definition part_bytes (parts : list string) : string := foldr (λ p acc, p +:+ LF +:+ acc) "" parts.

(** [slices.Sorted(maps.Keys(m))]. *)
Definition sorted_keys {V} (m : gmap string V) : list string := sort_stable String.ltb (elements (dom m)).

(** ** State of the server that a build reads and writes *)
Record mintedToken := mkMinted { mt_token : string; mt_exp : Z }.
(** [tokenKey]: a workload and an audience. *)
Definition tokenKey : Type := string * string.
Definition tokenRefreshMargin : Z := 300 * 1000000000.

Record Server := mkServer {
  srv_routedCIDR : string;
  srv_addrChoice : gmap string string;
  (** [None]: no minter was configured. *)
  srv_tokens : bool;
  srv_tokenCache : gmap tokenKey mintedToken;
}.

Definition set_choice (m : gmap string string) (s : Server) : Server :=
  mkServer (srv_routedCIDR s) m (srv_tokens s) (srv_tokenCache s).
Definition set_cache (m : gmap tokenKey mintedToken) (s : Server) : Server :=
  mkServer (srv_routedCIDR s) (srv_addrChoice s) (srv_tokens s) m.

(** ** Parameters *)
(** Encoding and hashing. *)
Class Wire {HQ : Quantity} (Body : Type) := {
  marshal : Object → result error Body;
  marshal_store : SecretStore → result error Body;
  (** The hexadecimal SHA-256 digest. *)
  sha256_hex : string → string;
}.

(** What one build meets outside the server: the lists, the clock and the minter's answers. *)
Record Surroundings {HQ : Quantity} := mkSurroundings {
  sur_list : string → result error (list Object);
  sur_stores : result error (list SecretStore);
  sur_now : tokenKey → Z;
  sur_mint : tokenKey → string → result error (string * Z);
}.

Arguments mkSurroundings {HQ}.

(** [netip.PrefixFrom] drops the zone; [Prefix.String] is the CIDR notation. *)
Definition PrefixFrom (a : Addr) (bits : Z) : Prefix := mkPrefix (with_num a (addr_num a)) bits.
Definition prefix_String {HN : Netip} (p : Prefix) : string :=
  addr_String (pf_Addr p) +:+ "/" +:+ itoa (pf_Bits p).

Section Build.
Context {HQ : Quantity} {HN : Netip} {Body : Type} {HW : Wire Body}.
Implicit Types (node : string) (app : Application).

(** [desiredSignature]. *)
Definition desiredSignature (parts : list string) : string :=
  sha256_hex (part_bytes (sort_stable String.ltb parts)).

Definition app_UID (app : Application) : string := om_UID (app_meta app).
Definition app_id (app : Application) : string := WorkloadID (app_Namespace app) (app_Name app).

(** ** The applications of the node *)
(** What the loop over the applications collects. *)
Record Gathered := mkGathered {
  g_bodies : list Body;
  g_sig : list string;
  g_referenced : gset string;
  g_appRefs : gmap string (list string);
  g_appAudiences : gmap string (list string);
  g_appUIDs : gmap string string;
  g_routed : gmap string string;
}.
Definition gathered0 : Gathered := mkGathered [] [] ∅ ∅ ∅ ∅ ∅.

(** Pinned to the node, and not a finished job unless it is being deleted. *)
Definition due (node : string) (app : Application) : bool :=
  bool_decide (app_NodeName app = node) && negb (Finished app && negb (Deleting app)).

(** An application's parts of the signature. *)
Definition app_parts (app : Application) : list string :=
  sigPart "a" (app_Namespace app) (app_Name app) (app_UID app) (om_Generation (app_meta app)) ::
  if Deleting app then [sigPart "d" (app_Namespace app) (app_Name app) (app_UID app) 1] else [].

Definition app_refs (app : Application) : list string :=
  (λ n, WorkloadID (app_Namespace app) n) <$> SecretRefs app.

(** One turn of the loop, once the application is known to be due. *)
Definition gather_app (g : Gathered) (app : Application) : result error Gathered :=
  let* b := marshal (ObjApplication app) in
  let id := app_id app in
  let routed := negb (OnHostNetwork app) in
  let refs := app_refs app in
  let auds := TokenAudiences app in
  Ok (mkGathered
        (g_bodies g ++ [b])
        (g_sig g ++ app_parts app)
        (g_referenced g ∪ list_to_set refs)
        (match refs with [] => g_appRefs g | _ => <[id := default [] (g_appRefs g !! id) ++ refs]> (g_appRefs g) end)
        (match auds with [] => g_appAudiences g | _ => <[id := auds]> (g_appAudiences g) end)
        (match routed, refs, auds with
         | false, [], [] => g_appUIDs g
         | _, _, _ => <[id := app_UID app]> (g_appUIDs g)
         end)
        (if routed then <[id := st_Address (app_Status app)]> (g_routed g) else g_routed g)).

Fixpoint gather_apps (node : string) (apps : list Object) (g : Gathered) : result error Gathered :=
  match apps with
  | [] => Ok g
  | ObjApplication app :: apps' =>
      if due node app then let* g := gather_app g app in gather_apps node apps' g
      else gather_apps node apps' g
  | _ :: apps' => gather_apps node apps' g
  end.

(** Every address the fleet reports. *)
Definition reported_addresses (apps : list Object) : gset string :=
  foldl (λ s o, match o with
    | ObjApplication app => if bool_decide (st_Address (app_Status app) = "") then s else {[st_Address (app_Status app)]} ∪ s
    | _ => s end) ∅ apps.

(** ** Volumes *)
Definition stub (pv : PersistentVolume) : PersistentVolume :=
  mkPV (set_identity (om_Namespace (pv_meta pv)) (om_Name (pv_meta pv)) zero_meta) (mkPVSpec q_zero "" "" "" false).

Definition pv_out (node : string) (pv : PersistentVolume) : PersistentVolume * string :=
  if bool_decide (pvs_Node (pv_Spec pv) = node) then (pv, "p") else (stub pv, "P").

Definition pv_part (node : string) (pv : PersistentVolume) : string :=
  let tag := (pv_out node pv).2 in
  sigPart tag (om_Namespace (pv_meta pv)) (om_Name (pv_meta pv)) (om_UID (pv_meta pv))
    (if bool_decide (tag = "P") then 0 else om_Generation (pv_meta pv)).

Fixpoint gather_pvs (node : string) (pvs : list Object) : result error (list Body * list string) :=
  match pvs with
  | [] => Ok ([], [])
  | ObjPersistentVolume pv :: pvs' =>
      let* b := marshal (ObjPersistentVolume (pv_out node pv).1) in
      let* rest := gather_pvs node pvs' in
      Ok (b :: rest.1, pv_part node pv :: rest.2)
  | _ :: pvs' => gather_pvs node pvs'
  end.

(** ** Secrets and their stores *)
Definition AnnExternalSecretStore : string := "secrets.horchestra.io/store".

Definition sec_id (sec : Secret) : string := WorkloadID (om_Namespace (sec_meta sec)) (om_Name (sec_meta sec)).
Definition sec_part (sec : Secret) : string :=
  sigPart "s" (om_Namespace (sec_meta sec)) (om_Name (sec_meta sec)) (om_UID (sec_meta sec)) (om_Generation (sec_meta sec)).

(** The store a vault secret names, as an id of the secret's own namespace. *)
Definition store_of (sec : Secret) : option string :=
  if negb (bool_decide (sec_Type sec = SecretTypeVault)) then None
  else let store := default "" (om_Annotations (sec_meta sec) !! AnnExternalSecretStore) in
       if bool_decide (store = "") then None else Some (WorkloadID (om_Namespace (sec_meta sec)) store).

(** The loop over the secrets: bodies, parts, the stores named and the secret-to-store map. *)
Fixpoint gather_secrets (referenced : gset string) (secrets : list Object) (stores : gset string) (via : gmap string string)
    : result error (list Body * list string * gset string * gmap string string) :=
  match secrets with
  | [] => Ok ([], [], stores, via)
  | ObjSecret sec :: secrets' =>
      if negb (bool_decide (sec_id sec ∈ referenced)) then gather_secrets referenced secrets' stores via
      else
        let* b := marshal (ObjSecret sec) in
        let* rest := match store_of sec with
                     | Some st => gather_secrets referenced secrets' ({[st]} ∪ stores) (<[sec_id sec := st]> via)
                     | None => gather_secrets referenced secrets' stores via
                     end in
        let '(bs, sig, stores, via) := rest in Ok (b :: bs, sec_part sec :: sig, stores, via)
  | _ :: secrets' => gather_secrets referenced secrets' stores via
  end.

Definition ss_id (st : SecretStore) : string := WorkloadID (om_Namespace (ss_meta st)) (om_Name (ss_meta st)).
Definition store_part (st : SecretStore) : string :=
  sigPart "t" (om_Namespace (ss_meta st)) (om_Name (ss_meta st)) (om_UID (ss_meta st)) (om_Generation (ss_meta st)).

(** The loop over the stores: bodies, parts and the stores that need a workload token. *)
Fixpoint gather_stores (wanted : gset string) (stores : list SecretStore) (tokenStores : gset string)
    : result error (list Body * list string * gset string) :=
  match stores with
  | [] => Ok ([], [], tokenStores)
  | st :: stores' =>
      if negb (bool_decide (ss_id st ∈ wanted)) then gather_stores wanted stores' tokenStores
      else
        let* b := marshal_store st in
        let* rest := gather_stores wanted stores'
                       (if bool_decide (ssa_Method (sss_Auth (ss_Spec st)) = AuthMethodKubernetes)
                        then {[ss_id st]} ∪ tokenStores else tokenStores) in
        let '(bs, sig, ts) := rest in Ok (b :: bs, store_part st :: sig, ts)
  end.

(** ** Routed addresses *)
Inductive AddressError := RangeMalformed (e : error) | RangeExhausted (p : Prefix).

Definition host_of (bits : Z) (a : Addr) : string := prefix_String (PrefixFrom a bits).

(** The search of [workloadAddress]; [None] when the range is exhausted. *)
Fixpoint scan_hosts (fuel : nat) (p : Prefix) (taken : gset string) (a : option Addr) : option string :=
  match fuel, a with
  | S fuel', Some a =>
      if negb (Contains p a) then None
      else if negb (bool_decide (host_of (BitLen (pf_Addr p)) a ∈ taken)) then Some (host_of (BitLen (pf_Addr p)) a)
      else scan_hosts fuel' p taken (Next a)
  | _, _ => None
  end.

(** What is in use: the reported addresses and the choices already made. *)
Definition taken_addresses (inUse : gset string) (choice : gmap string string) : gset string :=
  inUse ∪ map_img choice.

(** [workloadAddress]: the choices afterwards and the address.  One address more than are
    taken is enough to look at. *)
Definition workloadAddress (cidr appID reportedAddr : string) (inUse : gset string) (choice : gmap string string)
    : gmap string string * result AddressError string :=
  if negb (bool_decide (reportedAddr = "")) then (choice, Ok reportedAddr)
  else match ParsePrefix cidr with
  | Err e => (choice, Err (RangeMalformed e))
  | Ok p =>
      let p := Masked p in
      match choice !! appID with
      | Some a => (choice, Ok a)
      | None =>
          let taken := taken_addresses inUse choice in
          match scan_hosts (S (size taken)) p taken (Next (pf_Addr p)) with
          | Some host => (<[appID := host]> choice, Ok host)
          | None => (choice, Err (RangeExhausted p))
          end
      end
  end.

(** The loop over the routed workloads, in the order of their ids; a workload whose address
    cannot be chosen is logged and left out. *)
Fixpoint assign_networks (cidr : string) (inUse : gset string) (uids routed : gmap string string) (ids : list string)
    (choice : gmap string string) : gmap string string * list (string * WorkloadNetwork) :=
  match ids with
  | [] => (choice, [])
  | id :: ids' =>
      let '(choice, r) := workloadAddress cidr id (default "" (routed !! id)) inUse choice in
      let '(choice', rest) := assign_networks cidr inUse uids routed ids' choice in
      match r with
      | Err _ => (choice', rest)
      | Ok addr => (choice', (id, mkWorkloadNetwork (default "" (uids !! id)) addr RoutedGateway 0) :: rest)
      end
  end.

Definition network_part (x : string * WorkloadNetwork) : string := sigPart "n" "" x.1 (wn_Address x.2) 0.

(** ** Workload tokens *)
(** [workloadToken]: the cached token while it has more than the margin left, a new one
    otherwise. *)
Definition workloadToken (sur : Surroundings) (key : tokenKey) (uid : string) (cache : gmap tokenKey mintedToken)
    : gmap tokenKey mintedToken * result error string :=
  let mint :=
    match sur_mint sur key uid with
    | Err e => (cache, Err e)
    | Ok (token, exp) => (<[key := mkMinted token exp]> cache, Ok token)
    end in
  match cache !! key with
  | Some t => if tokenRefreshMargin <? time_Sub (mt_exp t) (sur_now sur key) then (cache, Ok (mt_token t)) else mint
  | None => mint
  end.

(** Whether one of the secrets an application refers to is fetched with a workload token. *)
Definition vault_owed (via : gmap string string) (tokenStores : gset string) (refs : list string) : bool :=
  existsb (λ ref, match via !! ref with Some st => bool_decide (st ∈ tokenStores) | None => false end) refs.

(** The audiences each application is owed a token for. *)
Definition wanted_tokens (g : Gathered) (via : gmap string string) (tokenStores : gset string)
    : gmap string (gset string) :=
  let vault : gmap string (gset string) :=
    omap (λ refs, if vault_owed via tokenStores refs then Some {[TokenAudienceVault]} else None) (g_appRefs g) in
  union_with (λ a b, Some (a ∪ b)) vault (list_to_set <$> g_appAudiences g).

Definition hex8 (token : string) : string := String.substring 0 16 (sha256_hex token).

(** The two loops over what is wanted, each in order, as one over the pairs; a token that
    cannot be minted is logged and left out. *)
Definition token_keys (wanted : gmap string (gset string)) : list tokenKey :=
  sorted_keys wanted ≫= λ id, pair id <$> sort_stable String.ltb (elements (default ∅ (wanted !! id))).

Fixpoint mint_tokens (sur : Surroundings) (uids : gmap string string) (keys : list tokenKey)
    (cache : gmap tokenKey mintedToken) : gmap tokenKey mintedToken * list (string * WorkloadToken) :=
  match keys with
  | [] => (cache, [])
  | key :: keys' =>
      let uid := default "" (uids !! key.1) in
      let '(cache, r) := workloadToken sur key uid cache in
      let '(cache', rest) := mint_tokens sur uids keys' cache in
      match r with
      | Err _ => (cache', rest)
      | Ok token => (cache', (key.1, mkWorkloadToken uid token key.2) :: rest)
      end
  end.

Definition token_part (x : string * WorkloadToken) : string :=
  sigPart "w" (wt_Audience x.2) x.1 (hex8 (wt_Token x.2)) 0.

(** ** The fleet's addressing *)
(** [bareAddress]. *)
Definition bareAddress (reported : string) : string :=
  match ParsePrefix reported with
  | Ok p => addr_String (pf_Addr p)
  | Err _ => match ParseAddr reported with Ok a => addr_String a | Err _ => "" end
  end.

(** [hostRoute]. *)
Definition hostRoute (reported : string) : string :=
  let addr := bareAddress reported in
  if bool_decide (addr = "") then ""
  else match ParseAddr addr with Ok a => prefix_String (PrefixFrom a (BitLen a)) | Err _ => "" end.

Definition node_ips (nodes : list Object) : gmap string string :=
  foldl (λ m o, match o with ObjNode n => <[node_Name n := ns_IP (node_Status n)]> m | _ => m end) ∅ nodes.

(** The closure [address]: where an instance answers. *)
Definition instance_address (ips : gmap string string) (app : Application) : string :=
  if bool_decide (app_NodeName app = "") then ""
  else if OnHostNetwork app then default "" (ips !! app_NodeName app)
  else bareAddress (st_Address (app_Status app)).

Definition route_of (ips : gmap string string) (o : Object) : option Route :=
  match o with
  | ObjApplication app =>
      if OnHostNetwork app then None
      else let cidr := hostRoute (st_Address (app_Status app)) in
           if bool_decide (cidr = "") then None else Some (mkRoute cidr (default "" (ips !! app_NodeName app)))
  | _ => None
  end.

Definition backend_of (ips : gmap string string) (svc : Service) (port : ServicePort) (o : Object) : option Backend :=
  match o with
  | ObjApplication app =>
      if negb (bool_decide (app_Namespace app = om_Namespace (svc_meta svc))) ||
         negb (bool_decide (sp_ServiceName (app_Spec app) = om_Name (svc_meta svc))) then None
      else let addr := instance_address ips app in
           if bool_decide (addr = "") then None else Some (mkBackend addr (TargetFor port app))
  | _ => None
  end.

(** The comparison functions; ports are int32 and their difference wraps. *)
Definition text_then_port (s1 : string) (p1 : Z) (s2 : string) (p2 : Z) : bool :=
  if bool_decide (s1 = s2) then wrap32 (p1 - p2) <? 0 else String.ltb s1 s2.
Definition route_less (a b : Route) : bool := String.ltb (rt_Cidr a) (rt_Cidr b).
Definition backend_less (a b : Backend) : bool := text_then_port (be_Address a) (be_Port a) (be_Address b) (be_Port b).
Definition rule_less (a b : ServiceRule) : bool := text_then_port (sr_ClusterIp a) (sr_Port a) (sr_ClusterIp b) (sr_Port b).

Definition rule_of (ips : gmap string string) (apps : list Object) (svc : Service) (port : ServicePort) : option ServiceRule :=
  match omap (backend_of ips svc port) apps with
  | [] => None
  | backends => Some (mkServiceRule (svc_ClusterIP svc) (svp_Port port) (svp_Protocol port) (sort_stable backend_less backends))
  end.

Definition service_rules (ips : gmap string string) (apps : list Object) (o : Object) : list ServiceRule :=
  match o with
  | ObjService svc =>
      if bool_decide (svc_ClusterIP svc = "") then [] else omap (rule_of ips apps svc) (svc_Ports svc)
  | _ => []
  end.

(** [fleetNetwork].  Elements the comparisons cannot tell apart keep the order of the list;
    the code's sort leaves it open. *)
Definition fleetNetwork (read : string → result error (list Object)) (apps : list Object)
    : result error (list Route * list ServiceRule) :=
  let* nodes := read "Node" in
  let ips := node_ips nodes in
  let routes := sort_stable route_less (omap (route_of ips) apps) in
  let* svcs := read "Service" in
  Ok (routes, sort_stable rule_less (svcs ≫= service_rules ips apps)).

Definition route_part (r : Route) : string := sigPart "r" "" (rt_Cidr r) (rt_NodeIp r) 0.
Definition rule_parts (r : ServiceRule) : list string :=
  (λ b, sigPart "v" (sr_ClusterIp r) (itoa (sr_Port r) +:+ "/" +:+ sr_Protocol r)
          (be_Address b +:+ ":" +:+ itoa (be_Port b)) 0) <$> sr_Backends r.

(** ** The build *)
(** The server, the state sent and the parts of its signature.  An error after the addresses
    or the tokens are chosen leaves the choices made. *)
Definition build (sur : Surroundings) (node : string) (srv : Server)
    : Server * result error (Desired Body * list string) :=
  let pure :=
    let* apps := sur_list sur "Application" in
    let* pvs := sur_list sur "PersistentVolume" in
    let* g := gather_apps node apps gathered0 in
    let* vols := gather_pvs node pvs in
    let* secs :=
      if bool_decide (g_referenced g = ∅) then Ok ([], [], ∅, ∅)
      else let* secrets := sur_list sur "Secret" in gather_secrets (g_referenced g) secrets ∅ ∅ in
    let '(sbs, ssig, storeRefs, vaultStore) := secs in
    let* sts :=
      if bool_decide (storeRefs = ∅) then Ok ([], [], ∅)
      else let* stores := sur_stores sur in gather_stores storeRefs stores ∅ in
    Ok (apps, g, vols, (sbs, ssig, vaultStore), sts) in
  match pure with
  | Err e => (srv, Err e)
  | Ok (apps, g, vols, (sbs, ssig, vaultStore), (tbs, tsig, tokenStores)) =>
      let '(choice, nets) :=
        if bool_decide (srv_routedCIDR srv = "") then (srv_addrChoice srv, [])
        else assign_networks (srv_routedCIDR srv) (reported_addresses apps) (g_appUIDs g) (g_routed g)
               (sorted_keys (g_routed g)) (srv_addrChoice srv) in
      let '(cache, toks) :=
        if negb (srv_tokens srv) then (srv_tokenCache srv, [])
        else mint_tokens sur (g_appUIDs g) (token_keys (wanted_tokens g vaultStore tokenStores)) (srv_tokenCache srv) in
      let srv := set_cache cache (set_choice choice srv) in
      match fleetNetwork (sur_list sur) apps with
      | Err e => (srv, Err e)
      | Ok (routes, rules) =>
          (srv, Ok (mkDesired (g_bodies g) vols.1 sbs tbs nets.*2 toks.*2 routes rules,
                    g_sig g ++ vols.2 ++ ssig ++ tsig ++ (network_part <$> nets) ++ (token_part <$> toks) ++
                    (route_part <$> routes) ++ (rules ≫= rule_parts)))
      end
  end.

(** [desiredState]. *)
Definition desiredState (sur : Surroundings) (node : string) (srv : Server)
    : Server * result error (Desired Body * string) :=
  let '(srv, r) := build sur node srv in
  (srv, let* x := r in Ok (x.1, desiredSignature x.2)).

(** ** The push *)
(** What the push loop keeps of a session: the states sent down the stream, the signature of
    the last one, and whether the node was last seen without a Node object. *)
Record PushState := mkPushState {
  ps_sent : list (Desired Body);
  ps_pushSig : string;
  ps_frozen : bool;
}.
Definition pushed0 : PushState := mkPushState [] "" false.

(** [nodeRegistered], on the answer of Get. *)
Inductive GetAnswer := Found | NotFoundAnswer | GetFailed (e : error).
Definition nodeRegistered (a : GetAnswer) : result error bool :=
  match a with Found => Ok true | NotFoundAnswer => Ok false | GetFailed e => Err e end.

(** [push]: the state after it and whether the loop goes on.  [open] is whether the stream
    takes the message before the session ends. *)
Definition push (node : string) (get : GetAnswer) (sur : Surroundings) (open : bool) (x : Server * PushState)
    : (Server * PushState) * bool :=
  let '(srv, ps) := x in
  match nodeRegistered get with
  | Err _ => (x, true)
  | Ok false => ((srv, mkPushState (ps_sent ps) (ps_pushSig ps) true), true)
  | Ok true =>
      let ps := mkPushState (ps_sent ps) (ps_pushSig ps) false in
      let '(srv, r) := desiredState sur node srv in
      match r with
      | Err _ => ((srv, ps), true)
      | Ok (desired, sig) =>
          if bool_decide (sig = ps_pushSig ps) then ((srv, ps), true)
          else if open then ((srv, mkPushState (ps_sent ps ++ [desired]) sig false), true)
          else ((srv, ps), false)
      end
  end.

(** What wakes the push loop: an event of a watched kind, one of the node watch with the name
    it decodes to (or none), the ticker; a closed watch and the session's end stop it. *)
Inductive Wake := WakeObject | WakeNode (name : option string) | WakeResync | WakeClosed | WakeDone.

(** [isNodeEvent]: an undecodable event counts. *)
Definition isNodeEvent (name : option string) (node : string) : bool :=
  match name with None => true | Some n => bool_decide (n = node) end.

Definition pushLoop_step (node : string) (w : Wake) (get : GetAnswer) (sur : Surroundings) (open : bool)
    (x : Server * PushState) : (Server * PushState) * bool :=
  match w with
  | WakeDone | WakeClosed => (x, false)
  | WakeObject => push node get sur open x
  | WakeNode name => if isNodeEvent name node then push node get sur open x else (x, true)
  | WakeResync => push node get sur open (x.1, mkPushState (ps_sent x.2) "" (ps_frozen x.2))
  end.

(** [pushLoop], once its watches are open: the first push, then one turn per wake-up. *)
Fixpoint pushLoop (node : string) (ws : list (Wake * GetAnswer * Surroundings * bool)) (x : Server * PushState)
    : (Server * PushState) * bool :=
  match ws with
  | [] => (x, true)
  | (w, get, sur, open) :: ws' =>
      let '(x, more) := pushLoop_step node w get sur open x in
      if more then pushLoop node ws' x else (x, false)
  end.
End Build.
#[global] Arguments Gathered : clear implicits.
#[global] Arguments PushState : clear implicits.
