(* ===== verification/DesiredFacts.v ===== *)
(** * Lemmas on the desired state

    What each loop of the build collects, stated on the list of applications due on the node;
    the address search; and how a signature part is read back. *)
From stdpp Require Import gmap strings list pretty.
From Stdlib Require Import ZArith Ascii.
From S2P Require Import Prelude Resources CoreV1 ApiObjects Admission AdmissionFacts Guards Services ServicesTheorems DesiredState.
Import GoStrings.
#[local] Open Scope Z_scope.

Lemma map_img_elem (m : gmap string string) (a : string) : a ∈ (map_img m : gset string) ↔ ∃ i, m !! i = Some a.
Proof. apply elem_of_map_img. Qed.

Lemma sorted_keys_elem {V} (m : gmap string V) k : k ∈ sorted_keys m ↔ is_Some (m !! k).
Proof. unfold sorted_keys. rewrite sort_stable_perm, elem_of_elements. apply elem_of_dom. Qed.

Lemma sorted_keys_NoDup {V} (m : gmap string V) : NoDup (sorted_keys m).
Proof. unfold sorted_keys. rewrite sort_stable_perm. apply NoDup_elements. Qed.

(** ** The applications *)
Section Gather.
Context {HQ : Quantity} {HN : Netip} {Body : Type} {HW : Wire Body}.
Implicit Types (g : Gathered Body).

Definition due_apps (node : string) (apps : list Object) : list Application :=
  omap (λ o, match o with ObjApplication a => if due node a then Some a else None | _ => None end) apps.

Lemma due_spec node a : due node a = true ↔ app_NodeName a = node ∧ (Finished a = true → Deleting a = true).
Proof.
  unfold due. rewrite andb_true_iff, bool_decide_eq_true. destruct (Finished a), (Deleting a); simpl; naive_solver.
Qed.
Lemma due_apps_elem node apps a : a ∈ due_apps node apps ↔ ObjApplication a ∈ apps ∧ due node a = true.
Proof.
  unfold due_apps. rewrite list_elem_of_omap. split.
  - intros (o & Ho & E). destruct o; try done. destruct (due node _) eqn:Ed; [|done]. by simplify_eq.
  - intros [Ha Hd]. eexists. split; [done|]. simpl. by rewrite Hd.
Qed.

(** The loop reads the due applications only, and succeeds when each can be encoded. *)
Fixpoint gather_due (l : list Application) g : result error (Gathered Body) :=
  match l with [] => Ok g | a :: l' => let* w := gather_app g a in gather_due l' w end.

Lemma gather_apps_due node apps g : gather_apps node apps g = gather_due (due_apps node apps) g.
Proof.
  revert g. induction apps as [|o apps IH]; intros g; [done|]. destruct o as [| |a| | | | | | | | |]; simpl; try apply IH.
  unfold due_apps. csimpl. destruct (due node a); simpl; [|apply IH].
  destruct (gather_app g a); simpl; [apply IH|done].
Qed.

(** What has been collected from the applications [l]. *)
Record Gathers (l : list Application) g : Prop := {
  gs_bodies : Forall2 (λ a b, marshal (ObjApplication a) = Ok b) l (g_bodies g);
  gs_sig : g_sig g = l ≫= app_parts;
  gs_referenced x : x ∈ g_referenced g ↔ ∃ a, a ∈ l ∧ x ∈ app_refs a;
  gs_refs id x : x ∈ default [] (g_appRefs g !! id) ↔ ∃ a, a ∈ l ∧ app_id a = id ∧ x ∈ app_refs a;
  gs_auds id auds : g_appAudiences g !! id = Some auds →
    ∃ a, a ∈ l ∧ app_id a = id ∧ auds = TokenAudiences a;
  gs_auds_all a : a ∈ l → TokenAudiences a ≠ [] → is_Some (g_appAudiences g !! app_id a);
  gs_uids id u : g_appUIDs g !! id = Some u → ∃ a, a ∈ l ∧ app_id a = id ∧ u = app_UID a;
  gs_uids_all a : a ∈ l → OnHostNetwork a = false ∨ app_refs a ≠ [] ∨ TokenAudiences a ≠ [] →
    is_Some (g_appUIDs g !! app_id a);
  gs_routed id addr : g_routed g !! id = Some addr →
    ∃ a, a ∈ l ∧ app_id a = id ∧ OnHostNetwork a = false ∧ addr = st_Address (app_Status a);
  gs_routed_all a : a ∈ l → OnHostNetwork a = false → is_Some (g_routed g !! app_id a);
}.

Lemma gathers_nil : Gathers [] gathered0.
Proof.
  split; simpl; try done; try set_solver; intros; try (by rewrite lookup_empty in *); try (by set_solver).
  all: rewrite lookup_empty; simpl; set_solver.
Qed.

Lemma elem_snoc (l : list Application) a (P : Application → Prop) :
  (∃ b, b ∈ l ++ [a] ∧ P b) ↔ (∃ b, b ∈ l ∧ P b) ∨ P a.
Proof.
  split.
  - intros (b & [Hb|Hb%list_elem_of_singleton]%elem_of_app & HP); [left; by exists b|subst; by right].
  - intros [(b & Hb & HP)|HP]; [exists b|exists a]; (split; [|done]); apply elem_of_app; [by left|right].
    by apply list_elem_of_singleton.
Qed.

(** A map that [l] filled, extended by one more application at its id or left alone. *)
Lemma snoc_lookup {V} (m : gmap string V) (cond : bool) id v k x (l : list Application) a (P : Application → V → Prop) :
  (∀ k x, m !! k = Some x → ∃ b, b ∈ l ∧ app_id b = k ∧ P b x) →
  (cond = true → id = app_id a ∧ P a v) →
  (if cond then <[id := v]> m else m) !! k = Some x → ∃ b, b ∈ l ++ [a] ∧ app_id b = k ∧ P b x.
Proof.
  intros Hm Hc. destruct cond.
  - destruct (Hc eq_refl) as [-> HP]. intros [[<- <-]|[_ H]]%lookup_insert_Some.
    + exists a. set_solver.
    + apply Hm in H as (b & ? & ? & ?). exists b. set_solver.
  - intros H%Hm. destruct H as (b & ? & ? & ?). exists b. set_solver.
Qed.

Lemma snoc_some {V} (m : gmap string V) (cond : bool) v (Q : Application → Prop) (l : list Application) a b :
  (∀ b, b ∈ l → Q b → is_Some (m !! app_id b)) → (Q a → cond = true) →
  b ∈ l ++ [a] → Q b → is_Some ((if cond then <[app_id a := v]> m else m) !! app_id b).
Proof.
  intros Hm Hc Hb HQb. destruct cond.
  - rewrite lookup_insert_is_Some. destruct (decide (app_id a = app_id b)) as [|Hne]; [by left|]. right.
    split; [done|]. apply elem_of_app in Hb as [Hb|Hb%list_elem_of_singleton]; [by apply Hm|congruence].
  - apply elem_of_app in Hb as [Hb|Hb%list_elem_of_singleton]; [by apply Hm|]. subst. by apply Hc in HQb.
Qed.

(** The turn's case distinctions, as conditional insertions. *)
Lemma gather_app_shape g a b :
  marshal (ObjApplication a) = Ok b →
  gather_app g a = Ok (mkGathered (g_bodies g ++ [b]) (g_sig g ++ app_parts a) (g_referenced g ∪ list_to_set (app_refs a))
    (if bool_decide (app_refs a ≠ []) then <[app_id a := default [] (g_appRefs g !! app_id a) ++ app_refs a]> (g_appRefs g) else g_appRefs g)
    (if bool_decide (TokenAudiences a ≠ []) then <[app_id a := TokenAudiences a]> (g_appAudiences g) else g_appAudiences g)
    (if bool_decide (OnHostNetwork a = false ∨ app_refs a ≠ [] ∨ TokenAudiences a ≠ []) then <[app_id a := app_UID a]> (g_appUIDs g) else g_appUIDs g)
    (if bool_decide (OnHostNetwork a = false) then <[app_id a := st_Address (app_Status a)]> (g_routed g) else g_routed g)).
Proof.
  intros Hb. unfold gather_app. rewrite Hb. cbn [negb].
  destruct (OnHostNetwork a), (app_refs a), (TokenAudiences a); simpl; repeat case_bool_decide; try done;
    exfalso; naive_solver.
Qed.

Lemma gathers_snoc l g a g' : Gathers l g → gather_app g a = Ok g' → Gathers (l ++ [a]) g'.
Proof.
  intros H Hg. destruct (marshal (ObjApplication a)) as [b|e] eqn:Hb; [|by (unfold gather_app in Hg; rewrite Hb in Hg)].
  rewrite (gather_app_shape _ _ _ Hb) in Hg. injection Hg as <-.
  destruct H as [H1 H2 H3 H4 H5 H6 H7 H8 H9 H10]. split; simpl.
  - apply Forall2_app; [done|]. by constructor.
  - rewrite bind_app, H2. simpl. by rewrite app_nil_r.
  - intros x. rewrite elem_of_union, elem_of_list_to_set, H3. symmetry. apply (elem_snoc l a (λ b, x ∈ app_refs b)).
  - intros id x. transitivity (x ∈ default [] (g_appRefs g !! id) ∨ id = app_id a ∧ x ∈ app_refs a).
    + case_bool_decide as E.
      * destruct (decide (app_id a = id)) as [<-|Hne]; [rewrite lookup_insert_eq|rewrite lookup_insert_ne by done]; simpl; rewrite ?elem_of_app; naive_solver.
      * rewrite E. split; [by left|]. by intros [?|[_ ?%elem_of_nil]].
    + rewrite H4. rewrite (elem_snoc l a (λ b, app_id b = id ∧ x ∈ app_refs b)). naive_solver.
  - intros id auds. apply (snoc_lookup _ _ _ _ _ _ _ _ (λ a x, x = TokenAudiences a)); [done|by case_bool_decide].
  - intros c. apply (snoc_some _ _ _ (λ a, TokenAudiences a ≠ [])); [done|]. intros. by apply bool_decide_eq_true.
  - intros id u. apply (snoc_lookup _ _ _ _ _ _ _ _ (λ a x, x = app_UID a)); [done|by case_bool_decide].
  - intros c. apply (snoc_some _ _ _ (λ a, OnHostNetwork a = false ∨ app_refs a ≠ [] ∨ TokenAudiences a ≠ [])); [done|].
    intros. by apply bool_decide_eq_true.
  - intros id addr. apply (snoc_lookup _ _ _ _ _ _ _ _ (λ a x, OnHostNetwork a = false ∧ x = st_Address (app_Status a))).
    + intros k x Hk. apply H9 in Hk as (b' & ? & ? & ? & ?). eauto.
    + by case_bool_decide.
  - intros c. apply (snoc_some _ _ _ (λ a, OnHostNetwork a = false)); [done|]. intros. by apply bool_decide_eq_true.
Qed.

Lemma gather_due_spec l0 l g g' : Gathers l0 g → gather_due l g = Ok g' → Gathers (l0 ++ l) g'.
Proof.
  revert l0 g. induction l as [|a l IH]; intros l0 g H; simpl.
  - intros [= <-]. by rewrite app_nil_r.
  - destruct (gather_app g a) as [g1|] eqn:E; [|done]. intros Hg.
    rewrite (assoc (++) l0 [a] l). apply (IH _ g1); [|done]. by eapply gathers_snoc.
Qed.

Lemma gather_apps_spec node apps g : gather_apps node apps gathered0 = Ok g → Gathers (due_apps node apps) g.
Proof. rewrite gather_apps_due. apply (gather_due_spec [] _ _ _ gathers_nil). Qed.
End Gather.

(** ** Volumes, secrets and stores *)
Section Objects.
Context {HQ : Quantity} {HN : Netip} {Body : Type} {HW : Wire Body}.

(** The objects of a kind that a predicate picks. *)
Definition picked {A} (f : Object → option A) (p : A → bool) (l : list Object) : list A :=
  omap (λ o, match f o with Some a => if p a then Some a else None | None => None end) l.

Definition as_pv (o : Object) : option PersistentVolume := match o with ObjPersistentVolume pv => Some pv | _ => None end.
Definition as_secret (o : Object) : option Secret := match o with ObjSecret sec => Some sec | _ => None end.

Lemma picked_elem {A} (f : Object → option A) p l a :
  a ∈ picked f p l ↔ ∃ o, o ∈ l ∧ f o = Some a ∧ p a = true.
Proof.
  unfold picked. rewrite list_elem_of_omap. split; intros (o & Ho & H); exists o.
  - destruct (f o) as [x|]; [|done]. destruct (p x) eqn:E; [|done]. by injection H as ->.
  - destruct H as [-> ->]. done.
Qed.

Definition pv_list (pvs : list Object) : list PersistentVolume := picked as_pv (λ _, true) pvs.
Definition sec_list (refd : gset string) (secrets : list Object) : list Secret :=
  picked as_secret (λ sec, bool_decide (sec_id sec ∈ refd)) secrets.

Lemma pv_list_elem pvs pv : pv ∈ pv_list pvs ↔ ObjPersistentVolume pv ∈ pvs.
Proof.
  unfold pv_list. rewrite picked_elem. split.
  - intros (o & Ho & E & _). destruct o; try discriminate E. by injection E as ->.
  - intros H. by eexists.
Qed.
Lemma sec_list_elem refd secrets sec : sec ∈ sec_list refd secrets ↔ ObjSecret sec ∈ secrets ∧ sec_id sec ∈ refd.
Proof.
  unfold sec_list. rewrite picked_elem. setoid_rewrite bool_decide_eq_true. split.
  - intros (o & Ho & E & H). destruct o; try discriminate E. by injection E as ->.
  - intros [H Hr]. by eexists.
Qed.

Lemma Forall2_Ok_elem {A B E} (f : A → result E B) l bs b :
  Forall2 (λ a b, f a = Ok b) l bs → b ∈ bs ↔ ∃ a, a ∈ l ∧ f a = Ok b.
Proof.
  intros H. split.
  - intros (i & Hi)%list_elem_of_lookup. destruct (Forall2_lookup_r _ _ _ _ _ H Hi) as (a & Ha & E1).
    exists a. split; [by eapply list_elem_of_lookup_2|done].
  - intros (a & (i & Hi)%list_elem_of_lookup & E1). destruct (Forall2_lookup_l _ _ _ _ _ H Hi) as (b' & Hb & E2).
    rewrite E1 in E2. simplify_eq. by eapply list_elem_of_lookup_2.
Qed.

Lemma gather_pvs_spec node pvs bs sig :
  gather_pvs node pvs = Ok (bs, sig) →
  Forall2 (λ pv b, marshal (ObjPersistentVolume (pv_out node pv).1) = Ok b) (pv_list pvs) bs ∧
  sig = pv_part node <$> pv_list pvs.
Proof.
  revert bs sig. induction pvs as [|o pvs IH]; intros bs sig; cbn [gather_pvs].
  { intros [= <- <-]. by split; [constructor|]. }
  destruct o as [| | | |pv| | | | | | |]; try apply IH.
  destruct (marshal _) as [b|] eqn:Hb; [|done]. destruct (gather_pvs node pvs) as [[bs' sig']|]; [|done].
  intros [= <- <-]. destruct (IH _ _ eq_refl) as [H1 ->]. split; [by constructor|done].
Qed.

(** The loop over the secrets keeps the referenced ones, and learns the stores they name. *)
Lemma gather_secrets_spec refd secrets st0 via0 bs sig st via :
  gather_secrets refd secrets st0 via0 = Ok (bs, sig, st, via) →
  Forall2 (λ sec b, marshal (ObjSecret sec) = Ok b) (sec_list refd secrets) bs ∧
  sig = sec_part <$> sec_list refd secrets ∧
  st = list_to_set (omap store_of (sec_list refd secrets)) ∪ st0 ∧
  via = foldl (λ m sec, match store_of sec with Some s => <[sec_id sec := s]> m | None => m end) via0 (sec_list refd secrets).
Proof.
  revert st0 via0 bs sig. induction secrets as [|o secrets IH]; intros st0 via0 bs sig; cbn [gather_secrets].
  { intros [= <- <- <- <-]. split_and!; [constructor|done|set_solver|done]. }
  destruct o as [| | | | |sec| | | | | |]; try apply IH. unfold sec_list, picked. cbn -[gather_secrets store_of sec_id sec_part].
  case_bool_decide as Hr; cbn -[gather_secrets store_of sec_id sec_part]; [|apply IH].
  destruct (marshal _) as [b|] eqn:Hb; [|done]. destruct (store_of sec) as [s0|] eqn:Hs;
    (destruct (gather_secrets refd secrets _ _) as [[[[bs' sig'] st'] via']|] eqn:E; [|done]);
    intros [= <- <- <- <-]; apply IH in E as (H1 & -> & -> & ->);
    (split_and!; [by constructor|done| |done]); rewrite ?list_to_set_cons; set_solver.
Qed.

Definition store_list (wanted : gset string) (stores : list SecretStore) : list SecretStore :=
  List.filter (λ st, bool_decide (ss_id st ∈ wanted)) stores.
Definition by_token (st : SecretStore) : bool :=
  bool_decide (ssa_Method (sss_Auth (ss_Spec st)) = AuthMethodKubernetes).

Lemma gather_stores_spec wanted stores ts0 bs sig ts :
  gather_stores wanted stores ts0 = Ok (bs, sig, ts) →
  Forall2 (λ st b, marshal_store st = Ok b) (store_list wanted stores) bs ∧
  sig = store_part <$> store_list wanted stores ∧
  ts = list_to_set (ss_id <$> List.filter by_token (store_list wanted stores)) ∪ ts0.
Proof.
  revert ts0 bs sig. induction stores as [|st stores IH]; intros ts0 bs sig; cbn [gather_stores].
  { intros [= <- <- <-]. split_and!; [constructor|done|set_solver]. }
  unfold store_list. cbn [List.filter]. case_bool_decide as Hw; cbn [negb]; [|apply IH].
  destruct (marshal_store st) as [b|] eqn:Hb; [|done].
  destruct (gather_stores wanted stores _) as [[[bs' sig'] ts']|] eqn:E; [|done].
  intros [= <- <- <-]. apply IH in E as (H1 & -> & ->). split_and!; [by constructor|done|].
  cbn [List.filter]. unfold by_token at 2. case_bool_decide; [|done]. rewrite fmap_cons, list_to_set_cons. set_solver.
Qed.
End Objects.

(** ** Addresses *)
Lemma string_app_cancel_r (a b c : string) : a +:+ c = b +:+ c → a = b.
Proof.
  assert (∀ x y : string, String.length (x +:+ y) = (String.length x + String.length y)%nat) as Hlen.
  { induction x as [|? x IH]; intros y; simpl; [done|]. by rewrite IH. }
  revert b. induction a as [|x a IH]; intros [|y b] E; [done| | |].
  - apply (f_equal String.length) in E.
    change (String.length c = S (String.length (b +:+ c))) in E. rewrite Hlen in E. lia.
  - apply (f_equal String.length) in E.
    change (S (String.length (a +:+ c)) = String.length c) in E. rewrite Hlen in E. lia.
  - change (String x (a +:+ c) = String y (b +:+ c)) in E. injection E as -> E. f_equal. by apply IH.
Qed.

Section Hosts.
Context {HN : Netip} {HL : NetipLaws}.

(** The [n]-th host of a range. *)
Definition host_at (p : Prefix) (n : Z) : string := host_of (BitLen (pf_Addr p)) (with_num (pf_Addr p) n).

Lemma with_num_twice a n m : with_num (with_num a n) m = with_num a m.
Proof. by destruct a. Qed.

Lemma host_at_inj p n m :
  0 ≤ n < 2 ^ BitLen (pf_Addr p) → 0 ≤ m < 2 ^ BitLen (pf_Addr p) → host_at p n = host_at p m → n = m.
Proof.
  intros Hn Hm. unfold host_at, host_of, prefix_String, PrefixFrom. cbn [pf_Addr pf_Bits].
  rewrite !with_num_num, !with_num_twice. intros E%string_app_cancel_r.
  apply (f_equal ParseAddr) in E. rewrite !ParseAddr_String in E by (by apply with_num_ok).
  injection E as E. by apply with_num_inj in E.
Qed.

(** One turn of the search. *)
Definition host_body (p : Prefix) (taken : gset string) (n : Z) : option (option string) :=
  if negb ((0 <=? n) && (n <? 2 ^ BitLen (pf_Addr p))) then Some None
  else if negb (Contains p (with_num (pf_Addr p) n)) then Some None
  else if negb (bool_decide (host_at p n ∈ taken)) then Some (Some (host_at p n))
  else None.

Lemma hosts_walk fuel p taken n :
  0 ≤ n →
  scan_hosts fuel p taken (if n <? 2 ^ BitLen (pf_Addr p) then Some (with_num (pf_Addr p) n) else None) =
  default None (walk fuel (host_body p taken) n).
Proof.
  revert n. induction fuel as [|fuel IH]; intros n Hn; simpl; [done|].
  unfold host_body at 1. rewrite (proj2 (Z.leb_le 0 n) Hn).
  destruct (n <? 2 ^ BitLen (pf_Addr p)) eqn:E; simpl; [|done].
  destruct (Contains p (with_num _ n)); simpl; [|done]. unfold host_at at 1 2.
  destruct (bool_decide (host_of _ _ ∈ taken)); simpl; [|done]. rewrite <-IH, Next_with_num by lia. done.
Qed.

Lemma host_body_None p taken n :
  host_body p taken n = None → 0 ≤ n < 2 ^ BitLen (pf_Addr p) ∧ host_at p n ∈ taken.
Proof.
  unfold host_body. destruct (0 <=? n) eqn:E0; simpl; [|done]. destruct (n <? _) eqn:E1; simpl; [|done].
  destruct (Contains _ _); simpl; [|done]. case_bool_decide; simpl; [|done]. bools. done.
Qed.

Lemma hosts_fuel p taken n : is_Some (walk (S (size taken)) (host_body p taken) n).
Proof.
  destruct (walk _ _ n) eqn:E; [done|]. rewrite <-E.
  apply (walk_finds _ _ _ taken (host_at p)); [|intros j k Hj Hk|lia].
  - intros k Hk. by apply host_body_None in Hk as [_ ?].
  - pose proof (walk_None _ _ _ E j Hj) as [? _]%host_body_None.
    pose proof (walk_None _ _ _ E k Hk) as [? _]%host_body_None. by apply host_at_inj.
Qed.

(** The hosts of a range: its addresses after the first. *)
Definition host_in (p : Prefix) (n : Z) : Prop :=
  addr_num (pf_Addr p) < n < 2 ^ BitLen (pf_Addr p) ∧ Contains p (with_num (pf_Addr p) n) = true.

(** The search returns the lowest free host, and gives up only when there is none. *)
Lemma scan_hosts_spec p taken :
  prefix_ok p →
  match scan_hosts (S (size taken)) (Masked p) taken (Next (pf_Addr (Masked p))) with
  | Some host => ∃ n, host_in (Masked p) n ∧ host = host_at (Masked p) n ∧ host ∉ taken ∧
      ∀ m, addr_num (pf_Addr (Masked p)) < m < n → host_at (Masked p) m ∈ taken
  | None => ∀ n, host_in (Masked p) n → host_at (Masked p) n ∈ taken
  end.
Proof.
  intros Hp. pose proof (masked_ok p Hp) as (Hok & _). set (q := Masked p) in *. set (b := addr_num (pf_Addr q)) in *.
  assert (Next (pf_Addr q) = if b + 1 <? 2 ^ BitLen (pf_Addr q) then Some (with_num (pf_Addr q) (b + 1)) else None) as Hnext.
  { transitivity (Next (with_num (pf_Addr q) b)); [|apply Next_with_num]. f_equal. symmetry. apply (masked_addr p). }
  unfold addr_ok in Hok. fold b in Hok. rewrite Hnext, hosts_walk by lia.
  destruct (hosts_fuel q taken (b + 1)) as [r Hr]. rewrite Hr. cbn [default].
  apply walk_Some in Hr as (j & Hj & Hbody & Hbefore).
  assert (∀ m, b < m < j → host_at q m ∈ taken) as Hused.
  { intros m Hm. by apply (host_body_None q taken m), Hbefore; lia. }
  unfold host_body in Hbody. destruct r as [host|]; unfold id.
  - exists j. destruct (0 <=? j); cbn [negb andb] in Hbody; [|done]. destruct (j <? _) eqn:E1; cbn [negb andb] in Hbody; [|done].
    destruct (Contains _ _) eqn:Ec; cbn [negb andb] in Hbody; [|done]. case_bool_decide; cbn [negb andb] in Hbody; [done|].
    injection Hbody as <-. apply Z.ltb_lt in E1. split_and!; try done. split; [fold b; lia|done].
  - intros n ((Hn1 & Hn2) & Hc). fold b in Hn1. destruct (decide (n < j)) as [Hlt|Hge]; [by apply Hused|]. exfalso.
    rewrite (proj2 (Z.leb_le 0 j)), (proj2 (Z.ltb_lt j _)) in Hbody by lia. cbn [negb andb] in Hbody.
    assert (Contains q (with_num (pf_Addr q) j) = true) as Hcj by (apply (contains_below p n j Hp Hc); fold q b; lia).
    rewrite Hcj in Hbody. cbn [negb] in Hbody. by case_bool_decide.
Qed.
End Hosts.

(** No two workloads are promised one address. *)
Definition choices_apart (choice : gmap string string) : Prop :=
  ∀ i j a, choice !! i = Some a → choice !! j = Some a → i = j.

Section Networks.
Context {HN : Netip} {HL : NetipLaws}.

(** Why a workload is sent an address. *)
Definition address_for (inUse : gset string) (reported : string) (choice choice' : gmap string string) (id addr : string) : Prop :=
  if bool_decide (reported = "")
  then choice' !! id = Some addr ∧ (choice !! id = Some addr ∨ addr ∉ inUse ∧ ∀ j, choice !! j ≠ Some addr)
  else addr = reported.

Lemma workloadAddress_spec cidr id reported inUse choice choice' r :
  workloadAddress cidr id reported inUse choice = (choice', r) →
  choice ⊆ choice' ∧ (choices_apart choice → choices_apart choice') ∧ (∀ i, i ≠ id → choice' !! i = choice !! i) ∧
  (∀ addr, r = Ok addr → address_for inUse reported choice choice' id addr).
Proof.
  unfold workloadAddress, address_for. case_bool_decide as Hr; cbn [negb].
  2: { intros [= <- <-]. split_and!; try done. by intros addr [= ->]. }
  destruct (ParsePrefix cidr) as [p|e] eqn:Ep; [|by intros [= <- <-]].
  destruct (choice !! id) as [a|] eqn:Ec.
  { intros [= <- <-]. split_and!; try done. intros addr [= <-]. rewrite Ec. by split; [|left]. }
  apply ParsePrefix_ok in Ep. pose proof (scan_hosts_spec p (taken_addresses inUse choice) Ep) as Hs.
  destruct (scan_hosts _ _ _ _) as [host|]; intros [= <- <-]; [|done].
  destruct Hs as (n & _ & _ & Hfree & _). unfold taken_addresses in Hfree.
  rewrite elem_of_union, map_img_elem in Hfree. split_and!.
  - by apply insert_subseteq.
  - intros Hc i j a. rewrite !lookup_insert_Some. intros [[<- <-]|[Hi Hia]] [[<- ?]|[Hj Hja]]; try done; simplify_eq;
      try (exfalso; apply Hfree; right; by eexists). by eapply Hc.
  - intros i Hi. by rewrite lookup_insert_ne.
  - intros addr [= <-]. rewrite lookup_insert_eq. split; [done|right]. split; [tauto|].
    intros j Hj. apply Hfree. right. by exists j.
Qed.

Lemma assign_networks_spec cidr inUse uids routed ids choice choice' nets :
  assign_networks cidr inUse uids routed ids choice = (choice', nets) → choices_apart choice → NoDup ids →
  choice ⊆ choice' ∧ choices_apart choice' ∧ NoDup nets.*1 ∧
  ∀ id n, (id, n) ∈ nets → id ∈ ids ∧ wn_Workload n = default "" (uids !! id) ∧ wn_Gateway n = RoutedGateway ∧
    address_for inUse (default "" (routed !! id)) choice choice' id (wn_Address n).
Proof.
  revert choice choice' nets. induction ids as [|id ids IH]; intros choice choice' nets; simpl.
  { intros [= <- <-] Hc _. split_and!; [done..| |by intros ? ? ?%elem_of_nil]. constructor. }
  destruct (workloadAddress _ _ _ _ _) as [c1 r] eqn:E1. destruct (assign_networks _ _ _ _ _ _) as [c2 rest] eqn:E2.
  intros E Hc [Hid Hnd]%NoDup_cons. apply workloadAddress_spec in E1 as (Hs1 & Ha1 & Hk1 & Hr1).
  destruct (IH _ _ _ E2 (Ha1 Hc) Hnd) as (Hs2 & Ha2 & Hnd2 & Hn2).
  assert (choice' = c2) as -> by (destruct r; congruence). split_and!.
  - by etrans.
  - done.
  - destruct r; simplify_eq; [|done]. simpl. apply NoDup_cons. split; [|done].
    intros ([i n] & -> & Hin)%list_elem_of_fmap. by apply Hn2 in Hin as (? & _).
  - assert (∀ i n, (i, n) ∈ rest → i ∈ id :: ids ∧ wn_Workload n = default "" (uids !! i) ∧ wn_Gateway n = RoutedGateway ∧
      address_for inUse (default "" (routed !! i)) choice c2 i (wn_Address n)) as Hrest.
    { intros i n Hin. apply Hn2 in Hin as (Hi & ? & ? & Haddr). split_and!; try done; [by right|].
      unfold address_for in *. case_bool_decide; [|done]. destruct Haddr as [Hx [Hy|[Hy Hz]]]; (split; [done|]).
      - left. rewrite <-Hy. symmetry. apply Hk1. by intros ->.
      - right. split; [done|]. intros j Hj. apply (Hz j). by eapply lookup_weaken. }
    destruct r as [addr|]; simplify_eq; [|done]. intros i n [E|Hin]%elem_of_cons; [|by apply Hrest]. simplify_eq.
    split_and!; try done; [by left|]. specialize (Hr1 _ eq_refl). unfold address_for in *. case_bool_decide; [|done].
    destruct Hr1 as [Hx Hy]. split; [|done]. by eapply lookup_weaken.
Qed.
End Networks.

(** ** Tokens *)
Section Tokens.
Context {HQ : Quantity} {HN : Netip} {Body : Type} {HW : Wire Body}.

(** Where a token comes from: the cache while it has more than the margin left, or the
    minter, asked for this workload at this audience. *)
Definition token_from (sur : Surroundings) (cache : gmap tokenKey mintedToken) (key : tokenKey) (uid token : string) : Prop :=
  (∃ exp, cache !! key = Some (mkMinted token exp) ∧ tokenRefreshMargin < time_Sub exp (sur_now sur key)) ∨
  ∃ exp, sur_mint sur key uid = Ok (token, exp).

Lemma workloadToken_spec sur key uid cache cache' r :
  workloadToken sur key uid cache = (cache', r) →
  (∀ k, k ≠ key → cache' !! k = cache !! k) ∧
  match r with
  | Ok token => token_from sur cache key uid token ∧ ∃ exp, cache' !! key = Some (mkMinted token exp)
  | Err e => sur_mint sur key uid = Err e
  end.
Proof.
  unfold workloadToken, token_from. intros E.
  destruct (cache !! key) as [t|] eqn:Ek.
  - destruct (_ <? _) eqn:Em in E.
    + injection E as <- <-. split; [done|]. destruct t as [tok exp]. apply Z.ltb_lt in Em. split; [left|]; by exists exp.
    + destruct (sur_mint sur key uid) as [[tok exp]|e] eqn:Ex; injection E as <- <-; [|done].
      split; [intros; by rewrite lookup_insert_ne|]. rewrite lookup_insert_eq. split; [right|]; by exists exp.
  - destruct (sur_mint sur key uid) as [[tok exp]|e] eqn:Ex; injection E as <- <-; [|done].
    split; [intros; by rewrite lookup_insert_ne|]. rewrite lookup_insert_eq. split; [right|]; by exists exp.
Qed.

Lemma mint_tokens_spec sur uids keys cache cache' toks :
  mint_tokens sur uids keys cache = (cache', toks) → NoDup keys →
  (∀ id t, (id, t) ∈ toks → (id, wt_Audience t) ∈ keys ∧ wt_Workload t = default "" (uids !! id) ∧
     token_from sur cache (id, wt_Audience t) (wt_Workload t) (wt_Token t)) ∧
  (∀ key, key ∈ keys → (∃ e, sur_mint sur key (default "" (uids !! key.1)) = Err e) ∨
     ∃ t, (key.1, t) ∈ toks ∧ wt_Audience t = key.2) ∧
  (∀ k, k ∉ keys → cache' !! k = cache !! k).
Proof.
  revert cache cache' toks. induction keys as [|key keys IH]; intros cache cache' toks; simpl.
  { intros [= <- <-] _. split_and!; [by intros ? ? ?%elem_of_nil|by intros ? ?%elem_of_nil|done]. }
  destruct (workloadToken _ _ _ _) as [c1 r] eqn:E1. destruct (mint_tokens _ _ _ _) as [c2 rest] eqn:E2.
  intros E [Hk Hnd]%NoDup_cons. apply workloadToken_spec in E1 as [H1 Hr].
  destruct (IH _ _ _ E2 Hnd) as (H2 & H3 & H4).
  assert (cache' = c2) as -> by (destruct r; congruence).
  assert (∀ id t, (id, t) ∈ rest → (id, wt_Audience t) ∈ key :: keys ∧ wt_Workload t = default "" (uids !! id) ∧
     token_from sur cache (id, wt_Audience t) (wt_Workload t) (wt_Token t)) as Hrest.
  { intros id t (Hin & Hu & Hf)%H2. split_and!; [by right|done|]. destruct Hf as [(exp & Hc & Hm)|Hf]; [left|by right].
    exists exp. split; [|done]. rewrite <-Hc. symmetry. apply H1. by intros <-. }
  split_and!.
  - destruct r as [tok|]; simplify_eq; [|done]. intros id t [E|Hin]%elem_of_cons; [|by apply Hrest].
    simplify_eq. destruct key as [id aud]. simpl. split_and!; [by left|done|by destruct Hr].
  - intros k [->|Hin]%elem_of_cons.
    + destruct r as [tok|e]; simplify_eq; [right|left; by exists e]. eexists. split; [by left|done].
    + destruct (H3 k Hin) as [?|(t & Ht & ?)]; [by left|right]. exists t. split; [|done]. destruct r; simplify_eq; [by right|done].
  - intros k [Hne Hni]%not_elem_of_cons. rewrite H4 by done. by apply H1.
Qed.

Lemma token_keys_elem wanted id aud :
  (id, aud) ∈ token_keys wanted ↔ aud ∈ default ∅ (wanted !! id).
Proof.
  unfold token_keys. rewrite list_elem_of_bind. split.
  - intros (i & (a & E & Ha)%list_elem_of_fmap & Hi). injection E as <- <-. by rewrite sort_stable_perm, elem_of_elements in Ha.
  - intros Ha. exists id. rewrite sorted_keys_elem. split; [|by destruct (wanted !! id)].
    apply list_elem_of_fmap. exists aud. by rewrite sort_stable_perm, elem_of_elements.
Qed.

Lemma token_keys_NoDup wanted : NoDup (token_keys wanted).
Proof.
  unfold token_keys. generalize (sorted_keys_NoDup wanted). generalize (sorted_keys wanted). intros l.
  induction l as [|id l IH]; intros Hnd; [constructor|]. apply NoDup_cons in Hnd as [Hid Hnd]. csimpl.
  apply NoDup_app. split_and!; [| |by apply IH].
  - apply NoDup_fmap_2; [by intros ? ? [= ->]|]. rewrite sort_stable_perm. apply NoDup_elements.
  - intros [i a] (a' & E & _)%list_elem_of_fmap (j & (a2 & E2 & _)%list_elem_of_fmap & Hj)%list_elem_of_bind. by simplify_eq.
Qed.

Lemma wanted_tokens_elem (g : Gathered Body) via ts id aud :
  aud ∈ default ∅ (wanted_tokens g via ts !! id) ↔
  aud = TokenAudienceVault ∧ vault_owed via ts (default [] (g_appRefs g !! id)) = true ∨
  aud ∈ default [] (g_appAudiences g !! id).
Proof.
  unfold wanted_tokens. rewrite lookup_union_with, lookup_omap, lookup_fmap.
  destruct (g_appRefs g !! id) as [refs|], (g_appAudiences g !! id) as [auds|]; simpl;
    try (destruct (vault_owed via ts refs) eqn:E); simpl; rewrite ?elem_of_union, ?elem_of_singleton, ?elem_of_list_to_set;
    set_solver.
Qed.

Lemma vault_owed_spec via ts refs :
  vault_owed via ts refs = true ↔ ∃ ref st, ref ∈ refs ∧ via !! ref = Some st ∧ st ∈ ts.
Proof.
  unfold vault_owed. rewrite existsb_elem. split.
  - intros (ref & Hr & H). destruct (via !! ref) as [st|] eqn:E; [|done]. bools. by exists ref, st.
  - intros (ref & st & Hr & E & H). exists ref. rewrite E. bools. done.
Qed.
End Tokens.

(** ** Reading signatures back *)
Definition nul_free (s : string) : bool := no_char (ascii_of_nat 0) s.
Definition lf_free (s : string) : bool := no_char (ascii_of_nat 10) s.

(** The kind of a part. *)
Definition part_kind (part : string) : string :=
  match cut (ascii_of_nat 0) part with Some (k, _) => k | None => "" end.

Lemma cut_sigPart kind ns name uid gen :
  nul_free kind = true →
  cut (ascii_of_nat 0) (sigPart kind ns name uid gen) =
  Some (kind, WorkloadID ns name +:+ NUL +:+ uid +:+ NUL +:+ itoa gen).
Proof. intros H. exact (cut_app _ kind _ H). Qed.

Lemma part_kind_sigPart kind ns name uid gen : nul_free kind = true → part_kind (sigPart kind ns name uid gen) = kind.
Proof. intros H. unfold part_kind. by rewrite cut_sigPart. Qed.

(** The fields of a part, read from the left. *)
Lemma sigPart_inj kind ns1 name1 uid1 gen1 ns2 name2 uid2 gen2 :
  nul_free kind = true → nul_free (WorkloadID ns1 name1) = true → nul_free (WorkloadID ns2 name2) = true →
  nul_free uid1 = true → nul_free uid2 = true →
  sigPart kind ns1 name1 uid1 gen1 = sigPart kind ns2 name2 uid2 gen2 →
  WorkloadID ns1 name1 = WorkloadID ns2 name2 ∧ uid1 = uid2 ∧ gen1 = gen2.
Proof.
  intros Hk H1 H2 Hu1 Hu2 E. apply (f_equal (cut (ascii_of_nat 0))) in E. rewrite !cut_sigPart in E by done. injection E as E.
  apply (f_equal (cut (ascii_of_nat 0))) in E.
  change (cut (ascii_of_nat 0) (WorkloadID ns1 name1 +:+ String (ascii_of_nat 0) (uid1 +:+ NUL +:+ itoa gen1)) =
          cut (ascii_of_nat 0) (WorkloadID ns2 name2 +:+ String (ascii_of_nat 0) (uid2 +:+ NUL +:+ itoa gen2))) in E.
  rewrite !cut_app in E by done. injection E as E1 E.
  apply (f_equal (cut (ascii_of_nat 0))) in E.
  change (cut (ascii_of_nat 0) (uid1 +:+ String (ascii_of_nat 0) (itoa gen1)) =
          cut (ascii_of_nat 0) (uid2 +:+ String (ascii_of_nat 0) (itoa gen2))) in E.
  rewrite !cut_app in E by done. injection E as E2 E. split_and!; try done. by apply pretty_Z_inj.
Qed.

(** The hashed bytes determine the parts. *)
Lemma part_bytes_inj l1 l2 :
  Forall (λ p, lf_free p = true) l1 → Forall (λ p, lf_free p = true) l2 → part_bytes l1 = part_bytes l2 → l1 = l2.
Proof.
  intros H1. revert l2. induction H1 as [|p l1 Hp _ IH]; intros l2 H2.
  - destruct l2 as [|q l2]; [done|]. cbn [part_bytes foldr]. intros E. apply (f_equal (cut (ascii_of_nat 10))) in E.
    apply Forall_cons in H2 as [Hq _].
    change (None = cut (ascii_of_nat 10) (q +:+ String (ascii_of_nat 10) (part_bytes l2))) in E. by rewrite cut_app in E.
  - destruct H2 as [|q l2 Hq H2].
    + intros E. apply (f_equal (cut (ascii_of_nat 10))) in E.
      change (cut (ascii_of_nat 10) (p +:+ String (ascii_of_nat 10) (part_bytes l1)) = None) in E. by rewrite cut_app in E.
    + intros E. apply (f_equal (cut (ascii_of_nat 10))) in E.
      change (cut (ascii_of_nat 10) (p +:+ String (ascii_of_nat 10) (part_bytes l1)) =
              cut (ascii_of_nat 10) (q +:+ String (ascii_of_nat 10) (part_bytes l2))) in E.
      rewrite !cut_app in E by done. injection E as -> E. f_equal. by apply IH.
Qed.

(** A digest in hexadecimal is not empty. *)
Class WireLaws {HQ : Quantity} {Body : Type} (HW : Wire Body) : Prop := {
  sha256_nonempty s : sha256_hex s ≠ "";
}.

(** Two different texts of one digest. *)
Definition collision {HQ : Quantity} {Body : Type} {HW : Wire Body} (x y : string) : Prop :=
  x ≠ y ∧ sha256_hex x = sha256_hex y.

(** The text a signature is the digest of. *)
Definition signed (parts : list string) : string := part_bytes (sort_stable String.ltb parts).

Lemma desiredSignature_perm {HQ : Quantity} {Body : Type} {HW : Wire Body} parts1 parts2 :
  Forall (λ p, lf_free p = true) parts1 → Forall (λ p, lf_free p = true) parts2 →
  desiredSignature parts1 = desiredSignature parts2 → collision (signed parts1) (signed parts2) ∨ parts1 ≡ₚ parts2.
Proof.
  intros H1 H2 E. destruct (decide (signed parts1 = signed parts2)) as [Es|Hne]; [right|by left].
  apply part_bytes_inj in Es; [|by rewrite sort_stable_perm..].
  by rewrite <-(sort_stable_perm String.ltb parts1), Es, sort_stable_perm.
Qed.
