(* ===== verification/DesiredTheorems.v ===== *)
(** * What a node is told

    Least exposure: a node is sent its own applications and nothing it has no use for.
    Addresses are never promised twice; tokens go to whom they are owed; a push is skipped
    only when what the node runs is what it was already told. *)
From stdpp Require Import gmap strings list pretty.
From Stdlib Require Import ZArith Ascii.
From S2P Require Import Prelude Resources CoreV1 ApiObjects Admission Guards Services ServicesTheorems DesiredState DesiredFacts.
Import GoStrings.
#[local] Open Scope Z_scope.

Section Desired.
Context {HQ : Quantity} {HN : Netip} {Body : Type} {HW : Wire Body}.
Implicit Types (sur : Surroundings) (node : string) (srv : Server).

(** A successful build, step by step. *)
Lemma build_inv sur node srv srv' ds parts :
  build sur node srv = (srv', Ok (ds, parts)) →
  ∃ apps pvs g vols sbs ssig refs via tbs tsig ts choice nets cache toks routes rules,
    sur_list sur "Application" = Ok apps ∧ sur_list sur "PersistentVolume" = Ok pvs ∧
    Gathers (due_apps node apps) g ∧ gather_pvs node pvs = Ok vols ∧
    (if bool_decide (g_referenced g = ∅) then Ok ([], [], ∅, ∅)
     else let* secrets := sur_list sur "Secret" in gather_secrets (g_referenced g) secrets ∅ ∅) = Ok (sbs, ssig, refs, via) ∧
    (if bool_decide (refs = ∅) then Ok ([], [], ∅)
     else let* stores := sur_stores sur in gather_stores refs stores ∅) = Ok (tbs, tsig, ts) ∧
    (if bool_decide (srv_routedCIDR srv = "") then (srv_addrChoice srv, [])
     else assign_networks (srv_routedCIDR srv) (reported_addresses apps) (g_appUIDs g) (g_routed g)
            (sorted_keys (g_routed g)) (srv_addrChoice srv)) = (choice, nets) ∧
    (if negb (srv_tokens srv) then (srv_tokenCache srv, [])
     else mint_tokens sur (g_appUIDs g) (token_keys (wanted_tokens g via ts)) (srv_tokenCache srv)) = (cache, toks) ∧
    fleetNetwork (sur_list sur) apps = Ok (routes, rules) ∧
    srv' = set_cache cache (set_choice choice srv) ∧
    ds = mkDesired (g_bodies g) vols.1 sbs tbs nets.*2 toks.*2 routes rules ∧
    parts = g_sig g ++ vols.2 ++ ssig ++ tsig ++ (network_part <$> nets) ++ (token_part <$> toks) ++
            (route_part <$> routes) ++ (rules ≫= rule_parts).
Proof.
  unfold build. destruct (sur_list sur "Application") as [apps|] eqn:Ea; [|done].
  destruct (sur_list sur "PersistentVolume") as [pvs|] eqn:Ev; [|done].
  destruct (gather_apps node apps gathered0) as [g|] eqn:Eg; [|done].
  destruct (gather_pvs node pvs) as [vols|] eqn:Ep; [|done].
  destruct (if bool_decide (g_referenced g = ∅) then _ else _) as [[[[sbs ssig] refs] via]|] eqn:Es; [|done].
  destruct (if bool_decide (refs = ∅) then _ else _) as [[[tbs tsig] ts]|] eqn:Et; [|done].
  destruct (if bool_decide (srv_routedCIDR srv = "") then _ else _) as [choice nets] eqn:En.
  destruct (if negb (srv_tokens srv) then _ else _) as [cache toks] eqn:Ek.
  destruct (fleetNetwork _ _) as [[routes rules]|] eqn:Ef; [|done]. intros [= <- <- <-].
  apply gather_apps_spec in Eg. do 17 eexists. split_and!; first [eassumption|reflexivity].
Qed.

(** The secret [id] is one that an application due on the node refers to. *)
Definition used_here (node : string) (apps : list Object) (id : string) : Prop :=
  ∃ a, ObjApplication a ∈ apps ∧ due node a = true ∧ id ∈ app_refs a.
(** [sec] is sent to the node. *)
Definition sent_secret sur node (apps : list Object) (sec : Secret) : Prop :=
  ∃ secrets, sur_list sur "Secret" = Ok secrets ∧ ObjSecret sec ∈ secrets ∧ used_here node apps (sec_id sec).
(** [st] is named by a vault secret that is sent. *)
Definition sent_store sur node (apps : list Object) (st : SecretStore) : Prop :=
  ∃ stores sec, sur_stores sur = Ok stores ∧ st ∈ stores ∧ sent_secret sur node apps sec ∧ store_of sec = Some (ss_id st).

Lemma referenced_used node apps (g : Gathered Body) id :
  Gathers (due_apps node apps) g → id ∈ g_referenced g ↔ used_here node apps id.
Proof.
  intros Hg. rewrite (gs_referenced _ _ Hg). unfold used_here. split; intros (a & H).
  - destruct H as [[? ?]%due_apps_elem ?]. by exists a.
  - exists a. rewrite due_apps_elem. tauto.
Qed.

(** The secrets' step: exactly the referenced secrets, and the stores and routes they give. *)
Lemma secrets_step sur node apps (g : Gathered Body) sbs ssig refs via :
  Gathers (due_apps node apps) g →
  (if bool_decide (g_referenced g = ∅) then Ok ([], [], ∅, ∅)
   else let* secrets := sur_list sur "Secret" in gather_secrets (g_referenced g) secrets ∅ ∅) = Ok (sbs, ssig, refs, via) →
  ∃ l, (∀ sec, sec ∈ l → sent_secret sur node apps sec) ∧
    (∀ sec, sent_secret sur node apps sec → sec ∈ l) ∧
    Forall2 (λ sec b, marshal (ObjSecret sec) = Ok b) l sbs ∧ ssig = sec_part <$> l ∧
    refs = list_to_set (omap store_of l) ∧
    via = foldl (λ m sec, match store_of sec with Some s => <[sec_id sec := s]> m | None => m end) ∅ l.
Proof.
  intros Hg. case_bool_decide as E0.
  - intros [= <- <- <- <-]. exists []. split_and!; try done; [by intros ? ?%elem_of_nil|].
    intros sec (secrets & _ & _ & Hu%(referenced_used _ _ _ _ Hg)). rewrite E0 in Hu. by apply elem_of_empty in Hu.
  - destruct (sur_list sur "Secret") as [secrets|] eqn:Es; [|done]. intros (H1 & -> & -> & ->)%gather_secrets_spec.
    exists (sec_list (g_referenced g) secrets). split_and!; try done; [| |by rewrite (right_id_L ∅ (∪))].
    + intros sec [H Hr]%sec_list_elem. exists secrets. by rewrite <-(referenced_used _ _ _ _ Hg).
    + intros sec (secrets' & E & H & Hr). rewrite Es in E. injection E as <-. apply sec_list_elem.
      by rewrite (referenced_used _ _ _ _ Hg).
Qed.

(** What is known of a map built by conditional insertions. *)
Lemma via_lookup l m i s :
  foldl (λ (m : gmap string string) sec, match store_of sec with Some s => <[sec_id sec := s]> m | None => m end) m l !! i = Some s →
  m !! i = Some s ∨ ∃ sec, sec ∈ l ∧ sec_id sec = i ∧ store_of sec = Some s.
Proof.
  revert m. induction l as [|sec l IH]; intros m; simpl; [by left|]. intros [H|(sec' & ? & ?)]%IH.
  - destruct (store_of sec) as [s'|] eqn:E; [|by left]. apply lookup_insert_Some in H as [[<- <-]|[_ H]]; [|by left].
    right. exists sec. split; [by left|done].
  - right. exists sec'. split; [by right|done].
Qed.

Lemma stores_step sur node apps (l : list Secret) refs tbs tsig ts :
  (∀ sec, sec ∈ l ↔ sent_secret sur node apps sec) → refs = list_to_set (omap store_of l) →
  (if bool_decide (refs = ∅) then Ok ([], [], ∅)
   else let* stores := sur_stores sur in gather_stores refs stores ∅) = Ok (tbs, tsig, ts) →
  ∃ k, (∀ st, st ∈ k ↔ sent_store sur node apps st) ∧
    Forall2 (λ st b, marshal_store st = Ok b) k tbs ∧ tsig = store_part <$> k ∧
    ∀ s, s ∈ ts → ∃ st, st ∈ k ∧ ss_id st = s ∧ by_token st = true.
Proof.
  intros Hl ->.
  assert (∀ s, s ∈ (list_to_set (omap store_of l) : gset string) ↔ ∃ sec, sent_secret sur node apps sec ∧ store_of sec = Some s) as Hrefs.
  { intros s. rewrite elem_of_list_to_set, list_elem_of_omap. by setoid_rewrite Hl. }
  case_bool_decide as E0.
  - intros [= <- <- <-]. exists []. split_and!; try done. intros st. split; [by intros ?%elem_of_nil|].
    intros (stores & sec & _ & _ & Hs & E). exfalso. assert (ss_id st ∈ (∅ : gset string)) as H; [|by apply elem_of_empty in H].
    rewrite <-E0. apply Hrefs. by exists sec.
  - destruct (sur_stores sur) as [stores|] eqn:Es; [|done]. intros (H1 & -> & ->)%gather_stores_spec.
    exists (store_list (list_to_set (omap store_of l)) stores). split_and!; try done.
    + intros st. unfold store_list. rewrite filter_elem, bool_decide_eq_true, Hrefs. unfold sent_store. split.
      * intros [H (sec & Hs & E)]. by exists stores, sec.
      * intros (stores' & sec & E & H & Hs & E2). rewrite Es in E. injection E as <-. split; [done|]. by exists sec.
    + intros s [(st & -> & [Hst Hb]%filter_elem)%elem_of_list_to_set%list_elem_of_fmap|H%elem_of_empty]%elem_of_union; [|done].
      by exists st.
Qed.

(** C21: least exposure: a node is sent exactly the applications pinned to it (a finished job
    only while it is being deleted), in full its own volumes and of every other one the
    identity alone, exactly the secrets those applications refer to, and exactly the secret
    stores those secrets name. *)
Theorem least_exposure sur node srv srv' ds sig apps pvs b :
  desiredState sur node srv = (srv', Ok (ds, sig)) →
  sur_list sur "Application" = Ok apps → sur_list sur "PersistentVolume" = Ok pvs →
  (b ∈ ds_Applications ds ↔
     ∃ a, ObjApplication a ∈ apps ∧ app_NodeName a = node ∧ (Finished a = true → Deleting a = true) ∧
       marshal (ObjApplication a) = Ok b) ∧
  (b ∈ ds_PersistentVolumes ds ↔
     ∃ pv, ObjPersistentVolume pv ∈ pvs ∧
       marshal (ObjPersistentVolume (if bool_decide (pvs_Node (pv_Spec pv) = node) then pv else stub pv)) = Ok b) ∧
  (b ∈ ds_Secrets ds ↔ ∃ sec, sent_secret sur node apps sec ∧ marshal (ObjSecret sec) = Ok b) ∧
  (b ∈ ds_SecretStores ds ↔ ∃ st, sent_store sur node apps st ∧ marshal_store st = Ok b).
Proof.
  unfold desiredState. destruct (build sur node srv) as [s r] eqn:E. destruct r as [[d parts]|]; [|done]. intros [= -> -> _] Ha Hp.
  apply build_inv in E as (apps' & pvs' & g & vols & sbs & ssig & refs & via & tbs & tsig & ts & choice & nets & cache &
    toks & routes & rules & E1 & E2 & Hg & Hv & Hs & Ht & _ & _ & _ & _ & -> & _). rewrite Ha in E1. rewrite Hp in E2. injection E1 as <-. injection E2 as <-. cbn.
  destruct vols as [vbs vsig]. apply gather_pvs_spec in Hv as [Hv _].
  destruct (secrets_step _ _ _ _ _ _ _ _ Hg Hs) as (l & Hl1 & Hl2 & Hb & _ & Hrefs & _).
  destruct (stores_step sur node apps l refs tbs tsig ts) as (k & Hk & Hkb & _); [intros sec; split; auto|done..|].
  split_and!.
  - rewrite (Forall2_Ok_elem (λ a, marshal (ObjApplication a)) _ _ _ (gs_bodies _ _ Hg)). setoid_rewrite due_apps_elem.
    setoid_rewrite due_spec. split; intros (a & H); exists a; tauto.
  - cbn. rewrite (Forall2_Ok_elem (λ pv, marshal (ObjPersistentVolume (pv_out node pv).1)) _ _ _ Hv). setoid_rewrite pv_list_elem.
    unfold pv_out. split; intros (pv & H1 & H2); exists pv; (split; [done|]); by destruct (bool_decide (pvs_Node (pv_Spec pv) = node)).
  - rewrite (Forall2_Ok_elem (λ sec, marshal (ObjSecret sec)) _ _ _ Hb). split; intros (sec & H1 & H2); exists sec; auto.
  - rewrite (Forall2_Ok_elem marshal_store _ _ _ Hkb). by setoid_rewrite Hk.
Qed.

(** Workload ids tell the listed applications apart (they do: no name contains the separator). *)
Definition distinct_ids (apps : list Object) : Prop :=
  ∀ a b, ObjApplication a ∈ apps → ObjApplication b ∈ apps → app_id a = app_id b → a = b.

Lemma distinct_due node apps a b :
  distinct_ids apps → a ∈ due_apps node apps → b ∈ due_apps node apps → app_id a = app_id b → a = b.
Proof. intros Hd [? _]%due_apps_elem [? _]%due_apps_elem. by apply Hd. Qed.

(** The uid a token or an address is addressed to. *)
Lemma uid_of node apps (g : Gathered Body) a :
  Gathers (due_apps node apps) g → distinct_ids apps → a ∈ due_apps node apps →
  OnHostNetwork a = false ∨ app_refs a ≠ [] ∨ TokenAudiences a ≠ [] → default "" (g_appUIDs g !! app_id a) = app_UID a.
Proof.
  intros Hg Hd Ha Hu. destruct (gs_uids_all _ _ Hg a Ha Hu) as [u E]. rewrite E.
  apply (gs_uids _ _ Hg) in E as (b & Hb & Eid & ->). simpl. f_equal. by eapply distinct_due.
Qed.

(** The application is owed a token at the audience: it mounts one, or it refers to a vault
    secret whose store logs in with workload tokens. *)
Definition owed sur node (apps : list Object) (a : Application) (aud : string) : Prop :=
  aud ∈ TokenAudiences a ∨
  aud = TokenAudienceVault ∧ ∃ sec st, sent_secret sur node apps sec ∧ sec_id sec ∈ app_refs a ∧
    sent_store sur node apps st ∧ store_of sec = Some (ss_id st) ∧ by_token st = true.

Lemma wanted_owed sur node apps (g : Gathered Body) l via ts (k : list SecretStore) id aud :
  Gathers (due_apps node apps) g → distinct_ids apps → (∀ sec, sec ∈ l → sent_secret sur node apps sec) →
  via = foldl (λ m sec, match store_of sec with Some s => <[sec_id sec := s]> m | None => m end) ∅ l →
  (∀ st, st ∈ k ↔ sent_store sur node apps st) → (∀ s, s ∈ ts → ∃ st, st ∈ k ∧ ss_id st = s ∧ by_token st = true) →
  aud ∈ default ∅ (wanted_tokens g via ts !! id) →
  ∃ a, a ∈ due_apps node apps ∧ app_id a = id ∧ (app_refs a ≠ [] ∨ TokenAudiences a ≠ []) ∧ owed sur node apps a aud.
Proof.
  intros Hg Hd Hl -> Hk Hts [[-> (ref & s & Href & Hvia & Hs)%vault_owed_spec]|Haud]%wanted_tokens_elem.
  - apply (gs_refs _ _ Hg) in Href as (a & Ha & Hid & Href).
    apply via_lookup in Hvia as [Hvia|(sec & Hsec & <- & Est)]; [by rewrite lookup_empty in Hvia|].
    destruct (Hts s Hs) as (st & Hst%Hk & <- & Hb). exists a. split_and!; try done; [left; by intros E; rewrite E in Href; apply elem_of_nil in Href|].
    right. split; [done|]. exists sec, st. auto 10.
  - destruct (g_appAudiences g !! id) as [auds|] eqn:E; [|by apply elem_of_nil in Haud].
    apply (gs_auds _ _ Hg) in E as (a & Ha & Hid & ->). exists a. split_and!; try done; [|by left].
    right. intros E. simpl in Haud. by rewrite E, elem_of_nil in Haud.
Qed.

(** Identity tokens reach only whom they are owed to: each token sent is addressed to an
    application due on this node, at an audience that application mounts or (the vault
    audience) needs for a secret it refers to, and is the minter's token for exactly that
    workload and audience, cached only while it has more than the refresh margin left; every
    audience an application mounts is served unless the minter refuses it. *)
Theorem tokens_owed sur node srv srv' ds sig apps :
  desiredState sur node srv = (srv', Ok (ds, sig)) → sur_list sur "Application" = Ok apps → distinct_ids apps →
  (∀ t, t ∈ ds_WorkloadTokens ds →
     ∃ a, ObjApplication a ∈ apps ∧ due node a = true ∧ wt_Workload t = app_UID a ∧ owed sur node apps a (wt_Audience t) ∧
       token_from sur (srv_tokenCache srv) (app_id a, wt_Audience t) (app_UID a) (wt_Token t)) ∧
  (srv_tokens srv = true → ∀ a aud, ObjApplication a ∈ apps → due node a = true → aud ∈ TokenAudiences a →
     (∃ e, sur_mint sur (app_id a, aud) (app_UID a) = Err e) ∨
     ∃ t, t ∈ ds_WorkloadTokens ds ∧ wt_Workload t = app_UID a ∧ wt_Audience t = aud).
Proof.
  unfold desiredState. destruct (build sur node srv) as [s r] eqn:E. destruct r as [[d parts]|]; [|done]. intros [= -> -> _] Ha Hd.
  apply build_inv in E as (apps' & pvs' & g & vols & sbs & ssig & refs & via & tbs & tsig & ts & choice & nets & cache &
    toks & routes & rules & E1 & _ & Hg & _ & Hs & Ht & _ & Hm & _ & _ & -> & _). rewrite Ha in E1. injection E1 as <-. cbn.
  destruct (secrets_step _ _ _ _ _ _ _ _ Hg Hs) as (l & Hl1 & Hl2 & _ & _ & Hrefs & Hvia).
  destruct (stores_step sur node apps l refs tbs tsig ts) as (k & Hk & _ & _ & Hts); [intros sec; split; auto|done..|].
  destruct (srv_tokens srv); cbn [negb] in Hm; [|injection Hm as _ <-; by split; [intros t ?%elem_of_nil|]].
  apply mint_tokens_spec in Hm as (Hm1 & Hm2 & _); [|apply token_keys_NoDup]. split.
  - intros t ([id t'] & -> & Hin)%list_elem_of_fmap. apply Hm1 in Hin as (Hkey & Hu & Hf). cbn [snd].
    apply token_keys_elem in Hkey. destruct (wanted_owed _ _ _ _ _ _ _ _ _ _ Hg Hd Hl1 Hvia Hk Hts Hkey) as (a & Hdue & <- & Hne & Ho).
    rewrite (uid_of _ _ _ _ Hg Hd Hdue (or_intror Hne)) in Hu. rewrite Hu in Hf. apply due_apps_elem in Hdue as [? ?]. by exists a.
  - intros _ a aud Hin Hdue Haud. assert (a ∈ due_apps node apps) as Hda by by apply due_apps_elem.
    assert (TokenAudiences a ≠ []) as Hne by (intros E; by rewrite E, elem_of_nil in Haud).
    assert (default [] (g_appAudiences g !! app_id a) = TokenAudiences a) as Eauds.
    { destruct (gs_auds_all _ _ Hg a Hda Hne) as [auds E]. rewrite E. apply (gs_auds _ _ Hg) in E as (b & Hb & Eid & ->).
      simpl. f_equal. by eapply distinct_due. }
    assert ((app_id a, aud) ∈ token_keys (wanted_tokens g via ts)) as Hkey.
    { apply token_keys_elem, wanted_tokens_elem. right. by rewrite Eauds. }
    pose proof (uid_of _ _ _ _ Hg Hd Hda (or_intror (or_intror Hne))) as Hu.
    destruct (Hm2 _ Hkey) as [[e He]|(t & Hin' & Eaud)]; cbn [fst snd] in *.
    + left. exists e. by rewrite <-Hu.
    + right. exists t. split_and!; [|by apply Hm1 in Hin' as (_ & -> & _)|done]. apply list_elem_of_fmap. by exists (app_id a, t).
Qed.

(** ** Addresses *)
Context {HL : NetipLaws}.

(** The servers a process can reach: new, then any builds for any nodes. *)
Inductive ServerRun : Server → Prop :=
| run_new cidr toks : ServerRun (mkServer cidr ∅ toks ∅)
| run_build srv sur node srv' r : ServerRun srv → build sur node srv = (srv', r) → ServerRun srv'.

Lemma build_choice sur node srv srv' (r : result error (Desired Body * list string)) :
  build sur node srv = (srv', r) → choices_apart (srv_addrChoice srv) →
  srv_addrChoice srv ⊆ srv_addrChoice srv' ∧ choices_apart (srv_addrChoice srv').
Proof.
  unfold build. intros E Hc.
  destruct (let* apps := sur_list sur "Application" in _) as [[[[[apps g] vols] [[sbs ssig] via]] [[tbs tsig] ts]]|e] in E;
    [|by injection E as <- _].
  destruct (if bool_decide (srv_routedCIDR srv = "") then _ else _) as [choice nets] eqn:En in E.
  destruct (if negb (srv_tokens srv) then _ else _) as [cache toks] in E.
  assert (srv_addrChoice srv ⊆ choice ∧ choices_apart choice) as Hn.
  { destruct (bool_decide (srv_routedCIDR srv = "")) in En; [by injection En as <- _|]. apply assign_networks_spec in En as (? & ? & _); auto.
    apply sorted_keys_NoDup. }
  destruct (fleetNetwork _ _) as [[routes rules]|] in E; by injection E as <- _.
Qed.

Lemma run_choices_apart srv : ServerRun srv → choices_apart (srv_addrChoice srv).
Proof.
  induction 1 as [cidr toks|srv sur node srv' r _ IH E]; [|by eapply build_choice].
  intros i j a. cbn. by rewrite lookup_empty.
Qed.

Lemma reported_elem (apps : list Object) a :
  ObjApplication a ∈ apps → st_Address (app_Status a) ≠ "" → st_Address (app_Status a) ∈ reported_addresses apps.
Proof.
  intros Ha Hne. unfold reported_addresses. revert Ha. generalize (∅ : gset string).
  assert (∀ (l : list Object) (s : gset string) x, x ∈ s → x ∈ foldl (λ s o, match o with
    | ObjApplication app => if bool_decide (st_Address (app_Status app) = "") then s else {[st_Address (app_Status app)]} ∪ s
    | _ => s end) s l) as Hkeep.
  { induction l as [|o l IH]; intros s x Hx; simpl; [done|]. apply IH. destruct o; try done. case_bool_decide; set_solver. }
  induction apps as [|o apps IH]; intros s; [by intros ?%elem_of_nil|]. intros [<-|H]%elem_of_cons; simpl; [|by apply IH].
  apply Hkeep. rewrite bool_decide_eq_false_2 by done. set_solver.
Qed.

(** Over the whole life of a server, for any nodes it builds states for: a choice of
    address, once made, stands, and no two workloads are ever promised one address; a new
    choice is an address no workload of the fleet reports; a node is given addresses only for
    its own isolated workloads, a wired workload keeps the one it reports, and two workloads of
    one state share an address only if one of them reports it. *)
Theorem addresses_apart sur node srv srv' ds sig apps :
  ServerRun srv → desiredState sur node srv = (srv', Ok (ds, sig)) → sur_list sur "Application" = Ok apps → distinct_ids apps →
  srv_addrChoice srv ⊆ srv_addrChoice srv' ∧ choices_apart (srv_addrChoice srv') ∧
  (∀ n, n ∈ ds_WorkloadNetworks ds →
     ∃ a, ObjApplication a ∈ apps ∧ due node a = true ∧ OnHostNetwork a = false ∧ wn_Workload n = app_UID a ∧
       (st_Address (app_Status a) ≠ "" → wn_Address n = st_Address (app_Status a)) ∧
       (st_Address (app_Status a) = "" → srv_addrChoice srv' !! app_id a = Some (wn_Address n) ∧
          (srv_addrChoice srv !! app_id a = None →
             ∀ b, ObjApplication b ∈ apps → st_Address (app_Status b) ≠ "" → st_Address (app_Status b) ≠ wn_Address n))) ∧
  (∀ i j n m, ds_WorkloadNetworks ds !! i = Some n → ds_WorkloadNetworks ds !! j = Some m → i ≠ j →
     wn_Address n = wn_Address m →
     ∃ a, ObjApplication a ∈ apps ∧ due node a = true ∧ st_Address (app_Status a) = wn_Address n).
Proof.
  intros Hrun%run_choices_apart. unfold desiredState. destruct (build sur node srv) as [s r] eqn:E.
  destruct r as [[d parts]|]; [|done]. intros [= -> -> _] Ha Hd. pose proof (build_choice _ _ _ _ _ E Hrun) as [H1 H2].
  apply build_inv in E as (apps' & pvs' & g & vols & sbs & ssig & refs & via & tbs & tsig & ts & choice & nets & cache &
    toks & routes & rules & E1 & _ & Hg & _ & _ & _ & Hn & _ & _ & -> & -> & _). rewrite Ha in E1. injection E1 as <-. cbn in *.
  split_and!; [done..| |]; (destruct (bool_decide (srv_routedCIDR srv = "")) in Hn; [injection Hn as _ <-; by (intros n ?%elem_of_nil || intros [] ? ? ? ?)|]);
    apply assign_networks_spec in Hn as (_ & _ & Hnd & Hn); try done; try apply sorted_keys_NoDup.
  - intros n ([id n'] & -> & Hin)%list_elem_of_fmap. cbn [snd]. apply Hn in Hin as (Hid & Hu & _ & Haddr).
    apply sorted_keys_elem in Hid as [addr Hid]. rewrite Hid in Haddr. cbn [default] in Haddr.
    apply (gs_routed _ _ Hg) in Hid as (a & Hdue & <- & Hh & ->). rewrite (uid_of _ _ _ _ Hg Hd Hdue (or_introl Hh)) in Hu.
    apply due_apps_elem in Hdue as [Hin Hdue]. exists a. unfold address_for, id in Haddr. case_bool_decide as Es.
    + destruct Haddr as [Hc Hc2]. split_and!; try done. intros _. split; [done|]. intros Hnone b Hb Hne E.
      destruct Hc2 as [Hc2|[Hfree _]]; [by rewrite Hnone in Hc2|]. apply Hfree. rewrite <-E. by apply reported_elem.
    + split_and!; try done.
  - intros i j n m Hi Hj Hij E. apply list_lookup_fmap_Some in Hi as ([id n'] & -> & Hi), Hj as ([jd m'] & -> & Hj). cbn [snd] in *.
    assert (id ≠ jd) as Hne. { intros ->. apply Hij. eapply (NoDup_lookup nets.*1 i j jd Hnd);
      apply list_lookup_fmap_Some; by eexists (_, _). }
    apply list_elem_of_lookup_2, Hn in Hi as (Hid & _ & _ & Hx), Hj as (Hjd & _ & _ & Hy).
    apply sorted_keys_elem in Hid as [ai Hid], Hjd as [aj Hjd]. rewrite Hid in Hx. rewrite Hjd in Hy.
    apply (gs_routed _ _ Hg) in Hid as (a & [? ?]%due_apps_elem & <- & _ & ->), Hjd as (b & [? ?]%due_apps_elem & <- & _ & ->).
    unfold address_for, default, id in Hx, Hy.
    destruct (bool_decide (st_Address (app_Status a) = "")); [|exists a; by split_and!].
    destruct (bool_decide (st_Address (app_Status b) = "")); [|exists b; split_and!; first [done|congruence]].
    destruct Hx as [Hx _], Hy as [Hy _]. rewrite E in Hx. destruct Hne. by eapply H2.
Qed.
End Desired.
