(* ===== verification/DesiredPush.v ===== *)
(** * Deduplicated pushes

    A push whose signature is the last one sent is skipped.  What a node was last told and
    what it would be told now then agree on every application (identity, uid, generation and
    deletion mark), volume, secret and secret store, and on every other part of the signature,
    or SHA-256 has been made to collide; a node without a Node object is told nothing. *)
From stdpp Require Import gmap strings list.
From Stdlib Require Import ZArith Ascii.
From S2P Require Import Prelude Resources CoreV1 ApiObjects Admission Guards Services DesiredState DesiredFacts DesiredTheorems.
Import GoStrings.
#[local] Open Scope Z_scope.

Section Push.
Context {HQ : Quantity} {HN : Netip} {Body : Type} {HW : Wire Body}.
Implicit Types (sur : Surroundings) (node : string) (srv : Server).

Definition app_part (a : Application) : string :=
  sigPart "a" (app_Namespace a) (app_Name a) (app_UID a) (om_Generation (app_meta a)).
Definition deletion_part (a : Application) : string := sigPart "d" (app_Namespace a) (app_Name a) (app_UID a) 1.

(** Membership of a closed string in a closed list. *)
Ltac closed_elem := apply (bool_decide_unpack _); vm_compute; exact I.

(** [pv] is a listed volume. *)
Definition listed_volume sur (pv : PersistentVolume) : Prop :=
  ∃ pvs, sur_list sur "PersistentVolume" = Ok pvs ∧ ObjPersistentVolume pv ∈ pvs.

Lemma part_kind_pv node pv : part_kind (pv_part node pv) = (pv_out node pv).2.
Proof.
  unfold pv_part. cbv zeta. rewrite part_kind_sigPart; [done|]. unfold pv_out. by case_bool_decide.
Qed.

(** Where a part of the signature comes from. *)
Lemma parts_from sur node srv srv' (ds : Desired Body) parts apps x :
  build sur node srv = (srv', Ok (ds, parts)) → sur_list sur "Application" = Ok apps → x ∈ parts →
  (∃ a, a ∈ due_apps node apps ∧ (x = app_part a ∨ Deleting a = true ∧ x = deletion_part a)) ∨
  (∃ sec, sent_secret sur node apps sec ∧ x = sec_part sec) ∨
  (∃ st, sent_store sur node apps st ∧ x = store_part st) ∨
  (∃ pv, listed_volume sur pv ∧ x = pv_part node pv) ∨
  part_kind x ∈ ["n"; "w"; "r"; "v"].
Proof.
  intros E Ha. apply build_inv in E as (apps' & pvs' & g & [vbs vsig] & sbs & ssig & refs & via & tbs & tsig & ts & choice & nets & cache &
    toks & routes & rules & E1 & E2 & Hg & Hv & Hs & Ht & _ & _ & _ & _ & _ & ->). rewrite Ha in E1. injection E1 as <-.
  apply gather_pvs_spec in Hv as [_ ->].
  destruct (secrets_step _ _ _ _ _ _ _ _ Hg Hs) as (l & Hl1 & Hl2 & _ & -> & Hrefs & _).
  destruct (stores_step sur node apps l refs tbs tsig ts) as (k & Hk & _ & -> & _); [intros sec; split; auto|done..|].
  rewrite !elem_of_app. intros [H|[H|[H|[H|[H|[H|[H|H]]]]]]].
  - left. rewrite (gs_sig _ _ Hg) in H. apply list_elem_of_bind in H as (a & H & Hd). exists a. split; [done|].
    unfold app_parts in H. apply elem_of_cons in H as [->|H]; [by left|right].
    destruct (Deleting a); [|by apply elem_of_nil in H]. by apply list_elem_of_singleton in H.
  - do 3 right. left. apply list_elem_of_fmap in H as (pv & -> & H). exists pv. split; [|done].
    exists pvs'. split; [done|]. by apply pv_list_elem.
  - right. left. apply list_elem_of_fmap in H as (sec & -> & H). eauto.
  - do 2 right. left. apply list_elem_of_fmap in H as (st & -> & H). exists st. by rewrite <-Hk.
  - do 4 right. apply list_elem_of_fmap in H as (y & -> & _). unfold network_part. rewrite part_kind_sigPart by done. closed_elem.
  - do 4 right. apply list_elem_of_fmap in H as (y & -> & _). unfold token_part. rewrite part_kind_sigPart by done. closed_elem.
  - do 4 right. apply list_elem_of_fmap in H as (y & -> & _). unfold route_part. rewrite part_kind_sigPart by done. closed_elem.
  - do 4 right. apply list_elem_of_bind in H as (y & (z & -> & _)%list_elem_of_fmap & _). rewrite part_kind_sigPart by done. closed_elem.
Qed.

(** And that nothing sent is left out of it. *)
Lemma parts_of sur node srv srv' (ds : Desired Body) parts apps :
  build sur node srv = (srv', Ok (ds, parts)) → sur_list sur "Application" = Ok apps →
  (∀ a, a ∈ due_apps node apps → app_part a ∈ parts ∧ (Deleting a = true → deletion_part a ∈ parts)) ∧
  (∀ sec, sent_secret sur node apps sec → sec_part sec ∈ parts) ∧
  (∀ st, sent_store sur node apps st → store_part st ∈ parts) ∧
  (∀ pv, listed_volume sur pv → pv_part node pv ∈ parts).
Proof.
  intros E Ha. apply build_inv in E as (apps' & pvs' & g & [vbs vsig] & sbs & ssig & refs & via & tbs & tsig & ts & choice & nets & cache &
    toks & routes & rules & E1 & E2 & Hg & Hv & Hs & Ht & _ & _ & _ & _ & _ & ->). rewrite Ha in E1. injection E1 as <-.
  destruct (secrets_step _ _ _ _ _ _ _ _ Hg Hs) as (l & Hl1 & Hl2 & _ & -> & Hrefs & _).
  destruct (stores_step sur node apps l refs tbs tsig ts) as (k & Hk & _ & -> & _); [intros sec; split; auto|done..|].
  split_and!.
  - assert (∀ a x, a ∈ due_apps node apps → x ∈ app_parts a → x ∈ g_sig g) as Hin.
    { intros a x Hd Hx. rewrite (gs_sig _ _ Hg). apply list_elem_of_bind. by exists a. }
    intros a Hd. split; [|intros Hdel]; apply elem_of_app; left; apply (Hin a _ Hd); unfold app_parts; [by left|].
    rewrite Hdel. right. by left.
  - intros sec Hsec. rewrite !elem_of_app. do 2 right. left. apply list_elem_of_fmap. exists sec. auto.
  - intros st Hst. rewrite !elem_of_app. do 3 right. left. apply list_elem_of_fmap. exists st. by rewrite Hk.
  - intros pv (pvs & E & Hpv). rewrite E2 in E. injection E as <-. apply gather_pvs_spec in Hv as [_ ->].
    rewrite !elem_of_app. right. left. apply list_elem_of_fmap. exists pv. split; [done|]. by apply pv_list_elem.
Qed.

(** Names, uids and ids of a listing free of the separator bytes (API names are). *)
Definition nul_free_meta (m : ObjectMeta) : Prop :=
  nul_free (WorkloadID (om_Namespace m) (om_Name m)) = true ∧ nul_free (om_UID m) = true.
Definition tidy sur : Prop :=
  (∀ kind objs o, sur_list sur kind = Ok objs → o ∈ objs → nul_free_meta (obj_meta o)) ∧
  (∀ stores st, sur_stores sur = Ok stores → st ∈ stores → nul_free_meta (ss_meta st)).

(** One object twice: the same name, the same uid, the same generation. *)
Definition same_version (m m' : ObjectMeta) : Prop :=
  WorkloadID (om_Namespace m) (om_Name m) = WorkloadID (om_Namespace m') (om_Name m') ∧
  om_UID m = om_UID m' ∧ om_Generation m = om_Generation m'.

(** One volume twice, as a node is told of it: in full where it is the node's own, else by name
    and uid. *)
Definition same_volume node (pv pv' : PersistentVolume) : Prop :=
  WorkloadID (om_Namespace (pv_meta pv)) (om_Name (pv_meta pv)) =
    WorkloadID (om_Namespace (pv_meta pv')) (om_Name (pv_meta pv')) ∧
  om_UID (pv_meta pv) = om_UID (pv_meta pv') ∧ (pvs_Node (pv_Spec pv) = node ↔ pvs_Node (pv_Spec pv') = node) ∧
  (pvs_Node (pv_Spec pv) = node → om_Generation (pv_meta pv) = om_Generation (pv_meta pv')).

(** [A node that knows (sur, apps)] and one that knows [(sur', apps')] are told the same. *)
Definition told_alike node sur (apps : list Object) sur' (apps' : list Object) : Prop :=
  (∀ a, ObjApplication a ∈ apps → due node a = true →
     ∃ a', ObjApplication a' ∈ apps' ∧ due node a' = true ∧ same_version (app_meta a) (app_meta a') ∧ Deleting a = Deleting a') ∧
  (∀ sec, sent_secret sur node apps sec →
     ∃ sec', sent_secret sur' node apps' sec' ∧ same_version (sec_meta sec) (sec_meta sec')) ∧
  (∀ st, sent_store sur node apps st →
     ∃ st', sent_store sur' node apps' st' ∧ same_version (ss_meta st) (ss_meta st')) ∧
  (∀ pv, listed_volume sur pv → ∃ pv', listed_volume sur' pv' ∧ same_volume node pv pv').

Lemma tidy_app sur apps a : tidy sur → sur_list sur "Application" = Ok apps → ObjApplication a ∈ apps → nul_free_meta (app_meta a).
Proof. intros [H _] E Ha. exact (H _ _ _ E Ha). Qed.
Lemma tidy_secret sur node apps sec : tidy sur → sent_secret sur node apps sec → nul_free_meta (sec_meta sec).
Proof. intros [H _] (secrets & E & Hs & _). exact (H _ _ _ E Hs). Qed.
Lemma tidy_store sur node apps st : tidy sur → sent_store sur node apps st → nul_free_meta (ss_meta st).
Proof. intros [_ H] (stores & sec & E & Hs & _). exact (H _ _ E Hs). Qed.

Lemma tidy_volume sur pv : tidy sur → listed_volume sur pv → nul_free_meta (pv_meta pv).
Proof. intros [H _] (pvs & E & Hpv). exact (H _ _ _ E Hpv). Qed.

(** Two parts of one kind are parts of one version. *)
Lemma part_version kind m m' g g' :
  nul_free kind = true → nul_free_meta m → nul_free_meta m' →
  sigPart kind (om_Namespace m) (om_Name m) (om_UID m) g = sigPart kind (om_Namespace m') (om_Name m') (om_UID m') g' →
  WorkloadID (om_Namespace m) (om_Name m) = WorkloadID (om_Namespace m') (om_Name m') ∧ om_UID m = om_UID m' ∧ g = g'.
Proof. intros Hk [? ?] [? ?]. by apply sigPart_inj. Qed.

Lemma pv_part_volume node pv pv' :
  nul_free_meta (pv_meta pv) → nul_free_meta (pv_meta pv') → pv_part node pv = pv_part node pv' → same_volume node pv pv'.
Proof.
  intros H H' E. pose proof (f_equal part_kind E) as Ek. rewrite !part_kind_pv in Ek. revert E Ek. unfold pv_part, pv_out.
  destruct (decide (pvs_Node (pv_Spec pv) = node)) as [Ho|Ho];
    destruct (decide (pvs_Node (pv_Spec pv') = node)) as [Ho'|Ho'];
    rewrite ?(bool_decide_eq_true_2 _ Ho), ?(bool_decide_eq_false_2 _ Ho), ?(bool_decide_eq_true_2 _ Ho'),
      ?(bool_decide_eq_false_2 _ Ho'); cbn [snd]; intros E Ek; try discriminate Ek; cbn in E;
    apply part_version in E as (E1 & E2 & E3); try done; by split_and!.
Qed.

Ltac other_kind E :=
  exfalso; apply (f_equal part_kind) in E;
  rewrite ?part_kind_pv in E; unfold app_part, deletion_part, sec_part, store_part in E;
  rewrite ?part_kind_sigPart in E by done; unfold pv_out in E; by repeat case_bool_decide.
Ltac no_kind H := exfalso; unfold app_part, deletion_part, sec_part, store_part in H;
  rewrite ?part_kind_pv in H; rewrite ?part_kind_sigPart in H by done;
  unfold pv_out in H; repeat case_bool_decide; cbn [snd] in H; apply (bool_decide_pack _) in H; vm_compute in H; exact H.

Lemma alike_half sur node srv srv' (ds : Desired Body) parts apps sur' srv1 srv1' (ds' : Desired Body) parts' apps' :
  build sur node srv = (srv', Ok (ds, parts)) → sur_list sur "Application" = Ok apps →
  build sur' node srv1 = (srv1', Ok (ds', parts')) → sur_list sur' "Application" = Ok apps' →
  tidy sur → tidy sur' → distinct_ids apps → distinct_ids apps' → parts ≡ₚ parts' → told_alike node sur apps sur' apps'.
Proof.
  intros E Ha E' Ha' Ht Ht' Hd Hd' Hp. destruct (parts_of _ _ _ _ _ _ _ E Ha) as (H1 & H2 & H3 & H4).
  destruct (parts_of _ _ _ _ _ _ _ E' Ha') as (H1' & _).
  assert (∀ x, x ∈ parts → _) as Hfrom by (intros x Hx; rewrite Hp in Hx; exact (parts_from _ _ _ _ _ _ _ x E' Ha' Hx)).
  assert (∀ a b, a ∈ due_apps node apps → b ∈ due_apps node apps' → app_id a = app_id b → Deleting b = true → Deleting a = true) as Hback.
  { intros a b Hda Hdb Eid Hdel. pose proof (proj2 (H1' b Hdb) Hdel) as Hx. rewrite <-Hp in Hx.
    destruct (parts_from _ _ _ _ _ _ _ _ E Ha Hx) as [(c & Hc & [Ec|[Hdc Ec]])|[(sec & _ & Ec)|[(st & _ & Ec)|[(pv & _ & Ec)|Ec]]]];
      [other_kind Ec| |other_kind Ec|other_kind Ec|other_kind Ec|no_kind Ec].
    assert (c = a) as <-; [|done]. apply due_apps_elem in Hdb as [Hdb _]. pose proof Hc as [Hc' _]%due_apps_elem.
    eapply distinct_due; [exact Hd|done..|]. rewrite Eid.
    apply part_version in Ec as (Ec & _ & _); [done|done|by apply (tidy_app sur' apps')|by apply (tidy_app sur apps)]. }
  split_and!.
  - intros a Hin Hdue. assert (a ∈ due_apps node apps) as Hda by by apply due_apps_elem.
    destruct (Hfrom _ (proj1 (H1 a Hda))) as [(b & Hb & [Eb|[_ Eb]])|[(sec & _ & Eb)|[(st & _ & Eb)|[(pv & _ & Eb)|Eb]]]];
      [|other_kind Eb|other_kind Eb|other_kind Eb|other_kind Eb|no_kind Eb].
    exists b. pose proof Hb as [Hb1 Hb2]%due_apps_elem.
    apply part_version in Eb as Ev; [|done|by apply (tidy_app sur apps)|by apply (tidy_app sur' apps')]. split_and!; try done.
    destruct (Deleting b) eqn:Edb; [exact (Hback a b Hda Hb (proj1 Ev) Edb)|]. destruct (Deleting a) eqn:Eda; [|done].
    pose proof (proj2 (H1 a Hda) Eda) as Hx.
    destruct (Hfrom _ Hx) as [(c & Hc & [Ec|[Hdc Ec]])|[(sec & _ & Ec)|[(st & _ & Ec)|[(pv & _ & Ec)|Ec]]]];
      [other_kind Ec| |other_kind Ec|other_kind Ec|other_kind Ec|no_kind Ec].
    pose proof Hc as [Hc' _]%due_apps_elem.
    apply part_version in Ec as (Ec & _ & _); [|done|by apply (tidy_app sur apps)|by apply (tidy_app sur' apps')].
    assert (b = c) as ->; [|by rewrite Edb in Hdc]. eapply distinct_due; [exact Hd'|done..|].
    unfold app_id, app_Namespace, app_Name. rewrite <-Ec. symmetry. apply Ev.
  - intros sec Hsec. destruct (Hfrom _ (H2 sec Hsec)) as [(b & _ & [Eb|[_ Eb]])|[(sec' & Hs' & Eb)|[(st & _ & Eb)|[(pv & _ & Eb)|Eb]]]];
      [other_kind Eb|other_kind Eb| |other_kind Eb|other_kind Eb|no_kind Eb].
    exists sec'. split; [done|]. apply part_version in Eb; [done|done|by apply (tidy_secret sur node apps)|by apply (tidy_secret sur' node apps')].
  - intros st Hst. destruct (Hfrom _ (H3 st Hst)) as [(b & _ & [Eb|[_ Eb]])|[(sec & _ & Eb)|[(st' & Hs' & Eb)|[(pv & _ & Eb)|Eb]]]];
      [other_kind Eb|other_kind Eb|other_kind Eb| |other_kind Eb|no_kind Eb].
    exists st'. split; [done|]. apply part_version in Eb; [done|done|by apply (tidy_store sur node apps)|by apply (tidy_store sur' node apps')].
  - intros pv Hpv. destruct (Hfrom _ (H4 pv Hpv)) as [(b & _ & [Eb|[_ Eb]])|[(sec & _ & Eb)|[(st & _ & Eb)|[(pv' & Hpv' & Eb)|Eb]]]];
      [other_kind Eb|other_kind Eb|other_kind Eb|other_kind Eb| |no_kind Eb].
    exists pv'. split; [done|]. apply pv_part_volume; [by apply (tidy_volume sur)|by apply (tidy_volume sur')|done].
Qed.


Context {HWL : WireLaws HW}.

(** ** The push loop *)
(** The signature kept is that of the last state sent, or none is kept. *)
Definition sig_of_last node (ps : PushState Body) : Prop :=
  ps_pushSig ps = "" ∨
  ∃ sur srv srv' ds, desiredState sur node srv = (srv', Ok (ds, ps_pushSig ps)) ∧ last (ps_sent ps) = Some ds.

Lemma push_sig node get sur open x x' more :
  push node get sur open x = (x', more) → sig_of_last node x.2 → sig_of_last node x'.2.
Proof.
  destruct x as [srv ps]. unfold push. destruct (nodeRegistered get) as [[]|]; [|by intros [= <- _]..].
  destruct (desiredState sur node srv) as [srv1 [[ds sig]|]] eqn:E; [|by intros [= <- _]].
  case_bool_decide; [by intros [= <- _]|]. destruct open; intros [= <- _]; [|done]. intros _. right.
  exists sur, srv, srv1, ds. cbn. by rewrite last_snoc.
Qed.

Lemma pushLoop_sig node ws x x' more :
  pushLoop node ws x = (x', more) → sig_of_last node x.2 → sig_of_last node x'.2.
Proof.
  revert x. induction ws as [|[[[w get] sur] open] ws IH]; intros x; cbn [pushLoop]; [by intros [= <- _]|].
  destruct (pushLoop_step node w get sur open x) as [x1 m] eqn:E. intros Hl Hx.
  assert (sig_of_last node x1.2) as H1.
  { destruct w as [|name| | |]; cbn [pushLoop_step] in E; try (by injection E as <- _); [by eapply push_sig| |eapply push_sig; [exact E|by left]].
    destruct (isNodeEvent name node); [by eapply push_sig|by injection E as <- _]. }
  destruct m; [by apply (IH x1)|by injection Hl as <- _].
Qed.

(** Whatever woke a session's push loop before, a push to a registered node whose state
    can be built leaves the node holding a state with the signature of the current one, sent
    now or before; while the node has no Node object nothing is sent to it, and a failed read
    or build sends nothing and ends nothing. *)
Theorem push_current node ws srv x sur srv' ds sig :
  pushLoop node ws (srv, pushed0) = (x, true) → desiredState sur node x.1 = (srv', Ok (ds, sig)) →
  (∃ x' sur0 srv0 srv1 (ds0 : Desired Body), push node Found sur true x = (x', true) ∧ ps_frozen x'.2 = false ∧
     desiredState sur0 node srv0 = (srv1, Ok (ds0, sig)) ∧ last (ps_sent x'.2) = Some ds0 ∧ ps_pushSig x'.2 = sig) ∧
  (∀ open, push node NotFoundAnswer sur open x =
     ((x.1, mkPushState (ps_sent x.2) (ps_pushSig x.2) true), true)) ∧
  (∀ open e, push node (GetFailed e) sur open x = (x, true)) ∧
  (∀ open sur' srv1 e, desiredState sur' node x.1 = (srv1, Err e) →
     ∃ x', push node Found sur' open x = (x', true) ∧ ps_sent x'.2 = ps_sent x.2 ∧ ps_pushSig x'.2 = ps_pushSig x.2).
Proof.
  intros Hl Hb. apply pushLoop_sig in Hl; [|by left]. destruct x as [srv0 ps]. cbn [fst snd] in *. split_and!; try done.
  - unfold push. cbn [nodeRegistered]. rewrite Hb. cbn. case_bool_decide as Es.
    + destruct Hl as [Hl|(sur0 & s0 & s1 & ds0 & H1 & H2)].
      * exfalso. rewrite Hl in Es. subst. unfold desiredState in Hb. destruct (build sur node srv0) as [s [[d p]|]]; [|done].
        injection Hb as _ _ Hb. by apply sha256_nonempty in Hb.
      * subst sig. eexists _, sur0, s0, s1, ds0. by split_and!.
    + eexists _, sur, srv0, srv', ds. split_and!; try done. cbn. by rewrite last_snoc.
  - intros open sur' srv1 e E. unfold push. cbn [nodeRegistered]. rewrite E. by eexists.
Qed.
End Push.

(** ** Two nodes and their states: witnesses of the node-server theorems

    A fleet of two nodes with an isolated workload on each, one of them with a vault secret and
    an identity token; and two consequences of keeping address choices in memory only. *)
From S2P Require Import AdmissionDemo ServicesTheorems.
Module NodeDemo.
Import ServicesDemo.
Import NanoQuantity GoStrings.
#[local] Open Scope Z_scope.

(** Objects are sent as they are; the digest is the text behind a mark. *)
#[export] Instance demo_Wire : Wire (Object + SecretStore) :=
  {| marshal o := Ok (inl o); marshal_store st := Ok (inr st); sha256_hex s := "#" +:+ s |}.
#[export] Instance demo_WireLaws : WireLaws demo_Wire.
Proof. by split. Qed.
Lemma demo_sha_inj x y : sha256_hex (Wire := demo_Wire) x = sha256_hex (Wire := demo_Wire) y → x = y.
Proof. intros E. by injection E. Qed.

Definition named (ns name uid : string) (ann : gmap string string) : ObjectMeta :=
  mkObjectMeta ns name uid "1" 1 ∅ ann 10 None [] [].

Definition secret_volume (name : string) : VolumeMount :=
  mkVolumeMount (mkVolumeSource VolumeTypeSecret name (unit_ 0) [] None None "") "/etc/secret" true "".
Definition token_volume : VolumeMount :=
  mkVolumeMount (mkVolumeSource VolumeTypeToken "" (unit_ 0) [] None None "") "/var/token" true "".

Definition isolated (node : string) (vols : list VolumeMount) : ApplicationSpec :=
  mkAppSpec "img" ["/bin/app"] [] [] [] (mkRequirements ra_zero ra_zero)
    (mkLifecycle RestartAlways None None None) (mkPlacement node ∅ None None) (Some false) "" "" None vols.

Definition workload (name uid node phase : string) (vols : list VolumeMount) : Application :=
  mkApplication (named "red" name uid ∅) (isolated node vols) (mkAppStatus 1 phase "" "" None 0 0).

Definition web (phase : string) : Application := workload "web" "u-web" "n1" phase [secret_volume "db"; token_volume].
Definition api : Application := workload "api" "u-api" "n2" "" [].
Definition db : Secret :=
  mkSecret (named "red" "db" "u-db" {[AnnExternalSecretStore := "vault"]}) None SecretTypeVault ∅ ∅.
Definition other : Secret := mkSecret (named "red" "other" "u-other" ∅) None "" ∅ ∅.
Definition vault : SecretStore :=
  mkSecretStore (named "red" "vault" "u-vault" ∅)
    (mkSecretStoreSpec "" "https://vault" "" 2 "" [] (mkSecretStoreAuth AuthMethodKubernetes "" "")).
Definition volume (name node : string) : PersistentVolume :=
  mkPV (named "red" name ("u-" +:+ name) ∅) (mkPVSpec (unit_ 10) node "" "" false).

Definition listing_of (apps : list Application) (kind : string) : result error (list Object) :=
  if bool_decide (kind = "Application") then Ok (ObjApplication <$> apps)
  else if bool_decide (kind = "PersistentVolume") then Ok [ObjPersistentVolume (volume "data" "n1"); ObjPersistentVolume (volume "far" "n2")]
  else if bool_decide (kind = "Secret") then Ok [ObjSecret db; ObjSecret other]
  else Ok [].

Definition fleet (apps : list Application) : Surroundings :=
  mkSurroundings (listing_of apps) (Ok [vault]) (λ _, 0) (λ key uid, Ok (key.2 +:+ "-" +:+ uid, 10 ^ 12)).

(** 10.0.0.0/29 in the notation of [ServicesDemo], with a token minter. *)
Definition fresh : Server := mkServer range ∅ true ∅.

Section Results.
Context {A : Type}.
Implicit Types (p : Server * result error (Desired (Object + SecretStore) * A)).
Definition sent (d : A) p : Desired (Object + SecretStore) * A :=
  match p.2 with Ok x => x | Err _ => (mkDesired [] [] [] [] [] [] [] [], d) end.
Lemma sent_ok (d : A) p : is_ok p.2 = true → p = (p.1, Ok ((sent d p).1, (sent d p).2)).
Proof. by destruct p as [? [[]|]]. Qed.
End Results.

Definition told (apps : list Application) (node : string) (srv : Server) := desiredState (fleet apps) node srv.
Definition networks (apps : list Application) (node : string) (srv : Server) : list WorkloadNetwork :=
  ds_WorkloadNetworks (sent "" (told apps node srv)).1.

Lemma least_exposure_witness :
  let ds := (sent "" (told [web ""; api] "n1" fresh)).1 in
  inl (ObjApplication (web "")) ∈ ds_Applications ds ∧ inl (ObjPersistentVolume (stub (volume "far" "n2"))) ∈ ds_PersistentVolumes ds.
Proof.
  intros ds.
  pose proof (λ b, least_exposure (fleet [web ""; api]) "n1" fresh _ _ _ (ObjApplication <$> [web ""; api])
    [ObjPersistentVolume (volume "data" "n1"); ObjPersistentVolume (volume "far" "n2")] b
    (sent_ok "" (told [web ""; api] "n1" fresh) ltac:(vm_compute; reflexivity)) eq_refl eq_refl) as H.
  split.
  - apply (proj1 (H _)). exists (web ""). split; [left|]. split; [reflexivity|]. split; [intros E; vm_compute in E; discriminate|reflexivity].
  - apply (proj1 (proj2 (H _))). exists (volume "far" "n2"). split; [right; left|reflexivity].
Defined.

Lemma demo_distinct phase : distinct_ids (ObjApplication <$> [web phase; api]).
Proof.
  intros a b Ha Hb. repeat (apply elem_of_cons in Ha as [Ha|Ha]); repeat (apply elem_of_cons in Hb as [Hb|Hb]);
    try (by apply elem_of_nil in Ha); try (by apply elem_of_nil in Hb); simplify_eq; done.
Defined.

Lemma tokens_owed_witness :
  let ds := (sent "" (told [web ""; api] "n1" fresh)).1 in
  ∃ t, t ∈ ds_WorkloadTokens ds ∧ wt_Workload t = "u-web" ∧ wt_Audience t = TokenAudienceAPI.
Proof.
  intros ds.
  destruct (proj2 (tokens_owed (fleet [web ""; api]) "n1" fresh _ _ _ (ObjApplication <$> [web ""; api])
    (sent_ok "" (told [web ""; api] "n1" fresh) ltac:(vm_compute; reflexivity)) eq_refl (demo_distinct ""))
    eq_refl (web "") TokenAudienceAPI) as [[e He]|H].
  - left.
  - reflexivity.
  - apply (bool_decide_unpack _). vm_compute. exact I.
  - discriminate He.
  - exact H.
Defined.

Lemma addresses_apart_witness :
  let p := told [web ""; api] "n1" fresh in
  srv_addrChoice fresh ⊆ srv_addrChoice p.1 ∧ choices_apart (srv_addrChoice p.1).
Proof.
  intros p.
  destruct (addresses_apart (fleet [web ""; api]) "n1" fresh _ _ _ (ObjApplication <$> [web ""; api]) (run_new range true)
    (sent_ok "" (told [web ""; api] "n1" fresh) ltac:(vm_compute; reflexivity)) eq_refl (demo_distinct "")) as (H1 & H2 & _).
  exact (conj H1 H2).
Defined.

Lemma demo_tidy phase : tidy (fleet [web phase; api]).
Proof.
  split.
  - intros kind objs o. cbn -[bool_decide]. unfold listing_of.
    repeat (case_bool_decide; [intros [= <-] Ho|]); [repeat (apply elem_of_cons in Ho as [->|Ho]; [by split; vm_compute|]); by apply elem_of_nil in Ho..|].
    intros [= <-] Ho. by apply elem_of_nil in Ho.
  - intros stores st [= <-] ->%list_elem_of_singleton. by split; vm_compute.
Defined.


Lemma goes_on {A} (p : A * bool) : p.2 = true → p = (p.1, true).
Proof. by destruct p as [? []]. Qed.

Definition first_wake : list (Wake * GetAnswer * Surroundings * bool) := [(WakeObject, Found, fleet [web ""; api], true)].
Definition first_push : (Server * PushState (Object + SecretStore)) * bool := pushLoop "n1" first_wake (fresh, pushed0).
Definition second : Server * result error (Desired (Object + SecretStore) * string) :=
  desiredState (fleet [web "Running"; api]) "n1" first_push.1.1.

Lemma first_push_ok : pushLoop "n1" first_wake (fresh, pushed0) = (first_push.1, true).
Proof. apply (goes_on first_push). vm_compute. reflexivity. Qed.
Lemma second_ok : desiredState (fleet [web "Running"; api]) "n1" first_push.1.1 = (second.1, Ok ((sent "" second).1, (sent "" second).2)).
Proof. apply (sent_ok "" second). vm_compute. reflexivity. Qed.

Lemma push_current_witness :
  ∃ x' sur0 srv0 srv1 ds0, push "n1" Found (fleet [web "Running"; api]) true first_push.1 = (x', true) ∧
    desiredState sur0 "n1" srv0 = (srv1, Ok (ds0, (sent "" second).2)) ∧ last (ps_sent x'.2) = Some ds0.
Proof.
  destruct (push_current "n1" first_wake fresh first_push.1 (fleet [web "Running"; api]) second.1 _ _ first_push_ok second_ok)
    as [(x' & sur0 & srv0 & srv1 & ds0 & H1 & _ & H2 & H3 & _) _].
  exists x', sur0, srv0, srv1, ds0. split; [exact H1|]. split; [exact H2|exact H3].
Defined.

(** The choice is told to the node at once and kept in memory only: a server that restarts
    before the node reports it gives the same address to another workload. *)
Theorem restart_reassigns_address :
  ∃ addr, networks [web ""; api] "n1" fresh = [mkWorkloadNetwork "u-web" addr RoutedGateway 0] ∧
    networks [web ""; api] "n2" fresh = [mkWorkloadNetwork "u-api" addr RoutedGateway 0].
Proof. eexists. split; vm_compute; reflexivity. Qed.

(** Choices are never given back: once seven workloads have come and gone, a range of seven
    hosts has no address for the next one, with no workload in the fleet wired at any. *)
Definition passing (name : string) : Application := workload name name "n1" "" [].
Definition worn : Server :=
  foldl (λ srv name, (told [passing name] "n1" srv).1) fresh ["a"; "b"; "c"; "d"; "e"; "f"; "g"].

Theorem deleted_workloads_hold_addresses :
  networks [passing "h"] "n1" worn = [] ∧ reported_addresses (ObjApplication <$> [passing "h"]) = ∅ ∧
  networks [passing "h"] "n1" fresh ≠ [].
Proof. split; [vm_compute; reflexivity|]. split; [reflexivity|vm_compute; discriminate]. Qed.
End NodeDemo.
