(* ===== verification/NodeMetrics.v ===== *)
(** * Measured consumption

    controller/nodeserver/metrics.go: the last two samples per workload and per node, the
    rates derived from them and what the exporter reads.  A [time.Time] is [None] for the zero
    time and the Unix nanoseconds otherwise; integers keep their int64 width, and a division
    by zero is the panic Go raises. *)
From stdpp Require Import gmap strings list.
From Stdlib Require Import ZArith Ascii.
From S2P Require Import Prelude.
Import GoStrings.
#[local] Open Scope Z_scope.

Definition metricsRetention : Z := 120 * 1000000000.

Record Sample := mkSample {
  sm_Namespace : string;
  sm_Name : string;
  sm_Node : string;
  sm_CPUUsec : Z;
  sm_CPUThrottledUsec : Z;
  sm_MemoryBytes : Z;
  sm_MemoryPeakBytes : Z;
  sm_PIDs : Z;
  sm_OOMKills : Z;
  sm_At : option Z;
  sm_Received : Z;
}.
Definition sample0 : Sample := mkSample "" "" "" 0 0 0 0 0 0 None 0.

Record Rate := mkRate { ra_MilliCores : Z; ra_MemoryBytes : Z; ra_Window : Z; ra_At : option Z }.
Record entry := mkEntry { en_prev : Sample; en_cur : Sample }.
Definition entry0 : entry := mkEntry sample0 sample0.

(** What [rate] does: no rate, a rate, or an integer division by zero. *)
Inductive RateResult := NoRate | ARate (r : Rate) | RatePanics.

(** [entry.rate]; a sample's time is never the zero time, an absent one's is. *)
Definition rate (e : entry) : RateResult :=
  match sm_At (en_prev e), sm_At (en_cur e) with
  | Some prev, Some cur =>
      if negb (prev <? cur) then NoRate
      else
        let window := time_Sub cur prev in
        let deltaCPU := wrap64 (sm_CPUUsec (en_cur e) - sm_CPUUsec (en_prev e)) in
        if deltaCPU <? 0 then NoRate
        else
          let usec := Z.quot window 1000 in
          if usec =? 0 then RatePanics
          else ARate (mkRate (Z.quot (wrap64 (deltaCPU * 1000)) usec) (sm_MemoryBytes (en_cur e)) window (Some cur))
  | _, _ => NoRate
  end.

Record metricsStore := mkMetrics { ms_by : gmap string entry; ms_nodes : gmap string entry }.
Definition newMetricsStore : metricsStore := mkMetrics ∅ ∅.

(** [advance]. *)
Definition advance (e : entry) (s : Sample) : entry :=
  match sm_At (en_cur e) with None => mkEntry (en_prev e) s | Some _ => mkEntry (en_cur e) s end.

(** The messages of api/node. *)
Record AppMetrics := mkAppMetrics {
  am_Namespace : string; am_Name : string;
  am_CpuUsec : Z; am_CpuThrottledUsec : Z; am_MemoryBytes : Z; am_MemoryPeakBytes : Z;
  am_Pids : Z; am_OomKills : Z; am_TimestampUnixNano : Z;
}.
Record NodeUsage := mkNodeUsage {
  nu_CpuUsec : Z; nu_MemoryUsedBytes : Z; nu_MemoryTotalBytes : Z; nu_TimestampUnixNano : Z;
}.

Definition metric_key (namespace name : string) : string := namespace +:+ "/" +:+ name.

(** [metricsStore.put], at the controller's clock [now]. *)
Definition metrics_put (now : Z) (node : string) (am : AppMetrics) (m : metricsStore) : metricsStore :=
  if bool_decide (am_Namespace am = "") || bool_decide (am_Name am = "") then m
  else
    let key := metric_key (am_Namespace am) (am_Name am) in
    mkMetrics
      (<[key := advance (default entry0 (ms_by m !! key))
           (mkSample (am_Namespace am) (am_Name am) node (am_CpuUsec am) (am_CpuThrottledUsec am)
              (am_MemoryBytes am) (am_MemoryPeakBytes am) (am_Pids am) (am_OomKills am)
              (Some (am_TimestampUnixNano am)) now)]> (ms_by m))
      (ms_nodes m).

(** [metricsStore.putNode]. *)
Definition metrics_putNode (now : Z) (node : string) (nu : NodeUsage) (m : metricsStore) : metricsStore :=
  if bool_decide (node = "") then m
  else mkMetrics (ms_by m)
    (<[node := advance (default entry0 (ms_nodes m !! node))
         (mkSample "" node node (nu_CpuUsec nu) 0 (nu_MemoryUsedBytes nu) (nu_MemoryTotalBytes nu) 0 0
            (Some (nu_TimestampUnixNano nu)) now)]> (ms_nodes m)).

Definition fresh_entry (now : Z) (e : entry) : bool :=
  negb (metricsRetention <? time_Sub now (sm_Received (en_cur e))).

(** [Metrics], [Rate] and [NodeRate]. *)
Definition metrics_Metrics (now : Z) (namespace name : string) (m : metricsStore) : option Sample :=
  match ms_by m !! metric_key namespace name with
  | Some e => if fresh_entry now e then Some (en_cur e) else None
  | None => None
  end.
Definition entry_rate (now : Z) (o : option entry) : RateResult :=
  match o with Some e => if fresh_entry now e then rate e else NoRate | None => NoRate end.
Definition metrics_Rate (now : Z) (namespace name : string) (m : metricsStore) : RateResult :=
  entry_rate now (ms_by m !! metric_key namespace name).
Definition metrics_NodeRate (now : Z) (node : string) (m : metricsStore) : RateResult :=
  entry_rate now (ms_nodes m !! node).

(** [AllRates], [AllNodeRates]: [None] when one of the entries panics. *)
Definition all_rates (now : Z) (es : gmap string entry) : option (gmap string Rate) :=
  map_fold (λ k e acc,
    match acc with
    | None => None
    | Some m => match entry_rate now (Some e) with
                | RatePanics => None
                | NoRate => Some m
                | ARate r => Some (<[k := r]> m)
                end
    end) (Some ∅) es.
Definition metrics_AllRates (now : Z) (m : metricsStore) : option (gmap string Rate) := all_rates now (ms_by m).
Definition metrics_AllNodeRates (now : Z) (m : metricsStore) : option (gmap string Rate) := all_rates now (ms_nodes m).

Definition fresh_samples (now : Z) (es : gmap string entry) : list Sample :=
  en_cur <$> List.filter (fresh_entry now) (map_to_list es).*2.

(** [AllNodeMetrics] and [AllMetrics]. *)
Definition metrics_AllNodeMetrics (now : Z) (m : metricsStore) : list Sample :=
  sort_stable (λ a b, String.ltb (sm_Node a) (sm_Node b)) (fresh_samples now (ms_nodes m)).
Definition sample_less (a b : Sample) : bool :=
  if negb (bool_decide (sm_Namespace a = sm_Namespace b)) then String.ltb (sm_Namespace a) (sm_Namespace b)
  else String.ltb (sm_Name a) (sm_Name b).
Definition metrics_AllMetrics (now : Z) (m : metricsStore) : list Sample :=
  sort_stable sample_less (fresh_samples now (ms_by m)).

(** ** What a reader sees *)
(** Stores reached by reports. *)
Inductive MetricsRun : metricsStore → Prop :=
| mrun_new : MetricsRun newMetricsStore
| mrun_put now node am m : MetricsRun m → MetricsRun (metrics_put now node am m)
| mrun_putNode now node nu m : MetricsRun m → MetricsRun (metrics_putNode now node nu m).

(** Every entry is filed under its own identity, its current sample is a real one. *)
Definition filed (m : metricsStore) : Prop :=
  (∀ k e, ms_by m !! k = Some e →
     k = metric_key (sm_Namespace (en_cur e)) (sm_Name (en_cur e)) ∧ is_Some (sm_At (en_cur e))) ∧
  (∀ k e, ms_nodes m !! k = Some e → k = sm_Node (en_cur e) ∧ is_Some (sm_At (en_cur e))).

Lemma advance_cur e s : en_cur (advance e s) = s.
Proof. unfold advance. by destruct (sm_At _). Qed.

Lemma advance_real e s t : sm_At (en_cur e) = Some t → advance e s = mkEntry (en_cur e) s.
Proof. unfold advance. by intros ->. Qed.

Lemma run_filed m : MetricsRun m → filed m.
Proof.
  induction 1 as [|now node am m _ [IH1 IH2]|now node nu m _ [IH1 IH2]].
  - split; intros k e; cbn; by rewrite lookup_empty.
  - unfold metrics_put. destruct (_ || _); [done|]. split; [|done]. intros k e. cbn [ms_by].
    intros [[<- <-]|[_ Hk]]%lookup_insert_Some; [|by apply IH1]. rewrite advance_cur. by split; [|eexists].
  - unfold metrics_putNode. case_bool_decide as Hn; [done|]. split; [done|]. intros k e. cbn [ms_nodes].
    intros [[<- <-]|[_ Hk]]%lookup_insert_Some; [|by apply IH2]. rewrite advance_cur. by split; [|eexists].
Qed.

Lemma fresh_samples_elem now es s :
  s ∈ fresh_samples now es ↔ ∃ k e, es !! k = Some e ∧ fresh_entry now e = true ∧ s = en_cur e.
Proof.
  unfold fresh_samples. rewrite list_elem_of_fmap. setoid_rewrite filter_elem. setoid_rewrite list_elem_of_fmap. split.
  - intros (e & -> & ([k e'] & -> & H%elem_of_map_to_list) & Hf). by exists k, e'.
  - intros (k & e & H & Hf & ->). exists e. split_and!; try done. exists (k, e). by rewrite elem_of_map_to_list.
Qed.

(** The exporter lists exactly the workloads a single query answers for, with the same sample. *)
Theorem AllMetrics_spec now m s :
  MetricsRun m →
  s ∈ metrics_AllMetrics now m ↔ metrics_Metrics now (sm_Namespace s) (sm_Name s) m = Some s.
Proof.
  intros [Hf _]%run_filed. unfold metrics_AllMetrics. rewrite sort_stable_perm, fresh_samples_elem. unfold metrics_Metrics. split.
  - intros (k & e & Hk & He & ->). destruct (Hf _ _ Hk) as [Ek _]. by rewrite <-Ek, Hk, He.
  - destruct (ms_by m !! _) as [e|] eqn:E; [|done]. destruct (fresh_entry now e) eqn:Ee; [|done]. intros [= <-]. by exists (metric_key (sm_Namespace (en_cur e)) (sm_Name (en_cur e))), e.
Qed.

(** A rate is the CPU time spent over the time between two reports, in millicores, whenever
    the reports are a microsecond apart or more, the counter has not gone back and the numbers
    fit. *)
Theorem rate_spec p c t0 t1 :
  sm_At p = Some t0 → sm_At c = Some t1 → is_int64 t0 → is_int64 t1 → is_int64 (t1 - t0) → 1000 ≤ t1 - t0 →
  0 ≤ sm_CPUUsec p ≤ sm_CPUUsec c → is_int64 (sm_CPUUsec c * 1000) →
  rate (mkEntry p c) =
    ARate (mkRate ((sm_CPUUsec c - sm_CPUUsec p) * 1000 / ((t1 - t0) / 1000)) (sm_MemoryBytes c) (t1 - t0) (Some t1)).
Proof.
  intros Hp Hc H0 H1 Hd Hw Hcpu Hi. unfold rate. cbn [en_prev en_cur]. rewrite Hp, Hc. cbv zeta.
  rewrite (proj2 (Z.ltb_lt t0 t1)) by lia. cbn [negb].
  assert (time_Sub t1 t0 = t1 - t0) as -> by (unfold time_Sub; int64).
  rewrite (wrap64_id (sm_CPUUsec c - sm_CPUUsec p)) by int64. rewrite (proj2 (Z.ltb_ge _ 0)) by lia.
  rewrite Z.quot_div_nonneg by lia. pose proof (Z.div_le_lower_bound (t1 - t0) 1000 1).
  rewrite (proj2 (Z.eqb_neq _ 0)) by lia. rewrite wrap64_id by int64. rewrite Z.quot_div_nonneg by lia. done.
Qed.

Definition before : Sample := mkSample "red" "web" "n1" 100 0 7 7 1 0 (Some 0) 5.
Definition after : Sample := mkSample "red" "web" "n1" 600 0 9 9 1 0 (Some 1000000) 6.

Lemma rate_spec_witness : rate (mkEntry before after) = ARate (mkRate 500 9 1000000 (Some 1000000)).
Proof. refine (rate_spec before after 0 1000000 _ _ _ _ _ _ _ _); try reflexivity; unfold is_int64, min_int64, max_int64; cbn; lia. Defined.

Lemma all_rates_panics now es k e :
  es !! k = Some e → entry_rate now (Some e) = RatePanics → all_rates now es = None.
Proof.
  intros Hk He. unfold all_rates.
  apply (map_fold_weak_ind (λ acc m, (∃ e, m !! k = Some e ∧ entry_rate now (Some e) = RatePanics) → acc = None)).
  - intros (? & H & _). by rewrite lookup_empty in H.
  - intros i x m acc Hi IH (e' & [[-> ->]|[_ H]]%lookup_insert_Some & Hr).
    + rewrite Hr. by destruct acc.
    + rewrite IH; [done|]. by exists e'.
  - by exists e.
Qed.

(** A node that reports a workload twice within one microsecond, counter not decreasing, makes
    every reader of the rates divide by zero until the sample ages out: that workload's and the
    listing of the whole fleet's. *)
Theorem close_samples_panic now node t t' m ns name c c' :
  ns ≠ "" → name ≠ "" → t < t' < t + 1000 → 0 ≤ c ≤ c' → is_int64 c' → is_int64 t → is_int64 t' → is_int64 now →
  let am t c := mkAppMetrics ns name c 0 0 0 0 0 t in
  let m' := metrics_put now node (am t' c') (metrics_put now node (am t c) m) in
  metrics_Rate now ns name m' = RatePanics ∧ metrics_AllRates now m' = None.
Proof.
  intros Hns Hname Ht Hc Hi Hit Hit' Hnow am m'.
  assert (∃ e, ms_by m' !! metric_key ns name = Some e ∧ entry_rate now (Some e) = RatePanics) as (e & H1 & H2).
  { unfold m', metrics_put, am. cbn [am_Namespace am_Name]. rewrite !bool_decide_eq_false_2 by done. cbn [orb ms_by].
    rewrite !lookup_insert_eq. eexists. split; [done|]. unfold entry_rate, fresh_entry. rewrite advance_cur. cbn [sm_Received].
    assert (time_Sub now now = 0) as -> by (unfold time_Sub; int64). cbn [Z.ltb Z.compare metricsRetention negb].
    match goal with |- context [default entry0 (Some ?e)] => change (default entry0 (Some e)) with e end.
    rewrite (advance_real _ _ t) by by rewrite advance_cur. rewrite advance_cur. unfold rate. cbn [en_prev en_cur].
    cbn [sm_At sm_CPUUsec am_TimestampUnixNano am_CpuUsec].
    rewrite (proj2 (Z.ltb_lt t t')) by lia. cbn [negb]. cbv zeta. rewrite wrap64_id by int64. rewrite (proj2 (Z.ltb_ge (c' - c) 0)) by lia.
    assert (time_Sub t' t = t' - t) as -> by (unfold time_Sub; int64). by rewrite Z.quot_small by lia. }
  split; [unfold metrics_Rate; by rewrite H1|]. by eapply all_rates_panics.
Qed.

Lemma close_samples_panic_witness :
  let am t c := mkAppMetrics "red" "web" c 0 0 0 0 0 t in
  metrics_AllRates 7 (metrics_put 7 "n1" (am 1 0) (metrics_put 7 "n1" (am 0 0) newMetricsStore)) = None.
Proof.
  intros am. refine (proj2 (close_samples_panic 7 "n1" 0 1 newMetricsStore "red" "web" 0 0 _ _ _ _ _ _ _ _));
    try discriminate; unfold is_int64, min_int64, max_int64; lia.
Defined.
