(* ===== verification/NodeReports.v ===== *)
(** * What a node reports (controller/nodeserver/server.go)

    The messages a node sends up its stream and the writes they cause: its own Node's status
    and first registration, the status of the applications it runs, the release of the
    teardown hold, and the usage figures.  The writes go through the API service with no
    identity, so what confines a node is this code: the name and placement checks, the
    stamps that replace what a node says of itself, and the cordon of a first registration.

    Reverse DNS, the peer of the stream, JSON and [resource.NewQuantity] are parameters. *)
From stdpp Require Import gmap strings list.
From Stdlib Require Import ZArith Ascii.
From S2P Require Import Prelude Resources CoreV1 ApiObjects Uids Paths Admission AdmissionFacts Allocation References.
From S2P Require Import Store Integrity Tenancy Bolt ApiService Authz NodeMetrics.
Import GoStrings.
#[local] Open Scope Z_scope.

(** ** api/core/v1/uids.go *)
Definition MaxReportedCPU : Z := 4096.
Definition MaxReportedMemory : Z := Z.shiftl 64 40.

Definition nodeGroup : string := "system:nodes".
Definition nodeGVK : GVK := ("horchestra.io", "v1", "Node").
Definition appGVK : GVK := ("horchestra.io", "v1", "Application").

(** [resource.Format]: how a quantity prints. *)
Inductive Format := DecimalSI | BinarySI.

(** ** Who is speaking *)
(** [strings.TrimSuffix] of one trailing dot. *)
Fixpoint trim_dot (s : string) : string :=
  match s with
  | EmptyString => ""
  | String c EmptyString => if bool_decide (c = "."%char) then "" else s
  | String c s' => String c (trim_dot s')
  end.

(** [nameCoversPTR]; a resolver answers domain names, which are ASCII. *)
Definition nameCoversPTR (cn ptr : string) : bool :=
  let cn := ToLower (trim_dot cn) in
  let ptr := ToLower (trim_dot ptr) in
  if bool_decide (cn = "") || bool_decide (ptr = "") then false
  else bool_decide (cn = ptr) || has_prefix (cn +:+ ".") ptr.

Inductive RegistrationError :=
| PeerUnknown (node : string) (e : error)
| NoReverseName (node addr : string) (e : error)
| NotCovered (node addr : string) (names : list string).

(** [checkRegistration]: [resolver] is the reverse lookup, if strict registration is on, and
    [peer] the answer of [peerAddr]. *)
Definition checkRegistration (resolver : option (string → result error (list string)))
    (peer : result error string) (node : string) : option RegistrationError :=
  match resolver with
  | None => None
  | Some lookup =>
      match peer with
      | Err e => Some (PeerUnknown node e)
      | Ok addr =>
          match lookup addr with
          | Err e => Some (NoReverseName node addr e)
          | Ok names => if existsb (nameCoversPTR node) names then None else Some (NotCovered node addr names)
          end
      end
  end.

(** The leaf certificate's subject. *)
Record CertSubject := mkCertSubject { cs_CommonName : string; cs_Organization : list string }.

(** What gRPC knows of the peer: nothing, a connection without TLS, or the chains verified
    against the client CA. *)
Inductive PeerInfo :=
| NoPeer
| NotTLS
| TLSInfo (VerifiedChains : list (list CertSubject)).

Inductive IdentityError :=
| NoPeerInformation
| NotMutualTLS
| NotVerified
| NoCommonName
| BadCommonName (cn : string) (msg : string).

Section Identity.
Context (IsDNS1123Subdomain : string → list string).

(** [peerIdentity]. *)
Definition peerIdentity (p : PeerInfo) : result IdentityError (string * list string) :=
  match p with
  | NoPeer => Err NoPeerInformation
  | NotTLS => Err NotMutualTLS
  | TLSInfo ((leaf :: _) :: _) =>
      let cn := cs_CommonName leaf in
      if bool_decide (cn = "") then Err NoCommonName
      else match IsDNS1123Subdomain cn with
           | msg :: _ => Err (BadCommonName cn msg)
           | [] => Ok (cn, cs_Organization leaf)
           end
  | TLSInfo _ => Err NotVerified
  end.

Inductive SessionRefusal := Unauthenticated (e : IdentityError) | PermissionDenied (node : string).

(** The opening of [Session]: the node a stream speaks for. *)
Definition session_identity (p : PeerInfo) : result SessionRefusal string :=
  match peerIdentity p with
  | Err e => Err (Unauthenticated e)
  | Ok (node, groups) => if bool_decide (nodeGroup ∈ groups) then Ok node else Err (PermissionDenied node)
  end.
End Identity.

(** ** Messages *)
Record AppStatus := mkReportedStatus {
  as_Namespace : string;
  as_Name : string;
  as_ObservedGeneration : Z;
  as_Phase : string;
  as_Message : string;
  as_Address : string;
  as_Attempts : Z;
  as_ExitCode : Z;
  as_FinishedAtUnixNano : Z;
}.

Inductive NodeMessage (Body : Type) :=
| MStatus (node : Body)
| MAppMetrics (am : AppMetrics)
| MNodeUsage (nu : NodeUsage)
| MAppStatus (r : AppStatus)
| MLogChunk.
Arguments MStatus {Body}.
Arguments MAppMetrics {Body}.
Arguments MNodeUsage {Body}.
Arguments MAppStatus {Body}.
Arguments MLogChunk {Body}.

Inductive ReportError :=
| UndecodableReport (e : error)
| NotOwnNode (reported identity : string)
| NotOwnApplication (ns name pinned node : string)
| UnencodableReport (e : error)
| NotRegistered (e : RegistrationError)
| ReportRefused (e : ApiError).

(** [apierrors.IsNotFound]. *)
Definition IsNotFound (e : ApiError) : bool := match e with NotFound _ _ => true | _ => false end.

Section Reports.
Context {HQ : Quantity} (NewQuantity : Z → Format → Qty).
Context {S E : Type} (st : Storage S E) (chain : Lister → list Plugin).
Context {Body Patch : Type} (lib : Libs Body Patch) (sch : Scheme).
Context (resolver : option (string → result error (list string))) (peer : result error string).
Implicit Types (s : S) (e : E).

(** ** The node's own status *)
(** [clampCapacity]. *)
Definition clampCapacity (c : ResourceAmounts) : ResourceAmounts :=
  mkAmounts
    (if MaxReportedCPU <? q_Value (ra_CPU c) then NewQuantity MaxReportedCPU DecimalSI else ra_CPU c)
    (if MaxReportedMemory <? q_Value (ra_Memory c) then NewQuantity MaxReportedMemory BinarySI else ra_Memory c).

(** What the controller replaces in a report: the heartbeat, the capacity's excess and the
    derived labels. *)
Definition stamp_report (now : Z) (n : Node) : Node :=
  let x := node_Status n in
  let x := mkNodeStatus (clampCapacity (ns_Capacity x)) (ns_Allocated x) (ns_OS x) (ns_IP x) (ns_Ready x) now
             (ns_Runtimes x) (ns_Platform x) (ns_RoutedNetwork x) (ns_Labels x) in
  let n := mkNode (node_meta n) (node_Unschedulable n) x in
  mkNode (node_meta n) (node_Unschedulable n)
    (mkNodeStatus (ns_Capacity x) (ns_Allocated x) (ns_OS x) (ns_IP x) (ns_Ready x) (ns_Heartbeat x)
       (ns_Runtimes x) (ns_Platform x) (ns_RoutedNetwork x) (DerivedNodeLabels n)).

(** The Node a first registration creates. *)
Definition cordoned (n : Node) : Node := mkNode (node_meta n) true (node_Status n).

(** json.Unmarshal into a [corev1.Node]. *)
Definition report_node (data : Body) : result ReportError Node :=
  match json_Unmarshal lib nodeGVK data with
  | (_, Some err) => Err (UndecodableReport err)
  | (ObjNode n, None) => Ok n
  | (_, None) => Err (UndecodableReport "not a Node")
  end.

Definition encode (o : Object) : result ReportError Body :=
  match json_Marshal lib o with Ok b => Ok b | Err err => Err (UnencodableReport err) end.

(** The stamped report, once its name is the speaker's. *)
Definition own_report (now : Z) (node : string) (data : Body) : result ReportError Node :=
  let* n := report_node data in
  if bool_decide (node_Name n = node) then Ok (stamp_report now n) else Err (NotOwnNode (node_Name n) node).

Definition outcome {A} (p : S * result ApiError A) : S * result ReportError unit :=
  (p.1, match p.2 with Ok _ => Ok tt | Err err => Err (ReportRefused err) end).

(** The branch of [applyStatus] taken when the Node does not exist. *)
Definition register_node (e : E) (node : string) (n : Node) s : S * result ReportError unit :=
  match checkRegistration resolver peer node with
  | Some err => (s, Err (NotRegistered err))
  | None =>
      match encode (ObjNode (cordoned n)) with
      | Err err => (s, Err err)
      | Ok b => outcome (service_Create st chain lib sch None e nodeGVK b "" s)
      end
  end.

(** [applyStatus]; [e1] and [e2] are what its two store calls draw. *)
Definition applyStatus (now : Z) (e1 e2 : E) (node : string) (data : Body) s : S * result ReportError unit :=
  match (let* n := own_report now node data in let* b := encode (ObjNode n) in Ok (n, b)) with
  | Err err => (s, Err err)
  | Ok (n, b) =>
      match service_UpdateSubresource st chain lib sch None e1 nodeGVK "status" b "" s with
      | (s', Ok _) => (s', Ok tt)
      | (s', Err err) => if IsNotFound err then register_node e2 node n s' else (s', Err (ReportRefused err))
      end
  end.

(** ** The status of an application *)
Definition reported_status (r : AppStatus) (app : Application) : ApplicationStatus :=
  let x := mkAppStatus (as_ObservedGeneration r) (as_Phase r) (as_Message r) (as_Address r) None 0 (as_Attempts r) in
  if TerminalPhase (as_Phase r) (sp_Lifecycle (app_Spec app)) (as_Attempts r)
  then mkAppStatus (st_ObservedGeneration x) (st_Phase x) (st_Message x) (st_Address x) (Some (as_ExitCode r))
         (if 0 <? as_FinishedAtUnixNano r then as_FinishedAtUnixNano r else st_FinishedAt x) (st_Attempts x)
  else x.

Definition with_status (x : ApplicationStatus) (app : Application) : Application :=
  mkApplication (app_meta app) (app_Spec app) x.

Definition not_teardown (f : string) : bool := negb (bool_decide (f = FinalizerNodeTeardown)).

(** [releaseTeardown]. *)
Definition releaseTeardown (now : Z) (e1 e2 : E) (m : TypesMeta) (app : Application) (phase : string) s
    : S * result ReportError unit :=
  if negb (bool_decide (phase = AppPhaseTerminated)) || negb (Deleting app) then (s, Ok tt)
  else
    let fins := om_Finalizers (app_meta app) in
    let kept := List.filter not_teardown fins in
    if (length kept =? length fins)%nat then (s, Ok tt)
    else
      let app := mkApplication (set_finalizers kept (app_meta app)) (app_Spec app) (app_Status app) in
      match encode (ObjApplication app) with
      | Err err => (s, Err err)
      | Ok b =>
          match service_Update st chain lib sch None e1 appGVK b (app_Namespace app) (app_Name app) s with
          | (s', Err err) => (s', Err (ReportRefused err))
          | (s', Ok _) =>
              if bool_decide (kept = [])
              then outcome (service_Delete st chain lib sch None e2 now m None s')
              else (s', Ok tt)
          end
      end.

(** [applyAppStatus]; [e1], [e2] and [e3] are what its three store calls draw. *)
Definition applyAppStatus (now : Z) (e1 e2 e3 : E) (node : string) (r : AppStatus) s : S * result ReportError unit :=
  let m := mkTypesMeta GroupVersion "Application" (as_Namespace r) (as_Name r) in
  match service_Get st lib sch m s with
  | Ok (ObjApplication app) =>
      if negb (bool_decide (app_NodeName app = node))
      then (s, Err (NotOwnApplication (as_Namespace r) (as_Name r) (app_NodeName app) node))
      else
        let app := with_status (reported_status r app) app in
        match encode (ObjApplication app) with
        | Err err => (s, Err err)
        | Ok b =>
            match service_UpdateSubresource st chain lib sch None e1 appGVK "status" b (app_Namespace app) s with
            | (s', Err err) => (s', Err (ReportRefused err))
            | (s', Ok _) => releaseTeardown now e2 e3 m app (as_Phase r) s'
            end
        end
  | _ => (s, Ok tt)
  end.

(** One turn of the receive loop of [Session], on the stored objects and the figures; a
    failed report is logged and the loop goes on.  (A log chunk touches neither: it is
    [NodeSessions.deliver_lookup].) *)
Definition handle (now : Z) (e1 e2 e3 : E) (node : string) (msg : NodeMessage Body) (x : S * metricsStore)
    : S * metricsStore :=
  match msg with
  | MStatus data => ((applyStatus now e1 e2 node data x.1).1, x.2)
  | MAppMetrics am => (x.1, metrics_put now node am x.2)
  | MNodeUsage nu => (x.1, metrics_putNode now node nu x.2)
  | MAppStatus r => ((applyAppStatus now e1 e2 e3 node r x.1).1, x.2)
  | MLogChunk => x
  end.
End Reports.
