(* ===== verification/NodeSessions.v ===== *)
(** * Node sessions and log streams

    controller/nodeserver/server.go: which stream is a node's session (register, deregister,
    touch), and the log streams routed over it (streamLogs, deliverLog, removeLog, the cancel
    function, logSink).  Each critical section is one step, so the goroutines of sessions and
    HTTP requests interleave between any two of them; sessions, sinks and requests are records
    of a shared store, named by numbers. *)
From stdpp Require Import gmap strings list.
From Stdlib Require Import ZArith.
From S2P Require Import Prelude.
#[local] Open Scope Z_scope.

Definition logSinkChunks : nat := 64.
Definition maxLiveLogSinks : Z := 256.
Definition defaultSessionStale : Z := 60 * 1000000000.

(** [WithSessionStaleAfter]: never below the default. *)
Definition WithSessionStaleAfter (d staleAfter : Z) : Z := if defaultSessionStale <? d then d else staleAfter.

(** [logSink]: its channel's contents, whether it is closed and with what, and whether its
    slot has been given back. *)
Record logSink := mkSink {
  sk_ch : list string;
  sk_closed : bool;
  sk_err : option string;
  sk_released : bool;
}.

(** What a session's goroutine is about to do with a chunk it has looked up. *)
Record Delivery := mkDelivery { dl_id : nat; dl_data : string; dl_eof : bool; dl_error : string }.

(** Where a session's handler is: in its receive loop, between the two critical sections of
    deregister, or returned. *)
Inductive Phase := Receiving | Leaving | Gone.
#[export] Instance Phase_eq_dec : EqDecision Phase.
Proof. solve_decision. Defined.

(** [session].  [se_cancelled]: its derived
    context is cancelled, which ends the sender and the push loop but not the receive loop,
    which waits on the stream. *)
Record session := mkSession {
  se_node : string;
  se_lastSeen : Z;
  se_phase : Phase;
  se_cancelled : bool;
  se_logs : gset nat;
  se_doing : option Delivery;
}.

(** A log request's goroutine: the session found, the slot taken (or refused), the sink
    added, the request sent, finished. *)
Inductive Request :=
| RLooked (sid : nat) | RTaken (sid : nat) | ROver | RAdded (sid id : nat) | RStreaming (sid id : nat) | RFinished.

Record NodeServer := mkNodeServer {
  sv_staleAfter : Z;
  sv_sessions : gmap string nat;
  sv_sess : gmap nat session;
  sv_sinks : gmap nat logSink;
  sv_requests : gmap nat Request;
  sv_reqSeq : nat;
  sv_liveSinks : Z;
}.

Definition with_sessions m s := mkNodeServer (sv_staleAfter s) m (sv_sess s) (sv_sinks s) (sv_requests s) (sv_reqSeq s) (sv_liveSinks s).
Definition with_sess m s := mkNodeServer (sv_staleAfter s) (sv_sessions s) m (sv_sinks s) (sv_requests s) (sv_reqSeq s) (sv_liveSinks s).
Definition with_sinks m s := mkNodeServer (sv_staleAfter s) (sv_sessions s) (sv_sess s) m (sv_requests s) (sv_reqSeq s) (sv_liveSinks s).
Definition with_requests m s := mkNodeServer (sv_staleAfter s) (sv_sessions s) (sv_sess s) (sv_sinks s) m (sv_reqSeq s) (sv_liveSinks s).
Definition with_live n s := mkNodeServer (sv_staleAfter s) (sv_sessions s) (sv_sess s) (sv_sinks s) (sv_requests s) (sv_reqSeq s) n.

Definition alter_session (sid : nat) (f : session → session) (s : NodeServer) : NodeServer := with_sess (alter f sid (sv_sess s)) s.

(** [touch]. *)
Definition touch (sid : nat) (now : Z) : NodeServer → NodeServer :=
  alter_session sid (λ x, mkSession (se_node x) now (se_phase x) (se_cancelled x) (se_logs x) (se_doing x)).
Definition cancel_session (sid : nat) : NodeServer → NodeServer :=
  alter_session sid (λ x, mkSession (se_node x) (se_lastSeen x) (se_phase x) true (se_logs x) (se_doing x)).
Definition set_logs (sid : nat) (f : gset nat → gset nat) : NodeServer → NodeServer :=
  alter_session sid (λ x, mkSession (se_node x) (se_lastSeen x) (se_phase x) (se_cancelled x) (f (se_logs x)) (se_doing x)).
Definition set_doing (sid : nat) (d : option Delivery) : NodeServer → NodeServer :=
  alter_session sid (λ x, mkSession (se_node x) (se_lastSeen x) (se_phase x) (se_cancelled x) (se_logs x) d).
Definition stop_receiving (sid : nat) : NodeServer → NodeServer :=
  alter_session sid (λ x, mkSession (se_node x) (se_lastSeen x) Leaving true (se_logs x) (se_doing x)).

(** [register]: the server afterwards, or how long the session in the way has been silent. *)
Definition register (now : Z) (node : string) (sid : nat) (s : NodeServer) : result Z NodeServer :=
  match sv_sessions s !! node with
  | Some prev =>
      if bool_decide (prev = sid) then Ok s
      else
        let idle := time_Sub now (from_option se_lastSeen 0 (sv_sess s !! prev)) in
        if idle <? sv_staleAfter s then Err idle
        else Ok (with_sessions (<[node := sid]> (sv_sessions s)) (cancel_session prev s))
  | None => Ok (with_sessions (<[node := sid]> (sv_sessions s)) s)
  end.

(** The two critical sections of [deregister]. *)
Definition deregister_session (node : string) (sid : nat) (s : NodeServer) : NodeServer :=
  match sv_sessions s !! node with
  | Some cur => if bool_decide (cur = sid) then with_sessions (delete node (sv_sessions s)) s else s
  | None => s
  end.

(** [logSink.release]: the slot is given back once. *)
Definition release (id : nat) (s : NodeServer) : NodeServer :=
  match sv_sinks s !! id with
  | Some k => if sk_released k then s
              else with_live (sv_liveSinks s - 1)
                     (with_sinks (<[id := mkSink (sk_ch k) (sk_closed k) (sk_err k) true]> (sv_sinks s)) s)
  | None => s
  end.

(** [logSink.push]: a full buffer drops the chunk. *)
Definition sink_push (id : nat) (b : string) (s : NodeServer) : NodeServer :=
  match sv_sinks s !! id with
  | Some k => if (length (sk_ch k) <? logSinkChunks)%nat
              then with_sinks (<[id := mkSink (sk_ch k ++ [b]) (sk_closed k) (sk_err k) (sk_released k)]> (sv_sinks s)) s
              else s
  | None => s
  end.

(** [logSink.finish]: closes the channel once, and releases the slot. *)
Definition finish (id : nat) (err : option string) (s : NodeServer) : NodeServer :=
  match sv_sinks s !! id with
  | Some k => if sk_closed k then s
              else release id (with_sinks (<[id := mkSink (sk_ch k) true err (sk_released k)]> (sv_sinks s)) s)
  | None => s
  end.

Definition finish_all (ids : list nat) (s : NodeServer) : NodeServer :=
  foldl (λ s id, finish id (Some "node disconnected") s) s ids.

Definition deregister_logs (sid : nat) (s : NodeServer) : NodeServer :=
  match sv_sess s !! sid with
  | Some x => alter_session sid (λ x, mkSession (se_node x) (se_lastSeen x) Gone (se_cancelled x) ∅ (se_doing x))
                (finish_all (elements (se_logs x)) s)
  | None => s
  end.

(** [deliverLog], in two parts: the lookup, and what is done with the sink found.  Closing the
    sink and forgetting it are two critical sections of the code; a request that finds the sink
    between them gives its slot back a second time, which [release] ignores. *)
Definition deliver_lookup (sid : nat) (d : Delivery) (s : NodeServer) : NodeServer :=
  match sv_sess s !! sid with
  | Some x => if bool_decide (dl_id d ∈ se_logs x) then set_doing sid (Some d) s else s
  | None => s
  end.
Definition deliver (sid : nat) (d : Delivery) (s : NodeServer) : NodeServer :=
  let s := if bool_decide (dl_data d = "") then s else sink_push (dl_id d) (dl_data d) s in
  let s :=
    if dl_eof d || negb (bool_decide (dl_error d = "")) then
      set_logs sid (λ logs, logs ∖ {[dl_id d]})
        (finish (dl_id d) (if bool_decide (dl_error d = "") then None else Some (dl_error d)) s)
    else s in
  set_doing sid None s.

(** ** [streamLogs], step by step *)
Definition set_request (rid : nat) (r : Request) (s : NodeServer) : NodeServer := with_requests (<[rid := r]> (sv_requests s)) s.

(** The session of the node, or "not connected". *)
Definition stream_lookup (rid : nat) (node : string) (s : NodeServer) : NodeServer :=
  match sv_sessions s !! node with
  | Some sid => set_request rid (RLooked sid) s
  | None => set_request rid RFinished s
  end.
(** [liveSinks.Add(1)] and its comparison. *)
Definition stream_take (rid sid : nat) (s : NodeServer) : NodeServer :=
  let live := sv_liveSinks s + 1 in
  set_request rid (if maxLiveLogSinks <? live then ROver else RTaken sid) (with_live live s).
(** [liveSinks.Add(-1)] and the refusal. *)
Definition stream_refuse (rid : nat) (s : NodeServer) : NodeServer :=
  set_request rid RFinished (with_live (sv_liveSinks s - 1) s).
(** The sink, under a new id, in the session's logs. *)
Definition stream_add (rid sid : nat) (s : NodeServer) : NodeServer :=
  let id := S (sv_reqSeq s) in
  let s := mkNodeServer (sv_staleAfter s) (sv_sessions s) (sv_sess s) (<[id := mkSink [] false None false]> (sv_sinks s))
             (sv_requests s) id (sv_liveSinks s) in
  set_request rid (RAdded sid id) (set_logs sid (λ logs, {[id]} ∪ logs) s).
(** The message was queued. *)
Definition stream_sent (rid sid id : nat) (s : NodeServer) : NodeServer := set_request rid (RStreaming sid id) s.
(** The request's context ended first: [removeLog]. *)
Definition removeLog (sid id : nat) (s : NodeServer) : NodeServer :=
  match sv_sess s !! sid with
  | Some x => if bool_decide (id ∈ se_logs x) then release id (set_logs sid (λ logs, logs ∖ {[id]}) s) else s
  | None => s
  end.
Definition stream_abandon (rid sid id : nat) (s : NodeServer) : NodeServer := set_request rid RFinished (removeLog sid id s).
(** The cancel function the caller always runs. *)
Definition stream_cancel (rid sid id : nat) (s : NodeServer) : NodeServer :=
  set_request rid RFinished (release id (set_logs sid (λ logs, logs ∖ {[id]}) s)).

(** ** The server's steps *)
Inductive step : NodeServer → NodeServer → Prop :=
| st_connect sid node now s s' :
    sv_sess s !! sid = None →
    register now node sid (with_sess (<[sid := mkSession node now Receiving false ∅ None]> (sv_sess s)) s) = Ok s' → step s s'
| st_refused sid node now s idle :
    sv_sess s !! sid = None →
    register now node sid (with_sess (<[sid := mkSession node now Receiving false ∅ None]> (sv_sess s)) s) = Err idle → step s s
| st_receive sid now x s :
    sv_sess s !! sid = Some x → se_phase x = Receiving → se_doing x = None → step s (touch sid now s)
| st_chunk sid d x s :
    sv_sess s !! sid = Some x → se_phase x = Receiving → se_doing x = None → step s (deliver_lookup sid d s)
| st_deliver sid d x s :
    sv_sess s !! sid = Some x → se_phase x = Receiving → se_doing x = Some d → step s (deliver sid d s)
| st_end sid x s :
    sv_sess s !! sid = Some x → se_phase x = Receiving → se_doing x = None →
    step s (deregister_session (se_node x) sid (stop_receiving sid s))
| st_ended sid x s :
    sv_sess s !! sid = Some x → se_phase x = Leaving → step s (deregister_logs sid s)
| st_request rid node s : sv_requests s !! rid = None → step s (stream_lookup rid node s)
| st_take rid sid s : sv_requests s !! rid = Some (RLooked sid) → step s (stream_take rid sid s)
| st_refuse rid s : sv_requests s !! rid = Some ROver → step s (stream_refuse rid s)
| st_add rid sid s : sv_requests s !! rid = Some (RTaken sid) → step s (stream_add rid sid s)
| st_sent rid sid id s : sv_requests s !! rid = Some (RAdded sid id) → step s (stream_sent rid sid id s)
| st_abandon rid sid id s : sv_requests s !! rid = Some (RAdded sid id) → step s (stream_abandon rid sid id s)
| st_cancel rid sid id s : sv_requests s !! rid = Some (RStreaming sid id) → step s (stream_cancel rid sid id s).

Definition new_server (staleAfter : Z) : NodeServer := mkNodeServer staleAfter ∅ ∅ ∅ ∅ 0 0.

Inductive Reach : NodeServer → Prop :=
| reach_new staleAfter : Reach (new_server staleAfter)
| reach_next s s' : Reach s → step s s' → Reach s'.
