(* ===== verification/SessionTheorems.v ===== *)
(** * What holds in every interleaving of sessions and log streams

    The budget of live log streams is never exceeded, every slot taken is given back exactly
    once, no chunk is written to a closed stream, and a node's session is only replaced after
    it has been silent. *)
From stdpp Require Import gmap strings list.
From Stdlib Require Import ZArith.
From S2P Require Import Prelude NodeSessions.
#[local] Open Scope Z_scope.

(** ** Counting *)
Section Count.
Context {A : Type} (P : A → bool).
Implicit Types (m : gmap nat A).

Definition count m : Z := map_fold (λ _ x n, n + Z.b2z (P x)) 0 m.

Lemma count_empty : count ∅ = 0.
Proof. done. Qed.
Lemma count_new m k x : m !! k = None → count (<[k := x]> m) = count m + Z.b2z (P x).
Proof. intros H. unfold count. rewrite map_fold_insert_L; [done| |done]. intros. lia. Qed.
Lemma count_delete m k x : m !! k = Some x → count m = count (delete k m) + Z.b2z (P x).
Proof.
  intros H. assert (m = <[k := x]> (delete k m)) as E by (by rewrite insert_delete_eq, insert_id).
  rewrite E at 1. by rewrite count_new by by rewrite lookup_delete_eq.
Qed.
Lemma count_update m k y x : m !! k = Some y → count (<[k := x]> m) = count m - Z.b2z (P y) + Z.b2z (P x).
Proof.
  intros H. rewrite (count_delete m k y H), <-insert_delete_eq, count_new by by rewrite lookup_delete_eq. lia.
Qed.
Lemma count_nonneg m : 0 ≤ count m.
Proof.
  induction m as [|k x m Hk IH] using map_ind; [by rewrite count_empty|]. rewrite count_new by done.
  destruct (P x); cbn [Z.b2z]; lia.
Qed.
Lemma count_zero m : (∀ k x, m !! k = Some x → P x = false) → count m = 0.
Proof.
  induction m as [|k x m Hk IH] using map_ind; intros H; [by rewrite count_empty|]. rewrite count_new by done.
  rewrite (H k x) by by rewrite lookup_insert_eq. rewrite IH; [done|]. intros j y Hj. apply (H j).
  rewrite lookup_insert_ne; [done|]. intros ->. by rewrite Hk in Hj.
Qed.
End Count.

Definition taken_req (r : Request) : bool := match r with RTaken _ => true | _ => false end.
Definition over_req (r : Request) : bool := match r with ROver => true | _ => false end.
Definition unreleased (k : logSink) : bool := negb (sk_released k).

(** The slots in use. *)
Definition held (s : NodeServer) : Z := count taken_req (sv_requests s) + count unreleased (sv_sinks s).

(** The sink a request is responsible for, and the session it asked. *)
Definition req_sink (r : Request) : option (nat * nat) :=
  match r with RAdded sid id | RStreaming sid id => Some (sid, id) | _ => None end.
Definition req_session (r : Request) : option nat :=
  match r with RLooked sid | RTaken sid | RAdded sid _ | RStreaming sid _ => Some sid | _ => None end.

(** [own] says which session each sink was added to; the sinks of [X] may be closed although
    a session still lists them. *)
Record Inv (X : gset nat) (own : gmap nat nat) (s : NodeServer) : Prop := {
  inv_live : sv_liveSinks s = held s + count over_req (sv_requests s);
  inv_budget : held s ≤ maxLiveLogSinks;
  inv_fresh id k : sv_sinks s !! id = Some k → (id ≤ sv_reqSeq s)%nat;
  inv_own id : is_Some (sv_sinks s !! id) ↔ is_Some (own !! id);
  inv_logs sid x id : sv_sess s !! sid = Some x → id ∈ se_logs x →
    own !! id = Some sid ∧ (id ∉ X → ∃ k, sv_sinks s !! id = Some k ∧ sk_closed k = false);
  inv_doing sid x d : sv_sess s !! sid = Some x → se_doing x = Some d →
    se_phase x = Receiving ∧ own !! dl_id d = Some sid ∧
    (dl_id d ∉ X → ∃ k, sv_sinks s !! dl_id d = Some k ∧ sk_closed k = false);
  inv_closed id k : sv_sinks s !! id = Some k → sk_closed k = true → sk_released k = true;
  inv_session rid r sid : sv_requests s !! rid = Some r → req_session r = Some sid → is_Some (sv_sess s !! sid);
  inv_sink rid r sid id : sv_requests s !! rid = Some r → req_sink r = Some (sid, id) → own !! id = Some sid;
  inv_one rid rid' r r' sid sid' id : sv_requests s !! rid = Some r → sv_requests s !! rid' = Some r' →
    req_sink r = Some (sid, id) → req_sink r' = Some (sid', id) → rid = rid';
  inv_answered id k : sv_sinks s !! id = Some k → sk_released k = false →
    ∃ rid r sid, sv_requests s !! rid = Some r ∧ req_sink r = Some (sid, id);
  inv_added rid sid id k : sv_requests s !! rid = Some (RAdded sid id) → sv_sinks s !! id = Some k → sk_released k = false →
    ∃ x, sv_sess s !! sid = Some x ∧ id ∈ se_logs x;
  inv_sessions node sid : sv_sessions s !! node = Some sid →
    ∃ x, sv_sess s !! sid = Some x ∧ se_node x = node ∧ se_phase x = Receiving;
}.

(** ** Three ways a step changes the store *)
(** Sinks: nothing is reopened or taken back. *)
Lemma inv_sinks X Y own s m n :
  Inv X own s → X ⊆ Y →
  (∀ j k', m !! j = Some k' → ∃ k, sv_sinks s !! j = Some k ∧ (j ∈ Y ∨ sk_closed k' = sk_closed k) ∧
     (sk_released k = true → sk_released k' = true) ∧ (sk_closed k' = true → sk_released k' = true)) →
  (∀ j, is_Some (sv_sinks s !! j) → is_Some (m !! j)) →
  n - sv_liveSinks s = count unreleased m - count unreleased (sv_sinks s) → n ≤ sv_liveSinks s →
  Inv Y own (with_live n (with_sinks m s)).
Proof.
  intros HI HXY Hm Hdom Hn Hle.
  assert (∀ j k, sv_sinks s !! j = Some k → sk_closed k = false → j ∉ Y → ∃ k', m !! j = Some k' ∧ sk_closed k' = false) as Hopen.
  { intros j k Hj Hc Hy. destruct (Hdom j) as [k' Hk']; [by eexists|]. exists k'. split; [done|].
    destruct (Hm _ _ Hk') as (k2 & E & [?|Ec] & _); [done|]. rewrite Hj in E. injection E as <-. congruence. }
  pose proof (inv_live _ _ _ HI). pose proof (inv_budget _ _ _ HI). unfold held in *. split; unfold held; cbn; try lia.
  - intros id k' Hk. destruct (Hm _ _ Hk) as (k & Ek & _). by eapply inv_fresh.
  - intros id. rewrite <-(inv_own _ _ _ HI). split; [|apply Hdom]. intros [k' Hk]. destruct (Hm _ _ Hk) as (k & Ek & _). by eexists.
  - intros sid x id Hx Hid. destruct (inv_logs _ _ _ HI _ _ _ Hx Hid) as [H1 H2]. split; [done|]. intros Hy.
    destruct H2 as (k & Hk & Hc); [set_solver|]. by eapply Hopen.
  - intros sid x d Hx Hd. destruct (inv_doing _ _ _ HI _ _ _ Hx Hd) as (H1 & H2 & H3). split_and!; try done. intros Hy.
    destruct H3 as (k & Hk & Hc); [set_solver|]. by eapply Hopen.
  - intros id k' Hk Hc. destruct (Hm _ _ Hk) as (k & _ & _ & _ & Hr). auto.
  - apply (inv_session _ _ _ HI).
  - apply (inv_sink _ _ _ HI).
  - apply (inv_one _ _ _ HI).
  - intros id k' Hk Hr. destruct (Hm _ _ Hk) as (k & Ek & _ & Hr' & _). apply (inv_answered _ _ _ HI _ _ Ek).
    destruct (sk_released k); [|done]. rewrite Hr' in Hr; done.
  - intros rid sid id k' Hr Hk Hu. destruct (Hm _ _ Hk) as (k & Ek & _ & Hr' & _). apply (inv_added _ _ _ HI _ _ _ _ Hr Ek).
    destruct (sk_released k); [|done]. rewrite Hr' in Hu; done.
  - apply (inv_sessions _ _ _ HI).
Qed.

Lemma alter_Some {A} (f : A → A) (m : gmap nat A) i j y :
  alter f i m !! j = Some y → ∃ x, m !! j = Some x ∧ y = if bool_decide (j = i) then f x else x.
Proof.
  case_bool_decide as E; [subst; rewrite lookup_alter_eq|rewrite lookup_alter_ne by done; by eexists].
  destruct (m !! i) as [x|]; [|done]. intros [= <-]. by exists x.
Qed.

Lemma alter_is_Some {A} (f : A → A) (m : gmap nat A) i j : is_Some (m !! j) → is_Some (alter f i m !! j).
Proof. intros [x Hx]. destruct (decide (i = j)) as [->|]; [rewrite lookup_alter_eq, Hx|rewrite lookup_alter_ne by done]; by eexists. Qed.

(** A session: it lists no sink it did not, forgets only released ones, and what it is about
    to do concerns a sink it lists. *)
Definition session_ok (s : NodeServer) (X : gset nat) (x y : session) : Prop :=
  se_node y = se_node x ∧ se_logs y ⊆ se_logs x ∧ se_logs y ## X ∧
  (∀ id k, id ∈ se_logs x → id ∉ se_logs y → sv_sinks s !! id = Some k → sk_released k = true) ∧
  (∀ d, se_doing y = Some d → se_phase y = Receiving ∧ dl_id d ∉ X ∧ (se_doing x = Some d ∨ dl_id d ∈ se_logs x)).

Lemma inv_alter X own s sid f :
  Inv X own s → (∀ x, sv_sess s !! sid = Some x → session_ok s X x (f x)) →
  (∀ j, j ∈ X → own !! j = Some sid) →
  (∀ node, sv_sessions s !! node = Some sid → ∀ x, sv_sess s !! sid = Some x → se_phase (f x) = Receiving) →
  Inv ∅ own (alter_session sid f s).
Proof.
  intros HI Hf HX Hph. pose proof (inv_live _ _ _ HI). pose proof (inv_budget _ _ _ HI). unfold held in *.
  split; unfold held; cbn; try lia; try (by destruct HI; eauto).
  - intros sid' y id Hy Hid. apply alter_Some in Hy as (x & Hx & ->). case_bool_decide as E.
    + subst. destruct (Hf _ Hx) as (_ & Hsub & Hdis & _). destruct (inv_logs _ _ _ HI _ _ id Hx) as [H1 H2]; [set_solver|].
      split; [done|]. intros _. apply H2. set_solver.
    + destruct (inv_logs _ _ _ HI _ _ _ Hx Hid) as [H1 H2]. split; [done|]. intros _. apply H2. intros HXid.
      apply HX in HXid. congruence.
  - intros sid' y d Hy Hd. apply alter_Some in Hy as (x & Hx & ->). case_bool_decide as E.
    + subst. destruct (Hf _ Hx) as (_ & _ & _ & _ & Hdo). destruct (Hdo _ Hd) as (H1 & H2 & [H3|H3]).
      * destruct (inv_doing _ _ _ HI _ _ _ Hx H3) as (_ & ? & ?). auto.
      * destruct (inv_logs _ _ _ HI _ _ _ Hx H3) as [? ?]. auto.
    + destruct (inv_doing _ _ _ HI _ _ _ Hx Hd) as (H1 & H2 & H3). split_and!; try done. intros _. apply H3. intros HXid.
      apply HX in HXid. congruence.
  - intros rid r sid' Hr Hs. apply alter_is_Some. by eapply inv_session.
  - intros rid sid' id k Hr Hk Hu. destruct (inv_added _ _ _ HI _ _ _ _ Hr Hk Hu) as (x & Hx & Hid).
    destruct (decide (sid' = sid)) as [->|Hne]; [|exists x; by rewrite lookup_alter_ne].
    exists (f x). rewrite lookup_alter_eq, Hx. split; [done|]. destruct (decide (id ∈ se_logs (f x))) as [|Hni]; [done|].
    destruct (Hf _ Hx) as (_ & _ & _ & Hrel & _). rewrite (Hrel _ _ Hid Hni Hk) in Hu. done.
  - intros node sid' Hn. destruct (inv_sessions _ _ _ HI _ _ Hn) as (x & Hx & E1 & E2).
    destruct (decide (sid' = sid)) as [->|Hne]; [|exists x; by rewrite lookup_alter_ne].
    exists (f x). rewrite lookup_alter_eq, Hx. split; [done|]. destruct (Hf _ Hx) as (-> & _). split; [done|]. by eapply Hph.
Qed.

(** A request moves on: it keeps the sink it had, or leaves it released. *)
Lemma inv_request own s rid r' n :
  Inv ∅ own s →
  (∀ sid, req_session r' = Some sid → is_Some (sv_sess s !! sid)) →
  (∀ sid id, r' ≠ RAdded sid id) →
  (∀ sid id, req_sink r' = Some (sid, id) → ∃ r, sv_requests s !! rid = Some r ∧ req_sink r = Some (sid, id)) →
  (∀ r sid id k, sv_requests s !! rid = Some r → req_sink r = Some (sid, id) → req_sink r' = None →
     sv_sinks s !! id = Some k → sk_released k = true) →
  (∀ r sid id, sv_requests s !! rid = Some r → req_sink r = Some (sid, id) → req_sink r' = None ∨ req_sink r' = Some (sid, id)) →
  n = count taken_req (<[rid := r']> (sv_requests s)) + count unreleased (sv_sinks s) + count over_req (<[rid := r']> (sv_requests s)) →
  count taken_req (<[rid := r']> (sv_requests s)) + count unreleased (sv_sinks s) ≤ maxLiveLogSinks →
  Inv ∅ own (set_request rid r' (with_live n s)).
Proof.
  intros HI Hs Ha Hk Hrel Hkeep Hn Hb. split; unfold held; cbn; try lia; try (by destruct HI; eauto).
  - intros j r sid. intros [[<- <-]|[_ Hj]]%lookup_insert_Some; [apply Hs|by apply (inv_session _ _ _ HI j)].
  - intros j r sid id. intros [[<- <-]|[_ Hj]]%lookup_insert_Some; [|by apply (inv_sink _ _ _ HI j)].
    intros (r0 & Hr & E)%Hk. by apply (inv_sink _ _ _ HI rid r0).
  - intros j j' r1 r2 sid sid' id H1 H2 E1 E2.
    assert (∀ i r sid, <[rid := r']> (sv_requests s) !! i = Some r → req_sink r = Some (sid, id) →
      ∃ r0, sv_requests s !! i = Some r0 ∧ req_sink r0 = Some (sid, id)) as Hold.
    { intros i r sid0 [[<- <-]|[_ Hi]]%lookup_insert_Some E; [by apply Hk|by exists r]. }
    destruct (Hold _ _ _ H1 E1) as (a & Ha1 & Ha2), (Hold _ _ _ H2 E2) as (b & Hb1 & Hb2).
    by eapply (inv_one _ _ _ HI).
  - intros id k Hid Hu. destruct (inv_answered _ _ _ HI _ _ Hid Hu) as (j & r & sid & Hj & E).
    destruct (decide (j = rid)) as [->|Hne].
    + destruct (Hkeep _ _ _ Hj E) as [E'|E'].
      * rewrite (Hrel _ _ _ _ Hj E E' Hid) in Hu. done.
      * exists rid, r', sid. by rewrite lookup_insert_eq.
    + exists j, r, sid. by rewrite lookup_insert_ne.
  - intros j sid id k [[<- E]|[_ Hj]]%lookup_insert_Some; [by destruct (Ha sid id)|]. by apply (inv_added _ _ _ HI j).
Qed.

(** ** The steps *)
Lemma same_live s : with_live (sv_liveSinks s) s = s.
Proof. by destruct s. Qed.

Lemma update_count (P : logSink → bool) m (id : nat) k k' :
  m !! id = Some k → P k = P k' → count P (<[id := k']> m) = count P m.
Proof. intros H E. rewrite (count_update _ _ _ _ _ H), E. lia. Qed.

Lemma inv_release X own s id : Inv X own s → Inv X own (release id s).
Proof.
  intros HI. unfold release. destruct (sv_sinks s !! id) as [k|] eqn:Ek; [|done]. destruct (sk_released k) eqn:Er; [done|].
  apply (inv_sinks X X own s); [done..| | | |lia].
  - intros j k' [[<- <-]|[_ Hj]]%lookup_insert_Some; [exists k; cbn; auto|]. exists k'. split_and!; auto.
    intros Hc. by eapply inv_closed.
  - intros j Hj. apply lookup_insert_is_Some'. by right.
  - rewrite (count_update _ _ _ _ _ Ek). unfold unreleased. rewrite Er. cbn. lia.
Qed.

Lemma inv_push X own s id b : Inv X own s → Inv X own (sink_push id b s).
Proof.
  intros HI. unfold sink_push. destruct (sv_sinks s !! id) as [k|] eqn:Ek; [|done]. destruct (_ <? _)%nat; [|done].
  rewrite <-(same_live (with_sinks _ s)). apply (inv_sinks X X own s); [done..| | | |cbn; lia].
  - intros j k' [[<- <-]|[_ Hj]]%lookup_insert_Some; [exists k; cbn|exists k']; split_and!; auto; intros Hc; by eapply inv_closed.
  - intros j Hj. apply lookup_insert_is_Some'. by right.
  - rewrite (update_count _ _ _ _ _ Ek) by done. cbn. lia.
Qed.

Lemma inv_weaken X Y own s : Inv X own s → X ⊆ Y → Inv Y own s.
Proof.
  intros HI HXY. assert (s = with_live (sv_liveSinks s) (with_sinks (sv_sinks s) s)) as -> by by destruct s.
  apply (inv_sinks X); [done..| | |lia|lia].
  - intros j k' Hj. exists k'. split_and!; auto. intros. by eapply inv_closed.
  - done.
Qed.

Lemma release_released id s k : sv_sinks (release id s) !! id = Some k → sk_released k = true.
Proof.
  unfold release. destruct (sv_sinks s !! id) as [k0|] eqn:E; [|by rewrite E]. destruct (sk_released k0) eqn:Er.
  - rewrite E. by intros [= <-].
  - cbn. rewrite lookup_insert_eq. by intros [= <-].
Qed.

(** Closing is releasing, then marking the channel closed. *)
Lemma finish_open id err s k :
  sv_sinks s !! id = Some k → sk_closed k = false →
  finish id err s = with_sinks (<[id := mkSink (sk_ch k) true err true]> (sv_sinks (release id s))) (release id s).
Proof.
  intros Ek Ec. unfold finish, release. rewrite Ek, Ec. cbn [sv_sinks with_sinks]. rewrite lookup_insert_eq. cbn [sk_released].
  destruct (sk_released k) eqn:Er; [done|]. cbn. by rewrite !insert_insert_eq.
Qed.

(** Finishing a sink closes and releases it; a session may still list it. *)
Lemma inv_finish X own s id err :
  Inv X own s → Inv ({[id]} ∪ X) own (finish id err s) ∧
  ∀ k, sv_sinks (finish id err s) !! id = Some k → sk_released k = true.
Proof.
  intros HI. destruct (sv_sinks s !! id) as [k|] eqn:Ek; [destruct (sk_closed k) eqn:Ec|].
  - assert (finish id err s = s) as -> by (unfold finish; by rewrite Ek, Ec). split; [apply (inv_weaken X); [done|set_solver]|].
    intros k' Hk. rewrite Ek in Hk. injection Hk as <-. by eapply inv_closed.
  - rewrite (finish_open id err s k) by done. split; [|cbn; intros k'; rewrite lookup_insert_eq; by intros [= <-]].
    pose proof (inv_release X own s id HI) as HR.
    assert (∃ k1, sv_sinks (release id s) !! id = Some k1) as [k1 Ek1].
    { apply (inv_own _ _ _ HR), (inv_own _ _ _ HI). by eexists. }
    pose proof (release_released _ _ _ Ek1) as Er1. set (s1 := release id s) in *. rewrite <-(same_live (with_sinks _ s1)).
    apply (inv_sinks X); [done|set_solver| | | |cbn; lia].
    + intros j k' [[<- <-]|[_ Hj]]%lookup_insert_Some; [exists k1; cbn; split_and!; auto; set_solver|].
      exists k'. split_and!; auto. intros. by eapply inv_closed.
    + intros j Hj. apply lookup_insert_is_Some'. by right.
    + rewrite (update_count _ _ _ _ _ Ek1); [cbn; lia|]. unfold unreleased. by rewrite Er1.
  - assert (finish id err s = s) as -> by (unfold finish; by rewrite Ek). split; [apply (inv_weaken X); [done|set_solver]|].
    by rewrite Ek.
Qed.

(** What the sink operations leave alone. *)
Lemma release_frame id s :
  sv_sess (release id s) = sv_sess s ∧ sv_requests (release id s) = sv_requests s ∧ sv_sessions (release id s) = sv_sessions s.
Proof. unfold release. destruct (sv_sinks s !! id) as [k|]; [|done]. by destruct (sk_released k). Qed.
Lemma finish_frame id err s :
  sv_sess (finish id err s) = sv_sess s ∧ sv_requests (finish id err s) = sv_requests s ∧ sv_sessions (finish id err s) = sv_sessions s.
Proof.
  unfold finish. destruct (sv_sinks s !! id) as [k|]; [|done]. destruct (sk_closed k); [done|].
  apply (release_frame id (with_sinks _ s)).
Qed.
Lemma push_frame id b s : sv_sess (sink_push id b s) = sv_sess s ∧ sv_sessions (sink_push id b s) = sv_sessions s.
Proof. unfold sink_push. destruct (sv_sinks s !! id); [|done]. by destruct (_ <? _)%nat. Qed.

Lemma finish_other id err s j : j ≠ id → sv_sinks (finish id err s) !! j = sv_sinks s !! j.
Proof.
  intros Hne. unfold finish. destruct (sv_sinks s !! id) as [k|]; [|done]. destruct (sk_closed k); [done|].
  unfold release. cbn. rewrite lookup_insert_eq. cbn. destruct (sk_released k); cbn; by rewrite !lookup_insert_ne by done.
Qed.

Lemma inv_finish_all X own s ids :
  Inv X own s → NoDup ids →
  Inv (list_to_set ids ∪ X) own (finish_all ids s) ∧ sv_sess (finish_all ids s) = sv_sess s ∧
  sv_sessions (finish_all ids s) = sv_sessions s ∧
  (∀ id k, id ∈ ids → sv_sinks (finish_all ids s) !! id = Some k → sk_released k = true) ∧
  (∀ id, id ∉ ids → sv_sinks (finish_all ids s) !! id = sv_sinks s !! id).
Proof.
  revert X s. induction ids as [|id ids IH]; intros X s HI Hnd; cbn.
  { split_and!; try done; [apply (inv_weaken X); [done|set_solver]|by intros ? ? ?%elem_of_nil]. }
  apply NoDup_cons in Hnd as [Hid Hnd]. destruct (inv_finish X own s id (Some "node disconnected") HI) as [HF Hrel].
  destruct (finish_frame id (Some "node disconnected") s) as (F1 & _ & F2).
  destruct (IH _ _ HF Hnd) as (H1 & H2 & H3 & H4 & H5). split_and!.
  - eapply inv_weaken; [exact H1|]. set_solver.
  - by etrans.
  - by etrans.
  - intros j k [->|Hj]%elem_of_cons; [|by apply H4]. change (sv_sinks (finish_all ids (finish id (Some "node disconnected") s)) !! id = Some k → sk_released k = true).
    rewrite H5 by done. apply Hrel.
  - intros j [Hne Hj]%not_elem_of_cons. change (sv_sinks (finish_all ids (finish id (Some "node disconnected") s)) !! j = sv_sinks s !! j).
    rewrite H5 by done. by apply finish_other.
Qed.

Lemma alter_twice sid f g s : alter_session sid f (alter_session sid g s) = alter_session sid (f ∘ g) s.
Proof. unfold alter_session, with_sess. cbn. by rewrite alter_alter_eq. Qed.

(** An update that neither moves a session on nor touches its logs. *)
Lemma inv_mild own s sid f :
  Inv ∅ own s → (∀ x, se_node (f x) = se_node x ∧ se_phase (f x) = se_phase x ∧ se_logs (f x) = se_logs x ∧ se_doing (f x) = se_doing x) →
  Inv ∅ own (alter_session sid f s).
Proof.
  intros HI Hf. apply (inv_alter ∅); [done| |set_solver|].
  - intros x Hx. destruct (Hf x) as (E1 & E2 & E3 & E4). unfold session_ok. rewrite E1, E3, E4. split_and!; [done|done|set_solver|done|].
    intros d Hd. rewrite E2. destruct (inv_doing _ _ _ HI _ _ _ Hx Hd) as (? & _). split_and!; [done|set_solver|by left].
  - intros node Hn x Hx. destruct (Hf x) as (_ & -> & _). destruct (inv_sessions _ _ _ HI _ _ Hn) as (y & Hy & _ & Hp). congruence.
Qed.

Lemma inv_deliver own s sid d x :
  Inv ∅ own s → sv_sess s !! sid = Some x → se_doing x = Some d → Inv ∅ own (deliver sid d s).
Proof.
  intros HI Hx Hd. destruct (inv_doing _ _ _ HI _ _ _ Hx Hd) as (Hph & Hown & _). unfold deliver.
  set (s1 := if bool_decide (dl_data d = "") then s else _).
  assert (Inv ∅ own s1 ∧ sv_sess s1 = sv_sess s) as [H1 E1].
  { unfold s1. case_bool_decide; [done|]. split; [by apply inv_push|apply push_frame]. }
  destruct (dl_eof d || _).
  - set (s2 := finish _ _ s1). destruct (inv_finish ∅ own s1 (dl_id d) (if bool_decide (dl_error d = "") then None else Some (dl_error d)) H1) as [H2 Hrel].
    fold s2 in H2, Hrel. assert (sv_sess s2 = sv_sess s) as E2 by (rewrite <-E1; apply finish_frame).
    unfold set_doing, set_logs. rewrite alter_twice. eapply inv_alter; [exact H2| | |].
    + rewrite E2. intros y Hy. rewrite Hx in Hy. injection Hy as <-. unfold session_ok. cbn. split_and!; [done|set_solver|set_solver| |done].
      intros id k Hin Hout. destruct (decide (id = dl_id d)) as [->|Hne]; [apply Hrel|]. destruct Hout.
      apply elem_of_difference. by rewrite elem_of_singleton.
    + intros j [->%elem_of_singleton|[]%elem_of_empty]%elem_of_union. done.
    + rewrite E2. intros node _ y Hy. rewrite Hx in Hy. by injection Hy as <-.
  - unfold set_doing. apply (inv_alter ∅); [done| |set_solver|].
    + intros y _. unfold session_ok. cbn. split_and!; [done|done|set_solver|done|done].
    + rewrite E1. intros node _ y Hy. rewrite Hx in Hy. by injection Hy as <-.
Qed.

Lemma inv_deregister_logs own s sid x :
  Inv ∅ own s → sv_sess s !! sid = Some x → se_phase x = Leaving → Inv ∅ own (deregister_logs sid s).
Proof.
  intros HI Hx Hph. unfold deregister_logs. rewrite Hx.
  destruct (inv_finish_all ∅ own s (elements (se_logs x)) HI (NoDup_elements _)) as (H1 & E1 & E2 & Hrel & _).
  eapply inv_alter; [exact H1| | |].
  - rewrite E1. intros y Hy. rewrite Hx in Hy. injection Hy as <-. unfold session_ok. cbn. split_and!; [done|set_solver|set_solver| |].
    + intros id k Hin _ Hk. apply (Hrel id k); [|done]. by apply elem_of_elements.
    + intros d Hd. destruct (inv_doing _ _ _ HI _ _ _ Hx Hd) as (Hp & _). by rewrite Hph in Hp.
  - intros j Hj. destruct (inv_logs _ _ _ HI _ _ j Hx) as [? _]; [set_solver|done].
  - rewrite E1, E2. intros node Hn. destruct (inv_sessions _ _ _ HI _ _ Hn) as (y & Hy & _ & Hp).
    rewrite Hx in Hy. injection Hy as <-. by rewrite Hph in Hp.
Qed.

Lemma inv_new_session own s sid node now :
  Inv ∅ own s → sv_sess s !! sid = None →
  Inv ∅ own (with_sess (<[sid := mkSession node now Receiving false ∅ None]> (sv_sess s)) s).
Proof.
  intros HI Hn. pose proof (inv_live _ _ _ HI). pose proof (inv_budget _ _ _ HI). unfold held in *.
  assert (∀ j, is_Some (sv_sess s !! j) → j ≠ sid) as Hne by (intros j [y Hy] ->; by rewrite Hn in Hy).
  split; unfold held; cbn; try lia; try (by destruct HI; eauto).
  - intros j x id [[<- <-]|[_ Hj]]%lookup_insert_Some; [by intros ?%elem_of_empty|by apply (inv_logs _ _ _ HI)].
  - intros j x d [[<- <-]|[_ Hj]]%lookup_insert_Some; [done|by apply (inv_doing _ _ _ HI)].
  - intros j r k Hr Hk. apply lookup_insert_is_Some'. right. by eapply (inv_session _ _ _ HI).
  - intros j r id k Hr Hk Hu. destruct (inv_added _ _ _ HI _ _ _ _ Hr Hk Hu) as (x & Hx & Hid). exists x.
    rewrite lookup_insert_ne; [done|]. apply not_eq_sym, Hne. by eexists.
  - intros nd j Hj. destruct (inv_sessions _ _ _ HI _ _ Hj) as (x & Hx & ?). exists x.
    rewrite lookup_insert_ne; [done|]. apply not_eq_sym, Hne. by eexists.
Qed.

(** The registry: only open handlers of the node are in it. *)
Lemma inv_with_sessions own s m :
  Inv ∅ own s → (∀ node sid, m !! node = Some sid → ∃ x, sv_sess s !! sid = Some x ∧ se_node x = node ∧ se_phase x = Receiving) →
  Inv ∅ own (with_sessions m s).
Proof. intros HI Hm. destruct HI. by split. Qed.

Lemma inv_connect own s sid node now s' :
  Inv ∅ own s → sv_sess s !! sid = None →
  register now node sid (with_sess (<[sid := mkSession node now Receiving false ∅ None]> (sv_sess s)) s) = Ok s' →
  Inv ∅ own s'.
Proof.
  intros HI Hn. pose proof (inv_new_session own s sid node now HI Hn) as H0. unfold register. cbn [sv_sessions with_sess sv_staleAfter].
  set (s0 := with_sess _ s) in *. destruct (sv_sessions s !! node) as [prev|] eqn:Ep.
  - case_bool_decide as E; [by intros [= <-]|]. destruct (_ <? _); [done|]. intros [= <-].
    assert (Inv ∅ own (cancel_session prev s0)) as H1 by (by apply inv_mild). apply inv_with_sessions; [done|].
    intros nd j [[<- <-]|[_ Hj]]%lookup_insert_Some; [|by apply (inv_sessions _ _ _ H1)]. cbn.
    exists (mkSession node now Receiving false ∅ None). by rewrite lookup_alter_ne, lookup_insert_eq.
  - intros [= <-]. apply inv_with_sessions; [done|].
    intros nd j [[<- <-]|[_ Hj]]%lookup_insert_Some; [|by apply (inv_sessions _ _ _ H0)].
    exists (mkSession node now Receiving false ∅ None). cbn. by rewrite lookup_insert_eq.
Qed.

Lemma deregister_commutes sid s node f : deregister_session node sid (alter_session sid f s) = alter_session sid f (deregister_session node sid s).
Proof. unfold deregister_session. cbn. destruct (sv_sessions s !! node) as [c|]; [|done]. by case_bool_decide. Qed.

Lemma inv_end own s sid x :
  Inv ∅ own s → sv_sess s !! sid = Some x → se_doing x = None →
  Inv ∅ own (deregister_session (se_node x) sid (stop_receiving sid s)).
Proof.
  intros HI Hx Hd. unfold stop_receiving. rewrite deregister_commutes.
  assert (Inv ∅ own (deregister_session (se_node x) sid s) ∧ sv_sess (deregister_session (se_node x) sid s) = sv_sess s ∧
    ∀ node, sv_sessions (deregister_session (se_node x) sid s) !! node ≠ Some sid) as (H1 & E1 & Hno).
  { assert (∀ node, sv_sessions s !! node = Some sid → node = se_node x) as Honly.
    { intros node Hn. destruct (inv_sessions _ _ _ HI _ _ Hn) as (y & Hy & E & _). rewrite Hx in Hy. by injection Hy as <-. }
    unfold deregister_session. destruct (sv_sessions s !! se_node x) as [c|] eqn:E.
    - case_bool_decide as Ec; [subst; split_and!; [|done|]|split_and!; [done..|]].
      + apply inv_with_sessions; [done|]. intros nd j [_ Hj]%lookup_delete_Some. by apply (inv_sessions _ _ _ HI).
      + cbn. intros nd [Hne Hj]%lookup_delete_Some. by apply Honly in Hj.
      + intros nd Hj. pose proof (Honly _ Hj) as ->. rewrite E in Hj. congruence.
    - split_and!; [done..|]. intros nd Hj. pose proof (Honly _ Hj) as ->. by rewrite E in Hj. }
  apply (inv_alter ∅); [done| |set_solver|].
  - rewrite E1. intros y Hy. rewrite Hx in Hy. injection Hy as <-. unfold session_ok. cbn. rewrite Hd.
    split_and!; [done|done|set_solver|done|done].
  - intros node Hn. by apply Hno in Hn.
Qed.

(** ** Requests *)
Lemma inv_lookup own s rid node : Inv ∅ own s → sv_requests s !! rid = None → Inv ∅ own (stream_lookup rid node s).
Proof.
  intros HI Hr. pose proof (inv_live _ _ _ HI). pose proof (inv_budget _ _ _ HI). unfold held in *.
  assert (∀ r', taken_req r' = false → over_req r' = false → req_sink r' = None →
    (∀ sid, req_session r' = Some sid → is_Some (sv_sess s !! sid)) → Inv ∅ own (set_request rid r' s)) as Hset.
  { intros r' Ht Ho Hk Hs. rewrite <-(same_live s) at 1. apply inv_request; try done.
    - intros sid id ->. done.
    - rewrite Hk. done.
    - intros r sid id k E. by rewrite Hr in E.
    - intros r sid id E. by rewrite Hr in E.
    - rewrite !count_new by done. rewrite Ht, Ho. cbn. lia.
    - rewrite !count_new by done. rewrite Ht. cbn. lia. }
  unfold stream_lookup. destruct (sv_sessions s !! node) as [sid|] eqn:E; apply Hset; try done.
  intros sid' [= <-]. destruct (inv_sessions _ _ _ HI _ _ E) as (x & Hx & _). by eexists.
Qed.

(** A request that has no sink yet moves on without one. *)
Lemma inv_move own s rid r r' n :
  Inv ∅ own s → sv_requests s !! rid = Some r → req_sink r = None → req_sink r' = None →
  (∀ sid, req_session r' = Some sid → req_session r = Some sid) →
  n = sv_liveSinks s + Z.b2z (taken_req r') + Z.b2z (over_req r') - Z.b2z (taken_req r) - Z.b2z (over_req r) →
  (taken_req r' = true → n ≤ maxLiveLogSinks) →
  Inv ∅ own (set_request rid r' (with_live n s)).
Proof.
  intros HI Hr Hk Hk' Hs Hn Hb. pose proof (inv_live _ _ _ HI). pose proof (inv_budget _ _ _ HI). unfold held in *.
  pose proof (count_nonneg over_req (<[rid := r']> (sv_requests s))) as Hpos.
  apply inv_request; try done.
  - intros sid Hsid. by eapply (inv_session _ _ _ HI), Hs.
  - intros sid id ->. done.
  - rewrite Hk'. done.
  - intros r0 sid id k E Hsink. rewrite Hr in E. injection E as <-. by rewrite Hk in Hsink.
  - intros r0 sid id E Hsink. rewrite Hr in E. injection E as <-. by rewrite Hk in Hsink.
  - rewrite !(count_update _ _ _ _ _ Hr). lia.
  - rewrite !(count_update _ _ _ _ _ Hr) in *. destruct (taken_req r') eqn:Et; cbn [Z.b2z] in *; [specialize (Hb eq_refl); lia|].
    destruct (taken_req r); cbn [Z.b2z]; lia.
Qed.

(** A request lets go of its sink, which is released by then. *)
Lemma inv_let_go own s rid r sid id :
  Inv ∅ own s → sv_requests s !! rid = Some r → req_sink r = Some (sid, id) →
  (∀ k, sv_sinks s !! id = Some k → sk_released k = true) → Inv ∅ own (set_request rid RFinished s).
Proof.
  intros HI Hr Hk Hrel. pose proof (inv_live _ _ _ HI). pose proof (inv_budget _ _ _ HI). unfold held in *.
  assert (taken_req r = false ∧ over_req r = false) as [Et Eo] by (by destruct r).
  rewrite <-(same_live s) at 1. apply inv_request; try done.
  - intros r0 sid0 id0 k E Hsink _. rewrite Hr in E. injection E as <-. rewrite Hk in Hsink. injection Hsink as <- <-. apply Hrel.
  - intros r0 sid0 id0 _ _. by left.
  - rewrite !(count_update _ _ _ _ _ Hr), Et, Eo. cbn. lia.
  - rewrite !(count_update _ _ _ _ _ Hr), Et. cbn. lia.
Qed.

(** A released sink is dropped from its session's list. *)
Lemma inv_unlog own s sid id :
  Inv ∅ own s → (∀ k, sv_sinks s !! id = Some k → sk_released k = true) → Inv ∅ own (set_logs sid (λ logs, logs ∖ {[id]}) s).
Proof.
  intros HI Hrel. apply (inv_alter ∅); [done| |set_solver|].
  - intros x Hx. unfold session_ok. cbn. split_and!; [done|set_solver|set_solver| |].
    + intros j k Hin Hout. destruct (decide (j = id)) as [->|Hne]; [apply Hrel|]. destruct Hout.
      apply elem_of_difference. by rewrite elem_of_singleton.
    + intros d Hd. destruct (inv_doing _ _ _ HI _ _ _ Hx Hd) as (? & _). split_and!; [done|set_solver|by left].
  - intros node Hn x Hx. destruct (inv_sessions _ _ _ HI _ _ Hn) as (y & Hy & _ & Hp). cbn. congruence.
Qed.

Lemma release_logs id sid f s : release id (set_logs sid f s) = set_logs sid f (release id s).
Proof. unfold release. cbn. destruct (sv_sinks s !! id) as [k|]; [|done]. by destruct (sk_released k). Qed.

(** Both ways a request lets go give its slot back. *)
Lemma inv_drop own s sid id :
  Inv ∅ own s → let s' := release id (set_logs sid (λ logs, logs ∖ {[id]}) s) in
  Inv ∅ own s' ∧ ∀ k, sv_sinks s' !! id = Some k → sk_released k = true.
Proof.
  intros HI s'. unfold s'. split; [|intros k; apply release_released]. rewrite release_logs. apply inv_unlog; [by apply inv_release|].
  intros k. apply release_released.
Qed.

Lemma inv_add own s rid sid :
  Inv ∅ own s → sv_requests s !! rid = Some (RTaken sid) →
  ∃ own', Inv ∅ own' (stream_add rid sid s) ∧ own ⊆ own'.
Proof.
  intros HI Hr. set (id := S (sv_reqSeq s)).
  assert (sv_sinks s !! id = None) as Hfresh.
  { destruct (sv_sinks s !! id) as [k|] eqn:E; [|done]. apply (inv_fresh _ _ _ HI) in E. unfold id in E. lia. }
  assert (own !! id = None) as Hown.
  { destruct (own !! id) eqn:E; [|done]. destruct (proj2 (inv_own _ _ _ HI id)) as [k Hk]; [by eexists|]. by rewrite Hfresh in Hk. }
  assert (∀ j, is_Some (own !! j) → j ≠ id) as Hne by (intros j [y Hy] ->; by rewrite Hown in Hy).
  destruct (inv_session _ _ _ HI _ _ sid Hr eq_refl) as [x0 Hx0].
  pose proof (inv_live _ _ _ HI) as Hl. pose proof (inv_budget _ _ _ HI) as Hb. unfold held in *.
  exists (<[id := sid]> own). unfold stream_add. fold id. split; [|by apply insert_subseteq].
  assert (∀ j sid', own !! j = Some sid' → <[id := sid]> own !! j = Some sid') as Hkeep.
  { intros j sid' Hj. rewrite lookup_insert_ne; [done|]. apply not_eq_sym, Hne. by eexists. }
  split; unfold held; cbn.
  - rewrite !(count_update _ _ _ _ _ Hr), (count_new _ _ _ _ Hfresh). cbn. lia.
  - rewrite !(count_update _ _ _ _ _ Hr), (count_new _ _ _ _ Hfresh). cbn. lia.
  - intros j k [[<- _]|[_ Hj]]%lookup_insert_Some; [done|]. apply (inv_fresh _ _ _ HI) in Hj. unfold id. lia.
  - intros j. rewrite !lookup_insert_is_Some', (inv_own _ _ _ HI). done.
  - intros sid' y j Hy Hj. apply alter_Some in Hy as (x & Hx & ->). case_bool_decide as E.
    + subst. cbn in Hj. apply elem_of_union in Hj as [->%elem_of_singleton|Hj].
      * rewrite !lookup_insert_eq. split; [done|]. intros _. by eexists.
      * destruct (inv_logs _ _ _ HI _ _ _ Hx Hj) as [H1 H2]. split; [by apply Hkeep|]. intros HX. destruct (H2 HX) as (k & Hk & Hc).
        exists k. rewrite lookup_insert_ne; [done|]. apply not_eq_sym, Hne. by eexists.
    + destruct (inv_logs _ _ _ HI _ _ _ Hx Hj) as [H1 H2]. split; [by apply Hkeep|]. intros HX. destruct (H2 HX) as (k & Hk & Hc).
      exists k. rewrite lookup_insert_ne; [done|]. apply not_eq_sym, Hne. by eexists.
  - intros sid' y d Hy Hd. apply alter_Some in Hy as (x & Hx & ->).
    assert (se_doing x = Some d ∧ se_phase (if bool_decide (sid' = sid) then
      mkSession (se_node x) (se_lastSeen x) (se_phase x) (se_cancelled x) ({[id]} ∪ se_logs x) (se_doing x) else x) = se_phase x) as [Hd' ->]
      by (by case_bool_decide).
    destruct (inv_doing _ _ _ HI _ _ _ Hx Hd') as (H1 & H2 & H3). split_and!; [done|by apply Hkeep|]. intros HX.
    destruct (H3 HX) as (k & Hk & Hc). exists k. rewrite lookup_insert_ne; [done|]. apply not_eq_sym, Hne. by eexists.
  - intros j k [[<- <-]|[_ Hj]]%lookup_insert_Some; [done|]. by eapply (inv_closed _ _ _ HI).
  - intros j r sid' [[<- <-]|[_ Hj]]%lookup_insert_Some E; apply alter_is_Some; [injection E as <-; by eexists|].
    by eapply (inv_session _ _ _ HI).
  - intros j r sid' i [[<- <-]|[_ Hj]]%lookup_insert_Some E; [injection E as <- <-; by rewrite lookup_insert_eq|].
    apply Hkeep. by eapply (inv_sink _ _ _ HI).
  - intros j j' r r' a b i [[<- <-]|[_ Hj]]%lookup_insert_Some [[<- <-]|[_ Hj']]%lookup_insert_Some E E'; [done| | |].
    + injection E as <- <-. apply (inv_sink _ _ _ HI _ _ _ _ Hj') in E'. by rewrite Hown in E'.
    + injection E' as <- <-. apply (inv_sink _ _ _ HI _ _ _ _ Hj) in E. by rewrite Hown in E.
    + by eapply (inv_one _ _ _ HI).
  - intros j k [[<- <-]|[_ Hj]]%lookup_insert_Some Hu.
    + exists rid, (RAdded sid id), sid. by rewrite lookup_insert_eq.
    + destruct (inv_answered _ _ _ HI _ _ Hj Hu) as (i & r & a & Hi & E). exists i, r, a. rewrite lookup_insert_ne; [done|].
      intros <-. rewrite Hr in Hi. by injection Hi as <-.
  - intros j a i k [[<- E]|[_ Hj]]%lookup_insert_Some.
    + injection E as <- <-. intros _ _. eexists. rewrite lookup_alter_eq, Hx0. split; [done|]. cbn. set_solver.
    + intros [[<- _]|[_ Hk]]%lookup_insert_Some Hu.
      * pose proof (inv_sink _ _ _ HI _ _ a _ Hj eq_refl) as E'. by rewrite Hown in E'.
      * destruct (inv_added _ _ _ HI _ _ _ _ Hj Hk Hu) as (x & Hx & Hin). destruct (decide (a = sid)) as [->|Hna].
        -- eexists. rewrite lookup_alter_eq, Hx. split; [done|]. cbn. set_solver.
        -- exists x. by rewrite lookup_alter_ne.
  - intros node a Ha. destruct (inv_sessions _ _ _ HI _ _ Ha) as (x & Hx & ? & ?). destruct (decide (a = sid)) as [->|Hna].
    + eexists. rewrite lookup_alter_eq, Hx. split; [done|]. by cbn.
    + exists x. by rewrite lookup_alter_ne.
Qed.

Lemma inv_step own s s' : Inv ∅ own s → step s s' → ∃ own', Inv ∅ own' s' ∧ own ⊆ own'.
Proof.
  intros HI Hstep.
  assert (∀ r', Inv ∅ own r' → ∃ own', Inv ∅ own' r' ∧ own ⊆ own') as Hsame by (intros; by exists own).
  destruct Hstep as [sid node now s s' Hn E| |sid now x s Hx _ _|sid d x s Hx Hp Hd|sid d x s Hx _ Hd|sid x s Hx _ Hd|sid x s Hx Hp
    |rid node s Hr|rid sid s Hr|rid s Hr|rid sid s Hr|rid sid id s Hr|rid sid id s Hr|rid sid id s Hr].
  - apply Hsame. by eapply inv_connect.
  - by apply Hsame.
  - apply Hsame. by apply inv_mild.
  - apply Hsame. unfold deliver_lookup. rewrite Hx. case_bool_decide as Hin; [|done]. unfold set_doing.
    apply (inv_alter ∅); [done| |set_solver|].
    + rewrite Hx. intros y [= <-]. unfold session_ok. cbn. split_and!; [done|done|set_solver|done|].
      intros d' [= <-]. split_and!; [done|set_solver|by right].
    + rewrite Hx. by intros node _ y [= <-].
  - apply Hsame. by eapply inv_deliver.
  - apply Hsame. by apply inv_end.
  - apply Hsame. by eapply inv_deregister_logs.
  - apply Hsame. by apply inv_lookup.
  - apply Hsame. unfold stream_take. destruct (maxLiveLogSinks <? _) eqn:E; (eapply inv_move; [done|exact Hr|done|done|done|cbn; lia|]); [done|].
    intros _. by apply Z.ltb_ge.
  - apply Hsame. eapply inv_move; [done|exact Hr|done|done|done|cbn; lia|done].
  - by apply inv_add.
  - apply Hsame. pose proof (inv_live _ _ _ HI). pose proof (inv_budget _ _ _ HI). unfold held in *.
    unfold stream_sent. rewrite <-(same_live s) at 1. apply inv_request; try done.
    + intros sid' [= <-]. by eapply (inv_session _ _ _ HI).
    + intros sid' id' [= <- <-]. by eexists.
    + intros r sid' id' E1 E2. rewrite Hr in E1. injection E1 as <-. injection E2 as <- <-. by right.
    + rewrite !(count_update _ _ _ _ _ Hr). cbn. lia.
    + rewrite !(count_update _ _ _ _ _ Hr). cbn. lia.
  - apply Hsame. unfold stream_abandon, removeLog. destruct (sv_sess s !! sid) as [x|] eqn:Hx.
    + case_bool_decide as Hin.
      * destruct (inv_drop own s sid id HI) as [H1 H2]. apply (inv_let_go _ _ rid (RAdded sid id) sid id); [done| |done|done].
        destruct (release_frame id (set_logs sid (λ logs, logs ∖ {[id]}) s)) as (_ & -> & _). exact Hr.
      * apply (inv_let_go _ _ rid (RAdded sid id) sid id); [done|done|done|]. intros k Hk. destruct (sk_released k) eqn:Er; [done|].
        destruct (inv_added _ _ _ HI _ _ _ _ Hr Hk Er) as (y & Hy & Hin'). by simplify_eq.
    + apply (inv_let_go _ _ rid (RAdded sid id) sid id); [done|done|done|]. intros k Hk. destruct (sk_released k) eqn:Er; [done|].
      destruct (inv_added _ _ _ HI _ _ _ _ Hr Hk Er) as (y & Hy & _). by simplify_eq.
  - apply Hsame. unfold stream_cancel. destruct (inv_drop own s sid id HI) as [H1 H2]. apply (inv_let_go _ _ rid (RStreaming sid id) sid id); [done| |done|done].
    destruct (release_frame id (set_logs sid (λ logs, logs ∖ {[id]}) s)) as (_ & -> & _). exact Hr.
Qed.

Lemma reach_inv s : Reach s → ∃ own, Inv ∅ own s.
Proof.
  induction 1 as [staleAfter|s s' _ [own HI] Hs].
  - exists ∅. split; unfold held; cbn; try done; try (intros; by rewrite lookup_empty in *); try (by vm_compute).
    intros id. by rewrite !lookup_empty.
  - destruct (inv_step _ _ _ HI Hs) as (own' & H & _). by exists own'.
Qed.

(** Log streams, in every interleaving of sessions and requests: at most 256 hold a slot
    at once; the counter is never below the slots held; when every request has finished no slot
    is held and the counter is back at zero; and a chunk is never written to a stream that is
    already closed (which would panic). *)
Theorem log_budget s :
  Reach s →
  held s ≤ maxLiveLogSinks ∧ held s ≤ sv_liveSinks s ∧
  ((∀ rid r, sv_requests s !! rid = Some r → r = RFinished) → held s = 0 ∧ sv_liveSinks s = 0) ∧
  (∀ sid x d, sv_sess s !! sid = Some x → se_doing x = Some d → ∃ k, sv_sinks s !! dl_id d = Some k ∧ sk_closed k = false).
Proof.
  intros [own HI]%reach_inv. pose proof (inv_live _ _ _ HI) as Hl. pose proof (count_nonneg over_req (sv_requests s)).
  split_and!; [apply (inv_budget _ _ _ HI)|lia| |].
  - intros Hall.
    assert (∀ P : Request → bool, P RFinished = false → count P (sv_requests s) = 0) as Hzero.
    { intros P HP. apply count_zero. intros k r Hr. by rewrite (Hall _ _ Hr). }
    assert (held s = 0) as Hh; [|rewrite Hl, Hh; by rewrite Hzero].
    unfold held. rewrite Hzero by done. rewrite count_zero; [done|].
    intros id k Hk. unfold unreleased. destruct (sk_released k) eqn:Er; [done|].
    destruct (inv_answered _ _ _ HI _ _ Hk Er) as (rid & r & sid & Hr & E). by rewrite (Hall _ _ Hr) in E.
  - intros sid x d Hx Hd. destruct (inv_doing _ _ _ HI _ _ _ Hx Hd) as (_ & _ & H3). by apply H3.
Qed.

(** One node, one stream, by liveness: a step leaves a node's session in place, unless
    that session's own handler is returning, or it has been silent for at least the configured
    time and is replaced by a new stream, its context cancelled. *)
Theorem session_kept s s' node sid x :
  Reach s → step s s' → sv_sessions s !! node = Some sid → sv_sess s !! sid = Some x →
  sv_sessions s' !! node = Some sid ∨
  (sv_sessions s' !! node = None ∧ ∃ x', sv_sess s' !! sid = Some x' ∧ se_phase x' = Leaving) ∨
  (∃ now sid' x', sv_sessions s' !! node = Some sid' ∧ sid' ≠ sid ∧ sv_staleAfter s ≤ time_Sub now (se_lastSeen x) ∧
     sv_sess s' !! sid = Some x' ∧ se_cancelled x' = true).
Proof.
  intros [own HI]%reach_inv Hstep Hn Hx.
  assert (∀ s', sv_sessions s' = sv_sessions s → sv_sessions s' !! node = Some sid) as Hsame by (by intros ? ->).
  destruct Hstep as [sid' node' now s s' Hnone E| |sid' now y s Hy _ _|sid' d y s Hy _ _|sid' d y s Hy _ _|sid' y s Hy _ _|sid' y s Hy _
    |rid node' s _|rid sid' s _|rid s _|rid sid' s _|rid sid' id s _|rid sid' id s _|rid sid' id s _]; try (by left; apply Hsame).
  - assert (sid' ≠ sid) as Hne by (intros ->; by rewrite Hx in Hnone). revert E. unfold register. cbn [sv_sessions with_sess sv_staleAfter].
    destruct (decide (node' = node)) as [->|Hnn].
    + rewrite Hn. case_bool_decide; [done|]. cbn [sv_sess with_sess]. rewrite lookup_insert_ne, Hx by done. cbn [from_option].
      destruct (_ <? _) eqn:Et; [done|]. intros [= <-]. right. right. apply Z.ltb_ge in Et. exists now, sid'. eexists.
      cbn. rewrite lookup_insert_eq, lookup_alter_eq, lookup_insert_ne, Hx by done. split_and!; done.
    + destruct (sv_sessions s !! node') as [p|]; [case_bool_decide; [by intros [= <-]; left|]; destruct (_ <? _); [done|]|];
        intros [= <-]; left; cbn; by rewrite lookup_insert_ne.
  - left. apply Hsame. unfold deliver_lookup. rewrite Hy. by case_bool_decide.
  - left. apply Hsame. unfold deliver. cbn. destruct (dl_eof d || _); cbn;
      repeat first [rewrite (proj2 (proj2 (finish_frame _ _ _)))|case_bool_decide|done|rewrite (proj2 (push_frame _ _ _))].
  - unfold deregister_session. cbn [sv_sessions stop_receiving alter_session with_sess].
    destruct (sv_sessions s !! se_node y) as [c|] eqn:Ec; [|by left]. case_bool_decide as E; [|by left]. subst c.
    destruct (decide (se_node y = node)) as [En|En]; [|left; cbn; by rewrite lookup_delete_ne].
    right. left. cbn. rewrite En, lookup_delete_eq. split; [done|]. rewrite En, Hn in Ec. injection Ec as <-.
    eexists. rewrite lookup_alter_eq, Hy. by split.
  - left. apply Hsame. unfold deregister_logs. rewrite Hy. cbn.
    destruct (inv_finish_all ∅ own s (elements (se_logs y)) HI (NoDup_elements _)) as (_ & _ & -> & _). done.
  - left. apply Hsame. unfold stream_lookup. by destruct (sv_sessions s !! node').
  - left. apply Hsame. unfold stream_abandon, removeLog. cbn. destruct (sv_sess s !! sid') as [y|]; [|done].
    case_bool_decide; [|done]. by destruct (release_frame id (set_logs sid' (λ logs, logs ∖ {[id]}) s)) as (_ & _ & ->).
  - left. apply Hsame. unfold stream_cancel. cbn. by destruct (release_frame id (set_logs sid' (λ logs, logs ∖ {[id]}) s)) as (_ & _ & ->).
Qed.

(** ** Two runs of the node server: witnesses, and where a session is not what it seems

    A session with a log stream; a log request that crosses a disconnection and is never told;
    and a session that was taken over and keeps receiving. *)
Module SessionDemo.
#[local] Open Scope Z_scope.

Definition arrive (sid : nat) (now : Z) (s : NodeServer) : result Z NodeServer :=
  register now "n1" sid (with_sess (<[sid := mkSession "n1" now Receiving false ∅ None]> (sv_sess s)) s).
Definition joined (sid : nat) (now : Z) (s : NodeServer) : NodeServer :=
  match arrive sid now s with Ok s' => s' | Err _ => s end.

Lemma joined_reach sid now s : Reach s → sv_sess s !! sid = None → is_ok (arrive sid now s) = true → Reach (joined sid now s).
Proof.
  intros HR Hn Hok. apply (reach_next s); [done|]. apply (st_connect sid "n1" now); [done|].
  unfold joined, arrive in *. by destruct (register _ _ _ _).
Qed.

Definition x0 : session := mkSession "n1" 0 Receiving false ∅ None.
Definition s1 : NodeServer := joined 0 0 (new_server defaultSessionStale).

Lemma s1_reach : Reach s1.
Proof. apply joined_reach; [apply reach_new|reflexivity|vm_compute; reflexivity]. Qed.

(** A log stream over the session. *)
Definition s2 : NodeServer := stream_lookup 0 "n1" s1.
Definition s3 : NodeServer := stream_take 0 0 s2.
Definition s4 : NodeServer := stream_sent 0 0 1 (stream_add 0 0 s3).

Lemma s3_reach : Reach s3.
Proof.
  apply (reach_next s2); [|apply st_take; vm_compute; reflexivity].
  apply (reach_next s1); [apply s1_reach|]. apply st_request. vm_compute. reflexivity.
Qed.

Lemma s4_reach : Reach s4.
Proof.
  apply (reach_next (stream_add 0 0 s3)); [|apply st_sent; vm_compute; reflexivity].
  apply (reach_next s3); [apply s3_reach|]. apply st_add. vm_compute. reflexivity.
Qed.

Lemma log_budget_witness : held s4 = 1 ∧ held s4 ≤ maxLiveLogSinks ∧ held s4 ≤ sv_liveSinks s4.
Proof.
  split; [vm_compute; reflexivity|]. destruct (log_budget s4 s4_reach) as (H1 & H2 & _). exact (conj H1 H2).
Defined.

Lemma session_kept_witness :
  sv_sessions (touch 0 5 s1) !! "n1" = Some 0%nat ∨
  (sv_sessions (touch 0 5 s1) !! "n1" = None ∧ ∃ x', sv_sess (touch 0 5 s1) !! 0%nat = Some x' ∧ se_phase x' = Leaving) ∨
  (∃ now sid' x', sv_sessions (touch 0 5 s1) !! "n1" = Some sid' ∧ sid' ≠ 0%nat ∧ sv_staleAfter s1 ≤ time_Sub now (se_lastSeen x0) ∧
     sv_sess (touch 0 5 s1) !! 0%nat = Some x' ∧ se_cancelled x' = true).
Proof.
  apply (session_kept s1 (touch 0 5 s1) "n1" 0 x0).
  - apply s1_reach.
  - apply (st_receive 0 5 x0); reflexivity.
  - reflexivity.
  - reflexivity.
Defined.

(** ** A stream nobody ends *)
(** The request streams from a session whose handler has returned, over a channel that is
    open and empty. *)
Definition Stranded (rid : nat) (s : NodeServer) : Prop :=
  ∃ sid id x k, sv_requests s !! rid = Some (RStreaming sid id) ∧ sv_sess s !! sid = Some x ∧ se_phase x = Gone ∧
    sv_sinks s !! id = Some k ∧ sk_closed k = false ∧ sk_ch k = [].

(** The channel of a sink, as its reader sees it. *)
Definition unread (id : nat) (s : NodeServer) : Prop := ∃ k, sv_sinks s !! id = Some k ∧ sk_closed k = false ∧ sk_ch k = [].

Lemma unread_release id j s : unread id s → unread id (release j s).
Proof.
  intros (k & Hk & Hc & Hch). unfold unread, release. destruct (sv_sinks s !! j) as [kj|] eqn:E; [|by exists k].
  destruct (sk_released kj); [by exists k|]. cbn. destruct (decide (j = id)) as [->|].
  - rewrite Hk in E. injection E as <-. eexists. rewrite lookup_insert_eq. by split_and!.
  - exists k. by rewrite lookup_insert_ne.
Qed.
Lemma unread_finish id j err s : j ≠ id → unread id s → unread id (finish j err s).
Proof. intros Hne (k & Hk). exists k. by rewrite finish_other. Qed.
Lemma unread_push id j b s : j ≠ id → unread id s → unread id (sink_push j b s).
Proof.
  intros Hne (k & Hk & ?). unfold unread, sink_push. destruct (sv_sinks s !! j) as [kj|]; [|by exists k].
  destruct (_ <? _)%nat; exists k; [|done]. cbn. by rewrite lookup_insert_ne.
Qed.

(** Only the session that owns a sink writes to it or closes it. *)
Lemma unread_step own s s' sid id x :
  Inv ∅ own s → own !! id = Some sid → sv_sess s !! sid = Some x → se_phase x = Gone → unread id s → step s s' → unread id s'.
Proof.
  intros HI Hown Hx Hph Hu Hstep.
  destruct Hstep as [sid' node' now s s' Hnone E| |sid' now y s Hy _ _|sid' d y s Hy _ _|sid' d y s Hy Hp Hd|sid' y s Hy _ _|sid' y s Hy Hp
    |rid node' s _|rid sid' s _|rid s _|rid sid' s _|rid sid' i s _|rid sid' i s _|rid sid' i s _]; try exact Hu.
  - revert E. unfold register. cbn [sv_sessions with_sess]. destruct (sv_sessions s !! node') as [p|]; [|by intros [= <-]].
    case_bool_decide; [by intros [= <-]|]. destruct (_ <? _); [done|by intros [= <-]].
  - unfold deliver_lookup. rewrite Hy. by case_bool_decide.
  - assert (dl_id d ≠ id) as Hne.
    { intros <-. destruct (inv_doing _ _ _ HI _ _ _ Hy Hd) as (H1 & H2 & _). rewrite Hown in H2. injection H2 as <-. congruence. }
    unfold deliver. set (t := if bool_decide (dl_data d = "") then s else _).
    assert (unread id t) as Ht by (unfold t; case_bool_decide; [done|by apply unread_push]).
    destruct (dl_eof d || _); [by apply (unread_finish id (dl_id d) _ t)|exact Ht].
  - unfold deregister_session. cbn. destruct (sv_sessions s !! se_node y) as [c|]; [|done]. by case_bool_decide.
  - unfold deregister_logs. rewrite Hy.
    assert (id ∉ elements (se_logs y)) as Hni.
    { intros Hin%elem_of_elements. destruct (inv_logs _ _ _ HI _ _ _ Hy Hin) as [H1 _]. rewrite Hown in H1. injection H1 as <-. congruence. }
    destruct (inv_finish_all ∅ own s (elements (se_logs y)) HI (NoDup_elements _)) as (_ & _ & _ & _ & Hkeep).
    destruct Hu as (k & Hk & ?). exists k. cbn. by rewrite Hkeep.
  - unfold stream_lookup. by destruct (sv_sessions s !! node').
  - destruct Hu as (k & Hk & ?). exists k. cbn. rewrite lookup_insert_ne; [done|]. intros <-.
    apply (inv_fresh _ _ _ HI) in Hk. lia.
  - unfold stream_abandon, removeLog. destruct (sv_sess s !! sid') as [y|]; [|done]. case_bool_decide; [|done].
    by apply (unread_release id i (set_logs sid' _ s)).
  - by apply (unread_release id i (set_logs sid' _ s)).
Qed.

Lemma alter_gone f (sid j : nat) (m : gmap nat session) (x : session) :
  m !! sid = Some x → se_phase x = Gone → (j = sid → se_phase (f x) = Gone) →
  ∃ y, alter f j m !! sid = Some y ∧ se_phase y = Gone.
Proof.
  intros Hx Hp Hf. destruct (decide (j = sid)) as [->|Hne].
  - exists (f x). rewrite lookup_alter_eq, Hx. by split; [|apply Hf].
  - exists x. by rewrite lookup_alter_ne.
Qed.

(** A handler that has returned stays so. *)
Lemma gone_step own s s' sid x :
  Inv ∅ own s → sv_sess s !! sid = Some x → se_phase x = Gone → step s s' → ∃ y, sv_sess s' !! sid = Some y ∧ se_phase y = Gone.
Proof.
  intros HI Hx Hph Hstep.
  destruct Hstep as [sid' node' now s s' Hnone E| |sid' now y s Hy _ _|sid' d y s Hy _ _|sid' d y s Hy Hp Hd|sid' y s Hy Hp _|sid' y s Hy Hp
    |rid node' s _|rid sid' s _|rid s _|rid sid' s _|rid sid' i s _|rid sid' i s _|rid sid' i s _]; try (by exists x).
  - assert (sid' ≠ sid) as Hne by (intros ->; by rewrite Hx in Hnone). revert E. unfold register. cbn [sv_sessions with_sess].
    destruct (sv_sessions s !! node') as [p|]; [|intros [= <-]; exists x; cbn; by rewrite lookup_insert_ne].
    case_bool_decide; [intros [= <-]; exists x; cbn; by rewrite lookup_insert_ne|]. destruct (_ <? _); [done|]. intros [= <-]. cbn.
    apply (alter_gone _ sid p _ x); [by rewrite lookup_insert_ne|done|done].
  - by apply (alter_gone _ sid sid' _ x).
  - unfold deliver_lookup. rewrite Hy. case_bool_decide; [by apply (alter_gone _ sid sid' _ x)|by exists x].
  - assert (sid' ≠ sid) as Hne by (intros ->; congruence). unfold deliver.
    set (t := if bool_decide (dl_data d = "") then s else _).
    assert (sv_sess t = sv_sess s) as Et by (unfold t; case_bool_decide; [done|apply push_frame]).
    destruct (dl_eof d || _); exists x; cbn; rewrite ?(proj1 (finish_frame _ _ _)), Et; by rewrite !lookup_alter_ne.
  - assert (sid' ≠ sid) as Hne by (intros ->; congruence). unfold deregister_session. cbn. exists x.
    destruct (sv_sessions s !! se_node y) as [c|]; [case_bool_decide|]; cbn; by rewrite lookup_alter_ne.
  - assert (sid' ≠ sid) as Hne by (intros ->; congruence). unfold deregister_logs. rewrite Hy. exists x. cbn.
    destruct (inv_finish_all ∅ own s (elements (se_logs y)) HI (NoDup_elements _)) as (_ & -> & _). by rewrite lookup_alter_ne.
  - unfold stream_lookup. destruct (sv_sessions s !! node'); by exists x.
  - by apply (alter_gone _ sid sid' _ x).
  - unfold stream_abandon, removeLog. cbn. destruct (sv_sess s !! sid') as [y|]; [|by exists x]. case_bool_decide; [|by exists x].
    rewrite (proj1 (release_frame _ _)). by apply (alter_gone _ sid sid' _ x).
  - unfold stream_cancel. cbn. rewrite (proj1 (release_frame _ _)). by apply (alter_gone _ sid sid' _ x).
Qed.

(** A request that is streaming stays so until its own caller cancels it. *)
Lemma streaming_step s s' rid sid id :
  sv_requests s !! rid = Some (RStreaming sid id) → step s s' →
  sv_requests s' !! rid = Some (RStreaming sid id) ∨ sv_requests s' !! rid = Some RFinished.
Proof.
  intros Hr Hstep.
  assert (∀ j r, j ≠ rid → <[j := r]> (sv_requests s) !! rid = Some (RStreaming sid id)) as Hother by (intros; by rewrite lookup_insert_ne).
  destruct Hstep as [sid' node' now s s' Hnone E| |sid' now y s Hy _ _|sid' d y s Hy _ _|sid' d y s Hy _ _|sid' y s Hy _ _|sid' y s Hy _
    |j node' s Hj|j sid' s Hj|j s Hj|j sid' s Hj|j sid' i s Hj|j sid' i s Hj|j sid' i s Hj]; try (by left);
    try (left; apply Hother; intros ->; congruence).
  - left. revert E. unfold register. cbn [sv_sessions with_sess]. destruct (sv_sessions s !! node') as [p|]; [|by intros [= <-]].
    case_bool_decide; [by intros [= <-]|]. destruct (_ <? _); [done|by intros [= <-]].
  - left. unfold deliver_lookup. rewrite Hy. by case_bool_decide.
  - left. unfold deliver. set (t := if bool_decide (dl_data d = "") then s else _).
    assert (sv_requests t = sv_requests s) as Et.
    { unfold t. case_bool_decide; [done|]. unfold sink_push. destruct (sv_sinks s !! _); [|done]. by destruct (_ <? _)%nat. }
    destruct (dl_eof d || _); cbn; rewrite ?(proj1 (proj2 (finish_frame _ _ _))), Et; done.
  - left. unfold deregister_session. cbn. destruct (sv_sessions s !! se_node y) as [c|]; [|done]. by case_bool_decide.
  - left. unfold deregister_logs. rewrite Hy. cbn. clear Hy Hother. revert s Hr. induction (elements (se_logs y)) as [|i l IH]; intros s Hr; [done|].
    cbn. apply IH. by rewrite (proj1 (proj2 (finish_frame _ _ _))).
  - left. unfold stream_lookup. destruct (sv_sessions s !! node'); apply Hother; intros ->; congruence.
  - left. unfold stream_abandon, removeLog. cbn.
    assert (j ≠ rid) as Hne by (intros ->; congruence). rewrite lookup_insert_ne by done.
    destruct (sv_sess s !! sid') as [y|]; [|done]. case_bool_decide; [|done]. by rewrite (proj1 (proj2 (release_frame _ _))).
  - unfold stream_cancel. cbn. rewrite (proj1 (proj2 (release_frame _ _))). cbn. destruct (decide (j = rid)) as [->|Hne].
    + right. by rewrite lookup_insert_eq.
    + left. by rewrite lookup_insert_ne.
Qed.

Definition s5 : NodeServer := deregister_session "n1" 0 (stop_receiving 0 s3).
Definition s6 : NodeServer := stream_sent 0 0 1 (stream_add 0 0 (deregister_logs 0 s5)).

Lemma s6_reach : Reach s6.
Proof.
  apply (reach_next (stream_add 0 0 (deregister_logs 0 s5))); [|apply st_sent; vm_compute; reflexivity].
  apply (reach_next (deregister_logs 0 s5)); [|apply st_add; vm_compute; reflexivity].
  apply (reach_next s5); [|apply (st_ended 0 (mkSession "n1" 0 Leaving true ∅ None)); reflexivity].
  apply (reach_next s3); [apply s3_reach|]. apply (st_end 0 x0); reflexivity.
Qed.

(** A request that finds the session before it is deregistered and adds its sink after is told
    nothing: such a state is reached, and no step of the server but the caller's own cancel ever
    ends it. *)
Theorem late_stream_stranded :
  (Reach s6 ∧ Stranded 0 s6) ∧
  ∀ s s' rid, Reach s → Stranded rid s → step s s' → Stranded rid s' ∨ sv_requests s' !! rid = Some RFinished.
Proof.
  split; [split; [apply s6_reach|]|].
  - exists 0%nat, 1%nat, (mkSession "n1" 0 Gone true {[1%nat]} None), (mkSink [] false None false). by split_and!.
  - intros s s' rid [own HI]%reach_inv (sid & id & x & k & Hr & Hx & Hp & Hk & Hc & Hch) Hstep.
    destruct (streaming_step _ _ _ _ _ Hr Hstep) as [Hr'|?]; [left|by right].
    destruct (gone_step _ _ _ _ _ HI Hx Hp Hstep) as (y & Hy & Hpy).
    assert (own !! id = Some sid) as Hown by by apply (inv_sink _ _ _ HI rid (RStreaming sid id)).
    destruct (unread_step _ _ _ _ _ _ HI Hown Hx Hp (ex_intro _ k (conj Hk (conj Hc Hch))) Hstep) as (k' & Hk' & ? & ?).
    exists sid, id, y, k'. by split_and!.
Qed.

(** ** A session that was taken over *)
Definition t1 : NodeServer := joined 1 defaultSessionStale s1.

(** Cancelling a session's context does not end its receive loop, which waits on the stream:
    after the takeover the silent session is still served when it speaks again. *)
Theorem superseded_session_still_receives :
  Reach t1 ∧ sv_sessions t1 !! "n1" = Some 1%nat ∧
  ∃ x, sv_sess t1 !! 0%nat = Some x ∧ se_cancelled x = true ∧ ∀ now, step t1 (touch 0 now t1).
Proof.
  split; [apply joined_reach; [apply s1_reach|reflexivity|vm_compute; reflexivity]|]. split; [reflexivity|].
  exists (mkSession "n1" 0 Receiving true ∅ None). split_and!; [reflexivity..|]. intros now.
  apply (st_receive 0 now (mkSession "n1" 0 Receiving true ∅ None)); reflexivity.
Qed.
End SessionDemo.
