(* ===== verification/ReportTheorems.v ===== *)
(** * What a node can do to the cluster by reporting

    Over any store that honours the storage contract and any chain that leaves a reported
    object alone: a node's messages change its own Node and the applications pinned to it and
    nothing else; a report of its Node carries the controller's clock, the ceilings on
    capacity and the derived labels, keeps an operator's cordon and labels, and registers a
    new machine cordoned; and an application is erased by a report only at the end of its
    deletion. *)
From stdpp Require Import gmap strings list.
From Stdlib Require Import ZArith Ascii.
From S2P Require Import Prelude Resources CoreV1 ApiObjects Uids Paths Admission AdmissionFacts Allocation References.
From S2P Require Import Store Integrity Tenancy Bolt ApiService ApiContract Guards Services DefaultChain NodeMetrics NodeReports.
#[local] Open Scope Z_scope.

(** ** What the review leaves alone *)
(** A Node as it was, an application with the same status. *)
Definition report_kept {HQ : Quantity} (o o' : Object) : Prop :=
  match o with
  | ObjNode _ => o' = o
  | ObjApplication x => ∃ y, o' = ObjApplication y ∧ app_Status y = app_Status x
  | _ => True
  end.

(** With no identity, the chain neither changes a Node nor touches an application's status. *)
Class ReportsAlone {HQ : Quantity} (chain : Lister → list Plugin) : Prop :=
  reports_alone l a a' : admit_all (chain l) None a = Ok a' → report_kept (at_Object a) (at_Object a').

(** What JSON keeps of a Node and of an application's report: every field the API reads, but
    a time to the second and a quantity up to its amount. *)
Definition seconds (t : Z) : Z := t / 1000000000 * 1000000000.

Definition same_report {HQ : Quantity} (n n' : Node) : Prop :=
  node_Name n' = node_Name n ∧ node_Labels n' = node_Labels n ∧
  node_Unschedulable n' = node_Unschedulable n ∧
  q_Value (ra_CPU (ns_Capacity (node_Status n'))) = q_Value (ra_CPU (ns_Capacity (node_Status n))) ∧
  q_Value (ra_Memory (ns_Capacity (node_Status n'))) = q_Value (ra_Memory (ns_Capacity (node_Status n))) ∧
  ns_Heartbeat (node_Status n') = seconds (ns_Heartbeat (node_Status n)) ∧
  ns_Platform (node_Status n') = ns_Platform (node_Status n) ∧
  ns_Labels (node_Status n') = ns_Labels (node_Status n).

Definition same_ledger {HQ : Quantity} (x x' : ApplicationStatus) : Prop :=
  st_Phase x' = st_Phase x ∧ st_Address x' = st_Address x ∧ st_Attempts x' = st_Attempts x ∧
  st_ObservedGeneration x' = st_ObservedGeneration x ∧ st_ExitCode x' = st_ExitCode x.

Class ReportWire {HQ : Quantity} {Body Patch : Type} (lib : Libs Body Patch) : Prop := {
  rw_node n b d x : json_Marshal lib (ObjNode n) = Ok b → scheme_Default lib nodeGVK b = Ok d →
    json_Unmarshal lib nodeGVK d = (x, None) → ∃ n', x = ObjNode n' ∧ same_report n n';
  rw_app y b d x : json_Marshal lib (ObjApplication y) = Ok b → scheme_Default lib appGVK b = Ok d →
    json_Unmarshal lib appGVK d = (x, None) →
    ∃ y', x = ObjApplication y' ∧ app_Namespace y' = app_Namespace y ∧ app_Name y' = app_Name y ∧
      same_ledger (app_Status y) (app_Status y');
}.

(** ** The modelled chains leave reports alone *)
Section Chains.
Context {HQ : Quantity}.
Implicit Types (a : Attributes).

Lemma report_kept_refl o : report_kept o o.
Proof. destruct o; simpl; eauto. Qed.
Lemma report_kept_trans o1 o2 o3 : report_kept o1 o2 → report_kept o2 o3 → report_kept o1 o3.
Proof.
  destruct o1; simpl; try done; first [by intros -> | by intros (y & -> & <-)].
Qed.

Lemma admit_all_kept c ctx a a' :
  (∀ p a a', p ∈ c → pl_Admit p ctx a = Ok a' → report_kept (at_Object a) (at_Object a')) →
  admit_all c ctx a = Ok a' → report_kept (at_Object a) (at_Object a').
Proof.
  revert a. induction c as [|p c IH]; intros a H; cbn [admit_all]; [intros [= <-]; apply report_kept_refl|].
  destruct (pl_Admit p ctx a) as [a1|] eqn:E; [|done]. intros Ha. eapply report_kept_trans.
  - eapply H; [left|exact E].
  - apply IH; [|done]. intros q b b' Hq. apply H. by right.
Qed.

Lemma hold_kept o : report_kept o (holdSetCascade (holdPlacedWorkload o)).
Proof. destruct o; simpl; try done. repeat case_match; simpl in *; simplify_eq; eauto. Qed.

Lemma finalizer_kept a a' :
  finalizerOwnership_Admit None a = Ok a' → report_kept (at_Object a) (at_Object a').
Proof.
  unfold finalizerOwnership_Admit. destruct (_ || _); intros [= <-]; [apply report_kept_refl|apply hold_kept].
Qed.
Lemma uid_kept l a a' : uidAllocation_Admit l None a = Ok a' → report_kept (at_Object a) (at_Object a').
Proof.
  unfold uidAllocation_Admit. destruct l as [l|]; [|intros [= <-]; apply report_kept_refl].
  destruct (_ || _); [intros [= <-]; apply report_kept_refl|].
  destruct (at_Object a) eqn:Eo; try (intros [= <-]; rewrite Eo; apply report_kept_refl); [done|].
  destruct (assignWorkloadID l a0) as [y|] eqn:E; [|done]. intros [= <-]. exists y. split; [done|]. revert E.
  unfold assignWorkloadID. destruct (blockOf _ _); [|done]. destruct (idr_IsZero _); [by intros [= <-]|].
  cbn [sc_RunAsUser]. destruct (sc_RunAsUser _); [by intros [= <-]|]. destruct (list_kind _ _); [|done].
  destruct (walk _ _ _) as [[]|]; by try intros [= <-].
Qed.
Lemma policy_kept a a' : policyEnforcement_Admit None a = Ok a' → report_kept (at_Object a) (at_Object a').
Proof.
  unfold policyEnforcement_Admit. case_bool_decide; [intros [= <-]; apply report_kept_refl|].
  destruct (at_Object a) eqn:Eo; intros [= <-]; try (rewrite Eo; apply report_kept_refl). simpl. eauto.
Qed.

#[export] Instance core_reports routed : ReportsAlone (core_chain routed).
Proof.
  intros l a a'. apply admit_all_kept. intros p b b' Hp. unfold core_chain in Hp.
  rewrite !elem_of_cons, elem_of_nil in Hp.
  repeat destruct Hp as [->|Hp]; cbn [pl_Admit]; unfold no_admit; try (intros [= <-]; apply report_kept_refl); try done.
  - apply finalizer_kept.
  - apply uid_kept.
  - apply policy_kept.
Qed.

Lemma untouched_kept (P : Attributes → result AdmissionError Attributes) a a' :
  (∀ n, at_Object a = ObjNode n → P a = Ok a) → (∀ x, at_Object a = ObjApplication x → P a = Ok a) →
  P a = Ok a' → report_kept (at_Object a) (at_Object a').
Proof.
  intros Hn Hx. destruct (at_Object a) eqn:E; try done; intros H;
    first [rewrite (Hx _ eq_refl) in H|rewrite (Hn _ eq_refl) in H]; injection H as <-; rewrite E; apply report_kept_refl.
Qed.

#[export] Instance default_reports `{!Netip} hash8 specHash pem_Decode ParseCertificateRequest
    `{!EqDecision ApplicationSpec} gates cidr routed :
  ReportsAlone (DefaultChain hash8 specHash pem_Decode ParseCertificateRequest gates cidr routed).
Proof.
  intros l a a'. apply admit_all_kept. intros p b b' Hp. unfold DefaultChain in Hp.
  rewrite !elem_of_cons, elem_of_nil in Hp.
  repeat destruct Hp as [->|Hp]; cbn [pl_Admit]; unfold no_admit; try (intros [= <-]; apply report_kept_refl); try done.
  - apply (untouched_kept (secretPolicy_Admit None)); unfold secretPolicy_Admit; by intros ? ->.
  - apply (untouched_kept (csrPolicy_Admit None)); unfold csrPolicy_Admit; by intros ? ->.
  - apply finalizer_kept.
  - apply uid_kept.
  - apply (untouched_kept (serviceVIP_Admit l cidr None)); unfold serviceVIP_Admit; by intros ? ->.
  - apply policy_kept.
Qed.
End Chains.

Section Reported.
Context {HQ : Quantity} {S E : Type} (st : Storage S E) (view : S → list Object) (ok : S → Prop)
  (ready : E → S → Prop) `{!StorageContract st view ok ready}.
Context (chain : Lister → list Plugin) `{!ReviewChain chain} `{!ReportsAlone chain}.
Context {Body Patch : Type} (lib : Libs Body Patch) (sch : Scheme) `{!ReportWire lib}.
Hypothesis json_kind : ∀ gvk b, gvk ∈ sch_m sch → obj_Kind (json_Unmarshal lib gvk b).1 = gvk_Kind gvk.
Context (NewQuantity : Z → Format → Qty).
(** [resource.NewQuantity] denotes the number it is given. *)
Hypothesis NewQuantity_Value : ∀ z f, q_Value (NewQuantity z f) = z.
Context (resolver : option (string → result error (list string))) (peer : result error string).

Abbreviation serve := (serve st chain lib sch).
Abbreviation ApiRun := (ApiRun st view ok ready chain lib sch).
Abbreviation applyStatus := (applyStatus NewQuantity st chain lib sch resolver peer).
Abbreviation applyAppStatus := (applyAppStatus st chain lib sch).
Abbreviation releaseTeardown := (releaseTeardown st chain lib sch).
Abbreviation handle := (handle NewQuantity st chain lib sch resolver peer).
Implicit Types (o : Object) (m : TypesMeta) (gvk : GVK) (s : S) (e : E) (n : Node) (app : Application).

(** One store call after another can be served. *)
Fixpoint ready_for (es : list E) s : Prop :=
  match es with
  | [] => True
  | e :: es => ready e s ∧ ∀ r s' x, serve None e r s = (s', x) → ready_for es s'
  end.

(** ** The three writes *)
Lemma clean_empty : clean "".
Proof. done. Qed.

Lemma decode_unmarshal gvk b o :
  decode lib sch gvk b = Ok o → ∃ d, scheme_Default lib gvk b = Ok d ∧ json_Unmarshal lib gvk d = (o, None).
Proof.
  unfold decode. case_bool_decide; [|done]. cbn [negb]. destruct (scheme_Default lib gvk b) as [d|]; [|done].
  destruct (json_Unmarshal lib gvk d) as [x [err|]] eqn:Eu; destruct (scheme_Validate lib gvk d); try done.
  intros [= <-]. eauto.
Qed.

Lemma bound_same o ns o' :
  bindNamespace o ns = Ok o' → o' = map_meta (λ mt, set_identity ns (om_Name mt) mt) o.
Proof. unfold bindNamespace. destruct (_ && _); [by destruct (bool_decide _)|]. by intros [= <-]. Qed.

(** A status report that went through: the object stored is the one that was there with the
    reviewed status. *)
Lemma status_wrote e gvk data ns s s' r :
  ok s → ready e s → clean ns → service_UpdateSubresource st chain lib sch None e gvk "status" data ns s = (s', r) →
  ok s' ∧
  match r with
  | Ok _ => ∃ o0 o w old out, decode lib sch gvk data = Ok o0 ∧
      o = map_meta (λ mt, set_identity ns (om_Name mt) mt) o0 ∧ key o = (gvk_Kind gvk, ns, obj_Name o0) ∧
      report_kept o w ∧ old ∈ view s ∧ key old = key o ∧ stamped old out ∧ same_status w out ∧
      same_members (view s') (put out (view s))
  | Err _ => same_members (view s') (view s)
  end.
Proof.
  intros Hok Hre Hcl. unfold service_UpdateSubresource.
  destruct (checkUpdate st chain lib sch None gvk data "status" ns "" s) as [w|] eqn:Ec; [|by intros [= <- <-]].
  destruct (checked_update st view ok ready chain lib sch json_kind _ _ _ _ _ _ _ _ Hok Hcl Ec)
    as (o0 & o & old0 & a & Ed & Eb & Hin & Hk & Hrev & <- & Hkey & H1 & _).
  assert (clean (obj_Namespace (at_Object a))) as Hc by (eapply clean_key; [exact Hkey|]; by eapply clean_bound).
  destruct (st_UpdateSubresource st e "status" (at_Object a) s) as [s1 res] eqn:Eu.
  destruct (ctr_status e _ s s1 res Hok Hre Hc Eu) as [Hok' Hres]. intros [= <- <-]. split; [done|].
  destruct res as [out|]; [|done]. destruct Hres as (old & Hino & Hko & Hst & Hss & Hv).
  apply (reviewed chain) in Hrev as (_ & Ha & _). apply reports_alone in Ha.
  exists o0, o, (at_Object a), old, out. split_and!; try done.
  - by apply bound_same.
  - rewrite (bind_Ok _ _ _ Eb). f_equal. f_equal. by apply decode_kind in Ed.
  - congruence.
Qed.

Lemma update_put e gvk data ns name s s' r :
  ok s → ready e s → clean ns → service_Update st chain lib sch None e gvk data ns name s = (s', r) →
  ok s' ∧
  match r with
  | Ok _ => ∃ o0 old out, decode lib sch gvk data = Ok o0 ∧ key out = (gvk_Kind gvk, ns, obj_Name o0) ∧
      old ∈ view s ∧ key old = key out ∧ same_members (view s') (put out (view s))
  | Err _ => same_members (view s') (view s)
  end.
Proof.
  intros Hok Hre Hcl. unfold service_Update.
  destruct (checkUpdate st chain lib sch None gvk data "" ns name s) as [w|] eqn:Ec; [|by intros [= <- <-]].
  destruct (checked_update st view ok ready chain lib sch json_kind _ _ _ _ _ _ _ _ Hok Hcl Ec)
    as (o0 & o & old0 & a & Ed & Eb & Hin & Hk & Hrev & <- & Hkey & H1 & _).
  assert (clean (obj_Namespace (at_Object a))) as Hc by (eapply clean_key; [exact Hkey|]; by eapply clean_bound).
  destruct (st_Update st e (at_Object a) s) as [s1 res] eqn:Eu.
  destruct (ctr_update e _ s s1 res Hok Hre Hc Eu) as [Hok' Hres]. intros [= <- <-]. split; [done|].
  destruct res as [out|]; [|done]. destruct Hres as ((old & Hino & Hko & _) & (Hks & _) & Hv).
  exists o0, old, out. split_and!; try done; [|congruence].
  rewrite Hks, Hkey, (bind_Ok _ _ _ Eb). f_equal. f_equal. by apply decode_kind in Ed.
Qed.

(** The Node a registration creates. *)
Lemma create_put e gvk data ns s s' r :
  ok s → ready e s → clean ns → service_Create st chain lib sch None e gvk data ns s = (s', r) →
  ok s' ∧
  match r with
  | Ok _ => ∃ o0 o w out, decode lib sch gvk data = Ok o0 ∧
      o = map_meta (λ mt, set_identity ns (om_Name mt) mt) o0 ∧ key o = (gvk_Kind gvk, ns, obj_Name o0) ∧
      report_kept o w ∧ key o ∉ key <$> view s ∧ stamped w out ∧ same_status w out ∧ key out = key o ∧
      same_members (view s') (put out (view s))
  | Err _ => same_members (view s') (view s)
  end.
Proof.
  intros Hok Hre Hcl. unfold service_Create.
  destruct (decode lib sch gvk data) as [o0|] eqn:Ed; [|by intros [= <- <-]].
  destruct (bindNamespace o0 ns) as [o|] eqn:Eb; [|by intros [= <- <-]].
  case_bool_decide as En; [by intros [= <- <-]|]. destruct (validIdentity _ o); [by intros [= <- <-]|].
  destruct (service_admit st chain lib sch None gvk o None Create "" s) as [w|] eqn:Ea; [|by intros [= <- <-]].
  destruct (admit_Ok st view ok ready chain lib sch _ _ _ _ _ _ _ _ Hok Ea) as (a & Hrev & <- & Hkey).
  assert (key o = (gvk_Kind gvk, ns, obj_Name o0)) as Hko.
  { rewrite (bind_Ok _ _ _ Eb). f_equal. f_equal. by apply (decode_kind lib sch json_kind) in Ed. }
  assert (clean (obj_Namespace (at_Object a))) as Hc 
    by (eapply clean_key; [exact Hkey|]; eapply clean_bound; [by rewrite Hko|done]).
  destruct (st_Create st e (at_Object a) s) as [s1 res] eqn:Ec.
  destruct (ctr_create e _ s s1 res Hok Hre Hc Ec) as [Hok' Hres]. intros [= <- <-]. split; [done|].
  destruct res as [out|]; [|done]. destruct Hres as (Hfresh & Hst & Hss & Hv). rewrite Hkey in Hfresh.
  apply (reviewed chain) in Hrev as (_ & Ha & _). apply reports_alone in Ha.
  exists o0, o, (at_Object a), out. split_and!; try done.
  - by apply bound_same.
  - destruct Hst as (-> & _). done.
Qed.

(** ** A node's own report *)
(** What the controller vouches for in a Node: its clock, the ceilings and the derivation. *)
Definition vouched (now : Z) (node : string) n : Prop :=
  node_Name n = node ∧ ns_Heartbeat (node_Status n) = seconds now ∧
  q_Value (ra_CPU (ns_Capacity (node_Status n))) ≤ MaxReportedCPU ∧
  q_Value (ra_Memory (ns_Capacity (node_Status n))) ≤ MaxReportedMemory ∧
  ns_Labels (node_Status n) = DerivedNodeLabels n.

Lemma clamp_bounds c :
  q_Value (ra_CPU (clampCapacity NewQuantity c)) ≤ MaxReportedCPU ∧
  q_Value (ra_Memory (clampCapacity NewQuantity c)) ≤ MaxReportedMemory.
Proof.
  unfold clampCapacity. cbn [ra_CPU ra_Memory]. split.
  - destruct (Z.ltb_spec MaxReportedCPU (q_Value (ra_CPU c))); [by rewrite NewQuantity_Value|done].
  - destruct (Z.ltb_spec MaxReportedMemory (q_Value (ra_Memory c))); [by rewrite NewQuantity_Value|done].
Qed.

Lemma vouched_status now node n n' :
  vouched now node n → node_Name n' = node_Name n → node_Status n' = node_Status n → vouched now node n'.
Proof.
  unfold vouched, DerivedNodeLabels. intros (H1 & H2 & H3 & H4 & H5) Hn ->. rewrite Hn. split_and!; done.
Qed.

(** A report that is the speaker's, after a trip through JSON. *)
Lemma wire_vouched now node data n x b o0 :
  own_report NewQuantity lib now node data = Ok n → x = n ∨ x = cordoned n →
  encode lib (ObjNode x) = Ok b → decode lib sch nodeGVK b = Ok o0 →
  ∃ n', o0 = ObjNode n' ∧ vouched now node n' ∧ node_Unschedulable n' = node_Unschedulable x.
Proof.
  unfold own_report. destruct (report_node lib data) as [n0|]; [|done].
  case_bool_decide as Hname; [|done]. intros [= <-] Hx. unfold encode.
  destruct (json_Marshal lib (ObjNode x)) as [b'|] eqn:Em; [|done]. intros [= ->] (d & Hd & Hu)%decode_unmarshal.
  destruct (rw_node _ _ _ _ Em Hd Hu) as (n' & -> & H1 & H2 & H3 & H4 & H5 & H6 & H7 & H8). exists n'. split; [done|].
  split; [|done]. pose proof (clamp_bounds (ns_Capacity (node_Status n0))) as [Hc Hm].
  unfold vouched, DerivedNodeLabels. rewrite H1, H4, H5, H6, H7, H8.
  assert (node_Name x = node_Name n0 ∧ node_Status x = node_Status (stamp_report NewQuantity now n0)) as [-> ->]
    by (by destruct Hx; subst x).
  by split_and!.
Qed.

Lemma kind_node o : obj_Kind o = "Node" → ∃ n, o = ObjNode n.
Proof. destruct o; intros; simplify_eq/=; eauto. Qed.

Lemma out_node n out :
  key out = key (ObjNode n) → same_status (ObjNode n) out →
  ∃ n', out = ObjNode n' ∧ node_Name n' = node_Name n ∧ node_Status n' = node_Status n.
Proof.
  intros Hk. destruct (kind_node out) as [n' ->]; [by apply key_kind in Hk|]. intros Hs. exists n'.
  apply key_names in Hk as [_ Hn]. by split_and!.
Qed.

(** What a write of the Node amounts to: the stored one keeps the operator's cordon, labels
    and holds; a new one is cordoned and passed the registration check. *)
Definition node_written (node : string) s n' : Prop :=
  (∃ n, ObjNode n ∈ view s ∧ key (ObjNode n) = ("Node", "", node) ∧
     node_Unschedulable n' = node_Unschedulable n ∧ node_Labels n' = node_Labels n ∧
     om_Finalizers (node_meta n') = om_Finalizers (node_meta n) ∧
     om_DeletionTimestamp (node_meta n') = om_DeletionTimestamp (node_meta n)) ∨
  (("Node", "", node) ∉ key <$> view s ∧ node_Unschedulable n' = true ∧
     checkRegistration resolver peer node = None).

Definition reported (now : Z) (node : string) s s' (r : result ReportError unit) : Prop :=
  match r with
  | Ok _ => ∃ n', same_members (view s') (put (ObjNode n') (view s)) ∧ key (ObjNode n') = ("Node", "", node) ∧
      vouched now node n' ∧ node_written node s n'
  | Err _ => same_members (view s') (view s)
  end.

Lemma heartbeat_reported now node data n b e s s' r :
  ok s → ready e s → own_report NewQuantity lib now node data = Ok n → encode lib (ObjNode n) = Ok b →
  service_UpdateSubresource st chain lib sch None e nodeGVK "status" b "" s = (s', r) →
  ok s' ∧ match r with
          | Ok _ => reported now node s s' (Ok tt)
          | Err _ => same_members (view s') (view s)
          end.
Proof.
  intros Hok Hre Ho Eb Hs. destruct (status_wrote _ _ _ _ _ _ _ Hok Hre clean_empty Hs) as [Hok' Hr]. split; [done|].
  destruct r as [x|]; [|done]. destruct Hr as (o0 & o & w & old & out & Ed & -> & Hk & Hw & Hin & Hko & Hst & Hss & Hv).
  destruct (wire_vouched _ _ _ _ _ _ _ Ho (or_introl eq_refl) Eb Ed) as (n0 & -> & Hvo & _). cbn in Hw. subst w.
  pose proof (proj1 Hst) as Hkout. rewrite Hko in Hkout.
  destruct (out_node _ _ Hkout Hss) as (n' & -> & Hn & Hstat). exists n'.
  assert (obj_Name (ObjNode n0) = node) as Hnode by apply Hvo. rewrite Hk, Hnode in Hkout. rewrite Hk, Hnode in Hko.
  split_and!; [done|done|by eapply vouched_status|]. left.
  destruct (kind_node old) as [n1 ->]; [by apply (f_equal (λ k, k.1.1)) in Hko|]. exists n1.
  destruct Hst as (_ & [Hu Hl] & Hf & Hd). by split_and!.
Qed.

Lemma registration_reported now node data n b e s s' r :
  ok s → ready e s → own_report NewQuantity lib now node data = Ok n → encode lib (ObjNode (cordoned n)) = Ok b →
  checkRegistration resolver peer node = None →
  service_Create st chain lib sch None e nodeGVK b "" s = (s', r) →
  ok s' ∧ match r with
          | Ok _ => reported now node s s' (Ok tt)
          | Err _ => same_members (view s') (view s)
          end.
Proof.
  intros Hok Hre Ho Eb Hreg Hs. destruct (create_put _ _ _ _ _ _ _ Hok Hre clean_empty Hs) as [Hok' Hr]. split; [done|].
  destruct r as [x|]; [|done]. destruct Hr as (o0 & o & w & out & Ed & -> & Hk & Hw & Hfresh & Hst & Hss & Hkout & Hv).
  destruct (wire_vouched _ _ _ _ _ _ _ Ho (or_intror eq_refl) Eb Ed) as (n0 & -> & Hvo & Hun). cbn in Hw. subst w.
  destruct (out_node _ _ Hkout Hss) as (n' & -> & Hn & Hstat). exists n'.
  assert (obj_Name (ObjNode n0) = node) as Hnode by apply Hvo. rewrite Hk, Hnode in Hkout, Hfresh.
  split_and!; [done|done|by eapply vouched_status|]. right. split_and!; [done| |done].
  destruct Hst as (_ & [Hu _] & _). by rewrite <-Hu.
Qed.

Lemma reported_before now node s0 s s' r : same_members (view s) (view s0) → reported now node s s' r → reported now node s0 s' r.
Proof.
  intros Hv. destruct r as [x|]; cbn [reported]; [|by intros ->]. intros (n' & Hp & Hk & Hvo & Hw). exists n'. split_and!; try done.
  - intros o. rewrite (Hp o), !put_elem. by rewrite (Hv o).
  - destruct Hw as [(n1 & Hin & Hw)|(Hf & Hw)]; [left; exists n1; split; [by apply Hv|done]|right; split; [|done]].
    intros (o & Ho & Hin)%list_elem_of_fmap. apply Hf. apply list_elem_of_fmap. exists o. split; [done|by apply Hv].
Qed.

Lemma applyStatus_reported now e1 e2 node data s s' r :
  ok s → ready_for [e1; e2] s → applyStatus now e1 e2 node data s = (s', r) → ok s' ∧ reported now node s s' r.
Proof.
  intros Hok [Hre1 Hre2]. unfold NodeReports.applyStatus.
  destruct (own_report NewQuantity lib now node data) as [n|] eqn:Eo; [|by intros [= <- <-]].
  destruct (encode lib (ObjNode n)) as [b|] eqn:Eb; [|by intros [= <- <-]].
  destruct (service_UpdateSubresource _ _ _ _ _ _ _ _ _ _ s) as [s1 r1] eqn:Es.
  destruct (heartbeat_reported _ _ _ _ _ _ _ _ _ Hok Hre1 Eo Eb Es) as [Hok1 H1].
  destruct r1 as [x|err]; [by intros [= <- <-]|]. destruct (IsNotFound err); [|by intros [= <- <-]].
  assert (ready e2 s1) as Hr2.
  { apply (Hre2 (AUpdateSubresource nodeGVK "status" b "") s1 (Some err)). cbn [ApiService.serve]. by rewrite Es. }
  unfold register_node. destruct (checkRegistration resolver peer node) eqn:Er; [by intros [= <- <-]|].
  destruct (encode lib (ObjNode (cordoned n))) as [b'|] eqn:Eb'; [|by intros [= <- <-]].
  destruct (service_Create _ _ _ _ _ _ _ _ _ s1) as [s2 r2] eqn:Ec.
  destruct (registration_reported _ _ _ _ _ _ _ _ _ Hok1 Hr2 Eo Eb' Er Ec) as [Hok2 H2]. unfold outcome. cbn [fst snd].
  intros [= <- <-]. split; [done|]. destruct r2; (eapply reported_before; [exact H1|done]).
Qed.

(** A node's report of itself that is accepted writes the Node of its own name and
    nothing else; the stored Node carries the controller's clock, at most the ceilings of
    capacity and exactly the labels derived from its platform; an existing Node keeps its
    cordon, labels, holds and deletion mark, and a Node that was not there is cordoned and
    passed the registration check.  A report that is refused changes nothing. *)
Theorem node_report_sound P now e1 e2 node data s s' r :
  ApiRun P s → ready_for [e1; e2] s → applyStatus now e1 e2 node data s = (s', r) → reported now node s s' r.
Proof.
  intros [Hok _]%(run_ok st view ok ready chain lib sch json_kind) Hre H. by eapply applyStatus_reported.
Qed.

(** ** The report of an application *)
(** Nothing but the object at [k] changed. *)
Definition off (k : string * string * string) s s' : Prop := ∀ o, key o ≠ k → o ∈ view s' ↔ o ∈ view s.

Lemma off_same k s s' : same_members (view s') (view s) → off k s s'.
Proof. by intros H o _. Qed.
Lemma off_put k o s s' : same_members (view s') (put o (view s)) → key o = k → off k s s'.
Proof. intros H <- x Hx. rewrite (H x), put_elem. split; [by intros [->|[]]|by right]. Qed.
Lemma off_trans k s1 s2 s3 : off k s1 s2 → off k s2 s3 → off k s1 s3.
Proof. intros H1 H2 o Ho. by rewrite (H2 o Ho), (H1 o Ho). Qed.

Lemma put_held o s s' : same_members (view s') (put o (view s)) → key o ∈ key <$> view s'.
Proof. intros H. apply list_elem_of_fmap. exists o. split; [done|]. apply H, put_elem. by left. Qed.
Lemma same_held k s s' : same_members (view s') (view s) → k ∈ key <$> view s → k ∈ key <$> view s'.
Proof. intros H (o & -> & Hin)%list_elem_of_fmap. apply list_elem_of_fmap. exists o. split; [done|by apply H]. Qed.

Lemma wire_app app b o0 :
  encode lib (ObjApplication app) = Ok b → decode lib sch appGVK b = Ok o0 →
  ∃ y, o0 = ObjApplication y ∧ app_Name y = app_Name app ∧ same_ledger (app_Status app) (app_Status y).
Proof.
  unfold encode. destruct (json_Marshal lib (ObjApplication app)) as [b'|] eqn:Em; [|done].
  intros [= ->] (d & Hd & Hu)%decode_unmarshal. destruct (rw_app _ _ _ _ Em Hd Hu) as (y & -> & _ & Hn & Hl). eauto.
Qed.

(** The object waits for this node alone. *)
Definition last_hold app : Prop := ∀ f, f ∈ om_Finalizers (app_meta app) → f = FinalizerNodeTeardown.

Lemma kept_last app : List.filter not_teardown (om_Finalizers (app_meta app)) = [] → last_hold app.
Proof.
  intros H f Hf. destruct (decide (f = FinalizerNodeTeardown)) as [|Hne]; [done|]. exfalso.
  assert (f ∈ List.filter not_teardown (om_Finalizers (app_meta app))) as Hin.
  { apply filter_elem. split; [done|]. unfold not_teardown. by rewrite bool_decide_eq_false_2. }
  rewrite H in Hin. by apply elem_of_nil in Hin.
Qed.

Lemma delete_off e now m s s' r :
  ok s → ready e s → clean (tm_Namespace m) → service_Delete st chain lib sch None e now m None s = (s', r) →
  ok s' ∧ off (address m) s s'.
Proof.
  intros Hok Hre Hcl Hd.
  pose proof (delete_served st view ok ready chain lib sch None e now m None s Hok Hre Hcl) as [Hok' Hs].
  rewrite Hd in Hok', Hs. cbn [fst snd] in Hok', Hs. split; [done|]. destruct r as [[]|]; [|by apply off_same].
  destruct Hs as [Hv|q w out _ _ _ Hw Hv|o _ Hw Hv]; [by apply off_same|by eapply off_put|]. cbn [within] in Hw.
  rewrite <-Hw. intros x Hx. rewrite (Hv x), erase_elem. by split; [intros []|].
Qed.

(** The release of the teardown hold touches the application alone, and erases it only when
    the node reports it gone, its deletion was asked for and no other hold is left. *)
Lemma release_off now e1 e2 m app phase s s' r :
  ok s → ready_for [e1; e2] s → clean (tm_Namespace m) → key (ObjApplication app) = address m →
  releaseTeardown now e1 e2 m app phase s = (s', r) →
  ok s' ∧ off (address m) s s' ∧
  (phase ≠ AppPhaseTerminated ∨ Deleting app = false → s' = s) ∧
  (address m ∈ key <$> view s → address m ∈ key <$> view s' ∨
     (phase = AppPhaseTerminated ∧ Deleting app = true ∧ last_hold app)).
Proof.
  intros Hok [Hre1 Hre2] Hcl Hk. unfold NodeReports.releaseTeardown.
  destruct (bool_decide_reflect (phase = AppPhaseTerminated)) as [Hp|Hp];
    [|intros [= <- <-]; split_and!; [done|by apply off_same|done|by left]].
  destruct (Deleting app) eqn:Ed; [|intros [= <- <-]; split_and!; [done|by apply off_same|done|by left]]. cbn [negb orb].
  set (kept := List.filter not_teardown _). destruct (length kept =? _)%nat;
    [intros [= <- <-]; split_and!; [done|by apply off_same|done|by left]|].
  set (app' := mkApplication _ _ _). destruct (encode lib (ObjApplication app')) as [b|] eqn:Eb;
    [|intros [= <- <-]; split_and!; [done|by apply off_same|done|by left]].
  assert (app_Namespace app' = tm_Namespace m) as Hns by (by apply (f_equal (λ k, k.1.2)) in Hk). rewrite Hns.
  destruct (service_Update st chain lib sch None e1 appGVK b (tm_Namespace m) (app_Name app') s) as [s1 r1] eqn:Eu.
  destruct (update_put _ _ _ _ _ _ _ _ Hok Hre1 Hcl Eu) as [Hok1 H1].
  destruct r1 as [x|err]; [|intros [= <- <-]; split_and!;
    [done|by apply off_same|by intros [?|?]|left; by eapply same_held]].
  destruct H1 as (o0 & old & out & Edec & Hko & _ & _ & Hv).
  destruct (wire_app _ _ _ Eb Edec) as (y & -> & Hy & _).
  assert (key out = address m) as Hkm.
  { rewrite Hko. transitivity ("Application", tm_Namespace m, app_Name app); [|by rewrite <-Hns].
    change (("Application", tm_Namespace m, app_Name y) = ("Application", tm_Namespace m, app_Name app')). by rewrite Hy. }
  assert (address m ∈ key <$> view s1) as Hheld by (rewrite <-Hkm; by eapply put_held).
  case_bool_decide as Hkept; [|intros [= <- <-]; split_and!; [done|by eapply off_put|by intros [?|?]|by left]].
  assert (ready e2 s1) as Hr2.
  { apply (proj1 (Hre2 (AUpdate appGVK b (tm_Namespace m) (app_Name app')) s1 None ltac:(cbn [ApiService.serve]; by rewrite Eu))). }
  destruct (service_Delete st chain lib sch None e2 now m None s1) as [s2 r2] eqn:Edl.
  destruct (delete_off _ _ _ _ _ _ Hok1 Hr2 Hcl Edl) as [Hok2 H2]. unfold outcome. cbn [fst snd]. intros [= <- <-].
  split_and!; [done| |by intros [?|?]|right; split_and!; [done|done|by apply kept_last]].
  eapply off_trans; [by eapply off_put|done].
Qed.

(** What a report of the application at the address of [r] leaves. *)
Definition app_reported (node : string) (r : AppStatus) s s' : Prop :=
  same_members (view s') (view s) ∨
  ∃ app, ObjApplication app ∈ view s ∧ app_NodeName app = node ∧
    key (ObjApplication app) = ("Application", as_Namespace r, as_Name r) ∧ off (key (ObjApplication app)) s s' ∧
    (key (ObjApplication app) ∈ key <$> view s' ∨
       (as_Phase r = AppPhaseTerminated ∧ Deleting app = true ∧ last_hold app)) ∧
    (as_Phase r ≠ AppPhaseTerminated ∨ Deleting app = false →
       ∃ app', same_members (view s') (put (ObjApplication app') (view s)) ∧
         key (ObjApplication app') = key (ObjApplication app) ∧ app_Spec app' = app_Spec app ∧
         om_Finalizers (app_meta app') = om_Finalizers (app_meta app) ∧
         same_ledger (reported_status r app) (app_Status app')).

Lemma status_app app x b ns e s s' r :
  ok s → ready e s → clean ns → app_Namespace app = ns → ObjApplication app ∈ view s → keyed_store (view s) →
  encode lib (ObjApplication (with_status x app)) = Ok b →
  service_UpdateSubresource st chain lib sch None e appGVK "status" b ns s = (s', Ok r) →
  ok s' ∧ ∃ app', same_members (view s') (put (ObjApplication app') (view s)) ∧
    key (ObjApplication app') = key (ObjApplication app) ∧ app_Spec app' = app_Spec app ∧
    om_Finalizers (app_meta app') = om_Finalizers (app_meta app) ∧ same_ledger x (app_Status app').
Proof.
  intros Hok Hre Hcl Hns Hin Hkeyed Eb Hs. destruct (status_wrote _ _ _ _ _ _ _ Hok Hre Hcl Hs) as [Hok' Hr]. split; [done|].
  destruct Hr as (o0 & o & w & old & out & Ed & -> & Hk & Hw & Hino & Hko & Hst & Hss & Hv).
  destruct (wire_app _ _ _ Eb Ed) as (y & -> & Hy & Hled). destruct Hw as (y' & -> & Hys).
  assert (key old = key (ObjApplication app)) as Hold.
  { rewrite Hko, Hk. change (("Application", ns, app_Name y) = ("Application", app_Namespace app, app_Name app)).
    by rewrite Hns, Hy. }
  apply (Hkeyed _ _ Hino Hin) in Hold as ->. destruct Hst as (Hkout & Hsp & Hf & _).
  destruct (kind_app out) as [app' ->]; [by apply key_kind in Hkout|]. exists app'. split_and!; try done.
  cbn in Hss. rewrite <-Hss, Hys. done.
Qed.

Lemma applyAppStatus_reported now e1 e2 e3 node r s s' res :
  ok s → keyed_store (view s) → ready_for [e1; e2; e3] s → clean (as_Namespace r) →
  applyAppStatus now e1 e2 e3 node r s = (s', res) → ok s' ∧ app_reported node r s s'.
Proof.
  intros Hok Hkeyed [Hre1 Hre2] Hcl. unfold NodeReports.applyAppStatus, service_Get, lift.
  set (m := mkTypesMeta GroupVersion "Application" (as_Namespace r) (as_Name r)).
  destruct (st_Get st m s) as [o|] eqn:Eg; [|intros [= <- <-]; split; [done|by left]].
  destruct (ctr_get s m o Hok Hcl Eg) as [Hin Hk].
  destruct o as [| |app| | | | | | | | |]; try (intros [= <- <-]; split; [done|by left]).
  destruct (bool_decide_reflect (app_NodeName app = node)) as [Hnode|]; [|intros [= <- <-]; split; [done|by left]].
  cbn [negb]. set (app1 := with_status (reported_status r app) app).
  destruct (encode lib (ObjApplication app1)) as [b|] eqn:Eb; [|intros [= <- <-]; split; [done|by left]].
  assert (app_Namespace app1 = as_Namespace r) as Hns by (by apply (f_equal (λ k, k.1.2)) in Hk). rewrite Hns.
  destruct (service_UpdateSubresource _ _ _ _ _ _ _ _ _ _ s) as [s1 [x|err]] eqn:Es.
  2:{ destruct (status_wrote _ _ _ _ _ _ _ Hok Hre1 Hcl Es) as [Hok1 H1]. intros [= <- <-]. split; [done|by left]. }
  destruct (status_app app (reported_status r app) _ _ _ _ _ _ Hok Hre1 Hcl Hns Hin Hkeyed Eb Es) as [Hok1 (app' & Hv & Hk' & Hrest)].
  assert (ready_for [e2; e3] s1) as Hr2.
  { apply (Hre2 (AUpdateSubresource appGVK "status" b (as_Namespace r)) s1 None). cbn [ApiService.serve]. by rewrite Es. }
  intros Hrel. destruct (release_off _ _ _ m app1 _ _ _ _ Hok1 Hr2 Hcl Hk Hrel) as (Hok2 & Hoff & Hsame & Hheld).
  split; [done|]. right. exists app. rewrite Hk. split_and!; try done.
  - eapply off_trans; [|exact Hoff]. eapply off_put; [exact Hv|congruence].
  - apply Hheld. rewrite <-Hk, <-Hk'. by eapply put_held.
  - intros ->%Hsame. exists app'. split_and!; try done; [congruence|apply Hrest..].
Qed.

(** A node's report on an application is taken only for one pinned to that node and
    touches no other object; short of a teardown, the stored application keeps its spec and
    holds and carries the reported phase, address, attempts and exit code; and the
    application is erased only when the node reports it terminated, its deletion was asked
    for, and the node's teardown is all it waits for. *)
Theorem app_report_sound P now e1 e2 e3 node r s s' res :
  ApiRun P s → ready_for [e1; e2; e3] s → clean (as_Namespace r) →
  applyAppStatus now e1 e2 e3 node r s = (s', res) → app_reported node r s s'.
Proof.
  intros [Hok [Hkeyed _]]%(run_ok st view ok ready chain lib sch json_kind) Hre Hcl H.
  by eapply applyAppStatus_reported.
Qed.

(** ** Every message *)
(** The namespace a message names is one path segment. *)
Definition addressed (msg : NodeMessage Body) : Prop :=
  match msg with MAppStatus r => clean (as_Namespace r) | _ => True end.

(** The objects a node may touch by speaking. *)
Definition belongs (node : string) s (k : string * string * string) : Prop :=
  k = ("Node", "", node) ∨ ∃ app, ObjApplication app ∈ view s ∧ app_NodeName app = node ∧ k = key (ObjApplication app).

Lemma off_confined k s s' :
  off k s s' → ∀ o, (o ∈ view s → key o ≠ k → o ∈ view s') ∧ (o ∈ view s' → o ∈ view s ∨ key o = k).
Proof.
  intros H o. split; [intros Hin Hk; by apply H|]. intros Hin. destruct (decide (key o = k)) as [|Hk]; [by right|].
  left. by apply (H o Hk).
Qed.

(** C19: whatever a node says, the only objects that change are its own Node and the
    applications pinned to it: every other stored object is still there as it was, and
    every object found afterwards was there or is one of those. *)
Theorem messages_confined P now e1 e2 e3 node msg s s' x x' :
  ApiRun P s → ready_for [e1; e2; e3] s → addressed msg → handle now e1 e2 e3 node msg (s, x) = (s', x') →
  ∀ o, (o ∈ view s → ~ belongs node s (key o) → o ∈ view s') ∧
       (o ∈ view s' → o ∈ view s ∨ belongs node s (key o)).
Proof.
  intros [Hok [Hkeyed _]]%(run_ok st view ok ready chain lib sch json_kind) Hre Hcl H o.
  assert (∃ k, off k s s' ∧ (belongs node s k ∨ same_members (view s') (view s))) as (k & Hoff & Hk).
  { destruct msg as [data|am|nu|r|]; cbn in H.
    - destruct (applyStatus now e1 e2 node data s) as [s1 res] eqn:Ea. injection H as <- _.
      assert (ready_for [e1; e2] s) as Hre'
        by (split; [apply Hre|]; intros r1 s2 y Hs; split; [by eapply (proj2 Hre)|done]).
      destruct (applyStatus_reported _ _ _ _ _ _ _ _ Hok Hre' Ea) as [_ Hr]. exists ("Node", "", node).
      destruct res; [|split; [by apply off_same|by right]].
      destruct Hr as (n' & Hv & Hkn & _). split; [by eapply off_put|left; by left].
    - injection H as <- _. exists ("", "", ""). split; [by apply off_same|by right].
    - injection H as <- _. exists ("", "", ""). split; [by apply off_same|by right].
    - destruct (applyAppStatus now e1 e2 e3 node r s) as [s1 res] eqn:Ea. injection H as <- _.
      destruct (applyAppStatus_reported _ _ _ _ _ _ _ _ _ Hok Hkeyed Hre Hcl Ea) as [_ [Hr|(app & Hin & Hn & Hk & Hr & _)]].
      + exists ("", "", ""). split; [by apply off_same|by right].
      + exists (key (ObjApplication app)). split; [done|]. left. right. by exists app.
    - injection H as <- _. exists ("", "", ""). split; [by apply off_same|by right]. }
  destruct (off_confined _ _ _ Hoff o) as [H1 H2]. split.
  - intros Hin Hb. destruct Hk as [Hk|Hv]; [|by apply Hv]. apply H1; [done|]. by intros Heq; rewrite Heq in Hb.
  - intros Hin. destruct Hk as [Hk|Hv]; [|left; by apply Hv]. destruct (H2 Hin) as [|Heq]; [by left|right; by rewrite Heq].
Qed.
End Reported.

(** ** A node that reports: witnesses of the report theorems

    A namespace, a node and an application pinned to it are created through the API; the node
    reports itself with an absurd capacity, reports its application, and ends a deletion.
    The last section exhibits what a first registration lets through. *)
From S2P Require Import AdmissionDemo BoltService.
Module ReportDemo.
Import ApiDemo.
Import NanoQuantity.
#[local] Open Scope Z_scope.
Definition report_sch : Scheme :=
  mkScheme {[("horchestra.io", "v1", "Namespace"); ("horchestra.io", "v1", "Application"); nodeGVK]} ∅.

Definition blank_status : NodeStatus :=
  mkNodeStatus ra_zero ra_zero "" "" false 0 [] (mkPlatform "" "") false ∅.
Definition blank_node : Node := mkNode zero_meta false blank_status.

(** A body is the object it encodes, a heartbeat to the second. *)
Definition report_Marshal (o : Object) : result error Object :=
  Ok match o with
     | ObjNode n =>
         let x := node_Status n in
         ObjNode (mkNode (node_meta n) (node_Unschedulable n)
           (mkNodeStatus (ns_Capacity x) (ns_Allocated x) (ns_OS x) (ns_IP x) (ns_Ready x) (seconds (ns_Heartbeat x))
              (ns_Runtimes x) (ns_Platform x) (ns_RoutedNetwork x) (ns_Labels x)))
     | _ => o
     end.

Definition report_Unmarshal (gvk : GVK) (b : Object) : Object * option error :=
  if bool_decide (obj_Kind b = gvk_Kind gvk) then (b, None)
  else (if bool_decide (gvk_Kind gvk = "Namespace") then demo_ns "" ∅
        else if bool_decide (gvk_Kind gvk = "Node") then ObjNode blank_node else ObjApplication (demo_app "" "" None),
        Some "type mismatch").

Lemma report_json_kind gvk b : gvk ∈ sch_m report_sch → obj_Kind (report_Unmarshal gvk b).1 = gvk_Kind gvk.
Proof.
  unfold report_Unmarshal. case_bool_decide; [done|]. simpl. rewrite !elem_of_union, !elem_of_singleton.
  by intros [[->| ->]| ->].
Qed.

Definition report_lib : Libs Object unit :=
  mkLibs (λ _, Ok ("horchestra.io", "v1")) gk_of (λ _, []) (λ _, []) report_Marshal report_Unmarshal (λ _ p, Ok p)
    (λ _, Err "not a patch") (λ _, 0%nat) (λ _ b, Ok b) (λ _ b, Ok b) (λ _ _, []).

#[export] Instance report_wire : ReportWire report_lib.
Proof.
  split.
  - intros n b d x [= <-] [= <-] [= <-]. eexists. split; [reflexivity|]. by split_and!.
  - intros y b d x [= <-] [= <-] [= <-]. eexists. split; [reflexivity|]. by split_and!.
Qed.

Definition demo_NewQuantity (z : Z) (_ : Format) : Qty := unit_ z.
Lemma demo_NewQuantity_Value z f : q_Value (demo_NewQuantity z f) = z.
Proof.
  change (- (- (z * 1000000000) / 1000000000) = z). rewrite <-Z.mul_opp_l, Z.div_mul by done. lia.
Qed.

(** ** A cluster *)
Abbreviation report_serve := (serve ref_storage (core_chain false) report_lib report_sch).
Abbreviation report_Run :=
  (ApiRun ref_storage id (λ _, True) (λ _ _, True) (core_chain false) report_lib report_sch (λ _ _, True)).

Definition demo_node (name : string) (labels : gmap string string) (cpu : Z) : Node :=
  mkNode (mkObjectMeta "" name "" "" 1 labels ∅ 10 None [] []) false
    (mkNodeStatus (mkAmounts (unit_ cpu) (unit_ 8)) ra_zero "" "" true 0 [] (mkPlatform "linux" "amd64") false ∅).

Definition pinned (name node : string) : Object :=
  ObjApplication (mkApplication (meta "red" name ∅) (demo_spec node 1 None []) (mkAppStatus 0 "" "" "" None 0 0)).

Definition report_requests : list (ApiRequest (Body := Object)) :=
  [ACreate ns_gvk (demo_ns "red" ∅) "";
   ACreate nodeGVK (ObjNode (demo_node "n1" ∅ 8)) "";
   ACreate app_gvk (pinned "web" "n1") "red"].

Definition cluster : RefState := foldl (λ s r, (report_serve None "uid" r s).1) [] report_requests.
Definition deletion : ApiRequest (Body := Object) := ADelete 77 (app_at "red" "web") None.
Definition ending : RefState := (report_serve None "uid" deletion cluster).1.

Lemma report_step r s : report_Run s → route r → report_Run (report_serve None "uid" r s).1.
Proof.
  intros H Hr. apply (run_serve _ _ _ _ _ _ _ _ None "uid" r s _ (report_serve None "uid" r s).2); try done.
  apply surjective_pairing.
Qed.

Lemma cluster_run : report_Run cluster.
Proof.
  unfold cluster, report_requests. cbn [foldl].
  apply report_step; [apply report_step; [apply report_step|..]|..].
  - by apply run_init.
  - by split.
  - by split.
  - split; [reflexivity|]. intros H. exfalso. apply H. decided.
Qed.
Lemma ending_run : report_Run ending.
Proof. apply report_step; [apply cluster_run|reflexivity]. Qed.

Lemma always_ready es s :
  ready_for ref_storage (λ _ _, True) (core_chain false) report_lib report_sch es s.
Proof. revert s. induction es as [|e es IH]; intros s; [done|]. split; [done|]. intros r s' x _. apply IH. Qed.

(** ** The reports *)
Abbreviation demo_applyStatus :=
  (applyStatus demo_NewQuantity ref_storage (core_chain false) report_lib report_sch None (Err "no peer")).
Abbreviation demo_applyAppStatus := (applyAppStatus ref_storage (core_chain false) report_lib report_sch).

(** The node claims a hundred thousand cores. *)
Definition boast : Object := ObjNode (demo_node "n1" ∅ 100000).
Definition boasted : RefState := (demo_applyStatus 5000000000 "uid" "uid" "n1" boast cluster).1.

Lemma node_report_sound_witness :
  (demo_applyStatus 5000000000 "uid" "uid" "n1" boast cluster).2 = Ok tt ∧
  reported id None (Err "no peer") 5000000000 "n1" cluster boasted (demo_applyStatus 5000000000 "uid" "uid" "n1" boast cluster).2.
Proof.
  split; [vm_compute; reflexivity|].
  apply (node_report_sound ref_storage id (λ _, True) (λ _ _, True) (core_chain false) report_lib report_sch report_json_kind
    demo_NewQuantity demo_NewQuantity_Value None (Err "no peer") (λ _ _, True) 5000000000 "uid" "uid" "n1" boast).
  - apply cluster_run.
  - apply always_ready.
  - apply surjective_pairing.
Defined.

Definition gone_report (phase : string) : AppStatus := mkReportedStatus "red" "web" 1 phase "" "" 0 0 0.
Definition torn_down : RefState := (demo_applyAppStatus 99 "uid" "uid" "uid" "n1" (gone_report AppPhaseTerminated) ending).1.

(** The application is gone once its node reports it terminated. *)
Lemma app_report_sound_witness :
  ("Application", "red", "web") ∈ key <$> ending ∧ ("Application", "red", "web") ∉ key <$> torn_down ∧
  app_reported id "n1" (gone_report AppPhaseTerminated) ending torn_down.
Proof.
  split; [decided|]. split; [decided|].
  apply (app_report_sound ref_storage id (λ _, True) (λ _ _, True) (core_chain false) report_lib report_sch report_json_kind
    (λ _ _, True) 99 "uid" "uid" "uid" "n1" (gone_report AppPhaseTerminated) ending torn_down
    (demo_applyAppStatus 99 "uid" "uid" "uid" "n1" (gone_report AppPhaseTerminated) ending).2).
  - apply ending_run.
  - apply always_ready.
  - reflexivity.
  - apply surjective_pairing.
Defined.

Abbreviation demo_handle :=
  (handle demo_NewQuantity ref_storage (core_chain false) report_lib report_sch None (Err "no peer")).
Definition other_report : NodeMessage Object := MAppStatus (gone_report AppPhaseTerminated).
Definition after_foreign : RefState * metricsStore := demo_handle 99 "uid" "uid" "uid" "n2" other_report (ending, newMetricsStore).

(** A node speaking of another node's application changes nothing. *)
Lemma messages_confined_witness : ObjApplication (stored "red" ending) ∈ after_foreign.1.
Proof.
  apply (messages_confined ref_storage id (λ _, True) (λ _ _, True) (core_chain false) report_lib report_sch report_json_kind
    demo_NewQuantity demo_NewQuantity_Value None (Err "no peer") (λ _ _, True) 99 "uid" "uid" "uid" "n2" other_report
    ending after_foreign.1 newMetricsStore after_foreign.2).
  - apply ending_run.
  - apply always_ready.
  - reflexivity.
  - apply surjective_pairing.
  - apply stored_elem. vm_compute. reflexivity.
  - intros [H|(app & Hin & Hn & _)]; [by apply (f_equal (λ k, k.1.1)) in H|]. revert Hin Hn. unfold id.
    assert (forallb (λ o, match o with ObjApplication a => negb (bool_decide (app_NodeName a = "n2")) | _ => true end) ending = true)
      as Hall by (vm_compute; reflexivity).
    intros Hin%list_elem_of_In Hn. rewrite forallb_forall in Hall. specialize (Hall _ Hin). cbv beta iota in Hall.
    rewrite (bool_decide_eq_true_2 _ Hn) in Hall. discriminate Hall.
Defined.

(** ** What a first registration lets through *)
Definition node_at (name : string) (s : RefState) : Node :=
  match at_key ("Node", "", name) s with Some (ObjNode n) => n | _ => blank_node end.

(** A new machine is cordoned, but the labels it sends in its metadata are stored: they are
    the ones placement rules read, beside the derived ones. *)
Theorem registration_keeps_labels :
  let s := (demo_applyStatus 5000000000 "uid" "uid" "n9" (ObjNode (demo_node "n9" {["pool" := "gpu"]} 8)) cluster).1 in
  node_Unschedulable (node_at "n9" s) = true ∧ SchedulingLabel (node_at "n9" s) "pool" = Some "gpu".
Proof. vm_compute. split; reflexivity. Qed.

(** A name answers for a host at whole labels only. *)
Example covers_labels :
  nameCoversPTR "n1" "n1.rack2.example.org." = true ∧ nameCoversPTR "n1.rac" "n1.rack2.example.org." = false ∧
  nameCoversPTR "N1.Rack2" "n1.rack2.example.org" = true ∧ nameCoversPTR "" "n1" = false.
Proof. by vm_compute. Qed.
End ReportDemo.
