(* ===== verification/Workload.v ===== *)
(** * The node's view of a workload (agent/workload)

    The projection of a pushed Application, the mounts the volume mechanism resolves, what a
    runtime reports holding, and the ids a workload has on the host. *)
From stdpp Require Import gmap strings list.
From Stdlib Require Import ZArith Ascii.
From S2P Require Import Prelude Resources CoreV1 ApiObjects Uids DesiredState.
Import GoInt.
#[local] Open Scope Z_scope.

(** ** workload.go *)
Section Workload.
Context {HQ : Quantity}.

Record App := mkApp {
  wa_UID : string;
  wa_Name : string;
  wa_Namespace : string;
  wa_Generation : Z;
  wa_Node : string;
  wa_Image : string;
  wa_Command : list string;
  wa_Args : list string;
  wa_Requests : ResourceAmounts;
  wa_Limits : ResourceAmounts;
  wa_Env : list string;
  wa_EnvRefs : list EnvVar;
  wa_SecretEnv : list string;
  wa_Lifecycle : Lifecycle;
  wa_Attempts : Z;
  wa_Deleting : bool;
  wa_SecurityContext : option SecurityContext;
  wa_Volumes : list VolumeMount;
  wa_Tokens : gmap string string;
  wa_HostNetwork : bool;
  wa_Address : string;
  wa_Gateway : string;
  wa_MTU : Z;
}.

Definition with_tokens (t : gmap string string) (a : App) : App :=
  mkApp (wa_UID a) (wa_Name a) (wa_Namespace a) (wa_Generation a) (wa_Node a) (wa_Image a) (wa_Command a) (wa_Args a)
    (wa_Requests a) (wa_Limits a) (wa_Env a) (wa_EnvRefs a) (wa_SecretEnv a) (wa_Lifecycle a) (wa_Attempts a)
    (wa_Deleting a) (wa_SecurityContext a) (wa_Volumes a) t (wa_HostNetwork a) (wa_Address a) (wa_Gateway a) (wa_MTU a).
Definition with_network (addr gw : string) (mtu : Z) (a : App) : App :=
  mkApp (wa_UID a) (wa_Name a) (wa_Namespace a) (wa_Generation a) (wa_Node a) (wa_Image a) (wa_Command a) (wa_Args a)
    (wa_Requests a) (wa_Limits a) (wa_Env a) (wa_EnvRefs a) (wa_SecretEnv a) (wa_Lifecycle a) (wa_Attempts a)
    (wa_Deleting a) (wa_SecurityContext a) (wa_Volumes a) (wa_Tokens a) (wa_HostNetwork a) addr gw mtu.
Definition with_secret_env (env : list string) (a : App) : App :=
  mkApp (wa_UID a) (wa_Name a) (wa_Namespace a) (wa_Generation a) (wa_Node a) (wa_Image a) (wa_Command a) (wa_Args a)
    (wa_Requests a) (wa_Limits a) (wa_Env a) (wa_EnvRefs a) env (wa_Lifecycle a) (wa_Attempts a)
    (wa_Deleting a) (wa_SecurityContext a) (wa_Volumes a) (wa_Tokens a) (wa_HostNetwork a) (wa_Address a)
    (wa_Gateway a) (wa_MTU a).

(** [App.ID]. *)
Definition wa_ID (a : App) : string := wa_UID a.

(** [EnvVar.IsSecret]. *)
Definition env_IsSecret (v : EnvVar) : bool := match ev_SecretRef v with Some _ => true | None => false end.

(** [envStrings] and [envRefs]. *)
Definition envStrings (vars : list EnvVar) : list string :=
  (λ v, ev_Name v +:+ "=" +:+ ev_Value v) <$> List.filter (λ v, negb (env_IsSecret v)) vars.
Definition envRefs (vars : list EnvVar) : list EnvVar := List.filter env_IsSecret vars.

(** [FromApplication]. *)
Definition FromApplication (it : Application) : App :=
  let spec := app_Spec it in
  mkApp (om_UID (app_meta it)) (app_Name it) (app_Namespace it) (om_Generation (app_meta it)) (app_NodeName it)
    (sp_Image spec) (sp_Command spec) (sp_Args spec) (rr_Requests (sp_Resources spec)) (rr_Limits (sp_Resources spec))
    (envStrings (sp_Env spec)) (envRefs (sp_Env spec)) [] (sp_Lifecycle spec) (st_Attempts (app_Status it))
    (Deleting it) (sp_SecurityContext spec) (sp_Volumes spec) ∅ (OnHostNetwork it) "" "" 0.

(** [App.EffectiveRequests]. *)
Definition wa_EffectiveRequests (a : App) : ResourceAmounts :=
  EffectiveRequests (mkRequirements (wa_Requests a) (wa_Limits a)).

(** ** Volumes *)
Inductive VolumeKind := VolumeHostPath | VolumeBlockDevice | VolumeImage | VolumeTmpfs | VolumeSecret.
Record Volume := mkVolume {
  vo_Kind : VolumeKind;
  vo_Ref : string;
  vo_MountPath : string;
  vo_FsType : string;
  vo_Size : string;
  vo_ReadOnly : bool;
  vo_Content : gmap string (list ascii);
}.

(** ** state.go and usage.go *)
(** A finish time of [0] is the zero time. *)
Record State := mkState {
  ws_ID : string;
  ws_Phase : string;
  ws_ExitCode : Z;
  ws_FinishedAt : Z;
  ws_Attempts : Z;
  ws_Reason : string;
}.
Definition state0 : State := mkState "" "" 0 0 0 "".

Record Usage := mkUsage {
  us_CPUUsec : Z; us_CPUThrottledUsec : Z; us_MemoryBytes : Z; us_MemoryPeakBytes : Z;
  us_PIDs : Z; us_OOMKills : Z; us_At : Z;
}.
End Workload.

(** ** ids.go *)
Definition Slots : Z := 4096.

(** [floorMod]; Go's [%] truncates. *)
Definition floorMod (n m : Z) : Z :=
  if m <=? 0 then 0
  else let r := Z.rem n m in if r <? 0 then r + m else r.

(** [HostID] and [AgentID]. *)
Definition HostID (sub : IDRange) (id : Z) : Z :=
  let slots := Z.min Slots (Z.quot (idr_Size sub) 2) in
  wrap64 (idr_Min sub + (idr_Size sub - slots) + floorMod id slots).
Definition AgentID (sub : IDRange) (id : Z) : Z := wrap64 (HostID sub id - idr_Min sub + 1).

Lemma floorMod_mod n m : 0 < m → floorMod n m = n mod m.
Proof.
  intros Hm. unfold floorMod. destruct (Z.leb_spec m 0); [lia|].
  destruct (Z.ltb_spec (Z.rem n m) 0) as [Hr|Hr].
  - apply (Z.mod_unique_pos _ _ (Z.quot n m - 1)); [|pose proof (Z.quot_rem n m); lia].
    pose proof (Z.rem_bound_abs n m). lia.
  - apply (Z.mod_unique_pos _ _ (Z.quot n m)); [|pose proof (Z.quot_rem n m); lia].
    pose proof (Z.rem_bound_abs n m). lia.
Qed.

(** A subordinate range as /etc/subuid grants it. *)
Definition usable_range (sub : IDRange) : Prop :=
  0 ≤ idr_Min sub ∧ 2 ≤ idr_Size sub ∧ idr_Min sub + idr_Size sub ≤ max_int64.

Definition slots_of (sub : IDRange) : Z := Z.min Slots (idr_Size sub / 2).

Lemma HostID_eq sub id :
  usable_range sub → HostID sub id = idr_Min sub + idr_Size sub - slots_of sub + id mod slots_of sub.
Proof.
  intros (H1 & H2 & H3). unfold HostID, slots_of. rewrite Z.quot_div_nonneg by lia.
  assert (0 < Z.min Slots (idr_Size sub / 2)) as Hs.
  { unfold Slots. pose proof (Z.div_le_lower_bound (idr_Size sub) 2 1). lia. }
  rewrite floorMod_mod by done. pose proof (Z.mod_pos_bound id _ Hs).
  assert (idr_Size sub / 2 ≤ idr_Size sub) by (apply Z.div_le_upper_bound; lia).
  rewrite wrap64_id; [lia|]. unfold is_int64, min_int64, max_int64 in *. lia.
Qed.

(** The id a workload has on the host lies in the node's own subordinate range, in the part
    kept for identities, whatever id it runs under inside; two workloads share one only when
    their ids agree modulo the number of slots; and the id the agent chowns to is that same
    identity, seen from its own namespace. *)
Theorem HostID_confined sub id id' :
  usable_range sub →
  idr_Min sub + idr_Size sub - slots_of sub ≤ HostID sub id < idr_Min sub + idr_Size sub ∧
  (HostID sub id = HostID sub id' ↔ id mod slots_of sub = id' mod slots_of sub) ∧
  AgentID sub id = HostID sub id - idr_Min sub + 1 ∧ 1 ≤ AgentID sub id ≤ idr_Size sub.
Proof.
  intros Hu. rewrite !HostID_eq by done. pose proof Hu as (H1 & H2 & H3). unfold AgentID. rewrite HostID_eq by done.
  assert (0 < slots_of sub ≤ idr_Size sub) as Hs.
  { unfold slots_of, Slots. pose proof (Z.div_le_lower_bound (idr_Size sub) 2 1).
    assert (idr_Size sub / 2 ≤ idr_Size sub) by (apply Z.div_le_upper_bound; lia). lia. }
  pose proof (Z.mod_pos_bound id (slots_of sub)). pose proof (Z.mod_pos_bound id' (slots_of sub)).
  rewrite wrap64_id by (unfold is_int64, min_int64, max_int64 in *; lia). lia.
Qed.

Lemma HostID_confined_witness : 585728 ≤ HostID (mkIDRange 524288 65536) 1000000000 < 589824.
Proof.
  apply (HostID_confined (mkIDRange 524288 65536) 1000000000 0). split; [|split]; vm_compute; discriminate.
Defined.
