(* ===== verification/Agent.v ===== *)
(** * The node agent (agent/agent.go, agent/reconcile.go)

    What a node does with the state it was pushed: decode it, choose the applications that
    are its own, provision volumes, materialise secrets, converge each workload through the
    runtime, tear down what is no longer wanted, and report.

    The runtime, the volumes, the secrets and the network are the agent's ports: a record of
    operations ([Ports]) over whatever state the node has.  A pass keeps a log of what it asked
    of the runtime.  Go ranges over a map in any order, so a pass takes the order as an
    argument. *)
From stdpp Require Import gmap strings list.
From Stdlib Require Import ZArith Ascii.
From S2P Require Import Prelude Resources CoreV1 ApiObjects DesiredState NodeMetrics NodeReports Workload.
#[local] Open Scope Z_scope.

(** ** The ports *)
(** netdapi.StatusResponse, the bits the agent reads. *)
Record NetStatus := mkNetStatus { nst_RoutedNetwork : bool; nst_Datapath : bool }.

Record Ports {HQ : Quantity} (N : Type) := mkPorts {
  rt_Name : string;
  rt_Apply : App → list Volume → N → N * option error;
  rt_Remove : string → Z → N → N * option error;
  (** What the runtime lists, and whether the listing failed. *)
  rt_States : N → list State * option error;
  rt_Metrics : string → N → result error Usage;
  vo_Provision : gmap string PersistentVolume → N → N * option error;
  vo_Fits : App → gmap string PersistentVolume → bool;
  vo_Resolve : App → gmap string PersistentVolume → N → N * result error (list Volume);
  vo_Reclaim : gset string → gmap string App → N → N * option error;
  se_Materialize : App → list Secret → list SecretStore → N → N * result error (list Volume);
  se_MaterializeEnv : App → list Secret → list SecretStore → N → N * result error (list string);
  (** The optional capability [Stale], by workload id. *)
  se_StaleApps : N → gmap string Z;
  (** A node may have no network helper. *)
  nw_present : bool;
  nw_Status : N → result error NetStatus;
  nw_Configure : list Route → list ServiceRule → N → N * option error;
  nw_GC : list string → N → N * option error;
}.
Arguments rt_Name {HQ N}.
Arguments rt_Apply {HQ N}.
Arguments rt_Remove {HQ N}.
Arguments rt_States {HQ N}.
Arguments rt_Metrics {HQ N}.
Arguments vo_Provision {HQ N}.
Arguments vo_Fits {HQ N}.
Arguments vo_Resolve {HQ N}.
Arguments vo_Reclaim {HQ N}.
Arguments se_Materialize {HQ N}.
Arguments se_MaterializeEnv {HQ N}.
Arguments se_StaleApps {HQ N}.
Arguments nw_present {HQ N}.
Arguments nw_Status {HQ N}.
Arguments nw_Configure {HQ N}.
Arguments nw_GC {HQ N}.
Arguments mkPorts {HQ N}.

(** ** The state pushed *)
Record desired {HQ : Quantity} := mkDesiredState {
  de_apps : list Application;
  de_pvs : list PersistentVolume;
  de_secrets : list Secret;
  de_stores : list SecretStore;
  de_tokens : gmap string (gmap string string);
  de_networks : gmap string WorkloadNetwork;
  de_routes : list Route;
  de_services : list ServiceRule;
}.
Arguments mkDesiredState {HQ}.

Inductive ConvergeError :=
| EProvision (e : error)
| ETearDown (id : string) (e : error)
| EResolve (id : string) (e : error)
| EMaterialize (id : string) (e : error)
| EMaterializeEnv (id : string) (e : error)
| EConverge (id : string) (e : error)
| EReclaim (e : error)
| ENetworkGC (e : error).

Section Agent.
Context {HQ : Quantity}.

(** json.Unmarshal into each kind. *)
Record Decoder (Body : Type) := mkDecoder {
  un_app : Body → result error Application;
  un_pv : Body → result error PersistentVolume;
  un_secret : Body → result error Secret;
  un_store : Body → result error SecretStore;
}.
Arguments un_app {Body}.
Arguments un_pv {Body}.
Arguments un_secret {Body}.
Arguments un_store {Body}.

(** The bodies that decode. *)
Definition decoded {Body A} (f : Body → result error A) (bs : list Body) : list A :=
  omap (λ b, match f b with Ok a => Some a | Err _ => None end) bs.

(** [decodeDesired]. *)
Definition decodeDesired {Body} (un : Decoder Body) (d : Desired Body) : desired :=
  mkDesiredState
    (decoded (un_app un) (ds_Applications d)) (decoded (un_pv un) (ds_PersistentVolumes d))
    (decoded (un_secret un) (ds_Secrets d)) (decoded (un_store un) (ds_SecretStores d))
    (foldl (λ m t, <[wt_Workload t := <[wt_Audience t := wt_Token t]> (default ∅ (m !! wt_Workload t))]> m)
       ∅ (ds_WorkloadTokens d))
    (foldl (λ m n, <[wn_Workload n := n]> m) ∅ (ds_WorkloadNetworks d))
    (ds_Routes d) (ds_Services d).

(** [appsForNode]. *)
Definition appsForNode (apps : list App) (node : string) : gmap string App :=
  foldl (λ want a,
    if negb (bool_decide (wa_Node a = node)) then want
    else if bool_decide (wa_ID a = "") then want
    else <[wa_ID a := a]> want) ∅ apps.

(** The applications of a push, with their tokens and addresses. *)
Definition projected (d : desired) : list App :=
  (λ it,
    let wa := FromApplication it in
    let wa := with_tokens (default ∅ (de_tokens d !! wa_ID wa)) wa in
    match de_networks d !! wa_ID wa with
    | Some n => with_network (wn_Address n) (wn_Gateway n) (wn_Mtu n) wa
    | None => wa
    end) <$> de_apps d.

(** [PersistentVolume.ID]. *)
Definition pv_ID (pv : PersistentVolume) : string := WorkloadID (om_Namespace (pv_meta pv)) (om_Name (pv_meta pv)).

Definition allPVs (pvs : list PersistentVolume) : gset string := list_to_set (pv_ID <$> pvs).
Definition myPVs (node : string) (pvs : list PersistentVolume) : gmap string PersistentVolume :=
  foldl (λ m pv, if bool_decide (pvs_Node (pv_Spec pv) = node) then <[pv_ID pv := pv]> m else m) ∅ pvs.

(** [isolatedIDs], in the order the map is ranged over. *)
Definition isolatedIDs (apps : list (string * App)) : list string :=
  wa_ID <$> List.filter (λ a, negb (wa_HostNetwork a)) apps.*2.

(** ** A pass *)
(** What a pass asked of the runtime, and whether it was done. *)
Inductive Call :=
| CApply (app : App) (vols : list Volume) (done : bool)
| CRemove (id : string) (grace : Z) (done : bool)
| CList (done : bool).

(** The agent's own record. *)
Record AgentState := mkAgentState {
  ag_want : gmap string App;
  ag_applied : gmap string Z;
  ag_observed : gmap string State;
}.

Record Pass (N : Type) := mkPass {
  ps_node : N;
  ps_applied : gmap string Z;
  ps_errs : list ConvergeError;
  ps_log : list Call;
}.
Arguments mkPass {N}.
Arguments ps_node {N}.
Arguments ps_applied {N}.
Arguments ps_errs {N}.
Arguments ps_log {N}.

Context {N : Type} (p : Ports N) (node : string).

Definition ok_of (r : option error) : bool := match r with None => true | Some _ => false end.
Definition failed {N} (n : N) (e : ConvergeError) (x : Pass N) : Pass N :=
  mkPass n (ps_applied x) (ps_errs x ++ [e]) (ps_log x).

(** One turn of the loop of [reconcileApps]. *)
Definition converge_app (pvs : gmap string PersistentVolume) (secrets : list Secret) (stores : list SecretStore)
    (x : Pass N) (entry : string * App) : Pass N :=
  let '(name, app) := entry in
  if wa_Deleting app then
    let grace := GracePeriod (wa_Lifecycle app) in
    let '(n, r) := rt_Remove p name grace (ps_node x) in
    mkPass n (delete name (ps_applied x))
      (ps_errs x ++ match r with Some e => [ETearDown name e] | None => [] end)
      (ps_log x ++ [CRemove name grace (ok_of r)])
  else if negb (vo_Fits p app pvs) then x
  else
    match vo_Resolve p app pvs (ps_node x) with
    | (n, Err e) => failed n (EResolve name e) x
    | (n, Ok vols) =>
        match se_Materialize p app secrets stores n with
        | (n, Err e) => failed n (EMaterialize name e) x
        | (n, Ok secVols) =>
            match se_MaterializeEnv p app secrets stores n with
            | (n, Err e) => failed n (EMaterializeEnv name e) x
            | (n, Ok env) =>
                let app := with_secret_env env app in
                let '(n, r) := rt_Apply p app (vols ++ secVols) n in
                match r with
                | Some e => mkPass n (ps_applied x) (ps_errs x ++ [EConverge name e])
                              (ps_log x ++ [CApply app (vols ++ secVols) false])
                | None => mkPass n (<[name := wa_Generation app]> (ps_applied x)) (ps_errs x)
                            (ps_log x ++ [CApply app (vols ++ secVols) true])
                end
            end
        end
    end.

(** The teardown of what is held and not wanted; a failure is dropped. *)
Definition remove_unwanted (want : gmap string App) (x : Pass N) (s : State) : Pass N :=
  match want !! ws_ID s with
  | Some _ => x
  | None =>
      let '(n, r) := rt_Remove p (ws_ID s) 0 (ps_node x) in
      mkPass n (delete (ws_ID s) (ps_applied x)) (ps_errs x) (ps_log x ++ [CRemove (ws_ID s) 0 (ok_of r)])
  end.

(** [reconcileApps]; [order] is [want] in the order the map is ranged over.  An error of the
    listing is dropped, and what it returned is used. *)
Definition reconcileApps (order : list (string * App)) (want : gmap string App) (pvs : gmap string PersistentVolume)
    (secrets : list Secret) (stores : list SecretStore) (x : Pass N) : Pass N :=
  let x := foldl (converge_app pvs secrets stores) x order in
  let '(held, err) := rt_States p (ps_node x) in
  let x := mkPass (ps_node x) (ps_applied x) (ps_errs x) (ps_log x ++ [CList (ok_of err)]) in
  foldl (remove_unwanted want) x held.

Definition noted {N} (f : N → N * option error) (e : error → ConvergeError) (x : Pass N) : Pass N :=
  let '(n, r) := f (ps_node x) in
  mkPass n (ps_applied x) (ps_errs x ++ match r with Some err => [e err] | None => [] end) (ps_log x).

(** [Reconcile]; [range] is the order the wanted applications are ranged over. *)
Definition Reconcile (range : gmap string App → list (string * App)) (d : desired) (a : AgentState) (n : N)
    : AgentState * Pass N :=
  let pvs := myPVs node (de_pvs d) in
  let x := noted (vo_Provision p pvs) EProvision (mkPass n (ag_applied a) [] []) in
  let want := appsForNode (projected d) node in
  let x := reconcileApps (range want) want pvs (de_secrets d) (de_stores d) x in
  let x := noted (vo_Reclaim p (allPVs (de_pvs d)) want) EReclaim x in
  let x := if nw_present p then noted (nw_GC p (isolatedIDs (range want))) ENetworkGC x else x in
  (mkAgentState want (ps_applied x) (ag_observed a), x).

(** [configureNetwork]. *)
Definition configureNetwork (routes : list Route) (services : list ServiceRule) (n : N) : N :=
  if negb (nw_present p) then n
  else match nw_Status p n with
       | Ok st => if nst_Datapath st then (nw_Configure p routes services n).1 else n
       | Err _ => n
       end.

(** ** Reports *)
(** [observe]. *)
Definition observe (a : AgentState) (n : N) : AgentState :=
  mkAgentState (ag_want a) (ag_applied a) (foldl (λ m s, <[ws_ID s := s]> m) ∅ (rt_States p n).1).

(** [wiredAddress]. *)
Definition wiredAddress (app : App) (phase : string) : string :=
  if wa_HostNetwork app || negb (bool_decide (phase = AppPhaseRunning)) then "" else wa_Address app.

(** The text of a stale secret's age. *)
Context (stale_text : Z → string).

Definition report_phase (observed : gmap string State) (id : string) (app : App) : string :=
  let state := default state0 (observed !! id) in
  let phase := if bool_decide (ws_Phase state = "") then AppPhaseFailed else ws_Phase state in
  if wa_Deleting app then
    match observed !! id with None => AppPhaseTerminated | Some _ => AppPhaseTerminating end
  else phase.

Definition app_status (a : AgentState) (n : N) (id : string) (app : App) : AppStatus :=
  let state := default state0 (ag_observed a !! id) in
  let phase := report_phase (ag_observed a) id app in
  let msg := match se_StaleApps p n !! id with Some d => stale_text d | None => "" end in
  let msg := if bool_decide (ws_Reason state = "") then msg else ws_Reason state in
  let over := TerminalPhase phase (wa_Lifecycle app) (ws_Attempts state) in
  mkReportedStatus (wa_Namespace app) (wa_Name app) (default 0 (ag_applied a !! id)) phase msg (wiredAddress app phase)
    (ws_Attempts state) (if over then ws_ExitCode state else 0) (if over then ws_FinishedAt state else 0).

(** [appStatusMessages]: the runtime is asked once, then every wanted application reported. *)
Definition appStatusMessages (range : gmap string App → list (string * App)) (a : AgentState) (n : N)
    : AgentState * list AppStatus :=
  let a := observe a n in
  (a, (λ x, app_status a n x.1 x.2) <$> range (ag_want a)).

(** [appMetricsMessages]: one sample per workload the runtime can measure. *)
Definition appMetricsMessages (range : gmap string App → list (string * App)) (a : AgentState) (n : N) : list AppMetrics :=
  omap (λ x, match rt_Metrics p x.1 n with
             | Err _ => None
             | Ok u => Some (mkAppMetrics (wa_Namespace x.2) (wa_Name x.2) (us_CPUUsec u) (us_CPUThrottledUsec u)
                         (us_MemoryBytes u) (us_MemoryPeakBytes u) (us_PIDs u) (us_OOMKills u) (us_At u))
             end) (range (ag_want a)).

(** [capped]. *)
Definition capped (measured limit : Qty) : Qty :=
  if negb (q_IsZero limit) && (q_Cmp limit measured <? 0) then limit else measured.

(** [canRouteWorkloads]. *)
Definition canRouteWorkloads (n : N) : bool :=
  if negb (nw_present p) then false
  else match nw_Status p n with Ok st => nst_RoutedNetwork st | Err _ => false end.

(** What the machine is: its measured capacity, its identity and its address. *)
Record Machine := mkMachine {
  mc_Capacity : ResourceAmounts; mc_OS : string; mc_IP : string; mc_Platform : Platform;
}.

(** The requests of what the node carries: everything wanted that is not over. *)
Definition allocated (range : gmap string App → list (string * App)) (a : AgentState) : ResourceAmounts :=
  foldl (λ alloc x,
    let state := default state0 (ag_observed a !! x.1) in
    if TerminalPhase (ws_Phase state) (wa_Lifecycle x.2) (ws_Attempts state) then alloc
    else ra_Add alloc (wa_EffectiveRequests x.2)) ra_zero (range (ag_want a)).

(** [nodeStatus] and [statusMessage]. *)
Definition nodeStatus (range : gmap string App → list (string * App)) (mc : Machine) (limits : ResourceAmounts) (now : Z)
    (a : AgentState) (n : N) : NodeStatus :=
  mkNodeStatus
    (mkAmounts (capped (ra_CPU (mc_Capacity mc)) (ra_CPU limits)) (capped (ra_Memory (mc_Capacity mc)) (ra_Memory limits)))
    (allocated range a) (mc_OS mc) (mc_IP mc) true now [rt_Name p] (mc_Platform mc) (canRouteWorkloads n) ∅.
Definition statusMessage (range : gmap string App → list (string * App)) (mc : Machine) (limits : ResourceAmounts) (now : Z)
    (a : AgentState) (n : N) : Node :=
  mkNode (mkObjectMeta "" node "" "" 0 ∅ ∅ 0 None [] []) false (nodeStatus range mc limits now a n).

(** One turn of the converge goroutine, on the last state pushed. *)
Definition tick (range : gmap string App → list (string * App)) (d : desired) (a : AgentState) (n : N)
    : AgentState * Pass N * list AppStatus * list AppMetrics :=
  let n := configureNetwork (de_routes d) (de_services d) n in
  let '(a, x) := Reconcile range d a n in
  let '(a, msgs) := appStatusMessages range a (ps_node x) in
  (a, x, msgs, appMetricsMessages range a (ps_node x)).
End Agent.

Arguments mkPass {HQ N}.
Arguments ps_node {HQ N}.
Arguments ps_applied {HQ N}.
Arguments ps_errs {HQ N}.
Arguments ps_log {HQ N}.
Arguments un_app {HQ Body}.
Arguments un_pv {HQ Body}.
Arguments un_secret {HQ Body}.
Arguments un_store {HQ Body}.
