(* ===== verification/AgentTheorems.v ===== *)
(** * What a pass of the agent does to its node

    Against any ports, in any order of the wanted applications: what the runtime is asked to
    start had its volumes and secrets resolved, what it is asked to remove was being deleted
    or is not wanted, the generation reported for a workload is the one last applied, and a
    teardown is reported over only when the runtime lists nothing.  Against a runtime that
    keeps its contract, a clean pass leaves the node holding nothing but what was pushed to
    it; and what is pushed is what the control plane has placed there. *)
From stdpp Require Import gmap strings list.
From Stdlib Require Import ZArith Ascii.
From S2P Require Import Prelude Resources CoreV1 ApiObjects DesiredState DesiredFacts DesiredTheorems NodeMetrics NodeReports.
From S2P Require Import Workload Agent.
#[local] Open Scope Z_scope.

Lemma foldl_inv {A B} (P : A → Prop) (f : A → B → A) l a :
  P a → (∀ a b, b ∈ l → P a → P (f a b)) → P (foldl f a l).
Proof.
  revert a. induction l as [|b l IH]; intros a Ha Hf; [done|]. simpl. apply IH.
  - apply Hf; [left|done].
  - intros a' b' Hb. apply Hf. by right.
Qed.

Section Pass.
Context {HQ : Quantity} {N : Type} (p : Ports N) (node : string).
Implicit Types (want : gmap string App) (x : Pass N) (n : N) (id : string) (app : App) (order : list (string * App)).

(** ** Which applications are wanted *)
Lemma appsForNode_spec apps id app :
  appsForNode apps node !! id = Some app → app ∈ apps ∧ wa_Node app = node ∧ wa_ID app = id ∧ id ≠ "".
Proof.
  unfold appsForNode. pattern (foldl (λ want a, if negb (bool_decide (wa_Node a = node)) then want
    else if bool_decide (wa_ID a = "") then want else <[wa_ID a := a]> want) ∅ apps).
  apply foldl_inv; [by rewrite lookup_empty|]. intros m a Ha IH.
  destruct (bool_decide_reflect (wa_Node a = node)); [|done]. destruct (bool_decide_reflect (wa_ID a = "")); [done|].
  cbn [negb]. intros [[<- <-]|[_ H]]%lookup_insert_Some; [by split_and!|by apply IH].
Qed.

Lemma appsForNode_some apps app :
  app ∈ apps → wa_Node app = node → wa_ID app ≠ "" → is_Some (appsForNode apps node !! wa_ID app).
Proof.
  intros Hin Hn Hid. unfold appsForNode. generalize (∅ : gmap string App).
  assert (∀ l m, is_Some (m !! wa_ID app) →
    is_Some (foldl (λ want a, if negb (bool_decide (wa_Node a = node)) then want
    else if bool_decide (wa_ID a = "") then want else <[wa_ID a := a]> want) m l !! wa_ID app)) as Hkeep.
  { intros l m Hm. apply (foldl_inv (λ m, is_Some (m !! wa_ID app))); [done|]. intros m' a _ Hm'.
    destruct (negb _); [done|]. destruct (bool_decide _); [done|]. destruct (decide (wa_ID a = wa_ID app)) as [->|].
    - by rewrite lookup_insert_eq.
    - by rewrite lookup_insert_ne. }
  induction apps as [|a apps IH]; [by apply elem_of_nil in Hin|]. intros m. simpl.
  apply elem_of_cons in Hin as [<-|Hin]; [|by apply IH]. apply Hkeep.
  rewrite (bool_decide_eq_true_2 _ Hn), (bool_decide_eq_false_2 _ Hid). cbn. by rewrite lookup_insert_eq.
Qed.

(** ** What the runtime is asked *)
Context (pvs : gmap string PersistentVolume) (secrets : list Secret) (stores : list SecretStore).
Abbreviation converge_app := (converge_app p pvs secrets stores).
Abbreviation remove_unwanted := (remove_unwanted p).
Abbreviation reconcileApps := (reconcileApps p).

(** A start: the application is wanted and not going, its volumes are backed here, and its
    mounts, secrets and environment were all resolved. *)
Definition startable want app' (vols : list Volume) : Prop :=
  ∃ id app n1 n2 n3 v1 v2 env, want !! id = Some app ∧ wa_Deleting app = false ∧ vo_Fits p app pvs = true ∧
    (vo_Resolve p app pvs n1).2 = Ok v1 ∧ (se_Materialize p app secrets stores n2).2 = Ok v2 ∧
    (se_MaterializeEnv p app secrets stores n3).2 = Ok env ∧ app' = with_secret_env env app ∧ vols = v1 ++ v2.

(** A removal: of a workload being deleted, with the grace its author asked for, or of one
    that is not wanted. *)
Definition removable want id (grace : Z) : Prop :=
  (∃ app, want !! id = Some app ∧ wa_Deleting app = true ∧ grace = GracePeriod (wa_Lifecycle app)) ∨
  (want !! id = None ∧ grace = 0).

Definition justified want (c : Call) : Prop :=
  match c with
  | CApply app vols _ => startable want app vols
  | CRemove id grace _ => removable want id grace
  | CList _ => True
  end.

Lemma log_snoc want (l : list Call) c : Forall (justified want) l → justified want c → Forall (justified want) (l ++ [c]).
Proof. intros. apply Forall_app. split; [done|by apply Forall_singleton]. Qed.

Lemma converge_justified want x id app :
  want !! id = Some app → Forall (justified want) (ps_log x) → Forall (justified want) (ps_log (converge_app x (id, app))).
Proof.
  intros Hw Hx. unfold Agent.converge_app. destruct (wa_Deleting app) eqn:Ed.
  { destruct (rt_Remove p id _ _) as [n r]. cbn [ps_log]. apply log_snoc; [done|]. left. by exists app. }
  destruct (vo_Fits p app pvs) eqn:Ef; [|done]. cbn [negb].
  destruct (vo_Resolve p app pvs (ps_node x)) as [n1 [v1|e]] eqn:E1; [|done].
  destruct (se_Materialize p app secrets stores n1) as [n2 [v2|e]] eqn:E2; [|done].
  destruct (se_MaterializeEnv p app secrets stores n2) as [n3 [env|e]] eqn:E3; [|done].
  destruct (rt_Apply p _ _ n3) as [n4 r].
  assert (startable want (with_secret_env env app) (v1 ++ v2)) as Hs.
  { exists id, app, (ps_node x), n1, n2, v1, v2, env. rewrite E1, E2, E3. by split_and!. }
  destruct r; cbn [ps_log]; by apply log_snoc.
Qed.

Lemma reconcileApps_justified order want x :
  order ≡ₚ map_to_list want → Forall (justified want) (ps_log x) →
  Forall (justified want) (ps_log (reconcileApps order want pvs secrets stores x)).
Proof.
  intros Ho Hx. unfold Agent.reconcileApps. destruct (rt_States p _) as [l err]. apply foldl_inv.
  - cbn [ps_log]. apply log_snoc; [|done]. apply (foldl_inv (λ x, Forall (justified want) (ps_log x))); [done|]. intros x' [id app] Hin Hx'.
    apply converge_justified; [|done]. rewrite Ho in Hin. by apply elem_of_map_to_list.
  - intros x' s _ Hx'. unfold Agent.remove_unwanted. destruct (want !! ws_ID s) eqn:E; [done|].
    destruct (rt_Remove p _ 0 _) as [n r]. cbn [ps_log]. apply log_snoc; [done|]. right. by split.
Qed.

(** ** What the node holds afterwards *)
(** What the runtime port documents: Apply and Remove touch the workload they name, a removal
    that reports success leaves nothing of it, a listing that does not fail is complete; the
    other ports run nothing. *)
Class RuntimeContract (held : N → gset string) : Prop := {
  ct_apply app vols n n' r : rt_Apply p app vols n = (n', r) → ∀ id, id ≠ wa_ID app → id ∈ held n' ↔ id ∈ held n;
  ct_remove name g n n' r : rt_Remove p name g n = (n', r) →
    (∀ id, id ≠ name → id ∈ held n' ↔ id ∈ held n) ∧ (name ∈ held n' → name ∈ held n) ∧ (r = None → name ∉ held n');
  ct_states n l : rt_States p n = (l, None) → ∀ id, id ∈ ws_ID <$> l ↔ id ∈ held n;
  ct_provision v n n' r : vo_Provision p v n = (n', r) → held n' = held n;
  ct_resolve app v n n' r : vo_Resolve p app v n = (n', r) → held n' = held n;
  ct_reclaim v w n n' r : vo_Reclaim p v w n = (n', r) → held n' = held n;
  ct_materialize app a b n n' r : se_Materialize p app a b n = (n', r) → held n' = held n;
  ct_environment app a b n n' r : se_MaterializeEnv p app a b n = (n', r) → held n' = held n;
  ct_collect ids n n' r : nw_GC p ids n = (n', r) → held n' = held n;
}.

Context (held : N → gset string) `{!RuntimeContract held}.

Lemma secret_env_id env app : wa_ID (with_secret_env env app) = wa_ID app.
Proof. done. Qed.

(** One turn touches its own workload; without an error it is gone if it was going, and asked
    to start if it fits. *)
Lemma converge_step x id app :
  wa_ID app = id → let x' := converge_app x (id, app) in
  (∀ j, j ≠ id → j ∈ held (ps_node x') ↔ j ∈ held (ps_node x)) ∧
  (∃ more, ps_errs x' = ps_errs x ++ more ∧
     (more = [] → (wa_Deleting app = true → id ∉ held (ps_node x')) ∧
        (wa_Deleting app = false → vo_Fits p app pvs = false → id ∈ held (ps_node x') → id ∈ held (ps_node x)) ∧
        (wa_Deleting app = false → vo_Fits p app pvs = true →
           ∃ env vols, CApply (with_secret_env env app) vols true ∈ ps_log x'))) ∧
  (∀ c, c ∈ ps_log x → c ∈ ps_log x').
Proof.
  intros Hid x'. subst x'. unfold Agent.converge_app. destruct (wa_Deleting app) eqn:Ed.
  { destruct (rt_Remove p id _ _) as [n r] eqn:Er. apply (ct_remove (held := held)) in Er as (H1 & _ & H3). cbn.
    split; [done|]. split; [|intros c Hc; apply elem_of_app; by left]. eexists. split; [reflexivity|].
    destruct r; [done|]. intros _. split_and!; [intros _; by apply H3|done..]. }
  destruct (vo_Fits p app pvs) eqn:Ef; cbn [negb].
  2:{ split; [done|]. split; [|done]. exists []. rewrite app_nil_r. by split_and!. }
  destruct (vo_Resolve p app pvs (ps_node x)) as [n1 r1] eqn:E1. apply (ct_resolve (held := held)) in E1.
  assert (∀ n e, held n = held (ps_node x) →
    (∀ j, j ≠ id → j ∈ held (ps_node (failed n e x)) ↔ j ∈ held (ps_node x)) ∧
    (∃ more, ps_errs (failed n e x) = ps_errs x ++ more ∧
       (more = [] → (false = true → id ∉ held (ps_node (failed n e x))) ∧
          (false = false → true = false → id ∈ held (ps_node (failed n e x)) → id ∈ held (ps_node x)) ∧
          (false = false → true = true → ∃ env vols, CApply (with_secret_env env app) vols true ∈ ps_log (failed n e x)))) ∧
    (∀ c, c ∈ ps_log x → c ∈ ps_log (failed n e x))) as Hfail.
  { intros n e Hn. cbn. rewrite Hn. split; [done|]. split; [|done]. by exists [e]. }
  destruct r1 as [v1|e]; [|by apply Hfail].
  destruct (se_Materialize p app secrets stores n1) as [n2 r2] eqn:E2. apply (ct_materialize (held := held)) in E2.
  destruct r2 as [v2|e]; [|apply Hfail; congruence].
  destruct (se_MaterializeEnv p app secrets stores n2) as [n3 r3] eqn:E3. apply (ct_environment (held := held)) in E3.
  destruct r3 as [env|e]; [|apply Hfail; congruence].
  destruct (rt_Apply p _ _ n3) as [n4 r4] eqn:E4. pose proof (ct_apply (held := held) _ _ _ _ _ E4) as H4.
  assert (∀ j, j ≠ id → j ∈ held n4 ↔ j ∈ held (ps_node x)) as Hoff.
  { intros j Hj. rewrite H4 by (by rewrite secret_env_id, Hid). by rewrite E3, E2, E1. }
  destruct r4; cbn; (split; [done|]); (split; [|intros c Hc; apply elem_of_app; by left]).
  - eexists. split; [reflexivity|]. done.
  - exists []. rewrite app_nil_r. split; [done|]. intros _. split_and!; [done..|]. intros _ _.
    exists env, (v1 ++ v2). apply elem_of_app. right. by apply list_elem_of_singleton.
Qed.

(** Nothing failed, not even what the agent does not report. *)
Definition call_done (c : Call) : bool := match c with CApply _ _ b | CRemove _ _ b | CList b => b end.
Definition clean_log (l : list Call) : Prop := ∀ c, c ∈ l → call_done c = true.

(** After a turn without errors. *)
Definition settled (n n' : N) (log : list Call) id app : Prop :=
  (wa_Deleting app = true → id ∉ held n') ∧
  (wa_Deleting app = false → vo_Fits p app pvs = false → id ∈ held n' → id ∈ held n) ∧
  (wa_Deleting app = false → vo_Fits p app pvs = true → ∃ env vols, CApply (with_secret_env env app) vols true ∈ log).

Lemma converge_loop order x :
  NoDup order.*1 → (∀ id app, (id, app) ∈ order → wa_ID app = id) → let x' := foldl converge_app x order in
  (∀ j, j ∉ order.*1 → j ∈ held (ps_node x') ↔ j ∈ held (ps_node x)) ∧
  (∃ more, ps_errs x' = ps_errs x ++ more ∧
     (more = [] → ∀ id app, (id, app) ∈ order → settled (ps_node x) (ps_node x') (ps_log x') id app)) ∧
  (∀ c, c ∈ ps_log x → c ∈ ps_log x').
Proof.
  revert x. induction order as [|[id app] order IH]; intros x Hnd Hids; cbn zeta.
  { split; [done|]. split; [|done]. exists []. rewrite app_nil_r. split; [done|]. by intros _ ?? ?%elem_of_nil. }
  cbn [foldl]. rewrite fmap_cons in Hnd. apply NoDup_cons in Hnd as [Hfresh Hnd].
  destruct (converge_step x id app) as (S1 & (m1 & S2 & S3) & S4); [apply Hids; left|].
  destruct (IH (converge_app x (id, app))) as (L1 & (m2 & L2 & L3) & L4); [done|intros ?? ?; apply Hids; by right|].
  split; [|split; [|auto]].
  - intros j [Hj1 Hj2]%not_elem_of_cons. rewrite L1 by done. by apply S1.
  - exists (m1 ++ m2). rewrite L2, S2, (assoc_L (++)). split; [done|]. intros [-> ->]%app_nil. intros j b.
    specialize (S3 eq_refl) as (D1 & D2 & D3). intros [[= -> ->]|Hin]%elem_of_cons.
    + unfold settled. rewrite L1 by done. split_and!; [done|done|]. intros Ha Hf.
      destruct (D3 Ha Hf) as (env & vols & Hc). exists env, vols. by apply L4.
    + assert (j ≠ id) as Hne by (intros ->; apply Hfresh; apply list_elem_of_fmap; by exists (id, b)).
      destruct (L3 eq_refl j b Hin) as (E1 & E2 & E3). split_and!; [done| |done].
      intros Ha Hf Hh. apply (S1 j Hne). by apply E2.
Qed.

Lemma remove_loop want l x :
  let x' := foldl (remove_unwanted want) x l in
  ps_errs x' = ps_errs x ∧ (∀ c, c ∈ ps_log x → c ∈ ps_log x') ∧
  (∀ id, is_Some (want !! id) → id ∈ held (ps_node x') ↔ id ∈ held (ps_node x)) ∧
  (∀ id, id ∈ held (ps_node x') → id ∈ held (ps_node x)) ∧
  (clean_log (ps_log x') → ∀ id, id ∈ ws_ID <$> l → want !! id = None → id ∉ held (ps_node x')).
Proof.
  revert x. induction l as [|s l IH]; intros x; cbn zeta.
  { split_and!; try done. intros _ id ?%elem_of_nil. done. }
  cbn [foldl]. destruct (IH (remove_unwanted want x s)) as (H1 & H2 & H3 & H4 & H5).
  assert (ps_errs (remove_unwanted want x s) = ps_errs x ∧
    (∀ c, c ∈ ps_log x → c ∈ ps_log (remove_unwanted want x s)) ∧
    (∀ id, is_Some (want !! id) → id ∈ held (ps_node (remove_unwanted want x s)) ↔ id ∈ held (ps_node x)) ∧
    (∀ id, id ∈ held (ps_node (remove_unwanted want x s)) → id ∈ held (ps_node x)) ∧
    (want !! ws_ID s = None → clean_log (ps_log (remove_unwanted want x s)) →
       ws_ID s ∉ held (ps_node (remove_unwanted want x s)))) as (R1 & R2 & R3 & R4 & R5).
  { unfold Agent.remove_unwanted. destruct (want !! ws_ID s) eqn:E; [by split_and!|].
    destruct (rt_Remove p (ws_ID s) 0 (ps_node x)) as [n r] eqn:Er. cbn [ps_errs ps_log ps_node].
    apply (ct_remove (held := held)) in Er as (Q1 & Q2 & Q3). split_and!; [done|intros c Hc; apply elem_of_app; by left| | |].
    - intros id [a Ha]. apply Q1. intros ->. congruence.
    - intros id Hid. destruct (decide (id = ws_ID s)) as [->|Hne]; [by apply Q2|by apply Q1].
    - intros _ Hc. apply Q3. specialize (Hc (CRemove (ws_ID s) 0 (ok_of r))). cbn in Hc. destruct r; [|done].
      exfalso. assert (false = true); [|done]. apply Hc. apply elem_of_app. right. by apply list_elem_of_singleton. }
  split_and!.
  - by rewrite H1.
  - auto.
  - intros id Hid. by rewrite H3, R3.
  - auto.
  - intros Hc id [->|Hin]%elem_of_cons Hw Hh; [|by eapply H5].
    apply (R5 Hw); [|by apply H4]. intros c Hc'. apply Hc, H2, Hc'.
Qed.
End Pass.

(** ** A whole pass *)
Section Reconciled.
Context {HQ : Quantity} {N : Type} (p : Ports N) (node : string).
Implicit Types (d : desired) (a : AgentState) (n : N) (x : Pass N) (id : string) (app : App).

(** The pushed application behind a projected one. *)
Definition stems (it : Application) app : Prop :=
  wa_ID app = om_UID (app_meta it) ∧ wa_Name app = app_Name it ∧ wa_Namespace app = app_Namespace it ∧
  wa_Generation app = om_Generation (app_meta it) ∧ wa_Node app = app_NodeName it ∧ wa_Deleting app = Deleting it ∧
  wa_Lifecycle app = sp_Lifecycle (app_Spec it).

Lemma projected_elem d app : app ∈ projected d → ∃ it, it ∈ de_apps d ∧ stems it app.
Proof.
  intros (it & -> & Hin)%list_elem_of_fmap. exists it. split; [done|]. cbn zeta.
  destruct (de_networks d !! _); by split_and!.
Qed.
Lemma projected_all d it : it ∈ de_apps d → ∃ app, app ∈ projected d ∧ stems it app.
Proof.
  intros Hin. eexists. split; [apply list_elem_of_fmap; by exists it|]. cbn zeta.
  destruct (de_networks d !! _); by split_and!.
Qed.

Definition wanted_apps d : gmap string App := appsForNode (projected d) node.

Lemma wanted_spec d id app :
  wanted_apps d !! id = Some app → ∃ it, it ∈ de_apps d ∧ stems it app ∧ app_NodeName it = node ∧ wa_ID app = id ∧ id ≠ "".
Proof.
  intros (Hin & Hn & Hid & He)%appsForNode_spec. apply projected_elem in Hin as (it & Hit & Hs). exists it.
  split_and!; try done. destruct Hs as (_ & _ & _ & _ & <- & _). done.
Qed.
Lemma wanted_some d it :
  it ∈ de_apps d → app_NodeName it = node → om_UID (app_meta it) ≠ "" → is_Some (wanted_apps d !! om_UID (app_meta it)).
Proof.
  intros Hin Hn Hu. destruct (projected_all d it Hin) as (app & Ha & Hs). pose proof Hs as (Hid & _ & _ & _ & Hnode & _).
  rewrite <-Hid in *. apply appsForNode_some; [done|by rewrite Hnode|done].
Qed.

(** The stages of [Reconcile]. *)
Definition provisioned d a n : Pass N :=
  noted (vo_Provision p (myPVs node (de_pvs d))) EProvision (mkPass n (ag_applied a) [] []).
Definition converged range d a n : Pass N :=
  reconcileApps p (range (wanted_apps d)) (wanted_apps d) (myPVs node (de_pvs d)) (de_secrets d) (de_stores d) (provisioned d a n).

Lemma noted_frame (f : N → N * option error) e x :
  ps_applied (noted f e x) = ps_applied x ∧ ps_log (noted f e x) = ps_log x ∧
  (∃ more, ps_errs (noted f e x) = ps_errs x ++ more) ∧
  ∀ held : N → gset string, (∀ n n' r, f n = (n', r) → held n' = held n) → held (ps_node (noted f e x)) = held (ps_node x).
Proof.
  unfold noted. destruct (f (ps_node x)) as [n1 r] eqn:Ef. cbn. split_and!; try done; [by eexists|].
  intros held Hf. by eapply Hf.
Qed.

Lemma Reconcile_inv range d a n a' x :
  Reconcile p node range d a n = (a', x) →
  ag_want a' = wanted_apps d ∧ ag_applied a' = ps_applied x ∧ ag_observed a' = ag_observed a ∧
  ps_applied x = ps_applied (converged range d a n) ∧ ps_log x = ps_log (converged range d a n) ∧
  (∃ more, ps_errs x = ps_errs (converged range d a n) ++ more) ∧
  (∀ held : N → gset string, RuntimeContract p held → held (ps_node x) = held (ps_node (converged range d a n))).
Proof.
  unfold Reconcile. fold (wanted_apps d). fold (provisioned d a n). fold (converged range d a n). intros [= <- <-].
  set (x := converged range d a n).
  destruct (noted_frame (vo_Reclaim p (allPVs (de_pvs d)) (wanted_apps d)) EReclaim x) as (H1 & H2 & (m1 & H3) & H4).
  set (y := noted _ EReclaim x) in *. destruct (nw_present p).
  - destruct (noted_frame (nw_GC p (isolatedIDs (range (wanted_apps d)))) ENetworkGC y) as (G1 & G2 & (m2 & G3) & G4).
    split_and!; [done|done|done|by rewrite G1|by rewrite G2|exists (m1 ++ m2); by rewrite G3, H3, (assoc_L (++))|].
    intros held Hc. rewrite G4, H4; [done| |]; intros; [by eapply (ct_reclaim p (held := held))|by eapply (ct_collect p (held := held))].
  - split_and!; try done; [by exists m1|]. intros held Hc. apply H4. intros. by eapply (ct_reclaim p (held := held)).
Qed.

Lemma wanted_order (range : gmap string App → list (string * App)) d :
  (∀ m, range m ≡ₚ map_to_list m) →
  NoDup (range (wanted_apps d)).*1 ∧ (∀ id app, (id, app) ∈ range (wanted_apps d) ↔ wanted_apps d !! id = Some app) ∧
  (∀ id app, (id, app) ∈ range (wanted_apps d) → wa_ID app = id).
Proof.
  intros Hr. split_and!.
  - rewrite Hr. apply NoDup_fst_map_to_list.
  - intros id app. rewrite Hr. apply elem_of_map_to_list.
  - intros id app. rewrite Hr, elem_of_map_to_list. by intros (it & _ & _ & _ & H & _)%wanted_spec.
Qed.

(** C26: Whatever a pass asks of the runtime is justified by the push, in whatever order the
    applications are taken: it starts only an application pinned here that is not going, whose
    volumes the node backs and whose mounts, secrets and environment were resolved; it removes
    only one being deleted, with the grace its author asked for, or one the push does not
    name; so an application whose secrets are missing is neither started nor torn down. *)
Theorem pass_justified (range : gmap string App → list (string * App)) d a n a' x c :
  (∀ m, range m ≡ₚ map_to_list m) → Reconcile p node range d a n = (a', x) → c ∈ ps_log x →
  justified p (myPVs node (de_pvs d)) (de_secrets d) (de_stores d) (wanted_apps d) c.
Proof.
  intros Hr (_ & _ & _ & _ & Hl & _)%Reconcile_inv. rewrite Hl. revert c. apply Forall_forall.
  apply reconcileApps_justified; [apply Hr|]. unfold provisioned, noted. by destruct (vo_Provision p _ _).
Qed.

Context (held : N → gset string) `{!RuntimeContract p held}.

Lemma pass_settles_held range d a n a' x :
  (∀ m, range m ≡ₚ map_to_list m) → Reconcile p node range d a n = (a', x) → ps_errs x = [] → clean_log (ps_log x) →
  (∀ id, id ∈ held (ps_node x) → ∃ app, wanted_apps d !! id = Some app ∧ wa_Deleting app = false ∧
     (vo_Fits p app (myPVs node (de_pvs d)) = true ∨ id ∈ held n)) ∧
  (∀ id app, wanted_apps d !! id = Some app → wa_Deleting app = false → vo_Fits p app (myPVs node (de_pvs d)) = true →
     ∃ env vols, CApply (with_secret_env env app) vols true ∈ ps_log x).
Proof.
  intros Hr (_ & _ & _ & _ & Hl & (more & He) & Hh)%Reconcile_inv Herr Hclean. rewrite Hl in *. rewrite He in Herr.
  apply app_nil in Herr as [Herr _]. rewrite (Hh held _). clear He Hh Hl.
  destruct (wanted_order range d Hr) as (Hnd & Hin & Hids). revert Herr Hclean. unfold converged, reconcileApps.
  set (x0 := provisioned d a n). set (x1 := foldl _ x0 (range (wanted_apps d))).
  assert (held (ps_node x0) = held n) as H0.
  { unfold x0, provisioned, noted. destruct (vo_Provision p _ _) as [n1 r] eqn:Ep. cbn.
    by eapply (ct_provision p (held := held)). }
  destruct (converge_loop p (myPVs node (de_pvs d)) (de_secrets d) (de_stores d) held (range (wanted_apps d)) x0 Hnd Hids)
    as (L1 & (m & L2 & L3) & L4). fold x1 in L1, L2, L3, L4.
  destruct (rt_States p (ps_node x1)) as [l err] eqn:Es. set (x2 := mkPass _ _ _ _).
  destruct (remove_loop p held (wanted_apps d) l x2) as (R1 & R2 & R3 & R4 & R5). intros Herr Hclean.
  rewrite R1 in Herr. cbn in Herr. rewrite L2 in Herr. apply app_nil in Herr as [_ ->].
  assert (err = None) as ->.
  { assert (CList (ok_of err) ∈ ps_log x2) as Hc by (apply elem_of_app; right; by apply list_elem_of_singleton).
    apply R2, Hclean in Hc. by destruct err. }
  split.
  - intros id Hid. destruct (wanted_apps d !! id) as [app|] eqn:Ew.
    2:{ exfalso. eapply R5; [exact Hclean| |exact Ew|exact Hid]. apply (ct_states p (held := held) _ _ Es). by apply R4 in Hid. }
    exists app. split; [done|]. apply R4 in Hid. cbn in Hid.
    destruct (L3 eq_refl id app) as (D1 & D2 & _); [by apply Hin|].
    destruct (wa_Deleting app); [by specialize (D1 eq_refl)|]. split; [done|].
    destruct (vo_Fits p app _) eqn:Ef; [by left|right]. rewrite <-H0. by apply D2.
  - intros id app Hw Hd Hf. destruct (L3 eq_refl id app) as (_ & _ & D3); [by apply Hin|].
    destruct (D3 Hd Hf) as (env & vols & Hc). exists env, vols. apply R2. apply elem_of_app. by left.
Qed.
End Reconciled.

(** ** Over the agent's life *)
Section Life.
Context {HQ : Quantity} {N : Type} (p : Ports N) (node : string).
Implicit Types (d : desired) (a : AgentState) (n : N) (x : Pass N) (id : string) (app : App) (log : list Call).

(** Passes and reports, in any number and order; the log is everything asked so far. *)
Inductive AgentRun : AgentState → list Call → Prop :=
| agent_new : AgentRun (mkAgentState ∅ ∅ ∅) []
| agent_pass range d a n a' x log :
    (∀ m, range m ≡ₚ map_to_list m) → AgentRun a log → Reconcile p node range d a n = (a', x) →
    AgentRun a' (log ++ ps_log x)
| agent_observe a n log : AgentRun a log → AgentRun (observe p a n) log.

(** The generation a log last applied. *)
Definition note (m : gmap string Z) (c : Call) : gmap string Z :=
  match c with
  | CApply app _ true => <[wa_ID app := wa_Generation app]> m
  | CRemove id _ _ => delete id m
  | _ => m
  end.

Lemma noted_converge pvs secrets stores x id app :
  wa_ID app = id → let x' := converge_app p pvs secrets stores x (id, app) in
  ∃ l, ps_log x' = ps_log x ++ l ∧ ps_applied x' = foldl note (ps_applied x) l.
Proof.
  intros Hid x'. subst x'. unfold Agent.converge_app. destruct (wa_Deleting app).
  { destruct (rt_Remove p id _ _) as [n r]. by eexists. }
  assert (∃ l, ps_log x = ps_log x ++ l ∧ ps_applied x = foldl note (ps_applied x) l) as Hsame
    by (exists []; by rewrite app_nil_r).
  destruct (negb _); [done|]. destruct (vo_Resolve p _ _ _) as [n1 [v1|]]; [|done].
  destruct (se_Materialize p _ _ _ _) as [n2 [v2|]]; [|done].
  destruct (se_MaterializeEnv p _ _ _ _) as [n3 [env|]]; [|done].
  destruct (rt_Apply p _ _ _) as [n4 [e|]]; cbn [ps_log ps_applied]; eexists; (split; [reflexivity|]); [done|].
  by subst id.
Qed.

Lemma pass_noted range d a n a' x :
  (∀ m, range m ≡ₚ map_to_list m) → Reconcile p node range d a n = (a', x) →
  ag_applied a' = foldl note (ag_applied a) (ps_log x).
Proof.
  intros Hr (_ & -> & _ & -> & -> & _)%Reconcile_inv. destruct (wanted_order node range d Hr) as (_ & _ & Hids).
  unfold converged, Agent.reconcileApps. set (x0 := provisioned p node d a n).
  assert (ps_applied x0 = foldl note (ag_applied a) (ps_log x0)) as H0.
  { unfold x0, provisioned. by destruct (noted_frame (vo_Provision p (myPVs node (de_pvs d))) EProvision
      (mkPass n (ag_applied a) [] [])) as (-> & -> & _). }
  destruct (rt_States p _) as [l err].
  apply (foldl_inv (λ x, ps_applied x = foldl note (ag_applied a) (ps_log x))).
  - cbn [ps_applied ps_log]. rewrite foldl_app. cbn [foldl note].
    apply (foldl_inv (λ x, ps_applied x = foldl note (ag_applied a) (ps_log x))); [done|].
    intros y [id app] Hin Hy. destruct (noted_converge (myPVs node (de_pvs d)) (de_secrets d) (de_stores d) y id app)
      as (l' & -> & ->); [by apply Hids|]. by rewrite foldl_app, <-Hy.
  - intros y s _ Hy. unfold Agent.remove_unwanted. destruct (wanted_apps node d !! ws_ID s); [done|].
    destruct (rt_Remove p _ _ _) as [n1 r]. cbn [ps_applied ps_log]. by rewrite foldl_app, <-Hy.
Qed.

Lemma run_noted a log : AgentRun a log → ag_applied a = foldl note ∅ log.
Proof.
  induction 1 as [|range d a n a' x log Hr _ IH Hp|a n log _ IH]; [done| |done].
  by rewrite (pass_noted _ _ _ _ _ _ Hr Hp), foldl_app, IH.
Qed.

Lemma note_last log id g :
  foldl note ∅ log !! id = Some g →
  ∃ l1 app vols l2, log = l1 ++ CApply app vols true :: l2 ∧ wa_ID app = id ∧ wa_Generation app = g ∧
    ∀ c, c ∈ l2 → (∀ gr b, c ≠ CRemove id gr b) ∧ (∀ app' v, c = CApply app' v true → wa_ID app' ≠ id).
Proof.
  induction log as [|c log IH] using rev_ind; [done|]. rewrite foldl_app. cbn [foldl].
  assert (∀ q, (∀ gr b, q ≠ CRemove id gr b) → (∀ app' v, q = CApply app' v true → wa_ID app' ≠ id) →
    foldl note ∅ log !! id = Some g → ∃ l1 app vols l2, log ++ [q] = l1 ++ CApply app vols true :: l2 ∧ wa_ID app = id ∧
      wa_Generation app = g ∧ ∀ c, c ∈ l2 → (∀ gr b, c ≠ CRemove id gr b) ∧ (∀ app' v, c = CApply app' v true → wa_ID app' ≠ id))
    as Hskip.
  { intros q H1 H2 H. destruct (IH H) as (l1 & app & vols & l2 & -> & Hi & Hg & Hl). exists l1, app, vols, (l2 ++ [q]).
    rewrite <-(assoc_L (++)). split_and!; [done..|]. intros c' [Hc|Hc%list_elem_of_singleton]%elem_of_app; [by apply Hl|].
    by subst c'. }
  destruct c as [app vols []|j gr b|b]; cbn [note].
  - destruct (decide (wa_ID app = id)) as [Hi|Hi].
    + rewrite Hi, lookup_insert_eq. intros [= <-]. exists log, app, vols, []. split_and!; try done. by intros ? ?%elem_of_nil.
    + rewrite lookup_insert_ne by done. apply Hskip; [done|]. by intros ?? [= <- _].
  - by apply Hskip.
  - destruct (decide (j = id)) as [->|Hj]; [by rewrite lookup_delete_eq|]. rewrite lookup_delete_ne by done.
    apply Hskip; [|done]. intros ?? [= -> _ _]. done.
  - by apply Hskip.
Qed.

(** The generation an agent reports for a workload is the one of the last spec its
    runtime accepted, over every sequence of passes: it was applied with success, nothing of
    that workload was applied with success since, and it was not removed since; a failed
    start of a new spec leaves the old generation reported. *)
Theorem observed_generation_honest a log id g :
  AgentRun a log → ag_applied a !! id = Some g →
  ∃ l1 app vols l2, log = l1 ++ CApply app vols true :: l2 ∧ wa_ID app = id ∧ wa_Generation app = g ∧
    ∀ c, c ∈ l2 → (∀ gr b, c ≠ CRemove id gr b) ∧ (∀ app' v, c = CApply app' v true → wa_ID app' ≠ id).
Proof. intros ->%run_noted. apply note_last. Qed.

(** ** Reports *)
Lemma observed_spec a n id :
  is_Some (ag_observed (observe p a n) !! id) ↔ id ∈ ws_ID <$> (rt_States p n).1.
Proof.
  unfold observe. cbn [ag_observed]. generalize (rt_States p n).1. intros l.
  induction l as [|s l IH] using rev_ind; [cbn; rewrite elem_of_nil; split; [by intros [? ?]|done]|].
  rewrite foldl_app, fmap_app, elem_of_app. cbn [foldl fmap list_fmap]. rewrite list_elem_of_singleton.
  destruct (decide (ws_ID s = id)) as [->|Hne].
  - rewrite lookup_insert_eq. split; [by right|by eexists].
  - rewrite lookup_insert_ne by done. rewrite IH. naive_solver.
Qed.

Context (stale_text : Z → string).

(** What one report says. *)
Lemma report_spec range a n a' msgs r :
  (∀ m, range m ≡ₚ map_to_list m) → appStatusMessages p stale_text range a n = (a', msgs) → r ∈ msgs →
  ∃ id app, ag_want a !! id = Some app ∧ as_Namespace r = wa_Namespace app ∧ as_Name r = wa_Name app ∧
    as_ObservedGeneration r = default 0 (ag_applied a !! id) ∧
    (as_Phase r = AppPhaseTerminated → wa_Deleting app = false → ∃ s, s ∈ (rt_States p n).1 ∧ ws_Phase s = AppPhaseTerminated) ∧
    (as_Phase r = AppPhaseTerminated → wa_Deleting app = true → id ∉ ws_ID <$> (rt_States p n).1) ∧
    (as_Address r ≠ "" → as_Phase r = AppPhaseRunning ∧ wa_HostNetwork app = false ∧ as_Address r = wa_Address app).
Proof.
  intros Hr. unfold appStatusMessages. intros [= <- <-] ([id app] & -> & Hin)%list_elem_of_fmap.
  cbn [ag_want observe] in Hin. rewrite Hr, elem_of_map_to_list in Hin. exists id, app. cbn [fst snd].
  unfold app_status. cbn [as_Namespace as_Name as_ObservedGeneration as_Phase as_Address ag_applied observe].
  fold (observe p a n). split_and!; try done.
  - unfold report_phase. intros Hp Hd. rewrite Hd in Hp. destruct (ag_observed (observe p a n) !! id) as [s|] eqn:Es.
    2:{ exfalso. revert Hp. by vm_compute. }
    simpl in Hp. exists s. split.
    2:{ destruct (bool_decide (ws_Phase s = "")); [done|]. done. }
    revert Es. unfold observe. cbn [ag_observed]. generalize (rt_States p n).1. intros l.
    induction l as [|s' l IH] using rev_ind; [done|]. rewrite foldl_app, elem_of_app. cbn [foldl].
    intros [[_ <-]|[_ H]]%lookup_insert_Some; [right; by apply list_elem_of_singleton|left; by apply IH].
  - unfold report_phase. intros Hp Hd. rewrite Hd in Hp. rewrite <-(observed_spec a n id).
    destruct (ag_observed (observe p a n) !! id); [done|]. by intros [? ?].
  - unfold wiredAddress. destruct (wa_HostNetwork app); [done|]. case_bool_decide as Hph; [|done]. done.
Qed.
End Life.
