(* ===== verification/AgentFleet.v ===== *)
(** * The agent against the control plane

    What the controller places, sends and erases, and what the node runs: a clean pass over a
    pushed state leaves the node with what is due there, and an object goes away only once its
    node holds nothing of it. *)
From stdpp Require Import gmap strings list.
From Stdlib Require Import ZArith Ascii.
From S2P Require Import Prelude Resources CoreV1 ApiObjects Uids Paths Admission AdmissionFacts Allocation References.
From S2P Require Import Store Integrity Tenancy Bolt ApiService ApiContract Guards Services.
From S2P Require Import DesiredState DesiredFacts DesiredTheorems NodeMetrics NodeReports ReportTheorems.
From S2P Require Import Workload Agent AgentTheorems.
#[local] Open Scope Z_scope.

Section Placed.
Context {HQ : Quantity} {HN : Netip} {Body : Type} {HW : Wire Body}.
Context {N : Type} (p : Ports N) (held : N → gset string) `{!RuntimeContract p held}.
Implicit Types (it : Application) (id : string).

(** JSON keeps what identifies an application and what decides about it. *)
Definition same_object it it' : Prop :=
  om_UID (app_meta it') = om_UID (app_meta it) ∧ app_Name it' = app_Name it ∧ app_Namespace it' = app_Namespace it ∧
  om_Generation (app_meta it') = om_Generation (app_meta it) ∧ app_NodeName it' = app_NodeName it ∧
  Deleting it' = Deleting it.

Class DecoderLaws (un : Decoder Body) : Prop :=
  un_app_marshal it b : marshal (ObjApplication it) = Ok b → ∃ it', un_app un b = Ok it' ∧ same_object it it'.

Context (un : Decoder Body) `{!DecoderLaws un}.

(** The store gives every object a uid of its own. *)
Definition distinct_uids (apps : list Object) : Prop :=
  ∀ a b, ObjApplication a ∈ apps → ObjApplication b ∈ apps → om_UID (app_meta a) = om_UID (app_meta b) → a = b.

Lemma decoded_elem {A} (f : Body → result error A) bs x : x ∈ decoded f bs ↔ ∃ b, b ∈ bs ∧ f b = Ok x.
Proof.
  unfold decoded. rewrite list_elem_of_omap. split; intros (b & Hb & Hf); exists b; (split; [done|]); destruct (f b);
    by simplify_eq.
Qed.

(** What the node decodes is what was due. *)
Lemma pushed_apps sur node srv srv' (ds : Desired Body) sig apps :
  desiredState sur node srv = (srv', Ok (ds, sig)) → sur_list sur "Application" = Ok apps →
  (∀ it', it' ∈ de_apps (decodeDesired un ds) → ∃ it, ObjApplication it ∈ apps ∧ due node it = true ∧ same_object it it') ∧
  (∀ it, ObjApplication it ∈ apps → due node it = true → ∃ it', it' ∈ de_apps (decodeDesired un ds) ∧ same_object it it').
Proof.
  unfold desiredState. destruct (build sur node srv) as [s r] eqn:E. destruct r as [[d parts]|]; [|done].
  intros [= -> -> _] Ha.
  apply build_inv in E as (apps' & pvs' & g & vols & sbs & ssig & refs & via & tbs & tsig & ts & choice & nets & cache &
    toks & routes & rules & E1 & _ & Hg & _ & _ & _ & _ & _ & _ & _ & -> & _). rewrite Ha in E1. injection E1 as <-.
  unfold decodeDesired. cbn [de_apps ds_Applications]. split.
  - intros it' (b & Hb & Hu)%decoded_elem.
    apply (Forall2_Ok_elem (λ a, marshal (ObjApplication a)) _ _ _ (gs_bodies _ _ Hg)) in Hb as (it & Hit & Hm).
    apply due_apps_elem in Hit as [Hin Hd]. destruct (un_app_marshal _ _ Hm) as (it2 & Hu2 & Hs). exists it.
    rewrite Hu in Hu2. injection Hu2 as <-. done.
  - intros it Hin Hd. assert (it ∈ due_apps node apps) as Hit by (by apply due_apps_elem).
    apply list_elem_of_lookup_1 in Hit as [i Hit].
    destruct (Forall2_lookup_l _ _ _ _ _ (gs_bodies _ _ Hg) Hit) as (b & Hb & Hm).
    destruct (un_app_marshal _ _ Hm) as (it' & Hu & Hs). exists it'. split; [|done]. apply decoded_elem.
    exists b. split; [by eapply list_elem_of_lookup_2|done].
Qed.

(** C24: From the stored objects to the running workloads: when the controller has built a
    node's state and the node's pass over it met no failure, every workload the node holds is
    a stored application placed on it, neither being deleted nor a finished job; and every
    such application whose volumes the node backs has been applied at its stored generation. *)
Theorem node_runs_what_is_due sur node srv srv' (ds : Desired Body) sig apps range a n a' x :
  desiredState sur node srv = (srv', Ok (ds, sig)) → sur_list sur "Application" = Ok apps → distinct_uids apps →
  (∀ m, range m ≡ₚ map_to_list m) → Reconcile p node range (decodeDesired un ds) a n = (a', x) →
  ps_errs x = [] → clean_log (ps_log x) →
  (∀ id, id ∈ held (ps_node x) →
     ∃ it, ObjApplication it ∈ apps ∧ om_UID (app_meta it) = id ∧ app_NodeName it = node ∧
       Deleting it = false ∧ Finished it = false) ∧
  (∀ it, ObjApplication it ∈ apps → om_UID (app_meta it) ≠ "" → app_NodeName it = node →
     Deleting it = false → Finished it = false →
     ∃ app, ag_want a' !! om_UID (app_meta it) = Some app ∧
       (vo_Fits p app (myPVs node (de_pvs (decodeDesired un ds))) = true →
        ∃ app' vols, CApply app' vols true ∈ ps_log x ∧ wa_ID app' = om_UID (app_meta it) ∧
          wa_Generation app' = om_Generation (app_meta it))).
Proof.
  intros Hds Ha Hdist Hr Hrec Herr Hclean. destruct (pushed_apps _ _ _ _ _ _ _ Hds Ha) as [P1 P2].
  destruct (pass_settles_held p node held range _ a n a' x Hr Hrec Herr Hclean) as [S1 S2].
  pose proof (Reconcile_inv _ _ _ _ _ _ _ _ Hrec) as (Hw & _). split.
  - intros id Hid. destruct (S1 id Hid) as (app & Happ & Hdel & _).
    apply wanted_spec in Happ as (it' & Hin & (T1 & _ & _ & _ & _ & T6 & _) & _ & Hii & _).
    destruct (P1 it' Hin) as (it & Hit & [Hnode Hfin]%due_spec & (U1 & _ & _ & _ & U5 & U6)). exists it.
    rewrite Hdel, U6 in T6. split_and!; [done|congruence|done|done|].
    destruct (Finished it); [|done]. specialize (Hfin eq_refl). congruence.
  - intros it Hit Hu Hnode Hdel Hfin.
    assert (due node it = true) as Hdue by (apply due_spec; split; [done|by rewrite Hfin]).
    destruct (P2 it Hit Hdue) as (it' & Hin & (U1 & _ & _ & U4 & U5 & U6)).
    destruct (wanted_some node _ it' Hin) as [app Happ]; [congruence|congruence|]. rewrite U1 in Happ.
    exists app. rewrite Hw. split; [done|]. intros Hf.
    pose proof (wanted_spec _ _ _ _ Happ) as (it2 & Hin2 & (T1 & _ & _ & T4 & _ & T6 & _) & _ & Hii & _).
    destruct (P1 it2 Hin2) as (it3 & Hit3 & _ & (V1 & _ & _ & V4 & _ & V6)).
    assert (it3 = it) as -> by (apply Hdist; [done|done|congruence]).
    destruct (S2 _ _ Happ) as (env & vols & Hc); [congruence|done|]. exists (with_secret_env env app), vols.
    split_and!; [done|done|]. change (wa_Generation app = om_Generation (app_meta it)). congruence.
Qed.
End Placed.

Section Erased.
Context {HQ : Quantity} {S E : Type} (st : Storage S E) (view : S → list Object) (ok : S → Prop)
  (ready : E → S → Prop) `{!StorageContract st view ok ready}.
Context (chain : Lister → list Plugin) `{!ReviewChain chain} `{!ReportsAlone chain}.
Context {Body Patch : Type} (lib : Libs Body Patch) (sch : Scheme) `{!ReportWire lib}.
Hypothesis json_kind : ∀ gvk b, gvk ∈ sch_m sch → obj_Kind (json_Unmarshal lib gvk b).1 = gvk_Kind gvk.
Context {N : Type} (p : Ports N) (held : N → gset string) `{!RuntimeContract p held} (stale_text : Z → string).

(** What the agent reports under the name of [o] it reports of [o] itself, not of an object of
    another uid that bore the name. *)
Definition reports_current (ag : AgentState) (o : Application) : Prop :=
  ∀ id wa, ag_want ag !! id = Some wa → wa_Namespace wa = app_Namespace o → wa_Name wa = app_Name o →
    id = om_UID (app_meta o).

(** C25: An object is erased only when its node holds nothing of it: if taking an agent's
    report erases an application, and the agent knew under that name the application of that
    uid, then it wanted it gone and its runtime, whose listing had not failed, held no workload
    of that uid.  (The controller compares names only: see [stale_report_erases].) *)
Theorem erased_only_when_gone P now e1 e2 e3 node range ag n ag' msgs r s s' res o :
  ApiRun st view ok ready chain lib sch P s → ready_for st ready chain lib sch [e1; e2; e3] s → clean (as_Namespace r) →
  (∀ m, range m ≡ₚ map_to_list m) → appStatusMessages p stale_text range ag n = (ag', msgs) → r ∈ msgs →
  (rt_States p n).2 = None → (∀ x, x ∈ (rt_States p n).1 → ws_Phase x ≠ AppPhaseTerminated) →
  applyAppStatus st chain lib sch now e1 e2 e3 node r s = (s', res) →
  ObjApplication o ∈ view s → key (ObjApplication o) ∉ key <$> view s' → reports_current ag o →
  ∃ wa, ag_want ag !! om_UID (app_meta o) = Some wa ∧ wa_Namespace wa = app_Namespace o ∧ wa_Name wa = app_Name o ∧
    wa_Deleting wa = true ∧ Deleting o = true ∧ last_hold o ∧ om_UID (app_meta o) ∉ held n.
Proof.
  intros [Hok [Hkeyed _]]%(run_ok st view ok ready chain lib sch json_kind) Hre Hcl Hr Hm Hin Hst Hph Happ Ho Hgone Hcur.
  destruct (applyAppStatus_reported st view ok ready chain lib sch json_kind _ _ _ _ _ _ _ _ _ Hok Hkeyed Hre Hcl Happ)
    as [_ [Hsame|(app & Hina & _ & Hka & Hoff & Her & _)]].
  { exfalso. apply Hgone. apply list_elem_of_fmap. exists (ObjApplication o). split; [done|by apply Hsame]. }
  assert (key (ObjApplication o) = key (ObjApplication app)) as Hk.
  { destruct (decide (key (ObjApplication o) = key (ObjApplication app))) as [|Hne]; [done|]. exfalso. apply Hgone.
    apply list_elem_of_fmap. exists (ObjApplication o). split; [done|]. by apply (Hoff _ Hne). }
  pose proof (Hkeyed _ _ Ho Hina Hk) as [= ->]. destruct Her as [Her|(Hp & Hd & Hl)]; [done|].
  destruct (report_spec p stale_text range ag n ag' msgs r Hr Hm Hin) as (id & wa & Hw & Hns & Hn & _ & R1 & R2 & _).
  apply (f_equal (λ k, (k.1.2, k.2))) in Hka. injection Hka as Hk1 Hk2.
  assert (id = om_UID (app_meta app)) as <- by (apply (Hcur id wa Hw); [by rewrite <-Hns|by rewrite <-Hn]).
  exists wa.
  destruct (wa_Deleting wa) eqn:Ed.
  2:{ exfalso. destruct (R1 Hp eq_refl) as (x & Hx & Hxp). by apply (Hph x Hx). }
  split_and!; try done; [by rewrite <-Hns|by rewrite <-Hn|].
  rewrite <-(ct_states p (held := held) n (rt_States p n).1); [by apply R2|].
  rewrite <-Hst. apply surjective_pairing.
Qed.
End Erased.

(** ** A node at work: witnesses of the agent's theorems

    A runtime that keeps a set of units, driven by an agent over the state of [NodeDemo] and
    reporting to the cluster of [ReportDemo]; and two consequences of errors the agent drops:
    a listing that fails ends a deletion whose workload is still running, and an application
    that does not decode is torn down. *)
From S2P Require Import AdmissionDemo BoltService ServicesTheorems.
From S2P Require Import DesiredPush.
Module AgentDemo.
Import ApiDemo.
Import ServicesDemo.
Import NanoQuantity NodeDemo ReportDemo.
#[local] Open Scope Z_scope.
(** ** A node *)
(** The units the manager holds. *)
Definition Units : Type := gset string.

(** [bus] is whether the manager answers.  As the rootless runtime has it, a removal reports
    success either way, and only the listing tells. *)
Definition demo_ports (bus : bool) : Ports Units :=
  mkPorts "systemd"
    (λ app _ n, if bus then ({[wa_ID app]} ∪ n, None) else (n, Some "no bus"))
    (λ id _ n, if bus then (n ∖ {[id]}, None) else (n, None))
    (λ n, if bus then ((λ id, mkState id AppPhaseRunning 0 0 0 "") <$> elements n, None) else ([], Some "no bus"))
    (λ _ _, Err "no sample")
    (λ _ n, (n, None)) (λ _ _, true) (λ _ _ n, (n, Ok [])) (λ _ _ n, (n, None))
    (λ _ _ _ n, (n, Ok [])) (λ _ _ _ n, (n, Ok [])) (λ _, ∅)
    false (λ _, Err "no helper") (λ _ _ n, (n, None)) (λ _ n, (n, None)).

#[export] Instance demo_contract : RuntimeContract (demo_ports true) (λ n, n).
Proof.
  split; cbn.
  - intros app vols n n' r [= <- _] id Hid. set_solver.
  - intros name g n n' r [= <- <-]. split_and!; set_solver.
  - intros n l [= <-] id. rewrite <-list_fmap_compose. rewrite list_elem_of_fmap. split.
    + intros (j & -> & Hj). by apply elem_of_elements.
    + intros Hid. exists id. split; [done|]. by apply elem_of_elements.
  - by intros v n n' r [= <- _].
  - by intros app v n n' r [= <- _].
  - by intros v w n n' r [= <- _].
  - by intros app a b n n' r [= <- _].
  - by intros app a b n n' r [= <- _].
  - by intros ids n n' r [= <- _].
Qed.

Definition in_order (m : gmap string App) : list (string * App) := map_to_list m.
Lemma in_order_perm m : in_order m ≡ₚ map_to_list m.
Proof. done. Qed.

Definition demo_un : Decoder (Object + SecretStore) :=
  mkDecoder _ (λ b, match b with inl (ObjApplication a) => Ok a | _ => Err "not an Application" end)
    (λ b, match b with inl (ObjPersistentVolume v) => Ok v | _ => Err "not a PersistentVolume" end)
    (λ b, match b with inl (ObjSecret s) => Ok s | _ => Err "not a Secret" end)
    (λ b, match b with inr s => Ok s | _ => Err "not a SecretStore" end).

#[export] Instance demo_laws : DecoderLaws demo_un.
Proof. intros it b [= <-]. exists it. split; [done|]. by split_and!. Qed.

(** ** A pass over the state of the first node *)
Definition pushed : desired := decodeDesired demo_un (sent "" (told [web ""; api] "n1" fresh)).1.
Definition idle : AgentState := mkAgentState ∅ ∅ ∅.
(** A workload left by an earlier life of the node is on it. *)
Definition leftovers : Units := {["u-old"]}.
Definition pass : AgentState * Pass Units := Reconcile (demo_ports true) "n1" in_order pushed idle leftovers.

Definition first_call : Call := List.hd (CList false) (ps_log pass.2).
Lemma first_call_elem : first_call ∈ ps_log pass.2.
Proof.
  unfold first_call. assert ((length (ps_log pass.2) =? 0)%nat = false) as H by (vm_compute; reflexivity).
  destruct (ps_log pass.2); [discriminate H|]. left.
Qed.

Lemma pass_justified_witness :
  justified (demo_ports true) (myPVs "n1" (de_pvs pushed)) (de_secrets pushed) (de_stores pushed) (wanted_apps "n1" pushed) first_call.
Proof.
  apply (pass_justified (demo_ports true) "n1" in_order pushed idle leftovers pass.1 pass.2).
  - apply in_order_perm.
  - apply surjective_pairing.
  - apply first_call_elem.
Defined.

Lemma demo_run : AgentRun (demo_ports true) "n1" pass.1 ([] ++ ps_log pass.2).
Proof.
  apply (agent_pass _ _ in_order pushed idle leftovers); [apply in_order_perm|apply agent_new|apply surjective_pairing].
Defined.

Lemma observed_generation_honest_witness :
  ∃ l1 app vols l2, [] ++ ps_log pass.2 = l1 ++ CApply app vols true :: l2 ∧ wa_ID app = "u-web" ∧ wa_Generation app = 1.
Proof.
  destruct (observed_generation_honest (demo_ports true) "n1" pass.1 ([] ++ ps_log pass.2) "u-web" 1)
    as (l1 & app & vols & l2 & H1 & H2 & H3 & _).
  - apply demo_run.
  - vm_compute. reflexivity.
  - exists l1, app, vols, l2. split; [exact H1|]. split; [exact H2|exact H3].
Defined.

Lemma pass_log_clean : clean_log (ps_log pass.2).
Proof.
  assert (forallb call_done (ps_log pass.2) = true) as H by (vm_compute; reflexivity).
  intros c Hc%list_elem_of_In. rewrite forallb_forall in H. by apply H.
Qed.
Lemma pass_no_errors : ps_errs pass.2 = [].
Proof. vm_compute. reflexivity. Qed.

(** The node holds the placed workload, and nothing else. *)
Lemma node_runs_what_is_due_witness :
  "u-web" ∈ ps_node pass.2 ∧ "u-old" ∉ ps_node pass.2 ∧
  ∃ it, ObjApplication it ∈ ObjApplication <$> [web ""; api] ∧ om_UID (app_meta it) = "u-web" ∧ app_NodeName it = "n1".
Proof.
  destruct (node_runs_what_is_due (demo_ports true) (λ n, n) demo_un (fleet [web ""; api]) "n1" fresh _ _ _
    (ObjApplication <$> [web ""; api]) in_order idle leftovers pass.1 pass.2
    (sent_ok "" (told [web ""; api] "n1" fresh) ltac:(vm_compute; reflexivity)) eq_refl) as [H1 H2].
  - intros a b Ha Hb. repeat (apply elem_of_cons in Ha as [Ha|Ha]); repeat (apply elem_of_cons in Hb as [Hb|Hb]);
      try (by apply elem_of_nil in Ha); try (by apply elem_of_nil in Hb); simplify_eq; done.
  - apply in_order_perm.
  - apply surjective_pairing.
  - apply pass_no_errors.
  - apply pass_log_clean.
  - assert ("u-web" ∈ ps_node pass.2) as Hw by decided. split; [exact Hw|]. split; [decided|].
    destruct (H1 "u-web" Hw) as (it & Hi & Hu & Hn & _). exists it. split; [exact Hi|]. split; [exact Hu|exact Hn].
Defined.

(** ** The end of a deletion *)
Definition dying_app : Application := stored "red" ending.
Definition dying_uid : string := om_UID (app_meta dying_app).

(** The agent of [n1] after the push of an application [red/web] of the given uid that is being
    deleted. *)
Definition departing (uid : string) : App :=
  with_tokens ∅ (FromApplication (mkApplication (mkObjectMeta "red" "web" uid "" 2 ∅ ∅ 10 (Some 77) [] [])
    (demo_spec "n1" 1 None []) (mkAppStatus 0 "" "" "" None 0 0))).
Definition ending_agent (uid : string) : AgentState := mkAgentState {[uid := departing uid]} ∅ ∅.
Definition no_text (_ : Z) : string := "".

Definition reports (bus : bool) (uid : string) (n : Units) : AgentState * list AppStatus :=
  appStatusMessages (demo_ports bus) no_text in_order (ending_agent uid) n.
Definition last_report (bus : bool) (uid : string) (n : Units) : AppStatus := List.hd (gone_report "") (reports bus uid n).2.

Lemma last_report_elem bus uid n : last_report bus uid n ∈ (reports bus uid n).2.
Proof.
  unfold last_report, reports, appStatusMessages. cbn [snd observe ag_want ending_agent]. unfold in_order.
  rewrite map_to_list_singleton. left.
Qed.

Lemma ending_agent_current o : reports_current (ending_agent (om_UID (app_meta o))) o.
Proof. intros id wa Hw _ _. cbn [ending_agent ag_want] in Hw. by apply lookup_singleton_Some in Hw as [<- _]. Qed.

Definition erased (bus : bool) (uid : string) (n : Units) : RefState :=
  (demo_applyAppStatus 99 "uid" "uid" "uid" "n1" (last_report bus uid n) ending).1.

Lemma erased_only_when_gone_witness :
  ∃ wa, ag_want (ending_agent dying_uid) !! dying_uid = Some wa ∧ wa_Name wa = app_Name dying_app ∧
    dying_uid ∉ (∅ : Units) ∧ dying_uid ≠ "".
Proof.
  destruct (erased_only_when_gone ref_storage id (λ _, True) (λ _ _, True) (core_chain false) report_lib report_sch
    report_json_kind (demo_ports true) (λ n, n) no_text (λ _ _, True) 99 "uid" "uid" "uid" "n1" in_order
    (ending_agent dying_uid) ∅ (reports true dying_uid ∅).1 (reports true dying_uid ∅).2 (last_report true dying_uid ∅)
    ending (erased true dying_uid ∅)
    (demo_applyAppStatus 99 "uid" "uid" "uid" "n1" (last_report true dying_uid ∅) ending).2 dying_app)
    as (wa & H1 & _ & H2 & _ & _ & _ & H3).
  - apply ending_run.
  - apply always_ready.
  - reflexivity.
  - apply in_order_perm.
  - apply surjective_pairing.
  - apply last_report_elem.
  - reflexivity.
  - intros x Hx. cbn in Hx. by apply elem_of_nil in Hx.
  - apply surjective_pairing.
  - apply stored_elem. vm_compute. reflexivity.
  - decided.
  - exact (ending_agent_current dying_app).
  - exists wa. split; [exact H1|]. split; [exact H2|]. split; [exact H3|vm_compute; discriminate].
Defined.

(** ** Errors that are dropped *)
(** The manager does not answer: the removal reports success, the listing fails and its error
    is dropped, the teardown is reported over, and the controller erases the object of a
    workload that is still running. *)
Theorem failed_listing_erases :
  let held : Units := {[dying_uid]} in
  dying_uid ∈ held ∧ (rt_States (demo_ports false) held).2 = Some "no bus" ∧
  as_Phase (last_report false dying_uid held) = AppPhaseTerminated ∧
  key (ObjApplication dying_app) ∈ key <$> ending ∧ key (ObjApplication dying_app) ∉ key <$> erased false dying_uid held.
Proof. split; [set_solver|]. split; [done|]. split; [vm_compute; reflexivity|]. split; decided. Qed.

(** A report names its application by namespace and name.  One made of an object that is gone,
    taken after the name has been given to a new object whose deletion was asked for, erases the
    new object while its workload runs. *)
Theorem stale_report_erases :
  let held : Units := {[dying_uid]} in
  dying_uid ≠ "u-old" ∧ (rt_States (demo_ports true) held).2 = None ∧ dying_uid ∈ held ∧
  as_Phase (last_report true "u-old" held) = AppPhaseTerminated ∧
  key (ObjApplication dying_app) ∈ key <$> ending ∧ key (ObjApplication dying_app) ∉ key <$> erased true "u-old" held.
Proof.
  split; [vm_compute; discriminate|]. split; [done|]. split; [set_solver|]. split; [vm_compute; reflexivity|]. split; decided.
Qed.

(** An application the agent cannot decode is not wanted, and what runs for it is removed with
    no grace, in a pass that reports no error. *)
Definition garbled : desired :=
  decodeDesired demo_un (mkDesired [inl (ObjNamespace (mkNamespace (meta "" "red" ∅)))] [] [] [] [] [] [] []).
Definition garbled_pass : AgentState * Pass Units := Reconcile (demo_ports true) "n1" in_order garbled idle {["u-web"]}.

Theorem undecodable_torn_down :
  ps_errs garbled_pass.2 = [] ∧ CRemove "u-web" 0 true ∈ ps_log garbled_pass.2 ∧ "u-web" ∉ ps_node garbled_pass.2.
Proof.
  split; [vm_compute; reflexivity|]. split; [|decided].
  assert (existsb (λ c, match c with CRemove "u-web" 0 true => true | _ => false end) (ps_log garbled_pass.2) = true) as H
    by (vm_compute; reflexivity).
  apply existsb_exists in H as (c & Hc%list_elem_of_In & H). destruct c as [| id [] []|]; try done;
    repeat (case_match; try done).
Qed.
End AgentDemo.
