(* ===== verification/HostFS.v ===== *)
(** * The node's files (package os)

    The part of package os the node runtime uses, over a map from paths to entries.  Paths are
    absolute and split in their elements, so [filepath.Join] is concatenation.  Any operation
    may fail: [os_fault] says which, by the number of operations done before, and how much of
    a write had landed.  The state keeps every tree it went through, which is what another
    process may have seen, and [triple] is a Hoare logic whose invariant holds of each. *)
From stdpp Require Import gmap strings list.
From Stdlib Require Import ZArith Ascii.
From S2P Require Import Prelude.
#[local] Open Scope Z_scope.

(** ** The tree *)
Abbreviation Path := (list string) (only parsing).
Inductive Entry :=
| EFile (data : string) (mode : Z) (owner : Z * Z)
| EDir (mode : Z) (owner : Z * Z)
| EFifo (mode : Z).
Abbreviation Tree := (@gmap (list string) list_eq_dec list_countable Entry) (only parsing).

Inductive OsErr := NotExist | OsError (e : error).

Record FS := mkFS { fs_entries : Tree; fs_ops : nat; fs_seen : list Tree }.

(** What the host decides: which operation fails, the names of temporary files, the umask and
    the owner of what the agent creates. *)
Record OS := mkOS {
  os_fault : nat → option (OsErr * nat);
  os_rnd : nat → string;
  os_umask : Z;
  os_self : Z * Z;
}.

(** An octal mode. *)
Definition oct (u g o : Z) : Z := 64 * u + 8 * g + o.

(** [filepath.Dir] and the text of a path. *)
Definition path_Dir (p : Path) : Path := removelast p.
Definition path_text (p : Path) : string := "/" +:+ GoStrings.join "/" p.

(** A computation on the files that may fail. *)
Definition IO (E A : Type) : Type := FS → FS * result E A.
Definition io_ret {E A : Type} (a : A) : IO E A := λ fs, (fs, Ok a).
Definition io_fail {E A : Type} (e : E) : IO E A := λ fs, (fs, Err e).
Definition io_bind {E A B : Type} (m : IO E A) (k : A → IO E B) : IO E B := λ fs,
  match m fs with
  | (fs, Ok a) => k a fs
  | (fs, Err e) => (fs, Err e)
  end.
(** [r, err := m]: the error is a value. *)
Definition attempt {E E' A : Type} (m : IO E A) : IO E' (result E A) := λ fs, let '(fs, r) := m fs in (fs, Ok r).
(** [_ = m]. *)
Definition try {E E' A : Type} (m : IO E A) : IO E' unit := λ fs, ((m fs).1, Ok tt).
(** [defer d; m]. *)
Definition finally {E E' A B : Type} (m : IO E A) (d : IO E' B) : IO E A := λ fs,
  let '(fs, r) := m fs in ((d fs).1, r).
(** [if err := m; err != nil { return f(err) }]. *)
Definition wrap {E E' A : Type} (f : E → E') (m : IO E A) : IO E' A := λ fs,
  let '(fs, r) := m fs in (fs, match r with Ok a => Ok a | Err e => Err (f e) end).
(** A loop that stops at the first error. *)
Fixpoint each {E A : Type} (l : list A) (f : A → IO E unit) : IO E unit :=
  match l with
  | [] => io_ret tt
  | a :: l => io_bind (f a) (λ _, each l f)
  end.

Notation "'do*' x := m 'in' k" := (io_bind m (λ x, k))
  (at level 10, x pattern, m at level 100, k at level 200) : go_scope.
Notation "'run*' m 'in' k" := (io_bind m (λ _, k))
  (at level 10, m at level 100, k at level 200) : go_scope.

(** ** Operations *)
Section Ops.
Context (os : OS).

(** One operation: it fails as the host decides, leaving [torn], or does [f]. *)
Definition os_op {A : Type} (torn : nat → Tree → Tree) (f : nat → Tree → Tree * result OsErr A) : IO OsErr A := λ fs,
  let '(t, r) := match os_fault os (fs_ops fs) with
                 | Some (e, k) => (torn k (fs_entries fs), Err e)
                 | None => f (fs_ops fs) (fs_entries fs)
                 end in
  (mkFS t (S (fs_ops fs)) (fs_seen fs ++ [t]), r).
Definition untorn (_ : nat) (t : Tree) : Tree := t.

Definition created (mode : Z) : Z := Z.land mode (Z.lnot (os_umask os)).

Definition ReadFile (p : Path) : IO OsErr string :=
  os_op untorn (λ _ t, (t, match t !! p with
                           | Some (EFile d _ _) => Ok d
                           | Some _ => Err (OsError "not a regular file")
                           | None => Err NotExist
                           end)).

(** The directories from the root to [p], the root itself left out. *)
Definition ancestors (p : Path) : list Path := (λ n, take n p) <$> seq 1 (length p).
Definition is_dir_or_none (t : Tree) (p : Path) : bool :=
  match t !! p with Some (EDir _ _) | None => true | Some _ => false end.
Definition MkdirAll (p : Path) (mode : Z) : IO OsErr unit :=
  os_op untorn (λ _ t,
    if forallb (is_dir_or_none t) (ancestors p)
    then (foldl (λ t q, match t !! q with
                        | None => <[q := EDir (created mode) (os_self os)]> t
                        | Some _ => t
                        end) t (ancestors p), Ok tt)
    else (t, Err (OsError "not a directory"))).

Definition set_mode (mode : Z) (e : Entry) : Entry :=
  match e with EFile d _ o => EFile d mode o | EDir _ o => EDir mode o | EFifo _ => EFifo mode end.
Definition set_entry_owner (o : Z * Z) (e : Entry) : Entry :=
  match e with EFile d m _ => EFile d m o | EDir m _ => EDir m o | EFifo m => EFifo m end.
Definition Chmod (p : Path) (mode : Z) : IO OsErr unit :=
  os_op untorn (λ _ t, match t !! p with
                       | Some e => (<[p := set_mode mode e]> t, Ok tt)
                       | None => (t, Err NotExist)
                       end).
Definition Chown (p : Path) (o : Z * Z) : IO OsErr unit :=
  os_op untorn (λ _ t, match t !! p with
                       | Some e => (<[p := set_entry_owner o e]> t, Ok tt)
                       | None => (t, Err NotExist)
                       end).

(** Whether [q] is [p] or below it. *)
Definition under (p q : Path) : bool := bool_decide (take (length p) q = p).
Definition RemoveAll (p : Path) : IO OsErr unit :=
  os_op untorn (λ _ t, (filter (λ e, under p e.1 = false) t, Ok tt)).
Definition Remove (p : Path) : IO OsErr unit :=
  os_op untorn (λ _ t, match t !! p with
                       | None => (t, Err NotExist)
                       | Some _ => if bool_decide (map_Exists (λ q _, under p q = true ∧ q ≠ p) t)
                                   then (t, Err (OsError "directory not empty"))
                                   else (delete p t, Ok tt)
                       end).

(** [os.WriteFile]: a new file gets the mode; the data of an existing one is replaced. *)
Definition put_data (d : string) (mode : Z) (e : option Entry) : Entry :=
  match e with Some (EFile _ m o) => EFile d m o | _ => EFile d (created mode) (os_self os) end.
Definition WriteFile (p : Path) (d : string) (mode : Z) : IO OsErr unit :=
  os_op (λ k t, <[p := put_data (String.substring 0 k d) mode (t !! p)]> t)
    (λ _ t, match t !! p with
            | Some (EDir _ _) | Some (EFifo _) => (t, Err (OsError "is a directory"))
            | e => (<[p := put_data d mode e]> t, Ok tt)
            end).

(** [os.CreateTemp] with a pattern ending in the random part; a name that is taken is a
    failure here, where the library tries another. *)
Definition CreateTemp (dir : Path) (prefix : string) : IO OsErr Path :=
  os_op untorn (λ k t, let p := dir ++ [prefix +:+ os_rnd os k] in
    match t !! p with
    | Some _ => (t, Err (OsError "file exists"))
    | None => (<[p := EFile "" (created (oct 6 0 0)) (os_self os)]> t, Ok p)
    end).
(** [File.Write] on a file just created. *)
Definition FileWrite (p : Path) (d : string) : IO OsErr unit :=
  let put d t := match t !! p with Some (EFile old m o) => <[p := EFile (old +:+ d) m o]> t | _ => t end in
  os_op (λ k t, put (String.substring 0 k d) t) (λ _ t, (put d t, Ok tt)).
Definition FileClose : IO OsErr unit := os_op untorn (λ _ t, (t, Ok tt)).

Definition Rename (p q : Path) : IO OsErr unit :=
  os_op untorn (λ _ t, match t !! p, t !! q with
                       | None, _ => (t, Err NotExist)
                       | Some _, Some (EDir _ _) => (t, Err (OsError "file exists"))
                       | Some e, _ => (<[q := e]> (delete p t), Ok tt)
                       end).

(** The names in a directory. *)
Definition children (p : Path) (t : Tree) : list string :=
  omap (λ q, match drop (length p) q with [n] => if bool_decide (q = p ++ [n]) then Some n else None | _ => None end)
    (map_to_list t).*1.
Definition ReadDir (p : Path) : IO OsErr (list string) :=
  os_op untorn (λ _ t, (t, match t !! p with
                           | Some (EDir _ _) => Ok (children p t)
                           | Some _ => Err (OsError "not a directory")
                           | None => Err NotExist
                           end)).
Definition Mkfifo (p : Path) (mode : Z) : IO OsErr unit :=
  os_op untorn (λ _ t, match t !! p with
                       | Some _ => (t, Err (OsError "file exists"))
                       | None => (<[p := EFifo (created mode)]> t, Ok tt)
                       end).

(** ** A Hoare logic over every tree on the way *)
Definition triple {E A : Type} (Inv Pre : Tree → Prop) (m : IO E A) (Post : result E A → Tree → Prop) : Prop :=
  ∀ fs fs' r, m fs = (fs', r) → Pre (fs_entries fs) →
  Post r (fs_entries fs') ∧ ∃ new, fs_seen fs' = fs_seen fs ++ new ∧ Forall Inv new.

Lemma triple_ret {E A : Type} (Inv Pre : Tree → Prop) (a : A) (Post : result E A → Tree → Prop) :
  (∀ t, Pre t → Post (Ok a) t) → triple Inv Pre (io_ret a) Post.
Proof. intros H fs fs' r [= <- <-] Hp. split; [by apply H|]. exists []. by rewrite app_nil_r. Qed.

Lemma triple_fail {E A : Type} (Inv Pre : Tree → Prop) (e : E) (Post : result E A → Tree → Prop) :
  (∀ t, Pre t → Post (Err e) t) → triple Inv Pre (io_fail e) Post.
Proof. intros H fs fs' r [= <- <-] Hp. split; [by apply H|]. exists []. by rewrite app_nil_r. Qed.

Lemma triple_weaken {E A : Type} (Inv Pre Pre' : Tree → Prop) (m : IO E A) (Post Post' : result E A → Tree → Prop) :
  triple Inv Pre' m Post' → (∀ t, Pre t → Pre' t) → (∀ r t, Post' r t → Post r t) → triple Inv Pre m Post.
Proof. intros H H1 H2 fs fs' r E1 Hp. destruct (H fs fs' r E1) as [Hq Hs]; auto. Qed.

Lemma triple_pure {E A : Type} (Inv Pre : Tree → Prop) (φ : Prop) (m : IO E A) (Post : result E A → Tree → Prop) :
  (φ → triple Inv Pre m Post) → triple Inv (λ t, φ ∧ Pre t) m Post.
Proof. intros H fs fs' r Hr [Hφ Hp]. by eapply H. Qed.

Lemma triple_bind {E A B : Type} (Inv Pre : Tree → Prop) (m : IO E A) (k : A → IO E B) (Mid : result E A → Tree → Prop) (Post : result E B → Tree → Prop) :
  triple Inv Pre m Mid → (∀ a, triple Inv (Mid (Ok a)) (k a) Post) → (∀ e t, Mid (Err e) t → Post (Err e) t) →
  triple Inv Pre (io_bind m k) Post.
Proof.
  intros Hm Hk He fs fs' r. unfold io_bind. destruct (m fs) as [f1 r1] eqn:E1. intros Hr Hp.
  destruct (Hm _ _ _ E1 Hp) as [Hmid (n1 & S1 & F1)]. destruct r1 as [a|e].
  - destruct (Hk a _ _ _ Hr Hmid) as [Hq (n2 & S2 & F2)]. split; [done|]. exists (n1 ++ n2).
    rewrite S2, S1, app_assoc. split; [done|]. by apply Forall_app.
  - injection Hr as <- <-. split; [by apply He|]. by exists n1.
Qed.

Lemma triple_attempt {E E' A : Type} (Inv Pre : Tree → Prop) (m : IO E A) (Post : result E A → Tree → Prop) :
  triple Inv Pre m Post → triple Inv Pre (attempt (E' := E') m) (λ r t, ∃ r', r = Ok r' ∧ Post r' t).
Proof.
  intros H fs fs' r. unfold attempt. destruct (m fs) as [f1 r1] eqn:E1. intros [= <- <-] Hp.
  destruct (H _ _ _ E1 Hp). split; [by exists r1|done].
Qed.

Lemma triple_try {E E' A : Type} (Inv Pre : Tree → Prop) (m : IO E A) (Post : Tree → Prop) :
  triple Inv Pre m (λ _, Post) → triple Inv Pre (try (E' := E') m) (λ r t, r = Ok tt ∧ Post t).
Proof.
  intros H fs fs' r. unfold try. destruct (m fs) as [f1 r1] eqn:E1. intros [= <- <-] Hp.
  by destruct (H _ _ _ E1 Hp).
Qed.

Lemma triple_finally {E E' A B : Type} (Inv Pre : Tree → Prop) (m : IO E A) (d : IO E' B) (Mid Post : result E A → Tree → Prop) :
  triple Inv Pre m Mid → (∀ r, triple Inv (Mid r) d (λ _, Post r)) → triple Inv Pre (finally m d) Post.
Proof.
  intros Hm Hd fs fs' r. unfold finally. destruct (m fs) as [f1 r1] eqn:E1.
  destruct (d f1) as [f2 r2] eqn:E2. intros [= <- <-] Hp.
  destruct (Hm _ _ _ E1 Hp) as [H1 (n1 & S1 & F1)]. destruct (Hd r1 _ _ _ E2 H1) as [H2 (n2 & S2 & F2)].
  split; [done|]. exists (n1 ++ n2). cbn. rewrite S2, S1, app_assoc. split; [done|]. by apply Forall_app.
Qed.

Lemma triple_wrap {E E' A : Type} (Inv Pre : Tree → Prop) (f : E → E') (m : IO E A) (Post : result E' A → Tree → Prop) :
  triple Inv Pre m (λ r, Post (match r with Ok a => Ok a | Err e => Err (f e) end)) → triple Inv Pre (wrap f m) Post.
Proof.
  intros H fs fs' r. unfold wrap. destruct (m fs) as [f1 r1] eqn:E1. intros [= <- <-] Hp. by apply (H _ _ _ E1).
Qed.

(** The value of an error does not matter. *)
Definition outcome {E A : Type} (P : A → Tree → Prop) (Q : Tree → Prop) (r : result E A) (t : Tree) : Prop :=
  match r with Ok a => P a t | Err _ => Q t end.
Lemma triple_outcome {E E' A : Type} (Inv Pre : Tree → Prop) (f : E → E') (m : IO E A) P Q :
  triple Inv Pre m (outcome P Q) → triple Inv Pre (wrap f m) (outcome P Q).
Proof. intros H. apply triple_wrap. eapply triple_weaken; [apply H|done|]. by intros []. Qed.

Lemma triple_each {E A : Type} (Inv : Tree → Prop) (P : list A → Tree → Prop) (Q : Tree → Prop) (l : list A) (f : A → IO E unit) :
  (∀ done a, a ∈ l → triple Inv (P done) (f a) (outcome (λ _, P (done ++ [a])) Q)) →
  triple Inv (P []) (each l f) (outcome (λ _, P l) Q).
Proof.
  intros Hf. assert (∀ l' done, (∀ a, a ∈ l' → a ∈ l) →
    triple Inv (P done) (each l' f) (outcome (λ _, P (done ++ l')) Q)) as H; [|by apply (H l [])].
  intros l'. induction l' as [|a l' IH]; intros done Hl; cbn.
  - apply triple_ret. intros t. cbn. by rewrite app_nil_r.
  - eapply triple_bind; [apply Hf, Hl; left| |done]. intros []. cbn. eapply triple_weaken; [apply IH|done|].
    + intros b Hb. apply Hl. by right.
    + intros r t. by rewrite <-app_assoc.
Qed.

Lemma triple_op {A : Type} (Inv Pre : Tree → Prop) (torn : nat → Tree → Tree) (f : nat → Tree → Tree * result OsErr A)
    (Post : result OsErr A → Tree → Prop) :
  (∀ e n k t, os_fault os n = Some (e, k) → Pre t → Inv (torn k t) ∧ Post (Err e) (torn k t)) →
  (∀ k t, Pre t → Inv (f k t).1 ∧ Post (f k t).2 (f k t).1) → triple Inv Pre (os_op torn f) Post.
Proof.
  intros Ht Hf fs fs' r. unfold os_op. destruct (os_fault os (fs_ops fs)) as [[e k]|] eqn:Ef.
  - intros [= <- <-] Hp. destruct (Ht e _ k _ Ef Hp). split; [done|]. eexists. split; [done|]. by constructor.
  - destruct (f (fs_ops fs) (fs_entries fs)) as [t r1] eqn:E1. intros [= <- <-] Hp.
    destruct (Hf (fs_ops fs) _ Hp) as [H1 H2]. rewrite E1 in H1, H2. split; [done|].
    eexists. split; [done|]. by constructor.
Qed.
End Ops.
