(* ===== verification/SecretFiles.v ===== *)
(** * What the runtime writes for a workload (agent/runtime/runtime.go, userns/runtime_linux.go)

    The carriers of a workload's secrets, the environment file and the secret volumes, both
    under the RAM-backed runtime directory; and the sandbox configuration, under the state
    directory.  Go ranges over a map in any order, so the order is an argument. *)
From stdpp Require Import gmap strings list.
From Stdlib Require Import ZArith Ascii.
From S2P Require Import Prelude Paths Resources Workload HostFS.
#[local] Open Scope Z_scope.

Inductive SecretError :=
| SEOs (e : OsErr)
| SEKey (key : string)
| SENotAssignment (assignment : string)
| SEEnv (e : EnvError)
| SEVolume (mountPath : string) (e : SecretError)
| SEChown (path : list string) (uid gid : Z) (e : OsErr).

(** ** The environment *)
(** [RenderSecretEnv]. *)
Fixpoint RenderSecretEnv (secretEnv : list string) : result SecretError string :=
  match secretEnv with
  | [] => Ok ""
  | assignment :: rest =>
      match GoStrings.cut "="%char assignment with
      | None => Err (SENotAssignment assignment)
      | Some (name, value) =>
          match ValidEnvName name "env name" with
          | Some e => Err (SEEnv e)
          | None =>
              match ValidEnvValue name value with
              | Some e => Err (SEEnv e)
              | None => let* text := RenderSecretEnv rest in Ok (assignment +:+ String "010"%char text)
              end
          end
      end
  end.

(** [envNames]. *)
Definition envNames (rendered : string) : list string :=
  sort_stable String.ltb (omap (λ l, fst <$> GoStrings.cut "="%char l) (split "010"%char rendered)).

(** [IDs]. *)
Record IDs := mkIDs { id_UID : Z; id_GID : Z }.

(** [SecretMount]. *)
Record SecretMount := mkSecretMount { sm_Source : list string; sm_Target : string }.

Section Files.
Context (os : OS).
(** The first eight bytes of a SHA-256, in hexadecimal. *)
Context (sum8 : string → string).
Context (range : gmap string (list ascii) → list (string * list ascii)).

(** [SecretEnvFile], [SecretVolumeRoot] and [SecretVolumeDir]. *)
Definition SecretEnvFile (runtimeDir : list string) (id : string) : list string := runtimeDir ++ ["secretenv"; id].
Definition SecretVolumeRoot (runtimeDir : list string) (id : string) : list string := runtimeDir ++ ["secretvol"; id].
Definition SecretVolumeDir (runtimeDir : list string) (id mountPath : string) : list string :=
  SecretVolumeRoot runtimeDir id ++ [sum8 mountPath].

(** [WriteSecretEnvFile]. *)
Definition WriteSecretEnvFile (runtimeDir : list string) (id : string) (secretEnv : list string)
    : IO SecretError (option (list string)) :=
  let path := SecretEnvFile runtimeDir id in
  match secretEnv with
  | [] => run* try (RemoveAll os path) in io_ret None
  | _ =>
      match RenderSecretEnv secretEnv with
      | Err e => io_fail e
      | Ok content =>
          do* cur := attempt (ReadFile os path) in
          if match cur with Ok c => bool_decide (c = content) | Err _ => false end then io_ret (Some path)
          else
            let parent := path_Dir path in
            run* wrap SEOs (MkdirAll os parent (oct 7 0 0)) in
            run* wrap SEOs (Chmod os parent (oct 7 0 0)) in
            run* try (RemoveAll os path) in
            run* wrap SEOs (WriteFile os path content (oct 6 0 0)) in
            io_ret (Some path)
      end
  end.

(** [SecretEnvShapeChanged]. *)
Definition SecretEnvShapeChanged (runtimeDir : list string) (id : string) (secretEnv : list string) : IO SecretError bool :=
  do* onDisk := attempt (ReadFile os (SecretEnvFile runtimeDir id)) in
  io_ret
    match onDisk with
    | Err NotExist => negb (bool_decide (secretEnv = []))
    | Err (OsError _) => true
    | Ok onDisk =>
        match RenderSecretEnv secretEnv with
        | Err _ => true
        | Ok want => negb (bool_decide (envNames onDisk = envNames want))
        end
    end.

(** ** Secret volumes *)
Definition secretFileMode : Z := oct 4 0 0.
Definition secretDirMode : Z := oct 5 0 0.

(** [IDs.chown]. *)
Definition chown (o : IDs) (path : list string) : IO SecretError unit :=
  if (id_UID o <=? 0) && (id_GID o <=? 0) then io_ret tt
  else wrap (SEChown path (id_UID o) (id_GID o)) (Chown os path (id_UID o, id_GID o)).

(** [replaceSecretFile]. *)
Definition replaceSecretFile (path : list string) (data : string) (owner : IDs) : IO SecretError unit :=
  do* tmp := wrap SEOs (CreateTemp os (path_Dir path) ".tmp-") in
  finally
    (do* written := attempt (FileWrite os tmp data) in
     match written with
     | Err e => run* try (FileClose os) in io_fail (SEOs e)
     | Ok _ =>
         run* wrap SEOs (FileClose os) in
         run* wrap SEOs (Chmod os tmp secretFileMode) in
         run* chown owner tmp in
         wrap SEOs (Rename os tmp path)
     end)
    (try (E' := SecretError) (Remove os tmp)).

(** A key is a plain file name. *)
Definition plain_name (rel : string) : bool :=
  GoStrings.no_char slash rel && negb (bool_decide (rel ∈ [""; "."; ".."])).

Definition write_key (dir : list string) (owner : IDs) (entry : string * list ascii) : IO SecretError unit :=
  let '(rel, bytes) := entry in
  let data := String.string_of_list_ascii bytes in
  if negb (plain_name rel) then io_fail (SEKey rel)
  else
    do* cur := attempt (ReadFile os (dir ++ [rel])) in
    if match cur with Ok c => bool_decide (c = data) | Err _ => false end then io_ret tt
    else replaceSecretFile (dir ++ [rel]) data owner.

(** [writeSecretDir]. *)
Definition writeSecretDir (dir : list string) (content : gmap string (list ascii)) (owner : IDs) : IO SecretError unit :=
  run* wrap SEOs (MkdirAll os dir (oct 7 0 0)) in
  run* wrap SEOs (Chmod os dir (oct 7 0 0)) in
  finally
    (run* each (range content) (write_key dir owner) in
     do* entries := wrap SEOs (ReadDir os dir) in
     each entries (λ e, match content !! e with
                        | Some _ => io_ret tt
                        | None => try (Remove os (dir ++ [e]))
                        end))
    (run* try (E' := SecretError) (chown owner dir) in try (Chmod os dir secretDirMode)).

(** [WriteSecretVolumes]. *)
Definition is_secret (v : Volume) : bool :=
  match vo_Kind v with VolumeSecret => negb (bool_decide (vo_MountPath v = "")) | _ => false end.
Fixpoint write_volumes (runtimeDir : list string) (id : string) (owner : IDs) (vs : list Volume)
    : IO SecretError (list SecretMount) :=
  match vs with
  | [] => io_ret []
  | v :: vs =>
      if negb (is_secret v) then write_volumes runtimeDir id owner vs
      else
        let dir := SecretVolumeDir runtimeDir id (vo_MountPath v) in
        run* wrap (SEVolume (vo_MountPath v)) (writeSecretDir dir (vo_Content v) owner) in
        do* mounts := write_volumes runtimeDir id owner vs in
        io_ret (mkSecretMount dir (vo_MountPath v) :: mounts)
  end.
Definition WriteSecretVolumes (runtimeDir : list string) (id : string) (volumes : list Volume) (owner : IDs)
    : IO SecretError (list SecretMount) :=
  do* mounts := write_volumes runtimeDir id owner volumes in
  do* entries := attempt (ReadDir os (SecretVolumeRoot runtimeDir id)) in
  let kept := sm_Source <$> mounts in
  run* each (match entries with Ok l => l | Err _ => [] end) (λ e,
        let dir := SecretVolumeRoot runtimeDir id ++ [e] in
        if bool_decide (dir ∈ kept) then io_ret tt
        else run* try (Chmod os dir (oct 7 0 0)) in try (RemoveAll os dir)) in
  io_ret (sort_stable (λ a b, String.ltb (sm_Target a) (sm_Target b)) mounts).

(** ** The sandbox configuration *)
(** [ensureSandboxConfig]. *)
Definition ensureSandboxConfig (path : list string) (blob : string) : IO SecretError unit :=
  do* cur := attempt (ReadFile os path) in
  match cur with
  | Err (OsError e) => io_fail (SEOs (OsError e))
  | _ =>
      if match cur with Ok c => bool_decide (c = blob) | Err _ => false end then io_ret tt
      else
        run* wrap SEOs (MkdirAll os (path_Dir path) (oct 7 5 5)) in
        do* tmp := wrap SEOs (CreateTemp os (path_Dir path) ".config-") in
        finally
          (do* written := attempt (FileWrite os tmp blob) in
           match written with
           | Err e => run* try (FileClose os) in io_fail (SEOs e)
           | Ok _ =>
               do* moded := attempt (Chmod os tmp (oct 6 0 0)) in
               match moded with
               | Err e => run* try (FileClose os) in io_fail (SEOs e)
               | Ok _ =>
                   run* wrap SEOs (FileClose os) in
                   wrap SEOs (Rename os tmp path)
               end
           end)
          (try (E' := SecretError) (Remove os tmp))
  end.
End Files.

(** ** Secret files: what a reader may see, and what is left

    Every tree a rotation goes through, whatever fails, shows a key's old file or its whole new
    one, readable by the workload alone; without failures the directory ends up holding the
    keys of the secret and nothing else. *)
From stdpp Require Import gmap strings list sorting.
From S2P Require Import Prelude Paths Resources Workload HostFS.
#[local] Open Scope Z_scope.
Section Rules.
Context (os : OS).

(** ** What an operation leaves alone *)
(** The operation changes nothing at [p], not even in passing. *)
Definition spares {E A : Type} (p : list string) (m : IO E A) : Prop :=
  ∀ x, triple (λ t, t !! p = x) (λ t, t !! p = x) m (λ _ t, t !! p = x).

Lemma spares_ret {E A : Type} p (a : A) : spares p (io_ret (E := E) a).
Proof. intros x. by apply triple_ret. Qed.
Lemma spares_fail {E A : Type} p (e : E) : spares p (io_fail (A := A) e).
Proof. intros x. by apply triple_fail. Qed.
Lemma spares_bind {E A B : Type} p (m : IO E A) (k : A → IO E B) :
  spares p m → (∀ a, spares p (k a)) → spares p (io_bind m k).
Proof. intros Hm Hk x. eapply triple_bind; [apply Hm|intros a; apply Hk|done]. Qed.
Lemma spares_attempt {E E' A : Type} p (m : IO E A) : spares p m → spares p (attempt (E' := E') m).
Proof. intros Hm x. eapply triple_weaken; [apply triple_attempt, Hm|done|]. by intros r t (r' & _ & H). Qed.
Lemma spares_try {E E' A : Type} p (m : IO E A) : spares p m → spares p (try (E' := E') m).
Proof. intros Hm x. eapply triple_weaken; [apply triple_try, Hm|done|]. by intros r t [_ H]. Qed.
Lemma spares_finally {E E' A B : Type} p (m : IO E A) (d : IO E' B) : spares p m → spares p d → spares p (finally m d).
Proof. intros Hm Hd x. eapply triple_finally; [apply Hm|]. intros r. apply Hd. Qed.
Lemma spares_wrap {E E' A : Type} p (f : E → E') (m : IO E A) : spares p m → spares p (wrap f m).
Proof. intros Hm x. apply triple_wrap, Hm. Qed.
Lemma spares_each {E A : Type} p (l : list A) (f : A → IO E unit) : (∀ a, a ∈ l → spares p (f a)) → spares p (each l f).
Proof.
  induction l as [|a l IH]; intros H; cbn; [apply spares_ret|]. apply spares_bind; [apply H; left|].
  intros _. apply IH. intros b Hb. apply H. by right.
Qed.
Lemma spares_op {A : Type} p (torn : nat → Tree → Tree) (f : nat → Tree → Tree * result OsErr A) :
  (∀ k t, torn k t !! p = t !! p) → (∀ k t, (f k t).1 !! p = t !! p) → spares p (os_op os torn f).
Proof. intros H1 H2 x. apply triple_op; [intros e n k t _ <-|intros k t <-]; by rewrite ?H1, ?H2. Qed.

Lemma spares_ReadFile p q : spares p (ReadFile os q).
Proof. by apply spares_op. Qed.
Lemma spares_ReadDir p q : spares p (ReadDir os q).
Proof. by apply spares_op. Qed.
Lemma spares_FileClose p : spares p (FileClose os).
Proof. by apply spares_op. Qed.
Lemma spares_Chmod p q mode : p ≠ q → spares p (Chmod os q mode).
Proof. intros H. apply spares_op; [done|]. intros _ t. destruct (t !! q); cbn; by simplify_map_eq. Qed.
Lemma spares_Chown p q o : p ≠ q → spares p (Chown os q o).
Proof. intros H. apply spares_op; [done|]. intros _ t. destruct (t !! q); cbn; by simplify_map_eq. Qed.
Lemma spares_Remove p q : p ≠ q → spares p (Remove os q).
Proof.
  intros H. apply spares_op; [done|]. intros _ t. destruct (t !! q); [|done]. case_bool_decide; [done|]. cbn. by simplify_map_eq.
Qed.
Lemma spares_FileWrite p q d : p ≠ q → spares p (FileWrite os q d).
Proof. intros H. apply spares_op; intros k t; cbn; destruct (t !! q) as [[]|]; by simplify_map_eq. Qed.
Lemma spares_Rename p q r : p ≠ q → p ≠ r → spares p (Rename os q r).
Proof.
  intros H1 H2. apply spares_op; [done|]. intros _ t. destruct (t !! q); [|done]. destruct (t !! r) as [[]|]; cbn; by simplify_map_eq.
Qed.
Lemma spares_CreateTemp p dir prefix : (∀ k, p ≠ dir ++ [prefix +:+ os_rnd os k]) → spares p (CreateTemp os dir prefix).
Proof. intros H. apply spares_op; [done|]. intros k t. cbn. specialize (H k). destruct (t !! _); cbn; by simplify_map_eq. Qed.

Lemma ancestors_shorter p q : q ∈ ancestors p → (length q ≤ length p)%nat.
Proof. unfold ancestors. intros (n & -> & _)%list_elem_of_fmap. rewrite length_take. lia. Qed.
Lemma spares_MkdirAll p q mode : p ∉ ancestors q → spares p (MkdirAll os q mode).
Proof.
  intros H. apply spares_op; [done|]. intros _ t. destruct (forallb _ _); [|done]. cbn.
  revert t H. induction (ancestors q) as [|a l IH]; intros t H; cbn; [done|].
  rewrite IH by set_solver. destruct (t !! a); [done|]. apply lookup_insert_ne. set_solver.
Qed.
End Rules.

Create HintDb spares discriminated.
#[export] Hint Resolve spares_ret spares_fail spares_bind spares_attempt spares_try spares_finally spares_wrap
  spares_each spares_ReadFile spares_ReadDir spares_FileClose spares_Chmod spares_Chown spares_Remove
  spares_FileWrite spares_Rename : spares.

(** ** Rotation *)
Section Rotation.
Context (os : OS) (range : gmap string (list ascii) → list (string * list ascii)).

(** Who a projected key ends up belonging to. *)
Definition key_owner (o : IDs) : Z * Z :=
  if (id_UID o <=? 0) && (id_GID o <=? 0) then os_self os else (id_UID o, id_GID o).

(** The file of a projected key: the value, readable by its owner alone. *)
Definition projected_file (bytes : list ascii) (o : IDs) : Entry :=
  EFile (String.string_of_list_ascii bytes) secretFileMode (key_owner o).

(** No temporary name is the name of a key. *)
Definition fresh_names (content : gmap string (list ascii)) : Prop :=
  ∀ k rel, is_Some (content !! rel) → rel ≠ ".tmp-" +:+ os_rnd os k.

Lemma path_Dir_snoc dir (rel : string) : path_Dir (dir ++ [rel]) = dir.
Proof. unfold path_Dir. apply removelast_last. Qed.
Lemma child_ne_dir (dir : list string) rel : dir ++ [rel] ≠ dir.
Proof. intros H%(f_equal length). rewrite length_app in H. cbn in H. lia. Qed.
Lemma child_not_ancestor dir (rel : string) : dir ++ [rel] ∉ ancestors dir.
Proof. intros H%ancestors_shorter. rewrite length_app in H. cbn in H. lia. Qed.
Lemma spares_chown p (o : IDs) q : p ≠ q → spares p (chown os o q).
Proof. intros H. unfold chown. destruct (_ && _); eauto with spares. Qed.

(** A temporary file: fresh, and empty. *)
Definition temp_of (dir tmp : list string) : Prop := ∃ k, tmp = dir ++ [".tmp-" +:+ os_rnd os k].
Lemma temp_ne dir rel tmp : (∀ k, rel ≠ ".tmp-" +:+ os_rnd os k) → temp_of dir tmp → dir ++ [rel] ≠ tmp.
Proof. intros H (k & ->) Hk. apply app_inj_2 in Hk as [_ [= Hk]]; [|done]. by apply (H k). Qed.

Lemma CreateTemp_triple (Inv : Tree → Prop) dir :
  (∀ t tmp e, temp_of dir tmp → Inv t → Inv (<[tmp := e]> t)) →
  triple Inv Inv (CreateTemp os dir ".tmp-")
    (outcome (λ tmp t, temp_of dir tmp ∧ Inv t ∧ ∃ m, t !! tmp = Some (EFile "" m (os_self os))) Inv).
Proof.
  intros HI. apply triple_op; [done|]. intros k t Ht. cbn. destruct (t !! (dir ++ [_])) eqn:E; cbn; [done|].
  assert (temp_of dir (dir ++ [".tmp-" +:+ os_rnd os k])) as Hk by (by exists k).
  split; [by apply HI|]. split; [done|]. split; [by apply HI|]. eexists. by rewrite lookup_insert_eq.
Qed.

(** Replacing one key leaves every other name alone, but for the temporary ones. *)
Lemma spares_replace dir rel rel' data o :
  rel ≠ rel' → (∀ k, rel ≠ ".tmp-" +:+ os_rnd os k) → spares (dir ++ [rel]) (replaceSecretFile os (dir ++ [rel']) data o).
Proof.
  intros Hne Hfresh x. unfold replaceSecretFile. rewrite path_Dir_snoc.
  eapply triple_bind; [apply triple_outcome, (CreateTemp_triple (λ t, t !! (dir ++ [rel]) = x))| |done].
  { intros t tmp e Htmp <-. apply lookup_insert_ne. intros He. symmetry in He. revert He. by apply temp_ne. }
  intros tmp. cbn. apply triple_pure. intros Htmp. pose proof (temp_ne _ _ _ Hfresh Htmp) as Hp.
  assert (dir ++ [rel] ≠ dir ++ [rel']) as Hq by (intros [_ [= ?]]%app_inj_2; done).
  apply triple_weaken with (Pre' := λ t, t !! (dir ++ [rel]) = x) (Post' := λ _ t, t !! (dir ++ [rel]) = x);
    [|by intros t [H _]|done]. revert x.
  change (spares (dir ++ [rel]) (finally (do* written := attempt (FileWrite os tmp data) in
     match written with
     | Err e => run* try (FileClose os) in io_fail (SEOs e)
     | Ok _ => run* wrap SEOs (FileClose os) in run* wrap SEOs (Chmod os tmp secretFileMode) in
         run* chown os o tmp in wrap SEOs (Rename os tmp (dir ++ [rel']))
     end) (try (E' := SecretError) (Remove os tmp)))).
  apply spares_finally; [|by eauto with spares]. apply spares_bind; [by eauto with spares|].
  intros [|]; repeat first [apply spares_bind; [by eauto using spares_chown with spares|intros _]]; eauto with spares.
Qed.

(** The life of a temporary file, under an invariant that does not look at it. *)
Section Temp.
Context (Inv : Tree → Prop) (tmp : list string).
Hypothesis stable_insert : ∀ t e, Inv t → Inv (<[tmp := e]> t).

(** The temporary file holds [d] under this mode and owner. *)
Definition temp_holds (d : string) (mode : Z) (o : Z * Z) (t : Tree) : Prop := Inv t ∧ t !! tmp = Some (EFile d mode o).

Lemma FileWrite_triple d m o :
  triple Inv (temp_holds "" m o) (FileWrite os tmp d) (outcome (λ _, temp_holds d m o) Inv).
Proof.
  apply triple_op; [intros e n k t _ [Ht Htmp]|intros k t [Ht Htmp]]; cbn; rewrite Htmp; cbn.
  - split; by apply stable_insert.
  - split; [by apply stable_insert|]. split; [by apply stable_insert|]. by rewrite lookup_insert_eq.
Qed.
Lemma FileClose_triple d m o : triple Inv (temp_holds d m o) (FileClose os) (outcome (λ _, temp_holds d m o) Inv).
Proof. by apply triple_op; [intros e n k t _ [Ht _]|intros k t [Ht Htmp]]. Qed.
Lemma Chmod_triple d m m' o : triple Inv (temp_holds d m o) (Chmod os tmp m') (outcome (λ _, temp_holds d m' o) Inv).
Proof.
  apply triple_op; [by intros e n k t _ [Ht _]|intros k t [Ht Htmp]]. cbn. rewrite Htmp. cbn.
  split; [by apply stable_insert|]. split; [by apply stable_insert|]. by rewrite lookup_insert_eq.
Qed.
Lemma chown_triple d m (o : IDs) :
  triple Inv (temp_holds d m (os_self os)) (chown os o tmp) (outcome (λ _, temp_holds d m (key_owner o)) Inv).
Proof.
  unfold chown, key_owner. destruct (_ && _); [by apply triple_ret|]. apply triple_outcome.
  apply triple_op; [by intros e n k t _ [Ht _]|intros k t [Ht Htmp]]. cbn. rewrite Htmp. cbn.
  split; [by apply stable_insert|]. split; [by apply stable_insert|]. by rewrite lookup_insert_eq.
Qed.
End Temp.

(** The key shows its old entry or its new file. *)
Definition old_or_new dir rel bytes o (old : option Entry) (t : Tree) : Prop :=
  t !! (dir ++ [rel]) = old ∨ t !! (dir ++ [rel]) = Some (projected_file bytes o).

Lemma replace_shows dir rel bytes o old :
  (∀ k, rel ≠ ".tmp-" +:+ os_rnd os k) →
  triple (old_or_new dir rel bytes o old) (old_or_new dir rel bytes o old)
    (replaceSecretFile os (dir ++ [rel]) (String.string_of_list_ascii bytes) o)
    (outcome (λ _ t, t !! (dir ++ [rel]) = Some (projected_file bytes o)) (old_or_new dir rel bytes o old)).
Proof.
  intros Hfresh. set (Inv := old_or_new dir rel bytes o old). unfold replaceSecretFile. rewrite path_Dir_snoc.
  assert (∀ tmp t e, temp_of dir tmp → Inv t → Inv (<[tmp := e]> t)) as Hst.
  { intros tmp t e Htmp. unfold Inv, old_or_new. rewrite lookup_insert_ne; [done|]. intros He. symmetry in He. revert He.
    by apply temp_ne. }
  eapply triple_bind; [apply triple_outcome, (CreateTemp_triple Inv); eauto| |done].
  intros tmp. cbn. apply triple_pure. intros Htmp. pose proof (temp_ne _ _ _ Hfresh Htmp) as Hp.
  set (Q := outcome (E := SecretError) (λ _ : unit, λ t : Tree, t !! (dir ++ [rel]) = Some (projected_file bytes o)) Inv).
  apply triple_finally with (Mid := Q).
  2:{ intros r. eapply triple_weaken with (Post' := λ r' t, r' = Ok tt ∧ Q r t); [apply triple_try|done|by intros ? t [_ H]].
      apply triple_op; [intros e n k t _ H|intros k t H; cbn; destruct (t !! tmp); [case_bool_decide|]; cbn].
      all: assert (Inv t) by (destruct r; [by right|done]).
      all: split; [try done|try done].
      - unfold Inv, old_or_new. by rewrite lookup_delete_ne.
      - destruct r; cbn in *; [|unfold Inv, old_or_new in *]; by rewrite lookup_delete_ne. }
  intros fs fs' r Hr [Ht [m Hm]]. revert Hr.
  assert (temp_holds Inv tmp "" m (os_self os) (fs_entries fs)) as Hpre by (by split). revert Hpre.
  cut (triple Inv (temp_holds Inv tmp "" m (os_self os)) (do* written := attempt (FileWrite os tmp (String.string_of_list_ascii bytes)) in
     match written with
     | Err e => run* try (FileClose os) in io_fail (SEOs e)
     | Ok _ => run* wrap SEOs (FileClose os) in run* wrap SEOs (Chmod os tmp secretFileMode) in
         run* chown os o tmp in wrap SEOs (Rename os tmp (dir ++ [rel]))
     end) Q); [intros H Hpre Hr; by apply (H fs fs' r)|].
  eapply triple_bind; [apply triple_attempt, FileWrite_triple; eauto| |by intros e t (r' & ? & _)].
  intros w. cbn. eapply triple_weaken with (Pre' := λ t, outcome (λ _, temp_holds Inv tmp (String.string_of_list_ascii bytes) m (os_self os)) Inv w t);
    [|by intros t (r' & [= <-] & H)|done].
  destruct w as [[]|e]; cbn.
  - eapply triple_bind; [eapply triple_outcome, FileClose_triple| |done]. intros []. cbn.
    eapply triple_bind; [eapply triple_outcome, Chmod_triple; eauto| |done]. intros []. cbn.
    eapply triple_bind; [eapply chown_triple; eauto| |done]. intros []. cbn. apply triple_outcome.
    apply triple_op; [by intros e n k t _ [H _]|]. intros k t [H Hf]. cbn. rewrite Hf.
    destruct (t !! (dir ++ [rel])) as [[]|] eqn:Eo; cbn; try done.
    all: unfold Inv, old_or_new; rewrite lookup_insert_eq; by auto.
  - eapply triple_bind with (Mid := λ _, Inv); [|intros a; by apply triple_fail|done].
    eapply triple_weaken; [apply (triple_try Inv Inv (FileClose os) Inv)|done|by intros ? t [_ H]]. by apply triple_op.
Qed.

Definition shows_value dir rel bytes (t : Tree) : Prop :=
  ∃ m o, t !! (dir ++ [rel]) = Some (EFile (String.string_of_list_ascii bytes) m o).

Lemma spares_keeps {E A : Type} p (m : IO E A) (Inv : Tree → Prop) (P : option Entry → Prop) :
  spares p m → (∀ t, P (t !! p) → Inv t) → triple Inv (λ t, P (t !! p)) m (λ _ t, P (t !! p)).
Proof.
  intros Hm HI fs fs' r Hr Hp. destruct (Hm _ _ _ _ Hr eq_refl) as [H (new & Hs & Hf)]. split; [by rewrite H|].
  exists new. split; [done|]. eapply Forall_impl; [apply Hf|]. intros t Ht. apply HI. by rewrite Ht.
Qed.

Lemma write_key_shows dir rel bytes o old :
  (∀ k, rel ≠ ".tmp-" +:+ os_rnd os k) →
  triple (old_or_new dir rel bytes o old) (old_or_new dir rel bytes o old) (write_key os dir o (rel, bytes))
    (outcome (λ _ t, old_or_new dir rel bytes o old t ∧ shows_value dir rel bytes t) (old_or_new dir rel bytes o old)).
Proof.
  intros Hfresh. set (Inv := old_or_new dir rel bytes o old). unfold write_key. destruct (plain_name rel); cbn [negb].
  2:{ by apply triple_fail. }
  eapply triple_bind with (Mid := λ r t, Inv t ∧ ∃ cur, r = Ok cur ∧ ∀ c, cur = Ok c → ∃ m w, t !! (dir ++ [rel]) = Some (EFile c m w));
    [| |by intros e t [H _]].
  { eapply triple_weaken; [apply triple_attempt, triple_op with (Pre := Inv)
      (Post := λ cur t, Inv t ∧ ∀ c, cur = Ok c → ∃ m w, t !! (dir ++ [rel]) = Some (EFile c m w))|done|].
    - done.
    - intros k t Ht. cbn. split; [done|]. split; [done|]. intros c. destruct (t !! (dir ++ [rel])) as [[]|]; try done.
      intros [= ->]. eauto.
    - intros r t (cur & -> & H1 & H2). split; [done|]. by exists cur. }
  intros cur. eapply triple_weaken with (Pre' := λ t, Inv t ∧ ∀ c, cur = Ok c → ∃ m w, t !! (dir ++ [rel]) = Some (EFile c m w));
    [|by intros t (H & r' & [= <-] & H')|done].
  destruct (match cur with Ok c => _ | Err _ => _ end) eqn:Ec.
  - apply triple_ret. intros t [Ht Hc]. split; [done|]. destruct cur as [c|]; [|done]. apply bool_decide_eq_true in Ec as ->.
    by apply Hc.
  - eapply triple_weaken; [apply replace_shows, Hfresh|by intros t [H _]|]. intros [[]|e] t Ht; [|done]. cbn in Ht.
    split; [by right|]. unfold shows_value. rewrite Ht. by eauto.
Qed.

Lemma spares_write_key dir rel o x :
  rel ≠ x.1 → (∀ k, rel ≠ ".tmp-" +:+ os_rnd os k) → spares (dir ++ [rel]) (write_key os dir o x).
Proof.
  intros Hne Hfresh. unfold write_key. destruct x as [rel' b]. destruct (negb _); [by eauto with spares|].
  apply spares_bind; [by eauto with spares|]. intros cur. destruct (match cur with Ok _ => _ | _ => _ end); [by eauto with spares|].
  by apply spares_replace.
Qed.

(** The loop over the keys, seen from one of them. *)
Lemma write_keys_show dir content o rel bytes old :
  (∀ m, range m ≡ₚ map_to_list m) → fresh_names content → content !! rel = Some bytes →
  triple (old_or_new dir rel bytes o old) (old_or_new dir rel bytes o old) (each (range content) (write_key os dir o))
    (outcome (λ _ t, old_or_new dir rel bytes o old t ∧ shows_value dir rel bytes t) (old_or_new dir rel bytes o old)).
Proof.
  intros Hr Hfresh Hrel. assert (∀ k, rel ≠ ".tmp-" +:+ os_rnd os k) as Hf by (intros k; apply Hfresh; eauto).
  set (Inv := old_or_new dir rel bytes o old).
  eapply triple_weaken; [apply triple_each with (Inv := Inv) (Q := Inv)
    (P := λ done t, Inv t ∧ ((rel, bytes) ∈ done → shows_value dir rel bytes t))| |].
  - intros done [rel' b'] Hin. destruct (decide (rel = rel')) as [<-|Hne].
    + assert (b' = bytes) as ->.
      { rewrite Hr in Hin. apply elem_of_map_to_list in Hin. congruence. }
      eapply triple_weaken; [apply write_key_shows, Hf|by intros t [H _]|]. intros [[]|e] t; [|done]. cbn. intros [H1 H2]. by split.
    + eapply triple_weaken; [apply (spares_keeps (dir ++ [rel])) with (Inv := Inv)
        (P := λ e, (e = old ∨ e = Some (projected_file bytes o)) ∧
           ((rel, bytes) ∈ done → ∃ m w, e = Some (EFile (String.string_of_list_ascii bytes) m w)))|done|].
      * by apply spares_write_key.
      * by intros t [H _].
      * intros [[]|e] t; cbn; [|by intros [H _]]. intros [H1 H2]. split; [done|]. intros [H|[= ? ?]%list_elem_of_singleton]%elem_of_app; [by apply H2|done].
  - intros t H. split; [done|]. intros H'%not_elem_of_nil. done.
  - intros [[]|e] t; cbn; [|done]. intros [H1 H2]. split; [done|]. apply H2. rewrite Hr. by apply elem_of_map_to_list.
Qed.

(** C30: A secret is rotated under a running workload without it ever reading a half-written,
    missing or wrongly owned file: in every tree the rewriting of a secret directory goes
    through, whatever operation fails and in whatever order the keys are taken, a key of the
    secret shows the entry it had or the whole new value, readable by the workload's identity
    alone; and a rewriting that reports success leaves the new value under the key.  (The
    temporary names are assumed not to be keys of the secret.) *)
Theorem rotation_atomic dir content owner rel bytes fs fs' r :
  (∀ m, range m ≡ₚ map_to_list m) → fresh_names content → content !! rel = Some bytes →
  writeSecretDir os range dir content owner fs = (fs', r) →
  (∃ new, fs_seen fs' = fs_seen fs ++ new ∧
     ∀ t, t ∈ new → t !! (dir ++ [rel]) = fs_entries fs !! (dir ++ [rel]) ∨
                    t !! (dir ++ [rel]) = Some (projected_file bytes owner)) ∧
  (r = Ok tt → ∃ m o, fs_entries fs' !! (dir ++ [rel]) = Some (EFile (String.string_of_list_ascii bytes) m o)).
Proof.
  intros Hr Hfresh Hrel Hw. set (old := fs_entries fs !! (dir ++ [rel])). set (Inv := old_or_new dir rel bytes owner old).
  set (P := λ t, Inv t ∧ shows_value dir rel bytes t).
  assert (∀ (E : Type) (m : IO E unit) (Q : Tree → Prop), spares (dir ++ [rel]) m → Q = Inv ∨ Q = P → triple Inv Q m (λ _, Q)) as Hkeep.
  { intros E m Q Hm [->| ->]; [apply (spares_keeps _ _ Inv (λ e, e = old ∨ e = Some (projected_file bytes owner)) Hm); done|].
    apply (spares_keeps _ _ Inv (λ e, (e = old ∨ e = Some (projected_file bytes owner)) ∧
      ∃ m w, e = Some (EFile (String.string_of_list_ascii bytes) m w)) Hm). by intros t [H _]. }
  pose proof (child_ne_dir dir rel) as Hcd.
  cut (triple Inv Inv (writeSecretDir os range dir content owner) (outcome (λ _, P) Inv)).
  { intros Ht. destruct (Ht _ _ _ Hw) as [Hp (new & Hs & Hf)]; [by left|]. split; [|by intros ->; apply Hp].
    exists new. split; [done|]. rewrite Forall_forall in Hf. intros t. apply Hf. }
  unfold writeSecretDir.
  eapply triple_bind with (Mid := λ _, Inv); [apply Hkeep; [|by left]|intros _|done].
  { apply spares_wrap, spares_MkdirAll, child_not_ancestor. }
  eapply triple_bind with (Mid := λ _, Inv); [apply Hkeep; [by eauto with spares|by left]|intros _|done].
  apply triple_finally with (Mid := outcome (λ _, P) Inv).
  - eapply triple_bind; [by apply write_keys_show| |done]. intros []. cbn.
    eapply triple_bind with (Mid := λ _, P); [|intros entries|by intros e t [H _]].
    { eapply (spares_keeps (dir ++ [rel])) with (P := λ e, (e = old ∨ e = Some (projected_file bytes owner)) ∧
        ∃ m w, e = Some (EFile (String.string_of_list_ascii bytes) m w)); [by eauto with spares|by intros t [H _]]. }
    eapply triple_weaken; [apply (Hkeep _ _ P); [|by right]|done|by intros [[]|e] t H; [|destruct H]].
    apply spares_each. intros e _. destruct (content !! e) eqn:Ee; [by eauto with spares|]. apply spares_try, spares_Remove.
    intros [_ [= <-]]%app_inj_2; [|done]. congruence.
  - intros res. eapply triple_weaken with (Post' := λ _, outcome (λ _, P) Inv res); [|done|done].
    assert (spares (dir ++ [rel]) (run* try (E' := SecretError) (chown os owner dir) in try (E' := SecretError) (Chmod os dir secretDirMode))) as Hs.
    { apply spares_bind; [by apply spares_try, spares_chown|intros _; by eauto with spares]. }
    destruct res; apply Hkeep; auto.
Qed.
End Rotation.

(** ** The environment file *)
Definition env_name (assignment : string) : option string := fst <$> GoStrings.cut "="%char assignment.

Lemma no_lf_rest s : env_rest s = true → GoStrings.no_char "010"%char s = true.
Proof.
  induction s as [|c s IH]; cbn; [done|]. intros [Hc Hs]%andb_true_iff. rewrite IH by done. rewrite andb_true_r.
  rewrite negb_true_iff, bool_decide_eq_false. by intros ->.
Qed.

Lemma rendered_lines env text :
  RenderSecretEnv env = Ok text →
  split "010"%char text = env ++ [""] ∧ Forall (λ a, ∃ n v, GoStrings.cut "="%char a = Some (n, v)) env.
Proof.
  revert text. induction env as [|a env IH]; intros text; cbn; [by intros [= <-]|].
  destruct (GoStrings.cut "="%char a) as [[n v]|] eqn:Ec; [|done]. destruct (ValidEnvName n _) eqn:En; [done|].
  destruct (ValidEnvValue n v) eqn:Ev; [done|]. destruct (RenderSecretEnv env) as [rest|] eqn:Er; [|done]. intros [= <-].
  destruct (IH _ eq_refl) as [IH1 IH2]. split; [|by constructor; eauto].
  rewrite split_app; [by rewrite IH1|]. apply GoStrings.cut_Some in Ec as [-> _].
  apply ValidEnvName_rest, no_lf_rest in En. unfold ValidEnvValue in Ev. destruct (ContainsAny v control_chars) eqn:Ea; [done|].
  rewrite ContainsAny_false in Ea. rewrite GoStrings.no_char_app, En. cbn. apply Ea. unfold control_chars. left.
Qed.

Lemma rendered_names env text :
  RenderSecretEnv env = Ok text → envNames text ≡ₚ omap env_name env ∧ length (omap env_name env) = length env.
Proof.
  intros [Hs Hf]%rendered_lines. unfold envNames. rewrite Hs, sort_stable_perm, omap_app. split; [by rewrite app_nil_r|].
  clear Hs. induction Hf as [|a env (n & v & Ha) _ IH]; [done|]. cbn. unfold env_name at 1. rewrite Ha. cbn. by rewrite IH.
Qed.

Lemma sort_strings_perm l l' : l ≡ₚ l' → sort_stable String.ltb l = sort_stable String.ltb l'.
Proof.
  intros Hp. assert (∀ k, StronglySorted (λ a b, String.leb a b = true) (sort_stable String.ltb k)) as Hs.
  { intros k. eapply StronglySorted_weaken; [|apply (sort_stable_sorted _ (string_key_strict_weak id))].
    intros a b. unfold not_after. by rewrite string_ltb_leb, negb_false_iff. }
  eapply (StronglySorted_unique_strong (λ a b, String.leb a b = true)); [|done..|].
  - intros a b _ _. apply string_leb_antisym.
  - by rewrite !sort_stable_perm.
Qed.

Lemma envNames_equal env env' text text' :
  RenderSecretEnv env = Ok text → RenderSecretEnv env' = Ok text' →
  envNames text = envNames text' ↔ omap env_name env ≡ₚ omap env_name env'.
Proof.
  intros H H'. destruct (rendered_names _ _ H) as [P _], (rendered_names _ _ H') as [P' _]. split.
  - intros E. by rewrite <-P, E.
  - intros E. unfold envNames in *. rewrite sort_stable_perm in P, P'. apply sort_strings_perm. by rewrite P, P'.
Qed.

Section EnvFile.
Context (os : OS).
Hypothesis no_fault : ∀ k, os_fault os k = None.

(** What the environment file holds once it is written. *)
Definition env_file_holds (path : list string) (env : list string) (t : Tree) : Prop :=
  match env with
  | [] => t !! path = None
  | _ => ∃ text m o, RenderSecretEnv env = Ok text ∧ t !! path = Some (EFile text m o)
  end.

Lemma RemoveAll_gone path (t : Tree) : filter (λ e, under path e.1 = false) t !! path = None.
Proof.
  apply map_lookup_filter_None. right. intros x _. cbn. unfold under. by rewrite firstn_all, bool_decide_eq_true_2.
Qed.

Lemma env_file_written rd id env :
  triple (λ _, True) (λ _, True) (WriteSecretEnvFile os rd id env)
    (outcome (λ _, env_file_holds (SecretEnvFile rd id) env) (λ _, True)).
Proof.
  unfold WriteSecretEnvFile, env_file_holds. set (path := SecretEnvFile rd id).
  assert (∀ Pre, triple (λ _, True) Pre (RemoveAll os path) (λ _ t, t !! path = None)) as Hrm.
  { intros Pre. apply triple_op; [intros e n k t Hf; by rewrite no_fault in Hf|]. intros _ t _. split; [done|]. apply RemoveAll_gone. }
  destruct env as [|a env].
  { eapply triple_bind; [apply (triple_try (E' := SecretError)), Hrm| |done]. intros ?. apply triple_ret. by intros t [_ H]. }
  destruct (RenderSecretEnv (a :: env)) as [text|e] eqn:Er; [|by apply triple_fail].
  eapply triple_bind; [apply triple_attempt with (Post := λ cur t, ∀ c, cur = Ok c → ∃ m o, t !! path = Some (EFile c m o))| |done].
  { apply triple_op; [intros e n k t Hf; by rewrite no_fault in Hf|]. intros _ t _. split; [done|]. intros c. cbn.
    destruct (t !! path) as [[]|]; try done. intros [= ->]. eauto. }
  intros cur. destruct (match cur with Ok c => bool_decide (c = text) | Err _ => false end) eqn:Ec.
  { apply triple_ret. intros t (cur' & [= <-] & H). destruct cur as [c|]; [|done]. apply bool_decide_eq_true in Ec as ->.
    destruct (H _ eq_refl) as (m & o & Hm). cbn. eauto 10. }
  do 2 (eapply triple_bind with (Mid := λ _ _, True); [by apply triple_wrap, triple_op|intros _|done]).
  eapply triple_bind; [apply (triple_try (E' := SecretError)), Hrm|intros u|done].
  eapply triple_bind with (Mid := outcome (λ _ t, ∃ m o, t !! path = Some (EFile text m o)) (λ _, True)); [| |done].
  { apply triple_outcome, triple_op; [intros e n k t Hf; by rewrite no_fault in Hf|]. intros _ t [_ H]. cbn. rewrite H. cbn.
    split; [done|]. rewrite lookup_insert_eq. eauto. }
  intros []. apply triple_ret. cbn. intros t (m & o & H). eauto 10.
Qed.

(** The environment file and the detector of its changes agree: once the file of a
    workload is written, the detector asked about any environment that renders says it changed
    exactly when the set of variables did; a rotated value alone never restarts a workload,
    and asking again about what was written never does either. *)
Theorem env_shape_roundtrip rd id env env' fs fs1 p fs2 b :
  WriteSecretEnvFile os rd id env fs = (fs1, Ok p) → is_ok (RenderSecretEnv env') = true →
  SecretEnvShapeChanged os rd id env' fs1 = (fs2, Ok b) →
  b = false ↔ omap env_name env ≡ₚ omap env_name env'.
Proof.
  intros Hw Hr Hs. destruct (env_file_written rd id env _ _ _ Hw I) as [Hf _]. cbn in Hf. revert Hs.
  unfold SecretEnvShapeChanged, io_bind, attempt, ReadFile, os_op. rewrite no_fault. cbn. intros [= _ <-].
  destruct (RenderSecretEnv env') as [text'|] eqn:Er'; [|done]. destruct (rendered_names _ _ Er') as [_ Hl].
  destruct env as [|a env]; cbn in Hf.
  - rewrite Hf. rewrite negb_false_iff, bool_decide_eq_true. cbn. split; [by intros ->|].
    intros Hp%Permutation_length. rewrite Hl in Hp. by destruct env'.
  - destruct Hf as (text & m & o & Hr1 & Hf). rewrite Hf. rewrite negb_false_iff, bool_decide_eq_true. by apply envNames_equal.
Qed.
End EnvFile.
