(* ===== verification/SandboxConfig.v ===== *)
(** * The contract between agent and sandbox (api/sandbox/config.go)

    The configuration one renders and the other executes: its checks, its digest and how it is
    loaded.  JSON, SHA-256 and the table of signal names are libraries, hence parameters. *)
From stdpp Require Import gmap strings list.
From Stdlib Require Import ZArith Ascii.
From S2P Require Import Prelude Paths Seccomp HostFS.
#[local] Open Scope Z_scope.

Record TmpfsMount := mkTmpfsMount { tm_Path : string; tm_Size : string; tm_Inodes : string }.
Record BindMount := mkBindMount { bm_Source : string; bm_Target : string; bm_ReadOnly : bool }.
(** [sandbox.SecretMount]. *)
Record SandboxSecretMount := mkSandboxSecretMount { ssm_Source : string; ssm_Target : string }.
(** A limit of [2 ^ 64 - 1] is infinity. *)
Record Rlimit := mkRlimit { rl_Soft : Z; rl_Hard : Z }.

(** [sandbox.Config]. *)
Record SandboxConfig := mkSandboxConfig {
  sc_LowerDirs : list string;
  sc_Merged : string;
  sc_InitDir : string;
  sc_Command : list string;
  sc_Env : list string;
  sc_WorkingDir : string;
  sc_Hostname : string;
  sc_TmpfsMounts : list TmpfsMount;
  sc_BindMounts : list BindMount;
  sc_SecretMounts : list SandboxSecretMount;
  sc_UID : Z;
  sc_GID : Z;
  sc_SecretEnvDir : string;
  sc_SecretEnvFile : string;
  sc_StopSignal : string;
  sc_Seccomp : option SeccompPolicy;
  sc_Rlimits : gmap string Rlimit;
  sc_Network : string;
  sc_NetnsPidPath : string;
  sc_NetworkReadyPath : string;
}.

#[export] Instance TmpfsMount_eq_dec : EqDecision TmpfsMount.
Proof. solve_decision. Defined.
#[export] Instance BindMount_eq_dec : EqDecision BindMount.
Proof. solve_decision. Defined.
#[export] Instance SandboxSecretMount_eq_dec : EqDecision SandboxSecretMount.
Proof. solve_decision. Defined.
#[export] Instance SeccompPolicy_eq_dec : EqDecision SeccompPolicy.
Proof. solve_decision. Defined.
#[export] Instance Rlimit_eq_dec : EqDecision Rlimit.
Proof. solve_decision. Defined.
#[export] Instance SandboxConfig_eq_dec : EqDecision SandboxConfig.
Proof. solve_decision. Defined.

Definition with_defaults (wd host : string) (c : SandboxConfig) : SandboxConfig :=
  mkSandboxConfig (sc_LowerDirs c) (sc_Merged c) (sc_InitDir c) (sc_Command c) (sc_Env c) wd host (sc_TmpfsMounts c)
    (sc_BindMounts c) (sc_SecretMounts c) (sc_UID c) (sc_GID c) (sc_SecretEnvDir c) (sc_SecretEnvFile c) (sc_StopSignal c)
    (sc_Seccomp c) (sc_Rlimits c) (sc_Network c) (sc_NetnsPidPath c) (sc_NetworkReadyPath c).

Definition NetworkHost : string := "host".
Definition NetworkNone : string := "none".
Definition NetworkRouted : string := "routed".

Inductive ConfigError :=
| CESeccompAllow (n : nat)
| CENoLowerDirs
| CEMergedNotAbsolute
| CEInitDirIsMerged
| CENoCommand
| CEWorkingDirNotAbsolute
| CEHostnameTooLong
| CEBadNetwork (network : string)
| CENoHandshakePaths
| CERunAsID (what : string) (id : Z)
| CEPathNotAbsolute (what p : string)
| CEPathSeparator (what p : string)
| CESignalRange (n : Z)
| CESignalUnknown (s : string)
| CETmpfsNotAbsolute (p : string)
| CETmpfsNoSize (p : string)
| CETmpfsNoInodes (p : string)
| CETmpfsSize (p size : string)
| CETmpfsInodes (p inodes : string)
| CEDigest (got want : string)
| CEDecode (e : error)
| CEFile (e : OsErr).

(** [options]. *)
Record LoadOptions := mkLoadOptions { lo_strict : bool; lo_digest : string }.

(** ** Field checks *)
Definition maxRunAsID : Z := 2 ^ 32.
(** [sandbox.ValidRunAsID]. *)
Definition sandbox_ValidRunAsID (what : string) (id : Z) : option ConfigError :=
  if (id <=? 0) || (maxRunAsID <=? id) then Some (CERunAsID what id) else None.

(** [validLowerPath]. *)
Definition validLowerPath (what p : string) : option ConfigError :=
  if negb (IsAbs p) then Some (CEPathNotAbsolute what p)
  else if ContainsAny p [":"; ","]%char then Some (CEPathSeparator what p)
  else None.

(** The regular expressions: digits, then at most one suffix. *)
Fixpoint digits_then (suffixes : list ascii) (seen : bool) (s : string) : bool :=
  match s with
  | EmptyString => seen
  | String c s' =>
      if in_range "0" "9" c then digits_then suffixes true s'
      else seen && bool_decide (c ∈ suffixes) && bool_decide (s' = "")
  end.
Definition tmpfsSize (s : string) : bool := digits_then ["k"; "K"; "m"; "M"; "g"; "G"; "%"]%char false s.
Definition tmpfsCount (s : string) : bool := digits_then ["k"; "K"; "m"; "M"; "g"; "G"]%char false s.

(** [validTmpfsSize] and [validTmpfsInodes]. *)
Definition validTmpfsSize (path size : string) : option ConfigError :=
  if bool_decide (size = "") then None
  else if negb (tmpfsSize size) then Some (CETmpfsSize path size) else None.
Definition validTmpfsInodes (path inodes : string) : option ConfigError :=
  if bool_decide (inodes = "") then None
  else if negb (tmpfsCount inodes) then Some (CETmpfsInodes path inodes) else None.

(** The first error of a loop. *)
Fixpoint first_problem {A B} (f : A → option B) (l : list A) : option B :=
  match l with
  | [] => None
  | a :: l => match f a with Some e => Some e | None => first_problem f l end
  end.

Section Contract.
Context (SignalNum : string → Z).
Context (json_Marshal_config : SandboxConfig → result error string).
Context (json_Decode_config : string → result error SandboxConfig).
Context (sha256_hex : string → string).

(** [ParseSignal]; [strconv.Atoi] reads an int, 64 bits here. *)
Definition ParseSignal (s : string) : result ConfigError Z :=
  match GoStrings.ParseInt s with
  | Some n => if (n <=? 0) || (64 <? n) then Err (CESignalRange n) else Ok n
  | None => if negb (SignalNum s =? 0) then Ok (SignalNum s) else Err (CESignalUnknown s)
  end.

Definition validTmpfsMount (strict : bool) (m : TmpfsMount) : option ConfigError :=
  if negb (IsAbs (tm_Path m)) then Some (CETmpfsNotAbsolute (tm_Path m))
  else if strict && bool_decide (tm_Size m = "") then Some (CETmpfsNoSize (tm_Path m))
  else if strict && bool_decide (tm_Inodes m = "") then Some (CETmpfsNoInodes (tm_Path m))
  else check* validTmpfsSize (tm_Path m) (tm_Size m) in
       validTmpfsInodes (tm_Path m) (tm_Inodes m).

(** The switch of [validate]. *)
Definition validate_shape (cfg : SandboxConfig) : option ConfigError :=
  if bool_decide (sc_LowerDirs cfg = []) then Some CENoLowerDirs
  else if negb (IsAbs (sc_Merged cfg)) then Some CEMergedNotAbsolute
  else if bool_decide (sc_InitDir cfg = sc_Merged cfg) then Some CEInitDirIsMerged
  else if bool_decide (sc_Command cfg = []) then Some CENoCommand
  else if negb (bool_decide (sc_WorkingDir cfg = "")) && negb (IsAbs (sc_WorkingDir cfg)) then Some CEWorkingDirNotAbsolute
  else if (64 <? Z.of_nat (String.length (sc_Hostname cfg))) then Some CEHostnameTooLong
  else if negb (bool_decide (sc_Network cfg ∈ [""; NetworkHost; NetworkNone; NetworkRouted])) then Some (CEBadNetwork (sc_Network cfg))
  else if bool_decide (sc_Network cfg = NetworkRouted) &&
          (bool_decide (sc_NetnsPidPath cfg = "") || bool_decide (sc_NetworkReadyPath cfg = "")) then Some CENoHandshakePaths
  else None.

(** [Config.validate]. *)
Definition validate (o : LoadOptions) (cfg : SandboxConfig) : option ConfigError :=
  check* match sc_Seccomp cfg with
         | Some p => if lo_strict o && negb (bool_decide (pol_Allow p = [])) then Some (CESeccompAllow (length (pol_Allow p))) else None
         | None => None
         end in
  check* validate_shape cfg in
  check* sandbox_ValidRunAsID "UID" (sc_UID cfg) in
  check* sandbox_ValidRunAsID "GID" (sc_GID cfg) in
  check* validLowerPath "InitDir" (sc_InitDir cfg) in
  check* (if bool_decide (sc_SecretEnvDir cfg = "") then None else validLowerPath "SecretEnvDir" (sc_SecretEnvDir cfg)) in
  check* (if bool_decide (sc_SecretEnvFile cfg = "") then None else validLowerPath "SecretEnvFile" (sc_SecretEnvFile cfg)) in
  check* first_problem (λ m, check* validLowerPath "BindMounts.Source" (bm_Source m) in
                           validLowerPath "BindMounts.Target" (bm_Target m)) (sc_BindMounts cfg) in
  check* first_problem (λ m, check* validLowerPath "SecretMounts.Source" (ssm_Source m) in
                           validLowerPath "SecretMounts.Target" (ssm_Target m)) (sc_SecretMounts cfg) in
  check* (if bool_decide (sc_StopSignal cfg = "") then None
          else match ParseSignal (sc_StopSignal cfg) with Err e => Some e | Ok _ => None end) in
  check* first_problem (validLowerPath "lower dir") (sc_LowerDirs cfg) in
  first_problem (validTmpfsMount (lo_strict o)) (sc_TmpfsMounts cfg).

(** [Marshal]. *)
Definition sandbox_Marshal (cfg : SandboxConfig) : result error (string * string) :=
  let* blob := json_Marshal_config cfg in Ok (blob, sha256_hex blob).

(** [strings.EqualFold] with a hexadecimal digest: ASCII case only. *)
Definition lower_ascii (c : ascii) : ascii :=
  if in_range "A" "Z" c then ascii_of_nat (nat_of_ascii c + 32) else c.
Fixpoint lower_string (s : string) : string :=
  match s with EmptyString => "" | String c s' => String (lower_ascii c) (lower_string s') end.
Definition EqualFold (a b : string) : bool := bool_decide (lower_string a = lower_string b).

(** [Load], of what reading the file gave. *)
Definition Load (o : LoadOptions) (file : result OsErr string) : result ConfigError SandboxConfig :=
  match file with
  | Err e => Err (CEFile e)
  | Ok bytes =>
      if negb (bool_decide (lo_digest o = "")) && negb (EqualFold (sha256_hex bytes) (lo_digest o))
      then Err (CEDigest (sha256_hex bytes) (lo_digest o))
      else match json_Decode_config bytes with
           | Err e => Err (CEDecode e)
           | Ok cfg =>
               match validate o cfg with
               | Some e => Err e
               | None =>
                   Ok (with_defaults
                         (if bool_decide (sc_WorkingDir cfg = "") then "/" else sc_WorkingDir cfg)
                         (if bool_decide (sc_Hostname cfg = "") then "sandbox" else sc_Hostname cfg) cfg)
               end
           end
  end.

Lemma first_problem_None {A B} (f : A → option B) l : first_problem f l = None ↔ ∀ a, a ∈ l → f a = None.
Proof.
  induction l as [|a l IH]; cbn; [split; [intros _ x []%not_elem_of_nil|done]|].
  destruct (f a) eqn:E; [split; [done|]|].
  - intros H. specialize (H a ltac:(left)). congruence.
  - rewrite IH. split; [intros H x [->|Hx]%elem_of_cons; auto|intros H x Hx; apply H; by right].
Qed.
End Contract.
