(* ===== verification/Userns.v ===== *)
(** * The rootless runtime (agent/runtime/userns, agent/runtime/runtime.go)

    Each workload is a transient unit of the user's systemd manager.  The manager and the
    network helper are other programs, a record of operations ([Manager]); the image store is
    a port ([Images]).  The runtime's own state is the restart backoff and the retry ledger;
    the files are those of [HostFS]. *)
From stdpp Require Import gmap strings list.
From Stdlib Require Import ZArith Ascii.
From S2P Require Import Prelude Paths Resources CoreV1 Uids DesiredState Workload HostFS SecretFiles SandboxConfig.
Import GoInt.
#[local] Open Scope Z_scope.

(** ** backoff.go *)
Definition second : Z := 1000000000.
Definition microsecond : Z := 1000.
Definition restartBackoffBase : Z := 15 * second.
Definition restartBackoffMax : Z := 300 * second.
Definition flapWindow : Z := restartBackoffBase.
Definition startLimitInterval : Z := 30 * second.
Definition startLimitBurst : Z := 5.

(** The zero [time.Time], in nanoseconds from the epoch. *)
Definition zero_time : Z := -62135596800 * second.

Record flapState := mkFlapState { fl_sum : string; fl_attempts : Z; fl_next : Z }.

(** [restartDelay]; the shift is of an int64. *)
Definition restartDelay (attempts : Z) : Z :=
  if attempts <? 2 then 0
  else
    let d := wrap64 (Z.shiftl restartBackoffBase (attempts - 2)) in
    if (d <=? 0) || (restartBackoffMax <? d) then restartBackoffMax else d.

(** [flapGuard.mayStart]. *)
Definition mayStart (now : Z) (id sum : string) (seen : gmap string flapState) : gmap string flapState * (bool * Z) :=
  let fresh := (<[id := mkFlapState sum 1 zero_time]> seen, (true, 0)) in
  match seen !! id with
  | None => fresh
  | Some st =>
      if negb (bool_decide (fl_sum st = sum)) then fresh
      else if now <? fl_next st then (seen, (false, time_Sub (fl_next st) now))
      else
        let attempts := wrap64 (fl_attempts st + 1) in
        let next := now + restartDelay attempts in
        (<[id := mkFlapState (fl_sum st) attempts next]> seen, (true, time_Sub next now))
  end.

(** [flapGuard.forget]. *)
Definition flap_forget (id : string) (seen : gmap string flapState) : gmap string flapState := delete id seen.

(** ** attempts_linux.go *)
Record runCount := mkRunCount { rc_n : Z; rc_budget : Z }.
Definition run_of (runs : gmap string runCount) (id : string) : runCount := default (mkRunCount 0 0) (runs !! id).

(** [runLedger.seed], [start], [count], [spent] and [forget]. *)
Definition seed (id : string) (reported budget : Z) (runs : gmap string runCount) : gmap string runCount :=
  <[id := mkRunCount (Z.max (rc_n (run_of runs id)) reported) budget]> runs.
Definition ledger_start (id : string) (runs : gmap string runCount) : gmap string runCount * Z :=
  let n := wrap32 (rc_n (run_of runs id) + 1) in
  (<[id := mkRunCount n (rc_budget (run_of runs id))]> runs, n).
Definition ledger_count (id : string) (runs : gmap string runCount) : Z * Z :=
  (rc_n (run_of runs id), rc_budget (run_of runs id)).
Definition spent (id : string) (runs : gmap string runCount) : bool :=
  let '(n, budget) := ledger_count id runs in budget <? Z.max n 1.
Definition ledger_forget (id : string) (runs : gmap string runCount) : gmap string runCount := delete id runs.

(** ** Ports *)
(** A property as it is asked for, and as the manager reports it. *)
Inductive Variant :=
| VString (s : string)
| VU64 (n : Z)
| VU32 (n : Z)
| VI32 (n : Z)
| VBool (b : bool)
(** The commands of ExecStart: as set, path, argv and a flag; as reported, the argv of each. *)
| VExec (l : list (string * list string * bool))
| VExecStatus (l : list (list string)).
Record Property := mkProperty { pr_Name : string; pr_Value : Variant }.
Record UnitStatus := mkUnitStatus { un_Name : string; un_ActiveState : string; un_SubState : string }.

(** What becomes of a job: refused, ended with a result, or not waited for any longer. *)
Inductive JobOutcome := JRefused (e : error) | JResult (res : string) | JExpired (e : error).

Record Manager (M : Type) := mkManager {
  mg_conn : M → option error;
  mg_now : M → Z;
  (** The error of the session's context. *)
  mg_done : M → option error;
  (** [None] is an error or no value. *)
  mg_unit_prop : string → string → M → option Variant;
  mg_service_props : string → M → option (gmap string Variant);
  mg_list : list string → M → result error (list UnitStatus);
  mg_reset : string → M → M;
  mg_kill : string → M → M;
  (** StopUnit: the job is accepted, or refused with an error. *)
  mg_stop : string → M → M * option error;
  (** When the manager ends the job it has for the unit, and with what result; [None] is never. *)
  mg_job : string → M → option (Z * string);
  (** Time passes until then, while the job of the unit is waited for. *)
  mg_wait : string → Z → M → M;
  (** When the session's context is done. *)
  mg_ends : M → option Z;
  (** Which ready case a select takes. *)
  mg_select : M → bool;
  (** A start, waited for or not. *)
  mg_start : bool → string → list Property → M → M * JobOutcome;
  (** The network helper's Teardown. *)
  mg_unwire : string → M → M;
}.
Arguments mkManager {M}.
Arguments mg_conn {M}.
Arguments mg_now {M}.
Arguments mg_done {M}.
Arguments mg_unit_prop {M}.
Arguments mg_service_props {M}.
Arguments mg_list {M}.
Arguments mg_reset {M}.
Arguments mg_kill {M}.
Arguments mg_stop {M}.
Arguments mg_job {M}.
Arguments mg_wait {M}.
Arguments mg_ends {M}.
Arguments mg_select {M}.
Arguments mg_start {M}.
Arguments mg_unwire {M}.

(** [LaunchSpec]. *)
Record LaunchSpec := mkLaunchSpec {
  ls_LayerDirs : list string; ls_Entrypoint : list string; ls_Cmd : list string;
  ls_Env : list string; ls_User : string; ls_WorkingDir : string;
}.
Record Images (I : Type) := mkImages {
  im_Spec : string → string → I → result error LaunchSpec;
  im_Pull : string → string → I → I * option error;
  im_Purge : list string → I → I * result error (list string);
}.
Arguments im_Spec {I}.
Arguments im_Pull {I}.
Arguments im_Purge {I}.

Inductive RunError :=
| REVolume (e : PathError)
| REHostPath (mountPath ref : string)
| REUnsupported (mountPath : string)
| REImage (e : error)
| RESecret (e : SecretError)
| REMarshal (e : error)
| REBus (e : error)
| RENoHelper (id : string)
| RENoAddress (id : string)
| REFifo (e : OsErr)
| REJob (verb : string) (e : error)
| REJobResult (verb res : string)
| REContext (e : error).

(** [ImageSource]. *)
Definition cut_prefix (p s : string) : option string :=
  if GoStrings.has_prefix p s then Some (GoStrings.drop_string (String.length p) s) else None.
Definition ImageSource (source : string) : string :=
  match cut_prefix "oci://" source with
  | Some after => after
  | None => match cut_prefix "cr://" source with Some after => after | None => source end
  end.

Section Userns.
Context {HQ : Quantity} {M I : Type} (mg : Manager M) (im : Images I) (os : OS).
Context (sum8 : string → string) (range : gmap string (list ascii) → list (string * list ascii)).
Context (json_Marshal_config : SandboxConfig → result error string) (sha256_hex : string → string).

(** What a [Runtime] is built with. *)
Record RuntimeConfig := mkRuntimeConfig {
  ut_stateDir : list string; ut_runtimeDir : list string; ut_sandboxCmd : list string;
  ut_subUID : IDRange; ut_subGID : IDRange;
  (** Whether the node has a network helper. *)
  ut_net : bool;
}.
Context (r : RuntimeConfig).

(** The node: its files, its manager, its images and what the runtime remembers. *)
Record Host := mkHost {
  ho_fs : FS; ho_mgr : M; ho_img : I; ho_flap : gmap string flapState; ho_runs : gmap string runCount;
}.
Definition set_fs (x : FS) (h : Host) : Host := mkHost x (ho_mgr h) (ho_img h) (ho_flap h) (ho_runs h).
Definition set_mgr (x : M) (h : Host) : Host := mkHost (ho_fs h) x (ho_img h) (ho_flap h) (ho_runs h).
Definition set_img (x : I) (h : Host) : Host := mkHost (ho_fs h) (ho_mgr h) x (ho_flap h) (ho_runs h).
Definition set_flap (x : gmap string flapState) (h : Host) : Host := mkHost (ho_fs h) (ho_mgr h) (ho_img h) x (ho_runs h).
Definition set_runs (x : gmap string runCount) (h : Host) : Host := mkHost (ho_fs h) (ho_mgr h) (ho_img h) (ho_flap h) x.

(** ** Identity, names and paths *)
Definition RuntimeName : string := "userns".
Definition UnitName (id : string) : string := id +:+ ".service".

(** [strings.CutSuffix] and [unitID]. *)
Definition unitID (unit : string) : option string :=
  match cut_prefix (GoStrings.reverse_string ".service") (GoStrings.reverse_string unit) with
  | Some rest => Some (GoStrings.reverse_string rest)
  | None => None
  end.

(** [workloadRunAs] and [workloadIDs]. *)
Definition run_as (what : string) (id : option Z) : Z :=
  match id with
  | Some id => match ValidRunAsID what id with None => id | Some _ => DefaultRunAsID end
  | None => DefaultRunAsID
  end.
Definition workloadRunAs (app : App) : Z * Z :=
  match wa_SecurityContext app with
  | None => (DefaultRunAsID, DefaultRunAsID)
  | Some sc => (run_as "runAsUser" (sc_RunAsUser sc), run_as "runAsGroup" (sc_RunAsGroup sc))
  end.
Definition workloadIDs (app : App) : IDs :=
  let '(uid, gid) := workloadRunAs app in mkIDs (AgentID (ut_subUID r) uid) (AgentID (ut_subGID r) gid).

Definition configPath (id : string) : list string := ut_stateDir r ++ ["config"; id +:+ ".json"].
Definition netnsPidPath (id : string) : list string := ut_runtimeDir r ++ ["net"; id +:+ ".pid"].
Definition networkReadyPath (id : string) : list string := ut_runtimeDir r ++ ["net"; id +:+ ".ready"].

(** [sandboxArgv] and [unitDescription]. *)
Definition sandboxArgv (id configSum : string) : list string :=
  ut_sandboxCmd r ++ ["--config"; path_text (configPath id); "--config-sha256"; configSum].
Definition unitDescription (app : App) : string := "horchestra-app " +:+ wa_Namespace app +:+ "/" +:+ wa_Name app.

(** ** The unit *)
Definition runToCompletion (app : App) : bool := RunToCompletion (wa_Lifecycle app).
Definition terminationGracePeriod (app : App) : Z := GracePeriod (wa_Lifecycle app).
Definition restartMode (app : App) : string :=
  let p := lc_RestartPolicy (wa_Lifecycle app) in
  if bool_decide (p = RestartOnFailure) then "on-failure"
  else if bool_decide (p = RestartNever) then "no"
  else "always".
Definition collectMode (app : App) : string := if runToCompletion app then "inactive" else "inactive-or-failed".

(** A uint64 operation's result, and USEC_INFINITY. *)
Definition wrapu64 (z : Z) : Z := z mod 2 ^ 64.
Definition max_uint64 : Z := 2 ^ 64 - 1.

(** [activeDeadline]. *)
Definition activeDeadline (app : App) : Z :=
  match lc_ActiveDeadlineSeconds (wa_Lifecycle app) with
  | None => max_uint64
  | Some s => if s <=? 0 then max_uint64 else wrapu64 (s * 1000000)
  end.

(** [sddbus.PropExecStart]. *)
Definition PropExecStart (argv : list string) : Property :=
  mkProperty "ExecStart" (VExec [(hd "" argv, argv, false)]).

(** [unitProperties]. *)
Definition unitProperties (id configSum : string) (app : App) : list Property :=
  [ mkProperty "Description" (VString (unitDescription app));
    PropExecStart (sandboxArgv id configSum);
    mkProperty "Restart" (VString (restartMode app));
    mkProperty "RestartUSec" (VU64 2000000);
    mkProperty "TimeoutStopUSec" (VU64 (wrapu64 (Z.quot (terminationGracePeriod app) microsecond)));
    mkProperty "TimeoutStopFailureMode" (VString "kill");
    mkProperty "CollectMode" (VString (collectMode app));
    mkProperty "StartLimitIntervalUSec" (VU64 (Z.quot startLimitInterval microsecond));
    mkProperty "StartLimitBurst" (VU32 startLimitBurst) ] ++
  (if runToCompletion app then
     [ mkProperty "Type" (VString "oneshot");
       mkProperty "RemainAfterExit" (VBool true);
       mkProperty "TimeoutStartUSec" (VU64 (activeDeadline app)) ]
   else []) ++
  (let b := q_Value (ra_Memory (wa_Limits app)) in
   if 0 <? b then [mkProperty "MemoryMax" (VU64 b)] else []) ++
  (let m := q_MilliValue (ra_CPU (wa_Limits app)) in
   if 0 <? m then [mkProperty "CPUQuotaPerSecUSec" (VU64 (Z.quot (wrapu64 (m * 1000000)) 1000))] else []).

(** [execStartMatches]: the argv of the first command reported. *)
Definition execStartMatches (applied : Variant) (want : list string) : bool :=
  match applied with
  | VExecStatus (argv :: _) => bool_decide (argv = want)
  | _ => false
  end.

(** One property asked for, against what is reported.  The assertion on the type of what was
    asked for always holds, [unitProperties] being the only caller. *)
Definition property_matches (applied : gmap string Variant) (argv : list string) (w : Property) : bool :=
  match applied !! pr_Name w with
  | None => true
  | Some got =>
      if bool_decide (pr_Name w = "ExecStart") then execStartMatches got argv
      else if bool_decide (pr_Name w ∈ ["MemoryMax"; "CPUQuotaPerSecUSec"; "RestartUSec"; "TimeoutStopUSec"; "TimeoutStartUSec"]) then
        match got, pr_Value w with VU64 u, VU64 v => u =? v | _, _ => false end
      else if bool_decide (pr_Name w ∈ ["Restart"; "CollectMode"; "Description"; "Type"]) then
        match got, pr_Value w with VString s, VString t => bool_decide (s = t) | _, _ => false end
      else if bool_decide (pr_Name w = "RemainAfterExit") then
        match got, pr_Value w with VBool a, VBool b => Bool.eqb a b | _, _ => false end
      else true
  end.

(** A limit that was not asked for must be at its default. *)
Definition unmanaged_default (applied : gmap string Variant) (want : list Property) (name : string) : bool :=
  if existsb (λ p, bool_decide (pr_Name p = name)) want then true
  else match applied !! name with Some (VU64 v) => v =? max_uint64 | _ => true end.

(** [appliedMatches]. *)
Definition appliedMatches (applied : gmap string Variant) (want : list Property) (argv : list string) : bool :=
  forallb (unmanaged_default applied want) ["MemoryMax"; "CPUQuotaPerSecUSec"] &&
  forallb (property_matches applied argv) want.

(** [activeFor], [unitLoaded] and [inspect]. *)
Record unitState := mkUnitState { us_converged : bool; us_running : bool; us_activeFor : Z }.
Definition since_micro (now us : Z) : Z :=
  let d := time_Sub now (wrap64 us * 1000) in if 0 <? d then d else 0.
Definition activeFor (unit : string) (m : M) : Z :=
  match mg_unit_prop mg unit "ActiveEnterTimestamp" m with
  | Some (VU64 us) => if us =? 0 then 0 else since_micro (mg_now mg m) us
  | _ => 0
  end.
Definition unitLoaded (unit : string) (m : M) : bool :=
  match mg_unit_prop mg unit "LoadState" m with Some (VString s) => bool_decide (s = "loaded") | _ => false end.
Definition inspect (unit id configSum : string) (app : App) (want : list Property) (runs : gmap string runCount) (m : M) : unitState :=
  let none := mkUnitState false false 0 in
  match mg_conn mg m, mg_unit_prop mg unit "ActiveState" m with
  | Some _, _ | None, None => none
  | None, Some state =>
      let s := match state with VString s => s | _ => "" end in
      if negb (bool_decide (s ∈ ["active"; "activating"; "reloading"])) then
        if negb (runToCompletion app) || negb (unitLoaded unit m) then none
        else mkUnitState (negb (bool_decide (s = "failed")) || spent id runs) false 0
      else
        mkUnitState
          match mg_service_props mg unit m with
          | None => false
          | Some props => appliedMatches props want (sandboxArgv id configSum)
          end
          true (activeFor unit m)
  end.

(** ** Jobs of the manager (dbus_linux.go) *)
(** [runJob] and [startNoWait], of what the job came to. *)
Definition runJob (verb : string) (o : JobOutcome) : option RunError :=
  match o with
  | JRefused e => Some (REJob verb e)
  | JResult res => if bool_decide (res = "done") then None else Some (REJobResult verb res)
  | JExpired e => Some (REContext e)
  end.
Definition startNoWait (verb : string) (o : JobOutcome) : option RunError :=
  match o with JRefused e => Some (REJob verb e) | _ => None end.

Definition removeGrace : Z := DefaultTerminationGracePeriodSeconds * second.
Definition stopMargin : Z := 10 * second.

(** The select of [runJob] under a context with a deadline, once the job is accepted: its result
    or the end of the context, whichever is first, and either when both are ready. *)
Definition waitJob (unit : string) (deadline : Z) (m : M) : M * JobOutcome :=
  let now := mg_now mg m in
  let '(limit, e) := match mg_ends mg m with
                     | Some t => if t <=? deadline then (t, "context canceled") else (deadline, "context deadline exceeded")
                     | None => (deadline, "context deadline exceeded")
                     end in
  let limit := Z.max now limit in
  let expired := (mg_wait mg unit limit m, JExpired e) in
  match mg_job mg unit m with
  | Some (t, res) =>
      let t := Z.max now t in
      if (t <? limit) || ((t =? limit) && mg_select mg m) then (mg_wait mg unit t m, JResult res) else expired
  | None => expired
  end.

(** [runJobWithin], of a stop. *)
Definition runJobWithin (verb : string) (timeout : Z) (unit : string) (m : M) : M * option RunError :=
  let deadline := mg_now mg m + timeout in
  let '(m, refused) := mg_stop mg unit m in
  let '(m, o) := match refused with Some e => (m, JRefused e) | None => waitJob unit deadline m end in
  (m, runJob verb o).

(** [stopUnit]. *)
Definition stopUnit (unit : string) (grace : Z) (m : M) : M * option RunError :=
  let '(m, e) := runJobWithin ("stop " +:+ unit) (wrap64 (grace + stopMargin)) unit m in
  match e, mg_done mg m with
  | None, _ => (m, None)
  | Some e, Some _ => (m, Some e)
  | Some _, None => runJobWithin ("stop " +:+ unit) stopMargin unit (mg_kill mg unit m)
  end.

(** ** Apply *)
(** [ValidateVolumes] and [supportedVolumes]. *)
Definition validate_volume (v : Volume) : option RunError :=
  match ValidMountPath (vo_MountPath v) with
  | Some e => Some (REVolume e)
  | None =>
      match vo_Kind v with
      | VolumeHostPath => if negb (IsAbs (vo_Ref v)) then Some (REHostPath (vo_MountPath v) (vo_Ref v)) else None
      | _ => None
      end
  end.
Definition ValidateVolumes (vols : list Volume) : option RunError :=
  first_problem (λ v, check* validate_volume v in
    first_problem (λ x, match ValidRelPath x.1 with Some e => Some (REVolume e) | None => None end) (range (vo_Content v))) vols.
Definition supportedVolumes (vols : list Volume) : option RunError :=
  first_problem (λ v, match vo_Kind v with
                    | VolumeTmpfs | VolumeSecret | VolumeHostPath => None
                    | _ => Some (REUnsupported (vo_MountPath v))
                    end) vols.

(** [EnsureImage]. *)
Definition EnsureImage (namespace source : string) (i : I) : I * result error LaunchSpec :=
  match im_Spec im namespace source i with
  | Ok ls => (i, Ok ls)
  | Err _ =>
      match im_Pull im namespace source i with
      | (i, Some e) => (i, Err e)
      | (i, None) => (i, im_Spec im namespace source i)
      end
  end.

(** [networkMode] and [buildConfig]. *)
Definition networkMode (app : App) : string := if wa_HostNetwork app then NetworkHost else NetworkRouted.
Definition buildConfig (id : string) (ls : LaunchSpec) (app : App) (volumes : list Volume)
    (secretEnvFile : option (list string)) (secretMounts : list SecretMount) : SandboxConfig :=
  let '(entry, cmd) := match wa_Command app with [] => (ls_Entrypoint ls, ls_Cmd ls) | c => (c, []) end in
  let cmd := match wa_Args app with [] => cmd | a => a end in
  let '(uid, gid) := workloadRunAs app in
  let mounted := List.filter (λ v, negb (bool_decide (vo_MountPath v = ""))) volumes in
  mkSandboxConfig (ls_LayerDirs ls)
    (path_text (ut_stateDir r ++ ["merged"; id])) (path_text (ut_stateDir r ++ ["init"; id]))
    (entry ++ cmd) (ls_Env ls ++ wa_Env app) (ls_WorkingDir ls) (wa_Name app)
    (omap (λ v, match vo_Kind v with VolumeTmpfs => Some (mkTmpfsMount (vo_MountPath v) "" "") | _ => None end) mounted)
    (omap (λ v, match vo_Kind v with VolumeHostPath => Some (mkBindMount (vo_Ref v) (vo_MountPath v) (vo_ReadOnly v)) | _ => None end) mounted)
    ((λ m, mkSandboxSecretMount (path_text (sm_Source m)) (sm_Target m)) <$> secretMounts)
    uid gid "" (match secretEnvFile with Some p => path_text p | None => "" end) "" None ∅
    (networkMode app) (path_text (netnsPidPath id)) (path_text (networkReadyPath id)).

(** [prepareNetwork]: the checks and the two FIFOs; the answer to the trampoline is part of
    what the manager's start comes to. *)
Definition prepareNetwork (id : string) (app : App) : IO RunError unit :=
  if wa_HostNetwork app then io_ret tt
  else if negb (ut_net r) then io_fail (RENoHelper id)
  else if bool_decide (wa_Address app = "") then io_fail (RENoAddress id)
  else
    run* wrap REFifo (MkdirAll os (path_Dir (netnsPidPath id)) (oct 7 0 0)) in
    each [netnsPidPath id; networkReadyPath id] (λ p,
      run* try (Remove os p) in
      wrap REFifo (Mkfifo os p (oct 6 0 0))).

(** The last part of [Apply]: replace the unit. *)
Definition start_unit (id unit : string) (app : App) (props : list Property) (h : Host) : Host * option RunError :=
  match mg_conn mg (ho_mgr h) with
  | Some e => (h, Some (REBus e))
  | None =>
      let m := mg_reset mg unit (ho_mgr h) in
      let '(m, _) := stopUnit unit (terminationGracePeriod app) m in
      let h := set_mgr m h in
      match prepareNetwork id app (ho_fs h) with
      | (fs, Err e) => (set_fs fs h, Some e)
      | (fs, Ok _) =>
          let h := set_fs fs h in
          if negb (runToCompletion app) then
            let '(m, o) := mg_start mg true unit props (ho_mgr h) in
            (set_mgr m h, runJob ("start " +:+ unit) o)
          else
            let h := set_runs (ledger_start id (ho_runs h)).1 h in
            let '(m, o) := mg_start mg false unit props (ho_mgr h) in
            (set_mgr m h, startNoWait ("start " +:+ unit) o)
      end
  end.

(** The part of [Apply] that decides, on the rendered configuration. *)
Definition converge (id unit sum : string) (app : App) (rotated : bool) (h : Host) : Host * option RunError :=
  let h := if runToCompletion app then set_runs (seed id (wa_Attempts app) (Retries (wa_Lifecycle app)) (ho_runs h)) h else h in
  let props := unitProperties id sum app in
  let st := inspect unit id sum app props (ho_runs h) (ho_mgr h) in
  if us_converged st && negb rotated then
    (if flapWindow <=? us_activeFor st then set_flap (flap_forget id (ho_flap h)) h else h, None)
  else if rotated || us_running st then
    start_unit id unit app props (set_flap (flap_forget id (ho_flap h)) h)
  else
    let '(seen, (allow, _)) := mayStart (mg_now mg (ho_mgr h)) id sum (ho_flap h) in
    let h := set_flap seen h in
    if negb allow then (h, None) else start_unit id unit app props h.

(** [Apply]. *)
Definition Apply (app : App) (volumes : list Volume) (h : Host) : Host * option RunError :=
  let id := wa_ID app in
  match ValidateVolumes volumes with
  | Some e => (h, Some e)
  | None =>
      match supportedVolumes volumes with
      | Some e => (h, Some e)
      | None =>
          let '(img, ls) := EnsureImage (wa_Namespace app) (wa_Image app) (ho_img h) in
          let h := set_img img h in
          match ls with
          | Err e => (h, Some (REImage e))
          | Ok ls =>
              let files : IO RunError (bool * string) :=
                do* rotated := wrap RESecret (SecretEnvShapeChanged os (ut_runtimeDir r) id (wa_SecretEnv app)) in
                do* envFile := wrap RESecret (WriteSecretEnvFile os (ut_runtimeDir r) id (wa_SecretEnv app)) in
                do* secretMounts := wrap RESecret (WriteSecretVolumes os sum8 range (ut_runtimeDir r) id volumes (workloadIDs app)) in
                match sandbox_Marshal json_Marshal_config sha256_hex (buildConfig id ls app volumes envFile secretMounts) with
                | Err e => io_fail (REMarshal e)
                | Ok (blob, sum) =>
                    run* wrap RESecret (ensureSandboxConfig os (configPath id) blob) in
                    io_ret (rotated, sum)
                end in
              match files (ho_fs h) with
              | (fs, Err e) => (set_fs fs h, Some e)
              | (fs, Ok (rotated, sum)) => converge id (UnitName id) sum app rotated (set_fs fs h)
              end
          end
      end
  end.

(** ** Remove *)
(** [Remove]; it reports success whatever happened. *)
Definition Remove_files (name : string) : IO RunError unit :=
  run* each [netnsPidPath name; networkReadyPath name] (λ p, try (Remove os p)) in
  run* try (RemoveAll os (SecretEnvFile (ut_runtimeDir r) name)) in
  run* try (RemoveAll os (SecretVolumeRoot (ut_runtimeDir r) name)) in
  run* each ["merged"; "init"] (λ sub, try (RemoveAll os (ut_stateDir r ++ [sub; name]))) in
  try (Remove os (configPath name)).
Definition runtime_Remove (name : string) (grace : Z) (h : Host) : Host * option RunError :=
  let unit := UnitName name in
  let grace := if grace <=? 0 then removeGrace else grace in
  let m := match mg_conn mg (ho_mgr h) with
           | Some _ => ho_mgr h
           | None => mg_reset mg unit (stopUnit unit grace (ho_mgr h)).1
           end in
  let m := if ut_net r then mg_unwire mg name m else m in
  let fs := (Remove_files name (ho_fs h)).1 in
  (mkHost fs m (ho_img h) (flap_forget name (ho_flap h)) (ledger_forget name (ho_runs h)), None).

(** ** States *)
Definition unitPhase (activeState subState : string) : string :=
  if bool_decide (activeState = "active") then
    if bool_decide (subState = "exited") then AppPhaseSucceeded else AppPhaseRunning
  else if bool_decide (activeState ∈ ["activating"; "reloading"; "deactivating"]) then AppPhaseRunning
  else AppPhaseFailed.

(** [exitStatus]; a time of [0] is the zero time. *)
Definition exitStatus (unit : string) (m : M) : Z * Z * string :=
  match mg_service_props mg unit m with
  | None => (0, 0, "")
  | Some props =>
      let code := match props !! "ExecMainStatus" with Some (VI32 n) => n | _ => 0 end in
      let result := match props !! "Result" with Some (VString s) => s | _ => "" end in
      let usec := match props !! "ExecMainExitTimestamp" with Some (VU64 n) => n | _ => 0 end in
      (code, if usec =? 0 then 0 else wrap64 usec * 1000, result)
  end.

Definition reasonDeadlineExceeded : string :=
  "DeadlineExceeded: the job outran spec.lifecycle.activeDeadlineSeconds and was killed".
Definition reasonBackoffLimitExceeded : string :=
  "BackoffLimitExceeded: the job failed and its spec.lifecycle.backoffLimit is spent".
Definition failureReason (id result : string) (runs : gmap string runCount) : string :=
  if bool_decide (result = "timeout") then reasonDeadlineExceeded
  else if bool_decide (result ∈ ["success"; ""]) then ""
  else if spent id runs then
    let '(n, budget) := ledger_count id runs in
    if (0 <? budget) && (0 <? n) then reasonBackoffLimitExceeded else ""
  else "".

(** The pattern of the units: every listing is asked with it. *)
Definition unit_state (h : Host) (u : UnitStatus) : option State :=
  match unitID (un_Name u) with
  | None => None
  | Some id =>
      let phase := unitPhase (un_ActiveState u) (un_SubState u) in
      let attempts := (ledger_count id (ho_runs h)).1 in
      if bool_decide (phase = AppPhaseRunning) then Some (mkState id phase 0 0 attempts "")
      else
        let '(code, finished, result) := exitStatus (un_Name u) (ho_mgr h) in
        Some (mkState id phase code finished attempts (failureReason id result (ho_runs h)))
  end.
Definition States (h : Host) : list State * option RunError :=
  match mg_conn mg (ho_mgr h) with
  | Some e => ([], Some (REBus e))
  | None =>
      match mg_list mg [] (ho_mgr h) with
      | Err e => ([], Some (REBus e))
      | Ok units => (omap (unit_state h) units, None)
      end
  end.

(** ** reap_linux.go *)
(** [stoppingFor]. *)
Definition stoppingFor (unit : string) (now : Z) (m : M) : Z * Z :=
  let since := match mg_unit_prop mg unit "ActiveExitTimestamp" m with
               | Some (VU64 us) => if 0 <? us then since_micro now us else 0
               | _ => 0
               end in
  let budget := match mg_unit_prop mg unit "TimeoutStopUSec" m with
                | Some (VU64 us) =>
                    if 0 <? us then
                      if us =? max_uint64 then 2 ^ 62 - 1 else wrap64 (wrap64 us * microsecond)
                    else removeGrace
                | _ => removeGrace
                end in
  (since, budget).

Definition reap_unit (now : Z) (m : M) (u : UnitStatus) : M :=
  match unitID (un_Name u) with
  | None => m
  | Some _ =>
      let '(since, budget) := stoppingFor (un_Name u) now m in
      if since <=? wrap64 (budget + stopMargin) then m
      else (runJobWithin ("stop " +:+ un_Name u) stopMargin (un_Name u) (mg_kill mg (un_Name u) m)).1
  end.
(** [Reap]. *)
Definition Reap (h : Host) : Host * option RunError :=
  let m := ho_mgr h in
  match mg_conn mg m with
  | Some e => (h, Some (REBus e))
  | None =>
      match mg_list mg ["deactivating"] m with
      | Err e => (h, Some (REBus e))
      | Ok units => (set_mgr (foldl (reap_unit (mg_now mg m)) m units) h, None)
      end
  end.

(** [GC]. *)
Definition GC (keep : list string) (h : Host) : Host * result error (list string) :=
  let '(i, res) := im_Purge im (ImageSource <$> keep) (ho_img h) in (set_img i h, res).
End Userns.
