(* ===== verification/UsernsTheorems.v ===== *)
(** * The rootless runtime: backoff, retries and convergence

    Restarts of a workload that will not stay up are spaced by the backoff and never held off
    longer; a job is retried within its budget, and left alone exactly when it is reported as
    over; a unit is left alone exactly when it runs the content and limits asked for. *)
From stdpp Require Import gmap strings list sorting.
From Stdlib Require Import ZArith Ascii.
From S2P Require Import Prelude Paths Resources CoreV1 Uids DesiredState Workload HostFS SecretFiles SandboxConfig Userns.
Import GoInt.
#[local] Open Scope Z_scope.

(** ** The backoff *)
Lemma wrap64_multiple z k : 0 ≤ k ≤ 63 → (2 ^ k | z) → (2 ^ k | wrap64 z).
Proof.
  intros Hk Hz. unfold wrap64. rewrite Z.mod_eq by done. set (q := (z + 2 ^ 63) / 2 ^ 64).
  replace (z + 2 ^ 63 - 2 ^ 64 * q - 2 ^ 63) with (z - 2 ^ 64 * q) by lia.
  apply Z.divide_sub_r; [done|]. apply Z.divide_mul_l. exists (2 ^ (64 - k)). rewrite <-Z.pow_add_r by lia. f_equal. lia.
Qed.

Lemma restartDelay_eq n :
  2 ≤ n → restartDelay n = Z.min (restartBackoffBase * 2 ^ (n - 2)) restartBackoffMax.
Proof.
  intros Hn. unfold restartDelay. destruct (Z.ltb_spec n 2); [lia|]. rewrite Z.shiftl_mul_pow2 by lia.
  set (k := n - 2). assert (0 ≤ k) by lia. unfold restartBackoffBase, restartBackoffMax, second.
  destruct (decide (k ≤ 4)) as [Hs|Hs].
  { assert (k = 0 ∨ k = 1 ∨ k = 2 ∨ k = 3 ∨ k = 4) as Hc by lia.
    destruct Hc as [-> |[-> |[-> |[-> | -> ]]]]; vm_compute; done. }
  assert (2 ^ 5 ≤ 2 ^ k) by (apply Z.pow_le_mono_r; lia).
  rewrite Z.min_r by (change (2 ^ 5) with 32 in *; lia).
  destruct (decide (k ≤ 29)) as [Hm|Hm].
  - assert (2 ^ k ≤ 2 ^ 29) by (apply Z.pow_le_mono_r; lia). change (2 ^ 29) with 536870912 in *. change (2 ^ 5) with 32 in *.
    rewrite wrap64_id by int64. destruct (Z.leb_spec (15 * 1000000000 * 2 ^ k) 0); [done|].
    destruct (Z.ltb_spec (300 * 1000000000) (15 * 1000000000 * 2 ^ k)); [done|lia].
  - assert (2 ^ 39 | wrap64 (15 * 1000000000 * 2 ^ k)) as [j Hj].
    { apply wrap64_multiple; [lia|]. exists (29296875 * 2 ^ (k - 30)).
      replace (2 ^ k) with (2 ^ (k - 30) * 2 ^ 30) by (rewrite <-Z.pow_add_r by lia; f_equal; lia).
      change (15 * 1000000000) with (29296875 * 2 ^ 9). change (2 ^ 39) with (2 ^ 9 * 2 ^ 30). ring. }
    rewrite Hj. change (2 ^ 39) with 549755813888. destruct (Z.leb_spec (j * 549755813888) 0); [done|].
    destruct (Z.ltb_spec (300 * 1000000000) (j * 549755813888)); [done|lia].
Qed.

Lemma restartDelay_small n : n < 2 → restartDelay n = 0.
Proof. intros H. unfold restartDelay. by destruct (Z.ltb_spec n 2); [|lia]. Qed.
Lemma restartDelay_bounds n : 0 ≤ restartDelay n ≤ restartBackoffMax.
Proof.
  destruct (decide (n < 2)); [rewrite restartDelay_small by done; vm_compute; split; discriminate|].
  rewrite restartDelay_eq by lia. assert (0 < 2 ^ (n - 2)) by (apply Z.pow_pos_nonneg; lia).
  unfold restartBackoffBase, restartBackoffMax, second. lia.
Qed.

(** A start asked for. *)
Record Ask := mkAsk { ask_now : Z; ask_id : string; ask_sum : string }.

(** The starts allowed to one workload, in order. *)
Fixpoint starts_of (id : string) (asks : list Ask) (seen : gmap string flapState) : list Z :=
  match asks with
  | [] => []
  | a :: asks =>
      let '(seen, (allow, _)) := mayStart (ask_now a) (ask_id a) (ask_sum a) seen in
      (if bool_decide (ask_id a = id) && allow then [ask_now a] else []) ++ starts_of id asks seen
  end.

Lemma mayStart_other now id sum seen id' : id' ≠ id → (mayStart now id sum seen).1 !! id' = seen !! id'.
Proof.
  intros H. unfold mayStart. destruct (seen !! id) as [st|]; cbn; [|by simplify_map_eq].
  destruct (negb _); cbn; [by simplify_map_eq|]. destruct (_ <? _); cbn; by simplify_map_eq.
Qed.

(** What the guard knows after [n] starts of this content, the last at [t]. *)
Definition armed (n : nat) (t : Z) (sum : string) (st : flapState) : Prop :=
  fl_sum st = sum ∧ fl_attempts st = Z.of_nat n ∧
  (n = 1%nat ∧ fl_next st = zero_time ∨ (2 ≤ n)%nat ∧ fl_next st = t + restartDelay (Z.of_nat n)).

Definition paced (n : nat) (t : Z) (starts : list Z) (asks : list Ask) (id : string) : Prop :=
  (∀ i a b, (t :: starts) !! i = Some a → (t :: starts) !! S i = Some b → a + restartDelay (Z.of_nat (n + i)) ≤ b) ∧
  (∀ a, a ∈ asks → ask_id a = id → ask_now a ∉ starts →
     ∃ i b, (t :: starts) !! i = Some b ∧ b ≤ ask_now a < b + restartDelay (Z.of_nat (n + i))).

Lemma paced_held n t starts a asks id :
  paced n t starts asks id → (ask_id a = id → t ≤ ask_now a < t + restartDelay (Z.of_nat n)) →
  paced n t starts (a :: asks) id.
Proof.
  intros [H1 H2] Ha. split; [done|]. intros b [->|Hb]%elem_of_cons Hid Hn; [|by apply H2]. exists 0%nat, t.
  rewrite Nat.add_0_r. split; [done|]. by apply Ha.
Qed.
Lemma paced_start n t starts a asks id :
  paced (S n) (ask_now a) starts asks id → ask_id a = id → t + restartDelay (Z.of_nat n) ≤ ask_now a →
  paced n t (ask_now a :: starts) (a :: asks) id.
Proof.
  intros [H1 H2] Hid Ht. split.
  - intros [|i] x y; cbn.
    + intros [= <-] [= <-]. by rewrite Nat.add_0_r.
    + intros Hx Hy. rewrite Nat.add_succ_r. by apply (H1 i x y).
  - intros b [->|Hb]%elem_of_cons Hb1 Hb2; [set_solver|]. apply not_elem_of_cons in Hb2 as [_ Hb2].
    destruct (H2 b Hb Hb1 Hb2) as (i & x & Hx & Hr). exists (S i), x. split; [done|]. by rewrite Nat.add_succ_r.
Qed.

Lemma starts_paced id sum asks seen n t st :
  seen !! id = Some st → armed n t sum st → zero_time ≤ t → Z.of_nat n + Z.of_nat (length asks) < max_int64 →
  (∀ a, a ∈ asks → ask_id a = id → ask_sum a = sum) → StronglySorted (λ a b, ask_now a ≤ ask_now b) asks →
  (∀ a, a ∈ asks → t ≤ ask_now a) → paced n t (starts_of id asks seen) asks id.
Proof.
  revert seen n t st. induction asks as [|a asks IH]; intros seen n t st Hs Ha Hz Hn Hsum Hso Ht.
  { split; [intros i x y _ Hy; by destruct i|by intros b Hb%not_elem_of_nil]. }
  apply StronglySorted_inv in Hso as [Hso Hall]. rewrite Forall_forall in Hall.
  assert (Z.of_nat n + Z.of_nat (length asks) < max_int64) as Hn' by (cbn in Hn; lia).
  cbn [starts_of]. destruct (decide (ask_id a = id)) as [Hid|Hid].
  2:{ destruct (mayStart _ _ _ _) as [seen' [allow w]] eqn:Em. rewrite (bool_decide_eq_false_2 _ Hid). cbn [andb app].
      apply paced_held; [|done]. apply (IH seen' n t st); try done; [|set_solver|set_solver].
      pose proof (mayStart_other (ask_now a) (ask_id a) (ask_sum a) seen id ltac:(done)) as Ho. rewrite Em in Ho. cbn in Ho. by rewrite Ho. }
  unfold mayStart. rewrite Hid, Hs. destruct Ha as (H1 & H2 & H3). rewrite (Hsum a) by (done || left).
  rewrite H1, bool_decide_eq_true_2 by done. cbn [negb]. pose proof (Ht a ltac:(left)) as Hta.
  pose proof (restartDelay_bounds (Z.of_nat n)) as Hb. rewrite bool_decide_eq_true_2 by done.
  destruct (Z.ltb_spec (ask_now a) (fl_next st)) as [Hlt|Hge]; cbn [andb].
  - apply paced_held; [apply (IH seen n t st); try done; [set_solver|set_solver]|]. intros ?.
    destruct H3 as [[_ H3]|[_ H3]]; lia.
  - rewrite H2. rewrite wrap64_id by (cbn in Hn; int64). replace (Z.of_nat n + 1) with (Z.of_nat (S n)) by lia. cbn [app].
    apply paced_start; [|done|].
    + eapply (IH _ (S n) (ask_now a)); [by rewrite lookup_insert_eq| | | | |done|].
      * split_and!; [done|done|]. right. split; [|done]. destruct H3 as [[-> _]|[? _]]; lia.
      * lia.
      * cbn in Hn. lia.
      * set_solver.
      * intros b Hin. by apply Hall.
    + destruct H3 as [[-> _]|[_ <-]]; [rewrite restartDelay_small by done; lia|done].
Qed.

(** A workload that will not stay up is restarted at the pace of the backoff and never
    held off longer: when starts of one content are asked for at growing times, among those of
    other workloads, the first two allowed are immediate, and the one after the n-th comes at
    least min(15s * 2^(n-2), 5min) after it; and whoever is refused was asking within that
    delay of the last start allowed. *)
Theorem restarts_paced id sum first asks seen :
  seen !! id = None → ask_id first = id → zero_time ≤ ask_now first →
  (∀ a, a ∈ first :: asks → ask_id a = id → ask_sum a = sum) → StronglySorted (λ a b, ask_now a ≤ ask_now b) (first :: asks) →
  Z.of_nat (length asks) + 1 < max_int64 →
  let starts := starts_of id (first :: asks) seen in
  let delay i := if decide (i < 2)%nat then 0 else Z.min (restartBackoffBase * 2 ^ (Z.of_nat i - 2)) restartBackoffMax in
  head starts = Some (ask_now first) ∧
  (∀ i a b, starts !! i = Some a → starts !! S i = Some b → a + delay (S i) ≤ b) ∧
  (∀ a, a ∈ first :: asks → ask_id a = id → ask_now a ∉ starts →
     ∃ i b, starts !! i = Some b ∧ b ≤ ask_now a < b + delay (S i)).
Proof.
  intros Hs Hid Hz Hsum Hso Hlen starts delay.
  assert (∀ i, delay i = restartDelay (Z.of_nat i)) as Hd.
  { intros i. unfold delay. case_decide; [by rewrite restartDelay_small by lia|by rewrite restartDelay_eq by lia]. }
  assert (starts = ask_now first :: starts_of id asks (<[id := mkFlapState sum 1 zero_time]> seen)) as Hst.
  { unfold starts. cbn [starts_of]. unfold mayStart. rewrite Hid, Hs, bool_decide_eq_true_2 by done.
    by rewrite (Hsum first) by (done || left). }
  rewrite !Hst. clearbody starts. clear Hst starts.
  apply StronglySorted_inv in Hso as [Hso Hall]. rewrite Forall_forall in Hall.
  destruct (starts_paced id sum asks (<[id:=mkFlapState sum 1 zero_time]> seen) 1 (ask_now first) (mkFlapState sum 1 zero_time))
    as [P1 P2]; try done; [by rewrite lookup_insert_eq|split_and!; [done..|by left]|lia|set_solver|].
  split; [done|]. split.
  - intros i a b Ha Hb. rewrite Hd. by apply (P1 i).
  - intros a [->|Ha]%elem_of_cons Hia Hn; [set_solver|]. apply not_elem_of_cons in Hn as [_ Hn].
    destruct (P2 a Ha Hia Hn) as (i & b & Hb & Hr). exists i, b. split; [exact Hb|]. rewrite Hd. exact Hr.
Qed.

(** ** Unit names *)
Lemma string_app_assoc (a b c : string) : (a +:+ b) +:+ c = a +:+ b +:+ c.
Proof. induction a as [|x a IH]; [done|]. change (String x ((a +:+ b) +:+ c) = String x (a +:+ b +:+ c)). by f_equal. Qed.
Lemma string_app_nil (a : string) : a +:+ "" = a.
Proof. induction a as [|x a IH]; [done|]. change (String x (a +:+ "") = String x a). by f_equal. Qed.
Lemma reverse_onto_app s acc : GoStrings.reverse_onto s acc = GoStrings.reverse_string s +:+ acc.
Proof.
  unfold GoStrings.reverse_string. revert acc. induction s as [|c s IH]; intros acc; [done|]. cbn [GoStrings.reverse_onto].
  by rewrite IH, (IH (String c "")), string_app_assoc.
Qed.
Lemma reverse_app a b : GoStrings.reverse_string (a +:+ b) = GoStrings.reverse_string b +:+ GoStrings.reverse_string a.
Proof.
  induction a as [|c a IH]; [by rewrite string_app_nil|].
  change (GoStrings.reverse_string (String c a +:+ b)) with (GoStrings.reverse_onto (a +:+ b) (String c "")).
  rewrite reverse_onto_app, IH.
  change (GoStrings.reverse_string (String c a)) with (GoStrings.reverse_onto a (String c "")).
  by rewrite reverse_onto_app, string_app_assoc.
Qed.
Lemma reverse_involutive s : GoStrings.reverse_string (GoStrings.reverse_string s) = s.
Proof.
  induction s as [|c s IH]; [done|]. change (GoStrings.reverse_string (String c s)) with (GoStrings.reverse_onto s (String c "")).
  by rewrite reverse_onto_app, reverse_app, IH.
Qed.
Lemma cut_prefix_app p s : cut_prefix p (p +:+ s) = Some s.
Proof.
  unfold cut_prefix. replace (GoStrings.has_prefix p (p +:+ s)) with true.
  - f_equal. by induction p.
  - symmetry. induction p as [|c p IH]; [done|].
    change (bool_decide (c = c) && GoStrings.has_prefix p (p +:+ s) = true). by rewrite bool_decide_eq_true_2, IH.
Qed.
Lemma unitID_UnitName id : unitID (UnitName id) = Some id.
Proof. unfold unitID, UnitName. by rewrite reverse_app, cut_prefix_app, reverse_involutive. Qed.
Lemma UnitName_inj id id' : UnitName id = UnitName id' → id = id'.
Proof. intros H%(f_equal unitID). rewrite !unitID_UnitName in H. by injection H. Qed.

(** ** Jobs *)
Section Jobs.
Context {HQ : Quantity} {M I : Type} (mg : Manager M) (os : OS) (r : RuntimeConfig).
Implicit Types (app : App) (h : @Host M I) (m : M).

(** The unit is loaded and neither up nor coming up: [s] is its state. *)
Definition down (unit s : string) m : Prop :=
  mg_conn mg m = None ∧ mg_unit_prop mg unit "ActiveState" m = Some (VString s) ∧
  s ∉ ["active"; "activating"; "reloading"] ∧ unitLoaded mg unit m = true.

Lemma inspect_down unit id sum app want runs s m :
  runToCompletion app = true → down unit s m →
  inspect mg r unit id sum app want runs m = mkUnitState (negb (bool_decide (s = "failed")) || spent id runs) false 0.
Proof.
  intros Hj (H1 & H2 & H3 & H4). unfold inspect. rewrite H1, H2, (bool_decide_eq_false_2 _ H3), Hj, H4. done.
Qed.

Lemma spent_seeded id n lc runs :
  RunToCompletion lc = true →
  spent id (seed id n (Retries lc) runs) =
  TerminalPhase AppPhaseFailed lc (ledger_count id (seed id n (Retries lc) runs)).1.
Proof.
  intros Hj. unfold spent, ledger_count, run_of, seed, TerminalPhase. rewrite lookup_insert_eq, Hj. done.
Qed.

(** The node leaves a failed job alone exactly when what it reports makes the control
    plane count the job as over: with the ledger seeded from the object, as every pass does
    first, convergence on the failed unit and the terminal phase of the state the node reports
    for it agree. *)
Theorem left_alone_iff_over id sum app want runs h u st :
  runToCompletion app = true → ho_runs h = seed id (wa_Attempts app) (Retries (wa_Lifecycle app)) runs →
  down (UnitName id) "failed" (ho_mgr h) → un_Name u = UnitName id → un_ActiveState u = "failed" →
  unit_state mg h u = Some st →
  us_converged (inspect mg r (UnitName id) id sum app want (ho_runs h) (ho_mgr h)) =
  TerminalPhase (ws_Phase st) (wa_Lifecycle app) (ws_Attempts st).
Proof.
  intros Hj Hr Hd Hn Hs Hst. rewrite (inspect_down _ _ _ _ _ _ "failed") by done. cbn [us_converged]. rewrite Hr, spent_seeded by done.
  revert Hst. unfold unit_state. rewrite Hn, unitID_UnitName, Hs. cbn [unitPhase bool_decide]. rewrite Hr.
  destruct (exitStatus mg _ _) as [[code fin] res]. change (unitPhase "failed" (un_SubState u)) with AppPhaseFailed.
  cbn. by intros [= <-].
Qed.

Lemma start_unit_runs id unit app props h h' res :
  start_unit mg os r id unit app props h = (h', res) →
  ho_runs h' = ho_runs h ∨ runToCompletion app = true ∧ ho_runs h' = (ledger_start id (ho_runs h)).1.
Proof.
  unfold start_unit. destruct (mg_conn mg _); [intros [= <- _]; by left|]. destruct (stopUnit _ _ _ _) as [m e].
  destruct (prepareNetwork _ _ _ _ _) as [fs [[]|e']]; [|intros [= <- _]; by left].
  destruct (runToCompletion app) eqn:Ej; cbn [negb]; destruct (mg_start _ _ _ _ _) as [m' o]; intros [= <- _]; [by right|by left].
Qed.

(** The runs counted for a workload. *)
Definition runs_of h (id : string) : Z := rc_n (run_of (ho_runs h) id).

(** One pass over a job that is down: it is started again only after a failure with runs
    left; otherwise the manager is not touched. *)
Lemma converge_down id sum app s h h' res :
  runToCompletion app = true → down (UnitName id) s (ho_mgr h) →
  converge mg os r id (UnitName id) sum app false h = (h', res) →
  let n := Z.max (runs_of h id) (wa_Attempts app) in
  (runs_of h' id = n ∧ ho_runs h' = seed id (wa_Attempts app) (Retries (wa_Lifecycle app)) (ho_runs h)) ∨
  (runs_of h' id = wrap32 (n + 1) ∧ s = "failed" ∧ Z.max n 1 ≤ Retries (wa_Lifecycle app)).
Proof.
  intros Hj Hd. unfold converge. rewrite Hj. set (h1 := set_runs _ h). change (ho_mgr h1) with (ho_mgr h).
  assert (rc_n (run_of (ho_runs h1) id) = Z.max (runs_of h id) (wa_Attempts app)) as Hn1.
  { unfold h1. cbn. unfold run_of at 1, seed. by rewrite lookup_insert_eq. }
  rewrite (inspect_down _ _ _ _ _ _ s) by done. cbn [us_converged us_running us_activeFor].
  destruct (negb (bool_decide (s = "failed")) || spent id (ho_runs h1)) eqn:Ec; cbn [negb andb orb].
  { intros [= <- _]. left. by rewrite <-Hn1. }
  apply orb_false_iff in Ec as [Es Esp]. apply negb_false_iff, bool_decide_eq_true in Es as ->.
  assert (Z.max (Z.max (runs_of h id) (wa_Attempts app)) 1 ≤ Retries (wa_Lifecycle app)) as Hb.
  { revert Esp. unfold spent, ledger_count. rewrite Hn1. unfold h1. cbn. unfold run_of, seed. rewrite lookup_insert_eq. cbn.
    intros ?%Z.ltb_ge. lia. }
  destruct (mayStart _ _ _ _) as [seen [allow w]]. destruct allow; cbn [negb]; [|intros [= <- _]; left; by rewrite <-Hn1].
  intros [Hr|[_ Hr]]%start_unit_runs; [left|right].
  - unfold runs_of at 1. rewrite Hr. change (ho_runs (set_flap seen h1)) with (ho_runs h1). by rewrite Hn1.
  - split_and!; [|done|done]. unfold runs_of at 1. rewrite Hr. change (ho_runs (set_flap seen h1)) with (ho_runs h1). unfold ledger_start. cbn [fst].
    unfold run_of at 1. rewrite lookup_insert_eq. change (wrap32 (rc_n (run_of (ho_runs h1) id) + 1) = wrap32 (runs_of h id `max` wa_Attempts app + 1)). by rewrite Hn1.
Qed.

(** A life of passes over a job whose unit is loaded and down at each of them, with the secret
    variables it had, whatever the manager, the files and the backoff have become in between;
    each pass sees at least [floor] attempts on the object; [k] counts the starts. *)
Inductive Retried (id : string) (budget floor : Z) : @Host M I → nat → @Host M I → Prop :=
| Retried_none h : Retried id budget floor h 0 h
| Retried_pass h k h1 h2 h3 app sum s res :
    Retried id budget floor h k h1 → ho_runs h2 = ho_runs h1 →
    runToCompletion app = true → Retries (wa_Lifecycle app) ≤ budget → floor ≤ wa_Attempts app →
    down (UnitName id) s (ho_mgr h2) →
    converge mg os r id (UnitName id) sum app false h2 = (h3, res) →
    Retried id budget floor h (if Z.max (runs_of h2 id) (wa_Attempts app) <? runs_of h3 id then S k else k) h3.

End Jobs.

(** ** Convergence of a unit that is up *)
Section Converged.
Context {HQ : Quantity} (r : RuntimeConfig).
Implicit Types (app : App) (applied : gmap string Variant).

(** What a manager reports of the service it was told to run: the command line it executes,
    the service properties as they were set, and the limits that were not set at infinity;
    the properties of the unit are on another interface. *)
Record reports (props : list Property) applied : Prop := {
  rp_exec path argv b : mkProperty "ExecStart" (VExec [(path, argv, b)]) ∈ props →
    applied !! "ExecStart" = Some (VExecStatus [argv]);
  rp_set w : w ∈ props →
    pr_Name w ∈ ["Restart"; "RestartUSec"; "TimeoutStopUSec"; "Type"; "RemainAfterExit"; "TimeoutStartUSec"; "MemoryMax"; "CPUQuotaPerSecUSec"] →
    applied !! pr_Name w = Some (pr_Value w);
  rp_unset name : name ∈ ["MemoryMax"; "CPUQuotaPerSecUSec"] → name ∉ pr_Name <$> props → applied !! name = Some (VU64 max_uint64);
  rp_unit name : name ∈ ["Description"; "CollectMode"; "StartLimitIntervalUSec"; "StartLimitBurst"] → applied !! name = None;
}.

(** The limits in force: infinity where none is set. *)
Definition memory_max app : Z := let b := q_Value (ra_Memory (wa_Limits app)) in if 0 <? b then b else max_uint64.
Definition cpu_quota app : Z :=
  let m := q_MilliValue (ra_CPU (wa_Limits app)) in if 0 <? m then Z.quot (wrapu64 (m * 1000000)) 1000 else max_uint64.
Definition stop_timeout app : Z := wrapu64 (Z.quot (terminationGracePeriod app) microsecond).

Lemma report_values id sum app applied :
  reports (unitProperties r id sum app) applied →
  applied !! "ExecStart" = Some (VExecStatus [sandboxArgv r id sum]) ∧
  applied !! "Restart" = Some (VString (restartMode app)) ∧ applied !! "RestartUSec" = Some (VU64 2000000) ∧
  applied !! "TimeoutStopUSec" = Some (VU64 (stop_timeout app)) ∧
  applied !! "MemoryMax" = Some (VU64 (memory_max app)) ∧ applied !! "CPUQuotaPerSecUSec" = Some (VU64 (cpu_quota app)) ∧
  (runToCompletion app = true → applied !! "Type" = Some (VString "oneshot") ∧
     applied !! "RemainAfterExit" = Some (VBool true) ∧ applied !! "TimeoutStartUSec" = Some (VU64 (activeDeadline app))).
Proof.
  intros [He Hs Hu _]. unfold unitProperties in *.
  split_and!; [by eapply He; right; left|..].
  1-3: apply (Hs (mkProperty _ _)); cbn [pr_Name]; [by repeat first [left|right]|set_solver].
  - unfold memory_max. destruct (0 <? q_Value _).
    + apply (Hs (mkProperty _ _)); [|set_solver]. rewrite !elem_of_app. right. right. left. left.
    + apply Hu; [set_solver|]. rewrite !fmap_app. destruct (runToCompletion app), (0 <? q_MilliValue _); cbn; set_solver.
  - unfold cpu_quota. destruct (0 <? q_MilliValue _).
    + apply (Hs (mkProperty _ _)); [|set_solver]. rewrite !elem_of_app. right. right. right. left.
    + apply Hu; [set_solver|]. rewrite !fmap_app. destruct (runToCompletion app), (0 <? q_Value _); cbn; set_solver.
  - intros Hj. rewrite Hj in Hs. split_and!; apply (Hs (mkProperty _ _)); cbn [pr_Name]; try set_solver.
    all: rewrite !elem_of_app; right; left; by repeat first [left|right].
Qed.

Lemma matches_u64 applied argv name u v :
  name ∈ ["MemoryMax"; "CPUQuotaPerSecUSec"; "RestartUSec"; "TimeoutStopUSec"; "TimeoutStartUSec"] →
  applied !! name = Some (VU64 u) → property_matches applied argv (mkProperty name (VU64 v)) = (u =? v).
Proof.
  intros Hn Hu. unfold property_matches. cbn [pr_Name pr_Value]. rewrite Hu, (bool_decide_eq_true_2 _ Hn).
  rewrite bool_decide_eq_false_2; [done|]. set_solver.
Qed.
Lemma matches_absent applied argv w : applied !! pr_Name w = None → property_matches applied argv w = true.
Proof. intros H. unfold property_matches. by rewrite H. Qed.

(** The limits: checked against what was asked for, or against infinity. *)
Lemma limit_matches applied argv want name (set : bool) v u w :
  name ∈ ["MemoryMax"; "CPUQuotaPerSecUSec"] → applied !! name = Some (VU64 u) →
  (existsb (λ p, bool_decide (pr_Name p = name)) want = set) → w = (if set then v else max_uint64) →
  unmanaged_default applied want name = true ∧ forallb (property_matches applied argv) (if set then [mkProperty name (VU64 v)] else []) = true
  ↔ u = w.
Proof.
  intros Hn Hu Hs ->. unfold unmanaged_default. rewrite Hs, Hu. destruct set; cbn.
  - rewrite (matches_u64 _ _ _ u) by (done || set_solver). rewrite andb_true_r, Z.eqb_eq. naive_solver.
  - rewrite Z.eqb_eq. naive_solver.
Qed.

(** The optional parts of the properties. *)
Definition job_props app : list Property :=
  if runToCompletion app then
    [mkProperty "Type" (VString "oneshot"); mkProperty "RemainAfterExit" (VBool true); mkProperty "TimeoutStartUSec" (VU64 (activeDeadline app))]
  else [].
Definition memory_props app : list Property :=
  if 0 <? q_Value (ra_Memory (wa_Limits app)) then [mkProperty "MemoryMax" (VU64 (q_Value (ra_Memory (wa_Limits app))))] else [].
Definition cpu_props app : list Property :=
  if 0 <? q_MilliValue (ra_CPU (wa_Limits app))
  then [mkProperty "CPUQuotaPerSecUSec" (VU64 (Z.quot (wrapu64 (q_MilliValue (ra_CPU (wa_Limits app)) * 1000000)) 1000))] else [].

Lemma job_props_match id sum' app app' applied argv :
  reports (unitProperties r id sum' app') applied → runToCompletion app = runToCompletion app' →
  forallb (property_matches applied argv) (job_props app) = true ↔
  (runToCompletion app = true → activeDeadline app' = activeDeadline app).
Proof.
  intros (_ & _ & _ & _ & _ & _ & V7)%report_values Hjob. rewrite <-Hjob in V7. unfold job_props.
  destruct (runToCompletion app); [|done]. destruct (V7 eq_refl) as (W1 & W2 & W3). cbn [forallb].
  rewrite (matches_u64 applied argv "TimeoutStartUSec" _ _ ltac:(by repeat first [left|right]) W3).
  assert (property_matches applied argv (mkProperty "Type" (VString "oneshot")) = true) as ->
    by (unfold property_matches; cbn [pr_Name]; by rewrite W1).
  assert (property_matches applied argv (mkProperty "RemainAfterExit" (VBool true)) = true) as ->
    by (unfold property_matches; cbn [pr_Name]; by rewrite W2).
  rewrite !andb_true_l, andb_true_r, Z.eqb_eq. naive_solver.
Qed.

Lemma props_match id sum sum' app app' applied :
  reports (unitProperties r id sum' app') applied → runToCompletion app = runToCompletion app' →
  let argv := sandboxArgv r id sum in
  forallb (property_matches applied argv) (unitProperties r id sum app) = true ↔
  (sum' = sum ∧ restartMode app' = restartMode app ∧ stop_timeout app' = stop_timeout app ∧
   (runToCompletion app = true → activeDeadline app' = activeDeadline app)) ∧
  forallb (property_matches applied argv) (memory_props app) = true ∧ forallb (property_matches applied argv) (cpu_props app) = true.
Proof.
  intros Hrep Hjob argv. pose proof (rp_unit _ _ Hrep) as Hunit. rewrite <-(job_props_match id sum' app app' applied argv Hrep Hjob).
  destruct (report_values _ _ _ _ Hrep) as (V1 & V2 & V3 & V4 & _).
  assert (∀ name v, name ∈ ["Description"; "CollectMode"; "StartLimitIntervalUSec"; "StartLimitBurst"] →
    property_matches applied argv (mkProperty name v) = true) as Hu by (intros name v Hn; by apply matches_absent, Hunit).
  assert (property_matches applied argv (PropExecStart argv) = bool_decide (sandboxArgv r id sum' = argv)) as E1
    by (unfold property_matches; cbn [pr_Name PropExecStart]; by rewrite V1).
  assert (property_matches applied argv (mkProperty "Restart" (VString (restartMode app))) =
          bool_decide (restartMode app' = restartMode app)) as E2 by (unfold property_matches; cbn [pr_Name]; by rewrite V2).
  assert (property_matches applied argv (mkProperty "TimeoutStopFailureMode" (VString "kill")) = true) as E3
    by (unfold property_matches; cbn [pr_Name]; destruct (applied !! "TimeoutStopFailureMode"); reflexivity).
  unfold unitProperties. fold (job_props app) (memory_props app) (cpu_props app) argv (stop_timeout app).
  rewrite !forallb_app, !andb_true_iff. cbn [forallb].
  rewrite E1, E2, E3, (Hu "Description"), (Hu "CollectMode"), (Hu "StartLimitIntervalUSec"), (Hu "StartLimitBurst")
    by (by repeat first [left|right]).
  rewrite (matches_u64 applied argv "RestartUSec" _ _ ltac:(by repeat first [left|right]) V3),
    (matches_u64 applied argv "TimeoutStopUSec" _ _ ltac:(by repeat first [left|right]) V4).
  rewrite !andb_true_l, !andb_true_r, !andb_true_iff, !bool_decide_eq_true, !Z.eqb_eq.
  assert (sandboxArgv r id sum' = argv ↔ sum' = sum) as ->; [|naive_solver].
  unfold argv, sandboxArgv. split; [|by intros ->]. by intros [= ->]%app_inv_head.
Qed.

(** Which limits are asked for. *)
Lemma limits_asked id sum app :
  existsb (λ p, bool_decide (pr_Name p = "MemoryMax")) (unitProperties r id sum app) = (0 <? q_Value (ra_Memory (wa_Limits app))) ∧
  existsb (λ p, bool_decide (pr_Name p = "CPUQuotaPerSecUSec")) (unitProperties r id sum app) = (0 <? q_MilliValue (ra_CPU (wa_Limits app))).
Proof.
  unfold unitProperties. rewrite !existsb_app. destruct (runToCompletion app), (0 <? q_Value _), (0 <? q_MilliValue _); by split.
Qed.

(** A unit that is up is left alone exactly when it runs the content and the limits asked
    for: on a manager that reports what it applied, the comparison holds if and only if the
    digest of the configuration in the command line, the restart mode, the stop timeout, the
    memory and CPU limits (set or not) and, for a job, the deadline are the ones asked for. *)
Theorem as_specified id sum sum' app app' applied :
  reports (unitProperties r id sum' app') applied → runToCompletion app = runToCompletion app' →
  appliedMatches applied (unitProperties r id sum app) (sandboxArgv r id sum) = true ↔
  sum' = sum ∧ restartMode app' = restartMode app ∧ stop_timeout app' = stop_timeout app ∧
  memory_max app' = memory_max app ∧ cpu_quota app' = cpu_quota app ∧
  (runToCompletion app = true → activeDeadline app' = activeDeadline app).
Proof.
  intros Hrep Hjob. unfold appliedMatches. cbn [forallb].
  rewrite andb_true_r, !andb_true_iff, (props_match id sum sum' app app') by done.
  destruct (report_values _ _ _ _ Hrep) as (_ & _ & _ & _ & V5 & V6 & _). destruct (limits_asked id sum app) as [X1 X2].
  pose proof (limit_matches applied (sandboxArgv r id sum) (unitProperties r id sum app) "MemoryMax" _
    (q_Value (ra_Memory (wa_Limits app))) _ (memory_max app) ltac:(left) V5 X1 eq_refl) as L1.
  pose proof (limit_matches applied (sandboxArgv r id sum) (unitProperties r id sum app) "CPUQuotaPerSecUSec" _
    (Z.quot (wrapu64 (q_MilliValue (ra_CPU (wa_Limits app)) * 1000000)) 1000) _ (cpu_quota app) ltac:(right; left) V6 X2 eq_refl) as L2.
  fold (memory_props app) in L1. fold (cpu_props app) in L2. tauto.
Qed.
End Converged.
