(* ===== verification/UsernsContract.v ===== *)
(** * The rootless runtime as the agent's runtime port

    On a manager that answers and acts on one unit at a time, and whose units die of SIGKILL, the
    rootless runtime keeps what the agent's theorems ask of a runtime: it touches the workload it
    is told to, a removal leaves nothing of the workload, a listing is complete.  A removal takes
    a bounded time on any manager whose calls do. *)
From stdpp Require Import gmap strings list.
From Stdlib Require Import ZArith Ascii.
From S2P Require Import Prelude Paths Resources CoreV1 ApiObjects Uids DesiredState Workload Agent AgentTheorems HostFS SecretFiles SandboxConfig Userns UsernsTheorems.
Import GoInt.
#[local] Open Scope Z_scope.

(** ** What the manager promises *)
(** [held] is the workloads the manager has units of.  The bus answers and the session goes on; a
    call, and the wait for a job, touch the unit they name; a stop is refused of a unit that is
    not there; once a stop job has ended as "done" a reset leaves no unit; a unit sent SIGKILL,
    which no process can catch, has its next stop done within the margin; a listing is
    complete. *)
Class ManagerLaws {M : Type} (mg : Manager M) (held : M → gset string) : Prop := {
  ml_conn m : mg_conn mg m = None;
  ml_alive m : mg_done mg m = None;
  ml_session m : mg_ends mg m = None;
  ml_reset id m j : j ∈ held (mg_reset mg (UnitName id) m) → j ∈ held m;
  ml_reset_other id m j : j ≠ id → j ∈ held m → j ∈ held (mg_reset mg (UnitName id) m);
  ml_kill id m j : j ∈ held (mg_kill mg (UnitName id) m) ↔ j ∈ held m;
  ml_stop id m j : j ∈ held (mg_stop mg (UnitName id) m).1 ↔ j ∈ held m;
  ml_wait id t m j : j ∈ held (mg_wait mg (UnitName id) t m) → j ∈ held m;
  ml_wait_other id t m j : j ≠ id → j ∈ held m → j ∈ held (mg_wait mg (UnitName id) t m);
  ml_refused id m m' e : mg_stop mg (UnitName id) m = (m', Some e) → id ∉ held m;
  ml_stopped id m t t' : mg_job mg (UnitName id) m = Some (t, "done") → t ≤ t' →
    id ∉ held (mg_reset mg (UnitName id) (mg_wait mg (UnitName id) t' m));
  ml_sigkill id m m' : mg_stop mg (UnitName id) (mg_kill mg (UnitName id) m) = (m', None) →
    ∃ t, mg_job mg (UnitName id) m' = Some (t, "done") ∧
      Z.max (mg_now mg m') t < mg_now mg (mg_kill mg (UnitName id) m) + stopMargin;
  ml_start w id props m j : j ≠ id → j ∈ held (mg_start mg w (UnitName id) props m).1 ↔ j ∈ held m;
  ml_unwire id m j : j ∈ held (mg_unwire mg id m) ↔ j ∈ held m;
  ml_list m us : mg_list mg [] m = Ok us → ∀ id, id ∈ held m ↔ ∃ u, u ∈ us ∧ unitID (un_Name u) = Some id;
}.

Section Contract.
Context {HQ : Quantity} {M I : Type} (mg : Manager M) (im : Images I) (os : OS).
Context (sum8 : string → string) (range : gmap string (list ascii) → list (string * list ascii)).
Context (json_Marshal_config : SandboxConfig → result error string) (sha256_hex : string → string) (r : RuntimeConfig).
Implicit Types (h : @Host M I).
Context (err_text : RunError → error) (held : M → gset string) `{!ManagerLaws mg held}.

#[local] Notation apply_app := (Apply mg im os sum8 range json_Marshal_config sha256_hex r).

(** The agent's ports with this runtime; the other ports are [o]'s. *)
Definition userns_ports (o : Ports (@Host M I)) : Ports (@Host M I) :=
  mkPorts RuntimeName
    (λ app vols h, let '(h, e) := apply_app app vols h in (h, err_text <$> e))
    (λ id grace h, let '(h, e) := runtime_Remove mg os r id grace h in (h, err_text <$> e))
    (λ h, let '(l, e) := States mg h in (l, err_text <$> e))
    (rt_Metrics o) (vo_Provision o) (vo_Fits o) (vo_Resolve o) (vo_Reclaim o) (se_Materialize o) (se_MaterializeEnv o)
    (se_StaleApps o) (nw_present o) (nw_Status o) (nw_Configure o) (nw_GC o).

(** The volumes, the secrets and the network helper's clean-up run no units. *)
Class UnitsAlone (o : Ports (@Host M I)) : Prop := {
  ua_provision v h : ho_mgr (vo_Provision o v h).1 = ho_mgr h;
  ua_resolve app v h : ho_mgr (vo_Resolve o app v h).1 = ho_mgr h;
  ua_reclaim v w h : ho_mgr (vo_Reclaim o v w h).1 = ho_mgr h;
  ua_materialize app a b h : ho_mgr (se_Materialize o app a b h).1 = ho_mgr h;
  ua_environment app a b h : ho_mgr (se_MaterializeEnv o app a b h).1 = ho_mgr h;
  ua_gc ids h : ho_mgr (nw_GC o ids h).1 = ho_mgr h;
}.

(** A wait comes back at an end of the job or of the context. *)
Lemma waitJob_cases unit deadline m m' o :
  waitJob mg unit deadline m = (m', o) → ∃ t, m' = mg_wait mg unit t m ∧
    (∀ res, o = JResult res → ∃ t0, mg_job mg unit m = Some (t0, res) ∧ t0 ≤ t) ∧ ∀ e, o ≠ JRefused e.
Proof.
  unfold waitJob. destruct (match mg_ends mg m with Some _ => _ | None => _ end) as [limit e].
  destruct (mg_job mg unit m) as [[t res]|]; [|intros [= <- <-]; eexists; by split_and!].
  destruct (_ || _); intros [= <- <-]; eexists; (split_and!; [done| |done]); [|done].
  intros res' [= <-]. exists t. split; [done|lia].
Qed.

Lemma stop_held verb timeout id m j : j ∈ held (runJobWithin mg verb timeout (UnitName id) m).1 → j ∈ held m.
Proof.
  unfold runJobWithin. destruct (mg_stop mg (UnitName id) m) as [m1 ref] eqn:E. pose proof (ml_stop id m j) as H1. rewrite E in H1.
  destruct ref as [e|]; [by rewrite <-H1|]. destruct (waitJob mg _ _ m1) as [m2 o] eqn:Ew.
  apply waitJob_cases in Ew as (t & -> & _). cbn in *. intros H%ml_wait. by apply H1.
Qed.
Lemma stop_other verb timeout id m j : j ≠ id → j ∈ held m → j ∈ held (runJobWithin mg verb timeout (UnitName id) m).1.
Proof.
  intros Hne Hj. unfold runJobWithin. destruct (mg_stop mg (UnitName id) m) as [m1 ref] eqn:E.
  pose proof (ml_stop id m j) as H1. rewrite E in H1. destruct ref as [e|]; [by apply H1|].
  destruct (waitJob mg _ _ m1) as [m2 o] eqn:Ew. apply waitJob_cases in Ew as (t & -> & _). cbn in *.
  apply ml_wait_other; [done|by apply H1].
Qed.
(** A stop that succeeded, or was refused, leaves a unit a reset unloads. *)
Lemma stop_gone verb timeout id m m' : runJobWithin mg verb timeout (UnitName id) m = (m', None) → id ∉ held (mg_reset mg (UnitName id) m').
Proof.
  unfold runJobWithin. destruct (mg_stop mg (UnitName id) m) as [m1 ref] eqn:E. destruct ref as [e|]; [done|].
  destruct (waitJob mg _ _ m1) as [m2 o] eqn:Ew. apply waitJob_cases in Ew as (t & -> & Hres & _).
  intros [= <- Ho]. destruct o as [e|res|e]; cbn in Ho; try done. destruct (bool_decide_reflect (res = "done")) as [->|]; [|done].
  destruct (Hres _ eq_refl) as (t0 & Hj & Ht). by eapply ml_stopped.
Qed.
Lemma killed_gone verb id m :
  id ∉ held (mg_reset mg (UnitName id) (runJobWithin mg verb stopMargin (UnitName id) (mg_kill mg (UnitName id) m)).1).
Proof.
  destruct (runJobWithin mg verb stopMargin (UnitName id) (mg_kill mg (UnitName id) m)) as [m' [e|]] eqn:Er;
    [|by apply stop_gone in Er].
  revert Er. unfold runJobWithin. destruct (mg_stop mg (UnitName id) (mg_kill mg (UnitName id) m)) as [m1 ref] eqn:E.
  destruct ref as [e'|].
  - intros [= <- _] Hin%ml_reset. apply (ml_refused id) in E as Hno. apply Hno.
    pose proof (ml_stop id (mg_kill mg (UnitName id) m) id) as H. rewrite E in H. by apply H.
  - destruct (ml_sigkill id m m1 E) as (t & Hj & Ht). unfold waitJob. rewrite ml_session, Hj.
    destruct (Z.ltb_spec (Z.max (mg_now mg m1) t) (Z.max (mg_now mg m1) (mg_now mg (mg_kill mg (UnitName id) m) + stopMargin))); [|lia].
    cbn [orb]. intros [=].
Qed.

Lemma stopUnit_held id grace m j : j ∈ held (stopUnit mg (UnitName id) grace m).1 → j ∈ held m.
Proof.
  unfold stopUnit. destruct (runJobWithin mg _ (wrap64 _) _ m) as [m1 e] eqn:E1.
  pose proof (stop_held ("stop " +:+ UnitName id) (wrap64 (grace + stopMargin)) id m j) as H1. rewrite E1 in H1.
  destruct e; [|done]. rewrite (ml_alive m1). intros H%stop_held. apply H1. by apply (ml_kill id).
Qed.
Lemma stopUnit_other id grace m j : j ≠ id → j ∈ held m → j ∈ held (stopUnit mg (UnitName id) grace m).1.
Proof.
  intros Hne Hj. unfold stopUnit. destruct (runJobWithin mg _ (wrap64 _) _ m) as [m1 e] eqn:E1.
  pose proof (stop_other ("stop " +:+ UnitName id) (wrap64 (grace + stopMargin)) id m j Hne Hj) as H1. rewrite E1 in H1.
  destruct e; [|done]. rewrite (ml_alive m1). apply stop_other; [done|]. by apply (ml_kill id).
Qed.
(** Once stopped and reset, nothing is left of a workload. *)
Lemma stopUnit_gone id grace m : id ∉ held (mg_reset mg (UnitName id) (stopUnit mg (UnitName id) grace m).1).
Proof.
  unfold stopUnit. destruct (runJobWithin mg _ (wrap64 _) _ m) as [m1 e] eqn:E1. destruct e.
  - rewrite (ml_alive m1). apply killed_gone.
  - by apply stop_gone in E1.
Qed.

Lemma start_unit_other id app props h h' res j :
  start_unit mg os r id (UnitName id) app props h = (h', res) → j ≠ id → j ∈ held (ho_mgr h') ↔ j ∈ held (ho_mgr h).
Proof.
  intros Hs Hj. unfold start_unit in Hs. rewrite ml_conn in Hs.
  destruct (stopUnit _ _ _ _) as [m e] eqn:Es.
  assert (j ∈ held m ↔ j ∈ held (ho_mgr h)) as Hm.
  { pose proof (stopUnit_held id (terminationGracePeriod app) (mg_reset mg (UnitName id) (ho_mgr h)) j) as H1.
    pose proof (stopUnit_other id (terminationGracePeriod app) (mg_reset mg (UnitName id) (ho_mgr h)) j Hj) as H2.
    rewrite Es in H1, H2. cbn in *. split; [intros H; by apply (ml_reset id), H1|intros H; by apply H2, ml_reset_other]. }
  destruct (prepareNetwork _ _ _ _ _) as [fs [[]|e']]; [|by injection Hs as <- _].
  destruct (runToCompletion app); cbn [negb] in Hs; destruct (mg_start _ _ _ _ _) as [m' o] eqn:Em; injection Hs as <- _; cbn.
  all: assert (m' = (m', o).1) as -> by done; rewrite <-Em, ml_start by done; done.
Qed.

Lemma Apply_other app vols h h' res j :
  apply_app app vols h = (h', res) → j ≠ wa_ID app → j ∈ held (ho_mgr h') ↔ j ∈ held (ho_mgr h).
Proof.
  intros Ha Hj. unfold Apply in Ha. destruct (ValidateVolumes _ _); [by injection Ha as <- _|].
  destruct (supportedVolumes _); [by injection Ha as <- _|]. destruct (EnsureImage _ _ _ _) as [img ls].
  destruct ls as [ls|]; [|by injection Ha as <- _].
  match type of Ha with (match ?f _ with _ => _ end) = _ => destruct (f (ho_fs (set_img img h))) as [fs [[rot sum]|e]] end;
    [|by injection Ha as <- _].
  revert Ha. unfold converge. set (h1 := if runToCompletion app then _ else _).
  assert (ho_mgr h1 = ho_mgr h) as <- by (unfold h1; by destruct (runToCompletion app)).
  destruct (us_converged _ && _); [intros [= <- _]; by destruct (_ <=? _)|].
  destruct (rot || _); [intros Hs; by apply (start_unit_other _ _ _ _ _ _ _ Hs)|].
  destruct (mayStart _ _ _ _) as [seen [allow w]]. destruct allow; cbn [negb]; [intros Hs; by apply (start_unit_other _ _ _ _ _ _ _ Hs)|by intros [= <- _]].
Qed.

(** C27: The rootless runtime is a runtime as the agent's theorems want one: on a manager that
    answers and whose units, once sent SIGKILL, are stopped within the margin, with storage,
    secrets and network that run no units, applying or removing a workload touches its own unit
    only, a removal leaves no unit of it, and a listing that does not fail is complete. *)
Theorem userns_is_a_runtime (o : Ports (@Host M I)) :
  UnitsAlone o → RuntimeContract (userns_ports o) (λ h, held (ho_mgr h)).
Proof.
  intros Ho. split; cbn.
  - intros app vols h h' res. destruct (apply_app app vols h) as [h1 e] eqn:Ea. intros [= <- _] id Hid. by eapply Apply_other.
  - intros name g h h' res [= <- _]. cbn. set (g' := if g <=? 0 then _ else _). rewrite ml_conn.
    set (m1 := (stopUnit mg (UnitName name) g' (ho_mgr h)).1).
    assert (∀ j, j ∈ held (if ut_net r then mg_unwire mg name (mg_reset mg (UnitName name) m1) else mg_reset mg (UnitName name) m1) ↔
                 j ∈ held (mg_reset mg (UnitName name) m1)) as Hu by (intros j; destruct (ut_net r); [by rewrite ml_unwire|done]).
    split_and!; [intros id Hid| |intros _]; rewrite Hu.
    + split; [intros H; by eapply stopUnit_held, ml_reset|]. intros H. apply ml_reset_other; [done|]. by apply stopUnit_other.
    + intros H. by eapply stopUnit_held, ml_reset.
    + apply stopUnit_gone.
  - intros h l. unfold States. rewrite ml_conn. destruct (mg_list mg [] (ho_mgr h)) as [us|e] eqn:El; [|done]. intros [= <-] id.
    rewrite (ml_list _ _ El). rewrite list_elem_of_fmap. setoid_rewrite list_elem_of_omap.
    assert (∀ u st, unit_state mg h u = Some st → unitID (un_Name u) = Some (ws_ID st)) as Hid.
    { intros u st. unfold unit_state. destruct (unitID (un_Name u)) as [j|]; [|done]. case_bool_decide; [by intros [= <-]|].
      destruct (exitStatus mg _ _) as [[c f] s]. by intros [= <-]. }
    split.
    + intros (st & -> & u & Hin & Hst). exists u. split; [done|]. by apply Hid.
    + intros (u & Hin & Hu). assert (is_Some (unit_state mg h u)) as [st Hst].
      { unfold unit_state. rewrite Hu. case_bool_decide; [by eexists|]. destruct (exitStatus mg _ _) as [[c f] s]. by eexists. }
      exists st. split; [|by exists u]. apply Hid in Hst. congruence.
  - intros v h h' res Hp. by rewrite <-(ua_provision v h), Hp.
  - intros app v h h' res Hp. by rewrite <-(ua_resolve app v h), Hp.
  - intros v w h h' res Hp. by rewrite <-(ua_reclaim v w h), Hp.
  - intros app a b h h' res Hp. by rewrite <-(ua_materialize app a b h), Hp.
  - intros app a b h h' res Hp. by rewrite <-(ua_environment app a b h), Hp.
  - intros ids h h' res Hp. by rewrite <-(ua_gc ids h), Hp.
Qed.
End Contract.

(** ** How long a removal takes *)
(** Every call of the bus and of the network helper is answered within [answer]; a wait ends when
    it is told to.  How long a job takes is not said. *)
Class ManagerTimes {M : Type} (mg : Manager M) (answer : Z) : Prop := {
  mt_answer : 0 ≤ answer;
  mt_stop u m : mg_now mg (mg_stop mg u m).1 ≤ mg_now mg m + answer;
  mt_wait u t m : mg_now mg (mg_wait mg u t m) = Z.max (mg_now mg m) t;
  mt_kill u m : mg_now mg (mg_kill mg u m) ≤ mg_now mg m + answer;
  mt_reset u m : mg_now mg (mg_reset mg u m) ≤ mg_now mg m + answer;
  mt_unwire u m : mg_now mg (mg_unwire mg u m) ≤ mg_now mg m + answer;
}.

Section Times.
Context {M I : Type} (mg : Manager M) (os : OS) (r : RuntimeConfig) (answer : Z) `{!ManagerTimes mg answer}.

Lemma waitJob_bounded unit deadline m :
  mg_now mg (waitJob mg unit deadline m).1 ≤ Z.max (mg_now mg m) deadline.
Proof.
  unfold waitJob.
  assert (∃ limit e, (match mg_ends mg m with
      | Some t => if t <=? deadline then (t, "context canceled") else (deadline, "context deadline exceeded")
      | None => (deadline, "context deadline exceeded") end) = (limit, e) ∧ limit ≤ deadline) as (limit & e & -> & Hl).
  { destruct (mg_ends mg m) as [t|]; [|by do 2 eexists]. destruct (Z.leb_spec t deadline); by do 2 eexists. }
  destruct (mg_job mg unit m) as [[t res]|]; [|cbn; rewrite mt_wait; lia].
  destruct (_ || _) eqn:Eb; cbn; rewrite mt_wait; [|lia].
  apply orb_true_iff in Eb as [?%Z.ltb_lt|[?%Z.eqb_eq _]%andb_true_iff]; lia.
Qed.

Lemma runJobWithin_bounded verb timeout unit m :
  mg_now mg (runJobWithin mg verb timeout unit m).1 ≤ mg_now mg m + Z.max 0 timeout + answer.
Proof.
  unfold runJobWithin. pose proof (mt_stop unit m) as H1. destruct (mg_stop mg unit m) as [m1 [e|]]; cbn in *; [lia|].
  pose proof (waitJob_bounded unit (mg_now mg m + timeout) m1) as H2. pose proof mt_answer as Ha.
  destruct (waitJob mg unit _ m1) as [m2 o]. cbn in *. lia.
Qed.

Lemma stopUnit_bounded unit grace m :
  0 ≤ grace ≤ max_int64 - stopMargin →
  mg_now mg (stopUnit mg unit grace m).1 ≤ mg_now mg m + grace + 2 * stopMargin + 3 * answer.
Proof.
  intros Hg. unfold stopUnit. assert (0 < stopMargin < max_int64) as Hs by (vm_compute; split; reflexivity).
  rewrite wrap64_id by int64. pose proof mt_answer as Ha.
  pose proof (runJobWithin_bounded ("stop " +:+ unit) (grace + stopMargin) unit m) as H1.
  destruct (runJobWithin mg _ (grace + stopMargin) unit m) as [m1 e]. cbn in H1. destruct e as [e|]; [|cbn; lia].
  destruct (mg_done mg m1); [cbn; lia|].
  pose proof (runJobWithin_bounded ("stop " +:+ unit) stopMargin unit (mg_kill mg unit m1)) as H2.
  pose proof (mt_kill unit m1). lia.
Qed.

(** C29: A removal always comes back: within the grace period (the default one when none is
    given), twice the margin and the time of its five calls, whatever the workload does and
    however long the manager's jobs take, or for ever, as long as the grace period and the
    margin fit a duration. *)
Theorem removal_bounded name grace (h : @Host M I) :
  grace ≤ max_int64 - stopMargin →
  mg_now mg (ho_mgr (runtime_Remove mg os r name grace h).1) ≤
  mg_now mg (ho_mgr h) + (if grace <=? 0 then removeGrace else grace) + 2 * stopMargin + 5 * answer.
Proof.
  intros Hg. cbn. set (g := if grace <=? 0 then _ else _).
  assert (0 ≤ g ≤ max_int64 - stopMargin) as Hb.
  { unfold g. destruct (Z.leb_spec grace 0); [vm_compute; split; discriminate|lia]. }
  assert (0 < stopMargin) by reflexivity. pose proof (stopUnit_bounded (UnitName name) g (ho_mgr h) Hb) as H1.
  pose proof mt_answer as Ha. pose proof (mt_reset (UnitName name) (stopUnit mg (UnitName name) g (ho_mgr h)).1) as H2.
  pose proof (mt_unwire name (ho_mgr h)) as H3.
  pose proof (mt_unwire name (mg_reset mg (UnitName name) (stopUnit mg (UnitName name) g (ho_mgr h)).1)) as H4.
  destruct (mg_conn mg (ho_mgr h)), (ut_net r); lia.
Qed.
End Times.
