(* ===== verification/SandboxTheorems.v ===== *)
(** * Agent and sandbox: what is rendered is what runs

    Exactly which configurations the runtime renders pass the sandbox's checks; and whatever the file has become by the time the unit
    starts, the sandbox executes the configuration whose digest the unit carries or refuses. *)
From stdpp Require Import gmap strings list.
From Stdlib Require Import ZArith Ascii.
From S2P Require Import Prelude Paths Resources CoreV1 Uids DesiredState Workload HostFS SecretFiles SandboxConfig Userns.
Import GoInt.
#[local] Open Scope Z_scope.

(** ** Paths *)
(** No separator of a mount option. *)
Definition unsplit (s : string) : Prop := GoStrings.no_char ":"%char s = true ∧ GoStrings.no_char ","%char s = true.

Lemma unsplit_spec s : ContainsAny s [":"; ","]%char = false ↔ unsplit s.
Proof.
  rewrite ContainsAny_false. unfold unsplit. split.
  - intros H. split; apply H; [left|right; left].
  - intros [H1 H2] c [->|[->|[]%not_elem_of_nil]%elem_of_cons]%elem_of_cons; done.
Qed.
Lemma validLowerPath_None what p : validLowerPath what p = None ↔ IsAbs p = true ∧ unsplit p.
Proof.
  unfold validLowerPath. rewrite <-unsplit_spec. destruct (IsAbs p); cbn; [|naive_solver]. destruct (ContainsAny _ _); naive_solver.
Qed.
Lemma path_text_None what p : validLowerPath what (path_text p) = None ↔ unsplit (path_text p).
Proof. rewrite validLowerPath_None. by replace (IsAbs (path_text p)) with true by done; split; [intros [_ ?]|]. Qed.
Lemma check_None {E} (a b : option E) : (check* a in b) = None ↔ a = None ∧ b = None.
Proof. destruct a; naive_solver. Qed.
Lemma guard_None {E} (b : bool) (e : E) (k : option E) : (if b then Some e else k) = None ↔ b = false ∧ k = None.
Proof. destruct b; naive_solver. Qed.

Lemma ValidMountPath_abs p : ValidMountPath p = None → p ≠ "" ∧ IsAbs p = true.
Proof. unfold ValidMountPath. case_bool_decide; [done|]. by destruct (IsAbs p). Qed.

Lemma run_as_usable what what' id : sandbox_ValidRunAsID what' (run_as what id) = None.
Proof.
  assert (∀ z, MinRunAsID ≤ z ≤ MaxRunAsID → sandbox_ValidRunAsID what' z = None) as Hok.
  { intros z Hz. unfold sandbox_ValidRunAsID, MinRunAsID, MaxRunAsID, maxRunAsID in *. destruct (Z.leb_spec z 0); [lia|].
    by destruct (Z.leb_spec (2 ^ 32) z); [lia|]. }
  assert (sandbox_ValidRunAsID what' DefaultRunAsID = None) as Hd by done. unfold run_as.
  destruct id as [z|]; [|done]. destruct (ValidRunAsID what z) eqn:Ev; [done|]. apply Hok. by apply ValidRunAsID_None in Ev.
Qed.

Lemma join_cons w l : l ≠ [] → GoStrings.join "/" (w :: l) = w +:+ "/" +:+ GoStrings.join "/" l.
Proof. by destruct l. Qed.
Lemma merged_ne_init l id : path_text (l ++ ["init"; id]) ≠ path_text (l ++ ["merged"; id]).
Proof.
  unfold path_text. intros [= H]. revert H. induction l as [|w l IH]; [done|]. cbn [app]. rewrite !join_cons by (by destruct l).
  intros H%(inj (String.append w)). by injection H.
Qed.

(** ** What is rendered is accepted *)
Section Rendered.
Context {HQ : Quantity} (SignalNum : string → Z) (r : RuntimeConfig).
Implicit Types (app : App) (ls : LaunchSpec).

(** What the sandbox asks of an image, an application and the node beyond the runtime's own
    checks. *)
Record sandboxable (id : string) ls app (vols : list Volume) (env : option (list string)) (mounts : list SecretMount) : Prop := mkSandboxable {
  sb_layers : ls_LayerDirs ls ≠ [] ∧ ∀ d, d ∈ ls_LayerDirs ls → IsAbs d = true ∧ unsplit d;
  sb_command : wa_Command app ≠ [] ∨ ls_Entrypoint ls ≠ [] ∨ wa_Args app ≠ [] ∨ ls_Cmd ls ≠ [];
  sb_workdir : ls_WorkingDir ls = "" ∨ IsAbs (ls_WorkingDir ls) = true;
  sb_name : (String.length (wa_Name app) ≤ 64)%nat;
  sb_volumes : ∀ v, v ∈ vols → vo_Kind v = VolumeHostPath → unsplit (vo_Ref v) ∧ unsplit (vo_MountPath v);
  sb_secrets : ∀ m, m ∈ mounts → unsplit (path_text (sm_Source m)) ∧ IsAbs (sm_Target m) = true ∧ unsplit (sm_Target m);
  sb_env : ∀ p, env = Some p → unsplit (path_text p);
  sb_dir : unsplit (path_text (ut_stateDir r ++ ["init"; id]));
}.

Lemma valid_volume range vols v :
  ValidateVolumes range vols = None → v ∈ vols → ValidMountPath (vo_MountPath v) = None ∧ (vo_Kind v = VolumeHostPath → IsAbs (vo_Ref v) = true).
Proof.
  unfold ValidateVolumes. rewrite first_problem_None. intros H Hv. specialize (H v Hv). cbn in H. unfold validate_volume in H.
  destruct (ValidMountPath (vo_MountPath v)); [done|]. split; [done|]. intros Hk. rewrite Hk in H. by destruct (IsAbs (vo_Ref v)).
Qed.

Lemma render_command ls app :
  (let '(entry, cmd) := match wa_Command app with [] => (ls_Entrypoint ls, ls_Cmd ls) | c => (c, []) end in
   entry ++ match wa_Args app with [] => cmd | a => a end) = [] ↔
  ¬ (wa_Command app ≠ [] ∨ ls_Entrypoint ls ≠ [] ∨ wa_Args app ≠ [] ∨ ls_Cmd ls ≠ []).
Proof. destruct (wa_Command app), (wa_Args app), (ls_Entrypoint ls), (ls_Cmd ls); naive_solver. Qed.

Lemma mounted_volume_elem {B} (f : Volume → option B) range vols x :
  ValidateVolumes range vols = None →
  x ∈ omap f (List.filter (λ v, negb (bool_decide (vo_MountPath v = ""))) vols) ↔ ∃ v, v ∈ vols ∧ f v = Some x.
Proof.
  intros Hv. rewrite list_elem_of_omap. split; [intros (w & [Hw _]%filter_elem & Hf); eauto|]. intros (v & Hin & Hf).
  exists v. split; [|done]. apply filter_elem. split; [done|]. destruct (valid_volume _ _ _ Hv Hin) as [[Hne _]%ValidMountPath_abs _].
  by rewrite bool_decide_eq_false_2.
Qed.

Lemma tmpfs_accepted range vols :
  ValidateVolumes range vols = None →
  first_problem (validTmpfsMount false) (omap (λ v, match vo_Kind v with VolumeTmpfs => Some (mkTmpfsMount (vo_MountPath v) "" "") | _ => None end)
    (List.filter (λ v, negb (bool_decide (vo_MountPath v = ""))) vols)) = None.
Proof.
  intros Hv. apply first_problem_None. intros t (v & Hin & Ht)%(mounted_volume_elem _ range); [|done]. destruct (vo_Kind v); try done. injection Ht as <-.
  unfold validTmpfsMount. cbn. destruct (valid_volume _ _ _ Hv Hin) as [[_ Ha]%ValidMountPath_abs _]. by rewrite Ha.
Qed.
Lemma binds_accepted range vols :
  ValidateVolumes range vols = None →
  first_problem (λ m, check* validLowerPath "BindMounts.Source" (bm_Source m) in validLowerPath "BindMounts.Target" (bm_Target m))
    (omap (λ v, match vo_Kind v with VolumeHostPath => Some (mkBindMount (vo_Ref v) (vo_MountPath v) (vo_ReadOnly v)) | _ => None end)
      (List.filter (λ v, negb (bool_decide (vo_MountPath v = ""))) vols)) = None ↔
  ∀ v, v ∈ vols → vo_Kind v = VolumeHostPath → unsplit (vo_Ref v) ∧ unsplit (vo_MountPath v).
Proof.
  intros Hv. rewrite first_problem_None. split.
  - intros H v Hin Hk. assert (validLowerPath "BindMounts.Source" (vo_Ref v) = None ∧ validLowerPath "BindMounts.Target" (vo_MountPath v) = None) as [H1 H2].
    { apply check_None. apply (H (mkBindMount (vo_Ref v) (vo_MountPath v) (vo_ReadOnly v))). apply (mounted_volume_elem _ range); [done|].
      exists v. by rewrite Hk. }
    apply validLowerPath_None in H1 as [_ ?], H2 as [_ ?]. done.
  - intros Hp t (v & Hin & Ht)%(mounted_volume_elem _ range); [|done]. destruct (vo_Kind v) eqn:Ek; try done. injection Ht as <-. cbn.
    destruct (Hp v Hin Ek) as [P1 P2]. destruct (valid_volume _ _ _ Hv Hin) as [[_ Ha]%ValidMountPath_abs Hr].
    apply check_None. split; apply validLowerPath_None; auto.
Qed.
Lemma secrets_accepted mounts :
  first_problem (λ m, check* validLowerPath "SecretMounts.Source" (ssm_Source m) in validLowerPath "SecretMounts.Target" (ssm_Target m))
    ((λ m, mkSandboxSecretMount (path_text (sm_Source m)) (sm_Target m)) <$> mounts) = None ↔
  ∀ m, m ∈ mounts → unsplit (path_text (sm_Source m)) ∧ IsAbs (sm_Target m) = true ∧ unsplit (sm_Target m).
Proof.
  rewrite first_problem_None. split.
  - intros H m Hin. assert (mkSandboxSecretMount (path_text (sm_Source m)) (sm_Target m) ∈
      ((λ m, mkSandboxSecretMount (path_text (sm_Source m)) (sm_Target m)) <$> mounts)) as Hx by (apply list_elem_of_fmap; by exists m).
    apply H in Hx. apply check_None in Hx as [H1%path_text_None H2%validLowerPath_None]. done.
  - intros H t (m & -> & Hin)%list_elem_of_fmap. destruct (H m Hin) as (H1 & H2). apply check_None. split; [by apply path_text_None|by apply validLowerPath_None].
Qed.

(** The shape of what is rendered. *)
Lemma shape_accepted id ls app vols env mounts :
  validate_shape (buildConfig r id ls app vols env mounts) = None ↔
  ls_LayerDirs ls ≠ [] ∧ (wa_Command app ≠ [] ∨ ls_Entrypoint ls ≠ [] ∨ wa_Args app ≠ [] ∨ ls_Cmd ls ≠ []) ∧
  (ls_WorkingDir ls = "" ∨ IsAbs (ls_WorkingDir ls) = true) ∧ (String.length (wa_Name app) ≤ 64)%nat.
Proof.
  pose proof (render_command ls app) as Hcmd. unfold buildConfig.
  destruct (match wa_Command app with [] => _ | _ => _ end) as [entry cmd]. destruct (workloadRunAs app) as [uid gid].
  unfold validate_shape. cbn [sc_LowerDirs sc_Merged sc_InitDir sc_Command sc_WorkingDir sc_Hostname sc_Network sc_NetnsPidPath sc_NetworkReadyPath].
  replace (IsAbs (path_text (ut_stateDir r ++ ["merged"; id]))) with true by done. cbn [negb].
  rewrite (bool_decide_eq_false_2 (path_text _ = _)) by apply merged_ne_init.
  rewrite (bool_decide_eq_true_2 (networkMode app ∈ _)) by (unfold networkMode; destruct (wa_HostNetwork app); set_solver). cbn [negb].
  replace (bool_decide (path_text _ = "") || bool_decide (path_text _ = "")) with false by done. rewrite andb_false_r.
  rewrite !guard_None, !bool_decide_eq_false, Hcmd, Z.ltb_ge, andb_false_iff, !negb_false_iff, bool_decide_eq_true.
  destruct (decide (wa_Command app ≠ [] ∨ ls_Entrypoint ls ≠ [] ∨ wa_Args app ≠ [] ∨ ls_Cmd ls ≠ [])); naive_solver lia.
Qed.

(** C40: What the agent renders, the sandbox accepts, exactly when: with volumes that passed the
    runtime's own checks, the rendered configuration passes every check of the default build if
    and only if the image has layers, at absolute paths free of the separators of mount options,
    and a command, its working directory is absolute or absent, the application's name has at
    most 64 bytes, and no path of a bound volume, a secret or the state directory has a
    separator; the network mode, the identities and the environment never matter. *)
Theorem rendered_is_accepted range id ls app vols env mounts digest :
  ValidateVolumes range vols = None →
  validate SignalNum (mkLoadOptions false digest) (buildConfig r id ls app vols env mounts) = None ↔
  sandboxable id ls app vols env mounts.
Proof.
  intros Hv. pose proof (shape_accepted id ls app vols env mounts) as Hsh. unfold validate. rewrite !check_None, Hsh. clear Hsh.
  unfold buildConfig. destruct (match wa_Command app with [] => _ | _ => _ end) as [entry cmd].
  destruct (workloadRunAs app) as [uid gid] eqn:Eu.
  assert (sandbox_ValidRunAsID "UID" uid = None ∧ sandbox_ValidRunAsID "GID" gid = None) as [Hu Hg].
  { unfold workloadRunAs in Eu. destruct (wa_SecurityContext app); injection Eu as <- <-; [|done]. by rewrite !run_as_usable. }
  cbn [sc_Seccomp sc_LowerDirs sc_InitDir sc_UID sc_GID sc_SecretEnvDir sc_SecretEnvFile sc_BindMounts sc_SecretMounts sc_StopSignal sc_TmpfsMounts lo_strict].
  rewrite Hu, Hg, path_text_None, (binds_accepted range) by done. rewrite secrets_accepted, (tmpfs_accepted range) by done.
  rewrite first_problem_None. setoid_rewrite validLowerPath_None.
  assert ((if bool_decide (match env with Some p => path_text p | None => "" end = "") then None
           else validLowerPath "SecretEnvFile" (match env with Some p => path_text p | None => "" end)) = None ↔ ∀ p, env = Some p → unsplit (path_text p)) as Henv.
  { destruct env as [p|]; [|naive_solver]. rewrite bool_decide_eq_false_2 by done. rewrite path_text_None. naive_solver. }
  rewrite Henv. split.
  - intros (_ & (H1 & H2 & H3 & H4) & _ & _ & Hd & _ & He & Hb & Hs & _ & Hl & _). by split.
  - intros [[H1 Hl] H2 H3 H4 Hb Hs He Hd]. tauto.
Qed.
End Rendered.

(** ** What runs is what was rendered *)
Section Loaded.
Context {HQ : Quantity} (SignalNum : string → Z) (r : RuntimeConfig).
Context (json_Marshal_config : SandboxConfig → result error string) (json_Decode_config : string → result error SandboxConfig).
Context (sha256_hex : string → string).
(** Decoding what was encoded gives it back; a digest is lower-case and not empty. *)
Hypothesis json_roundtrip : ∀ c blob, json_Marshal_config c = Ok blob → json_Decode_config blob = Ok c.
Hypothesis sha_lower : ∀ s, lower_string (sha256_hex s) = sha256_hex s.
Hypothesis sha_nonempty : ∀ s, sha256_hex s ≠ "".

(** The configuration as the sandbox executes it. *)
Definition executed (c : SandboxConfig) : SandboxConfig :=
  with_defaults (if bool_decide (sc_WorkingDir c = "") then "/" else sc_WorkingDir c)
    (if bool_decide (sc_Hostname c = "") then "sandbox" else sc_Hostname c) c.

Lemma Load_rendered o c blob :
  json_Marshal_config c = Ok blob → EqualFold (sha256_hex blob) (lo_digest o) = true →
  Load SignalNum json_Decode_config sha256_hex o (Ok blob) =
  match validate SignalNum o c with Some e => Err e | None => Ok (executed c) end.
Proof.
  intros Hm Hd. unfold Load. rewrite Hd, andb_false_r, (json_roundtrip _ _ Hm). done.
Qed.

Lemma digest_agrees blob : EqualFold (sha256_hex blob) (sha256_hex blob) = true.
Proof. unfold EqualFold. by rewrite bool_decide_eq_true_2. Qed.

(** Whatever the configuration file of a workload has become by the time its unit starts,
    the sandbox, told the digest the unit's command line carries, executes the configuration
    the agent rendered or refuses to start; and when the file is untouched and the rendered
    configuration passes the checks, it does start.  (Two contents are taken to have one digest
    only when they are equal.) *)
Theorem only_rendered_runs strict id ls app vols env mounts blob sum bytes :
  (sha256_hex bytes = sha256_hex blob → bytes = blob) →
  sandbox_Marshal json_Marshal_config sha256_hex (buildConfig r id ls app vols env mounts) = Ok (blob, sum) →
  let o := mkLoadOptions strict sum in
  let cfg := buildConfig r id ls app vols env mounts in
  (∀ c, Load SignalNum json_Decode_config sha256_hex o (Ok bytes) = Ok c → bytes = blob ∧ c = executed cfg) ∧
  (validate SignalNum o cfg = None → Load SignalNum json_Decode_config sha256_hex o (Ok blob) = Ok (executed cfg)).
Proof.
  intros Hinj Hm o cfg. revert Hm. unfold sandbox_Marshal. fold cfg. destruct (json_Marshal_config cfg) as [b|] eqn:Ej; [|done].
  intros [= <- <-]. split.
  - intros c Hc. destruct (EqualFold (sha256_hex bytes) (sha256_hex b)) eqn:Ed.
    + assert (bytes = b) as ->.
      { apply Hinj. unfold EqualFold in Ed. rewrite bool_decide_eq_true, !sha_lower in Ed. done. }
      rewrite (Load_rendered _ _ _ Ej) in Hc by done. destruct (validate SignalNum o cfg); [done|]. by injection Hc as <-.
    + unfold Load in Hc. cbn [lo_digest o] in Hc. rewrite Ed, bool_decide_eq_false_2 in Hc by done. done.
  - intros Hv. rewrite (Load_rendered _ _ _ Ej) by apply digest_agrees. by rewrite Hv.
Qed.
End Loaded.

(** ** Where the two disagree *)
(** The size asked for a tmpfs volume does not reach the sandbox. *)
Theorem tmpfs_cap_dropped {HQ : Quantity} r id ls app env mounts path size size' :
  let tmpfs s := mkVolume VolumeTmpfs "" path "" s false ∅ in
  buildConfig r id ls app [tmpfs size] env mounts = buildConfig r id ls app [tmpfs size'] env mounts.
Proof. unfold buildConfig. cbn. by destruct (bool_decide (path = "")). Qed.

Lemma check_later {E} (a b : option E) : is_Some b → is_Some (check* a in b).
Proof. by destruct a; [eexists|]. Qed.

(** So the strict build refuses every workload with a tmpfs volume. *)
Theorem strict_refuses_tmpfs SignalNum digest cfg path rest :
  IsAbs path = true → sc_TmpfsMounts cfg = mkTmpfsMount path "" "" :: rest →
  is_Some (validate SignalNum (mkLoadOptions true digest) cfg).
Proof.
  intros Ha Ht. unfold validate. do 11 apply check_later. rewrite Ht. cbn [first_problem]. unfold validTmpfsMount. cbn.
  rewrite Ha. by eexists.
Qed.

(** A mount path with a comma is valid for admission and for the runtime, and refused by the
    sandbox. *)
Theorem comma_path_refused what : ValidMountPath "/data/a,b" = None ∧ is_Some (validLowerPath what "/data/a,b").
Proof. split; [reflexivity|by eexists]. Qed.

(** A name longer than 64 bytes, which the API accepts, is refused as a host name. *)
Theorem long_name_refused SignalNum o cfg :
  (64 < String.length (sc_Hostname cfg))%nat → is_Some (validate SignalNum o cfg).
Proof.
  intros H. unfold validate. apply check_later. enough (is_Some (validate_shape cfg)) as [e ->] by (by eexists). unfold validate_shape.
  destruct (Z.ltb_spec 64 (Z.of_nat (String.length (sc_Hostname cfg)))); [|lia].
  repeat match goal with |- is_Some (if ?b then Some _ else _) => destruct b; [by eexists|] end. by eexists.
Qed.

(** ** The rootless runtime: concrete nodes

    Managers and hosts on which the theorems of the runtime, its files and its sandbox are
    applied, and the runs behind the findings. *)
From stdpp Require Import sorting.
From S2P Require Import ApiObjects Agent AgentTheorems UsernsTheorems UsernsContract.
Module UsernsDemo.
Import GoInt.
#[local] Open Scope Z_scope.
(** ** Files *)
Definition calm : OS := mkOS (λ _, None) (λ _, "x") 18 (0, 0).
Definition in_order (m : gmap string (list ascii)) : list (string * list ascii) := map_to_list m.
Lemma keys_in_order_perm m : in_order m ≡ₚ map_to_list m.
Proof. done. Qed.
Definition empty_fs : FS := mkFS ∅ 0 [].
Definition secret_dir : list string := ["run"; "secretvol"; "u1"].
Definition token : gmap string (list ascii) := {["token" := ["a"]%char]}.

Lemma rotation_atomic_witness :
  ∃ m o, fs_entries (writeSecretDir calm in_order secret_dir token (mkIDs 5 5) empty_fs).1 !! (secret_dir ++ ["token"]) =
         Some (EFile "a" m o).
Proof.
  destruct (writeSecretDir calm in_order secret_dir token (mkIDs 5 5) empty_fs) as [fs' res] eqn:E.
  destruct (rotation_atomic calm in_order secret_dir token (mkIDs 5 5) "token" ["a"]%char empty_fs fs' res) as [_ H].
  - apply keys_in_order_perm.
  - intros k rel [x Hx]. unfold token in Hx. apply lookup_singleton_Some in Hx as [<- _]. discriminate.
  - apply lookup_singleton_eq.
  - exact E.
  - apply H. apply (f_equal snd) in E. cbn [snd] in E. rewrite <-E. vm_compute. reflexivity.
Defined.

Definition one_env : list string := ["PASSWORD=a"].
Definition rotated_env : list string := ["PASSWORD=b"].
Lemma env_shape_roundtrip_witness :
  let fs1 := (WriteSecretEnvFile calm ["run"] "u1" one_env empty_fs).1 in
  (SecretEnvShapeChanged calm ["run"] "u1" rotated_env fs1).2 = Ok false.
Proof.
  destruct (WriteSecretEnvFile calm ["run"] "u1" one_env empty_fs) as [fs1 res] eqn:E. cbn [fst].
  destruct (SecretEnvShapeChanged calm ["run"] "u1" rotated_env fs1) as [fs2 res2] eqn:E2. cbn [snd].
  destruct res as [p|]; [|apply (f_equal snd) in E; vm_compute in E; discriminate].
  destruct res2 as [b|].
  2:{ exfalso. apply (f_equal snd) in E2. cbn in E2. discriminate. }
  f_equal. apply (env_shape_roundtrip calm (λ _, eq_refl) ["run"] "u1" one_env rotated_env empty_fs fs1 p fs2 b E eq_refl E2).
  reflexivity.
Defined.

(** ** Backoff *)
Definition asks : list Ask := [mkAsk 0 "u1" "d"; mkAsk (16 * second) "u1" "d"; mkAsk (20 * second) "u1" "d"].
Lemma restarts_paced_witness : head (starts_of "u1" (mkAsk 0 "u1" "d" :: List.tl asks) ∅) = Some 0.
Proof.
  apply (restarts_paced "u1" "d" (mkAsk 0 "u1" "d") (List.tl asks) ∅); [reflexivity|reflexivity|vm_compute; discriminate| | |reflexivity].
  - intros a Ha _. cbn in Ha. rewrite !elem_of_cons in Ha. destruct Ha as [-> |[-> |[-> |Ha]]]; try reflexivity. by apply not_elem_of_nil in Ha.
  - repeat constructor; vm_compute; discriminate.
Defined.

(** ** Jobs *)
Import NanoQuantity.
Definition lifecycle (policy : string) (retries : Z) : Lifecycle := mkLifecycle policy None None (Some retries).
Definition workload (lc : Lifecycle) (attempts : Z) (limits : ResourceAmounts) : App :=
  mkApp "u1" "batch" "red" 1 "n1" "img" [] [] ra_zero limits [] [] [] lc attempts false None [] ∅ true "" "" 0.
Definition job (retries attempts : Z) : App := workload (lifecycle RestartNever retries) attempts ra_zero.

(** A manager that holds one unit, in this state, whatever it is told. *)
Definition stuck (s : string) : Manager unit :=
  mkManager (λ _, None) (λ _, 0) (λ _, None)
    (λ _ name _, if bool_decide (name = "ActiveState") then Some (VString s)
                 else if bool_decide (name = "LoadState") then Some (VString "loaded") else None)
    (λ _ _, Some ∅) (λ _ _, Ok [mkUnitStatus (UnitName "u1") s ""]) (λ _ m, m) (λ _ m, m)
    (λ _ m, (m, None)) (λ _ _, Some (0, "done")) (λ _ _ m, m) (λ _, None) (λ _, true)
    (λ _ _ _ m, (m, JResult "done")) (λ _ m, m).
Definition node : RuntimeConfig := mkRuntimeConfig ["state"] ["run"] ["node"; "sandbox"] (mkIDRange 100000 65536) (mkIDRange 100000 65536) false.
Definition host (n : Z) : @Host unit unit := mkHost empty_fs tt tt ∅ {["u1" := mkRunCount n 0]}.

Lemma stuck_failed : down (stuck "failed") (UnitName "u1") "failed" tt.
Proof. split_and!; [reflexivity|reflexivity|set_solver|reflexivity]. Qed.

Definition seeded : @Host unit unit := mkHost empty_fs tt tt ∅ (seed "u1" 1 2 ∅).
Lemma left_alone_iff_over_witness :
  us_converged (inspect (stuck "failed") node (UnitName "u1") "u1" "d" (job 2 1) [] (ho_runs seeded) tt) = false.
Proof.
  assert (∃ st, unit_state (stuck "failed") seeded (mkUnitStatus (UnitName "u1") "failed" "") = Some st ∧
            TerminalPhase (ws_Phase st) (wa_Lifecycle (job 2 1)) (ws_Attempts st) = false) as (st & Hst & Ht).
  { eexists. split; [reflexivity|reflexivity]. }
  refine (eq_trans _ Ht). apply (left_alone_iff_over (stuck "failed") node "u1" "d" (job 2 1) [] ∅ seeded (mkUnitStatus (UnitName "u1") "failed" "") st);
    [reflexivity|reflexivity|apply stuck_failed|reflexivity|reflexivity|exact Hst].
Defined.

(** A pass over a job that failed, of which [attempts] were reported. *)
Definition pass (budget attempts : Z) (h : @Host unit unit) : @Host unit unit :=
  (converge (stuck "failed") calm node "u1" (UnitName "u1") "d" (job budget attempts) false h).1.
Lemma retried budget attempts h :
  0 ≤ budget → Retried (stuck "failed") calm node "u1" budget attempts h
    (if Z.max (runs_of h "u1") attempts <? runs_of (pass budget attempts h) "u1" then 1 else 0) (pass budget attempts h).
Proof.
  intros Hb. eapply (Retried_pass (stuck "failed") calm node "u1" budget attempts h 0 h h _ (job budget attempts) "d" "failed");
    [constructor|reflexivity|reflexivity| |reflexivity| |apply surjective_pairing].
  - cbn. destruct (Z.ltb_spec budget 0); lia.
  - destruct (ho_mgr h). apply stuck_failed.
Qed.

(** A job found failed that the ledger knows nothing of has run once: with a budget of one
    retry it is started twice more, three runs where two are allowed. *)
Theorem unreported_run_refunded :
  runs_of (host 0) "u1" = 0 ∧ runs_of (pass 1 0 (host 0)) "u1" = 1 ∧
  runs_of (pass 1 0 (set_flap ∅ (pass 1 0 (host 0)))) "u1" = 2.
Proof. vm_compute. done. Qed.

(** A job whose budget is spent is started again when a variable joins its secret environment. *)
Theorem spent_job_rerun :
  let h := host 1 in
  runs_of (converge (stuck "failed") calm node "u1" (UnitName "u1") "d" (job 0 1) false h).1 "u1" = 1 ∧
  runs_of (converge (stuck "failed") calm node "u1" (UnitName "u1") "d" (job 0 1) true h).1 "u1" = 2.
Proof. vm_compute. done. Qed.

(** A grace period of 9223372036 seconds and the margin overflow: the stop is not waited for,
    and the workload is killed at once. *)
Theorem huge_grace_killed_at_once : wrap64 (GracePeriod (lifecycle_of_grace 9223372036) + stopMargin) < 0.
Proof. vm_compute. done. Qed.

(** ** Convergence *)
Definition service (limits : ResourceAmounts) : App := workload (lifecycle RestartAlways 0) 0 limits.
Definition capped_service : App := service (mkAmounts (milli 500) (unit_ 1000000)).

(** What a manager reports of it. *)
Definition report_of (app : App) : gmap string Variant :=
  list_to_map [("ExecStart", VExecStatus [sandboxArgv node "u1" "d"]); ("Restart", VString "always"); ("RestartUSec", VU64 2000000);
    ("TimeoutStopUSec", VU64 30000000); ("MemoryMax", VU64 1000000); ("CPUQuotaPerSecUSec", VU64 500000)].
Lemma capped_report : reports (unitProperties node "u1" "d" capped_service) (report_of capped_service).
Proof.
  assert (∃ p1 p2 p3 p4 p5 p6 p7 p8 p9 p10, unitProperties node "u1" "d" capped_service =
    [mkProperty "Description" p1; PropExecStart (sandboxArgv node "u1" "d"); mkProperty "Restart" p2; mkProperty "RestartUSec" p3;
     mkProperty "TimeoutStopUSec" p4; mkProperty "TimeoutStopFailureMode" p5; mkProperty "CollectMode" p6;
     mkProperty "StartLimitIntervalUSec" p7; mkProperty "StartLimitBurst" p8; mkProperty "MemoryMax" p9; mkProperty "CPUQuotaPerSecUSec" p10] ∧
    p2 = VString "always" ∧ p3 = VU64 2000000 ∧ p4 = VU64 30000000 ∧ p9 = VU64 1000000 ∧ p10 = VU64 500000)
    as (p1 & p2 & p3 & p4 & p5 & p6 & p7 & p8 & p9 & p10 & Heq & -> & -> & -> & -> & ->).
  { do 10 eexists. split_and!; reflexivity. }
  rewrite Heq. split.
  - intros path argv b Hin. unfold PropExecStart in Hin. rewrite !elem_of_cons in Hin. destruct_or! Hin; try discriminate.
    + injection Hin as -> -> ->. reflexivity.
    + by apply not_elem_of_nil in Hin.
  - intros w Hin Hn. rewrite !elem_of_cons in Hin. destruct_or! Hin; try (subst w; first [reflexivity|cbn in Hn; set_solver]).
    by apply not_elem_of_nil in Hin.
  - intros name Hn Hno. exfalso. apply Hno. cbn. set_solver.
  - intros name Hn. rewrite !elem_of_cons in Hn. destruct_or! Hn; try (subst name; reflexivity). by apply not_elem_of_nil in Hn.
Qed.
Lemma as_specified_witness :
  appliedMatches (report_of capped_service) (unitProperties node "u1" "d" capped_service) (sandboxArgv node "u1" "d") = true.
Proof.
  apply (as_specified node "u1" "d" "d" capped_service capped_service (report_of capped_service)); [apply capped_report|reflexivity|].
  split_and!; reflexivity.
Defined.

(** If a limit is reported rounded to a page, as the comment on [appliedMatches] says it is, a
    service whose limit is not a whole number of pages is never found as specified. *)
Theorem rounded_limit_restarts :
  let rounded := <["MemoryMax" := VU64 999424]> (report_of capped_service) in
  appliedMatches rounded (unitProperties node "u1" "d" capped_service) (sandboxArgv node "u1" "d") = false.
Proof. vm_compute. reflexivity. Qed.

(** ** The runtime port *)
(** A manager of units by name, whose jobs are done at once. *)
Definition units : Manager (gset string) :=
  mkManager (λ _, None) (λ _, 0) (λ _, None) (λ _ _ _, None) (λ _ _, None)
    (λ _ m, Ok ((λ id, mkUnitStatus (UnitName id) "active" "running") <$> elements m))
    (λ _ m, m) (λ _ m, m)
    (λ u m, (m, if bool_decide (u ∈ UnitName <$> elements m) then None else Some "not loaded"))
    (λ _ _, Some (0, "done"))
    (λ u _ m, m ∖ (match unitID u with Some id => {[id]} | None => ∅ end))
    (λ _, None) (λ _, true)
    (λ _ u _ m, (m ∪ (match unitID u with Some id => {[id]} | None => ∅ end), JResult "done")) (λ _ m, m).
#[export] Instance units_laws : ManagerLaws units (λ m, m).
Proof.
  split; cbn; try done.
  - intros id t m j. rewrite unitID_UnitName. set_solver.
  - intros id t m j. rewrite unitID_UnitName. set_solver.
  - intros id m m' e. case_bool_decide as Hin; [done|]. intros _ Hid. apply Hin, list_elem_of_fmap.
    exists id. split; [done|]. by apply elem_of_elements.
  - intros id m t t' _ _. rewrite unitID_UnitName. set_solver.
  - intros id m m' _. exists 0. split; [done|]. by vm_compute.
  - intros w id props m j Hj. rewrite unitID_UnitName. set_solver.
  - intros m us [= <-] id. setoid_rewrite list_elem_of_fmap. split.
    + intros Hid. exists (mkUnitStatus (UnitName id) "active" "running"). split; [|apply unitID_UnitName].
      exists id. split; [done|]. by apply elem_of_elements.
    + intros (u & (j & -> & Hj) & Hu). cbn in Hu. rewrite unitID_UnitName in Hu. injection Hu as <-. by apply elem_of_elements in Hj.
Qed.
Definition no_images : Images unit := mkImages unit (λ _ _ _, Err "") (λ _ _ i, (i, Some "")) (λ _ i, (i, Ok [])).
Definition others : Ports (@Host (gset string) unit) :=
  mkPorts "" (λ _ _ h, (h, None)) (λ _ _ h, (h, None)) (λ _, ([], None)) (λ _ _, Err "") (λ _ h, (h, None)) (λ _ _, true)
    (λ _ _ h, (h, Ok [])) (λ _ _ h, (h, None)) (λ _ _ _ h, (h, Ok [])) (λ _ _ _ h, (h, Ok [])) (λ _, ∅)
    false (λ _, Err "") (λ _ _ h, (h, None)) (λ _ h, (h, None)).
Lemma userns_is_a_runtime_witness :
  RuntimeContract (userns_ports units no_images calm (λ s, s) in_order (λ _, Ok "") (λ _, "") node (λ _, "") others) (λ h, ho_mgr h).
Proof. apply (userns_is_a_runtime units no_images calm (λ s, s) in_order (λ _, Ok "") (λ _, "") node (λ _, "") (λ m, m) others). split; reflexivity. Defined.

(** A manager that holds one unit and whose jobs never end; its state is the time, and each of its
    calls takes a second. *)
Definition hung : Manager Z :=
  mkManager (λ _, None) (λ m, m) (λ _, None) (λ _ _ _, None) (λ _ _, None)
    (λ _ _, Ok [mkUnitStatus (UnitName "u1") "active" "running"])
    (λ _ m, m + second) (λ _ m, m + second) (λ _ m, (m + second, None)) (λ _ _, None) (λ _ t m, Z.max m t)
    (λ _, None) (λ _, true) (λ _ _ _ m, (m, JResult "done")) (λ _ m, m + second).
#[export] Instance hung_times : ManagerTimes hung second.
Proof. split; cbn; intros; [by vm_compute|..]; lia. Qed.
(** The removal of its unit takes the grace period, the margins and the last calls, and comes
    back. *)
Lemma removal_bounded_witness :
  mg_now hung (ho_mgr (runtime_Remove hung calm node "u1" 0 (mkHost empty_fs 0 tt ∅ ∅)).1) = removeGrace + 2 * stopMargin + 2 * second ∧
  mg_now hung (ho_mgr (runtime_Remove hung calm node "u1" 0 (mkHost empty_fs 0 tt ∅ ∅)).1) ≤ 0 + removeGrace + 2 * stopMargin + 5 * second.
Proof.
  split; [vm_compute; reflexivity|].
  apply (removal_bounded (I := unit) hung calm node second "u1" 0 (mkHost empty_fs 0 tt ∅ ∅)). vm_compute. discriminate.
Defined.

(** What the law on SIGKILL excludes: the unit is still there, and the removal reports no error. *)
Theorem unkillable_reported_removed :
  (runtime_Remove hung calm node "u1" 0 (mkHost empty_fs 0 tt ∅ ∅)).2 = None ∧
  ws_ID <$> (States hung (runtime_Remove hung calm node "u1" 0 (mkHost empty_fs 0 tt ∅ ∅)).1).1 = ["u1"].
Proof. split; vm_compute; reflexivity. Qed.

(** ** The sandbox *)
Definition image : LaunchSpec := mkLaunchSpec ["/layers/a"] ["/bin/app"] [] [] "" "/".
Definition data_volume : Volume := mkVolume VolumeHostPath "/volumes/d" "/data" "" "" false ∅.
(** The sandbox takes this workload, and refuses it a volume at a path with a comma. *)
Definition comma_volume : Volume := mkVolume VolumeHostPath "/volumes/d" "/data/a,b" "" "" false ∅.
Lemma rendered_is_accepted_witness :
  validate (λ _, 0) (mkLoadOptions false "d") (buildConfig node "u1" image (service ra_zero) [data_volume] None []) = None ∧
  validate (λ _, 0) (mkLoadOptions false "d") (buildConfig node "u1" image (service ra_zero) [comma_volume] None []) ≠ None.
Proof.
  split.
  - apply (rendered_is_accepted (λ _, 0) node in_order); [reflexivity|]. split.
    + split; [discriminate|]. intros d ->%list_elem_of_singleton. repeat split.
    + right. left. discriminate.
    + by right.
    + cbn. lia.
    + intros v ->%list_elem_of_singleton _. by repeat split.
    + by intros m []%not_elem_of_nil.
    + done.
    + by repeat split.
  - intros H. apply (rendered_is_accepted (λ _, 0) node in_order) in H; [|reflexivity].
    destruct (sb_volumes _ _ _ _ _ _ _ H comma_volume) as [_ [_ Hc]]; [left|reflexivity|]. discriminate Hc.
Defined.

(** One configuration encodes, and one text decodes to it. *)
Definition shown : SandboxConfig := buildConfig node "u1" image (service ra_zero) [data_volume] None [].
Definition encode (c : SandboxConfig) : result string string := if decide (c = shown) then Ok "cfg" else Err "".
Definition decode (b : string) : result string SandboxConfig := if decide (b = "cfg") then Ok shown else Err "".
Lemma only_rendered_runs_witness :
  Load (λ _, 0) decode (λ _, "d") (mkLoadOptions false "d") (Ok "cfg") = Ok (executed shown).
Proof.
  apply (only_rendered_runs (λ _, 0) node encode decode (λ _, "d")) with (id := "u1") (ls := image) (app := service ra_zero)
    (vols := [data_volume]) (env := None) (mounts := []) (blob := "cfg") (bytes := "cfg").
  - intros c blob. unfold encode, decode. destruct (decide (c = shown)) as [-> |]; [|discriminate]. intros [= <-].
    by rewrite decide_True.
  - reflexivity.
  - discriminate.
  - reflexivity.
  - unfold sandbox_Marshal, encode. fold shown. by rewrite decide_True.
  - reflexivity.
Defined.
End UsernsDemo.
