(* ===== verification/InodeFS.v ===== *)
(** * A file system with links and owners (packages os, path/filepath, golang.org/x/sys/unix)

    The part of the file system that the image layers and the volumes depend on: names of
    inodes, symbolic links resolved element by element the way the kernel and
    [filepath.EvalSymlinks] do, hard links as two names of one inode, modes and owners.  A name
    is the list of the elements of its absolute path, links resolved.  Any call may be refused
    by the host: [host_refuses] says which, by the number of calls made before.

    [grown] is the order the disks of an unpack are in: names are only added and no inode
    changes between directory, link and file, so what resolved once resolves the same way
    later ([walk_grown]). *)
From stdpp Require Import gmap strings list.
From Stdlib Require Import ZArith Ascii.
From S2P Require Import Prelude Paths.
#[local] Open Scope Z_scope.

Abbreviation Name := (list string) (only parsing).

Inductive Kind := KDir | KFile (data : string) | KLink (target : string) | KNode (type dev : Z).
Record Inode := mkInode {
  in_kind : Kind; in_mode : Z; in_uid : Z; in_gid : Z;
  in_times : Z * Z; in_xattrs : list (string * string);
}.
Abbreviation Names := (@gmap (list string) list_eq_dec list_countable positive) (only parsing).
Record Disk := mkDisk { dk_names : Names; dk_inodes : gmap positive Inode; dk_next : positive }.

Inductive Errno := ENOENT | EEXIST | ENOTDIR | ELOOP | EPERM | EACCES | EOPNOTSUPP | EOTHER (text : string).

(** What the host may answer of its own accord; never that something is absent. *)
Inductive Refusal := RPerm | RAccess | RNotSupported | ROther (text : string).
Definition errno_of (r : Refusal) : Errno :=
  match r with RPerm => EPERM | RAccess => EACCES | RNotSupported => EOPNOTSUPP | ROther e => EOTHER e end.

Definition find (d : Disk) (p : Name) : option Inode := dk_names d !! p ≫= λ i, dk_inodes d !! i.
Definition is_dir (d : Disk) (p : Name) : bool :=
  match find d p with Some i => match in_kind i with KDir => true | _ => false end | None => false end.

(** ** Resolution *)
(** A symbolic link is followed at most [links] times: 40 in the kernel, 255 in
    [filepath.EvalSymlinks]. *)
Fixpoint walk (links : nat) (d : Disk) (cur : Name) (todo : list string) : result Errno (Name * nat) :=
  (fix go (cur : Name) (todo : list string) : result Errno (Name * nat) :=
     match todo with
     | [] => Ok (cur, links)
     | c :: rest =>
         if negb (is_dir d cur) then Err ENOTDIR
         else if bool_decide (c = "") || bool_decide (c = ".") then go cur rest
         else if bool_decide (c = "..") then go (removelast cur) rest
         else match find d (cur ++ [c]) with
              | None => Err ENOENT
              | Some i =>
                  match in_kind i, links with
                  | KLink t, S links' => walk links' d (if IsAbs t then [] else cur) (split slash t ++ rest)
                  | KLink _, O => Err ELOOP
                  | _, _ => go (cur ++ [c]) rest
                  end
              end
     end) cur todo.
(** Where a walk from the root ends. *)
Definition resolve (links : nat) (d : Disk) (p : Name) : result Errno Name :=
  match walk links d [] p with Ok x => Ok x.1 | Err e => Err e end.
Definition kernel_links : nat := 40.
Definition EvalSymlinks_pure (d : Disk) (p : Name) : result Errno Name := resolve 255 d p.
Definition namei (d : Disk) (p : Name) : result Errno Name := resolve kernel_links d p.

(** The directory a call acts in and the name it acts on, the last element not followed. *)
Definition namei_parent (d : Disk) (p : Name) : result Errno Name :=
  match last p with
  | None => Ok []
  | Some c =>
      match namei d (removelast p) with
      | Ok dir => if is_dir d dir then Ok (dir ++ [c]) else Err ENOTDIR
      | Err e => Err e
      end
  end.

(** The permission bits of an octal mode. *)
Definition perms (u g o : Z) : Z := 64 * u + 8 * g + o.

(** ** Calls *)
Definition set_kind (k : Kind) (i : Inode) : Inode := mkInode k (in_mode i) (in_uid i) (in_gid i) (in_times i) (in_xattrs i).
Definition set_in_mode (m : Z) (i : Inode) : Inode := mkInode (in_kind i) m (in_uid i) (in_gid i) (in_times i) (in_xattrs i).
Definition set_in_owner (u g : Z) (i : Inode) : Inode := mkInode (in_kind i) (in_mode i) u g (in_times i) (in_xattrs i).
Definition set_in_times (t : Z * Z) (i : Inode) : Inode := mkInode (in_kind i) (in_mode i) (in_uid i) (in_gid i) t (in_xattrs i).
Definition add_xattr (k v : string) (i : Inode) : Inode :=
  mkInode (in_kind i) (in_mode i) (in_uid i) (in_gid i) (in_times i)
    ((k, v) :: List.filter (λ x, negb (bool_decide (x.1 = k))) (in_xattrs i)).

(** A change of the inode a resolved name has. *)
Definition change (f : Inode → Inode) (d : Disk) (p : Name) : Disk * result Errno unit :=
  match dk_names d !! p with
  | Some i => match dk_inodes d !! i with
              | Some n => (mkDisk (dk_names d) (<[i := f n]> (dk_inodes d)) (dk_next d), Ok tt)
              | None => (d, Err ENOENT)
              end
  | None => (d, Err ENOENT)
  end.
(** Following a link in the last element, or not. *)
Definition change_followed (f : Inode → Inode) (d : Disk) (p : Name) : Disk * result Errno unit :=
  match namei d p with Ok q => change f d q | Err e => (d, Err e) end.
Definition change_named (f : Inode → Inode) (d : Disk) (p : Name) : Disk * result Errno unit :=
  match namei_parent d p with Ok q => change f d q | Err e => (d, Err e) end.

(** A new inode takes the group of a set-gid directory, and a new directory its set-gid bit. *)
Definition setgid : Z := 1024.
Definition sticky : Z := 512.
Definition has_bit (b mode : Z) : bool := negb (Z.land mode b =? 0).
Definition inherit (dir : option Inode) (n : Inode) : Inode :=
  match dir with
  | Some i => if has_bit setgid (in_mode i)
              then mkInode (in_kind n) (match in_kind n with KDir => Z.lor (in_mode n) setgid | _ => in_mode n end)
                     (in_uid n) (in_gid i) (in_times n) (in_xattrs n)
              else n
  | None => n
  end.
Lemma inherit_kind dir n : in_kind (inherit dir n) = in_kind n.
Proof. unfold inherit. by repeat case_match. Qed.

(** A new inode under a name that must be free: the [EEXIST] of mkdir, symlink, mknod and of an
    exclusive open. *)
Definition create (n : Inode) (d : Disk) (p : Name) : Disk * result Errno unit :=
  match namei_parent d p with
  | Err e => (d, Err e)
  | Ok q =>
      match dk_names d !! q with
      | Some _ => (d, Err EEXIST)
      | None => (mkDisk (<[q := dk_next d]> (dk_names d)) (<[dk_next d := inherit (find d (removelast q)) n]> (dk_inodes d))
                   (Pos.succ (dk_next d)), Ok tt)
      end
  end.
(** link(2): the old name is not followed, and a directory has one name. *)
Definition link (d : Disk) (old new : Name) : Disk * result Errno unit :=
  match namei_parent d old with
  | Err e => (d, Err e)
  | Ok o =>
      match dk_names d !! o with
      | None => (d, Err ENOENT)
      | Some i =>
          if negb (bool_decide (is_Some (dk_inodes d !! i))) then (d, Err ENOENT)
          else if is_dir d o then (d, Err EPERM)
          else match namei_parent d new with
               | Err e => (d, Err e)
               | Ok q => match dk_names d !! q with
                         | Some _ => (d, Err EEXIST)
                         | None => (mkDisk (<[q := i]> (dk_names d)) (dk_inodes d) (dk_next d), Ok tt)
                         end
               end
      end
  end.
Definition lstat (d : Disk) (p : Name) : result Errno Inode :=
  match namei_parent d p with
  | Err e => Err e
  | Ok q => match find d q with Some i => Ok i | None => Err ENOENT end
  end.
Definition stat (d : Disk) (p : Name) : result Errno Inode :=
  match namei d p with
  | Err e => Err e
  | Ok q => match find d q with Some i => Ok i | None => Err ENOENT end
  end.

(** ** Growth *)
(** Links and directories as resolution sees them. *)
Definition shape (k : Kind) : option (option string) :=
  match k with KDir => Some None | KLink t => Some (Some t) | _ => None end.
Record grown (d d' : Disk) : Prop := mkGrown {
  grown_names : ∀ p i, dk_names d !! p = Some i → dk_names d' !! p = Some i;
  grown_shape : ∀ i n, dk_inodes d !! i = Some n → ∃ n', dk_inodes d' !! i = Some n' ∧ shape (in_kind n') = shape (in_kind n);
}.
#[export] Instance grown_preorder : PreOrder grown.
Proof.
  split.
  - intros d. split; [done|]. intros i n Hi. by exists n.
  - intros a b c [N1 S1] [N2 S2]. split; [by auto|]. intros i n Hi.
    destruct (S1 _ _ Hi) as (n1 & H1 & E1). destruct (S2 _ _ H1) as (n2 & H2 & E2). exists n2. by rewrite E2.
Qed.

Lemma find_grown d d' p n : grown d d' → find d p = Some n → ∃ n', find d' p = Some n' ∧ shape (in_kind n') = shape (in_kind n).
Proof.
  intros [HN HS]. unfold find. intros (i & Hp & Hi)%bind_Some. destruct (HS _ _ Hi) as (n' & Hn & Hs).
  exists n'. by rewrite (HN _ _ Hp).
Qed.
Lemma is_dir_grown d d' p : grown d d' → is_dir d p = true → is_dir d' p = true.
Proof.
  unfold is_dir. intros Hg. destruct (find d p) as [n|] eqn:Hf; [|done].
  destruct (find_grown _ _ _ _ Hg Hf) as (n' & -> & Hs). destruct (in_kind n), (in_kind n'); done.
Qed.

(** What resolves in a disk resolves to the same name in a grown one, links allowing. *)
Lemma walk_grown n m d d' cur todo p k :
  grown d d' → (n ≤ m)%nat → walk n d cur todo = Ok (p, k) → walk m d' cur todo = Ok (p, k + (m - n))%nat.
Proof.
  intros Hg. revert m cur todo. induction n as [|n IH]; intros m cur todo Hm;
    revert cur; induction todo as [|c rest IHt]; intros cur; destruct m as [|m]; cbn; try lia;
    try (intros [= <- <-]; do 2 f_equal; lia);
    destruct (is_dir d cur) eqn:Hd; cbn; try done; rewrite (is_dir_grown _ _ _ Hg Hd); cbn;
    case_match; try (apply IHt; lia); case_match; try (apply IHt; lia);
    destruct (find d (cur ++ [c])) as [i|] eqn:Hf; try done;
    destruct (find_grown _ _ _ _ Hg Hf) as (i' & -> & Hs); destruct (in_kind i), (in_kind i'); cbn in Hs; try done;
    try (intros H1; eapply IHt; eauto; lia).
  all: injection Hs as ->; apply IH; lia.
Qed.

Lemma resolve_grown n m d d' p q : grown d d' → (n ≤ m)%nat → resolve n d p = Ok q → resolve m d' p = Ok q.
Proof.
  unfold resolve. intros Hg Hm. destruct (walk n d [] p) as [[r k]|] eqn:E; [|done]. intros [= <-].
  by rewrite (walk_grown _ _ _ _ _ _ _ _ Hg Hm E).
Qed.
Lemma namei_EvalSymlinks d d' p q : grown d d' → namei d p = Ok q → EvalSymlinks_pure d' p = Ok q.
Proof. intros Hg. apply resolve_grown; [done|]. unfold kernel_links. lia. Qed.
Lemma EvalSymlinks_grown d d' p q : grown d d' → EvalSymlinks_pure d p = Ok q → EvalSymlinks_pure d' p = Ok q.
Proof. intros Hg. by apply resolve_grown. Qed.

(** ** Walking a path in two parts *)
Lemma walk_app n d cur p q :
  walk n d cur (p ++ q) = match walk n d cur p with Ok x => walk x.2 d x.1 q | Err e => Err e end.
Proof.
  revert cur p. induction n as [|n IH]; intros cur p; revert cur; induction p as [|c p IHp]; intros cur; cbn; try done;
    destruct (is_dir d cur); cbn; try done; case_match; try apply IHp; case_match; try apply IHp;
    destruct (find d (cur ++ [c])) as [i|]; try done; destruct (in_kind i); try done; try apply IHp.
  all: rewrite app_assoc; apply IH.
Qed.

Definition plain (c : string) : Prop := c ≠ "" ∧ c ≠ "." ∧ c ≠ "..".
#[export] Instance plain_dec c : Decision (plain c) := _.

Lemma walk_one n d cur c :
  plain c → is_dir d cur = true →
  walk n d cur [c] = match find d (cur ++ [c]) with
                     | None => Err ENOENT
                     | Some i => match in_kind i, n with
                                 | KLink t, S n' => walk n' d (if IsAbs t then [] else cur) (split slash t)
                                 | KLink _, O => Err ELOOP
                                 | _, _ => Ok (cur ++ [c], n)
                                 end
                     end.
Proof.
  intros (H1 & H2 & H3) Hd. destruct n; cbn; rewrite Hd; cbn; rewrite !bool_decide_eq_false_2 by done; cbn;
    destruct (find d (cur ++ [c])) as [i|]; try done; destruct (in_kind i); try done. by rewrite app_nil_r.
Qed.

(** If a path resolves and so does its directory, the last element is there. *)
Lemma resolve_last n d p c r q :
  plain c → resolve n d (p ++ [c]) = Ok r → resolve n d p = Ok q → is_Some (find d (q ++ [c])).
Proof.
  unfold resolve. rewrite walk_app. destruct (walk n d [] p) as [[q' k]|]; [|done]. cbn. intros Hc Hr [= ->].
  destruct (is_dir d q) eqn:Hd.
  - rewrite (walk_one _ _ _ _ Hc Hd) in Hr. destruct (find d (q ++ [c])); [by eexists|done].
  - destruct k; cbn in Hr; by rewrite Hd in Hr.
Qed.
(** A path resolves when its directory does and its last element is no link. *)
Lemma resolve_snoc n d p c q i :
  plain c → resolve n d p = Ok q → is_dir d q = true → find d (q ++ [c]) = Some i → (∀ t, in_kind i ≠ KLink t) →
  resolve n d (p ++ [c]) = Ok (q ++ [c]).
Proof.
  unfold resolve. rewrite walk_app. destruct (walk n d [] p) as [[q' k]|]; [|done]. cbn. intros Hc [= ->] Hd Hf Hl.
  rewrite (walk_one _ _ _ _ Hc Hd), Hf. by destruct (in_kind i) eqn:E, k; try (by destruct (Hl target)).
Qed.
(** The directories a path goes through resolve when it does. *)
Lemma resolve_prefix n d p q r : resolve n d (p ++ q) = Ok r → ∃ s, resolve n d p = Ok s.
Proof. unfold resolve. rewrite walk_app. destruct (walk n d [] p) as [x|]; [|done]. by exists x.1. Qed.

(** ** Actions *)
(** A computation on a state that may fail. *)
Definition Act (S E A : Type) : Type := S → S * result E A.
Section Act.
Context {S E : Type}.
Definition act_ret {A} (a : A) : Act S E A := λ s, (s, Ok a).
Definition act_fail {A} (e : E) : Act S E A := λ s, (s, Err e).
Definition act_bind {A B} (m : Act S E A) (k : A → Act S E B) : Act S E B := λ s,
  match m s with (s, Ok a) => k a s | (s, Err e) => (s, Err e) end.
(** [if err := m; err != nil { return f(err) }]. *)
Definition act_wrap {E' A} (f : E → E') (m : Act S E A) : Act S E' A := λ s,
  match m s with (s, Ok a) => (s, Ok a) | (s, Err e) => (s, Err (f e)) end.
(** [a, err := m]: the error is a value. *)
Definition act_try {E' A} (m : Act S E A) : Act S E' (result E A) := λ s, let '(s, r) := m s in (s, Ok r).
(** A loop that stops at the first error. *)
Fixpoint act_each {A} (l : list A) (f : A → Act S E unit) : Act S E unit :=
  match l with [] => act_ret tt | a :: l => act_bind (f a) (λ _, act_each l f) end.
End Act.

(** *** A Hoare logic *)
Section Hoare.
Context {S E : Type}.
Definition hoare {A} (P : S → Prop) (m : Act S E A) (Q : result E A → S → Prop) : Prop :=
  ∀ s s' r, m s = (s', r) → P s → Q r s'.
Lemma hoare_ret {A} (P : S → Prop) (a : A) (Q : result E A → S → Prop) : (∀ s, P s → Q (Ok a) s) → hoare P (act_ret a) Q.
Proof. intros H s s' r [= <- <-]. auto. Qed.
Lemma hoare_fail {A} (P : S → Prop) (e : E) (Q : result E A → S → Prop) : (∀ s, P s → Q (Err e) s) → hoare P (act_fail e) Q.
Proof. intros H s s' r [= <- <-]. auto. Qed.
Lemma hoare_bind {A B} (P : S → Prop) (m : Act S E A) (k : A → Act S E B) (M : A → S → Prop) (Q : result E B → S → Prop) :
  hoare P m (λ r s, match r with Ok a => M a s | Err e => Q (Err e) s end) → (∀ a, hoare (M a) (k a) Q) → hoare P (act_bind m k) Q.
Proof.
  intros Hm Hk s s' r. unfold act_bind. destruct (m s) as [s1 [a|e]] eqn:E1; intros Hr Hp; specialize (Hm _ _ _ E1 Hp).
  - by apply (Hk a _ _ _ Hr).
  - by injection Hr as <- <-.
Qed.
Lemma hoare_mono {A} (P P' : S → Prop) (m : Act S E A) (Q Q' : result E A → S → Prop) :
  hoare P' m Q' → (∀ s, P s → P' s) → (∀ r s, Q' r s → Q r s) → hoare P m Q.
Proof. intros H HP HQ s s' r Hr Hp. eauto. Qed.
Lemma hoare_and {A} (P1 P2 : S → Prop) (m : Act S E A) (Q1 Q2 : result E A → S → Prop) :
  hoare P1 m Q1 → hoare P2 m Q2 → hoare (λ s, P1 s ∧ P2 s) m (λ r s, Q1 r s ∧ Q2 r s).
Proof. intros H1 H2 s s' r Hr [? ?]. split; eauto. Qed.
Lemma hoare_pure {A} (φ : Prop) (P : S → Prop) (m : Act S E A) (Q : result E A → S → Prop) :
  (∀ s, P s → φ) → (φ → hoare P m Q) → hoare P m Q.
Proof. intros H1 H2 s s' r Hr Hp. by apply (H2 (H1 _ Hp) _ _ _ Hr). Qed.
Lemma hoare_each {A} (P : S → Prop) (Q : result E unit → S → Prop) (l : list A) (f : A → Act S E unit) :
  (∀ a, a ∈ l → hoare P (f a) (λ r s, match r with Ok _ => P s | Err e => Q (Err e) s end)) → (∀ s, P s → Q (Ok tt) s) →
  hoare P (act_each l f) Q.
Proof.
  intros Hf HQ. induction l as [|a l IH]; cbn; [by apply hoare_ret|]. apply (hoare_bind _ _ _ (λ _, P)).
  - apply Hf. left.
  - intros _. apply IH. intros b Hb. apply Hf. by right.
Qed.
End Hoare.
Lemma hoare_try {S E E' A} (P : S → Prop) (m : Act S E A) (Q : result E' (result E A) → S → Prop) :
  hoare P m (λ r, Q (Ok r)) → hoare P (act_try m) Q.
Proof. intros H s s' r. unfold act_try. destruct (m s) as [s1 r1] eqn:E1. intros [= <- <-]. by apply H. Qed.
Notation "'let!' x := m 'in' k" := (act_bind m (λ x, k)) (at level 10, x pattern, m at level 100, k at level 200) : go_scope.
Notation "'do!' m 'in' k" := (act_bind m (λ _, k)) (at level 10, m at level 100, k at level 200) : go_scope.

(** What the host decides, and what the rest of the node does to the disk before each call. *)
Record Host := mkHost {
  host_refuses : nat → option Refusal; host_umask : Z; host_uid : Z; host_gid : Z; host_now : Z;
  host_meanwhile : nat → Disk → Disk;
}.

(** Nothing else writes while the calls are made. *)
Class Quiet (h : Host) : Prop := quiet : ∀ n d, host_meanwhile h n d = d.

Section Calls.
Context (h : Host).
(** The disk and the number of calls made. *)
Definition Sys (A : Type) : Type := Act (Disk * nat) Errno A.
Definition call {A} (f : Disk → Disk * result Errno A) : Sys A := λ s,
  let d := host_meanwhile h s.2 s.1 in
  match host_refuses h s.2 with
  | Some r => ((d, S s.2), Err (errno_of r))
  | None => let '(d, r) := f d in ((d, S s.2), r)
  end.

Definition fresh_inode (k : Kind) (mode : Z) : Inode :=
  mkInode k (Z.land mode (Z.lnot (host_umask h))) (host_uid h) (host_gid h) (host_now h, host_now h) [].
Definition Mkdir (p : Name) (mode : Z) : Sys unit := call (λ d, create (fresh_inode KDir mode) d p).
(** An open with O_CREATE|O_WRONLY|O_EXCL. *)
Definition OpenExclusive (p : Name) (mode : Z) : Sys unit := call (λ d, create (fresh_inode (KFile "") mode) d p).
Definition Symlink (target : string) (p : Name) : Sys unit :=
  call (λ d, if bool_decide (target = "") then (d, Err ENOENT)
             else create (mkInode (KLink target) (perms 7 7 7) (host_uid h) (host_gid h) (host_now h, host_now h) []) d p).
Definition Link (old new : Name) : Sys unit := call (λ d, link d old new).
Definition Mknod (p : Name) (type mode dev : Z) : Sys unit := call (λ d, create (fresh_inode (KNode type dev) mode) d p).
(** The data written through the descriptor of a file just created at [p]. *)
Definition FileCopy (p : Name) (data : string) : Sys unit := call (λ d, change_named (set_kind (KFile data)) d p).
Definition Chmod (p : Name) (mode : Z) : Sys unit := call (λ d, change_followed (set_in_mode mode) d p).
(** A time left out is not changed. *)
Definition Chtimes (p : Name) (atime mtime : option Z) : Sys unit :=
  call (λ d, change_followed (λ i, set_in_times (default (in_times i).1 atime, default (in_times i).2 mtime) i) d p).
Definition Chown (p : Name) (uid gid : Z) : Sys unit := call (λ d, change_followed (set_in_owner uid gid) d p).
Definition Lchown (p : Name) (uid gid : Z) : Sys unit := call (λ d, change_named (set_in_owner uid gid) d p).
Definition Setxattr (p : Name) (k v : string) : Sys unit := call (λ d, change_followed (add_xattr k v) d p).
Definition Lsetxattr (p : Name) (k v : string) : Sys unit := call (λ d, change_named (add_xattr k v) d p).
Definition Lstat (p : Name) : Sys Inode := call (λ d, (d, lstat d p)).
Definition Stat (p : Name) : Sys Inode := call (λ d, (d, stat d p)).
Definition EvalSymlinks (p : Name) : Sys Name := call (λ d, (d, EvalSymlinks_pure d p)).

Definition IsDir (i : Inode) : bool := match in_kind i with KDir => true | _ => false end.
(** The end of [os.MkdirAll]: a directory that appeared in the meantime is as good. *)
Definition mkdir_or_there (q : Name) (mode : Z) : Sys unit :=
  (let! made := act_try (Mkdir q mode) in
   match made with
   | Ok _ => act_ret tt
   | Err e =>
       let! st := act_try (Lstat q) in
       match st with
       | Ok i => if IsDir i then act_ret tt else act_fail e
       | Err _ => act_fail e
       end
   end)%go.
(** [os.MkdirAll] of the first [n] elements of [p]. *)
Fixpoint MkdirAll_upto (p : Name) (mode : Z) (n : nat) : Sys unit :=
  let q := take n p in
  let! st := act_try (Stat q) in
  match st with
  | Ok i => if IsDir i then act_ret tt else act_fail ENOTDIR
  | Err _ =>
      do! match n with O => act_ret tt | S n' => MkdirAll_upto p mode n' end in
      mkdir_or_there q mode
  end%go.
Definition MkdirAll (p : Name) (mode : Z) : Sys unit := MkdirAll_upto p mode (length p).
End Calls.

(** ** Writing under one directory

    What a sequence of calls keeps when every name it creates lies under a directory [dest]:
    outside, no name appears, disappears or changes its file, and no file has its data, mode or
    owner changed ([kept]).  A call that creates does so in the directory its path resolves to,
    so the lemmas say when that is inside: a real directory resolves to itself, what resolved
    once resolves the same way later because names are only added, and [MkdirAll] creates
    inside when the longest part of its path that resolves, resolves inside.  [spec] states
    this of actions, with a postcondition on the disk. *)
#[local] Open Scope Z_scope.
Section Confined.
Context (dest : list string).

Definition inside (p : list string) : Prop := dest `prefix_of` p.
(** What a file is, times and extended attributes apart. *)
Definition same_file (n n' : Inode) : Prop :=
  in_kind n' = in_kind n ∧ in_mode n' = in_mode n ∧ in_uid n' = in_uid n ∧ in_gid n' = in_gid n.

(** The layer's directory is a real directory, and no file has a name inside and one outside. *)
Record sound (d : Disk) : Prop := mkSound {
  sound_apart : ∀ p q i, inside p → ¬ inside q → dk_names d !! p = Some i → dk_names d !! q = Some i → False;
  sound_alloc : ∀ p i, dk_names d !! p = Some i → (i < dk_next d)%positive;
  sound_ialloc : ∀ i n, dk_inodes d !! i = Some n → (i < dk_next d)%positive;
  sound_root : ∀ j, is_dir d (take j dest) = true;
}.
(** Outside nothing changes but times and attributes; inside names are added. *)
Record kept (d d' : Disk) : Prop := mkKept {
  kept_grown : grown d d';
  kept_names : ∀ p, ¬ inside p → dk_names d' !! p = dk_names d !! p;
  kept_files : ∀ p i n, ¬ inside p → dk_names d !! p = Some i → dk_inodes d !! i = Some n →
    ∃ n', dk_inodes d' !! i = Some n' ∧ same_file n n';
}.

#[export] Instance same_file_preorder : PreOrder same_file.
Proof. split; [by intros n|]. intros a b c (?&?&?&?) (?&?&?&?). repeat split; congruence. Qed.
#[export] Instance kept_preorder : PreOrder kept.
Proof.
  split.
  - intros d. split; [done|done|]. intros p i n _ _ Hi. by exists n.
  - intros a b c [G1 N1 F1] [G2 N2 F2]. split; [by etrans|by intros p Hp; rewrite N2, N1|].
    intros p i n Hp Hi Hn. destruct (F1 _ _ _ Hp Hi Hn) as (n1 & H1 & S1).
    destruct (F2 p i n1 Hp) as (n2 & H2 & S2); [by rewrite N1|done|]. exists n2. split; [done|by etrans].
Qed.

(** ** Calls *)
Lemma change_kept f d q d' r :
  (∀ n, find d q = Some n → shape (in_kind (f n)) = shape (in_kind n)) → inside q ∨ (∀ n, same_file n (f n)) →
  change f d q = (d', r) → sound d → sound d' ∧ kept d d'.
Proof.
  intros Hs Hf. unfold change. destruct (dk_names d !! q) as [i|] eqn:Hq; [|by intros [= <- <-]].
  destruct (dk_inodes d !! i) as [n|] eqn:Hi; [|by intros [= <- <-]]. intros [= <- <-] [A L I R].
  assert (find d q = Some n) as Hf' by (unfold find; by rewrite Hq).
  assert (grown d (mkDisk (dk_names d) (<[i:=f n]> (dk_inodes d)) (dk_next d))) as Hg.
  { split; cbn; [done|]. intros j m Hj. destruct (decide (i = j)) as [<-|Hij].
    - rewrite lookup_insert_eq. assert (m = n) as -> by congruence. eauto.
    - rewrite lookup_insert_ne by done. eauto. }
  split; [split; cbn; [done|done| |intros j; by eapply is_dir_grown]|].
  { intros j m. destruct (decide (i = j)) as [<-|Hij]; [by eauto|]. rewrite lookup_insert_ne by done. eauto. }
  split; cbn; [done|done|]. intros p j m Hp Hj Hm. destruct (decide (i = j)) as [<-|Hij].
  - rewrite lookup_insert_eq. assert (m = n) as -> by congruence. eexists; split; [done|].
    destruct Hf as [Hf|Hf]; [|apply Hf]. by destruct (A q p i).
  - rewrite lookup_insert_ne by done. eexists; split; done.
Qed.

Lemma add_name_kept d q i n next :
  sound d → dk_names d !! q = None → inside q →
  (next = Pos.succ (dk_next d) ∧ i = dk_next d) ∨ (next = dk_next d ∧ dk_inodes d !! i = Some n ∧ ∃ o, inside o ∧ dk_names d !! o = Some i) →
  let d' := mkDisk (<[q := i]> (dk_names d)) (<[i := n]> (dk_inodes d)) next in sound d' ∧ kept d d'.
Proof.
  intros [A L I R] Hq Hin Hi d'.
  assert (∀ p j, ¬ inside p → dk_names d !! p = Some j → j ≠ i) as Hout.
  { intros p j Hp Hj ->. destruct Hi as [[_ ->]|(_ & _ & o & Ho & Hoi)]; [|by eapply A].
    apply L in Hj. lia. }
  assert (grown d d') as Hg.
  { split; cbn.
    - intros p j Hj. rewrite lookup_insert_ne; [done|]. intros ->. congruence.
    - intros j m Hj. destruct (decide (i = j)) as [<-|Hij]; [|rewrite lookup_insert_ne by done; eauto].
      rewrite lookup_insert_eq. destruct Hi as [[_ ->]|(_ & Hm & _)]; [apply I in Hj; lia|].
      exists n. split; [done|]. congruence. }
  split; [split; cbn|split; cbn; [done| |]].
  - intros p p' j Hp Hp'. rewrite (lookup_insert_ne _ _ p') by (intros ->; done).
    destruct (decide (q = p)) as [<-|Hqp].
    + rewrite lookup_insert_eq. intros [= <-] Hj. by destruct (Hout p' i).
    + rewrite lookup_insert_ne by done. by apply A.
  - intros p j. destruct (decide (q = p)) as [<-|Hqp].
    + rewrite lookup_insert_eq. intros [= <-]. destruct Hi as [[-> ->]|(-> & Hm & _)]; [lia|by eauto].
    + rewrite lookup_insert_ne by done. intros Hj%L. destruct Hi as [[-> _]|[-> _]]; lia.
  - intros j m. destruct (decide (i = j)) as [<-|Hij].
    + intros _. destruct Hi as [[-> ->]|(-> & Hm & _)]; [lia|by eauto].
    + rewrite lookup_insert_ne by done. intros Hj%I. destruct Hi as [[-> _]|[-> _]]; lia.
  - intros j. by eapply is_dir_grown.
  - intros p Hp. rewrite lookup_insert_ne; [done|]. by intros ->.
  - intros p j m Hp Hj Hm. rewrite lookup_insert_ne by (intros ->; by eapply Hout). by exists m.
Qed.

(** Creating at [p] adds a name inside, if any. *)
Definition may_create (d : Disk) (p : list string) : Prop :=
  ∀ q, namei_parent d p = Ok q → inside q ∨ is_Some (dk_names d !! q).
Lemma create_kept n d p d' r :
  may_create d p → create n d p = (d', r) → sound d → sound d' ∧ kept d d'.
Proof.
  intros Hin. unfold create. destruct (namei_parent d p) as [q|] eqn:Hp; [|by intros [= <- <-]].
  destruct (dk_names d !! q) eqn:Hq; [by intros [= <- <-]|]. intros [= <- <-] Hs.
  apply add_name_kept; [done|done| |by left]. destruct (Hin q Hp) as [?|[? ?]]; [done|congruence].
Qed.

Lemma link_kept d o p d' r :
  (∀ q, namei_parent d o = Ok q → inside q) → (∀ q, namei_parent d p = Ok q → inside q) →
  link d o p = (d', r) → sound d → sound d' ∧ kept d d'.
Proof.
  intros Ho Hin. unfold link. destruct (namei_parent d o) as [q|] eqn:Hp; [|by intros [= <- <-]].
  destruct (dk_names d !! q) as [i|] eqn:Hq; [|by intros [= <- <-]].
  destruct (bool_decide_reflect (is_Some (dk_inodes d !! i))) as [[n Hi]|]; cbn [negb]; [|by intros [= <- <-]].
  destruct (is_dir d q) eqn:Hdir; [by intros [= <- <-]|].
  destruct (namei_parent d p) as [q'|] eqn:Hp'; [|by intros [= <- <-]].
  destruct (dk_names d !! q') eqn:Hq'; [by intros [= <- <-]|]. intros [= <- <-] Hs.
  pose proof (add_name_kept d q' i n (dk_next d) Hs Hq' (Hin q' eq_refl)) as H. cbv zeta in H.
  rewrite (insert_id (dk_inodes d)) in H by done. apply H. right. eauto 6.
Qed.

(** ** Directories that resolve inside *)
Context (Hplain : Forall plain dest) (Hne : dest ≠ []).

Definition resolves_inside (d : Disk) (p : list string) : Prop := ∃ r, EvalSymlinks_pure d p = Ok r ∧ inside r.
(** What [safeParent] leaves of the first [L] elements of [p]: the longest part that resolves,
    resolves inside. *)
Definition safe_upto (d : Disk) (p : list string) (L : nat) : Prop :=
  ∃ K, (K ≤ L)%nat ∧ resolves_inside d (take K p) ∧
    ∀ j, (K < j ≤ L)%nat → EvalSymlinks_pure d (take j p) = Err ENOENT.
(** What [target] leaves of a path it accepts. *)
Definition anchored (d : Disk) (p : list string) : Prop :=
  Forall plain p ∧ p ≠ [] ∧ (p = dest ∨ safe_upto d p (length p - 1)).
(** The name a path has, last element not followed, is inside. *)
Definition fixed_at (d : Disk) (p : list string) : Prop := ∃ q, namei_parent d p = Ok q ∧ inside q.

Lemma resolves_inside_kept d d' p : kept d d' → resolves_inside d p → resolves_inside d' p.
Proof. intros Hk (r & Hr & Hi). exists r. split; [|done]. eapply EvalSymlinks_grown; [apply Hk|done]. Qed.
Lemma namei_parent_grown d d' p q : grown d d' → namei_parent d p = Ok q → namei_parent d' p = Ok q.
Proof.
  intros Hg. unfold namei_parent. destruct (last p); [|done]. destruct (namei d (removelast p)) as [s0|] eqn:E; [|done].
  unfold namei in *. rewrite (resolve_grown _ _ _ _ _ _ Hg (Nat.le_refl _) E).
  destruct (is_dir d s0) eqn:Hd; [|done]. by rewrite (is_dir_grown _ _ _ Hg Hd).
Qed.
Lemma fixed_at_kept d d' p : kept d d' → fixed_at d p → fixed_at d' p.
Proof. intros [Hg _ _] (q & Hq & Hi). exists q. split; [by eapply namei_parent_grown|done]. Qed.

Lemma real_dirs_snoc d p (c : string) : (∀ j, is_dir d (take j (p ++ [c])) = true) → ∀ j, is_dir d (take j p) = true.
Proof.
  intros Hd j. destruct (decide (j ≤ length p)%nat) as [Hj|Hj].
  - rewrite <-(take_app_le p [c]) by done. apply Hd.
  - rewrite take_ge by lia. rewrite <-(take_app_length p [c]). apply Hd.
Qed.
(** The path of a real directory resolves to itself. *)
Lemma resolve_real n d p :
  Forall plain p → (∀ j, is_dir d (take j p) = true) → resolve n d p = Ok p.
Proof.
  induction p as [|c p IH] using rev_ind; intros Hp Hd; [by destruct n|].
  apply Forall_app in Hp as [Hp Hc]. rewrite Forall_singleton in Hc.
  pose proof (real_dirs_snoc _ _ _ Hd) as Hd'. pose proof (Hd (length (p ++ [c]))) as Hl. rewrite firstn_all in Hl.
  unfold is_dir in Hl. destruct (find d (p ++ [c])) as [i|] eqn:Hf; [|done].
  pose proof (Hd' (length p)) as Hlast. rewrite firstn_all in Hlast.
  eapply resolve_snoc; [exact Hc|by apply IH|exact Hlast|exact Hf|by intros t E; rewrite E in Hl].
Qed.

Lemma namei_parent_snoc d p c :
  namei_parent d (p ++ [c]) =
  match namei d p with Ok dir => if is_dir d dir then Ok (dir ++ [c]) else Err ENOTDIR | Err e => Err e end.
Proof. unfold namei_parent. by rewrite last_snoc, removelast_last. Qed.
Lemma inside_snoc q c : inside q → inside (q ++ [c]).
Proof. intros H. by apply prefix_app_r. Qed.

Lemma fixed_dest d : sound d → fixed_at d dest.
Proof.
  intros Hs. exists dest. split; [|by exists []; rewrite app_nil_r]. destruct (exists_last Hne) as (p & c & E).
  pose proof (sound_root _ Hs) as Hr. pose proof Hplain as Hpl. rewrite E in Hr, Hpl. rewrite E, namei_parent_snoc.
  apply Forall_app in Hpl as [Hpl _].
  pose proof (real_dirs_snoc _ _ _ Hr) as Hd.
  unfold namei. rewrite resolve_real by done. specialize (Hd (length p)). rewrite firstn_all in Hd. by rewrite Hd.
Qed.

(** A name that [target] accepted is inside, if it can be looked up at all. *)
Lemma anchored_lands d p q : sound d → anchored d p → namei_parent d p = Ok q → inside q.
Proof.
  intros Hs (Hp & Hn & [->|(K & HK & (r & Hr & Hi) & He)]) Hq.
  - destruct (fixed_dest d Hs) as (q' & Hq' & Hi). congruence.
  - destruct (exists_last Hn) as (dir & c & ->). rewrite length_app in HK, He. cbn in HK, He.
    replace (length dir + 1 - 1)%nat with (length dir) in HK, He by lia.
    rewrite namei_parent_snoc in Hq. destruct (namei d dir) as [s0|] eqn:E; [|done].
    destruct (is_dir d s0); [|done]. injection Hq as <-. apply inside_snoc.
    apply (namei_EvalSymlinks d d) in E; [|done]. destruct (decide (K = length dir)) as [->|Hk].
    + rewrite take_app_length in Hr. congruence.
    + specialize (He (length dir)). rewrite take_app_length in He. rewrite He in E by lia. done.
Qed.
(** ** MkdirAll *)
Lemma take_last p n : (n < length p)%nat → ∃ c, (c : string) ∈ p ∧ take (S n) p = take n p ++ [c].
Proof. intros Hn. destruct (lookup_lt_is_Some_2 p n Hn) as [c Hc]. exists c. split; [by eapply list_elem_of_lookup_2|by apply take_S_r]. Qed.

(** Making one directory of a path creates nothing where the path resolved, and else creates it
    inside, once the directory above resolves inside. *)
Lemma mkdir_inside d p n :
  Forall plain p → (n < length p)%nat → (∃ r0, EvalSymlinks_pure d (take (S n) p) = Ok r0) ∨ resolves_inside d (take n p) →
  may_create d (take (S n) p).
Proof.
  intros Hp Hn Hor. destruct (take_last p n Hn) as (c & Hc & E). rewrite E in *. intros q.
  rewrite namei_parent_snoc. destruct (namei d (take n p)) as [s0|] eqn:Hs; [|done].
  destruct (is_dir d s0); [|done]. intros [= <-]. apply (namei_EvalSymlinks d d) in Hs; [|done].
  destruct Hor as [[r0 Hr]|(r1 & Hr & Hi)].
  - right. rewrite Forall_forall in Hp. pose proof (resolve_last _ _ _ _ _ _ (Hp _ Hc) Hr Hs) as [x Hx].
    unfold find in Hx. apply bind_Some in Hx as (k & Hk & _). by eexists.
  - left. apply inside_snoc. congruence.
Qed.

(** A directory found under a directory that resolves inside resolves inside. *)
Lemma subdir_resolves d p n q i :
  Forall plain p → (n < length p)%nat → resolves_inside d (take n p) → namei_parent d (take (S n) p) = Ok q →
  find d q = Some i → in_kind i = KDir → resolves_inside d (take (S n) p).
Proof.
  intros Hp Hn (r & Hr & Hi). destruct (take_last p n Hn) as (c & Hc & E). rewrite E, namei_parent_snoc.
  destruct (namei d (take n p)) as [s0|] eqn:Hs; [|done]. destruct (is_dir d s0) eqn:Hd; [|done]. intros [= <-] Hf Hk.
  apply (namei_EvalSymlinks d d) in Hs; [|done]. assert (s0 = r) as -> by congruence. exists (r ++ [c]).
  split; [|by apply inside_snoc]. rewrite Forall_forall in Hp. eapply resolve_snoc; [by apply Hp|done|done|done|by rewrite Hk].
Qed.

(** ** Specifications *)
(** An action keeps the outside and the invariant of its state. *)
Section Spec.
Context {St : Type} (disk : St → Disk) (inv : St → Prop).
Definition spec {E A} (P : Disk → Prop) (m : Act St E A) (Q : result E A → Disk → Prop) : Prop :=
  ∀ s s' r, m s = (s', r) → inv s → P (disk s) → inv s' ∧ kept (disk s) (disk s') ∧ Q r (disk s').

Lemma spec_ret {E A} (P : Disk → Prop) (a : A) (Q : result E A → Disk → Prop) : (∀ d, P d → Q (Ok a) d) → spec P (act_ret a) Q.
Proof. intros H s s' r [= <- <-] Hi Hp. split; [done|]. split; [reflexivity|auto]. Qed.
Lemma spec_fail {E A} (P : Disk → Prop) (e : E) (Q : result E A → Disk → Prop) : (∀ d, P d → Q (Err e) d) → spec P (act_fail e) Q.
Proof. intros H s s' r [= <- <-] Hi Hp. split; [done|]. split; [reflexivity|auto]. Qed.
Lemma spec_bind {E A B} (P : Disk → Prop) (m : Act St E A) (k : A → Act St E B) (M : A → Disk → Prop) (Q : result E B → Disk → Prop) :
  spec P m (λ r d, match r with Ok a => M a d | Err e => Q (Err e) d end) → (∀ a, spec (M a) (k a) Q) → spec P (act_bind m k) Q.
Proof.
  intros Hm Hk s s' r. unfold act_bind. destruct (m s) as [s1 [a|e]] eqn:E1; intros Hr Hi Hp;
    destruct (Hm _ _ _ E1 Hi Hp) as (Hi1 & K1 & Q1).
  - destruct (Hk a _ _ _ Hr Hi1 Q1) as (Hi2 & K2 & Q2). split; [done|]. split; [by etrans|done].
  - injection Hr as <- <-. done.
Qed.
Lemma spec_try {E E' A} (P : Disk → Prop) (m : Act St E A) (Q : result E' (result E A) → Disk → Prop) :
  spec P m (λ r, Q (Ok r)) → spec P (act_try m) Q.
Proof. intros H s s' r. unfold act_try. destruct (m s) as [s1 r1] eqn:E1. intros [= <- <-] Hi Hp. by apply (H _ _ _ E1). Qed.
Lemma spec_wrap {E E' A} (P : Disk → Prop) (f : E → E') (m : Act St E A) (Q : result E' A → Disk → Prop) :
  spec P m (λ r, Q (match r with Ok a => Ok a | Err e => Err (f e) end)) → spec P (act_wrap f m) Q.
Proof.
  intros H s s' r. unfold act_wrap. destruct (m s) as [s1 r1] eqn:E1. intros Hr Hi Hp.
  destruct (H _ _ _ E1 Hi Hp) as (? & ? & ?). by destruct r1; injection Hr as <- <-.
Qed.
Lemma spec_mono {E A} (P P' : Disk → Prop) (m : Act St E A) (Q Q' : result E A → Disk → Prop) :
  spec P' m Q' → (∀ d, P d → P' d) → (∀ r d, Q' r d → Q r d) → spec P m Q.
Proof. intros H HP HQ s s' r Hr Hi Hp. destruct (H _ _ _ Hr Hi) as (?&?&?); auto. Qed.
Lemma spec_pure {E A} (φ : Prop) (P : Disk → Prop) (m : Act St E A) (Q : result E A → Disk → Prop) :
  (∀ d, P d → φ) → (φ → spec P m Q) → spec P m Q.
Proof. intros H1 H2 s s' r Hr Hi Hp. by apply (H2 (H1 _ Hp) _ _ _ Hr). Qed.
(** What growth preserves is framed. *)
Lemma spec_frame {E A} (F P : Disk → Prop) (m : Act St E A) (Q : result E A → Disk → Prop) :
  (∀ d d', kept d d' → F d → F d') → spec P m Q → spec (λ d, F d ∧ P d) m (λ r d, F d ∧ Q r d).
Proof. intros HF H s s' r Hr Hi [Hf Hp]. destruct (H _ _ _ Hr Hi Hp) as (?&?&?). eauto. Qed.
Lemma spec_each {E A} (P : Disk → Prop) (Q : result E unit → Disk → Prop) (l : list A) (f : A → Act St E unit) :
  (∀ a, a ∈ l → spec P (f a) (λ r d, P d ∧ Q r d)) → (∀ d, P d → Q (Ok tt) d) → spec P (act_each l f) Q.
Proof.
  intros Hf HQ. induction l as [|a l IH]; cbn; [by apply spec_ret|]. eapply (spec_bind _ _ _ (λ _, P)).
  - eapply spec_mono; [apply Hf; left|done|]. intros [[]|e] d [? ?]; done.
  - intros _. apply IH. intros b Hb. apply Hf. by right.
Qed.
End Spec.
Definition sspec {A} := @spec (Disk * nat) fst (λ s, sound s.1) Errno A.

Context (host : Host) `{!Quiet host}.
Lemma call_inv {A} (f : Disk → Disk * result Errno A) s s' r :
  call host f s = (s', r) → (s'.1 = s.1 ∧ ∃ e, r = Err e ∧ e ≠ ENOENT) ∨ f s.1 = (s'.1, r).
Proof.
  unfold call. rewrite quiet. destruct (host_refuses host s.2) as [e|].
  - intros [= <- <-]. left. split; [done|]. exists (errno_of e). by destruct e.
  - destruct (f s.1) as [d r'] eqn:E. intros [= <- <-]. by right.
Qed.
Lemma sspec_call {A} (P : Disk → Prop) (f : Disk → Disk * result Errno A) (Q : result Errno A → Disk → Prop) :
  (∀ d d' r, f d = (d', r) → sound d → P d → sound d' ∧ kept d d' ∧ Q r d') → (∀ d e, P d → e ≠ ENOENT → Q (Err e) d) →
  sspec P (call host f) Q.
Proof.
  intros Hf He s s' r Hc Hi Hp. apply call_inv in Hc as [[E (e & -> & Hn)]|E]; [|by apply Hf].
  rewrite E. split; [done|]. split; [reflexivity|auto].
Qed.
Lemma sspec_create (P : Disk → Prop) i p (Q : result Errno unit → Disk → Prop) :
  (∀ d, sound d → P d → may_create d p) → (∀ d e, P d → Q (Err e) d) →
  (∀ d x, P d → namei_parent d p = Ok x → dk_names d !! x = None →
    ∀ d' i', kept d d' → find d' x = Some i' → in_kind i' = in_kind i → namei_parent d' p = Ok x → Q (Ok tt) d') →
  sspec P (call host (λ d, create i d p)) Q.
Proof.
  intros Hm He Hq. apply sspec_call; [|auto]. intros d d' r Hc Hs Hp. destruct (create_kept _ _ _ _ _ (Hm d Hs Hp) Hc Hs) as [Hs' Hk].
  split; [done|]. split; [done|]. unfold create in Hc. destruct (namei_parent d p) as [x|] eqn:Hx; [|injection Hc as <- <-; auto].
  destruct (dk_names d !! x) eqn:Hn; [injection Hc as <- <-; auto|]. injection Hc as <- <-.
  apply (Hq _ x Hp Hx Hn _ (inherit (find d (removelast x)) i) Hk); [|apply inherit_kind|by eapply namei_parent_grown; [apply Hk|]].
  unfold find at 1. cbn. rewrite lookup_insert_eq. cbn. by rewrite lookup_insert_eq.
Qed.
(** Reading the disk. *)
Lemma sspec_read {A} (P : Disk → Prop) (f : Disk → result Errno A) (Q : result Errno A → Disk → Prop) :
  (∀ d, sound d → P d → Q (f d) d) → (∀ d e, P d → e ≠ ENOENT → Q (Err e) d) → sspec P (call host (λ d, (d, f d))) Q.
Proof. intros Hf He. apply sspec_call; [|done]. intros d d' r [= <- <-] Hs Hp. split; [done|]. split; [reflexivity|auto]. Qed.

Definition dir_at (d : Disk) (q : list string) : Prop :=
  ∃ x i, namei_parent d q = Ok x ∧ find d x = Some i ∧ in_kind i = KDir.
(** The second half of [MkdirAll]: the directory is there at the end, if the call succeeds. *)
Lemma mkdir_or_there_spec q mode :
  sspec (λ d, may_create d q) (mkdir_or_there host q mode) (λ r d, ∀ a, r = Ok a → dir_at d q).
Proof.
  eapply (spec_bind _ _ _ _ _ (λ r d, match r with Ok _ => dir_at d q | Err _ => True end)).
  - apply spec_try. apply sspec_create; [done|done|]. intros d x _ Hx _ d' i' _ Hf Hk Hx'. by exists x, i'.
  - intros [[]|e]; [apply spec_ret; auto|]. eapply (spec_bind _ _ _ _ _ (λ r d, match r with Ok i => IsDir i = true → dir_at d q | Err _ => True end)).
    + apply spec_try, sspec_read; [|done]. intros d _ _. unfold lstat. destruct (namei_parent d q) as [x|] eqn:Hx; [|done].
      destruct (find d x) as [i|] eqn:Hi; [|done]. intros Hd. exists x, i. unfold IsDir in Hd. by destruct (in_kind i).
    + intros [i|e']; [|by apply spec_fail]. destruct (IsDir i) eqn:Hd; [apply spec_ret; auto|by apply spec_fail].
Qed.
Lemma sspec_sound {A} P (m : Sys A) Q : sspec (λ d, sound d ∧ P d) m Q → sspec P m Q.
Proof. intros H s s' r Hr Hi Hp. by apply (H _ _ _ Hr). Qed.

Lemma namei_parent_of_namei d p q : Forall plain p → namei d p = Ok q → ∃ x, namei_parent d p = Ok x.
Proof.
  intros Hp Hq. induction p as [|c p _] using rev_ind; [by exists []|]. rewrite namei_parent_snoc.
  unfold namei in *. destruct (resolve_prefix _ _ _ _ _ Hq) as [s0 Hs0]. rewrite Hs0. revert Hq Hs0. unfold resolve.
  rewrite walk_app. destruct (walk kernel_links d [] p) as [[x k]|]; [|done]. cbn. intros Hw [= ->].
  destruct (is_dir d s0) eqn:Hd; [by eexists|]. by destruct k; cbn in Hw; rewrite Hd in Hw.
Qed.

Section MkdirAll.
Context (p : list string) (mode : Z) (K L : nat) (Hp : Forall plain p) (HKL : (K ≤ L)%nat).
Definition anchor (d : Disk) : Prop :=
  resolves_inside d (take K p) ∧ ∀ j, (K < j ≤ L)%nat → EvalSymlinks_pure d (take j p) = Err ENOENT.
Definition made (n : nat) (d : Disk) : Prop :=
  ((K ≤ n ≤ L)%nat → resolves_inside d (take n p)) ∧
  ∃ q, namei_parent d (take n p) = Ok q ∧ ((K < n)%nat → inside q).

Lemma anchor_lands n d q :
  anchor d → (K < n ≤ S L)%nat → (n ≤ length p)%nat → namei_parent d (take n p) = Ok q → inside q.
Proof.
  intros [(r & Hr & Hi) Hno] [H1 H2] Hn. destruct n as [|n]; [lia|]. destruct (take_last p n Hn) as (c & _ & ->).
  rewrite namei_parent_snoc. destruct (namei d (take n p)) as [s0|] eqn:Hs; [|done].
  destruct (is_dir d s0); [|done]. intros [= <-]. apply inside_snoc. apply (namei_EvalSymlinks d d) in Hs; [|done].
  destruct (decide (K = n)) as [<-|Hk]; [congruence|]. rewrite Hno in Hs by lia. done.
Qed.
Lemma made_found n d q :
  anchor d → (n ≤ S L)%nat → (n ≤ length p)%nat → namei d (take n p) = Ok q → made n d.
Proof.
  intros Ha HnL Hnp Hq. pose proof Ha as [Hr Hno]. split.
  - intros [H1 H2]. destruct (decide (K = n)) as [<-|Hn]; [done|]. apply (namei_EvalSymlinks d d) in Hq; [|done].
    rewrite Hno in Hq by lia. done.
  - destruct (namei_parent_of_namei d (take n p) q) as [x Hx]; [by apply Forall_take|done|]. exists x.
    split; [done|]. intros Hk. by eapply anchor_lands.
Qed.
Lemma may_create_next n d :
  (S n ≤ S L)%nat → (S n ≤ length p)%nat → resolves_inside d (take K p) → made n d → may_create d (take (S n) p).
Proof.
  intros HL Hl (r & Hr & _) [Hn _]. apply mkdir_inside; [done|lia|].
  destruct (decide (S n ≤ K)%nat) as [Hk|Hk]; [left|right; apply Hn; lia].
  apply (resolve_prefix _ _ _ (drop (S n) (take K p)) r). unfold EvalSymlinks_pure in Hr.
  replace (take (S n) p) with (take (S n) (take K p)) by (by rewrite take_take, Nat.min_l). by rewrite take_drop.
Qed.
Lemma made_next n d :
  (S n ≤ length p)%nat → (S n ≤ S L)%nat → resolves_inside d (take K p) → made n d → dir_at d (take (S n) p) → made (S n) d.
Proof.
  intros Hl HL Hr [Hn _] (x & i & Hx & Hi & Hk). split.
  2: { exists x. split; [done|]. intros HK. destruct (take_last p n Hl) as (c & _ & E). rewrite E, namei_parent_snoc in Hx.
    destruct (namei d (take n p)) as [s0|] eqn:Hs; [|done]. destruct (is_dir d s0); [|done]. injection Hx as <-.
    apply inside_snoc. apply (namei_EvalSymlinks d d) in Hs; [|done]. destruct (Hn ltac:(lia)) as (r & Hr' & ?). congruence. }
  intros [H1 H2]. destruct (decide (K = S n)) as [<-|Hne']; [done|]. eapply subdir_resolves; [done|lia|apply Hn; lia|done|done|done].
Qed.

Lemma stat_namei d q i : stat d q = Ok i → ∃ x, namei d q = Ok x.
Proof. unfold stat. destruct (namei d q) as [x|]; [by exists x|done]. Qed.

Lemma try_Stat_spec n :
  sspec anchor (act_try (Stat host (take n p)))
    (λ r d, match r with
            | Ok st => anchor d ∧ ∀ i, st = Ok i → ∃ q, namei d (take n p) = Ok q
            | Err _ => True
            end).
Proof.
  apply spec_try, sspec_read; [intros d _ Hd|by intros d e Hd]. split; [done|]. intros i. apply stat_namei.
Qed.
Lemma made_zero d : resolves_inside d (take K p) → made 0 d.
Proof. intros Hr. split; [|exists []; split; [done|lia]]. intros [H _]. by replace K with 0%nat in Hr by lia. Qed.

(** The part after the first look, once the directories above are made. *)
Lemma mkdir_last_spec n :
  (∀ d, sound d → resolves_inside d (take K p) → made (pred n) d → may_create d (take n p)) →
  (∀ d, resolves_inside d (take K p) → made (pred n) d → dir_at d (take n p) → made n d) →
  sspec (λ d, resolves_inside d (take K p) ∧ made (pred n) d) (mkdir_or_there host (take n p) mode) (λ r d, ∀ a, r = Ok a → made n d).
Proof.
  intros Hc Hn. apply sspec_sound. eapply spec_mono; [apply (spec_frame _ _ (λ d, resolves_inside d (take K p) ∧ made (pred n) d)),
    (mkdir_or_there_spec (take n p) mode)|..]; cbn.
  - intros d d' Hk [H1 [H2 (q & H3 & H4)]]. split; [by eapply resolves_inside_kept|]. split.
    + intros Hr. eapply resolves_inside_kept; [done|auto].
    + exists q. split; [eapply namei_parent_grown; [apply Hk|done]|done].
  - intros d (Hs & Hr & Hm). split; [done|]. by apply Hc.
  - intros r d [[Hr Hm] Hd] a Ha. apply Hn; [done|done|]. by eapply Hd.
Qed.

Lemma MkdirAll_upto_spec n :
  (n ≤ S L)%nat → (n ≤ length p)%nat →
  sspec anchor (MkdirAll_upto host p mode n) (λ r d, ∀ a, r = Ok a → made n d).
Proof.
  induction n as [|n IH]; intros HL Hl; cbn [MkdirAll_upto].
  - eapply (spec_bind _ _ _ _ _ (λ (st : result Errno Inode) d, anchor d ∧ ∀ i, st = Ok i → ∃ q, namei d (take 0 p) = Ok q));
      [eapply spec_mono; [apply (try_Stat_spec 0)|auto|by intros [st|e] d H]|].
    intros [i|e]; [destruct (IsDir i); [|by apply spec_fail]; apply spec_ret; intros d [[Hr _] _] _ _; by apply made_zero|].
    eapply (spec_bind _ _ _ _ _ (λ _ d, resolves_inside d (take K p) ∧ made 0 d)); [apply spec_ret|intros []; apply (mkdir_last_spec 0)]; cbn.
    + intros d [[Hr _] _]. split; [done|by apply made_zero].
    + intros d Hs _ _ q [= <-]. right. pose proof (sound_root _ Hs 0) as Hd. unfold is_dir in Hd.
      destruct (find d (take 0 dest)) as [i|] eqn:Hf; [|done]. apply bind_Some in Hf as (k & Hk & _). by exists k.
    + intros d Hr _ _. by apply made_zero.
  - eapply (spec_bind _ _ _ _ _ (λ st d, anchor d ∧ ∀ i, st = Ok i → ∃ q, namei d (take (S n) p) = Ok q));
      [eapply spec_mono; [apply (try_Stat_spec (S n))|auto|by intros [st|e] d H]|].
    intros [i|e].
    { destruct (IsDir i); [|by apply spec_fail]. apply spec_ret. intros d [Ha Hi] _ _. destruct (Hi i eq_refl) as [q Hq]. eapply made_found; [done|lia|lia|done]. }
    eapply (spec_bind _ _ _ _ _ (λ _ d, resolves_inside d (take K p) ∧ made n d)); [|intros []; apply (mkdir_last_spec (S n))]; cbn.
    + eapply spec_mono; [apply (spec_frame _ _ (λ d, resolves_inside d (take K p))), IH; [|lia|lia]|..]; cbn.
      * intros d d' Hk. by apply resolves_inside_kept.
      * intros d [Ha _]. split; [apply Ha|done].
      * intros [[]|e'] d [H1 H2]; [by eauto|done].
    + intros d _ Hr Hm. by apply may_create_next.
    + intros d Hr Hm Hd. by apply made_next.
Qed.
End MkdirAll.

Lemma spec_exists {St : Type} (disk : St → Disk) (inv : St → Prop) {E A X} (P : X → Disk → Prop) (m : Act St E A) Q :
  (∀ x, spec disk inv (P x) m Q) → spec disk inv (λ d, ∃ x, P x d) m Q.
Proof. intros H s s' r Hr Hi [x Hp]. by eapply H. Qed.
Lemma spec_and {St : Type} (disk : St → Disk) (inv : St → Prop) {E A} P1 P2 (m : Act St E A) Q1 Q2 :
  spec disk inv P1 m Q1 → spec disk inv P2 m Q2 → spec disk inv (λ d, P1 d ∧ P2 d) m (λ r d, Q1 r d ∧ Q2 r d).
Proof. intros H1 H2 s s' r Hr Hi [P P']. destruct (H1 _ _ _ Hr Hi P) as (?&?&?), (H2 _ _ _ Hr Hi P') as (?&?&?). auto. Qed.
Lemma sspec_post {A} P (m : Sys A) Q : sspec P m (λ r d, sound d → Q r d) → sspec P m Q.
Proof. intros H s s' r Hr Hi Hp. destruct (H _ _ _ Hr Hi Hp) as (?&?&?). auto. Qed.

Lemma MkdirAll_resolves p mode :
  Forall plain p → sspec (λ d, safe_upto d p (length p)) (MkdirAll host p mode) (λ r d, ∀ a, r = Ok a → resolves_inside d p).
Proof.
  intros Hp. apply spec_exists. intros K s s' r Hr Hi (HK & Hres & Hno).
  destruct (MkdirAll_upto_spec p mode K (length p) Hp HK (length p) ltac:(lia) ltac:(lia) s s' r Hr Hi) as (? & ? & Hq); [by split|].
  split; [done|]. split; [done|]. intros a Ha. destruct (Hq a Ha) as [Hm _]. rewrite firstn_all in Hm. by apply Hm.
Qed.
Lemma MkdirAll_fixed p mode : sspec (λ d, anchored d p) (MkdirAll host p mode) (λ r d, ∀ a, r = Ok a → fixed_at d p).
Proof.
  apply sspec_post. intros s s' r Hr Hi (Hp & Hn & [->|(K & HK & Hres & Hno)]).
  - destruct (MkdirAll_upto_spec dest mode (length dest) (length dest) Hp (Nat.le_refl _) (length dest) ltac:(lia) ltac:(lia) s s' r Hr Hi)
      as (? & ? & _); [|split; [done|]; split; [done|]; intros Hs _ _; by apply fixed_dest].
    split; [|lia]. exists dest. rewrite firstn_all. split; [|by exists []; rewrite app_nil_r].
    apply resolve_real; [done|apply Hi].
  - destruct (MkdirAll_upto_spec p mode K (length p - 1) Hp HK (length p) ltac:(lia) ltac:(lia) s s' r Hr Hi) as (? & ? & Hq); [by split|].
    split; [done|]. split; [done|]. intros _ a Ha. destruct (Hq a Ha) as [_ (q & Hq1 & Hq2)]. rewrite firstn_all in Hq1.
    exists q. split; [done|]. apply Hq2. destruct p; [done|]. cbn in *. lia.
Qed.
End Confined.
