(* ===== verification/Unpack.v ===== *)
(** * Unpacking an image layer (agent/oci/layout/unpack.go)

    The extractor: one layer's tar entries written under one directory, [dest], over the file
    system of [InodeFS].  A path is the list of its elements, so [filepath.Join] is
    concatenation and the test "[p] is [dest] or starts with [dest/]" is the prefix order on
    lists; [dest] is not the root.  The decompressors and the tar reader give the list of the
    entries read, an error being the last of them. *)
From stdpp Require Import gmap strings list.
From Stdlib Require Import ZArith Ascii.
From S2P Require Import Prelude Paths InodeFS.
#[local] Open Scope Z_scope.

(** ** The archive (archive/tar) *)
Inductive Typeflag :=
| TypeReg | TypeLink | TypeSymlink | TypeChar | TypeBlock | TypeDir | TypeFifo | TypeXGlobalHeader
| TypeOther (c : ascii).
Record Header := mkHeader {
  h_Typeflag : Typeflag; h_Name : string; h_Linkname : string; h_Mode : Z;
  h_Devmajor : Z; h_Devminor : Z; h_AccessTime : option Z; h_ModTime : option Z;
  h_PAXRecords : list (string * string);
}.
(** What [Reader.Next] gives, with the data that follows and how its read ends. *)
Inductive TarItem :=
| TarEntry (hdr : Header) (data : string) (cut : option error)
| TarError (e : error).

(** [unix.Mkdev]. *)
Definition Mkdev (major minor : Z) : Z :=
  Z.lor (Z.lor (Z.shiftl (Z.land major 0xfff) 8) (Z.shiftl (Z.land major 0xfffff000) 32))
    (Z.lor (Z.land minor 0xff) (Z.shiftl (Z.land minor 0xffffff00) 12)).
Definition S_IFIFO : Z := 0x1000.
Definition S_IFCHR : Z := 0x2000.
Definition S_IFBLK : Z := 0x6000.

(** ** The extractor *)
Definition whiteoutPrefix : string := ".wh.".
Definition whiteoutMeta : string := ".wh..wh.".
Definition whiteoutOpaque : string := ".wh..wh..opq".

Inductive UnpackErr :=
| USys (e : Errno)
| UPermanent (e : UnpackErr)
| UWrap (what : string) (e : UnpackErr)
| UText (text : string).
Fixpoint isPermanent (e : UnpackErr) : bool :=
  match e with UPermanent _ => true | UWrap _ e => isPermanent e | _ => false end.

Record unpack_stats := mkStats { st_entries : Z; st_whiteouts : Z; st_opaqueDirs : Z; st_xattrsLost : Z }.
Record dirMeta := mkDirMeta { dm_path : list string; dm_mode : Z; dm_hdr : Header }.
Record ownership := mkOwnership { ow_uid : Z; ow_gid : Z }.
(** The fields of the extractor that change, with the system it runs on. *)
Abbreviation Checked := (@gset (list string) list_eq_dec list_countable) (only parsing).
Record extractor := mkExtractor {
  ex_sys : Disk * nat; ex_dirs : list dirMeta; ex_checked : Checked; ex_stats : unpack_stats;
}.
Definition XM (A : Type) : Type := Act extractor UnpackErr A.

Definition upd_stats (f : unpack_stats → unpack_stats) : XM unit := λ e,
  (mkExtractor (ex_sys e) (ex_dirs e) (ex_checked e) (f (ex_stats e)), Ok tt).
Definition sys {A} (m : Sys A) : XM A := λ e,
  let '(s, r) := m (ex_sys e) in
  (mkExtractor s (ex_dirs e) (ex_checked e) (ex_stats e), match r with Ok a => Ok a | Err n => Err (USys n) end).
(** A call whose EPERM, or one of [also], no second fetch can fix. *)
Definition refused (also : Errno → bool) (n : Errno) : bool := match n with EPERM => true | _ => also n end.
Definition permanent_sys (also : Errno → bool) (what : string) (other : UnpackErr → UnpackErr) (m : Sys unit) : XM unit := λ e,
  match sys m e with
  | (e, Err (USys n)) => (e, Err (if refused also n then UPermanent (UWrap what (USys n)) else other (USys n)))
  | x => x
  end.

(** [filepath.Clean("/" + s)] of the elements [l]. *)
Definition clean_elems (l : list string) : list string := rev (foldl (clean_step true) [] l).
Definition clean_name (s : string) : list string := clean_elems (split slash s).
Definition Base (name : list string) : string := default "/" (last name).
Definition HasPrefix (s p : string) : bool := GoStrings.has_prefix p s.

Section Extractor.
Context (host : Host) (dest : list string) (owner : option ownership).

(** [safeParent] of the first [n] elements of [p]. *)
Fixpoint safeParent_upto (p : list string) (n : nat) : XM unit := λ e,
  let dir := take n p in
  if bool_decide (dir ∈ ex_checked e) then (e, Ok tt)
  else match sys (EvalSymlinks host dir) e with
       | (e, Err (USys ENOENT)) =>
           match n with
           | O => (e, Err (UText "cannot resolve any ancestor"))
           | S n' => safeParent_upto p n' e
           end
       | (e, Err err) => (e, Err err)
       | (e, Ok real) =>
           if negb (bool_decide (dest `prefix_of` real)) then (e, Err (UPermanent (UText "resolves outside the layer")))
           else (mkExtractor (ex_sys e) (ex_dirs e) ({[dir]} ∪ ex_checked e) (ex_stats e), Ok tt)
       end.
Definition safeParent (dir : list string) : XM unit := safeParent_upto dir (length dir).

Definition target (name : list string) : XM (list string) :=
  let p := dest ++ name in
  (if bool_decide (p = dest) then act_ret p
   else if negb (bool_decide (dest `prefix_of` p)) then act_fail (UPermanent (UText "escapes the layer directory"))
   else do! safeParent (removelast p) in act_ret p)%go.

Definition chown (p : list string) : XM unit :=
  match owner with
  | None => act_ret tt
  | Some o => sys (Lchown host p (ow_uid o) (ow_gid o))
  end.

Definition add_lost (n : Z) (s : unpack_stats) : unpack_stats :=
  mkStats (st_entries s) (st_whiteouts s) (st_opaqueDirs s) (st_xattrsLost s + n).
Definition xattr_prefix : string := "SCHILY.xattr.".
Definition xattrs (p : list string) (hdr : Header) : XM unit :=
  act_each (h_PAXRecords hdr) (λ '(k, v),
    if HasPrefix k xattr_prefix then
      let! r := act_try (sys (Lsetxattr host p (GoStrings.drop_string (String.length xattr_prefix) k) v)) in
      match r with Ok _ => act_ret tt | Err _ => upd_stats (add_lost 1) end
    else act_ret tt)%go.

Definition nothing_else (_ : Errno) : bool := false.
Definition whiteout (name : list string) : XM unit :=
  (let! p := target name in
   do! permanent_sys nothing_else "whiteout" (UWrap "whiteout") (Mknod host p S_IFCHR 0 0) in
   do! upd_stats (λ s, mkStats (st_entries s) (st_whiteouts s + 1) (st_opaqueDirs s) (st_xattrsLost s)) in
   chown p)%go.

Definition no_xattrs (n : Errno) : bool := match n with EACCES | EOPNOTSUPP => true | _ => false end.
Definition opaque (dir : list string) : XM unit :=
  (let! p := target dir in
   do! sys (MkdirAll host p (perms 7 5 5)) in
   do! permanent_sys no_xattrs "opaque marker" (UWrap "opaque marker") (Setxattr host p "trusted.overlay.opaque" "y") in
   upd_stats (λ s, mkStats (st_entries s) (st_whiteouts s) (st_opaqueDirs s + 1) (st_xattrsLost s)))%go.

Definition perm (hdr : Header) : Z := Z.land (h_Mode hdr) (perms 7 7 7).
Definition regular (p : list string) (hdr : Header) (data : string) (cut : option error) : XM unit :=
  (do! sys (OpenExclusive host p (perm hdr)) in
   do! sys (FileCopy host p data) in
   match cut with
   | Some err => act_fail (UText err)
   | None => sys (Chmod host p (perm hdr))
   end)%go.

Definition device (p : list string) (hdr : Header) (type : Z) : XM unit :=
  permanent_sys nothing_else "mknod" id
    (Mknod host p type (Z.land (h_Mode hdr) (512 * 7 + perms 7 7 7)) (Mkdev (h_Devmajor hdr mod 2 ^ 32) (h_Devminor hdr mod 2 ^ 32))).

Definition add_dir (m : dirMeta) : XM unit := λ e,
  (mkExtractor (ex_sys e) (ex_dirs e ++ [m]) (ex_checked e) (ex_stats e), Ok tt).
(** The switch on the type of an entry. *)
Definition make (p : list string) (hdr : Header) (data : string) (cut : option error) : XM unit :=
  match h_Typeflag hdr with
  | TypeDir =>
      do! safeParent p in
      do! sys (MkdirAll host p (perms 7 5 5)) in
      add_dir (mkDirMeta p (perm hdr) hdr)
  | TypeReg => regular p hdr data cut
  | TypeSymlink => sys (Symlink host (h_Linkname hdr) p)
  | TypeLink =>
      let! source := act_wrap (UWrap "hard link target") (target (clean_name (h_Linkname hdr))) in
      sys (Link host source p)
  | TypeChar => device p hdr S_IFCHR
  | TypeBlock => device p hdr S_IFBLK
  | TypeFifo => device p hdr S_IFIFO
  | TypeXGlobalHeader | TypeOther _ => act_fail (UPermanent (UText "unsupported tar entry type"))
  end%go.

Definition entry (hdr : Header) (data : string) (cut : option error) : XM unit :=
  let name := clean_name (h_Name hdr) in
  let base := Base name in
  (if bool_decide (base = whiteoutOpaque) then opaque (removelast name)
   else if HasPrefix base whiteoutMeta then act_ret tt
   else if HasPrefix base whiteoutPrefix then
     whiteout (clean_elems (removelast name ++ [GoStrings.drop_string (String.length whiteoutPrefix) base]))
   else
     let! p := target name in
     do! make p hdr data cut in
     do! xattrs p hdr in
     do! chown p in
     match h_Typeflag hdr with
     | TypeSymlink | TypeDir => act_ret tt
     | _ => sys (Chtimes host p (h_AccessTime hdr) (h_ModTime hdr))
     end)%go.

Definition run_item (item : TarItem) : XM unit :=
  match item with
  | TarError err => act_fail (UText err)
  | TarEntry hdr data cut =>
      match h_Typeflag hdr with
      | TypeXGlobalHeader => act_ret tt
      | _ =>
          do! act_wrap (UWrap (h_Name hdr)) (entry hdr data cut) in
          upd_stats (λ s, mkStats (st_entries s + 1) (st_whiteouts s) (st_opaqueDirs s) (st_xattrsLost s))
      end
  end%go.
Definition run (items : list TarItem) : XM unit := act_each items run_item.

(** Deepest first. *)
Definition deeper (a b : dirMeta) : bool := (length (dm_path b) <? length (dm_path a))%nat.
Definition finish_dir (m : dirMeta) : XM unit :=
  (do! sys (Chtimes host (dm_path m) (h_AccessTime (dm_hdr m)) (h_ModTime (dm_hdr m))) in
   sys (Chmod host (dm_path m) (dm_mode m)))%go.
Definition finish : XM unit := λ e, act_each (sort_stable deeper (ex_dirs e)) finish_dir e.

Definition new_extractor (s : Disk * nat) : extractor := mkExtractor s [] {[dest]} (mkStats 0 0 0 0).
End Extractor.

(** The decompressors, by what their readers give to the tar reader once held to the cap. *)
Record Decoders (Blob : Type) := mkDecoders {
  dc_gzip : Blob → Z → result error (list TarItem);
  dc_zstd : Blob → Z → result error (list TarItem);
  dc_raw : Blob → Z → list TarItem;
}.
Arguments dc_gzip {Blob}. Arguments dc_zstd {Blob}. Arguments dc_raw {Blob}.

Definition mediaTypeLayer : string := "application/vnd.oci.image.layer.v1.tar".
Definition mediaTypeLayerGzip : string := "application/vnd.oci.image.layer.v1.tar+gzip".
Definition mediaTypeLayerZstd : string := "application/vnd.oci.image.layer.v1.tar+zstd".
Definition mediaTypeDockerLayerTar : string := "application/vnd.docker.image.rootfs.diff.tar".
Definition mediaTypeDockerLayerGzip : string := "application/vnd.docker.image.rootfs.diff.tar.gzip".
Definition mediaTypeDockerLayerZstd : string := "application/vnd.docker.image.rootfs.diff.tar.zstd".

(** The extractor built and run on the entries read. *)
Definition extract (host : Host) (dest : list string) (owner : option ownership) (items : list TarItem) (s : Disk * nat) :
    (Disk * nat) * (unpack_stats * option UnpackErr) :=
  let '(e, r) := (do! run host dest owner items in finish host)%go (new_extractor dest s) in
  (ex_sys e, (ex_stats e, match r with Ok _ => None | Err err => Some err end)).

Definition unpackLayer {Blob} (dc : Decoders Blob) (host : Host) (r : Blob) (mediaType : string) (dest : list string)
    (owner : option ownership) (maxBytes : Z) (s : Disk * nat) : (Disk * nat) * (unpack_stats * option UnpackErr) :=
  let extract items := extract host dest owner items s in
  let failed err := (s, (mkStats 0 0 0 0, Some err)) in
  if bool_decide (mediaType = mediaTypeLayerGzip) || bool_decide (mediaType = mediaTypeDockerLayerGzip) then
    match dc_gzip dc r maxBytes with Ok items => extract items | Err err => failed (UWrap "gzip" (UText err)) end
  else if bool_decide (mediaType = mediaTypeLayer) || bool_decide (mediaType = mediaTypeDockerLayerTar) then
    extract (dc_raw dc r maxBytes)
  else if bool_decide (mediaType = mediaTypeLayerZstd) || bool_decide (mediaType = mediaTypeDockerLayerZstd) then
    match dc_zstd dc r maxBytes with Ok items => extract items | Err err => failed (UWrap "zstd" (UText err)) end
  else failed (UPermanent (UText "unsupported layer media type")).
