(* ===== verification/UnpackTheorems.v ===== *)
(** * An image layer stays in its directory

    Whatever the archive holds (absolute names, [..], links planted by earlier entries, hard
    links, devices) and wherever the host makes the unpack fail, nothing outside the layer's
    directory changes but times and attributes ([layer_confined]).  The argument follows the
    code's: [target] accepts a path whose directory resolves inside, and because an unpack only
    adds names the cache of checked directories and the list of directories to finish are never
    stale.  Two marks do leave the directory: an opaque marker and the time of a hard link are
    written through a symbolic link ([opaque_marker_escapes], [hard_link_time_escapes]). *)
From stdpp Require Import gmap strings list.
From Stdlib Require Import ZArith Ascii.
From S2P Require Import Prelude Paths InodeFS Unpack.
#[local] Open Scope Z_scope.

Section Unpack.
Context (dest : list string) (Hplain : Forall plain dest) (Hne : dest ≠ []) (host : Host) (owner : option ownership)
  `{!Quiet host}.
Local Abbreviation kept := (kept dest).
Local Abbreviation sound := (sound dest).
Local Abbreviation inside := (inside dest).
Local Abbreviation resolves_inside := (resolves_inside dest).
Local Abbreviation safe_upto := (safe_upto dest).
Local Abbreviation anchored := (anchored dest).
Local Abbreviation fixed_at := (fixed_at dest).
Local Abbreviation sspec := (sspec dest).

Definition ex_disk (e : extractor) : Disk := (ex_sys e).1.
(** What the extractor remembers of the disk is true of it. *)
Record good (e : extractor) : Prop := mkGood {
  good_sound : sound (ex_disk e);
  good_checked : ∀ dir, dir ∈ ex_checked e → resolves_inside (ex_disk e) dir;
  good_dirs : ∀ m, m ∈ ex_dirs e → resolves_inside (ex_disk e) (dm_path m);
}.
Definition xspec {A} := @spec dest extractor ex_disk good UnpackErr A.

Lemma good_sys e s : good e → sound s.1 → kept (ex_disk e) s.1 → good (mkExtractor s (ex_dirs e) (ex_checked e) (ex_stats e)).
Proof.
  intros [Hs Hc Hd] Hs' Hk. split; [done| |]; intros x Hx; (eapply resolves_inside_kept; [exact Hk|auto]).
Qed.
Definition sys_result {A} (r : result Errno A) : result UnpackErr A := match r with Ok a => Ok a | Err n => Err (USys n) end.
Lemma xspec_sys {A} P (m : Sys A) (Q : result UnpackErr A → Disk → Prop) :
  sspec P m (λ r, Q (sys_result r)) → xspec P (sys m) Q.
Proof.
  intros H e e' r. unfold sys. destruct (m (ex_sys e)) as [s r1] eqn:E1. intros [= <- <-] Hi Hp.
  destruct (H _ _ _ E1 (good_sound _ Hi) Hp) as (Hs & Hk & Hq). split; [by apply good_sys|done].
Qed.
Lemma xspec_permanent P also what other (m : Sys unit) (Q : unit → Disk → Prop) :
  sspec P m (λ r d, ∀ a, r = Ok a → Q a d) → xspec P (permanent_sys also what other m) (λ r d, ∀ a, r = Ok a → Q a d).
Proof.
  intros H e e' r Hr Hi Hp. unfold permanent_sys in Hr. destruct (sys m e) as [e1 r1] eqn:E1.
  assert (xspec P (sys m) (λ r d, ∀ a, r = Ok a → Q a d)) as Hx.
  { apply xspec_sys. eapply spec_mono; [exact H|auto|]. intros [a|n] d Hq b; [|done]. intros [= <-]. by apply Hq. }
  destruct (Hx _ _ _ E1 Hi Hp) as (H1 & H2 & H3). destruct r1 as [a|[n| | |]]; injection Hr as <- <-; (split; [done|]; split; [done|]); try done.
Qed.
Lemma xspec_stats P f (Q : result UnpackErr unit → Disk → Prop) : (∀ d, P d → Q (Ok tt) d) → xspec P (upd_stats f) Q.
Proof. intros H e e' r [= <- <-] [Hs Hc Hd] Hp. split; [by split|]. split; [reflexivity|by apply H]. Qed.
Lemma xspec_sound {A} P (m : XM A) Q : xspec (λ d, sound d ∧ P d) m Q → xspec P m Q.
Proof. intros H e e' r Hr Hi Hp. apply (H _ _ _ Hr Hi). split; [apply Hi|done]. Qed.
Lemma xspec_post {A} P (m : XM A) Q : xspec P m (λ r d, sound d → Q r d) → xspec P m Q.
Proof. intros H e e' r Hr Hi Hp. destruct (H _ _ _ Hr Hi Hp) as (Hg&?&Hq). split; [done|]. split; [done|]. apply Hq, Hg. Qed.

(** ** safeParent and target *)
Lemma sys_EvalSymlinks dir e e' r :
  sys (EvalSymlinks host dir) e = (e', r) →
  ∃ n, e' = mkExtractor (ex_disk e, n) (ex_dirs e) (ex_checked e) (ex_stats e) ∧
    (r = sys_result (EvalSymlinks_pure (ex_disk e) dir) ∨ ∃ n, r = Err (USys n) ∧ n ≠ ENOENT).
Proof.
  unfold sys. destruct (EvalSymlinks host dir (ex_sys e)) as [[d n] r1] eqn:E1. intros [= <- <-]. exists n.
  apply (call_inv host) in E1 as [[E1 (x & -> & Hx)]|E1]; cbn in E1; [rewrite E1; eauto|]. injection E1 as <- <-. auto.
Qed.
Lemma safeParent_upto_eq p n e :
  safeParent_upto host dest p n e =
  if bool_decide (take n p ∈ ex_checked e) then (e, Ok tt)
  else match sys (EvalSymlinks host (take n p)) e with
       | (e, Err (USys ENOENT)) =>
           match n with
           | O => (e, Err (UText "cannot resolve any ancestor"))
           | S n' => safeParent_upto host dest p n' e
           end
       | (e, Err err) => (e, Err err)
       | (e, Ok real) =>
           if negb (bool_decide (dest `prefix_of` real)) then (e, Err (UPermanent (UText "resolves outside the layer")))
           else (mkExtractor (ex_sys e) (ex_dirs e) ({[take n p]} ∪ ex_checked e) (ex_stats e), Ok tt)
       end.
Proof. by destruct n. Qed.

Lemma safeParent_upto_spec (P : Disk → Prop) p n :
  (n ≤ length p)%nat →
  xspec (λ d, P d ∧ ∀ j, (n < j ≤ length p)%nat → EvalSymlinks_pure d (take j p) = Err ENOENT) (safeParent_upto host dest p n)
    (λ r d, P d ∧ ∀ a, r = Ok a → safe_upto d p (length p)).
Proof.
  induction n as [n IH] using lt_wf_ind. intros Hn e e' r Hr Hi [Hp Hno]. rewrite safeParent_upto_eq in Hr.
  assert (∀ e1 err, ex_disk e1 = ex_disk e → good e1 → (e1, Err err) = (e', r) →
    good e' ∧ kept (ex_disk e) (ex_disk e') ∧ P (ex_disk e') ∧ ∀ a, r = Ok a → safe_upto (ex_disk e') p (length p)) as Hfail.
  { intros e1 err Hd Hg [= <- <-]. rewrite Hd. split; [done|]. split; [reflexivity|done]. }
  destruct (bool_decide_reflect (take n p ∈ ex_checked e)) as [Hc|_].
  { injection Hr as <- <-. split; [done|]. split; [reflexivity|]. split; [done|]. intros _ _. exists n. split; [done|].
    split; [by apply Hi|done]. }
  destruct (sys (EvalSymlinks host (take n p)) e) as [e1 r1] eqn:E1. apply sys_EvalSymlinks in E1 as (c & -> & Hor).
  assert (good (mkExtractor (ex_disk e, c) (ex_dirs e) (ex_checked e) (ex_stats e))) as Hg.
  { apply good_sys; [done|apply Hi|reflexivity]. }
  destruct Hor as [->|(x & -> & Hx)]; [|destruct x; try done; (eapply Hfail; [| |exact Hr]; done)].
  destruct (EvalSymlinks_pure (ex_disk e) (take n p)) as [real|x] eqn:Hreal; cbn [sys_result] in Hr.
  - destruct (bool_decide_reflect (dest `prefix_of` real)) as [Hpre|]; cbn [negb] in Hr; [|by eapply Hfail; [| |exact Hr]].
    injection Hr as <- <-. split; [|split; [reflexivity|]; split; [done|]; intros _ _; exists n; split; [done|]; split; [by exists real|done]].
    split; [apply Hg| |apply Hg]. intros y [->%elem_of_singleton|Hy]%elem_of_union; [by exists real|by apply Hg].
  - destruct x; try (by eapply Hfail; [| |exact Hr]). destruct n as [|n]; [by eapply Hfail; [| |exact Hr]|].
    apply (IH n ltac:(lia) ltac:(lia) _ _ _ Hr Hg). split; [done|]. intros j Hj.
    destruct (decide (j = S n)) as [->|]; [done|]. apply Hno. lia.
Qed.
Lemma safeParent_spec (P : Disk → Prop) p : xspec P (safeParent host dest p) (λ r d, P d ∧ ∀ a, r = Ok a → safe_upto d p (length p)).
Proof.
  eapply spec_mono; [apply (safeParent_upto_spec P p (length p)); lia| |auto]. intros d Hp. split; [done|]. lia.
Qed.

Lemma clean_step_plain st c : Forall plain st → Forall plain (clean_step true st c).
Proof.
  intros H. unfold clean_step. destruct (bool_decide_reflect (c = "")) as [|H1]; [done|]. destruct (bool_decide_reflect (c = ".")) as [|H2]; [done|].
  cbn. destruct (bool_decide_reflect (c = "..")) as [->|H3]; [|by constructor].
  destruct st as [|top rest]; [done|]. apply Forall_cons in H as [(_ & _ & Ht) H]. by rewrite bool_decide_eq_false_2.
Qed.
Lemma clean_elems_plain l : Forall plain (clean_elems l).
Proof.
  unfold clean_elems. apply Forall_rev. assert (Forall plain []) as H by constructor. revert H. generalize (@nil string).
  induction l as [|c l IH]; intros st H; [done|]. apply IH. by apply clean_step_plain.
Qed.

Lemma target_spec (P : Disk → Prop) name :
  Forall plain name → xspec P (target host dest name) (λ r d, P d ∧ ∀ a, r = Ok a → anchored d a).
Proof.
  intros Hn. unfold target. assert (Forall plain (dest ++ name)) as Hp by by apply Forall_app.
  assert (dest ++ name ≠ []) as Hne' by by destruct dest. case_bool_decide as Heq.
  { apply spec_ret. intros d Hd. split; [done|]. intros a [= <-]. split; [done|]. split; [done|by left]. }
  case_bool_decide; cbn [negb]; [|by apply spec_fail].
  eapply (spec_bind _ _ _ _ _ _ (λ _ d, P d ∧ safe_upto d (removelast (dest ++ name)) (length (removelast (dest ++ name))))).
  - eapply spec_mono; [apply (safeParent_spec P)|auto|]. intros [[]|e] d [? ?]; [by eauto|done].
  - intros []. apply spec_ret. intros d [Hd (K & HK & Hr & Hno)]. split; [done|]. intros a [= <-]. split; [done|]. split; [done|]. right.
    destruct (exists_last Hne') as (dir & c & E). rewrite E in *. rewrite removelast_last in *. rewrite length_app. cbn.
    replace (length dir + 1 - 1)%nat with (length dir) by lia. exists K. split; [done|]. split.
    + by rewrite take_app_le.
    + intros j Hj. rewrite take_app_le by lia. by apply Hno.
Qed.

(** ** Entries *)
Lemma create_fixed i p :
  sspec (λ d, anchored d p) (call host (λ d, create i d p))
    (λ r d, ∀ a, r = Ok a → ∃ x i', namei_parent d p = Ok x ∧ inside x ∧ find d x = Some i' ∧ in_kind i' = in_kind i).
Proof.
  apply sspec_sound, (sspec_create dest host).
  - intros d _ [Hs Ha] q Hq. left. by eapply anchored_lands.
  - done.
  - intros d x [Hs Ha] Hx _ d' i' _ Hf Hk Hx' _ _. exists x, i'. split; [done|]. split; [by eapply anchored_lands|done].
Qed.
Lemma create_fixed_at i p :
  sspec (λ d, anchored d p) (call host (λ d, create i d p)) (λ r d, ∀ a, r = Ok a → fixed_at d p).
Proof.
  eapply spec_mono; [apply (create_fixed i p)|auto|]. intros r d H a Ha. destruct (H a Ha) as (x & i' & ? & ? & _). by exists x.
Qed.
(** Times and attributes may be written through a link. *)
Lemma mark_spec (P : Disk → Prop) f p :
  (∀ n, same_file n (f n)) → sspec P (call host (λ d, change_followed f d p)) (λ _ _, True).
Proof.
  intros Hf. apply (sspec_call dest host); [|done]. intros d d' r. unfold change_followed. destruct (namei d p) as [q|]; [|intros [= <- <-] ? _; by split].
  intros Hc Hs _. destruct (change_kept dest f d q d' r) as [? ?]; auto. intros n _. by destruct (Hf n) as [-> _].
Qed.
(** What does not follow the last element stays inside. *)
Lemma named_spec f p :
  (∀ n, shape (in_kind (f n)) = shape (in_kind n)) →
  sspec (λ d, fixed_at d p) (call host (λ d, change_named f d p)) (λ _ d, fixed_at d p).
Proof.
  intros Hf. apply (sspec_call dest host); [|done]. intros d d' r. unfold change_named. intros Hc Hs (q & Hq & Hi). rewrite Hq in Hc.
  destruct (change_kept dest f d q d' r) as [? Hk]; auto. split; [done|]. split; [done|].
  eapply fixed_at_kept; [done|]. by exists q.
Qed.
Lemma chown_spec p : xspec (λ d, fixed_at d p) (chown host owner p) (λ _ d, fixed_at d p).
Proof. unfold chown. destruct owner; [|by apply spec_ret]. by apply xspec_sys, named_spec. Qed.
Lemma xattrs_spec p hdr : xspec (λ d, fixed_at d p) (xattrs host p hdr) (λ _ d, fixed_at d p).
Proof.
  apply spec_each; [|done]. intros [k v] _. destruct (HasPrefix k xattr_prefix); [|by apply spec_ret].
  eapply (spec_bind _ _ _ _ _ _ (λ _ d, fixed_at d p)).
  - apply spec_try, xspec_sys. by apply named_spec.
  - intros [[]|e]; [by apply spec_ret|by apply xspec_stats].
Qed.

Lemma whiteout_spec name : Forall plain name → xspec (λ _, True) (whiteout host dest owner name) (λ _ _, True).
Proof.
  intros Hn. eapply (spec_bind _ _ _ _ _ _ (λ p d, anchored d p)).
  - eapply spec_mono; [by apply (target_spec (λ _, True))|auto|]. intros [p|e] d [_ H]; [by apply H|done].
  - intros p. eapply (spec_bind _ _ _ _ _ _ (λ _ d, fixed_at d p)).
    + eapply spec_mono; [apply xspec_permanent, (create_fixed_at _ p)|auto|]. intros [[]|e] d H; [by eapply H|done].
    + intros _. eapply (spec_bind _ _ _ _ _ _ (λ _ d, fixed_at d p)); [by apply xspec_stats|]. intros _.
      eapply spec_mono; [apply chown_spec|auto|done].
Qed.
Lemma opaque_spec dir : Forall plain dir → xspec (λ _, True) (opaque host dest dir) (λ _ _, True).
Proof.
  intros Hn. eapply (spec_bind _ _ _ _ _ _ (λ p d, anchored d p)).
  - eapply spec_mono; [by apply (target_spec (λ _, True))|auto|]. intros [p|e] d [_ H]; [by apply H|done].
  - intros p. eapply (spec_bind _ _ _ _ _ _ (λ _ _, True)).
    + apply xspec_sys. eapply spec_mono; [by apply (MkdirAll_fixed dest Hplain Hne host p)|auto|]. by intros [[]|e] d _.
    + intros _. eapply (spec_bind _ _ _ _ _ _ (λ _ _, True)); [|intros _; by apply xspec_stats].
      eapply spec_mono; [apply (xspec_permanent (λ _, True) _ _ _ _ (λ _ _, True))|auto|by intros [[]|e] d].
      eapply spec_mono; [by apply (mark_spec (λ _, True))|auto|done].
Qed.

(** A file the extractor just made: its path leads to it. *)
Definition filed (d : Disk) (p : list string) : Prop :=
  ∃ x i, namei_parent d p = Ok x ∧ inside x ∧ find d x = Some i ∧ shape (in_kind i) = None.
Lemma filed_kept d d' p : kept d d' → filed d p → filed d' p.
Proof.
  intros [Hg _ _] (x & i & Hx & Hin & Hi & Hs). destruct (find_grown _ _ _ _ Hg Hi) as (i' & Hi' & Hs').
  exists x, i'. rewrite Hs'. split; [by eapply namei_parent_grown|done].
Qed.
Lemma filed_fixed d p : filed d p → fixed_at d p.
Proof. intros (x & i & Hx & Hin & _). by exists x. Qed.
Lemma filed_namei d p q : Forall plain p → filed d p → namei d p = Ok q → inside q.
Proof.
  intros Hp (x & i & Hx & Hin & Hi & Hs) Hq. enough (namei d p = Ok x) by congruence.
  destruct p as [|c p _] using rev_ind; [by injection Hx as <-; destruct (prefix_nil_inv _ Hin)|].
  rewrite namei_parent_snoc in Hx. destruct (namei d p) as [s0|] eqn:E; [|done]. destruct (is_dir d s0) eqn:Hd; [|done].
  injection Hx as <-. apply Forall_app in Hp as [_ Hc]. rewrite Forall_singleton in Hc.
  unfold namei. eapply resolve_snoc; [exact Hc|done|done|done|]. intros t Ht. by rewrite Ht in Hs.
Qed.

Lemma FileCopy_spec p data : sspec (λ d, filed d p) (FileCopy host p data) (λ _ d, filed d p).
Proof.
  apply (sspec_call dest host); [|done]. intros d d' r. unfold change_named. intros Hc Hs Hf. pose proof Hf as (x & i & Hx & Hin & Hi & Hsh).
  rewrite Hx in Hc. destruct (change_kept dest (set_kind (KFile data)) d x d' r) as [? Hk]; auto.
  { intros n Hn. assert (n = i) as -> by congruence. by rewrite Hsh. }
  split; [done|]. split; [done|]. by eapply filed_kept.
Qed.
Lemma Chmod_spec (P : Disk → Prop) p mode :
  (∀ d q, P d → namei d p = Ok q → inside q) → (∀ d d', kept d d' → P d → P d') → sspec P (Chmod host p mode) (λ _ d, P d).
Proof.
  intros Hin Hm. apply (sspec_call dest host); [|done]. intros d d' r. unfold change_followed. destruct (namei d p) as [q|] eqn:Hq.
  - intros Hc Hs Hp. destruct (change_kept dest (set_in_mode mode) d q d' r) as [? Hk]; [done|left; by eapply Hin|done|done|].
    split; [done|]. split; [done|by eapply Hm].
  - intros [= <- <-] Hs Hp. split; [done|]. split; [reflexivity|done].
Qed.

Lemma regular_spec p hdr data cut :
  Forall plain p → xspec (λ d, anchored d p) (regular host p hdr data cut) (λ r d, ∀ a, r = Ok a → fixed_at d p).
Proof.
  intros Hp. eapply (spec_bind _ _ _ _ _ _ (λ _ d, filed d p)).
  - apply xspec_sys. eapply spec_mono; [apply (create_fixed _ p)|auto|]. intros [[]|e] d H; [|done].
    destruct (H tt eq_refl) as (x & i' & ? & ? & ? & Hk). exists x, i'. by rewrite Hk.
  - intros _. eapply (spec_bind _ _ _ _ _ _ (λ _ d, filed d p)).
    + apply xspec_sys. eapply spec_mono; [apply (FileCopy_spec p data)|auto|]. by intros [[]|e] d H.
    + intros _. destruct cut as [err|]; [by apply spec_fail|]. apply xspec_sys.
      eapply spec_mono; [apply (Chmod_spec (λ d, filed d p))|auto|]; cbn.
      * intros d q. by apply filed_namei.
      * intros d d'. apply filed_kept.
      * intros r d H _ _. by apply filed_fixed.
Qed.
Lemma Link_spec o p :
  sspec (λ d, anchored d p ∧ anchored d o) (Link host o p) (λ r d, ∀ a, r = Ok a → fixed_at d p).
Proof.
  apply (sspec_call dest host); [|done]. intros d d' r Hl Hs [Hp Ho].
  destruct (link_kept dest d o p d' r) as [? Hk]; [intros q; by apply anchored_lands|intros q; by apply anchored_lands|done|done|].
  split; [done|]. split; [done|]. intros a ->. eapply fixed_at_kept; [exact Hk|].
  unfold link in Hl. destruct (namei_parent d o) as [q|]; [|done]. destruct (dk_names d !! q); [|done].
  case_match; [done|]. destruct (is_dir d q); [done|]. destruct (namei_parent d p) as [x|] eqn:Hx; [|done].
  exists x. split; [done|]. exact (anchored_lands dest Hplain Hne d p x Hs Hp Hx).
Qed.

Lemma make_dir_spec p hdr :
  Forall plain p →
  xspec (λ d, anchored d p)
    (do! safeParent host dest p in do! sys (MkdirAll host p (perms 7 5 5)) in add_dir (mkDirMeta p (perm hdr) hdr))%go
    (λ r d, ∀ a, r = Ok a → fixed_at d p).
Proof.
  intros Hp. eapply (spec_bind _ _ _ _ _ _ (λ _ d, anchored d p ∧ safe_upto d p (length p))).
  { eapply spec_mono; [apply (safeParent_spec (λ d, anchored d p))|auto|]. intros [[]|e] d [? H]; [by eauto|done]. }
  intros _. eapply (spec_bind _ _ _ _ _ _ (λ _ d, fixed_at d p ∧ resolves_inside d p)).
  - apply xspec_sys. eapply spec_mono;
      [exact (spec_and _ _ _ _ _ _ _ _ (MkdirAll_fixed dest Hplain Hne host p _) (MkdirAll_resolves dest host p _ Hp))|auto|].
    intros [[]|e] d [H1 H2]; [|done]. split; [by eapply H1|by eapply H2].
  - intros _ e e' r [= <- <-] [Hs Hc Hd] [Hf Hr]. split; [|split; [reflexivity|done]].
    split; [done|done|]. cbn. intros m [Hm| ->%list_elem_of_singleton]%elem_of_app; auto.
Qed.

Lemma make_spec p hdr data cut :
  Forall plain p → xspec (λ d, anchored d p) (make host dest p hdr data cut) (λ r d, ∀ a, r = Ok a → fixed_at d p).
Proof.
  intros Hp. unfold make, device.
  assert (∀ i what, xspec (λ d, anchored d p) (permanent_sys nothing_else what id (call host (λ d, create i d p)))
    (λ r d, ∀ a, r = Ok a → fixed_at d p)) as Hdev.
  { intros i what. apply (xspec_permanent _ _ _ _ _ (λ _ d, fixed_at d p)). apply create_fixed_at. }
  destruct (h_Typeflag hdr); try (by apply spec_fail); try apply Hdev; [by apply regular_spec| | |by apply make_dir_spec].
  - eapply (spec_bind _ _ _ _ _ _ (λ o d, anchored d p ∧ anchored d o)).
    + apply spec_wrap. eapply spec_mono; [apply (target_spec (λ d, anchored d p)), clean_elems_plain|auto|].
      intros [o|e] d [? H]; [by eauto|done].
    + intros o. apply xspec_sys. eapply spec_mono; [apply Link_spec|auto|]. intros [[]|e] d H a; [|done]. intros _. by eapply H.
  - apply xspec_sys. unfold Symlink. destruct (bool_decide (h_Linkname hdr = "")).
    + by apply (sspec_read dest host).
    + eapply spec_mono; [apply (create_fixed_at _ p)|auto|]. intros [[]|e] d H a; [|done]. intros _. by eapply H.
Qed.

Lemma entry_spec hdr data cut : xspec (λ _, True) (entry host dest owner hdr data cut) (λ _ _, True).
Proof.
  pose proof (clean_elems_plain (split slash (h_Name hdr))) as Hn. fold (clean_name (h_Name hdr)) in Hn. unfold entry.
  case_bool_decide as Hopq; [apply opaque_spec; rewrite removelast_firstn_len; by apply Forall_take|]. destruct (HasPrefix _ whiteoutMeta); [by apply spec_ret|].
  destruct (HasPrefix _ whiteoutPrefix); [apply whiteout_spec, clean_elems_plain|].
  eapply (spec_bind _ _ _ _ _ _ (λ p d, anchored d p)).
  { eapply spec_mono; [by apply (target_spec (λ _, True))|auto|]. intros [p|e] d [_ H]; [by apply H|done]. }
  intros p. apply (spec_pure _ _ _ (Forall plain p)); [by intros d [H _]|intros Hp].
  eapply (spec_bind _ _ _ _ _ _ (λ _ d, fixed_at d p)).
  { eapply spec_mono; [by apply make_spec|auto|]. intros [[]|e] d H; [by eapply H|done]. }
  intros _. eapply (spec_bind _ _ _ _ _ _ (λ _ d, fixed_at d p)); [eapply spec_mono; [apply xattrs_spec|auto|by intros [[]|e] d H]|].
  intros _. eapply (spec_bind _ _ _ _ _ _ (λ _ d, fixed_at d p)); [eapply spec_mono; [apply chown_spec|auto|by intros [[]|e] d H]|].
  intros _. destruct (h_Typeflag hdr); try (by apply spec_ret); apply xspec_sys; by apply mark_spec.
Qed.
Lemma run_spec items : xspec (λ _, True) (run host dest owner items) (λ _ _, True).
Proof.
  apply spec_each; [|done]. intros [hdr data cut|err] _; [|by apply spec_fail]. unfold run_item.
  assert (xspec (λ _, True) (do! act_wrap (UWrap (h_Name hdr)) (entry host dest owner hdr data cut) in
    upd_stats (λ s, mkStats (st_entries s + 1) (st_whiteouts s) (st_opaqueDirs s) (st_xattrsLost s)))%go (λ _ _, True ∧ True)) as H.
  { eapply (spec_bind _ _ _ _ _ _ (λ _ _, True)); [|intros _; by apply xspec_stats]. apply spec_wrap.
    eapply spec_mono; [apply entry_spec|auto|]. by intros [[]|e] d _. }
  destruct (h_Typeflag hdr); try exact H. by apply spec_ret.
Qed.

Definition all_inside (l : list dirMeta) (d : Disk) : Prop := ∀ m, m ∈ l → resolves_inside d (dm_path m).
Lemma all_inside_kept l d d' : kept d d' → all_inside l d → all_inside l d'.
Proof. intros Hk H m Hm. eapply resolves_inside_kept; [exact Hk|by apply H]. Qed.
Lemma finish_dir_spec l m : m ∈ l → xspec (all_inside l) (finish_dir host m) (λ _ d, all_inside l d).
Proof.
  intros Hm. eapply (spec_bind _ _ _ _ _ _ (λ _ d, all_inside l d)).
  - apply xspec_sys. eapply spec_mono;
      [apply (spec_frame _ _ _ (all_inside l) (λ _, True)); [apply all_inside_kept|by apply (mark_spec (λ _, True))]|by intros d H|].
    intros [[]|err] d [H _]; exact H.
  - intros _. apply xspec_sys. eapply spec_mono; [apply (Chmod_spec (all_inside l)); [|apply all_inside_kept]|auto|done].
    intros d q H Hq. destruct (H m Hm) as (x & Hx & Hin). apply (namei_EvalSymlinks d d) in Hq; [|done]. congruence.
Qed.
Lemma finish_spec : xspec (λ _, True) (finish host) (λ _ _, True).
Proof.
  intros e e' r Hr Hi _. unfold finish in Hr. refine (spec_each dest ex_disk good (all_inside (ex_dirs e)) (λ _ _, True) _ _ _ _ _ _ _ Hr Hi _).
  - intros m Hm. eapply spec_mono; [apply (finish_dir_spec (ex_dirs e) m)|auto|done]. by rewrite <-(sort_stable_perm deeper (ex_dirs e)).
  - done.
  - exact (good_dirs _ Hi).
Qed.

Lemma extract_spec items : xspec (λ _, True) (do! run host dest owner items in finish host)%go (λ _ _, True).
Proof.
  eapply (spec_bind _ _ _ _ _ _ (λ _ _, True)); [|intros _; apply finish_spec].
  eapply spec_mono; [apply run_spec|auto|]. by intros [[]|err] d _.
Qed.
Lemma good_new s : sound s.1 → good (new_extractor dest s).
Proof.
  intros Hs. split; [done|cbn|by intros m Hm%elem_of_nil]. intros dir ->%elem_of_singleton. exists dest.
  split; [|by exists []; rewrite app_nil_r]. apply resolve_real; [done|apply Hs].
Qed.

(** C31: Unpacking a layer writes nowhere but under the layer's directory: whatever the archive
    holds, whatever links its entries plant, and wherever a call fails, every name outside the
    directory still has the file it had, and that file its data, its mode and its owner, as
    long as the directory was a real one none of whose files has a name outside and nothing
    else writes to the disk. *)
Theorem layer_confined {Blob} (dc : Decoders Blob) blob mediaType maxBytes s :
  sound s.1 →
  let d' := (unpackLayer dc host blob mediaType dest owner maxBytes s).1.1 in
  ∀ p, ¬ inside p →
    dk_names d' !! p = dk_names s.1 !! p ∧
    ∀ n, find s.1 p = Some n → ∃ n', find d' p = Some n' ∧ same_file n n'.
Proof.
  intros Hs. cbv zeta. enough (kept s.1 (unpackLayer dc host blob mediaType dest owner maxBytes s).1.1) as [_ Hn Hf].
  { intros p Hp. split; [by apply Hn|]. intros n (i & Hi & Hni)%bind_Some. destruct (Hf p i n Hp Hi Hni) as (n' & Hn' & Hsame).
    exists n'. split; [|done]. unfold find. by rewrite Hn, Hi. }
  assert (∀ items, kept s.1 (extract host dest owner items s).1.1) as H.
  { intros items. unfold extract. destruct ((do! run host dest owner items in finish host)%go (new_extractor dest s)) as [e r] eqn:E.
    destruct (extract_spec items _ _ _ E (good_new s Hs) I) as (_ & Hk & _). exact Hk. }
  unfold unpackLayer. repeat case_match; cbn; try reflexivity; apply H.
Qed.
End Unpack.

(** ** A layer unpacked

    A host with [/etc/passwd] and an empty layer directory; the layers below it try to leave
    the directory. *)
Module UnpackDemo.
#[local] Open Scope Z_scope.
Definition root_dir : Inode := mkInode KDir (perms 7 5 5) 0 0 (1, 1) [].
Definition passwd : Inode := mkInode (KFile "root:x:0:0") (perms 6 4 4) 0 0 (1, 1) [].
Definition disk : Disk := mkDisk
  (<[[] := 1%positive]> (<[["etc"] := 2%positive]> (<[["etc"; "passwd"] := 3%positive]> (<[["layer"] := 4%positive]> ∅))))
  (<[1%positive := root_dir]> (<[2%positive := root_dir]> (<[3%positive := passwd]> (<[4%positive := root_dir]> ∅)))) 5.
Definition dest : list string := ["layer"].
Definition host : Host := mkHost (λ _, None) (perms 0 2 2) 1000 1000 7 (λ _ d, d).
#[local] Instance host_quiet : Quiet host.
Proof. done. Qed.
Definition hdr (t : Typeflag) (name linkname : string) : Header :=
  mkHeader t name linkname (perms 6 4 4) 0 0 None (Some 42) [].
Definition unpack (items : list TarItem) : (Disk * nat) * (unpack_stats * option UnpackErr) :=
  extract host dest (Some (mkOwnership 0 0)) items (disk, 0%nat).

Lemma disk_sound : sound dest disk.
Proof.
  assert (∀ p i, dk_names disk !! p = Some i →
    (p, i) ∈ [([], 1%positive); (["etc"], 2%positive); (["etc"; "passwd"], 3%positive); (["layer"], 4%positive)]) as Hn.
  { intros p i. cbn. rewrite !lookup_insert_Some, lookup_empty. intros Hp.
    destruct_or?; destruct_and?; destruct_or?; destruct_and?; destruct_or?; destruct_and?; destruct_or?; destruct_and?; simplify_eq; set_solver. }
  split.
  - intros p q i Hp Hq H1%Hn H2%Hn. unfold inside, dest in *. destruct Hp as [k ->].
    repeat (apply elem_of_cons in H1 as [H1|H1]); repeat (apply elem_of_cons in H2 as [H2|H2]); simplify_eq; try by apply elem_of_nil in H1.
    all: try by apply elem_of_nil in H2. apply Hq. by exists [].
  - intros p i H%Hn. repeat (apply elem_of_cons in H as [H|H]); simplify_eq; try done. by apply elem_of_nil in H.
  - intros i n. cbn. rewrite !lookup_insert_Some, lookup_empty. intros H.
    destruct_or?; destruct_and?; destruct_or?; destruct_and?; destruct_or?; destruct_and?; destruct_or?; destruct_and?; simplify_eq; done.
  - intros [|[|j]]; reflexivity.
Qed.

(** An absolute name, a name with [..] and a file: all land in the layer. *)
Definition plain_layer : list TarItem :=
  [TarEntry (hdr TypeDir "./" "") "" None; TarEntry (hdr TypeDir "etc" "") "" None;
   TarEntry (hdr TypeReg "/etc/../../../etc/passwd" "") "mine" None; TarEntry (hdr TypeReg "etc/.wh.shadow" "") "" None].
Example plain_layer_unpacked :
  let '((d, _), (st, err)) := unpack plain_layer in
  err = None ∧ st_entries st = 4 ∧ st_whiteouts st = 1 ∧
  in_kind <$> find d ["layer"; "etc"; "passwd"] = Some (KFile "mine") ∧
  in_kind <$> find d ["layer"; "etc"; "shadow"] = Some (KNode S_IFCHR 0) ∧
  in_kind <$> find d ["etc"; "passwd"] = Some (KFile "root:x:0:0").
Proof. vm_compute. auto 10. Qed.

(** A file below a planted link is refused. *)
Definition planted : list TarItem :=
  [TarEntry (hdr TypeSymlink "etc" "/etc") "" None; TarEntry (hdr TypeReg "etc/cron" "") "evil" None].
Lemma layer_confined_witness :
  sound dest disk ∧
  (unpackLayer (mkDecoders unit (λ _ _, Err "") (λ _ _, Err "") (λ _ _, planted)) host () mediaTypeLayer dest None 0 (disk, 0%nat)).2.2 =
    Some (UWrap "etc/cron" (UPermanent (UText "resolves outside the layer"))) ∧
  dk_names (unpackLayer (mkDecoders unit (λ _ _, Err "") (λ _ _, Err "") (λ _ _, planted)) host () mediaTypeLayer dest None 0
    (disk, 0%nat)).1.1 !! ["etc"; "cron"] = None.
Proof.
  split; [apply disk_sound|]. split; [vm_compute; reflexivity|].
  assert (Forall plain dest) as Hp by (repeat constructor; discriminate).
  assert (dest ≠ []) as Hne by discriminate.
  assert (¬ inside dest ["etc"; "cron"]) as Hout by (intros [k [= ]]).
  destruct (layer_confined dest Hp Hne host None (mkDecoders unit (λ _ _, Err "") (λ _ _, Err "") (λ _ _, planted)) () mediaTypeLayer 0
    (disk, 0%nat) disk_sound _ Hout) as [H _].
  rewrite H. vm_compute. reflexivity.
Defined.

(** The opaque marker of a directory that an earlier entry made a link is written through the
    link: the extended attribute lands on the host's directory. *)
Example opaque_marker_escapes :
  let '((d, _), (_, err)) := unpack [TarEntry (hdr TypeSymlink "etc" "/etc") "" None; TarEntry (hdr TypeReg "etc/.wh..wh..opq" "") "" None] in
  err = None ∧ in_xattrs <$> find d ["etc"] = Some [("trusted.overlay.opaque", "y")].
Proof. vm_compute. auto. Qed.
(** A directory entry of that name is refused. *)
Example directory_entry_refused :
  (unpack [TarEntry (hdr TypeSymlink "etc" "/etc") "" None; TarEntry (hdr TypeDir "etc" "") "" None]).2.2 =
  Some (UWrap "etc" (UPermanent (UText "resolves outside the layer"))).
Proof. vm_compute. reflexivity. Qed.
(** A hard link to a link sets the time of what the link names. *)
Example hard_link_time_escapes :
  let '((d, _), (_, err)) := unpack [TarEntry (hdr TypeSymlink "a" "/etc/passwd") "" None; TarEntry (hdr TypeLink "b" "a") "" None] in
  err = None ∧ in_times <$> find disk ["etc"; "passwd"] = Some (1, 1) ∧ in_times <$> find d ["etc"; "passwd"] = Some (1, 42).
Proof. vm_compute. auto. Qed.
End UnpackDemo.
