(* ===== verification/ImageStore.v ===== *)
(** * The node's image store (agent/oci: refs.go, image.go, store.go; agent/oci/layout: store.go, layout.go)

    One layout shared by the applications of a node: an index of images, blobs under their
    digests (a manifest or a config as a file, a layer as the directory it was unpacked to) and
    one binding per namespace and source.  Every file operation may fail, as [st_fault] says by
    the number of operations done before; a directory whose removal failed may have lost part of
    its files.  The digest functions, the decoding of JSON documents, the registry and the
    unpacking of a layer are parameters; the layers of an image are fetched side by side, and
    [late] says which are still tried when another has failed. *)
From stdpp Require Import gmap strings list.
From Stdlib Require Import ZArith Ascii.
From S2P Require Import Prelude Resources Paths InodeFS Unpack.
From stdpp Require Import list strings.
From S2P Require Import Prelude Resources.
#[local] Open Scope Z_scope.

(** ** What an image may be (agent/oci/layout/bounds.go, agent/runtime/limits.go, agent/oci/image.go)

    The limits on an image: the shape its manifest declares, the digest it is pinned to, the
    bytes of a transfer and the room in the store.  [Digest.Validate] and [digest.Parse] are
    parameters; a transfer is a reader that gives its bytes in pieces of any size. *)
(** ** Manifests (github.com/opencontainers/image-spec) *)
Record Platform := mkPlatform { pf_OS : string; pf_Architecture : string; pf_Variant : string }.
Record Descriptor := mkDescriptor {
  ds_MediaType : string; ds_Digest : string; ds_Size : Z; ds_Platform : option Platform; ds_RefName : string;
}.
Record Manifest := mkManifest { mf_Config : Descriptor; mf_Layers : list Descriptor }.

Record Bounds := mkBounds { bd_MaxLayers : Z; bd_MaxImageBytes : Z; bd_MaxLayerBytes : Z }.
Inductive BoundsErr :=
| TooManyLayers (n : nat)
| MalformedDigest (d : string)
| NegativeSize (d : string)
| SizesOverflow
| TooManyBytes (declared : Z).

Section Manifest.
Context (digest_valid : string → bool).

(** The loop over the config and the layers. *)
Fixpoint declared_size (l : list Descriptor) (declared : Z) : result BoundsErr Z :=
  match l with
  | [] => Ok declared
  | d :: l =>
      if negb (digest_valid (ds_Digest d)) then Err (MalformedDigest (ds_Digest d))
      else if ds_Size d <? 0 then Err (NegativeSize (ds_Digest d))
      else let declared := wrap64 (declared + ds_Size d) in
           if declared <? 0 then Err SizesOverflow else declared_size l declared
  end.
Definition checkManifest (m : Manifest) (b : Bounds) : result BoundsErr Z :=
  if (0 <? bd_MaxLayers b) && (bd_MaxLayers b <? Z.of_nat (length (mf_Layers m))) then Err (TooManyLayers (length (mf_Layers m)))
  else match declared_size (mf_Config m :: mf_Layers m) 0 with
       | Err e => Err e
       | Ok declared =>
           if (0 <? bd_MaxImageBytes b) && (bd_MaxImageBytes b <? declared) then Err (TooManyBytes declared) else Ok declared
       end.

Definition total_size (l : list Descriptor) : Z := foldr (λ d n, ds_Size d + n) 0 l.
Definition sized (d : Descriptor) : Prop := is_int64 (ds_Size d).

Lemma total_size_nonneg l : Forall (λ d, 0 ≤ ds_Size d) l → 0 ≤ total_size l.
Proof. unfold total_size. induction 1; cbn; lia. Qed.

Lemma declared_size_ok l acc n :
  Forall sized l → 0 ≤ acc ≤ max_int64 →
  declared_size l acc = Ok n ↔
  Forall (λ d, digest_valid (ds_Digest d) = true ∧ 0 ≤ ds_Size d) l ∧ n = acc + total_size l ∧ n ≤ max_int64.
Proof.
  intros Hs. revert acc. induction Hs as [|d l Hd Hs IH]; intros acc Hacc; cbn [declared_size total_size foldr].
  - rewrite Z.add_0_r. split; [intros [= <-]; split; [constructor|lia]|]. by intros (_ & -> & _).
  - rewrite Forall_cons. destruct (digest_valid (ds_Digest d)); cbn [negb]; [|split; [done|by intros [[[? _] _] _]]].
    destruct (Z.ltb_spec (ds_Size d) 0) as [Hneg|Hpos]; [split; [done|intros [[[_ ?] _] _]; lia]|].
    fold (total_size l). destruct (Z.leb_spec (acc + ds_Size d) max_int64) as [Hfit|Hover].
    + rewrite wrap64_id by (unfold sized in *; int64). rewrite (proj2 (Z.ltb_ge _ _)) by lia. rewrite IH by lia. intuition lia.
    + rewrite wrap64_over by (unfold sized in *; int64). rewrite (proj2 (Z.ltb_lt _ _)) by (unfold sized in *; int64).
      split; [done|]. intros (([_ Hp] & Hl) & Hn & Hle). pose proof (total_size_nonneg l) as Ht.
      assert (0 ≤ total_size l) by (apply Ht; eapply Forall_impl; [done|by intros ? [_ ?]]). lia.
Qed.

(** A manifest is accepted exactly when its digests are well formed, its sizes not negative, and
    their exact sum, which is what is returned, and the number of layers within the limits. *)
Lemma checkManifest_exact m b n :
  Forall sized (mf_Config m :: mf_Layers m) →
  checkManifest m b = Ok n ↔
  (bd_MaxLayers b ≤ 0 ∨ Z.of_nat (length (mf_Layers m)) ≤ bd_MaxLayers b) ∧
  Forall (λ d, digest_valid (ds_Digest d) = true ∧ 0 ≤ ds_Size d) (mf_Config m :: mf_Layers m) ∧
  n = total_size (mf_Config m :: mf_Layers m) ∧ n ≤ max_int64 ∧ (bd_MaxImageBytes b ≤ 0 ∨ n ≤ bd_MaxImageBytes b).
Proof.
  intros Hs. unfold checkManifest.
  destruct (Z.ltb_spec 0 (bd_MaxLayers b)), (Z.ltb_spec (bd_MaxLayers b) (Z.of_nat (length (mf_Layers m)))); cbn [andb];
    try (split; [done|]; intros ([?|?] & _); lia).
  all: pose proof (λ k, declared_size_ok (mf_Config m :: mf_Layers m) 0 k Hs ltac:(int64)) as Hd; rewrite Z.add_0_l in Hd.
  all: destruct (declared_size (mf_Config m :: mf_Layers m) 0) as [k|e];
    [destruct (proj1 (Hd k) eq_refl) as (H1 & H2 & H3)|split; [done|]; intros (_ & H1 & H2 & H3 & _); by destruct (proj2 (Hd n) (conj H1 (conj H2 H3)))].
  all: destruct (Z.ltb_spec 0 (bd_MaxImageBytes b)), (Z.ltb_spec (bd_MaxImageBytes b) k); cbn [andb];
    (split; [first [done|intros [= <-]; repeat split; try done; lia]|intros (_ & _ & -> & _ & [?|?]); first [lia|by rewrite H2]]).
Qed.
End Manifest.

(** ** checkPin *)
Definition checkPin (pin resolved : string) : option error :=
  if bool_decide (pin = "") then None
  else if negb (bool_decide (resolved = pin)) then Some "refusing the substituted image"
  else None.

(** [pinnedDigest]: the digest a source pins, or "". *)
Definition pinnedDigest (digest_Parse : string → option string) (source : string) : string :=
  match GoStrings.cut "@" source with
  | None => ""
  | Some (_, after) => default "" (digest_Parse after)
  end.

(** ** boundReader *)
Inductive ReadEnd := EOF | ReadFailed (e : error).
(** What is left of a stream, and how it ends. *)
Record Source := mkSource { src_data : list ascii; src_end : ReadEnd }.
(** How the transport answers one read: at most one more byte than the number, and the end
    with the last bytes or in a read of its own. *)
Definition Answer : Type := nat * bool.
Definition source_Read (s : Source) (a : Answer) (n : nat) : Source * (list ascii * option ReadEnd) :=
  match src_data s with
  | [] => (s, ([], Some (src_end s)))
  | _ =>
      let k := Nat.min n (S a.1) in
      let rest := drop k (src_data s) in
      (mkSource rest (src_end s),
       (take k (src_data s), if a.2 && bool_decide (rest = []) then Some (src_end s) else None))
  end.

Record boundReader := mkBoundReader { br_r : Source; br_remaining : Z; br_what : string }.
Definition boundReader_Read (b : boundReader) (a : Answer) (n : nat) : boundReader * (list ascii * option ReadEnd) :=
  if br_remaining b <=? 0 then
    let '(r, (got, err)) := source_Read (br_r b) a 1 in
    (mkBoundReader r (br_remaining b) (br_what b),
     ([], if negb (bool_decide (got = [])) then Some (ReadFailed ("stream exceeds " +:+ br_what b)) else err))
  else
    let n := if br_remaining b <? Z.of_nat n then Z.to_nat (br_remaining b) else n in
    let '(r, (got, err)) := source_Read (br_r b) a n in
    (mkBoundReader r (br_remaining b - Z.of_nat (length got)) (br_what b), (got, err)).

(** Reading to the end with a buffer of [n] bytes. *)
Fixpoint read_all {R : Type} (read : R → Answer → nat → R * (list ascii * option ReadEnd)) (n : nat) (answers : list Answer) (r : R) :
    list ascii * option ReadEnd :=
  match answers with
  | [] => ([], None)
  | a :: answers =>
      let '(r, (got, err)) := read r a n in
      match err with
      | Some e => (got, Some e)
      | None => let '(rest, e) := read_all read n answers r in (got ++ rest, e)
      end
  end.
(** [bound] of a stream, read to the end. *)
Definition bound_all (s : Source) (limit : Z) (what : string) (n : nat) (answers : list Answer) : list ascii * option ReadEnd :=
  if limit <=? 0 then read_all source_Read n answers s
  else read_all boundReader_Read n answers (mkBoundReader s limit what).

(** What is read through a bound: the stream if it fits, else as much as fits and an error. *)
Definition bounded (s : Source) (limit : Z) (what : string) : list ascii * ReadEnd :=
  if limit <=? 0 then (src_data s, src_end s)
  else if Z.of_nat (length (src_data s)) <=? limit then (src_data s, src_end s)
  else (take (Z.to_nat limit) (src_data s), ReadFailed ("stream exceeds " +:+ what)).

Lemma source_read_all n answers s :
  (0 < n)%nat → (length (src_data s) < length answers)%nat → read_all source_Read n answers s = (src_data s, Some (src_end s)).
Proof.
  intros Hn. revert s. induction answers as [|a answers IH]; intros [data e] Hl; cbn in Hl; [lia|]. cbn [read_all].
  unfold source_Read at 1. destruct data as [|c data]; cbn [src_data src_end]; [done|].
  set (k := Nat.min n (S a.1)). assert (1 ≤ k)%nat by (unfold k; lia).
  destruct (a.2 && bool_decide (drop k (c :: data) = [])) eqn:Hb.
  - apply andb_true_iff in Hb as [_ Hb%bool_decide_eq_true]. f_equal. rewrite <-(take_drop k (c :: data)) at 2. by rewrite Hb, app_nil_r.
  - rewrite IH by (cbn [src_data]; rewrite length_drop; cbn in *; lia). cbn [src_data src_end]. by rewrite take_drop.
Qed.

Lemma boundReader_read_all n answers s limit what :
  (0 < n)%nat → (length (src_data s) < length answers)%nat → 0 ≤ limit →
  read_all boundReader_Read n answers (mkBoundReader s limit what) =
  if Z.of_nat (length (src_data s)) <=? limit then (src_data s, Some (src_end s))
  else (take (Z.to_nat limit) (src_data s), Some (ReadFailed ("stream exceeds " +:+ what))).
Proof.
  intros Hn. revert s limit. induction answers as [|a answers IH]; intros [data e] limit Hl Hlim; cbn in Hl; [lia|]. cbn [read_all].
  unfold boundReader_Read at 1. cbn [br_remaining br_r br_what src_data src_end]. destruct (Z.leb_spec limit 0) as [H0|H0].
  - assert (limit = 0) as -> by lia. unfold source_Read. cbn [src_data src_end]. destruct data as [|c data]; [done|].
    rewrite Nat.min_l by lia. cbn. done.
  - set (m := if limit <? Z.of_nat n then Z.to_nat limit else n).
    assert ((1 ≤ m)%nat ∧ Z.of_nat m ≤ limit) as Hm by (unfold m; destruct (Z.ltb_spec limit (Z.of_nat n)); lia).
    unfold source_Read. cbn [src_data src_end]. destruct data as [|c data]; [by rewrite (proj2 (Z.leb_le _ _)) by (cbn; lia)|].
    set (k := Nat.min m (S a.1)). set (l := c :: data). assert (1 ≤ k)%nat by (unfold k; lia).
    destruct (a.2 && bool_decide (drop k l = [])) eqn:Hb.
    + apply andb_true_iff in Hb as [_ Hb%bool_decide_eq_true]. pose proof (f_equal length Hb) as Hd. rewrite length_drop in Hd. cbn in Hd.
      rewrite (proj2 (Z.leb_le _ _)) by (unfold l, k in *; cbn in *; lia). f_equal.
      rewrite <-(take_drop k l) at 2. by rewrite Hb, app_nil_r.
    + rewrite IH by (cbn [src_data]; rewrite ?length_drop, ?length_take; unfold l, k in *; cbn in *; lia). cbn [src_data src_end].
      rewrite length_drop, length_take. destruct (decide (k ≤ length l)%nat) as [Hk|Hk].
      * rewrite Nat.min_l by done.
        destruct (Z.leb_spec (Z.of_nat (length l - k)) (limit - Z.of_nat k)), (Z.leb_spec (Z.of_nat (length l)) limit); try lia;
          cbn; [by rewrite take_drop|]. f_equal.
        replace (Z.to_nat limit) with (k + Z.to_nat (limit - Z.of_nat k))%nat by lia. by rewrite <-take_take_drop.
      * rewrite Nat.min_r by lia. replace (length l - k)%nat with 0%nat by lia.
        rewrite !(proj2 (Z.leb_le _ _)) by (unfold k in *; lia). by rewrite take_drop.
Qed.

(** However the transport cuts the stream, reading it through the bound gives what [bounded]
    says, within one more read than there are bytes. *)
Lemma bound_exact s limit what n answers :
  (0 < n)%nat → (length (src_data s) < length answers)%nat →
  bound_all s limit what n answers = ((bounded s limit what).1, Some (bounded s limit what).2).
Proof.
  intros Hn Ha. unfold bound_all, bounded. destruct (Z.leb_spec limit 0).
  - by apply source_read_all.
  - rewrite boundReader_read_all by (done || lia). by destruct (_ <=? _).
Qed.

(** ** ImageLimits and the room in the store *)
Section Limits.
Context {HQ : Quantity}.
Definition DefaultMaxLayers : Z := 128.
Definition DefaultMaxImageBytes : Z := Z.shiftl 8 30.
Definition DefaultMaxLayerBytes : Z := Z.shiftl 16 30.
Record ImageLimits := mkImageLimits { il_MaxLayers : Z; il_MaxImageSize : Qty; il_MaxLayerSize : Qty; il_StoreBudget : Qty }.
Definition EffectiveMaxLayers (l : ImageLimits) : Z := if 0 <? il_MaxLayers l then il_MaxLayers l else DefaultMaxLayers.
Definition EffectiveMaxImageBytes (l : ImageLimits) : Z :=
  let v := q_Value (il_MaxImageSize l) in if 0 <? v then v else DefaultMaxImageBytes.
Definition EffectiveMaxLayerBytes (l : ImageLimits) : Z :=
  let v := q_Value (il_MaxLayerSize l) in if 0 <? v then v else DefaultMaxLayerBytes.
Definition image_bounds (l : ImageLimits) : Bounds :=
  mkBounds (EffectiveMaxLayers l) (EffectiveMaxImageBytes l) (EffectiveMaxLayerBytes l).

(** [usage] is what [storeUsage] measured, [avail] the free bytes of the file system. *)
Definition checkStoreBudget (usage avail : result error Z) (declared : Z) (l : ImageLimits) : option error :=
  let budget := q_Value (il_StoreBudget l) in
  let over := if 0 <? budget then
                match usage with
                | Err e => Some ("measure image store: " +:+ e)
                | Ok used => if budget <? wrap64 (used + declared) then Some "over its budget" else None
                end
              else None in
  match over with
  | Some e => Some e
  | None => match avail with
            | Err e => Some ("statfs: " +:+ e)
            | Ok avail => if avail <? declared then Some "not enough free" else None
            end
  end.
End Limits.

(** ** The layout *)
(** A layer directory is known by the bytes it was unpacked from; it is torn when a removal
    failed half-way. *)
Inductive Blob := BData (raw : string) | BLayer (raw : string) (torn : bool).
Record imageRef := mkImageRef { ir_Namespace : string; ir_Source : string; ir_Digest : string }.
Record Layout := mkLayout {
  ly_index : result error (list Descriptor);
  ly_blobs : gmap string Blob;
  ly_refs : gmap string (option imageRef);
}.
Record ImageConfig := mkImageConfig {
  ic_Entrypoint : list string; ic_Cmd : list string; ic_Env : list string; ic_User : string; ic_WorkingDir : string;
}.
Record ImageSpec := mkImageSpec { is_LayerDirs : list string; is_Config : ImageConfig }.

Inductive StoreErr := SNotExist | SError (e : error) | SBounds (e : BoundsErr) | SUnpack (e : UnpackErr).

(** What is not under this program's control. *)
Record OciLib := mkOciLib {
  oc_FromBytes : string → string;
  oc_Validate : string → bool;
  oc_Verify : string → string → bool;
  oc_Parse : string → option string;
  oc_sum : string → string;
  oc_index : string → result error (list Descriptor);
  oc_manifest : string → result error Manifest;
  oc_config : string → result error ImageConfig;
  oc_unpack : list ascii * ReadEnd → string → result UnpackErr unpack_stats;
}.
Record Registry := mkRegistry {
  rg_manifest : string → result error (Source * string);
  rg_blob : string → nat → result error Source;
}.

Definition Algorithm (d : string) : string := match GoStrings.cut ":" d with Some (a, _) => a | None => "" end.
Definition Hex (d : string) : string := match GoStrings.cut ":" d with Some (_, h) => h | None => "" end.
Definition text (l : list ascii) : string := String.string_of_list_ascii l.

Section Store.
Context (lib : OciLib) (st_fault : nat → option error).
Definition St (A : Type) : Type := Act (Layout * nat) StoreErr A.

(** One file operation. *)
Definition file_op {A} (torn : Layout → Layout) (f : Layout → Layout * result StoreErr A) : St A := λ s,
  match st_fault s.2 with
  | Some e => ((torn s.1, S s.2), Err (SError e))
  | None => let '(l, r) := f s.1 in ((l, S s.2), r)
  end.
Definition read_op {A} (f : Layout → result StoreErr A) : St A := file_op id (λ l, (l, f l)).
Definition write_op (f : Layout → Layout) : St unit := file_op id (λ l, (f l, Ok tt)).
Definition with_index (i : list Descriptor) (l : Layout) : Layout := mkLayout (Ok i) (ly_blobs l) (ly_refs l).
Definition with_blobs (b : gmap string Blob) (l : Layout) : Layout := mkLayout (ly_index l) b (ly_refs l).
Definition with_refs (r : gmap string (option imageRef)) (l : Layout) : Layout := mkLayout (ly_index l) (ly_blobs l) r.

(** ** layout/store.go *)
Definition store_index : St (list Descriptor) :=
  read_op (λ l, match ly_index l with Ok i => Ok i | Err e => Err (SError e) end).
Definition writeIndex (i : list Descriptor) : St unit := write_op (with_index i).

Definition blobJSON {A} (d : string) (decode : string → result error A) : St A :=
  read_op (λ l, match ly_blobs l !! d with
                | None => Err SNotExist
                | Some (BLayer _ _) => Err (SError "is a directory")
                | Some (BData raw) => match decode raw with Ok a => Ok a | Err e => Err (SError e) end
                end).

Record Image := mkImage { im_Name : string; im_Descriptor : Descriptor; im_Manifest : Manifest; im_Config : ImageConfig; im_LayerDirs : list string }.

(** The first occurrence of each layer. *)
Fixpoint distinct_from (seen : list string) (l : list Descriptor) : list Descriptor :=
  match l with
  | [] => []
  | d :: l => if bool_decide (ds_Digest d ∈ seen) then distinct_from seen l
              else d :: distinct_from (ds_Digest d :: seen) l
  end.
Definition distinct (l : list Descriptor) : list Descriptor := distinct_from [] l.
(** [blobPath], below the layout. *)
Definition blobPath (d : string) : string := "blobs/" +:+ Algorithm d +:+ "/" +:+ Hex d.

Definition image (name : string) (desc : Descriptor) : St Image :=
  (let! manifest := blobJSON (ds_Digest desc) (oc_manifest lib) in
   let! config := blobJSON (ds_Digest (mf_Config manifest)) (oc_config lib) in
   act_ret (mkImage name desc manifest config (blobPath ∘ ds_Digest <$> distinct (mf_Layers manifest))))%go.

Definition Resolve (name : string) : St Image :=
  (let! index := store_index in
   match List.find (λ d, bool_decide (ds_RefName d = name)) index with
   | Some desc => image name desc
   | None => act_fail SNotExist
   end)%go.

Fixpoint images (l : list Descriptor) : St (list Image) :=
  match l with
  | [] => act_ret []
  | d :: l =>
      let! img := image (ds_RefName d) d in
      let! rest := images l in
      act_ret (img :: rest)
  end%go.
Definition store_List : St (list Image) := (let! index := store_index in images index)%go.

Definition store_Remove (name : string) : St unit :=
  (let! index := store_index in
   let kept := List.filter (λ d, negb (bool_decide (ds_RefName d = name))) index in
   if bool_decide (length kept = length index) then act_fail SNotExist else writeIndex kept)%go.

(** The digests an image reaches, by their hex part. *)
Definition reached (img : Image) : list string :=
  Hex (ds_Digest (im_Descriptor img)) :: Hex (ds_Digest (mf_Config (im_Manifest img))) :: (Hex ∘ ds_Digest <$> mf_Layers (im_Manifest img)).
Definition tear (d : string) (l : Layout) : Layout :=
  match ly_blobs l !! d with
  | Some (BLayer raw _) => with_blobs (<[d := BLayer raw true]> (ly_blobs l)) l
  | _ => l
  end.
Definition RemoveBlob (d : string) : St unit := file_op (tear d) (λ l, (with_blobs (delete d (ly_blobs l)) l, Ok tt)).
(** The names under blobs/sha256. *)
Definition sha256_blobs (l : Layout) : list string :=
  List.filter (λ d, bool_decide (Algorithm d = "sha256")) (map_to_list (ly_blobs l)).*1.
Definition GC : St unit :=
  (let! index := store_index in
   let! imgs := images index in
   let reachable := imgs ≫= reached in
   let! entries := read_op (λ l, Ok (sha256_blobs l)) in
   act_each entries (λ d, if bool_decide (Hex d ∈ reachable) then act_ret tt else RemoveBlob d))%go.

(** ** refs.go *)
Definition storeKey (namespace source : string) : string := oc_sum lib (namespace +:+ String "000" source).
Definition writeRef (namespace source dgst : string) : St unit :=
  (do! read_op (λ _, Ok ()) in (* the directory *)
   do! read_op (λ _, Ok ()) in (* the temporary file, written and closed *)
   write_op (λ l, with_refs (<[storeKey namespace source := Some (mkImageRef namespace source dgst)]> (ly_refs l)) l))%go.
Definition checked_ref (r : option imageRef) : result StoreErr imageRef :=
  match r with
  | None => Err (SError "corrupt image ref")
  | Some r => if oc_Validate lib (ir_Digest r) then Ok r else Err (SError "malformed digest")
  end.
Definition readRef (namespace source : string) : St imageRef :=
  read_op (λ l, match ly_refs l !! storeKey namespace source with None => Err SNotExist | Some r => checked_ref r end).

Record storedRef := mkStoredRef { sr_ref : imageRef; sr_file : string }.
Definition sr_valid (r : storedRef) : bool := bool_decide (sr_file r = storeKey (ir_Namespace (sr_ref r)) (ir_Source (sr_ref r))).
Fixpoint read_refs (l : list (string * option imageRef)) : result StoreErr (list storedRef) :=
  match l with
  | [] => Ok []
  | (f, r) :: l =>
      match checked_ref r with
      | Err e => Err e
      | Ok r => match read_refs l with Ok rs => Ok (mkStoredRef r f :: rs) | Err e => Err e end
      end
  end.
Definition listRefs : St (list storedRef) := read_op (λ l, read_refs (map_to_list (ly_refs l))).
Definition RemoveRef (file : string) : St unit :=
  file_op id (λ l, match ly_refs l !! file with None => (l, Err SNotExist) | Some _ => (with_refs (delete file (ly_refs l)) l, Ok tt) end).

(** ** image.go: removal *)
Definition reclaim : St unit := GC.

Definition removeImage (namespace source : string) : St unit :=
  (let! binding := readRef namespace source in
   do! RemoveRef (storeKey namespace source) in
   let! refs := listRefs in
   if existsb (λ r, bool_decide (ir_Digest (sr_ref r) = ir_Digest binding)) refs then act_ret tt
   else
     let! r := act_try (store_Remove (ir_Digest binding)) in
     match r with
     | Ok _ | Err SNotExist => reclaim
     | Err e => act_fail e
     end)%go.

(** A loop that goes on after an error: what it removed, and the errors. *)
Fixpoint best_effort {A} (l : list A) (f : A → St bool) : St (bool * list StoreErr) :=
  match l with
  | [] => act_ret (false, [])
  | a :: l =>
      let! r := act_try (f a) in
      let! rest := best_effort l f in
      act_ret (match r with
               | Ok b => (b || rest.1, rest.2)
               | Err e => (rest.1, e :: rest.2)
               end)
  end%go.
(** The bindings dropped, then the entries no binding names; whether something went wrong. *)
Definition purge_ref (keep : list string) (r : storedRef) : St bool :=
  if bool_decide (ir_Source (sr_ref r) ∈ keep) && sr_valid r then act_ret false
  else (do! RemoveRef (sr_file r) in act_ret true)%go.
Definition purge_image (kept : list string) (img : Image) : St bool :=
  if bool_decide (im_Name img = "") || bool_decide (im_Name img ∈ kept) then act_ret false
  else (do! store_Remove (im_Name img) in act_ret true)%go.
Definition purge (keepSources : list string) : St (list StoreErr) :=
  (do! read_op (λ _, Ok ()) in (* index.json is there *)
   let! refs := listRefs in
   let! dropped := best_effort refs (purge_ref keepSources) in
   let! survivors := listRefs in
   let! imgs := store_List in
   let! swept := best_effort imgs (purge_image ((λ r, ir_Digest (sr_ref r)) <$> survivors)) in
   if swept.1 then
     let! e := act_try reclaim in
     act_ret (dropped.2 ++ swept.2 ++ match e with Ok _ => [] | Err e => [e] end)
   else act_ret (dropped.2 ++ swept.2))%go.

(** ** store.go *)
Definition Spec (namespace source : string) : St ImageSpec :=
  (let! binding := readRef namespace source in
   let! img := Resolve (ir_Digest binding) in
   act_ret (mkImageSpec (im_LayerDirs img) (im_Config img)))%go.
End Store.

(** ** registry.go: references *)
Record reference := mkReference { rf_host : string; rf_repo : string; rf_tag : string; rf_dgst : string; rf_name : string; rf_scheme : string }.
Definition rf_target (r : reference) : string := if bool_decide (rf_dgst r = "") then rf_tag r else rf_dgst r.
Definition dockerHub : string := "docker.io".
Definition dockerHubAPI : string := "registry-1.docker.io".

(** The text around the last occurrence of a byte. *)
Fixpoint last_cut (sep : ascii) (s : string) : option (string * string) :=
  match s with
  | EmptyString => None
  | String c s' =>
      match last_cut sep s' with
      | Some (a, b) => Some (String c a, b)
      | None => if decide (c = sep) then Some (EmptyString, s') else None
      end
  end.
Definition contains_byte (c : ascii) (s : string) : bool := match GoStrings.cut c s with Some _ => true | None => false end.

Definition parseReference (lib : OciLib) (s : string) (insecure : bool) : result error reference :=
  let scheme := if insecure then "http" else "https" in
  match (match GoStrings.cut "@" s with
         | Some (repo, d) => match oc_Parse lib d with Some p => Ok (repo, p) | None => Err "invalid digest" end
         | None => Ok (s, "")
         end) with
  | Err e => Err e
  | Ok (rest, dgst) =>
      let '(rest, tag) := match last_cut ":" rest with
                          | Some (a, b) => if contains_byte "/" b then (rest, "") else (a, b)
                          | None => (rest, "")
                          end in
      if bool_decide (rest = "") then Err "no repository"
      else
        let '(host, rest) := match GoStrings.cut "/" rest with
                             | Some (first, remainder) =>
                                 if contains_byte "." first || contains_byte ":" first || bool_decide (first = "localhost")
                                 then (first, remainder) else (dockerHub, rest)
                             | None => (dockerHub, rest)
                             end in
        let tag := if bool_decide (tag = "") && bool_decide (dgst = "") then "latest" else tag in
        let name := if bool_decide (dgst = "") then rest +:+ ":" +:+ tag else rest +:+ "@" +:+ dgst in
        Ok (if bool_decide (host = dockerHub)
            then mkReference dockerHubAPI (if contains_byte "/" rest then rest else "library/" +:+ rest) tag dgst name scheme
            else mkReference host rest tag dgst name scheme)
  end.

(** ** layout.go *)
Section Pull.
Context (lib : OciLib) (st_fault : nat → option error).
(** The registry; whether a layer is still tried once another has failed; the end of the
    caller's context before an attempt on a layer. *)
Context (rg : Registry) (late : string → bool) (cancelled : string → nat → option error).
Local Abbreviation write_op := (write_op st_fault).
Local Abbreviation read_op := (read_op st_fault).

Definition lift {A} (r : result StoreErr A) : St A := match r with Ok a => act_ret a | Err e => act_fail e end.

Definition MaxManifestBytes : Z := Z.shiftl 4 20.
Definition ReadAll (x : list ascii * ReadEnd) : result StoreErr string :=
  match x.2 with EOF => Ok (text x.1) | ReadFailed e => Err (SError e) end.

Definition client_manifest (target : string) : result StoreErr (string * string * string) :=
  match rg_manifest rg target with
  | Err e => Err (SError e)
  | Ok (body, contentType) =>
      match ReadAll (bounded body MaxManifestBytes "the manifest size ceiling") with
      | Err e => Err e
      | Ok raw =>
          let d := oc_FromBytes lib raw in
          let mediaType := match GoStrings.cut ";" contentType with Some (a, _) => GoStrings.TrimSpace a | None => contentType end in
          match oc_Parse lib target with
          | Some want => if bool_decide (want = d) then Ok (raw, mediaType, d) else Err (SError "registry served another manifest")
          | None => Ok (raw, mediaType, d)
          end
      end
  end.

Definition mediaTypeIndex : string := "application/vnd.oci.image.index.v1+json".
Definition mediaTypeDockerIndex : string := "application/vnd.docker.distribution.manifest.list.v2+json".

Definition os_arch (d : Descriptor) (wantOS wantArch : string) : option Platform :=
  match ds_Platform d with
  | Some p => if bool_decide (pf_OS p = wantOS) && bool_decide (pf_Architecture p = wantArch) then Some p else None
  | None => None
  end.
Fixpoint select_from (l : list Descriptor) (wantOS wantArch wantVariant : string) (fallback : option Descriptor) : option Descriptor :=
  match l with
  | [] => fallback
  | d :: l =>
      match os_arch d wantOS wantArch with
      | None => select_from l wantOS wantArch wantVariant fallback
      | Some p => if bool_decide (pf_Variant p = wantVariant) then Some d
                  else select_from l wantOS wantArch wantVariant (match fallback with None => Some d | Some f => Some f end)
      end
  end.
Definition cut_or (c : ascii) (s : string) : string * string := match GoStrings.cut c s with Some x => x | None => (s, "") end.
Definition selectPlatform (raw platform : string) : result StoreErr Descriptor :=
  match oc_index lib raw with
  | Err e => Err (SError e)
  | Ok manifests =>
      let '(wantOS, rest) := cut_or "/" platform in
      let '(wantArch, wantVariant) := cut_or "/" rest in
      match select_from manifests wantOS wantArch wantVariant None with
      | Some d => Ok d
      | None => Err (SError "no manifest for the platform")
      end
  end.

Definition fetchBlob (d : string) : result StoreErr string :=
  match rg_blob rg d 0 with
  | Err e => Err (SError e)
  | Ok body =>
      match ReadAll (bounded body MaxManifestBytes "the metadata size ceiling") with
      | Err e => Err e
      | Ok raw => if bool_decide (oc_FromBytes lib raw = d) then Ok raw else Err (SError "digest mismatch")
      end
  end.

Definition writeBlob (d raw : string) : St unit :=
  (let! there := read_op (λ l, Ok (ly_blobs l !! d)) in
   match there with
   | Some _ => act_ret tt
   | None => write_op (λ l, with_blobs (<[d := BData raw]> (ly_blobs l)) l)
   end)%go.

(** One attempt at a layer: the temporary directory is not part of the layout. *)
Definition fetchAndUnpack (layer : Descriptor) (attempt : nat) : St unit :=
  match rg_blob rg (ds_Digest layer) attempt with
  | Err e => act_fail (SError e)
  | Ok body =>
      let stream := bounded body (ds_Size layer) "its declared size" in
      match oc_unpack lib stream (ds_MediaType layer) with
      | Err e => act_fail (SUnpack e)
      | Ok _ =>
          match ReadAll stream with
          | Err e => act_fail e
          | Ok raw =>
              if negb (oc_Verify lib (ds_Digest layer) raw) then act_fail (SError "digest mismatch: the registry served different bytes")
              else file_op st_fault id (λ l, match ly_blobs l !! ds_Digest layer with
                                             | None => (with_blobs (<[ds_Digest layer := BLayer raw false]> (ly_blobs l)) l, Ok tt)
                                             | Some (BLayer _ _) => (l, Ok tt)
                                             | Some (BData _) => (l, Err (SError "file exists"))
                                             end)
          end
      end
  end.

Definition store_permanent (e : StoreErr) : bool := match e with SUnpack e => isPermanent e | _ => false end.
(** [more] attempts are allowed after this one. *)
Fixpoint unpack_attempts (layer : Descriptor) (more attempt : nat) : St unit := λ s,
  match fetchAndUnpack layer attempt s with
  | (s, Ok _) => (s, Ok tt)
  | (s, Err e) =>
      match cancelled (ds_Digest layer) attempt with
      | Some c => (s, Err (SError c))
      | None =>
          if store_permanent e then (s, Err e)
          else match more with
               | O => (s, Err e)
               | S more => unpack_attempts layer more (S attempt) s
               end
      end
  end.
Definition unpackOne (retries : nat) (layer : Descriptor) : St unit :=
  (let! there := read_op (λ l, Ok (ly_blobs l !! ds_Digest layer)) in
   match there with
   | Some (BLayer _ _) => act_ret tt
   | Some (BData _) => act_fail (SError "already present as a file")
   | None => unpack_attempts layer retries 0
   end)%go.

Fixpoint unpack_each (retries : nat) (l : list Descriptor) (first : option StoreErr) : St unit :=
  match l with
  | [] => match first with None => act_ret tt | Some e => act_fail e end
  | d :: l =>
      if bool_decide (first ≠ None) && negb (late (ds_Digest d)) then unpack_each retries l first
      else
        let! r := act_try (unpackOne retries d) in
        unpack_each retries l (match first, r with None, Err e => Some e | _, _ => first end)
  end%go.
Definition unpackLayers (retries : nat) (layers : list Descriptor) : St unit := unpack_each retries (distinct layers) None.

Fixpoint replace_entry (name : string) (desc : Descriptor) (l : list Descriptor) : list Descriptor :=
  match l with
  | [] => [desc]
  | d :: l => if bool_decide (ds_RefName d = name) then desc :: l else d :: replace_entry name desc l
  end.
Definition updateIndex (desc : Descriptor) : St unit :=
  (let! index := store_index st_fault in writeIndex st_fault (replace_entry (ds_RefName desc) desc index))%go.

Record Options := mkOptions {
  op_Platform : string; op_NameByDigest : bool; op_Name : string; op_Pin : string; op_Bounds : Bounds; op_Retries : nat;
  op_Approve : Manifest → Z → option error;
}.
(** [copyImage] up to the first write: the manifest to store, its media type and digest. *)
Definition copy_plan (ref : reference) (opts : Options) : result StoreErr (string * string * string * Manifest) :=
  match client_manifest (rf_target ref) with
  | Err e => Err e
  | Ok (raw0, mt0, dgst0) =>
      match checkPin (op_Pin opts) dgst0 with
      | Some e => Err (SError e)
      | None =>
          match (if bool_decide (mt0 = mediaTypeIndex) || bool_decide (mt0 = mediaTypeDockerIndex) then
                   match selectPlatform raw0 (op_Platform opts) with Err e => Err e | Ok desc => client_manifest (ds_Digest desc) end
                 else Ok (raw0, mt0, dgst0)) with
          | Err e => Err e
          | Ok (raw, mt, dgst) =>
              match oc_manifest lib raw with
              | Err e => Err (SError e)
              | Ok manifest =>
                  if bool_decide (mf_Layers manifest = []) then Err (SError "manifest has no layers")
                  else match checkManifest (oc_Validate lib) manifest (op_Bounds opts) with
                       | Err e => Err (SBounds e)
                       | Ok declared => match op_Approve opts manifest declared with
                                        | Some e => Err (SError e)
                                        | None => Ok (raw, mt, dgst, manifest)
                                        end
                       end
              end
          end
      end
  end.
Definition copyImage (ref : reference) (opts : Options) : St Descriptor :=
  (let! plan := lift (copy_plan ref opts) in
   let '(raw, mt, dgst, manifest) := plan in
   let name := if op_NameByDigest opts then dgst else op_Name opts in
   do! read_op (λ _, Ok ()) in (* prepareLayout *)
   let! config := lift (fetchBlob (ds_Digest (mf_Config manifest))) in
   do! writeBlob (ds_Digest (mf_Config manifest)) config in
   do! unpackLayers (op_Retries opts) (mf_Layers manifest) in
   do! writeBlob dgst raw in
   let '(os, arch) := cut_or "/" (op_Platform opts) in
   let desc := mkDescriptor mt dgst (Z.of_nat (String.length raw)) (Some (mkPlatform os arch "")) name in
   do! updateIndex desc in
   act_ret desc)%go.

(** ** image.go: pull *)
Context {HQ : Quantity}.
Definition DefaultRetries : nat := 3.
Definition pull_options (platform : string) (usage avail : result error Z) (source : string) (limits : ImageLimits) : Options :=
  mkOptions platform true "" (pinnedDigest (oc_Parse lib) source) (image_bounds limits) DefaultRetries
    (λ _ declared, checkStoreBudget usage avail declared limits).
Definition pull (platform : string) (usage avail : result error Z) (namespace source : string) (limits : ImageLimits) : St unit :=
  (do! read_op (λ _, Ok ()) in (* the lock *)
   let! ref := lift (match parseReference lib source false with Ok r => Ok r | Err e => Err (SError e) end) in
   let! desc := copyImage ref (pull_options platform usage avail source limits) in
   let! img := image lib st_fault (ds_RefName desc) desc in
   writeRef lib st_fault namespace source (ds_Digest (im_Descriptor img)))%go.
End Pull.
