(* ===== verification/ImageTheorems.v ===== *)
(** * Images stay where their applications find them

    Pulls, removals and purges of any tenants, with any file operation failing, keep every
    binding of the store resolvable and every blob the bytes its digest names, layers torn by a
    failed removal apart ([bindings_never_dangle]), and keep another tenant's image and its
    layers as they are ([tenants_keep_their_images]).  Where two byte strings of one SHA-256
    digest would break this, the theorems say so as a case of their own.

    The proofs go through [held], what the store keeps for an image: no operation but dropping
    its own entry takes it away, because a blob is removed only when no image of the index
    reaches it. *)
From stdpp Require Import gmap strings list.
From Stdlib Require Import ZArith Ascii.
From S2P Require Import Prelude Resources Paths InodeFS Unpack ImageStore.
#[local] Open Scope Z_scope.

Section Images.
Context (lib : OciLib) (st_fault : nat → option error).
Local Abbreviation St := (Act (Layout * nat) StoreErr).

(** ** What the store keeps for an image *)
(** The entry [desc] of the image named [name], its manifest and its config; the layers are
    there, as they are in [B]. *)
Record held (l : Layout) (name : string) (desc : Descriptor) (m : Manifest) (c : ImageConfig) (B : gmap string Blob) : Prop := mkHeld {
  held_index : ∃ idx, ly_index l = Ok idx ∧ List.find (λ d, bool_decide (ds_RefName d = name)) idx = Some desc;
  held_manifest : ∃ raw, ly_blobs l !! ds_Digest desc = Some (BData raw) ∧ oc_manifest lib raw = Ok m;
  held_config : ∃ raw, ly_blobs l !! ds_Digest (mf_Config m) = Some (BData raw) ∧ oc_config lib raw = Ok c;
  held_layers : ∀ d, d ∈ mf_Layers m → ∃ raw t,
    B !! ds_Digest d = Some (BLayer raw t) ∧ ly_blobs l !! ds_Digest d = Some (BLayer raw t);
}.
(** The digests an image is made of. *)
Definition parts (desc : Descriptor) (m : Manifest) : list string :=
  ds_Digest desc :: ds_Digest (mf_Config m) :: (ds_Digest <$> mf_Layers m).

(** These blobs stay as they are. *)
Definition blobs_kept (ds : list string) (l l' : Layout) : Prop :=
  ∀ d b, d ∈ ds → ly_blobs l !! d = Some b → ly_blobs l' !! d = Some b.

Lemma held_kept l l' name desc m c B :
  ly_index l' = ly_index l → blobs_kept (parts desc m) l l' → held l name desc m c B → held l' name desc m c B.
Proof.
  intros Hi Hb [H1 (raw & H2 & H2') (craw & H3 & H3') H4]. split; [by rewrite Hi| | |].
  - exists raw. split; [|done]. apply Hb; [left|done].
  - exists craw. split; [|done]. apply Hb; [right; left|done].
  - intros d Hd. destruct (H4 d Hd) as (lr & t & HB & Hl). exists lr, t. split; [done|]. apply Hb; [|done].
    right. right. by apply list_elem_of_fmap_2.
Qed.
Lemma blobs_kept_add ds l d b : ly_blobs l !! d = None → blobs_kept ds l (with_blobs (<[d := b]> (ly_blobs l)) l).
Proof. intros Hn x y _ Hx. cbn. rewrite lookup_insert_ne; [done|]. intros ->. congruence. Qed.
Lemma held_blobs l l' name desc m c B :
  (∃ idx, ly_index l' = Ok idx ∧ List.find (λ d, bool_decide (ds_RefName d = name)) idx = Some desc) →
  ly_blobs l' = ly_blobs l → held l name desc m c B → held l' name desc m c B.
Proof. intros Hi Hb [H1 H2 H3 H4]. split; [done|by rewrite Hb..]. Qed.

(** ** Triples on the layout *)
Definition on {A} (P : Layout → Prop) (m : St A) (Q : result StoreErr A → Layout → Prop) : Prop :=
  hoare (λ s, P s.1) m (λ r s, Q r s.1).
Lemma on_op {A} (P : Layout → Prop) torn f (Q : result StoreErr A → Layout → Prop) :
  (∀ l e, P l → Q (Err (SError e)) (torn l)) → (∀ l, P l → Q (f l).2 (f l).1) → on P (file_op st_fault torn f) Q.
Proof.
  intros He Hf [l n] s' r. unfold file_op. cbn. destruct (st_fault n) as [e|].
  - intros [= <- <-] Hp. cbn. auto.
  - destruct (f l) as [l' r'] eqn:E. intros [= <- <-] Hp. cbn. specialize (Hf l Hp). by rewrite E in Hf.
Qed.
(** A read. *)
Lemma on_read {A} (P : Layout → Prop) (f : Layout → result StoreErr A) :
  on P (read_op st_fault f) (λ r l, P l ∧ ∀ a, r = Ok a → f l = Ok a).
Proof. apply on_op; [done|]. intros l Hp. cbn. split; [done|]. by intros a ->. Qed.
Lemma on_lift {A} (P : Layout → Prop) (r : result StoreErr A) : on P (lift r) (λ r' l, P l ∧ r' = r).
Proof. destruct r; [by apply hoare_ret|by apply hoare_fail]. Qed.
Lemma on_mono {A} (P P' : Layout → Prop) (m : St A) (Q Q' : result StoreErr A → Layout → Prop) :
  on P' m Q' → (∀ l, P l → P' l) → (∀ r l, Q' r l → Q r l) → on P m Q.
Proof. intros H H1 H2. eapply hoare_mono; [exact H|intros s; apply H1|intros r s; apply H2]. Qed.
Lemma on_bind {A B} (P : Layout → Prop) (m : St A) (k : A → St B) (M : A → Layout → Prop) (Q : result StoreErr B → Layout → Prop) :
  on P m (λ r l, match r with Ok a => M a l | Err e => Q (Err e) l end) → (∀ a, on (M a) (k a) Q) → on P (act_bind m k) Q.
Proof. intros H1 H2. eapply hoare_bind; [exact H1|done]. Qed.

Lemma on_pure {A} (φ : Prop) (P : Layout → Prop) (m : St A) (Q : result StoreErr A → Layout → Prop) :
  (∀ l, P l → φ) → (φ → on P m Q) → on P m Q.
Proof. intros H1 H2 s s' r Hr Hp. by apply (H2 (H1 _ Hp) _ _ _ Hr). Qed.
Lemma on_try {A} (P : Layout → Prop) (m : St A) (Q : result StoreErr (result StoreErr A) → Layout → Prop) :
  on P m (λ r, Q (Ok r)) → on P (act_try m) Q.
Proof. intros H. by apply hoare_try. Qed.

(** An operation that keeps [P] whatever happens. *)
Definition stable {A} (P : Layout → Prop) (m : St A) : Prop := on P m (λ _, P).
Lemma stable_ret {A} P (a : A) : stable P (act_ret a).
Proof. by apply hoare_ret. Qed.
Lemma stable_fail {A} P e : stable P (act_fail (A := A) e).
Proof. by apply hoare_fail. Qed.
Lemma stable_bind {A B} P (m : St A) (k : A → St B) : stable P m → (∀ a, stable P (k a)) → stable P (act_bind m k).
Proof. intros Hm Hk. apply (on_bind _ _ _ (λ _, P)); [|done]. apply (on_mono P P _ _ (λ _, P)); [exact Hm|done|]. by intros []. Qed.
Lemma stable_try {A} P (m : St A) : stable P m → stable P (act_try m).
Proof. intros H. by apply hoare_try. Qed.
Lemma stable_read {A} P (f : Layout → result StoreErr A) : stable P (read_op st_fault f).
Proof. eapply on_mono; [apply (on_read P)|done|]. by intros r l [? _]. Qed.
Lemma stable_lift {A} P (r : result StoreErr A) : stable P (lift r).
Proof. eapply on_mono; [apply (on_lift P)|done|]. by intros ? l [? _]. Qed.
Lemma stable_write P f : (∀ l, P l → P (f l)) → stable P (write_op st_fault f).
Proof. intros H. by apply on_op. Qed.
Lemma stable_best_effort {A} P (l : list A) (f : A → St bool) :
  (∀ a, a ∈ l → stable P (f a)) → stable P (best_effort l f).
Proof.
  induction l as [|a l IH]; intros Hf; cbn; [apply stable_ret|]. apply stable_bind; [apply stable_try, Hf; left|]. intros r.
  apply stable_bind; [apply IH; intros b Hb; apply Hf; by right|]. intros rest. apply stable_ret.
Qed.
Lemma stable_each {A} P (l : list A) (f : A → St unit) : (∀ a, a ∈ l → stable P (f a)) → stable P (act_each l f).
Proof.
  intros Hf. apply hoare_each; [|done]. intros a Ha. eapply hoare_mono; [by apply (Hf a)|done|]. by intros [].
Qed.
Lemma stable_all {A X} (P : X → Layout → Prop) (m : St A) : (∀ x, stable (P x) m) → stable (λ l, ∀ x, P x l) m.
Proof. intros H s s' r Hr Hp x. by apply (H x _ _ _ Hr). Qed.
Lemma stable_imp {A} (φ : Prop) P (m : St A) : (φ → stable P m) → stable (λ l, φ → P l) m.
Proof. intros H s s' r Hr Hp Hφ. apply (H Hφ _ _ _ Hr). by apply Hp. Qed.
Lemma stable_and {A} P Q (m : St A) : stable P m → stable Q m → stable (λ l, P l ∧ Q l) m.
Proof. intros H1 H2 s s' r Hr [? ?]. split; [by apply (H1 _ _ _ Hr)|by apply (H2 _ _ _ Hr)]. Qed.
Lemma stable_ex {A X} (P : X → Layout → Prop) (m : St A) : (∀ x, stable (P x) m) → stable (λ l, ∃ x, P x l) m.
Proof. intros H s s' r Hr [x Hp]. exists x. by apply (H x _ _ _ Hr). Qed.

(** ** Reading images *)
(** What [image] found. *)
Definition describes (l : Layout) (img : Image) : Prop :=
  (∃ raw, ly_blobs l !! ds_Digest (im_Descriptor img) = Some (BData raw) ∧ oc_manifest lib raw = Ok (im_Manifest img)) ∧
  (∃ raw, ly_blobs l !! ds_Digest (mf_Config (im_Manifest img)) = Some (BData raw) ∧ oc_config lib raw = Ok (im_Config img)) ∧
  im_LayerDirs img = (blobPath ∘ ds_Digest <$> distinct (mf_Layers (im_Manifest img))).

Lemma on_blobJSON {A} P d (decode : string → result error A) :
  on P (blobJSON st_fault d decode) (λ r l, P l ∧ ∀ a, r = Ok a → ∃ raw, ly_blobs l !! d = Some (BData raw) ∧ decode raw = Ok a).
Proof.
  eapply on_mono; [apply (on_read P)|done|]. intros r l [Hp Hr]. split; [done|]. intros a Ha. specialize (Hr a Ha).
  destruct (ly_blobs l !! d) as [[raw|raw t]|]; try done. exists raw. split; [done|]. destruct (decode raw); congruence.
Qed.
Lemma on_image P name desc :
  on P (image lib st_fault name desc)
    (λ r l, P l ∧ ∀ img, r = Ok img → im_Name img = name ∧ im_Descriptor img = desc ∧ describes l img).
Proof.
  eapply (on_bind _ _ _ (λ m l, P l ∧ ∃ raw, ly_blobs l !! ds_Digest desc = Some (BData raw) ∧ oc_manifest lib raw = Ok m)).
  { eapply on_mono; [apply (on_blobJSON P)|done|]. intros [m|e] l [? H]; [by eauto|done]. }
  intros m. eapply (on_bind _ _ _ (λ c l, (P l ∧ ∃ raw, ly_blobs l !! ds_Digest desc = Some (BData raw) ∧ oc_manifest lib raw = Ok m) ∧
    ∃ raw, ly_blobs l !! ds_Digest (mf_Config m) = Some (BData raw) ∧ oc_config lib raw = Ok c)).
  { eapply on_mono; [apply on_blobJSON|intros l Hl; exact Hl|]. intros [c|e] l [Hx Hy]; [split; [done|by apply Hy]|]. split; [apply Hx|done]. }
  intros c. apply hoare_ret. intros s [[Hp H1] H2]. split; [done|]. intros img [= <-]. done.
Qed.
Definition entry_read (l : Layout) (d : Descriptor) (img : Image) : Prop :=
  im_Name img = ds_RefName d ∧ im_Descriptor img = d ∧ describes l img.
Lemma on_images P idx : on P (images lib st_fault idx) (λ r l, P l ∧ ∀ imgs, r = Ok imgs → Forall2 (entry_read l) idx imgs).
Proof.
  revert P. induction idx as [|d idx IH]; intros P; cbn; [apply hoare_ret; intros s Hp; split; [done|]; intros imgs [= <-]; constructor|].
  eapply (on_bind _ _ _ (λ img l, P l ∧ entry_read l d img)).
  { eapply on_mono; [apply (on_image P)|done|]. intros [img|e] l [? H]; [|done]. split; [done|]. by apply H. }
  intros img. eapply (on_bind _ _ _ (λ imgs l, (P l ∧ entry_read l d img) ∧ Forall2 (entry_read l) idx imgs)).
  { eapply on_mono; [apply (IH (λ l, P l ∧ entry_read l d img))|done|]. intros [imgs|e] l [[Hp He] Hy]; [split; [done|by apply Hy]|done]. }
  intros imgs. apply hoare_ret. intros s [[Hp H1] H2]. split; [done|]. intros ? [= <-]. by constructor.
Qed.
Lemma stable_image P name desc : stable P (image lib st_fault name desc).
Proof. eapply on_mono; [apply (on_image P)|done|]. by intros r l [? _]. Qed.
Lemma stable_images P idx : stable P (images lib st_fault idx).
Proof. eapply on_mono; [apply (on_images P)|done|]. by intros r l [? _]. Qed.

(** ** The index *)
Lemma find_filter_other name other (l : list Descriptor) :
  name ≠ other →
  List.find (λ d, bool_decide (ds_RefName d = name)) (List.filter (λ d, negb (bool_decide (ds_RefName d = other))) l) =
  List.find (λ d, bool_decide (ds_RefName d = name)) l.
Proof.
  intros Hn. induction l as [|d l IH]; [done|]. cbn. destruct (bool_decide_reflect (ds_RefName d = other)) as [E|E]; cbn.
  - rewrite bool_decide_eq_false_2 by congruence. done.
  - by destruct (bool_decide (ds_RefName d = name)).
Qed.
Lemma find_replace_entry name desc (l : list Descriptor) :
  List.find (λ d, bool_decide (ds_RefName d = name)) (replace_entry (ds_RefName desc) desc l) =
  if bool_decide (ds_RefName desc = name) then Some desc else List.find (λ d, bool_decide (ds_RefName d = name)) l.
Proof.
  induction l as [|d l IH]; cbn; [done|]. destruct (bool_decide_reflect (ds_RefName d = ds_RefName desc)) as [E|E]; cbn.
  - destruct (bool_decide_reflect (ds_RefName desc = name)); [done|]. by rewrite bool_decide_eq_false_2 by congruence.
  - rewrite IH. destruct (bool_decide_reflect (ds_RefName d = name)), (bool_decide_reflect (ds_RefName desc = name)); congruence.
Qed.

(** The image of a digest: named by it. *)
Definition holds (l : Layout) (dg : string) (m : Manifest) (c : ImageConfig) (B : gmap string Blob) : Prop :=
  ∃ desc, ds_Digest desc = dg ∧ held l dg desc m c B.

Lemma store_Remove_other dg m c B name : name ≠ dg → stable (λ l, holds l dg m c B) (store_Remove st_fault name).
Proof.
  intros Hn. eapply (on_bind _ _ _ (λ idx l, holds l dg m c B ∧ ly_index l = Ok idx)).
  { eapply on_mono; [apply (on_read (λ l, holds l dg m c B))|done|]. intros [idx|e] l [? H]; [|done]. split; [done|].
    specialize (H idx eq_refl). destruct (ly_index l); congruence. }
  intros idx. cbv zeta. case_match; [apply hoare_fail; by intros s [? _]|]. apply on_op; [by intros l e [? _]|].
  intros l [(desc & Hd & Hh) Hi]. exists desc. split; [done|]. apply (held_blobs l); [|done|exact Hh]. cbn.
  destruct (held_index _ _ _ _ _ _ Hh) as (idx' & Hi' & Hf). assert (idx' = idx) as -> by congruence.
  eexists. split; [done|]. by rewrite find_filter_other.
Qed.
Lemma updateIndex_holds dg m c B desc :
  ds_RefName desc = ds_Digest desc → stable (λ l, holds l dg m c B) (updateIndex st_fault desc).
Proof.
  intros Hn. eapply (on_bind _ _ _ (λ idx l, holds l dg m c B ∧ ly_index l = Ok idx)).
  { eapply on_mono; [apply (on_read (λ l, holds l dg m c B))|done|]. intros [idx|e] l [? H]; [|done]. split; [done|].
    specialize (H idx eq_refl). destruct (ly_index l); congruence. }
  intros idx. apply on_op; [by intros l e [? _]|]. cbn. intros l [(d & Hd & Hh) Hi].
  destruct (held_index _ _ _ _ _ _ Hh) as (idx' & Hi' & Hf). assert (idx' = idx) as -> by congruence.
  destruct (decide (ds_RefName desc = dg)) as [He|He].
  - exists desc. split; [congruence|]. destruct Hh as [H1 H2 H3 H4]. split; cbn; try done.
    + eexists. split; [done|]. rewrite find_replace_entry. by rewrite bool_decide_eq_true_2.
    + by rewrite <-Hn, He, <-Hd.
  - exists d. split; [done|]. apply (held_blobs l); [|done|exact Hh]. cbn. eexists. split; [done|].
    rewrite find_replace_entry. by rewrite bool_decide_eq_false_2.
Qed.

(** ** Collecting garbage *)
Lemma RemoveBlob_held name desc m c B d : d ∉ parts desc m → stable (λ l, held l name desc m c B) (RemoveBlob st_fault d).
Proof.
  intros Hd. apply on_op.
  - intros l _. apply held_kept; [unfold tear; by repeat case_match|]. intros x b Hx Hb. unfold tear.
    destruct (ly_blobs l !! d) as [[raw|raw t]|]; [done| |done]. cbn. by rewrite lookup_insert_ne by (intros ->; done).
  - intros l. cbn. apply held_kept; [done|]. intros x b Hx Hb. cbn. by rewrite lookup_delete_ne by (intros ->; done).
Qed.
Lemma GC_held dg desc m c B : stable (λ l, held l dg desc m c B) (GC lib st_fault).
Proof.
  eapply (on_bind _ _ _ (λ idx l, held l dg desc m c B ∧ ly_index l = Ok idx)).
  { eapply on_mono; [apply (on_read (λ l, held l dg desc m c B))|done|]. intros [idx|e] l [? H]; [|done]. split; [done|].
    specialize (H idx eq_refl). destruct (ly_index l); congruence. }
  intros idx. eapply (on_bind _ _ _ (λ imgs l, held l dg desc m c B ∧ ∀ d, d ∈ parts desc m → Hex d ∈ (imgs ≫= reached))).
  { eapply on_mono; [apply (on_images (λ l, held l dg desc m c B ∧ ly_index l = Ok idx))|done|]. intros [imgs|e] l [[Hh Hi] H]; [|done].
    split; [done|]. intros d Hd. specialize (H imgs eq_refl). destruct (held_index _ _ _ _ _ _ Hh) as (idx' & Hi' & Hf).
    assert (idx' = idx) as -> by congruence. apply List.find_some in Hf as [Hin _]. apply list_elem_of_In in Hin.
    apply list_elem_of_lookup in Hin as [k Hk]. destruct (Forall2_lookup_l _ _ _ _ _ H Hk) as (img & Hk' & _ & Hdesc & (Hm & _ & _)).
    apply list_elem_of_bind. exists img. split; [|by eapply list_elem_of_lookup_2].
    destruct (held_manifest _ _ _ _ _ _ Hh) as (raw & Hr & Hraw), Hm as (raw' & Hr' & Hraw'). rewrite Hdesc in Hr'.
    assert (im_Manifest img = m) as Hmm by congruence. unfold reached. rewrite Hdesc, Hmm. unfold parts in Hd.
    apply elem_of_cons in Hd as [->|[->|Hd]%elem_of_cons]; [left|right; left|right; right].
    apply list_elem_of_fmap in Hd as (x & -> & Hx). apply list_elem_of_fmap. by exists x. }
  intros imgs. eapply (on_bind _ _ _ (λ _ l, held l dg desc m c B ∧ ∀ d, d ∈ parts desc m → Hex d ∈ (imgs ≫= reached))).
  { eapply on_mono; [apply (on_read (λ l, held l dg desc m c B ∧ ∀ d, d ∈ parts desc m → Hex d ∈ (imgs ≫= reached)))|done|].
    intros [es|e] l [[? ?] _]; done. }
  intros entries s s' r Hr [Hh Hp]. revert Hr Hh. apply (stable_each (λ l, held l dg desc m c B)).
  intros d _. case_bool_decide as Hin; [apply stable_ret|]. apply RemoveBlob_held. intros Hd. by apply Hin, Hp.
Qed.
Lemma GC_holds dg m c B : stable (λ l, holds l dg m c B) (GC lib st_fault).
Proof. apply stable_ex. intros desc. intros s s' r Hr [Hd Hh]. split; [done|]. by apply (GC_held dg desc m c B _ _ _ Hr). Qed.

(** ** The invariant *)
Definition addressed (l : Layout) : Prop := ∀ d b, ly_blobs l !! d = Some b →
  match b with BData raw => oc_FromBytes lib raw = d | BLayer raw _ => oc_Verify lib d raw = true end.
Record store_ok (l : Layout) : Prop := mkStoreOk {
  ok_bound : ∀ f r, ly_refs l !! f = Some (Some r) → f = storeKey lib (ir_Namespace r) (ir_Source r) ∧ ∃ m c B, holds l (ir_Digest r) m c B;
  ok_addressed : addressed l;
}.
Lemma holds_same l l' dg m c B : ly_index l' = ly_index l → ly_blobs l' = ly_blobs l → holds l dg m c B → holds l' dg m c B.
Proof.
  intros Hi Hb (desc & Hd & Hh). exists desc. split; [done|]. apply (held_blobs l); [|done|done]. rewrite Hi. apply Hh.
Qed.

(** *** Operations on entries and blobs *)
(** Keeping the images of the bindings [R], which the operation does not touch. *)
Definition bound_to (R : gmap string (option imageRef)) (l : Layout) : Prop := store_ok l ∧ ly_refs l = R.
Lemma stable_bound {A} R (op : St A) :
  (∀ f r m c B, R !! f = Some (Some r) → stable (λ l, holds l (ir_Digest r) m c B) op) → stable addressed op →
  stable (λ l, ly_refs l = R) op → stable (bound_to R) op.
Proof.
  intros H1 H2 H3 s s' r Hr [[Hb Ha] HR]. pose proof (H3 _ _ _ Hr HR) as HR'. split; [|done]. split; [|by apply (H2 _ _ _ Hr)].
  intros f x Hx. rewrite HR', <-HR in Hx. destruct (Hb f x Hx) as [Hf (m & c & B & Hh)]. split; [done|]. exists m, c, B.
  rewrite HR in Hx. exact (H1 f x m c B Hx _ _ _ Hr Hh).
Qed.
Lemma on_bound {A} (φ : gmap string (option imageRef) → Prop) (op : St A) :
  (∀ R, φ R → stable (bound_to R) op) → on (λ l, store_ok l ∧ φ (ly_refs l)) op (λ _, store_ok).
Proof. intros H s s' r Hr [Hok Hφ]. by destruct (H _ Hφ _ _ _ Hr (conj Hok eq_refl)). Qed.
Lemma store_Remove_bound R name :
  (∀ f r, R !! f = Some (Some r) → name ≠ ir_Digest r) → stable (bound_to R) (store_Remove st_fault name).
Proof.
  intros Hn. apply stable_bound; [intros f r m c B Hf; by apply store_Remove_other, (Hn f)|..].
  all: apply stable_bind; [apply stable_read|]; intros idx; cbv zeta; case_match; [apply stable_fail|]; by apply stable_write.
Qed.
Lemma GC_bound R : stable (bound_to R) (GC lib st_fault).
Proof.
  apply stable_bound; [intros; apply GC_holds|..].
  all: apply stable_bind; [apply stable_read|]; intros idx; apply stable_bind; [apply stable_images|]; intros imgs;
    apply stable_bind; [apply stable_read|]; intros es; apply stable_each; intros d _; case_bool_decide; [apply stable_ret|];
    apply on_op; [|intros l Hl; cbn].
  - intros l _ Hl. unfold tear. destruct (ly_blobs l !! d) as [[raw|raw t]|] eqn:E; try done. intros x b. cbn.
    destruct (decide (d = x)) as [<-|]; [rewrite lookup_insert_eq; intros [= <-]; exact (Hl d _ E)|].
    rewrite lookup_insert_ne by done. apply Hl.
  - intros x b. cbn. intros [_ Hb]%lookup_delete_Some. by apply Hl.
  - intros l _ <-. unfold tear. by repeat case_match.
  - done.
Qed.
Lemma RemoveRef_ok file : stable store_ok (RemoveRef st_fault file).
Proof.
  apply on_op; [done|]. intros l [Hb Ha]. destruct (ly_refs l !! file); [|done]. split; [|done]. cbn.
  intros f r Hr. apply lookup_delete_Some in Hr as [_ Hr]. destruct (Hb f r Hr) as [Hf (m & c & B & Hh)]. split; [done|]. exists m, c, B.
  by apply (holds_same l).
Qed.

(** What a listing shows. *)
Lemma read_refs_elem l rs f r :
  read_refs lib l = Ok rs → (f, Some r) ∈ l → mkStoredRef r f ∈ rs.
Proof.
  revert rs. induction l as [|[g x] l IH]; intros rs; cbn; [by intros _ []%elem_of_nil|].
  destruct (checked_ref lib x) as [y|] eqn:Ey; [|done]. destruct (read_refs lib l) as [ys|] eqn:E; [|done]. intros [= <-].
  intros [[= -> <-]|Hin]%elem_of_cons; [|right; by apply IH]. cbn in Ey. destruct (oc_Validate lib (ir_Digest r)); [|done].
  injection Ey as <-. left.
Qed.
Lemma on_listRefs P :
  on P (listRefs lib st_fault) (λ r l, P l ∧ ∀ rs, r = Ok rs → ∀ f x, ly_refs l !! f = Some (Some x) → mkStoredRef x f ∈ rs).
Proof.
  eapply on_mono; [apply (on_read P)|done|]. intros r l [Hp H]. split; [done|]. intros rs Hrs f x Hx.
  eapply read_refs_elem; [by apply H|]. by apply elem_of_map_to_list.
Qed.
Lemma stable_listRefs P : stable P (listRefs lib st_fault).
Proof. apply stable_read. Qed.

(** *** Removal *)
Lemma removeImage_ok namespace source : stable store_ok (removeImage lib st_fault namespace source).
Proof.
  apply stable_bind; [apply stable_read|]. intros binding. apply stable_bind; [apply RemoveRef_ok|]. intros _.
  eapply (on_bind _ _ _ (λ rs l, store_ok l ∧ ∀ f x, ly_refs l !! f = Some (Some x) → mkStoredRef x f ∈ rs)).
  { eapply on_mono; [apply (on_listRefs store_ok)|done|]. intros [rs|e] l [? Hy]; [|done]. split; [done|by apply Hy]. }
  intros rs. destruct (existsb _ rs) eqn:Hex; [apply hoare_ret; by intros s [? _]|].
  apply (on_bound (λ R, ∀ f x, R !! f = Some (Some x) → mkStoredRef x f ∈ rs)). intros R Hall. apply stable_bind.
  - apply stable_try, store_Remove_bound. intros f x Hx Heq. apply not_true_iff_false in Hex. apply Hex.
    apply List.existsb_exists. exists (mkStoredRef x f). split; [by apply list_elem_of_In, Hall|]. by apply bool_decide_eq_true.
  - intros [[]|[]]; try apply GC_bound; apply stable_fail.
Qed.
Lemma purge_ok keep : stable store_ok (purge lib st_fault keep).
Proof.
  apply stable_bind; [apply stable_read|]. intros _. apply stable_bind; [apply stable_listRefs|]. intros refs.
  apply stable_bind.
  { apply stable_best_effort. intros r _. unfold purge_ref. case_match; [apply stable_ret|].
    apply stable_bind; [apply RemoveRef_ok|]. intros _. apply stable_ret. }
  intros dropped. eapply (on_bind _ _ _ (λ rs l, store_ok l ∧ ∀ f x, ly_refs l !! f = Some (Some x) → mkStoredRef x f ∈ rs)).
  { eapply on_mono; [apply (on_listRefs store_ok)|done|]. intros [rs|e] l [? Hy]; [|done]. split; [done|by apply Hy]. }
  intros rs. apply (on_bound (λ R, ∀ f x, R !! f = Some (Some x) → mkStoredRef x f ∈ rs)). intros R Hall. apply stable_bind.
  { apply stable_bind; [apply stable_read|]. intros idx. apply stable_images. }
  intros imgs. apply stable_bind.
  { apply stable_best_effort. intros img _. unfold purge_image. case_match eqn:Hk; [apply stable_ret|].
    apply stable_bind; [|intros _; apply stable_ret]. apply store_Remove_bound. intros f x Hx Heq.
    apply orb_false_iff in Hk as [_ Hk%bool_decide_eq_false]. apply Hk. rewrite Heq. apply list_elem_of_fmap.
    exists (mkStoredRef x f). split; [done|by apply Hall]. }
  intros [[] errs]; [|apply stable_ret]. apply stable_bind; [apply stable_try, GC_bound|]. intros e. apply stable_ret.
Qed.

(** *** Pulling *)
(** A blob that is all of what its digest names: a layer directory is not torn. *)
Definition blob_ok (d : string) (b : Blob) : Prop :=
  match b with BData raw => oc_FromBytes lib raw = d | BLayer raw torn => oc_Verify lib d raw = true ∧ torn = false end.
(** What survives a new blob that is what its digest says. *)
Definition closed_add (P : Layout → Prop) : Prop :=
  ∀ l d b, P l → ly_blobs l !! d = None → blob_ok d b → P (with_blobs (<[d := b]> (ly_blobs l)) l).
Lemma closed_and P Q : closed_add P → closed_add Q → closed_add (λ l, P l ∧ Q l).
Proof. intros H1 H2 l d b [? ?] ??. split; [by apply H1|by apply H2]. Qed.
Lemma closed_blob d b : closed_add (λ l, ly_blobs l !! d = Some b).
Proof. intros l d' b' Hl Hn _. cbn. rewrite lookup_insert_ne; [done|]. intros ->. congruence. Qed.
Definition layer_there (d : string) (l : Layout) : Prop := ∃ raw t, ly_blobs l !! d = Some (BLayer raw t).
Lemma closed_layer d : closed_add (layer_there d).
Proof. intros l d' b' (raw & t & Hl) Hn Hb. exists raw, t. by apply closed_blob. Qed.
Lemma closed_ok : closed_add store_ok.
Proof.
  intros l d b [Hb Ha] Hn Hbl. split.
  - intros f r Hr. destruct (Hb f r Hr) as [Hf (m & c & B & desc & Hd & Hh)]. split; [done|]. exists m, c, B, desc. split; [done|].
    by apply (held_kept l); [..|exact Hh]; [|by apply blobs_kept_add].
  - intros x y. cbn. destruct (decide (d = x)) as [<-|]; [rewrite lookup_insert_eq; intros [= <-]; by destruct b as [|? ?]; [|apply Hbl]|].
    rewrite lookup_insert_ne by done. apply Ha.
Qed.

Section Pull.
Context (rg : Registry) (late : string → bool) (cancelled : string → nat → option error).

Lemma writeBlob_stable P d raw : closed_add P → oc_FromBytes lib raw = d → stable P (writeBlob st_fault d raw).
Proof.
  intros HP Hd. eapply (on_bind _ _ _ (λ b l, P l ∧ ly_blobs l !! d = b)).
  { eapply on_mono; [apply (on_read P)|done|]. intros [b|e] l [? Hy]; [|done]. split; [done|]. by injection (Hy b eq_refl). }
  intros [b|]; [apply hoare_ret; by intros s [? _]|]. apply on_op; [by intros l e [? _]|]. intros l [? ?]. by apply HP.
Qed.
Lemma fetchAndUnpack_on P layer k :
  closed_add P → on P (fetchAndUnpack lib st_fault rg layer k) (λ r l, P l ∧ ∀ a, r = Ok a → layer_there (ds_Digest layer) l).
Proof.
  intros HP. unfold fetchAndUnpack. repeat (case_match; try (by apply hoare_fail)). apply on_op; [done|]. intros l Hl.
  destruct (ly_blobs l !! ds_Digest layer) as [[x|x t]|] eqn:E; cbn; [by split|split; [done|]; intros _ _; by exists x, t|]. split.
  - apply HP; [done|done|]. split; [|done]. by apply negb_false_iff.
  - intros _ _. eexists _, false. cbn. by rewrite lookup_insert_eq.
Qed.
Lemma unpack_attempts_on P layer more k :
  closed_add P → on P (unpack_attempts lib st_fault rg cancelled layer more k) (λ r l, P l ∧ ∀ a, r = Ok a → layer_there (ds_Digest layer) l).
Proof.
  intros HP. revert k. induction more as [|more IH]; intros k s s' r; cbn [unpack_attempts];
    destruct (fetchAndUnpack lib st_fault rg layer k s) as [s1 [[]|e]] eqn:E; intros Hr Hp;
    destruct (fetchAndUnpack_on P layer k HP _ _ _ E Hp) as [H1 H2].
  1,3: injection Hr as <- <-; split; [done|]; intros _ _; by eapply H2.
  all: destruct (cancelled (ds_Digest layer) k); [by injection Hr as <- <-|]; destruct (store_permanent e); [by injection Hr as <- <-|].
  - by injection Hr as <- <-.
  - by apply (IH _ _ _ _ Hr).
Qed.
Lemma unpackOne_on P retries layer :
  closed_add P → on P (unpackOne lib st_fault rg cancelled retries layer) (λ r l, P l ∧ ∀ a, r = Ok a → layer_there (ds_Digest layer) l).
Proof.
  intros HP. eapply (on_bind _ _ _ (λ b l, P l ∧ ly_blobs l !! ds_Digest layer = b)).
  { eapply on_mono; [apply (on_read P)|done|]. intros [b|e] l [? Hy]; [|done]. split; [done|]. by injection (Hy b eq_refl). }
  intros [[raw|raw t]|]; [apply hoare_fail; by intros s [? _]|apply hoare_ret; intros s [? Hl]; split; [done|]; intros _ _; by exists raw, t|].
  eapply on_mono; [by apply (unpack_attempts_on P)|by intros l [? _]|done].
Qed.
Lemma unpack_each_on P retries l first done_ :
  closed_add P →
  on (λ y, P y ∧ (first = None → ∀ d, d ∈ done_ → layer_there d y)) (unpack_each lib st_fault rg late cancelled retries l first)
    (λ r y, P y ∧ ∀ a, r = Ok a → ∀ d, d ∈ done_ ++ (ds_Digest <$> l) → layer_there d y).
Proof.
  intros HP. revert first done_. induction l as [|x l IH]; intros first done_; cbn [unpack_each].
  - destruct first as [e|]; [apply hoare_fail; by intros s [? _]|]. apply hoare_ret. intros s [? Hd]. split; [done|]. intros _ _ d.
    cbn. rewrite app_nil_r. by apply Hd.
  - destruct (bool_decide (first ≠ None) && negb (late (ds_Digest x))) eqn:Hskip.
    + apply andb_true_iff in Hskip as [Hf%bool_decide_eq_true _]. eapply on_mono; [apply (IH first (done_ ++ [ds_Digest x]))| |].
      * intros y [? _]. by split; [|intros ->].
      * intros r y [? Hd]. split; [done|]. cbn. by rewrite cons_middle, app_assoc.
    + eapply (on_bind _ _ _ (λ r y, P y ∧ (match first, r with None, Err e => Some e | _, _ => first end = None →
        ∀ d, d ∈ done_ ++ [ds_Digest x] → layer_there d y))).
      * apply on_try. eapply on_mono; [apply (unpackOne_on (λ y, P y ∧ (first = None → ∀ d, d ∈ done_ → layer_there d y)))| |].
        -- apply closed_and; [done|]. intros y d b Hy Hn Hb Hf d' Hd'. apply closed_layer; auto.
        -- done.
        -- intros r y [[Hp Hd] Hl]. split; [done|]. destruct first; [done|]. destruct r as [[]|e]; [|done]. intros _ d.
           intros [H| ->%list_elem_of_singleton]%elem_of_app; [by apply Hd|by eapply Hl].
      * intros r. eapply on_mono; [apply (IH _ (done_ ++ [ds_Digest x]))|intros y Hy; exact Hy|]. intros r' y [? Hd]. split; [done|]. cbn. by rewrite cons_middle, app_assoc.
Qed.
Lemma distinct_from_covers seen l d : d ∈ l → ds_Digest d ∈ seen ∨ ds_Digest d ∈ (ds_Digest <$> distinct_from seen l).
Proof.
  revert seen. induction l as [|x l IH]; intros seen; [by intros []%elem_of_nil|]. cbn. intros [->|Hd]%elem_of_cons.
  - case_bool_decide; [by left|]. right. left.
  - case_bool_decide as Hs; [by apply IH|]. destruct (IH (ds_Digest x :: seen) Hd) as [[->|H]%elem_of_cons|H]; [right; left|by left|].
    right. by right.
Qed.
Lemma unpackLayers_on P retries layers :
  closed_add P → on P (unpackLayers lib st_fault rg late cancelled retries layers)
    (λ r y, P y ∧ ∀ a, r = Ok a → ∀ d, d ∈ layers → layer_there (ds_Digest d) y).
Proof.
  intros HP. eapply on_mono; [by apply (unpack_each_on P retries (distinct layers) None [])|..].
  - intros l Hl. split; [done|]. by intros _ d []%elem_of_nil.
  - intros r y [? H]. split; [done|]. intros a Ha d Hd. apply (H a Ha). cbn.
    by destruct (distinct_from_covers [] layers d Hd) as [[]%elem_of_nil|].
Qed.

Lemma on_lift_bind {A B} (P : Layout → Prop) (r : result StoreErr A) (k : A → St B) (Q : result StoreErr B → Layout → Prop) :
  (∀ a, r = Ok a → on P (k a) Q) → (∀ e l, P l → Q (Err e) l) → on P (act_bind (lift r) k) Q.
Proof.
  intros Hk He. destruct r as [a|e]; intros s s' r'; cbn; [by apply Hk|]. intros [= <- <-]. apply He.
Qed.
Lemma client_manifest_digest target raw mt d : client_manifest lib rg target = Ok (raw, mt, d) → d = oc_FromBytes lib raw.
Proof. unfold client_manifest. repeat case_match; congruence. Qed.
Lemma fetchBlob_digest d raw : fetchBlob lib rg d = Ok raw → oc_FromBytes lib raw = d.
Proof. unfold fetchBlob. repeat (case_match; try done). intros [= <-]. by eapply bool_decide_eq_true. Qed.

Lemma updateIndex_ok desc : ds_RefName desc = ds_Digest desc → stable store_ok (updateIndex st_fault desc).
Proof.
  intros Hn. apply (on_mono store_ok (λ l, store_ok l ∧ True) _ _ (λ _, store_ok)); [|by intros l Hl|done].
  apply (on_bound (λ _, True)). intros R _. apply stable_bound; [intros; by apply updateIndex_holds|..].
  all: apply stable_bind; [apply stable_read|]; intros idx; by apply stable_write.
Qed.
(** The registry served these bytes as a manifest. *)
Definition served (raw : string) : Prop := ∃ target mt d, client_manifest lib rg target = Ok (raw, mt, d).
Lemma copy_plan_served ref opts raw mt dgst m : copy_plan lib rg ref opts = Ok (raw, mt, dgst, m) → served raw.
Proof.
  unfold copy_plan. destruct (client_manifest lib rg (rf_target ref)) as [[[raw0 mt0] d0]|] eqn:E0; [|done].
  destruct (checkPin (op_Pin opts) d0); [done|]. destruct (_ || _).
  - destruct (selectPlatform lib raw0 (op_Platform opts)) as [desc|]; [|done].
    destruct (client_manifest lib rg (ds_Digest desc)) as [[[raw1 mt1] d1]|] eqn:E1; [|done].
    repeat (case_match; try done). intros [= <- <- <- <-]. by eexists _, _, _.
  - repeat (case_match; try done). intros [= <- <- <- <-]. by eexists _, _, _.
Qed.
(** A collision of SHA-256: other bytes are stored under the digest of bytes the registry served. *)
Definition collides (l : Layout) : Prop :=
  ∃ raw raw', served raw ∧ ly_blobs l !! oc_FromBytes lib raw = Some (BData raw') ∧
    raw' ≠ raw ∧ oc_FromBytes lib raw' = oc_FromBytes lib raw.

(** The image just stored: its entry and its layers. *)
Definition copied (l : Layout) (desc : Descriptor) : Prop :=
  ds_RefName desc = ds_Digest desc ∧
  (∃ idx, ly_index l = Ok idx ∧ List.find (λ d, bool_decide (ds_RefName d = ds_Digest desc)) idx = Some desc) ∧
  ∃ raw m, served raw ∧ oc_FromBytes lib raw = ds_Digest desc ∧ oc_manifest lib raw = Ok m ∧ ∀ d, d ∈ mf_Layers m → layer_there (ds_Digest d) l.
Lemma updateIndex_copied desc m raw :
  ds_RefName desc = ds_Digest desc → served raw → oc_FromBytes lib raw = ds_Digest desc → oc_manifest lib raw = Ok m →
  on (λ l, ∀ d, d ∈ mf_Layers m → layer_there (ds_Digest d) l) (updateIndex st_fault desc) (λ r l, ∀ a, r = Ok a → copied l desc).
Proof.
  intros Hn Hsv Hraw Hm. eapply (on_bind _ _ _ (λ idx l, ∀ d, d ∈ mf_Layers m → layer_there (ds_Digest d) l)).
  { eapply on_mono; [apply on_read|intros l Hl; exact Hl|]. intros [idx|e] l [Hl _]; done. }
  intros idx. apply on_op; [done|]. cbn. intros l Hl _ _. split; [done|]. split.
  - eexists. split; [done|]. rewrite find_replace_entry, Hn. by rewrite bool_decide_eq_true_2.
  - exists raw, m. done.
Qed.

(** What the plan of a copy has checked. *)
Record planned (ref : reference) (opts : Options) (raw mt dgst : string) (m : Manifest) : Prop := mkPlanned {
  planned_digest : dgst = oc_FromBytes lib raw;
  planned_manifest : oc_manifest lib raw = Ok m;
  planned_size : ∃ declared, checkManifest (oc_Validate lib) m (op_Bounds opts) = Ok declared ∧ op_Approve opts m declared = None;
  planned_pin : op_Pin opts ≠ "" → ∃ raw0, oc_FromBytes lib raw0 = op_Pin opts ∧
    (raw = raw0 ∨ ∃ d, selectPlatform lib raw0 (op_Platform opts) = Ok d ∧ ∀ want, oc_Parse lib (ds_Digest d) = Some want → dgst = want);
}.
Lemma client_manifest_want target raw mt d want :
  client_manifest lib rg target = Ok (raw, mt, d) → oc_Parse lib target = Some want → d = want.
Proof.
  unfold client_manifest. intros H Hp. rewrite Hp in H. repeat case_match; try done;
    match goal with E : bool_decide (want = _) = true |- _ => apply bool_decide_eq_true in E end; congruence.
Qed.
Lemma copy_plan_ok ref opts raw mt dgst m : copy_plan lib rg ref opts = Ok (raw, mt, dgst, m) → planned ref opts raw mt dgst m.
Proof.
  unfold copy_plan. destruct (client_manifest lib rg (rf_target ref)) as [[[raw0 mt0] d0]|] eqn:E0; [|done].
  destruct (checkPin (op_Pin opts) d0) eqn:Hpin; [done|]. apply client_manifest_digest in E0 as Hd0.
  assert (op_Pin opts ≠ "" → oc_FromBytes lib raw0 = op_Pin opts) as Hp.
  { intros Hne. unfold checkPin in Hpin. rewrite bool_decide_eq_false_2 in Hpin by done. case_bool_decide; [congruence|done]. }
  destruct (bool_decide (mt0 = mediaTypeIndex) || bool_decide (mt0 = mediaTypeDockerIndex)).
  - destruct (selectPlatform lib raw0 (op_Platform opts)) as [desc|] eqn:Es; [|done].
    destruct (client_manifest lib rg (ds_Digest desc)) as [[[raw1 mt1] d1]|] eqn:E1; [|done].
    repeat (case_match; try done). intros [= <- <- <- <-]. split; [by eapply client_manifest_digest|done|by eauto|].
    intros Hne. exists raw0. split; [by apply Hp|]. right. exists desc. split; [done|]. intros want. by eapply client_manifest_want.
  - repeat (case_match; try done). intros [= <- <- <- <-]. split; [done|done|by eauto|]. intros Hne. exists raw0. split; [by apply Hp|by left].
Qed.

Lemma copyImage_on ref opts :
  op_NameByDigest opts = true →
  on store_ok (copyImage lib st_fault rg late cancelled ref opts) (λ r l, store_ok l ∧ ∀ desc, r = Ok desc → copied l desc).
Proof.
  intros Hname. unfold copyImage. apply on_lift_bind; [|done]. intros [[[raw mt] dgst] m] Hplan.
  pose proof (copy_plan_served _ _ _ _ _ _ Hplan) as Hsv. apply copy_plan_ok in Hplan as [Hd Hm' _ _]. rewrite Hname.
  eapply (on_bind _ _ _ (λ _, store_ok)); [eapply on_mono; [apply (on_read store_ok)|done|by intros [[]|e] l [? _]]|]. intros _.
  apply on_lift_bind; [|done]. intros config Hc%fetchBlob_digest.
  eapply (on_bind _ _ _ (λ _, store_ok)).
  { eapply on_mono; [by apply (writeBlob_stable store_ok _ _ closed_ok Hc)|done|]. by intros [[]|e] l Hl. }
  intros _. eapply (on_bind _ _ _ (λ _ l, store_ok l ∧ ∀ d, d ∈ mf_Layers m → layer_there (ds_Digest d) l)).
  { eapply on_mono; [apply (unpackLayers_on store_ok _ _ closed_ok)|done|]. intros [[]|e] l [? Hy]; [|done]. split; [done|by eapply Hy]. }
  intros _. eapply (on_bind _ _ _ (λ _ l, store_ok l ∧ ∀ d, d ∈ mf_Layers m → layer_there (ds_Digest d) l)).
  { eapply on_mono; [apply (writeBlob_stable (λ l, store_ok l ∧ ∀ d, d ∈ mf_Layers m → layer_there (ds_Digest d) l))|done|].
    - apply closed_and; [apply closed_ok|]. intros l d b Hl ?? d' Hd'. apply closed_layer; auto.
    - by rewrite Hd.
    - intros [[]|e] l Hl; [exact Hl|split; [apply Hl|done]]. }
  intros _. destruct (cut_or _ _) as [os arch].
  set (desc := mkDescriptor mt dgst (Z.of_nat (String.length raw)) (Some (mkPlatform os arch "")) dgst).
  eapply (on_bind _ _ _ (λ _ l, store_ok l ∧ copied l desc)).
  - intros s s' r Hr [Hok Hl]. pose proof (updateIndex_ok desc eq_refl _ _ _ Hr Hok) as Hok'.
    pose proof (updateIndex_copied desc m raw eq_refl Hsv (eq_sym Hd) Hm' _ _ _ Hr Hl) as Hcp. cbn in Hok'. destruct r as [a|e]; [|done].
    split; [done|by eapply Hcp].
  - intros _. apply hoare_ret. intros s [? ?]. split; [done|]. by intros ? [= <-].
Qed.

Context {HQ : Quantity}.
(** The image found after a copy is the one copied, or two manifests collide. *)
Lemma copied_holds l desc img :
  store_ok l → copied l desc → im_Descriptor img = desc → describes l img →
  (∃ m c B, holds l (ds_Digest (im_Descriptor img)) m c B) ∨ collides l.
Proof.
  intros Hok (Hn & Hidx & raw & m & Hsv & Hraw & Hm & Hl) Hdesc ((raw' & Hr' & Hm') & (craw & Hcr & Hc) & _). rewrite Hdesc in Hr' |- *.
  pose proof (ok_addressed _ Hok _ _ Hr') as Ha. cbn in Ha. destruct (decide (raw' = raw)) as [->|Hne].
  - left. assert (im_Manifest img = m) as Hmm by congruence. rewrite Hmm in *. exists m, (im_Config img), (ly_blobs l), desc.
    split; [done|]. split; [done|by exists raw|by exists craw|]. intros d Hd. destruct (Hl d Hd) as (lr & t & Hlt). by exists lr, t.
  - right. exists raw, raw'. rewrite Hraw. split; [done|]. split; [done|]. split; [done|exact Ha].
Qed.
(** After a pull the store is sound, or a collision was met. *)
Lemma pull_ok platform usage avail namespace source limits :
  on store_ok (pull lib st_fault rg late cancelled platform usage avail namespace source limits) (λ _ l, store_ok l ∨ collides l).
Proof.
  eapply (on_bind _ _ _ (λ _, store_ok)); [eapply on_mono; [apply (on_read store_ok)|done|intros [[]|e] l [? _]; auto]|]. intros _.
  apply on_lift_bind; [|by left]. intros ref _.
  eapply (on_bind _ _ _ (λ desc l, store_ok l ∧ copied l desc)).
  { eapply on_mono; [by apply copyImage_on|done|]. intros [desc|e] l [? Hy]; [split; [done|by apply Hy]|by left]. }
  intros desc. set (M := λ img l, store_ok l ∧ ((∃ m c B, holds l (ds_Digest (im_Descriptor img)) m c B) ∨ collides l)).
  eapply (on_bind _ _ _ M).
  { eapply on_mono; [apply (on_image (λ l, store_ok l ∧ copied l desc))|done|]. intros [img|e] l [[Hok Hcp] Hy]; [|by left].
    destruct (Hy img eq_refl) as (_ & Hdesc & Hds). split; [done|]. by apply (copied_holds l desc). }
  intros img. do 2 (eapply (on_bind _ _ _ (λ _, M img));
    [eapply on_mono; [apply (on_read (M img))|done|intros [[]|e] l [Hl _]; [exact Hl|left; apply Hl]]|]; intros _).
  apply on_op; [intros l e [? _]; by left|]. intros l [[Hb Ha] [Hh|Hcol]]; [left|right; exact Hcol]. split; [|done]. cbn. intros f r.
  destruct (decide (storeKey lib namespace source = f)) as [<-|Hf].
  - rewrite lookup_insert_eq. intros [= <-]. split; [done|]. destruct Hh as (m & c & B & Hh). exists m, c, B. by apply (holds_same l).
  - rewrite lookup_insert_ne by done. intros Hr. destruct (Hb f r Hr) as [Hfile (m & c & B & Hh')]. split; [done|]. exists m, c, B. by apply (holds_same l).
Qed.

(** *** Torn layers *)
Definition torn (d : string) (l : Layout) : Prop := ∃ raw, ly_blobs l !! d = Some (BLayer raw true).
Lemma closed_untorn d : closed_add (λ l, ¬ torn d l).
Proof.
  intros l d' b Hl _ Hb [raw Hr]. cbn in Hr. apply lookup_insert_Some in Hr as [[-> ->]|[_ Hr]]; [by destruct Hb as [_ ?]|].
  apply Hl. by exists raw.
Qed.

(** ** One tenant's image *)
(** The binding [r] in its file, and what the store keeps for it. *)
Definition mine (r : imageRef) (m : Manifest) (c : ImageConfig) (B : gmap string Blob) (l : Layout) : Prop :=
  ly_refs l !! storeKey lib (ir_Namespace r) (ir_Source r) = Some (Some r) ∧ holds l (ir_Digest r) m c B.
Lemma mine_stable {A} r m c B (op : St A) :
  stable (λ l, ly_refs l !! storeKey lib (ir_Namespace r) (ir_Source r) = Some (Some r)) op →
  stable (λ l, holds l (ir_Digest r) m c B) op → stable (mine r m c B) op.
Proof. intros H1 H2. by apply stable_and. Qed.
Lemma RemoveRef_mine r m c B file : file ≠ storeKey lib (ir_Namespace r) (ir_Source r) → stable (mine r m c B) (RemoveRef st_fault file).
Proof.
  intros Hf. apply on_op; [done|]. intros l [Hr Hh]. destruct (ly_refs l !! file); [|done]. split; cbn; [|by apply (holds_same l)].
  by rewrite lookup_delete_ne.
Qed.
Lemma store_Remove_mine r m c B name : name ≠ ir_Digest r → stable (mine r m c B) (store_Remove st_fault name).
Proof.
  intros Hn. apply mine_stable; [|by apply store_Remove_other].
  apply stable_bind; [apply stable_read|]; intros idx; cbv zeta; case_match; [apply stable_fail|]; by apply stable_write.
Qed.
Lemma GC_mine r m c B : stable (mine r m c B) (GC lib st_fault).
Proof.
  apply mine_stable; [|apply GC_holds]. apply stable_bind; [apply stable_read|]; intros idx; apply stable_bind; [apply stable_images|];
    intros imgs; apply stable_bind; [apply stable_read|]; intros es; apply stable_each; intros d _; case_bool_decide; [apply stable_ret|].
  apply on_op; [|done]. intros l _ Hl. unfold tear. by repeat case_match.
Qed.
Lemma on_listRefs_mine r m c B :
  on (mine r m c B) (listRefs lib st_fault)
    (λ x l, match x with
            | Ok rs => mine r m c B l ∧ mkStoredRef r (storeKey lib (ir_Namespace r) (ir_Source r)) ∈ rs
            | Err _ => mine r m c B l
            end).
Proof.
  eapply on_mono; [apply (on_listRefs (mine r m c B))|done|]. intros [rs|e] l [Hl Hy]; [|done]. split; [done|]. by apply (Hy rs), Hl.
Qed.
Lemma removeImage_mine r m c B namespace source :
  storeKey lib namespace source ≠ storeKey lib (ir_Namespace r) (ir_Source r) →
  stable (mine r m c B) (removeImage lib st_fault namespace source).
Proof.
  intros Hk. apply stable_bind; [apply stable_read|]. intros binding. apply stable_bind; [by apply RemoveRef_mine|]. intros _.
  apply (on_bind _ _ _ _ _ (on_listRefs_mine r m c B)). intros rs. apply on_pure with (1 := λ l H, proj2 H). intros Hin.
  apply (on_mono _ (mine r m c B) _ _ (λ _, mine r m c B)); [|by intros l [? _]|done].
  destruct (existsb _ rs) eqn:Hex; [apply stable_ret|]. apply stable_bind.
  - apply stable_try, store_Remove_mine. intros Heq. apply not_true_iff_false in Hex. apply Hex.
    apply List.existsb_exists. eexists. split; [by apply list_elem_of_In|]. by apply bool_decide_eq_true.
  - intros [[]|[]]; try apply GC_mine; apply stable_fail.
Qed.
Lemma read_refs_inv l rs x : read_refs lib l = Ok rs → x ∈ rs → (sr_file x, Some (sr_ref x)) ∈ l.
Proof.
  revert rs. induction l as [|[g y] l IH]; intros rs; cbn; [intros [= <-]; by intros []%elem_of_nil|].
  destruct (checked_ref lib y) as [z|] eqn:Ez; [|done]. destruct (read_refs lib l) as [zs|] eqn:E; [|done]. intros [= <-].
  intros [->|Hin]%elem_of_cons; [|right; by eapply IH]. cbn. unfold checked_ref in Ez. destruct y as [y|]; [|done].
  destruct (oc_Validate lib (ir_Digest y)); [|done]. injection Ez as ->. left.
Qed.
Lemma purge_mine r m c B keep : ir_Source r ∈ keep → stable (mine r m c B) (purge lib st_fault keep).
Proof.
  intros Hkeep. set (key := storeKey lib (ir_Namespace r) (ir_Source r)).
  apply stable_bind; [apply stable_read|]. intros _.
  eapply (on_bind _ _ _ (λ rs l, mine r m c B l ∧ ∀ x, x ∈ rs → sr_file x = key → sr_ref x = r)).
  { eapply on_mono; [apply (on_read (mine r m c B))|done|]. intros [rs|e] l [Hl Hy]; [|done]. split; [done|]. intros x Hx Hf.
    apply (read_refs_inv _ _ _ (Hy rs eq_refl)) in Hx. apply elem_of_map_to_list in Hx. destruct Hl as [Hl _]. fold key in Hl. congruence. }
  intros refs. apply on_pure with (1 := λ l H, proj2 H). intros Hrefs.
  apply (on_mono _ (mine r m c B) _ _ (λ _, mine r m c B)); [|by intros l [? _]|done]. apply stable_bind.
  { apply stable_best_effort. intros x Hx. unfold purge_ref. case_match eqn:Hk; [apply stable_ret|].
    apply stable_bind; [|intros _; apply stable_ret]. apply RemoveRef_mine. intros Hf. pose proof (Hrefs x Hx Hf) as Hr.
    unfold sr_valid in Hk. rewrite Hr, Hf in Hk. rewrite !bool_decide_eq_true_2 in Hk by done. done. }
  intros dropped. apply (on_bind _ _ _ _ _ (on_listRefs_mine r m c B)). intros rs. apply on_pure with (1 := λ l H, proj2 H). intros Hin.
  apply (on_mono _ (mine r m c B) _ _ (λ _, mine r m c B)); [|by intros l [? _]|done]. apply stable_bind.
  { apply stable_bind; [apply stable_read|]. intros idx. apply stable_images. }
  intros imgs. apply stable_bind.
  { apply stable_best_effort. intros img _. unfold purge_image. case_match eqn:Hk; [apply stable_ret|].
    apply stable_bind; [|intros _; apply stable_ret]. apply store_Remove_mine. intros Heq.
    apply orb_false_iff in Hk as [_ Hk%bool_decide_eq_false]. apply Hk. rewrite Heq. apply list_elem_of_fmap. by eexists (mkStoredRef r _). }
  intros [[] errs]; [|apply stable_ret]. apply stable_bind; [apply stable_try, GC_mine|]. intros e. apply stable_ret.
Qed.

Lemma copyImage_stable P ref opts :
  op_NameByDigest opts = true → closed_add P → (∀ desc, ds_RefName desc = ds_Digest desc → stable P (updateIndex st_fault desc)) →
  stable P (copyImage lib st_fault rg late cancelled ref opts).
Proof.
  intros Hname HP HU. unfold copyImage. apply on_lift_bind; [|done]. intros [[[raw mt] dgst] m] [Hd _ _ _]%copy_plan_ok. rewrite Hname.
  apply stable_bind; [apply stable_read|]. intros _. apply on_lift_bind; [|done]. intros config Hc%fetchBlob_digest.
  apply stable_bind; [by apply writeBlob_stable|]. intros _. apply stable_bind.
  { eapply on_mono; [by apply (unpackLayers_on P)|done|]. by intros r l [? _]. }
  intros _. apply stable_bind; [by apply writeBlob_stable|]. intros _. destruct (cut_or _ _) as [os arch].
  apply stable_bind; [by apply HU|]. intros _. apply stable_ret.
Qed.
(** The value of a sequence is the value of its last action. *)
Lemma on_then {A B} (P : Layout → Prop) (m : St A) (k : A → St B) (Q : result StoreErr B → Prop) :
  (∀ e, Q (Err e)) → (∀ a, on (λ _, True) (k a) (λ r _, Q r)) → on P (act_bind m k) (λ r _, Q r).
Proof. intros He Hk. apply (on_bind _ _ _ (λ _ _, True)); [|done]. intros s s' [a|e] _ _; [done|apply He]. Qed.
Lemma copyImage_planned ref opts :
  on (λ _, True) (copyImage lib st_fault rg late cancelled ref opts)
    (λ r _, ∀ desc, r = Ok desc → ∃ raw mt m, planned ref opts raw mt (ds_Digest desc) m).
Proof.
  unfold copyImage. apply on_lift_bind; [|done]. intros [[[raw mt] dgst] m] Hp%copy_plan_ok.
  do 5 (apply on_then; [done|intros ?]). destruct (cut_or _ _). apply on_then; [done|intros _].
  apply hoare_ret. intros ? _ desc [= <-]. by exists raw, mt, m.
Qed.
Lemma pull_planned platform usage avail namespace source limits :
  on (λ _, True) (pull lib st_fault rg late cancelled platform usage avail namespace source limits)
    (λ r l, ∀ a, r = Ok a → ∃ ref raw mt dgst m, planned ref (pull_options lib platform usage avail source limits) raw mt dgst m ∧
       ly_refs l !! storeKey lib namespace source = Some (Some (mkImageRef namespace source dgst))).
Proof.
  apply (on_bind _ _ _ (λ _ _, True)); [by intros s s' [a|e]|]. intros _. apply on_lift_bind; [|done]. intros ref _.
  eapply (on_bind _ _ _ (λ desc _, ∃ raw mt m, planned ref (pull_options lib platform usage avail source limits) raw mt (ds_Digest desc) m)).
  { eapply on_mono; [apply copyImage_planned|done|]. intros [desc|e] l Hy; [by apply Hy|done]. }
  intros desc. apply on_pure with (1 := λ l H, H). intros (raw & mt & m & Hp).
  eapply (on_bind _ _ _ (λ img _, im_Descriptor img = desc)).
  { eapply on_mono; [apply (on_image (λ _, True))|done|]. intros [img|e] l [_ Hy]; [by destruct (Hy img eq_refl) as (_ & ? & _)|done]. }
  intros img. apply on_pure with (1 := λ l H, H). intros Hdesc. rewrite Hdesc.
  do 2 (apply (on_bind _ _ _ (λ _ _, True)); [by intros s s' [a|e]|]; intros _).
  apply on_op; [done|]. intros l _ _ _. exists ref, raw, mt, (ds_Digest desc), m. split; [done|]. cbn. apply lookup_insert_eq.
Qed.
Lemma closed_mine r m c B : closed_add (mine r m c B).
Proof.
  intros l d b [Hr (desc & Hd & Hh)] Hn _. split; [done|]. exists desc. split; [done|].
  by apply (held_kept l); [..|exact Hh]; [|by apply blobs_kept_add].
Qed.
Lemma pull_mine r m c B platform usage avail namespace source limits :
  storeKey lib namespace source ≠ storeKey lib (ir_Namespace r) (ir_Source r) →
  stable (mine r m c B) (pull lib st_fault rg late cancelled platform usage avail namespace source limits).
Proof.
  intros Hk. apply stable_bind; [apply stable_read|]. intros _. apply stable_bind; [apply stable_lift|]. intros ref.
  apply stable_bind.
  { apply copyImage_stable; [done|apply closed_mine|]. intros desc Hd. apply mine_stable; [|by apply updateIndex_holds].
    apply stable_bind; [apply stable_read|]. intros idx. by apply stable_write. }
  intros desc. apply stable_bind; [apply stable_image|]. intros img. apply stable_bind; [apply stable_read|]. intros _.
  apply stable_bind; [apply stable_read|]. intros _. apply stable_write. intros l [Hr Hh]. split; cbn; [|by apply (holds_same l)].
  by rewrite lookup_insert_ne.
Qed.
(** A pull tears no layer. *)
Lemma pull_untorn d platform usage avail namespace source limits :
  stable (λ l, ¬ torn d l) (pull lib st_fault rg late cancelled platform usage avail namespace source limits).
Proof.
  apply stable_bind; [apply stable_read|]. intros _. apply stable_bind; [apply stable_lift|]. intros ref. apply stable_bind.
  { apply copyImage_stable; [done|apply closed_untorn|]. intros desc _. apply stable_bind; [apply stable_read|]. intros idx. by apply stable_write. }
  intros desc. apply stable_bind; [apply stable_image|]. intros img. apply stable_bind; [apply stable_read|]. intros _.
  apply stable_bind; [apply stable_read|]. intros _. by apply stable_write.
Qed.
End Pull.

(** A removal tears a layer only where a file operation failed. *)
Definition fails : Prop := ∃ n e, st_fault n = Some e.
Definition untorn_or_fails (d : string) (l : Layout) : Prop := ¬ torn d l ∨ fails.
Lemma GC_untorn d : stable (untorn_or_fails d) (GC lib st_fault).
Proof.
  apply stable_bind; [apply stable_read|]. intros idx. apply stable_bind; [apply stable_images|]. intros imgs.
  apply stable_bind; [apply stable_read|]. intros es. apply stable_each. intros x _. case_bool_decide; [apply stable_ret|].
  intros [l n] s' r. unfold RemoveBlob, file_op. cbn. destruct (st_fault n) as [e|] eqn:E; intros [= <- <-]; [right; by exists n, e|].
  intros [Hl|Hf]; [left|by right]. intros [raw Hr]. cbn in Hr. apply lookup_delete_Some in Hr as [_ Hr]. apply Hl. by exists raw.
Qed.
Lemma RemoveRef_untorn d file : stable (untorn_or_fails d) (RemoveRef st_fault file).
Proof. apply on_op; [done|]. intros l Hl. by destruct (ly_refs l !! file). Qed.
Lemma store_Remove_untorn d name : stable (untorn_or_fails d) (store_Remove st_fault name).
Proof. apply stable_bind; [apply stable_read|]. intros idx. cbv zeta. case_match; [apply stable_fail|]. by apply stable_write. Qed.
Lemma removeImage_untorn d namespace source : stable (untorn_or_fails d) (removeImage lib st_fault namespace source).
Proof.
  apply stable_bind; [apply stable_read|]. intros binding. apply stable_bind; [apply RemoveRef_untorn|]. intros _.
  apply stable_bind; [apply stable_listRefs|]. intros rs. case_match; [apply stable_ret|].
  apply stable_bind; [apply stable_try, store_Remove_untorn|]. intros [[]|[]]; try apply GC_untorn; apply stable_fail.
Qed.
Lemma purge_untorn d keep : stable (untorn_or_fails d) (purge lib st_fault keep).
Proof.
  apply stable_bind; [apply stable_read|]. intros _. apply stable_bind; [apply stable_listRefs|]. intros refs. apply stable_bind.
  { apply stable_best_effort. intros r _. unfold purge_ref. case_match; [apply stable_ret|].
    apply stable_bind; [apply RemoveRef_untorn|]. intros _. apply stable_ret. }
  intros dropped. apply stable_bind; [apply stable_listRefs|]. intros survivors. apply stable_bind.
  { apply stable_bind; [apply stable_read|]. intros idx. apply stable_images. }
  intros imgs. apply stable_bind.
  { apply stable_best_effort. intros img _. unfold purge_image. case_match; [apply stable_ret|].
    apply stable_bind; [apply store_Remove_untorn|]. intros _. apply stable_ret. }
  intros [[] errs]; [|apply stable_ret]. apply stable_bind; [apply stable_try, GC_untorn|]. intros e. apply stable_ret.
Qed.
End Images.

(** What an application's image resolves to when nothing fails. *)
Definition resolves (lib : OciLib) (l : Layout) (namespace source : string) : result StoreErr ImageSpec :=
  (Spec lib (λ _, None) namespace source (l, 0%nat)).2.
Lemma mine_resolves lib r m c B l :
  mine lib r m c B l → oc_Validate lib (ir_Digest r) = true →
  resolves lib l (ir_Namespace r) (ir_Source r) = Ok (mkImageSpec (blobPath ∘ ds_Digest <$> distinct (mf_Layers m)) c).
Proof.
  intros [Hr (desc & Hd & [(idx & Hi & Hf) (raw & Hm & Hm') (craw & Hc & Hc') _])] Hv.
  unfold resolves, Spec, readRef, Resolve, store_index, image, blobJSON, read_op, file_op, act_bind, act_ret. cbn.
  rewrite Hr. cbn. rewrite Hv. cbn. rewrite Hi. cbn. rewrite Hf. cbn. rewrite Hm, Hm'. cbn. by rewrite Hc, Hc'.
Qed.
Lemma key_text_inj n s n' s' :
  GoStrings.no_char "000" n = true → GoStrings.no_char "000" n' = true →
  n +:+ String "000" s = n' +:+ String "000" s' → n = n' ∧ s = s'.
Proof.
  intros H1 H2 E. pose proof (GoStrings.cut_app _ n s H1) as C1. rewrite E, GoStrings.cut_app in C1 by done. by injection C1 as <- <-.
Qed.
(** What is held is held as it is. *)
Lemma bound_as_is lib l r m c B : holds lib l (ir_Digest r) m c B → holds lib l (ir_Digest r) m c (ly_blobs l).
Proof.
  intros (desc & Hd & [H1 H2 H3 H4]). exists desc. split; [done|]. split; [done..|]. intros d Hin.
  destruct (H4 d Hin) as (raw & t & _ & H). by exists raw, t.
Qed.

(** ** Operations on a store *)
Section Ops.
Context {HQ : Quantity} (lib : OciLib).
Inductive ImageOp :=
| OpPull (rg : Registry) (late : string → bool) (cancelled : string → nat → option error) (platform : string)
    (usage avail : result error Z) (namespace source : string) (limits : ImageLimits)
| OpRemove (namespace source : string)
| OpPurge (keep : list string).
(** One operation with its faults; an error is reported to the caller and changes nothing more. *)
Definition exec (l : Layout) (x : (nat → option error) * ImageOp) : Layout :=
  let '(st_fault, op) := x in
  match op with
  | OpPull rg late cancelled platform usage avail namespace source limits =>
      (pull lib st_fault rg late cancelled platform usage avail namespace source limits (l, 0%nat)).1.1
  | OpRemove namespace source => (removeImage lib st_fault namespace source (l, 0%nat)).1.1
  | OpPurge keep => (purge lib st_fault keep (l, 0%nat)).1.1
  end.
Definition run_ops (ops : list ((nat → option error) * ImageOp)) (l : Layout) : Layout := foldl exec l ops.

Lemma stable_exec {A} P (m : Act (Layout * nat) StoreErr A) l : stable P m → P l → P (m (l, 0%nat)).1.1.
Proof. intros H Hl. destruct (m (l, 0%nat)) as [s r] eqn:E. by apply (H _ _ _ E). Qed.

Lemma run_ops_app ops1 ops2 l : run_ops (ops1 ++ ops2) l = run_ops ops2 (run_ops ops1 l).
Proof. apply foldl_app. Qed.
(** The operation met a collision of SHA-256, in the store it left. *)
Definition op_collides (op : ImageOp) (l : Layout) : Prop :=
  match op with OpPull rg _ _ _ _ _ _ _ _ => collides lib rg l | _ => False end.
Definition met_collision (ops : list ((nat → option error) * ImageOp)) (l : Layout) : Prop :=
  ∃ ops1 x ops2, ops = ops1 ++ x :: ops2 ∧ op_collides x.2 (run_ops (ops1 ++ [x]) l).
(** A removal or a purge in which a file operation failed left this layer torn. *)
Definition torn_by (ops : list ((nat → option error) * ImageOp)) (l : Layout) (d : string) : Prop :=
  ∃ ops1 st_fault op ops2, ops = ops1 ++ (st_fault, op) :: ops2 ∧
    (match op with OpPull _ _ _ _ _ _ _ _ _ => False | _ => True end) ∧ fails st_fault ∧
    ¬ torn d (run_ops ops1 l) ∧ torn d (run_ops (ops1 ++ [(st_fault, op)]) l).

Lemma exec_ok x l : store_ok lib l → store_ok lib (exec l x) ∨ op_collides x.2 (exec l x).
Proof.
  destruct x as [st_fault op]. intros Hl. destruct op as [rg late cancelled platform usage avail ns source limits| |]; cbn.
  - destruct (pull _ _ _ _ _ _ _ _ _ _ _ _) as [s r] eqn:E. exact (pull_ok _ _ _ _ _ _ _ _ _ _ _ _ _ _ E Hl).
  - left. by apply (stable_exec (store_ok lib)); [apply removeImage_ok|].
  - left. by apply (stable_exec (store_ok lib)); [apply purge_ok|].
Qed.
Lemma run_ops_ok ops l : store_ok lib l → store_ok lib (run_ops ops l) ∨ met_collision ops l.
Proof.
  revert l. induction ops as [|x ops IH]; intros l Hl; [by left|]. destruct (exec_ok x l Hl) as [Hx|Hx].
  - destruct (IH _ Hx) as [H|(ops1 & y & ops2 & -> & Hy)]; [by left|]. right. by exists (x :: ops1), y, ops2.
  - right. by exists [], x, ops.
Qed.
Instance torn_dec d l : Decision (torn d l).
Proof.
  unfold torn. destruct (ly_blobs l !! d) as [[raw|raw []]|]; [right|left; by exists raw|right|right]; by intros [? [=]].
Defined.
Lemma exec_untorn st_fault op d l :
  ¬ torn d l → torn d (exec l (st_fault, op)) →
  (match op with OpPull _ _ _ _ _ _ _ _ _ => False | _ => True end) ∧ fails st_fault.
Proof.
  intros Hl. destruct op; cbn.
  - intros H. by destruct (stable_exec _ _ l (pull_untorn lib st_fault rg late cancelled d platform usage avail namespace source limits) Hl).
  - intros H. split; [done|]. by destruct (stable_exec _ _ l (removeImage_untorn lib st_fault d namespace source) (or_introl Hl)).
  - intros H. split; [done|]. by destruct (stable_exec _ _ l (purge_untorn lib st_fault d keep) (or_introl Hl)).
Qed.
Lemma run_ops_torn ops l d : torn d (run_ops ops l) → torn d l ∨ torn_by ops l d.
Proof.
  revert l. induction ops as [|[st_fault op] ops IH]; intros l H; [by left|]. destruct (decide (torn d l)) as [Ht|Ht]; [by left|]. right.
  destruct (IH _ H) as [Hx|(ops1 & f & o & ops2 & -> & Hrest)].
  - destruct (exec_untorn st_fault op d l Ht Hx) as [H1 H2]. by exists [], st_fault, op, ops.
  - by exists ((st_fault, op) :: ops1), f, o, ops2.
Qed.

(** The manifest a binding names. *)
Definition image_of (l : Layout) (r : imageRef) (m : Manifest) : Prop :=
  ∃ raw, ly_blobs l !! ir_Digest r = Some (BData raw) ∧ oc_manifest lib raw = Ok m.
Lemma holds_image_of l r m c B : holds lib l (ir_Digest r) m c B → image_of l r m.
Proof. unfold image_of. intros (desc & <- & Hh). exact (held_manifest _ _ _ _ _ _ _ Hh). Qed.

(** C34: A binding never dangles: after any pulls, removals and purges of any tenants, each
    failing anywhere, every binding in the store resolves to the image its digest names and
    each layer of it has its directory; and every blob is all of the bytes its digest names,
    except a layer directory torn by a removal that failed part-way, before these operations or
    in one of them.  Otherwise a pull met a collision of SHA-256: two manifests of one digest. *)
Theorem bindings_never_dangle ops l :
  store_ok lib l →
  let l' := run_ops ops l in
  met_collision ops l ∨
  (∀ f r, ly_refs l' !! f = Some (Some r) → oc_Validate lib (ir_Digest r) = true →
    ∃ m c, image_of l' r m ∧
      resolves lib l' (ir_Namespace r) (ir_Source r) = Ok (mkImageSpec (blobPath ∘ ds_Digest <$> distinct (mf_Layers m)) c) ∧
      ∀ d, d ∈ mf_Layers m → layer_there (ds_Digest d) l') ∧
  ∀ d b, ly_blobs l' !! d = Some b → blob_ok lib d b ∨ torn d l ∨ torn_by ops l d.
Proof.
  intros Hl l'. destruct (run_ops_ok ops l Hl) as [[Hb Ha]|Hcol]; [right|by left]. fold l' in Hb, Ha. split.
  - intros f r Hr Hv. destruct (Hb f r Hr) as [-> (m & c & B & Hh)]. exists m, c. split; [by eapply holds_image_of|].
    split; [by eapply mine_resolves|]. destruct Hh as (desc & _ & Hh). intros d Hd.
    destruct (held_layers _ _ _ _ _ _ _ Hh d Hd) as (raw & t & _ & Hlt). by exists raw, t.
  - intros d b Hd. specialize (Ha d b Hd). destruct b as [raw|raw []]; [by left|right|by left]. apply run_ops_torn. by exists raw.
Qed.

(** C36: A pull that succeeds binds its namespace to an image it verified: the manifest is the
    bytes of the digest bound, its declared sizes add up within the node's limits and the room
    left in the store, and a pinned source got the pinned manifest, or the one the pinned index
    selects for the platform when that index names it by a digest. *)
Theorem pull_verified st_fault rg late cancelled platform usage avail namespace source limits l n s' :
  pull lib st_fault rg late cancelled platform usage avail namespace source limits (l, n) = (s', Ok tt) →
  ∃ raw m declared,
    ly_refs s'.1 !! storeKey lib namespace source = Some (Some (mkImageRef namespace source (oc_FromBytes lib raw))) ∧
    oc_manifest lib raw = Ok m ∧
    checkManifest (oc_Validate lib) m (image_bounds limits) = Ok declared ∧ checkStoreBudget usage avail declared limits = None ∧
    (pinnedDigest (oc_Parse lib) source ≠ "" → ∃ raw0, oc_FromBytes lib raw0 = pinnedDigest (oc_Parse lib) source ∧
      (raw = raw0 ∨ ∃ d, selectPlatform lib raw0 platform = Ok d ∧ ∀ want, oc_Parse lib (ds_Digest d) = Some want → oc_FromBytes lib raw = want)).
Proof.
  intros Hp. destruct (pull_planned lib st_fault rg late cancelled platform usage avail namespace source limits _ _ _ Hp I tt eq_refl)
    as (ref & raw & mt & dgst & m & [-> Hm (declared & Hc & Hb) Hpin] & Hr).
  exists raw, m, declared. split; [done|]. split; [done|]. split; [exact Hc|]. split; [exact Hb|exact Hpin].
Qed.

(** An operation that is not this binding's own, or a purge that keeps its source. *)
Definition leaves (r : imageRef) (op : ImageOp) : Prop :=
  match op with
  | OpPull _ _ _ _ _ _ namespace source _ | OpRemove namespace source =>
      GoStrings.no_char "000" namespace = true ∧ (namespace ≠ ir_Namespace r ∨ source ≠ ir_Source r)
  | OpPurge keep => ir_Source r ∈ keep
  end.
(** The text a binding file is named by. *)
Definition key_text (namespace source : string) : string := namespace +:+ String "000" source.
(** The operation is on another text with the same sum. *)
Definition key_collision (r : imageRef) (op : ImageOp) : Prop :=
  match op with
  | OpPull _ _ _ _ _ _ namespace source _ | OpRemove namespace source =>
      key_text namespace source ≠ key_text (ir_Namespace r) (ir_Source r) ∧
      oc_sum lib (key_text namespace source) = oc_sum lib (key_text (ir_Namespace r) (ir_Source r))
  | OpPurge _ => False
  end.
Lemma leaves_key r namespace source :
  GoStrings.no_char "000" (ir_Namespace r) = true →
  GoStrings.no_char "000" namespace = true ∧ (namespace ≠ ir_Namespace r ∨ source ≠ ir_Source r) →
  (key_text namespace source ≠ key_text (ir_Namespace r) (ir_Source r) ∧
   oc_sum lib (key_text namespace source) = oc_sum lib (key_text (ir_Namespace r) (ir_Source r))) ∨
  storeKey lib namespace source ≠ storeKey lib (ir_Namespace r) (ir_Source r).
Proof.
  intros Hr [Hn Hor]. destruct (decide (storeKey lib namespace source = storeKey lib (ir_Namespace r) (ir_Source r))) as [E|]; [left|by right].
  split; [|exact E]. intros Et. apply key_text_inj in Et as [-> ->]; [|done..]. by destruct Hor.
Qed.
Lemma exec_mine r m c B x l :
  GoStrings.no_char "000" (ir_Namespace r) = true → leaves r x.2 → mine lib r m c B l →
  key_collision r x.2 ∨ mine lib r m c B (exec l x).
Proof.
  destruct x as [st_fault op]. intros Hns Hop Hm. destruct op; cbn in Hop |- *.
  - destruct (leaves_key r _ _ Hns Hop) as [H|H]; [by left|right]. by apply (stable_exec (mine lib r m c B)); [apply pull_mine|].
  - destruct (leaves_key r _ _ Hns Hop) as [H|H]; [by left|right]. by apply (stable_exec (mine lib r m c B)); [apply removeImage_mine|].
  - right. by apply (stable_exec (mine lib r m c B)); [apply purge_mine|].
Qed.
Lemma run_ops_mine r m c B ops l :
  GoStrings.no_char "000" (ir_Namespace r) = true → Forall (λ x, leaves r x.2) ops → mine lib r m c B l →
  Exists (λ x, key_collision r x.2) ops ∨ mine lib r m c B (run_ops ops l).
Proof.
  intros Hns Hops. revert l. induction Hops as [|x ops Hop Hops IH]; intros l Hm; [by right|].
  destruct (exec_mine r m c B x l Hns Hop Hm) as [H|H]; [by left; constructor|].
  destruct (IH _ H) as [H'|H']; [left; by right|by right].
Qed.

(** C35: No tenant can change another's image: whatever is pulled or removed under any other
    namespace or source, and purged keeping its source, in any order and failing anywhere, a
    bound image resolves to the same layers and configuration, and its manifest and each of its
    layer directories stay exactly as they were.  Otherwise two different namespace and source
    texts have one SHA-256 sum. *)
Theorem tenants_keep_their_images ops l r sp :
  store_ok lib l → ly_refs l !! storeKey lib (ir_Namespace r) (ir_Source r) = Some (Some r) → GoStrings.no_char "000" (ir_Namespace r) = true →
  Forall (λ x, leaves r x.2) ops → resolves lib l (ir_Namespace r) (ir_Source r) = Ok sp →
  Exists (λ x, key_collision r x.2) ops ∨
  let l' := run_ops ops l in
  resolves lib l' (ir_Namespace r) (ir_Source r) = Ok sp ∧
  ∃ m, image_of l r m ∧ image_of l' r m ∧ is_LayerDirs sp = (blobPath ∘ ds_Digest <$> distinct (mf_Layers m)) ∧
    ∀ d, d ∈ mf_Layers m → layer_there (ds_Digest d) l ∧ ly_blobs l' !! ds_Digest d = ly_blobs l !! ds_Digest d.
Proof.
  intros Hok Hr Hns Hops Hsp. destruct (ok_bound _ _ Hok _ _ Hr) as [_ (m & c & B & Hh)].
  pose proof (bound_as_is lib l r m c B Hh) as Hh'. set (l0 := ly_blobs l) in Hh'.
  assert (oc_Validate lib (ir_Digest r) = true) as Hv.
  { unfold resolves, Spec, readRef, read_op, file_op, act_bind in Hsp. cbn in Hsp. rewrite Hr in Hsp. cbn in Hsp. by destruct (oc_Validate lib (ir_Digest r)). }
  rewrite (mine_resolves lib r m c l0 l) in Hsp by done. injection Hsp as <-.
  destruct (run_ops_mine r m c l0 ops l Hns Hops (conj Hr Hh')) as [H|Hm]; [by left|right]. split; [by eapply mine_resolves|].
  exists m. split; [by eapply holds_image_of|]. split; [eapply holds_image_of, Hm|]. split; [done|]. intros d Hd.
  destruct Hm as [_ (desc & _ & Hm)]. destruct (held_layers _ _ _ _ _ _ _ Hm d Hd) as (raw & t & H1 & H2). unfold l0 in H1.
  split; [by exists raw, t|]. by rewrite H1, H2.
Qed.
End Ops.

(** ** An image store at work

    Digests are the bytes themselves after [sha256:]; two namespaces share an image. *)
Module ImageDemo.
#[local] Open Scope Z_scope.
Import NanoQuantity.
Definition sha (s : string) : string := "sha256:" +:+ s.
Definition is_sha (s : string) : bool := GoStrings.has_prefix "sha256:" s.
Definition blob_desc (raw : string) (size : Z) : Descriptor := mkDescriptor mediaTypeLayerGzip (sha raw) size None "".
Definition config : ImageConfig := mkImageConfig ["/bin/db"] [] [] "" "/".
(** Two images share a layer; the third declares no size for its only layer. *)
Definition manifests (raw : string) : result error Manifest :=
  if bool_decide (raw = "db") then Ok (mkManifest (blob_desc "cfg" 3) [blob_desc "base" 4; blob_desc "data" 4])
  else if bool_decide (raw = "web") then Ok (mkManifest (blob_desc "cfg" 3) [blob_desc "base" 4])
  else if bool_decide (raw = "bomb") then Ok (mkManifest (blob_desc "cfg" 3) [blob_desc "unbounded" 0])
  else Err "not a manifest".
Definition lib : OciLib := mkOciLib sha is_sha (λ d raw, bool_decide (d = sha raw)) (λ d, if is_sha d then Some d else None) (λ s, s)
  (λ _, Err "not an index") manifests (λ raw, if bool_decide (raw = "cfg") then Ok config else Err "not a config") (λ _ _, Ok (mkStats 1 0 0 0)).
(** A registry that serves what a digest names, and a manifest under its tag. *)
Definition body (s : string) : Source := mkSource (String.list_ascii_of_string s) EOF.
Definition registry : Registry := mkRegistry
  (λ t, Ok (body (if is_sha t then Hex t else t), "application/vnd.oci.image.manifest.v1+json; charset=utf-8")) (λ d _, Ok (body (Hex d))).
Definition limits : ImageLimits := mkImageLimits 0 0 0 0.
Definition pull_op (namespace source : string) : ImageOp :=
  OpPull registry (λ _, true) (λ _ _, None) "linux/amd64" (Ok 0) (Ok 1000) namespace source limits.
Definition fine (_ : nat) : option error := None.
Definition empty : Layout := mkLayout (Ok []) ∅ ∅.

Lemma empty_ok : store_ok lib empty.
Proof. split; [intros f r|intros d b]; cbn; by rewrite lookup_empty. Qed.
Lemma sha_inj a b : oc_FromBytes lib a = oc_FromBytes lib b → a = b.
Proof. change (sha a = sha b → a = b). unfold sha. by intros ?%(inj (String.append "sha256:")). Qed.

Lemma no_collision ops l : met_collision lib ops l → False.
Proof.
  intros (ops1 & [f op] & ops2 & _ & H). destruct op; cbn in H; [|done..]. destruct H as (raw & raw' & _ & _ & Hne & E).
  by apply Hne, sha_inj.
Qed.
(** The second namespace pins the image the first pulls by tag; the first then drops its own. *)
Definition shared : list ((nat → option error) * ImageOp) :=
  [(fine, pull_op "a" "reg.io/app:db"); (fine, pull_op "b" "reg.io/app@sha256:db"); (fine, OpRemove "a" "reg.io/app:db")].
Definition b_ref : imageRef := mkImageRef "b" "reg.io/app@sha256:db" "sha256:db".
Lemma shared_bound : ly_refs (run_ops lib shared empty) !! storeKey lib "b" "reg.io/app@sha256:db" = Some (Some b_ref).
Proof. vm_compute. reflexivity. Qed.
Lemma bindings_never_dangle_witness :
  ly_refs (run_ops lib shared empty) !! storeKey lib "a" "reg.io/app:db" = None ∧
  (∃ m c, resolves lib (run_ops lib shared empty) "b" "reg.io/app@sha256:db" = Ok (mkImageSpec (blobPath ∘ ds_Digest <$> distinct (mf_Layers m)) c)) ∧
  ∀ raw t, ly_blobs (run_ops lib shared empty) !! sha "base" = Some (BLayer raw t) → t = false.
Proof.
  split; [vm_compute; reflexivity|].
  destruct (bindings_never_dangle lib shared empty empty_ok) as [[]%no_collision|[H Hb]]. split.
  - destruct (H _ b_ref shared_bound eq_refl) as (m & c & _ & Hr & _). by exists m, c.
  - intros raw t Ht. destruct (Hb _ _ Ht) as [[_ ?]|[[x Hx]|(ops1 & f & op & ops2 & E & _ & (n & e & Hf) & _)]]; [done|done|].
    assert ((f, op) ∈ shared) as Hin by (rewrite E; apply elem_of_app; right; left).
    assert (f = fine) as -> by (clear -Hin; unfold shared in Hin; repeat (apply elem_of_cons in Hin as [Hin|Hin];
      [exact (f_equal fst Hin)|]); by apply elem_of_nil in Hin). discriminate Hf.
Defined.

(** A purge that fails on every removal, a pull and a removal by another tenant. *)
Definition before : Layout := run_ops lib [(fine, pull_op "b" "reg.io/app@sha256:db")] empty.
Definition others : list ((nat → option error) * ImageOp) :=
  [(fine, pull_op "a" "reg.io/web:web"); (λ n, if (4 <? n)%nat then Some "busy" else None, OpPurge ["reg.io/app@sha256:db"]);
   (fine, OpRemove "a" "reg.io/web:web")].
Lemma tenants_keep_their_images_witness :
  resolves lib (run_ops lib others before) "b" "reg.io/app@sha256:db" = Ok (mkImageSpec ["blobs/sha256/base"; "blobs/sha256/data"] config) ∧
  ly_blobs (run_ops lib others before) !! sha "base" = Some (BLayer "base" false).
Proof.
  destruct (tenants_keep_their_images lib others before b_ref (mkImageSpec ["blobs/sha256/base"; "blobs/sha256/data"] config)) as [H|(H & m & _ & _ & _)].
  - destruct (run_ops_ok lib [(fine, pull_op "b" "reg.io/app@sha256:db")] empty empty_ok) as [H|[]%no_collision]. exact H.
  - vm_compute. reflexivity.
  - reflexivity.
  - repeat constructor; cbn; first [reflexivity|discriminate|left; discriminate].
  - vm_compute. reflexivity.
  - exfalso. apply Exists_exists in H as (x & _ & Hx). destruct (snd x); cbn in Hx; [by destruct Hx|by destruct Hx|done].
  - split; [exact H|]. vm_compute. reflexivity.
Defined.

Lemma pull_verified_witness :
  ∃ raw m declared, sha raw = "sha256:db" ∧ manifests raw = Ok m ∧
    checkManifest is_sha m (image_bounds limits) = Ok declared ∧ checkStoreBudget (Ok 0) (Ok 1000) declared limits = None.
Proof.
  set (x := pull lib fine registry (λ _, true) (λ _ _, None) "linux/amd64" (Ok 0) (Ok 1000) "b" "reg.io/app@sha256:db" limits (empty, 0%nat)).
  assert (x = (x.1, Ok tt)) as E by (vm_compute; reflexivity).
  destruct (pull_verified lib fine registry (λ _, true) (λ _ _, None) "linux/amd64" (Ok 0) (Ok 1000) "b" "reg.io/app@sha256:db" limits empty 0%nat x.1 E)
    as (raw & m & declared & Hr & Hm & Hc & Hb & _).
  exists raw, m, declared. split; [|done].
  assert (ly_refs x.1.1 !! storeKey lib "b" "reg.io/app@sha256:db" = Some (Some b_ref)) as Hx by (vm_compute; reflexivity).
  rewrite Hx in Hr. injection Hr as Hd. change ("db" = raw) in Hd. subst raw. reflexivity.
Defined.

(** A layer that declares no size is read without a bound: the image declares three bytes,
    that is what the free space is compared with, and nine more are stored. *)
Example undeclared_layer_unbounded :
  checkManifest is_sha (mkManifest (blob_desc "cfg" 3) [blob_desc "unbounded" 0]) (image_bounds limits) = Ok 3 ∧
  bounded (body "unbounded") 0 "its declared size" = (String.list_ascii_of_string "unbounded", EOF) ∧
  let l := exec lib empty (fine, OpPull registry (λ _, true) (λ _ _, None) "linux/amd64" (Ok 0) (Ok 3) "a" "reg.io/x:bomb" limits) in
  ly_blobs l !! sha "unbounded" = Some (BLayer "unbounded" false).
Proof. vm_compute. auto. Qed.

(** The removal of a layer fails half-way; the next image that has the layer takes the torn
    directory for a complete one. *)
Example torn_layer_reused :
  let l := run_ops lib [(fine, pull_op "a" "reg.io/app:web"); (λ n, if bool_decide (n = 9%nat) then Some "busy" else None, OpRemove "a" "reg.io/app:web");
                        (fine, pull_op "b" "reg.io/app:db")] empty in
  resolves lib l "b" "reg.io/app:db" = Ok (mkImageSpec ["blobs/sha256/base"; "blobs/sha256/data"] config) ∧
  ly_blobs l !! sha "base" = Some (BLayer "base" true).
Proof. vm_compute. auto. Qed.
End ImageDemo.
