(* ===== verification/Volumes.v ===== *)
(** * The volume driver (agent/volume/volume.go)

    Directories on the node's disk behind PersistentVolumes: provisioned once, resolved to the
    path a workload's mount binds, reclaimed when the volume is gone.  The disk is that of
    [InodeFS]; between two calls of the agent the workloads act on it ([host_meanwhile]).  A
    volume's identity is one path element; the ledger file holds what was saved last. *)
From stdpp Require Import gmap strings list.
From Stdlib Require Import ZArith Ascii.
From S2P Require Import Prelude Resources Paths CoreV1 Uids Workload InodeFS.
#[local] Open Scope Z_scope.

(** ** Modes *)
(** The digits of [strconv.ParseUint(s, 8, 32)], underscores refused. *)
Fixpoint parse_octal (s : string) (n : Z) : option Z :=
  match s with
  | EmptyString => Some n
  | String c s' =>
      if in_range "0" "7" c then
        let n := 8 * n + (Z.of_nat (nat_of_ascii c) - 48) in
        if 2 ^ 32 <=? n then None else parse_octal s' n
      else None
  end.
Definition defaultVolumeMode : Z := perms 7 7 0.
Definition subPathMode : Z := Z.lor (perms 7 7 0) sticky.
Definition volumeMode (s : string) : Z :=
  if bool_decide (s = "") then defaultVolumeMode
  else match parse_octal s 0 with
       | None => defaultVolumeMode
       | Some n =>
           let mode := Z.lor (Z.land n (perms 7 7 0)) (if has_bit sticky n then sticky else 0) in
           if Z.land mode (perms 7 0 0) =? 0 then defaultVolumeMode else mode
       end.
(** The permission bits, set-gid and sticky. *)
Definition keepBits (m : Z) : Z := Z.land m (Z.lor (perms 7 7 7) (Z.lor setgid sticky)).

Definition ReclaimDelete : string := "Delete".
Definition ReclaimRetain : string := "Retain".

(** ** The driver *)
Inductive VolErr :=
| VolSys (e : Errno)
| VolText (text : string)
| VolPath (e : PathError)
| VolIn (what : string) (e : VolErr).

Section Driver.
Context {HQ : Quantity}.
Definition reclaimPolicyOf (pv : PersistentVolume) : string :=
  if bool_decide (pvs_ReclaimPolicy (pv_Spec pv) = ReclaimRetain) then ReclaimRetain else ReclaimDelete.

Record local := mkLocal { lo_stateDir : list string; lo_subUID : IDRange; lo_subGID : IDRange }.
(** The driver's fields that change: the disk, the recorded policies and the saved ones. *)
Record vol_state := mkVol { vst_sys : Disk * nat; vst_provisioned : gmap string string; vst_saved : option (gmap string string) }.
Definition VM (A : Type) : Type := Act vol_state VolErr A.

Context (h : Host) (l : local).
(** Which entries a removal that failed had left. *)
Context (left_over : nat → list string → bool).

Definition vsys {A} (m : Sys A) : VM A := λ v,
  let '(s, r) := m (vst_sys v) in
  (mkVol s (vst_provisioned v) (vst_saved v), match r with Ok a => Ok a | Err e => Err (VolSys e) end).
Definition wrapped {A} (what : string) (m : VM A) : VM A := act_wrap (VolIn what) m.
(** An error that is only logged. *)
Definition warned {A} (m : Sys A) : VM unit := (let! _ := act_try (vsys m) in act_ret tt)%go.

Definition pvDir (name : string) : list string := lo_stateDir l ++ ["volumes"; name].
Definition floorGID : Z := AgentID (lo_subGID l) DefaultRunAsID.
Definition volumeGroupOf (app : App) : Z :=
  match wa_SecurityContext app with
  | Some sc => match sc_RunAsGroup sc with Some g => AgentID (lo_subGID l) g | None => 0 end
  | None => 0
  end.

(** *** The ledger *)
Definition saveProvisioned : VM unit := λ v,
  match vsys (do! call h (λ d, (d, Ok tt)) in call h (λ d, (d, Ok tt)))%go v with (* the file written, renamed *)
  | (v, Ok _) => (mkVol (vst_sys v) (vst_provisioned v) (Some (vst_provisioned v)), Ok tt)
  | (v, Err _) => (v, Ok tt)
  end.
(** [loadRecords] of a file that was written whole or not at all. *)
Definition loadRecords (saved : option (gmap string string)) : gmap string string := default ∅ saved.
Definition NewLocal (s : Disk * nat) (saved : option (gmap string string)) : vol_state := mkVol s (loadRecords saved) saved.
Definition record (name policy : string) : VM unit := λ v,
  (mkVol (vst_sys v) (<[name := policy]> (vst_provisioned v)) (vst_saved v), Ok tt).
Definition forget (name : string) : VM unit := λ v,
  (mkVol (vst_sys v) (delete name (vst_provisioned v)) (vst_saved v), Ok tt).
Definition recorded (name : string) : VM (option string) := λ v, (v, Ok (vst_provisioned v !! name)).

(** *** Provision *)
(** One volume: whether the ledger changed, and the error. *)
Definition provision_one (name : string) (pv : PersistentVolume) : VM (bool * list VolErr) :=
  let rp := reclaimPolicyOf pv in
  let dir := pvDir name in
  (let! rec := recorded name in
   let changed := negb (bool_decide (rec = Some rp)) in
   do! (if changed then record name rp else act_ret tt) in
   let! there := act_try (vsys (Lstat h dir)) in
   match there with
   | Ok _ => act_ret (changed, [])
   | Err _ =>
       let mode := volumeMode (pvs_Mode (pv_Spec pv)) in
       let! made := act_try (vsys (MkdirAll h dir mode)) in
       match made with
       | Err e => act_ret (changed, [VolIn "provision volume" e])
       | Ok _ =>
           do! warned (Chmod h dir mode) in
           let owner := AgentID (lo_subUID l) DefaultRunAsID in
           do! warned (Chown h dir owner owner) in
           act_ret (changed, [])
       end
   end)%go.
Fixpoint over {A} (f : A → VM (bool * list VolErr)) (items : list A) : VM (bool * list VolErr) :=
  match items with
  | [] => act_ret (false, [])
  | a :: items =>
      let! x := f a in
      let! y := over f items in
      act_ret (x.1 || y.1, x.2 ++ y.2)
  end%go.
(** The volumes in the order the map was ranged over. *)
Definition Provision (pvs : list (string * PersistentVolume)) : VM (list VolErr) :=
  (let! x := over (λ p, provision_one p.1 p.2) pvs in
   do! (if x.1 : bool then saveProvisioned else act_ret tt) in
   act_ret x.2)%go.

(** *** Fits *)
Definition Fits (app : App) (pvs : gmap string PersistentVolume) : bool :=
  forallb (λ m, negb (IsPV m) || bool_decide (is_Some (pvs !! WorkloadID (wa_Namespace app) (PVName m (wa_Name app))))) (wa_Volumes app).

(** *** Resolve *)
Definition applyVolumeGroup (path : list string) (gid : Z) : VM unit :=
  (if gid <=? 0 then act_ret tt
   else
     let! fi := vsys (Lstat h path) in
     do! warned (Chown h path (host_uid h) gid) in
     vsys (Chmod h path (Z.lor (Z.lor (keepBits (in_mode fi)) (perms 0 7 0)) setgid)))%go.

Definition agentOwnedDir (p : list string) : VM unit :=
  (let! fi := vsys (Lstat h p) in
   match in_kind fi with
   | KLink _ => act_fail (VolText "is a symlink; the bind mount would resolve it out of the volume")
   | KDir => if negb (in_uid fi =? host_uid h) then act_fail (VolText "not a safe bind source") else act_ret tt
   | _ => act_fail (VolText "is not a directory")
   end)%go.

Definition ensureAgentOwned (dir : list string) : VM unit :=
  (let! st := act_try (vsys (Lstat h dir)) in
   match st with
   | Err (VolSys ENOENT) =>
       do! vsys (MkdirAll h dir (Z.lor defaultVolumeMode sticky)) in
       do! vsys (Chmod h dir (Z.lor defaultVolumeMode sticky)) in
       warned (Chown h dir (host_uid h) floorGID)
   | Err e => act_fail e
   | Ok fi =>
       if negb (IsDir fi) then act_fail (VolText "is not a directory")
       else
         do! (if in_uid fi =? host_uid h then act_ret tt
              else wrapped "taking it back for a subPath mount failed" (vsys (Chown h dir (host_uid h) floorGID))) in
         if has_bit sticky (in_mode fi) then act_ret tt
         else wrapped "set the sticky bit" (vsys (Chmod h dir (Z.lor (keepBits (in_mode fi)) sticky)))
   end)%go.

(** [filepath.Join(cur, part)] of an element that is no [..]: the path [.] is admitted too. *)
Definition joined (cur : list string) (part : string) : list string :=
  if bool_decide (part = ".") || bool_decide (part = "") then cur else cur ++ [part].
(** The components of a subPath below [cur]. *)
Fixpoint subPath_parts (cur : list string) (parts : list string) : VM (list string) :=
  match parts with
  | [] => act_ret cur
  | part :: parts =>
      let cur := joined cur part in
      let! made := act_try (vsys (Mkdir h cur (perms 7 5 5))) in
      do! match made with
          | Ok _ => act_ret tt
          | Err (VolSys EEXIST) => wrapped "subPath" (agentOwnedDir cur)
          | Err e => act_fail (VolIn "create subPath" e)
          end in
      subPath_parts cur parts
  end%go.
Definition subPathRef (name subPath : string) : VM (list string) :=
  let dir := pvDir name in
  (if bool_decide (subPath = "") then act_ret dir
   else match ValidRelPath subPath with
        | Some e => act_fail (VolIn "subPath" (VolPath e))
        | None =>
            do! wrapped "subPath" (ensureAgentOwned dir) in
            let! cur := subPath_parts dir (split slash subPath) in
            do! warned (Chown h cur (host_uid h) floorGID) in
            do! wrapped "subPath" (vsys (Chmod h cur subPathMode)) in
            act_ret cur
        end)%go.

Definition path_text (p : list string) : string := "/" +:+ GoStrings.join "/" p.
(** One mount: [None] when storage has nothing to do with it. *)
Definition resolve_mount (app : App) (pvs : gmap string PersistentVolume) (m : VolumeMount) : VM (option Volume) :=
  (if IsTmpfs m then act_ret (Some (mkVolume VolumeTmpfs "" (vm_MountPath m) "" (q_String (vs_Size (vm_Volume m))) false ∅))
   else if IsSecret m then act_ret None
   else
     let id := WorkloadID (wa_Namespace app) (PVName m (wa_Name app)) in
     match pvs !! id with
     | None => act_fail (VolText "is not provisioned on this node")
     | Some _ =>
         let! ref := wrapped "volume" (subPathRef id (vm_SubPath m)) in
         do! wrapped "volume" (applyVolumeGroup ref (volumeGroupOf app)) in
         act_ret (Some (mkVolume VolumeHostPath (path_text ref) (vm_MountPath m) "" "" (vm_ReadOnly m) ∅))
     end)%go.
Fixpoint resolve_mounts (app : App) (pvs : gmap string PersistentVolume) (ms : list VolumeMount) : VM (list Volume) :=
  match ms with
  | [] => act_ret []
  | m :: ms =>
      let! v := resolve_mount app pvs m in
      let! vs := resolve_mounts app pvs ms in
      act_ret (match v with Some v => v :: vs | None => vs end)
  end%go.
Definition Resolve (app : App) (pvs : gmap string PersistentVolume) : VM (list Volume) := resolve_mounts app pvs (wa_Volumes app).

(** *** Reclaim *)
Definition inUse (wanted : gmap string App) : gset string :=
  list_to_set (map_to_list wanted ≫= λ x,
    omap (λ m, if IsPV m then Some (WorkloadID (wa_Namespace x.2) (PVName m (wa_Name x.2))) else None) (wa_Volumes x.2)).

(** The entries under a name, itself included; a link is not followed. *)
Definition remove_under (keep : list string → bool) (q : list string) (d : Disk) : Disk :=
  mkDisk (filter (λ x, q `prefix_of` x.1 → keep x.1 = true) (dk_names d)) (dk_inodes d) (dk_next d).
Definition RemoveAll (p : list string) : Sys unit := λ s,
  let d := host_meanwhile h s.2 s.1 in
  match namei_parent d p with
  | Err _ => ((d, S s.2), Ok tt)
  | Ok q => match host_refuses h s.2 with
            | Some r => ((remove_under (left_over s.2) q d, S s.2), Err (errno_of r))
            | None => ((remove_under (λ _, false) q d, S s.2), Ok tt)
            end
  end.
Definition reclaim_one (allPVs used : gset string) (x : string * string) : VM (bool * list VolErr) :=
  let '(name, policy) := x in
  (if bool_decide (name ∈ allPVs) || bool_decide (name ∈ used) then act_ret (false, [])
   else if bool_decide (policy = ReclaimRetain) then do! forget name in act_ret (true, [])
   else
     let! gone := act_try (vsys (RemoveAll (pvDir name))) in
     match gone with
     | Err e => act_ret (false, [VolIn "reclaim volume" e])
     | Ok _ => do! forget name in act_ret (true, [])
     end)%go.
Definition Reclaim (allPVs : gset string) (wanted : gmap string App) : VM (list VolErr) := λ v,
  (if bool_decide (allPVs = ∅) then act_ret []
   else
     let! x := over (reclaim_one allPVs (inUse wanted)) (map_to_list (vst_provisioned v)) in
     do! (if x.1 : bool then saveProvisioned else act_ret tt) in
     act_ret x.2)%go v.
End Driver.
