(* ===== verification/Tenants.v ===== *)
(** * What workloads may do to the volumes bound into them

    The adversary of agent/volume/volume.go: the processes of the workloads, which run under
    ids of their own ([W]) and see of the node's disk the volumes bound into their sandboxes.
    They create, link, move and remove entries, change modes and write files, each as far as the
    owner, the write bits and the sticky bit of the directories allow; what is refused changes
    nothing.  Paths are those of the node's disk, links resolved.

    [tenable] is what the node keeps true of its volumes: the directory above them is real and
    belongs to no workload, and every directory inside a volume that belongs to no workload is
    [closed] to removals.  [locked] is a path of closed directories: no workload can make it
    mean anything else ([locked_run]). *)
From stdpp Require Import gmap strings list.
From Stdlib Require Import ZArith Ascii.
From S2P Require Import Prelude Paths InodeFS.
#[local] Open Scope Z_scope.

Inductive TenantOp :=
| TMake (w : Z) (q : list string) (c : string) (k : Kind) (mode : Z)
| TLink (old q : list string) (c : string)
| TMove (q : list string) (c : string) (q' : list string) (c' : string)
| TRemove (q : list string) (c : string)
| TChmod (p : list string) (mode : Z)
| TWrite (p : list string) (data : string).

Section Tenants.
(** The ids of the workloads and the directory that holds the volumes. *)
Context (W : gset Z) (V : list string).

(** Written by the group or by others. *)
Definition shared_write (mode : Z) : bool := has_bit (perms 0 2 2) mode.
Definition ours (i : Inode) : bool := bool_decide (in_uid i ∈ W).
Definition may_write (d : Disk) (q : list string) : bool :=
  match find d q with Some i => IsDir i && (ours i || shared_write (in_mode i)) | None => false end.
Definition in_volume (p : list string) : bool := bool_decide (V `prefix_of` p) && bool_decide (length V + 2 ≤ length p)%nat.
(** The entry [c] of the directory [q] may be added, removed or replaced. *)
Definition may_replace (d : Disk) (q : list string) (c : string) : bool :=
  in_volume (q ++ [c]) && may_write d q &&
  match find d q, find d (q ++ [c]) with
  | Some dir, Some i => negb (has_bit sticky (in_mode dir)) || ours dir || ours i
  | _, _ => true
  end.
Definition absent (d : Disk) (p : list string) : bool := bool_decide (dk_names d !! p = None).

Definition without (p : list string) (names : Names) : Names := filter (λ x, ¬ p `prefix_of` x.1) names.
(** The entries below [p], named below [t]. *)
Definition moved (p t : list string) (names : Names) : list (list string * positive) :=
  omap (λ x, if decide (p `prefix_of` x.1) then Some (t ++ drop (length p) x.1, x.2) else None) (map_to_list names).
Definition rename (p t : list string) (names : Names) : Names := list_to_map (moved p t names) ∪ without t (without p names).

Definition tenant_op (d : Disk) (op : TenantOp) : Disk :=
  match op with
  | TMake w q c k mode =>
      if bool_decide (w ∈ W) && may_replace d q c && absent d (q ++ [c])
      then mkDisk (<[q ++ [c] := dk_next d]> (dk_names d)) (<[dk_next d := mkInode k mode w w (0, 0) []]> (dk_inodes d)) (Pos.succ (dk_next d))
      else d
  | TLink old q c =>
      match dk_names d !! old with
      | Some i => if in_volume old && negb (is_dir d old) && may_replace d q c && absent d (q ++ [c])
                  then mkDisk (<[q ++ [c] := i]> (dk_names d)) (dk_inodes d) (dk_next d) else d
      | None => d
      end
  | TMove q c q' c' =>
      if may_replace d q c && may_replace d q' c' && negb (bool_decide (q ++ [c] `prefix_of` q' ++ [c']))
      then mkDisk (rename (q ++ [c]) (q' ++ [c']) (dk_names d)) (dk_inodes d) (dk_next d) else d
  | TRemove q c => if may_replace d q c then mkDisk (without (q ++ [c]) (dk_names d)) (dk_inodes d) (dk_next d) else d
  | TChmod p mode =>
      match find d p with
      | Some i => if ours i then (change (set_in_mode mode) d p).1 else d
      | None => d
      end
  | TWrite p data =>
      match find d p with
      | Some i => match in_kind i with KFile _ => (change (set_kind (KFile data)) d p).1 | _ => d end
      | None => d
      end
  end.
Definition tenants_run (d : Disk) (ops : list TenantOp) : Disk := foldl tenant_op d ops.

(** ** What the node keeps *)
Definition closed (i : Inode) : Prop := in_kind i = KDir ∧ in_uid i ∉ W ∧ (has_bit sticky (in_mode i) = true ∨ shared_write (in_mode i) = false).
Definition locked (d : Disk) (p : list string) : Prop := ∀ j, ∃ i, find d (take j p) = Some i ∧ closed i.
Record tenable (d : Disk) : Prop := mkTenable {
  tn_names : ∀ p i, dk_names d !! p = Some i → (i < dk_next d)%positive;
  tn_inodes : ∀ i n, dk_inodes d !! i = Some n → (i < dk_next d)%positive;
  tn_apart : ∀ p q i, in_volume p = true → in_volume q = false → dk_names d !! p = Some i → dk_names d !! q = Some i → False;
  tn_above : locked d V;
  tn_inner : ∀ p i, in_volume p = true → find d p = Some i → in_kind i = KDir → in_uid i ∉ W → closed i;
}.

(** ** The effect of one call *)
(** An inode keeps its owner and stays a directory or none, and a mode no workload owns. *)
Definition lives (n n' : Inode) : Prop :=
  IsDir n' = IsDir n ∧ in_uid n' = in_uid n ∧ (in_uid n ∉ W → in_mode n' = in_mode n).
Record effect (d d' : Disk) : Prop := mkEffect {
  ef_names : ∀ x, dk_names d' !! x = dk_names d !! x ∨ ∃ q c, may_replace d q c = true ∧ q ++ [c] `prefix_of` x;
  ef_new : ∀ x i, dk_names d' !! x = Some i → dk_names d !! x = Some i ∨
    (in_volume x = true ∧ ((dk_next d ≤ i < dk_next d')%positive ∨ ∃ y, in_volume y = true ∧ dk_names d !! y = Some i));
  ef_kept : ∀ i n, dk_inodes d !! i = Some n → ∃ n', dk_inodes d' !! i = Some n' ∧ lives n n';
  ef_inodes : ∀ i n', dk_inodes d' !! i = Some n' → (∃ n, dk_inodes d !! i = Some n ∧ lives n n') ∨
    ((dk_next d ≤ i < dk_next d')%positive ∧ in_uid n' ∈ W);
  ef_next : (dk_next d ≤ dk_next d')%positive;
}.

Lemma lives_refl n : lives n n.
Proof. by split. Qed.
#[local] Hint Resolve lives_refl : core.
Lemma in_volume_above q p : in_volume q = true → q `prefix_of` p → in_volume p = true.
Proof. unfold in_volume. intros Hq [k ->]. bools. destruct_and!. split; [by apply prefix_app_r|]. rewrite length_app. lia. Qed.
Lemma may_replace_in_volume d q c : may_replace d q c = true → in_volume (q ++ [c]) = true.
Proof. unfold may_replace. intros H. bools. by destruct_and!. Qed.

(** A call that changes names only, below an entry it may replace. *)
Lemma effect_names d names :
  (∀ x, names !! x = dk_names d !! x ∨ ∃ q c, may_replace d q c = true ∧ q ++ [c] `prefix_of` x) →
  (∀ x i, names !! x = Some i → dk_names d !! x = Some i ∨
    (in_volume x = true ∧ ∃ y, in_volume y = true ∧ dk_names d !! y = Some i)) →
  effect d (mkDisk names (dk_inodes d) (dk_next d)).
Proof. intros H1 H2. split; cbn; [done| |by eauto|by eauto|lia]. intros x i Hx. destruct (H2 x i Hx) as [?|[? ?]]; eauto. Qed.
(** A call that changes one inode. *)
Lemma effect_change d p f :
  (∀ n, find d p = Some n → lives n (f n)) → effect d (change f d p).1.
Proof.
  intros Hf. assert (effect d d) as Hid by (split; [by auto|by auto|by eauto|by eauto|lia]).
  unfold change, find in *. destruct (dk_names d !! p) as [i|]; [|done].
  destruct (dk_inodes d !! i) as [n|] eqn:Hi; [|done]. cbn in *. split; cbn; [by auto|by auto| | |lia].
  - intros j m Hj. destruct (decide (i = j)) as [<-|Hij]; [|rewrite lookup_insert_ne by done; by eauto].
    rewrite lookup_insert_eq. assert (m = n) as -> by congruence. eauto.
  - intros j m. destruct (decide (i = j)) as [<-|Hij]; [|rewrite lookup_insert_ne by done; by eauto].
    rewrite lookup_insert_eq. intros [= <-]. left. eauto.
Qed.
Lemma effect_id d : effect d d.
Proof. split; [by auto|by auto|by eauto|by eauto|lia]. Qed.

Lemma without_lookup p names x : without p names !! x = names !! x ∨ p `prefix_of` x.
Proof.
  destruct (decide (p `prefix_of` x)) as [H|H]; [by right|]. left. unfold without.
  destruct (names !! x) as [i|] eqn:E.
  - by apply map_lookup_filter_Some_2.
  - apply map_lookup_filter_None. by left.
Qed.
Lemma without_Some p names x i : without p names !! x = Some i → names !! x = Some i.
Proof. unfold without. by intros [? _]%map_lookup_filter_Some. Qed.
Lemma moved_elem p t (names : Names) x i : (x, i) ∈ moved p t names → ∃ r, x = t ++ r ∧ names !! (p ++ r) = Some i.
Proof.
  unfold moved. intros ([y j] & Hy & Hd)%list_elem_of_omap. apply elem_of_map_to_list in Hy. cbn in Hd. destruct (decide (p `prefix_of` y)) as [Hp|]; [|done].
  injection Hd as <- <-. destruct Hp as [r ->]. cbn. rewrite drop_app_length. by exists r.
Qed.
Lemma rename_lookup p t names x : rename p t names !! x = names !! x ∨ p `prefix_of` x ∨ t `prefix_of` x.
Proof.
  unfold rename. destruct ((list_to_map (moved p t names) : Names) !! x) as [i|] eqn:E.
  - apply elem_of_list_to_map_2, moved_elem in E as (r & -> & _). right; right. by apply prefix_app_r.
  - rewrite lookup_union_r by done. destruct (without_lookup t (without p names) x) as [->|?]; [|by auto].
    destruct (without_lookup p names x) as [->|?]; auto.
Qed.
Lemma rename_Some p t names x i : rename p t names !! x = Some i → names !! x = Some i ∨ ∃ r, x = t ++ r ∧ names !! (p ++ r) = Some i.
Proof.
  unfold rename. intros [H|[_ H]]%lookup_union_Some_raw.
  - right. by apply moved_elem, elem_of_list_to_map_2.
  - left. by eapply without_Some, without_Some.
Qed.

Lemma tenant_op_effect d op : tenable d → effect d (tenant_op d op).
Proof.
  intros Ht. pose proof (effect_id d) as Hid. destruct op as [w q c k mode|old q c|q c q' c'|q c|p mode|p data]; cbn.
  - case_match eqn:E; [|done]. bools. destruct_and!. unfold absent in *. bools. split; cbn.
    + intros x. destruct (decide (q ++ [c] = x)) as [<-|Hx]; [right; by eauto|]. left. by rewrite lookup_insert_ne.
    + intros x i. destruct (decide (q ++ [c] = x)) as [<-|Hx]; [|rewrite lookup_insert_ne by done; by auto].
      rewrite lookup_insert_eq. intros [= <-]. right. split; [by eapply may_replace_in_volume|]. left. lia.
    + intros i n Hi. pose proof (tn_inodes _ Ht _ _ Hi). rewrite lookup_insert_ne by lia. eauto.
    + intros i n. destruct (decide (dk_next d = i)) as [<-|Hx]; [|rewrite lookup_insert_ne by done; by eauto].
      rewrite lookup_insert_eq. intros [= <-]. right. cbn. split; [lia|done].
    + lia.
  - destruct (dk_names d !! old) as [i|] eqn:Ho; [|done]. case_match eqn:E; [|done]. bools. destruct_and!.
    apply effect_names; intros x; destruct (decide (q ++ [c] = x)) as [<-|Hx]; [right; by eauto|left; by rewrite lookup_insert_ne| |].
    + intros j. rewrite lookup_insert_eq. intros [= <-]. right. split; [by eapply may_replace_in_volume|by eauto].
    + intros j. rewrite lookup_insert_ne by done. by left.
  - case_match eqn:E; [|done]. bools. destruct_and!. apply effect_names.
    + intros x. destruct (rename_lookup (q ++ [c]) (q' ++ [c']) (dk_names d) x) as [->|[?|?]]; eauto.
    + intros x i [?|(r & -> & Hr)]%rename_Some; [by left|]. right.
      split; [apply (in_volume_above (q' ++ [c'])); [by eapply may_replace_in_volume|by apply prefix_app_r]|].
      exists ((q ++ [c]) ++ r). split; [|done]. apply (in_volume_above (q ++ [c])); [by eapply may_replace_in_volume|by apply prefix_app_r].
  - case_match eqn:E; [|done]. apply effect_names.
    + intros x. destruct (without_lookup (q ++ [c]) (dk_names d) x) as [->|?]; eauto.
    + intros x i ?%without_Some. by left.
  - destruct (find d p) as [i|] eqn:Hp; [|done]. case_match eqn:E; [|done]. apply effect_change. intros n Hn.
    assert (n = i) as -> by congruence. unfold ours in E. bools. by split.
  - destruct (find d p) as [i|] eqn:Hp; [|done]. destruct (in_kind i) eqn:Hk; try done. apply effect_change. intros n Hn.
    assert (n = i) as -> by congruence. split; [|by split]. unfold IsDir. by rewrite Hk.
Qed.

(** ** A locked path stays *)
Lemma find_effect d d' p i :
  effect d d' → dk_names d' !! p = dk_names d !! p → find d p = Some i → ∃ i', find d' p = Some i' ∧ lives i i'.
Proof.
  unfold find. intros He Hn (k & Hk & Hi)%bind_Some. destruct (ef_kept _ _ He _ _ Hi) as (i' & Hi' & Hl).
  exists i'. by rewrite Hn, Hk.
Qed.
Lemma closed_lives i i' : closed i → lives i i' → closed i'.
Proof.
  intros (Hk & Hu & Hm) (Hd & Hu' & Hm'). rewrite <-Hm' in Hm by done. unfold closed. rewrite Hu'.
  split; [|done]. unfold IsDir in Hd. rewrite Hk in Hd. by destruct (in_kind i').
Qed.
(** No entry of a locked path may be replaced, so the name of every part of it stays. *)
Lemma locked_kept_out d p q c : locked d p → q ++ [c] `prefix_of` p → may_replace d q c = false.
Proof.
  intros Hl [r ->]. destruct (Hl (length q)) as (dir & Hd & _ & Hu & Hm). destruct (Hl (length (q ++ [c]))) as (i & Hi & _ & Hu' & _).
  rewrite <-!app_assoc, take_app_length in Hd. rewrite take_app_length in Hi.
  apply not_true_is_false. unfold may_replace, may_write. rewrite Hd, Hi. unfold ours.
  rewrite !(bool_decide_eq_false_2 (_ ∈ W)) by done. intros H. bools. destruct_and!.
  destruct Hm as [Hm|Hm]; rewrite Hm in *; naive_solver.
Qed.
Lemma locked_names d d' p q : effect d d' → locked d p → q `prefix_of` p → dk_names d' !! q = dk_names d !! q.
Proof.
  intros He Hl Hq. destruct (ef_names _ _ He q) as [E|(q' & c & Hm & Hp)]; [done|].
  rewrite (locked_kept_out d p q' c) in Hm; [done|done|]. by etrans.
Qed.
Lemma take_prefix {A} j (p : list A) : take j p `prefix_of` p.
Proof. exists (drop j p). by rewrite take_drop. Qed.
Lemma locked_effect d d' p : effect d d' → locked d p → locked d' p.
Proof.
  intros He Hl j. destruct (Hl j) as (i & Hi & Hc).
  destruct (find_effect d d' (take j p) i He) as (i' & Hi' & Hv); [by eapply locked_names, take_prefix|done|].
  exists i'. split; [done|by eapply closed_lives].
Qed.

Lemma find_back d d' p i' :
  tenable d → effect d d' → find d' p = Some i' → in_uid i' ∉ W → in_volume p = true →
  ∃ q i, in_volume q = true ∧ find d q = Some i ∧ lives i i'.
Proof.
  intros Ht He. unfold find. intros (k & Hk & Hi)%bind_Some Hu Hp.
  destruct (ef_inodes _ _ He _ _ Hi) as [(i & Hi0 & Hl)|[_ ?]]; [|done]. pose proof (tn_inodes _ Ht _ _ Hi0) as Hlt.
  destruct (ef_new _ _ He _ _ Hk) as [Hk'|[Hv [?|(y & Hy & Hk')]]]; [|lia|].
  - exists p, i. by rewrite Hk'.
  - exists y, i. by rewrite Hk'.
Qed.
Lemma tenable_effect d d' : effect d d' → tenable d → tenable d'.
Proof.
  intros He Ht. pose proof Ht as [Hn Hi Ha Hv Hin]. pose proof (ef_next _ _ He) as Hnx. split.
  - intros p i H. destruct (ef_new _ _ He _ _ H) as [H0%Hn|[_ [?|(y & _ & H0%Hn)]]]; lia.
  - intros i n H. destruct (ef_inodes _ _ He _ _ H) as [(n0 & H0%Hi & _)|[? _]]; lia.
  - intros p q i Hp Hq H1 H2. destruct (ef_new _ _ He _ _ H2) as [H2'|[? _]]; [|congruence].
    destruct (ef_new _ _ He _ _ H1) as [H1'|[_ [?|(y & Hy & H1')]]]; [by eapply (Ha p q)| |by eapply (Ha y q)].
    apply Hn in H2'. lia.
  - by eapply locked_effect.
  - intros p i' Hp Hf Hk Hu. destruct (find_back d d' p i' Ht He Hf Hu Hp) as (q & i & Hq & Hf' & Hl).
    destruct Hl as (Hd & Hu' & Hm). eapply closed_lives; [|by split]. eapply (Hin q); [done|done| |by rewrite <-Hu'].
    unfold IsDir in Hd. rewrite Hk in Hd. by destruct (in_kind i).
Qed.

(** ** Any number of calls *)
(** A property of the disk that no call of a workload changes. *)
Definition steady (P : Disk → Prop) : Prop := ∀ d d', effect d d' → tenable d → P d → P d'.
Lemma tenants_steady P d ops : steady P → tenable d → P d → tenable (tenants_run d ops) ∧ P (tenants_run d ops).
Proof.
  intros HP. revert d. induction ops as [|op ops IH]; intros d Ht Hd; [done|]. cbn. pose proof (tenant_op_effect d op Ht) as He.
  apply IH; [by eapply tenable_effect|by eapply HP].
Qed.
Lemma locked_steady p : steady (λ d, locked d p).
Proof. intros d d' He _. by apply locked_effect. Qed.
Lemma locked_run d p ops :
  tenable d → locked d p → locked (tenants_run d ops) p ∧ ∀ q, q `prefix_of` p → dk_names (tenants_run d ops) !! q = dk_names d !! q.
Proof.
  intros Ht Hl. destruct (tenants_steady (λ x, locked x p ∧ ∀ q, q `prefix_of` p → dk_names x !! q = dk_names d !! q) d ops) as [_ H]; [|done|done|done].
  intros x y He _ [H1 H2]. split; [by eapply locked_effect|]. intros q Hq. rewrite <-H2 by done. by eapply locked_names.
Qed.
Lemma locked_dirs d p : locked d p → ∀ j, is_dir d (take j p) = true.
Proof. intros Hl j. destruct (Hl j) as (i & Hi & Hk & _). unfold is_dir. by rewrite Hi, Hk. Qed.
(** A locked path means itself: no element of it is a link. *)
Lemma locked_namei d p : Forall plain p → locked d p → namei d p = Ok p.
Proof. intros Hp Hl. apply resolve_real; [done|by apply locked_dirs]. Qed.
Lemma locked_parent d p c : Forall plain p → locked d p → namei_parent d (p ++ [c]) = Ok (p ++ [c]).
Proof.
  intros Hp Hl. rewrite namei_parent_snoc, (locked_namei d p) by done.
  pose proof (locked_dirs d p Hl (length p)) as H. rewrite firstn_all in H. by rewrite H.
Qed.
End Tenants.
