(* ===== verification/VolumeTheorems.v ===== *)
(** * A bind source stays where the agent put it

    The path of a subPath mount is handed to systemd as a string and resolved again at every
    start of the unit, with the workloads free to act on the volume in between.  What keeps it
    in the volume is structural: every directory of it belongs to the agent and is closed to
    removals ([Tenants.locked]).  [resolve_mount] establishes that while the workloads act
    between any two of its calls but one: the sticky bit is read before the volume's directory
    is taken back from the workload that owns it ([sticky_lost] shows what happens when it
    acts there).  [reclaim_sound]: a sweep removes the data of volumes it may, only. *)
From stdpp Require Import gmap strings list.
From Stdlib Require Import ZArith Ascii.
From S2P Require Import Prelude Resources Paths CoreV1 Uids Workload InodeFS Volumes Tenants.
#[local] Open Scope Z_scope.

Section Specs.
Context {HQ : Quantity} (W : gset Z) (l : local) (h : Host) (acts : nat → list TenantOp).
Local Abbreviation V := (lo_stateDir l ++ ["volumes"]).
Context (Hplain : Forall plain (lo_stateDir l)) (Huid : host_uid h ∉ W)
  (Hacts : ∀ n d, host_meanwhile h n d = tenants_run W V d (acts n)).
Local Abbreviation tenable := (tenable W V).
Local Abbreviation locked := (locked W).
Local Abbreviation closed := (closed W).
Local Abbreviation in_volume := (in_volume V).
Local Abbreviation steady := (steady W V).
Local Abbreviation effect := (effect W V).

Lemma V_plain : Forall plain V.
Proof. apply Forall_app. split; [done|]. by repeat constructor. Qed.

(** ** The agent's calls *)
Lemma locked_snoc d p c i : locked d p → find d (p ++ [c]) = Some i → closed i → locked d (p ++ [c]).
Proof.
  intros Hl Hf Hc j. destruct (decide (j ≤ length p)%nat) as [Hj|Hj].
  - rewrite take_app_le by done. apply Hl.
  - rewrite take_ge by (rewrite length_app; cbn; lia). eauto.
Qed.
Lemma locked_last d p : locked d p → ∃ i, find d p = Some i ∧ closed i.
Proof. intros Hl. destruct (Hl (length p)) as (i & Hi & Hc). rewrite firstn_all in Hi. eauto. Qed.
Lemma locked_names_at d p : Forall plain p → locked d p → namei_parent d p = Ok p.
Proof.
  intros Hp Hl. destruct p as [|c p _] using rev_ind; [done|]. apply Forall_app in Hp as [Hp _].
  eapply locked_parent; [done|]. intros j. destruct (decide (j ≤ length p)%nat) as [Hj|Hj].
  - destruct (Hl j) as (i & Hi & Hc). rewrite take_app_le in Hi by done. eauto.
  - destruct (Hl (length p)) as (i & Hi & Hc). rewrite take_app_length in Hi. rewrite take_ge by lia. eauto.
Qed.

(** A change of one inode that keeps closed directories closed. *)
Lemma change_tenable f d p n :
  tenable d → find d p = Some n → in_kind (f n) = in_kind n → (closed n → closed (f n)) → (in_volume p = true → closed n) →
  let '(d', r) := change f d p in
  r = Ok tt ∧ tenable d' ∧ (∀ x, locked d x → locked d' x) ∧ find d' p = Some (f n).
Proof.
  intros Ht Hf Hk Hc Hv. unfold change. unfold find in Hf. apply bind_Some in Hf as (i & Hp & Hi). rewrite Hp, Hi.
  set (d' := mkDisk _ _ _). pose proof Ht as [Hn Hin Ha Hab Hinner].
  assert (∀ x, find d' x = if decide (dk_names d !! x = Some i) then Some (f n) else find d x) as Hfind.
  { intros x. unfold find. cbn. destruct (dk_names d !! x) as [j|]; [|by rewrite decide_False]. cbn.
    destruct (decide (j = i)) as [->|Hj]; [by rewrite lookup_insert_eq, decide_True|].
    rewrite lookup_insert_ne, decide_False by congruence. done. }
  assert (∀ x m, find d x = Some m → dk_names d !! x = Some i → m = n) as Hsame.
  { intros x m. unfold find. intros H E. rewrite E in H. cbn in H. congruence. }
  assert (∀ x, locked d x → locked d' x) as Hl.
  { intros x Hx j. destruct (Hx j) as (m & Hm & Hcm). rewrite Hfind. case_decide as E; [|by eauto].
    rewrite (Hsame _ _ Hm E) in Hcm. eauto. }
  split; [done|]. split; [|split; [done|by rewrite Hfind, decide_True]]. split; cbn; [done| |done|by apply Hl|].
  - intros j m. destruct (decide (i = j)) as [<-|Hij]; [by eauto|]. rewrite lookup_insert_ne by done. apply Hin.
  - intros x m Hx. rewrite Hfind. case_decide as E; [|by eauto]. intros [= <-] _ _. apply Hc, Hv.
    destruct (in_volume p) eqn:Hvp; [done|]. by destruct (Ha x p i).
Qed.
(** A new inode in a locked directory. *)
Lemma create_tenable n d p c :
  Forall plain p → tenable d → locked d p → (in_volume (p ++ [c]) = true → ∀ dir, closed (inherit dir n)) →
  let '(d', r) := create n d (p ++ [c]) in
  tenable d' ∧ (∀ x, locked d x → locked d' x) ∧
  ((r = Err EEXIST ∧ d' = d ∧ is_Some (dk_names d !! (p ++ [c]))) ∨ (r = Ok tt ∧ find d' (p ++ [c]) = Some (inherit (find d p) n))).
Proof.
  intros Hp Ht Hl Hc. unfold create. rewrite (locked_parent W) by done. rewrite removelast_last.
  destruct (dk_names d !! (p ++ [c])) as [k|] eqn:Hk; [by eauto 10|].
  set (d' := mkDisk _ _ _). pose proof Ht as [Hn Hin Ha Hab Hinner].
  assert (∀ x m, find d x = Some m → find d' x = Some m) as Hfind.
  { intros x m. unfold find. intros (j & Hj & Hm)%bind_Some. cbn. pose proof (Hin _ _ Hm).
    rewrite lookup_insert_ne by (intros <-; congruence). rewrite Hj. cbn. rewrite lookup_insert_ne by lia. done. }
  assert (∀ x, locked d x → locked d' x) as Hl'. { intros x Hx j. destruct (Hx j) as (m & Hm & Hcm). eauto. }
  assert (find d' (p ++ [c]) = Some (inherit (find d p) n)) as Hnew by (unfold find; cbn; by rewrite lookup_insert_eq; cbn; rewrite lookup_insert_eq).
  split; [|by auto]. split; cbn; [| | |by apply Hl'|].
  - intros x i. destruct (decide (p ++ [c] = x)) as [<-|Hx]; [rewrite lookup_insert_eq; intros [= <-]; lia|].
    rewrite lookup_insert_ne by done. intros H%Hn. lia.
  - intros i m. destruct (decide (dk_next d = i)) as [<-|Hx]; [intros _; lia|]. rewrite lookup_insert_ne by done. intros H%Hin. lia.
  - intros x y i Hx Hy. destruct (decide (p ++ [c] = x)) as [<-|Hpx], (decide (p ++ [c] = y)) as [<-|Hpy];
      rewrite ?lookup_insert_eq, ?lookup_insert_ne by done; [congruence| | |by apply Ha].
    + intros [= <-] H%Hn. lia.
    + intros H%Hn [= <-]. lia.
  - intros x m Hx Hf. destruct (decide (p ++ [c] = x)) as [<-|Hpx].
    + rewrite Hnew in Hf. injection Hf as <-. intros _ _. by apply Hc.
    + apply (Hinner x m Hx). revert Hf. unfold find. cbn. rewrite lookup_insert_ne by done.
      intros (j & Hj & Hm)%bind_Some. pose proof (Hn _ _ Hj). rewrite Hj. cbn. by rewrite lookup_insert_ne in Hm by lia.
Qed.

(** ** Specifications under interference *)
Definition tspec {St E A} (disk : St → Disk) (P : Disk → Prop) (m : Act St E A) (Q : result E A → Disk → Prop) : Prop :=
  hoare (λ s, tenable (disk s) ∧ P (disk s)) m (λ r s, tenable (disk s) ∧ Q r (disk s)).
Definition sdisk (s : Disk * nat) : Disk := s.1.
Definition vdisk (v : vol_state) : Disk := (vst_sys v).1.

Lemma meanwhile_keeps P n d : steady P → tenable d → P d → tenable (host_meanwhile h n d) ∧ P (host_meanwhile h n d).
Proof. rewrite Hacts. apply tenants_steady. Qed.
Lemma tspec_call {A} (P : Disk → Prop) (f : Disk → Disk * result Errno A) (Q : result Errno A → Disk → Prop) :
  steady P → (∀ d, tenable d → P d → let '(d', r) := f d in tenable d' ∧ Q r d') →
  (∀ d e, tenable d → P d → e ≠ ENOENT → e ≠ EEXIST → Q (Err e) d) → tspec sdisk P (call h f) Q.
Proof.
  intros HP Hf He s s' r Hr [Ht Hp]. destruct (meanwhile_keeps P s.2 s.1 HP Ht Hp) as [Ht' Hp']. unfold call in Hr.
  destruct (host_refuses h s.2) as [e|].
  - injection Hr as <- <-. split; [done|]. apply He; [done|done|by destruct e..].
  - specialize (Hf _ Ht' Hp'). destruct (f _) as [d' r']. by injection Hr as <- <-.
Qed.
Lemma tspec_ret {St E A} (disk : St → Disk) P (a : A) (Q : result E A → Disk → Prop) :
  (∀ d, tenable d → P d → Q (Ok a) d) → tspec disk P (act_ret a) Q.
Proof. intros H. apply hoare_ret. intros s [Ht Hp]. auto. Qed.
Lemma tspec_fail {St E A} (disk : St → Disk) P (e : E) (Q : result E A → Disk → Prop) :
  (∀ d, tenable d → P d → Q (Err e) d) → tspec disk P (act_fail e) Q.
Proof. intros H. apply hoare_fail. intros s [Ht Hp]. auto. Qed.
Lemma tspec_bind {St E A B} (disk : St → Disk) P (m : Act St E A) (k : A → Act St E B) (M : A → Disk → Prop) (Q : result E B → Disk → Prop) :
  tspec disk P m (λ r d, match r with Ok a => M a d | Err e => Q (Err e) d end) → (∀ a, tspec disk (M a) (k a) Q) →
  tspec disk P (act_bind m k) Q.
Proof.
  intros Hm Hk. eapply (hoare_bind _ _ _ (λ a s, tenable (disk s) ∧ M a (disk s))); [|done].
  eapply hoare_mono; [exact Hm|done|]. by intros [a|e] s.
Qed.
Lemma tspec_mono {St E A} (disk : St → Disk) (P P' : Disk → Prop) (m : Act St E A) (Q Q' : result E A → Disk → Prop) :
  tspec disk P' m Q' → (∀ d, tenable d → P d → P' d) → (∀ r d, tenable d → Q' r d → Q r d) → tspec disk P m Q.
Proof. intros H H1 H2. eapply hoare_mono; [exact H|..]; cbn; intros *; [intros []; auto|intros []; auto]. Qed.
Lemma tspec_try {St E E' A} (disk : St → Disk) P (m : Act St E A) (Q : result E' (result E A) → Disk → Prop) :
  tspec disk P m (λ r, Q (Ok r)) → tspec disk P (act_try m) Q.
Proof. intros H. by apply (hoare_try _ _ (λ r s, tenable (disk s) ∧ Q r (disk s))). Qed.
Lemma tspec_exists {St E A X} (disk : St → Disk) (P : X → Disk → Prop) (m : Act St E A) (Q : result E A → Disk → Prop) :
  (∀ x, tspec disk (P x) m Q) → tspec disk (λ d, ∃ x, P x d) m Q.
Proof. intros H s s' r Hr (Ht & x & Hp). by apply (H x _ _ _ Hr). Qed.
Definition vlift {A} (r : result Errno A) : result VolErr A := match r with Ok a => Ok a | Err e => Err (VolSys e) end.
Lemma tspec_vsys {A} P (m : Sys A) (Q : result VolErr A → Disk → Prop) :
  tspec sdisk P m (λ r, Q (vlift r)) → tspec vdisk P (vsys m) Q.
Proof.
  intros H v v' r. unfold vsys. destruct (m (vst_sys v)) as [s r1] eqn:E. intros [= <- <-]. apply (H _ _ _ E).
Qed.
Lemma tspec_vsys_ok {A} P (m : Sys A) (Q : A → Disk → Prop) :
  tspec sdisk P m (λ r d, ∀ a, r = Ok a → Q a d) → tspec vdisk P (vsys m) (λ r d, ∀ a, r = Ok a → Q a d).
Proof.
  intros H. apply tspec_vsys. eapply tspec_mono; [exact H|auto|]. intros [a|e] d _ Hq b; [|done]. intros [= <-]. by apply Hq.
Qed.
Lemma tspec_warned {A} P (m : Sys A) (Q : Disk → Prop) :
  tspec sdisk P m (λ _, Q) → tspec vdisk P (warned m) (λ r d, r = Ok tt ∧ Q d).
Proof.
  intros H. eapply (tspec_bind _ _ _ _ (λ _, Q)).
  - apply tspec_try, tspec_vsys. eapply tspec_mono; [exact H|auto|]. by intros r d _ Hq.
  - intros r. apply tspec_ret. auto.
Qed.
Lemma tspec_wrapped {A} P what (m : VM A) (Q : A → Disk → Prop) :
  tspec vdisk P m (λ r d, ∀ a, r = Ok a → Q a d) → tspec vdisk P (wrapped what m) (λ r d, ∀ a, r = Ok a → Q a d).
Proof.
  intros H v v' r. unfold wrapped, act_wrap. destruct (m v) as [v1 [a|e]] eqn:E; intros [= <- <-] Hp;
    destruct (H _ _ _ E Hp) as [Ht Hq]; split; [done|by auto|done|done].
Qed.
(** A sequence whose failures are of no interest. *)
Lemma tspec_seq {A B} P (m : VM A) (k : A → VM B) (M : A → Disk → Prop) (Q : B → Disk → Prop) :
  tspec vdisk P m (λ r d, ∀ a, r = Ok a → M a d) → (∀ a, tspec vdisk (M a) (k a) (λ r d, ∀ b, r = Ok b → Q b d)) →
  tspec vdisk P (act_bind m k) (λ r d, ∀ b, r = Ok b → Q b d).
Proof. intros Hm Hk. eapply (tspec_bind _ _ _ _ M); [|done]. eapply tspec_mono; [exact Hm|auto|]. intros [a|e] d _ H; [by apply H|done]. Qed.

(** ** The volume's directory *)
Section Root.
Context (name : string) (Hname : plain name).
Local Abbreviation root := (V ++ [name]).
Lemma root_plain : Forall plain root.
Proof. apply Forall_app. split; [apply V_plain|by constructor]. Qed.
Lemma root_outside : in_volume root = false.
Proof. unfold in_volume. rewrite andb_false_iff. right. apply bool_decide_eq_false_2. rewrite !length_app. cbn. lia. Qed.

(** The directory is there, belongs to no workload and has this mode. *)
Definition held (mode : Z) (d : Disk) : Prop :=
  ∃ i, find d root = Some i ∧ in_kind i = KDir ∧ in_uid i ∉ W ∧ in_mode i = mode.
Definition missing (d : Disk) : Prop := find d root = None.
Lemma outside_names d d' x : effect d d' → in_volume x = false → dk_names d' !! x = dk_names d !! x.
Proof.
  intros He Hx. destruct (ef_names _ _ _ _ He x) as [E|(q & c & Hm & Hp)]; [done|].
  apply may_replace_in_volume in Hm. by rewrite (in_volume_above _ _ _ Hm Hp) in Hx.
Qed.
Lemma held_steady m : steady (held m).
Proof.
  intros d d' He _ (i & Hf & Hk & Hu & Hm).
  destruct (find_effect _ _ _ _ root i He) as (i' & Hi' & Hd & Hu' & Hm'); [by apply outside_names, root_outside|done|].
  exists i'. rewrite Hu', Hm' by done. repeat split; [done| |done|done]. unfold IsDir in Hd. rewrite Hk in Hd. by destruct (in_kind i').
Qed.
Lemma missing_steady : steady missing.
Proof.
  intros d d' He Ht. unfold missing, find. rewrite (outside_names _ _ _ He) by apply root_outside.
  destruct (dk_names d !! root) as [i|] eqn:Hi; [|done]. cbn. intros Hn. destruct (dk_inodes d' !! i) as [n|] eqn:E; [|done].
  destruct (ef_inodes _ _ _ _ He _ _ E) as [(n0 & H & _)|[H _]]; [congruence|]. pose proof (tn_names _ _ _ Ht _ _ Hi). lia.
Qed.
Lemma held_locked m d : tenable d → held m d → has_bit sticky m = true → locked d root.
Proof. intros Ht (i & Hf & Hk & Hu & <-) Hs. eapply locked_snoc; [apply Ht|done|]. by repeat split; auto. Qed.
Lemma root_namei d i : tenable d → find d root = Some i → in_kind i = KDir → namei d root = Ok root.
Proof.
  intros Ht Hf Hk. eapply resolve_snoc; [done|apply (locked_namei W); [apply V_plain|apply Ht]| |done|by rewrite Hk].
  pose proof (locked_dirs _ _ _ (tn_above _ _ _ Ht) (length V)) as H. by rewrite firstn_all in H.
Qed.
Lemma root_lstat d : tenable d → lstat d root = match find d root with Some i => Ok i | None => Err ENOENT end.
Proof. intros Ht. unfold lstat. by rewrite (locked_parent W _ _ name V_plain (tn_above _ _ _ Ht)). Qed.

(** *** Made anew *)
Lemma above_there n mode :
  (n ≤ length V)%nat → tspec sdisk missing (mkdir_or_there h (take n root) mode) (λ _, missing).
Proof.
  intros Hn. rewrite take_app_le by done. eapply (tspec_bind _ _ _ _ (λ _, missing)).
  - apply tspec_try, tspec_call; [apply missing_steady| |done]. intros d Ht Hm. unfold create.
    assert (locked d (take n V)) as Hl by (intros j; rewrite take_take; apply Ht).
    rewrite locked_names_at by (try apply Forall_take; try apply V_plain; done). destruct (locked_last d _ Hl) as (i & Hi & _).
    unfold find in Hi. apply bind_Some in Hi as (k & -> & _). done.
  - intros [[]|e]; [by apply tspec_ret|]. eapply (tspec_bind _ _ _ _ (λ _, missing)); [apply tspec_try, tspec_call; [apply missing_steady|done|done]|].
    intros [i|e']; [destruct (IsDir i)|]; [by apply tspec_ret|by apply tspec_fail|by apply tspec_fail].
Qed.
Lemma above_made n mode :
  (n ≤ length V)%nat → tspec sdisk missing (MkdirAll_upto h root mode n) (λ _, missing).
Proof.
  induction n as [|n IH]; intros Hn; cbn [MkdirAll_upto];
    (eapply (tspec_bind _ _ _ _ (λ _, missing)); [apply tspec_try, tspec_call; [apply missing_steady|done|done]|]);
    (intros [i|e]; [destruct (IsDir i); [by apply tspec_ret|by apply tspec_fail]|]);
    eapply (tspec_bind _ _ _ _ (λ _, missing)).
  - by apply tspec_ret.
  - intros _. by apply (above_there 0).
  - eapply tspec_mono; [apply IH; lia|auto|]. by intros [[]|] d _ H.
  - intros _. by apply above_there.
Qed.
Lemma MkdirAll_root mode : tspec sdisk missing (MkdirAll h root mode) (λ r d, ∀ a, r = Ok a → ∃ m, held m d).
Proof.
  unfold MkdirAll. rewrite length_app. cbn [length]. rewrite Nat.add_1_r. cbn [MkdirAll_upto].
  rewrite (take_ge root) by (rewrite length_app; cbn; lia).
  eapply (tspec_bind _ _ _ _ (λ r d, missing d ∧ ∀ i : Inode, r ≠ Ok i)).
  - apply tspec_try, tspec_call; [apply missing_steady| |done]. intros d Ht Hm. split; [done|]. split; [done|]. unfold stat.
    destruct (namei d root) as [q|] eqn:Hq; [|done]. exfalso.
    assert (namei d V = Ok V) as HV by (apply (locked_namei W); [apply V_plain|apply Ht]).
    destruct (resolve_last _ _ _ _ _ _ Hname Hq HV) as [i Hi]. unfold missing in Hm. congruence.
  - intros [i|e]; [by intros s s' r _ (_ & _ & H); destruct (H i)|].
    eapply (tspec_bind _ _ _ _ (λ _, missing)).
    { eapply tspec_mono; [apply (above_made (length V)); lia|by intros d _ [? _]|]. by intros [[]|] d _ H. }
    intros _. eapply (tspec_bind _ _ _ _ (λ r d, match r with Ok _ => ∃ m, held m d | Err _ => missing d end)).
    + apply tspec_try, tspec_call; [apply missing_steady| |by auto]. intros d Ht Hm.
      pose proof (create_tenable (fresh_inode h KDir mode) d V name V_plain Ht (tn_above _ _ _ Ht)) as H.
      rewrite root_outside in H. specialize (H ltac:(done)). destruct (create _ _ _) as [d' r]. destruct H as (Ht' & _ & H).
      split; [done|]. destruct H as [(-> & -> & _)|[-> Hf]]; [done|]. eexists _, _. split; [done|].
      rewrite inherit_kind. split; [done|]. split; [|done]. unfold inherit. by repeat case_match.
    + intros [[]|e']; [apply tspec_ret; by eauto|].
      eapply (tspec_bind _ _ _ _ (λ r _, ∀ i : Inode, r ≠ Ok i)); [apply tspec_try, tspec_call; [apply missing_steady| |done]|].
      * intros d Ht Hm. split; [done|]. by rewrite root_lstat, Hm.
      * intros [i|e2]; [by intros s s' r _ (_ & H); destruct (H i)|by apply tspec_fail].
Qed.

(** *** Taken back *)
Lemma closed_chown g i : closed i → closed (set_in_owner (host_uid h) g i).
Proof. intros (Hk & _ & Hm). by repeat split. Qed.
Lemma closed_chmod m i : has_bit sticky m = true → closed i → closed (set_in_mode m i).
Proof. intros Hm (Hk & Hu & _). repeat split; [done|done|by left]. Qed.
Lemma Chmod_root m mode :
  has_bit sticky mode = true → tspec sdisk (held m) (Chmod h root mode) (λ r d, ∀ a, r = Ok a → held mode d).
Proof.
  intros Hs. apply tspec_call; [apply held_steady| |done]. intros d Ht (i & Hf & Hk & Hu & Hm). unfold change_followed.
  rewrite (root_namei d i) by done.
  pose proof (change_tenable (set_in_mode mode) d root i Ht Hf eq_refl (closed_chmod _ _ Hs)) as H.
  rewrite root_outside in H. specialize (H ltac:(done)). destruct (change _ _ _) as [d' r]. destruct H as (-> & Ht' & _ & Hf').
  split; [done|]. intros _ _. by eexists.
Qed.
Lemma chown_root d i g :
  tenable d → find d root = Some i → in_kind i = KDir →
  let '(d', r) := change_followed (set_in_owner (host_uid h) g) d root in tenable d' ∧ held (in_mode i) d'.
Proof.
  intros Ht Hf Hk. unfold change_followed. rewrite (root_namei d i) by done.
  pose proof (change_tenable (set_in_owner (host_uid h) g) d root i Ht Hf eq_refl (closed_chown g i)) as H.
  rewrite root_outside in H. specialize (H ltac:(done)). destruct (change _ _ _) as [d' r]. destruct H as (-> & Ht' & _ & Hf').
  split; [done|]. by eexists.
Qed.
Lemma Chown_held m g : tspec sdisk (held m) (Chown h root (host_uid h) g) (λ _, held m).
Proof.
  apply tspec_call; [apply held_steady| |done]. intros d Ht (i & Hf & Hk & Hu & <-). pose proof (chown_root d i g Ht Hf Hk) as H.
  by destruct (change_followed _ _ _).
Qed.

(** No workload acts before the next call. *)
Definition undisturbed (v : vol_state) : Prop := acts (vst_sys v).2 = [].
Lemma look_root :
  hoare (λ v, tenable (vdisk v) ∧ acts (S (vst_sys v).2) = []) (act_try (vsys (Lstat h root)))
    (λ r v, tenable (vdisk v) ∧ match r with
                                | Ok (Ok i) => find (vdisk v) root = Some i ∧ undisturbed v
                                | Ok (Err (VolSys ENOENT)) => missing (vdisk v)
                                | _ => True
                                end : Prop) (E := VolErr).
Proof.
  apply hoare_try. intros v v' r. unfold vsys, Lstat, call. intros Hr [Ht Ha].
  destruct (meanwhile_keeps (λ _, True) (vst_sys v).2 (vst_sys v).1) as [Ht' _]; [by intros ???|done|done|].
  destruct (host_refuses h (vst_sys v).2) as [e|]; cbn in Hr.
  - injection Hr as <- <-. cbn. split; [done|]. by destruct e.
  - rewrite root_lstat in Hr by done. injection Hr as <- <-. split; [done|]. unfold vdisk. cbn. by destruct (find _ root) eqn:E.
Qed.
Lemma take_back i g what :
  in_kind i = KDir →
  hoare (λ v, tenable (vdisk v) ∧ find (vdisk v) root = Some i ∧ undisturbed v)
    (wrapped what (vsys (Chown h root (host_uid h) g)))
    (λ r v, tenable (vdisk v) ∧ ∀ a, r = Ok a → held (in_mode i) (vdisk v)).
Proof.
  intros Hk v v' r. unfold wrapped, act_wrap, vsys, Chown, call. unfold undisturbed. intros Hr (Ht & Hf & Ha).
  rewrite Hacts, Ha in Hr. cbn in Hr. destruct (host_refuses h (vst_sys v).2) as [e|].
  - by injection Hr as <- <-.
  - pose proof (chown_root _ i g Ht Hf Hk) as H. unfold vdisk in *. destruct (change_followed _ _ _) as [d' r'].
    destruct H as [Ht' Hh]. destruct r'; by injection Hr as <- <-.
Qed.
Lemma sticky_set m : has_bit sticky (Z.lor m sticky) = true.
Proof.
  unfold has_bit. rewrite Z.land_lor_distr_l, Z.land_diag, negb_true_iff, Z.eqb_neq. intros H%Z.lor_eq_0_iff. by destruct H.
Qed.
Lemma set_sticky m mode what :
  tspec vdisk (held m) (if has_bit sticky m then act_ret tt else wrapped what (vsys (Chmod h root (Z.lor mode sticky))))
    (λ r d, ∀ a, r = Ok a → locked d root).
Proof.
  destruct (has_bit sticky m) eqn:Hs.
  - apply tspec_ret. intros d Ht Hh _ _. by eapply held_locked.
  - apply (tspec_wrapped _ _ _ (λ _ d, locked d root)), tspec_vsys_ok. eapply tspec_mono; [apply (Chmod_root m), sticky_set|auto|].
    intros r d Ht H b Hb. eapply held_locked; [done|by apply (H b)|apply sticky_set].
Qed.

Lemma ensureAgentOwned_spec :
  hoare (λ v, tenable (vdisk v) ∧ acts (S (vst_sys v).2) = []) (ensureAgentOwned h l root)
    (λ r v, tenable (vdisk v) ∧ ∀ a, r = Ok a → locked (vdisk v) root).
Proof.
  eapply hoare_bind.
  - eapply hoare_mono; [exact look_root|done|]. intros [st|e] v H; [exact H|]. by destruct H.
  - intros [i|[e|t|pe|w e]]; cbn; [|destruct e|by apply hoare_fail; intros v [? _]..]; try by apply hoare_fail; intros v [? _].
    + destruct (IsDir i) eqn:Hd; cbn [negb]; [|by apply hoare_fail; intros v [? _]].
      assert (in_kind i = KDir) as Hk by (unfold IsDir in Hd; by destruct (in_kind i)).
      eapply (hoare_bind _ _ _ (λ _ v, tenable (vdisk v) ∧ held (in_mode i) (vdisk v))).
      * destruct (in_uid i =? host_uid h) eqn:Hu.
        -- apply hoare_ret. intros v (Ht & Hf & _). split; [done|]. exists i. apply Z.eqb_eq in Hu. by rewrite Hu.
        -- eapply hoare_mono; [apply (take_back i _ _ Hk)|done|]. intros [[]|e] v [Ht H]; [by eauto|done].
      * intros _. apply (set_sticky (in_mode i) (keepBits (in_mode i))).
    + apply (tspec_seq missing _ _ (λ _ d, ∃ m, held m d) (λ _ d, locked d root)).
      { apply tspec_vsys_ok, MkdirAll_root. }
      intros _. apply (tspec_seq _ _ _ (λ _ d, held (Z.lor defaultVolumeMode sticky) d) (λ _ d, locked d root)).
      { apply tspec_exists. intros m. apply tspec_vsys_ok, (Chmod_root m), sticky_set. }
      intros _. set (M := Z.lor defaultVolumeMode sticky).
      apply (tspec_mono _ _ (held M) _ _ (λ r d, r = Ok tt ∧ held M d)); [apply tspec_warned, Chown_held|done|].
      intros r d Ht [_ Hh] _ _. eapply held_locked; [done|done|apply sticky_set].
Qed.

(** ** The elements of a subPath *)
Definition deep (p : list string) : Prop := root `prefix_of` p ∧ Forall plain p.
Lemma deep_plain p : deep p → Forall plain p.
Proof. by intros []. Qed.
Lemma deep_in_volume p c : deep p → in_volume (p ++ [c]) = true.
Proof.
  intros [[k ->] _]. unfold in_volume. rewrite andb_true_iff, !bool_decide_eq_true. split.
  - by do 3 apply prefix_app_r.
  - rewrite !length_app. cbn. lia.
Qed.
Lemma shared_write_fresh dir : closed (inherit dir (fresh_inode h KDir (perms 7 5 5))).
Proof.
  assert (∀ m, Z.land (Z.land (perms 7 5 5) m) (perms 0 2 2) = 0) as Hz.
  { intros m. by rewrite <-Z.land_assoc, (Z.land_comm m), Z.land_assoc. }
  unfold closed. rewrite inherit_kind. split; [done|]. unfold inherit, shared_write, has_bit.
  destruct dir as [i|]; [destruct (negb _)|]; cbn; (split; [done|]); right; rewrite negb_false_iff, Z.eqb_eq; [|by apply Hz..].
  by rewrite Z.land_lor_distr_l, Hz.
Qed.

(** What an element leaves of its directory. *)
Lemma Mkdir_part cur part :
  deep cur → part = "." ∨ plain part →
  tspec sdisk (λ d, locked d cur) (Mkdir h (joined cur part) (perms 7 5 5))
    (λ r d, locked d cur ∧ ∀ a, r = Ok a → locked d (joined cur part)).
Proof.
  intros Hc Hp. apply tspec_call; [apply locked_steady| |done]. intros d Ht Hl. destruct Hp as [->|Hp].
  - change (joined cur ".") with cur. unfold create. rewrite (locked_names_at d cur) by (try apply deep_plain; done). destruct (locked_last d cur Hl) as (i & Hi & _).
    unfold find in Hi. apply bind_Some in Hi as (k & -> & _). done.
  - unfold joined. destruct Hp as (H1 & H2 & H3). rewrite !bool_decide_eq_false_2 by done. cbn [orb].
    pose proof (create_tenable (fresh_inode h KDir (perms 7 5 5)) d cur part (deep_plain _ Hc) Ht Hl (λ _, shared_write_fresh)) as H.
    destruct (create _ _ _) as [d' r]. destruct H as (Ht' & Hl' & H). split; [done|]. split; [by auto|].
    destruct H as [(-> & _)|[-> Hf]]; [done|]. intros _ _. eapply locked_snoc; [by apply Hl'|exact Hf|apply shared_write_fresh].
Qed.
Lemma agentOwnedDir_part cur part :
  deep cur → part = "." ∨ plain part →
  tspec vdisk (λ d, locked d cur) (agentOwnedDir h (joined cur part)) (λ r d, ∀ a, r = Ok a → locked d (joined cur part)).
Proof.
  intros Hc Hp. destruct Hp as [->|Hp].
  { apply (tspec_seq _ _ _ (λ _ d, locked d cur) (λ _ d, locked d cur)).
    - apply tspec_vsys_ok, tspec_call; [apply locked_steady|by auto|by auto].
    - intros i. destruct (in_kind i); try (by apply tspec_fail); destruct (negb _); try (by apply tspec_fail). apply tspec_ret; auto. }
  unfold joined. pose proof Hp as (H1 & H2 & H3). rewrite !bool_decide_eq_false_2 by done. cbn [orb].
  apply (tspec_seq _ _ _ (λ i d, locked d cur ∧ find d (cur ++ [part]) = Some i) (λ _ d, locked d (cur ++ [part]))).
  - apply tspec_vsys_ok, tspec_call; [apply locked_steady| |done]. intros d Ht Hl. split; [done|]. unfold lstat.
    rewrite (locked_parent W) by (try apply deep_plain; done). destruct (find _ _) as [i|]; [|done]. by intros a [= <-].
  - intros i. destruct (in_kind i) eqn:Hk; try (by apply tspec_fail).
    destruct (in_uid i =? host_uid h) eqn:Hu; cbn [negb]; [|by apply tspec_fail].
    apply tspec_ret. intros d Ht [Hl Hf] _ _. eapply locked_snoc; [done|exact Hf|].
    eapply (tn_inner _ _ _ Ht); [by apply deep_in_volume|done|done|]. apply Z.eqb_eq in Hu. by rewrite Hu.
Qed.
Lemma deep_joined cur part : deep cur → part = "." ∨ plain part → deep (joined cur part).
Proof.
  intros [Hr Hc] [->|Hp]; [done|]. unfold joined. pose proof Hp as (H1 & H2 & H3). rewrite !bool_decide_eq_false_2 by done. split; [by apply prefix_app_r|].
  apply Forall_app. split; [done|by constructor].
Qed.
Lemma subPath_parts_spec parts cur :
  Forall (λ c, c = "." ∨ plain c) parts → deep cur →
  tspec vdisk (λ d, locked d cur) (subPath_parts h cur parts) (λ r d, ∀ p, r = Ok p → locked d p ∧ deep p).
Proof.
  intros Hp. revert cur. induction Hp as [|part parts Hpart _ IH]; intros cur Hc; cbn.
  { apply tspec_ret. intros d _ Hl p [= <-]. done. }
  apply (tspec_seq _ _ _ (λ r d, locked d cur ∧ ∀ a, r = Ok a → locked d (joined cur part)) (λ p d, locked d p ∧ deep p)).
  { apply tspec_try, tspec_vsys. eapply tspec_mono; [apply (Mkdir_part cur part Hc Hpart)|done|].
    intros r d _ [H1 H2] a [= <-]. split; [done|]. destruct r as [[]|]; [|done]. intros _ _. by apply (H2 tt). }
  intros made. apply (tspec_seq _ _ _ (λ _ d, locked d (joined cur part)) (λ p d, locked d p ∧ deep p)).
  - destruct made as [[]|[[]| | | ]]; try (by apply tspec_fail).
    + apply tspec_ret. intros d _ [_ H] _ _. by apply (H tt).
    + eapply tspec_mono; [apply (tspec_wrapped _ _ _ (λ _ d, locked d (joined cur part))), (agentOwnedDir_part cur part Hc Hpart)|by intros d _ [? _]|done].
  - intros _. apply IH, deep_joined; done.
Qed.

(** ** The bind source *)
Definition bindable (p : list string) (d : Disk) : Prop := locked d p ∧ ∃ i, find d p = Some i ∧ has_bit sticky (in_mode i) = true.
Lemma bindable_steady p : steady (bindable p).
Proof.
  intros d d' He Ht [Hl (i & Hi & Hs)]. split; [by eapply locked_effect|].
  destruct (find_effect _ _ d d' p i He) as (i' & Hi' & _ & _ & Hm); [by eapply locked_names|done|].
  exists i'. split; [done|]. rewrite Hm; [done|]. destruct (locked_last d p Hl) as (j & Hj & _ & Hu & _). congruence.
Qed.
Lemma locked_change f d p i :
  Forall plain p → tenable d → locked d p → find d p = Some i → in_kind (f i) = in_kind i → (closed i → closed (f i)) →
  let '(d', r) := change_followed f d p in tenable d' ∧ locked d' p ∧ find d' p = Some (f i).
Proof.
  intros Hp Ht Hl Hf Hk Hc. unfold change_followed. rewrite (locked_namei W) by done.
  destruct (locked_last d p Hl) as (j & Hj & Hcj). assert (j = i) as -> by congruence.
  pose proof (change_tenable f d p i Ht Hf Hk Hc (λ _, Hcj)) as H. destruct (change _ _ _). destruct H as (_ & ? & H & ?). eauto.
Qed.
Lemma Chown_locked p g : Forall plain p → tspec sdisk (λ d, locked d p) (Chown h p (host_uid h) g) (λ _ d, locked d p).
Proof.
  intros Hp. apply tspec_call; [apply locked_steady| |done]. intros d Ht Hl. destruct (locked_last d p Hl) as (i & Hi & _).
  pose proof (locked_change (set_in_owner (host_uid h) g) d p i Hp Ht Hl Hi eq_refl (closed_chown g i)) as H.
  destruct (change_followed _ _ _). by destruct H as (? & ? & _).
Qed.
Lemma Chmod_locked p mode :
  Forall plain p → has_bit sticky mode = true →
  tspec sdisk (λ d, locked d p) (Chmod h p mode) (λ r d, ∀ a, r = Ok a → bindable p d).
Proof.
  intros Hp Hs. apply tspec_call; [apply locked_steady| |done]. intros d Ht Hl. destruct (locked_last d p Hl) as (i & Hi & _).
  pose proof (locked_change (set_in_mode mode) d p i Hp Ht Hl Hi eq_refl (closed_chmod mode i Hs)) as H.
  destruct (change_followed _ _ _). destruct H as (? & ? & Hf). split; [done|]. intros _ _. split; [done|by eexists].
Qed.

Lemma pvDir_root : pvDir l name = root.
Proof. unfold pvDir. by rewrite <-app_assoc. Qed.
Lemma rel_parts subPath : ValidRelPath subPath = None → Forall (λ c, c = "." ∨ plain c) (split slash subPath).
Proof.
  intros [->|(segs & Hne & -> & Hg)]%ValidRelPath_spec; [by repeat constructor; left|].
  rewrite split_join; [|done|]; [apply Forall_forall; intros w Hw|intros w Hw]; by destruct (Hg w Hw) as (? & ? & ? & ? & _); try right.
Qed.
Lemma subPathRef_spec subPath :
  subPath ≠ "" →
  hoare (λ v, tenable (vdisk v) ∧ acts (S (vst_sys v).2) = []) (subPathRef h l name subPath)
    (λ r v, tenable (vdisk v) ∧ ∀ p, r = Ok p → bindable p (vdisk v) ∧ deep p).
Proof.
  intros Hs. unfold subPathRef. rewrite bool_decide_eq_false_2, pvDir_root by done.
  destruct (ValidRelPath subPath) as [e|] eqn:Hv; [by apply hoare_fail; intros v [? _]|].
  eapply (hoare_bind _ _ _ (λ _ v, tenable (vdisk v) ∧ locked (vdisk v) root)).
  { intros v v' r. unfold wrapped, act_wrap. destruct (ensureAgentOwned h l root v) as [v1 [a|e]] eqn:E; intros [= <- <-] Hp;
      destruct (ensureAgentOwned_spec _ _ _ E Hp) as [Ht H]; [by eauto|done]. }
  intros _. apply (tspec_seq (λ d, locked d root) _ _ (λ p d, locked d p ∧ deep p) (λ p d, bindable p d ∧ deep p)).
  { apply subPath_parts_spec; [by apply rel_parts|]. split; [done|apply root_plain]. }
  intros p v v' r Hr (Ht & Hl & Hd). revert v v' r Hr Ht Hl.
  assert (tspec vdisk (λ d, locked d p) (do! warned (Chown h p (host_uid h) (floorGID l)) in
    do! wrapped "subPath" (vsys (Chmod h p subPathMode)) in act_ret p)%go (λ r d, ∀ q, r = Ok q → bindable q d ∧ deep q)) as H;
    [|intros v v' r Hr Ht Hl; by apply (H _ _ _ Hr)].
  apply (tspec_seq _ _ _ (λ _ d, locked d p) (λ q d, bindable q d ∧ deep q)).
  { apply (tspec_mono _ _ (λ d, locked d p) _ _ (λ r d, r = Ok tt ∧ locked d p)); [|done|by intros r d _ [_ ?] _ _].
    apply tspec_warned, Chown_locked. by destruct Hd. }
  intros _. apply (tspec_seq _ _ _ (λ _ d, bindable p d) (λ q d, bindable q d ∧ deep q)).
  - apply (tspec_wrapped _ _ _ (λ _ d, bindable p d)), tspec_vsys_ok, Chmod_locked; [by destruct Hd|apply sticky_set].
  - intros _. apply tspec_ret. by intros d _ Hb q [= <-].
Qed.

Lemma has_bit_lor b m x : has_bit b m = true → has_bit b (Z.lor m x) = true.
Proof. unfold has_bit. rewrite Z.land_lor_distr_l, !negb_true_iff, !Z.eqb_neq. intros H [? _]%Z.lor_eq_0_iff. done. Qed.
Lemma keepBits_sticky m : has_bit sticky (keepBits m) = has_bit sticky m.
Proof. unfold has_bit, keepBits. by rewrite <-Z.land_assoc. Qed.
Lemma applyVolumeGroup_spec p gid :
  Forall plain p → p ≠ [] →
  tspec vdisk (bindable p) (applyVolumeGroup h p gid) (λ r d, ∀ a, r = Ok a → bindable p d).
Proof.
  intros Hp Hne. unfold applyVolumeGroup. destruct (gid <=? 0); [apply tspec_ret; auto|].
  apply (tspec_seq _ _ _ (λ i d, locked d p ∧ has_bit sticky (in_mode i) = true) (λ _ d, bindable p d)).
  { apply tspec_vsys_ok, tspec_call; [apply bindable_steady| |done]. intros d Ht [Hl (i & Hi & Hs)]. split; [done|].
    unfold lstat. rewrite (locked_names_at d p Hp Hl), Hi. intros a [= <-]. done. }
  intros i v v' r Hr (Ht & Hl & Hs). revert Hr Ht Hl. set (mode := Z.lor _ _). intros Hr Ht Hl.
  assert (has_bit sticky mode = true) as Hm by (unfold mode; do 2 apply has_bit_lor; by rewrite keepBits_sticky).
  revert v v' r Hr Ht Hl.
  assert (tspec vdisk (λ d, locked d p) (do! warned (Chown h p (host_uid h) gid) in vsys (Chmod h p mode))%go (λ r d, ∀ a, r = Ok a → bindable p d)) as H;
    [|intros v v' r Hr Ht Hl; by apply (H _ _ _ Hr)].
  apply (tspec_seq _ _ _ (λ _ d, locked d p) (λ _ d, bindable p d)).
  - apply (tspec_mono _ _ (λ d, locked d p) _ _ (λ r d, r = Ok tt ∧ locked d p)); [|done|by intros r d _ [_ ?] _ _].
    by apply tspec_warned, Chown_locked.
  - intros _. by apply tspec_vsys_ok, Chmod_locked.
Qed.
End Root.

Lemma resolve_mount_locked app pvs m v v' vol :
  plain (WorkloadID (wa_Namespace app) (PVName m (wa_Name app))) → tenable (vdisk v) → acts (S (vst_sys v).2) = [] → vm_SubPath m ≠ "" →
  resolve_mount h l app pvs m v = (v', Ok (Some vol)) → vo_Kind vol = VolumeHostPath →
  ∃ p, vo_Ref vol = path_text p ∧ deep (WorkloadID (wa_Namespace app) (PVName m (wa_Name app))) p ∧
    tenable (vdisk v') ∧ locked (vdisk v') p.
Proof.
  set (id := WorkloadID _ _). intros Hid Ht Ha Hs Hr Hk. unfold resolve_mount in Hr.
  destruct (IsTmpfs m); [by injection Hr as <- <-|]. destruct (IsSecret m); [done|]. fold id in Hr.
  destruct (pvs !! id) as [pv|]; [|done]. unfold act_bind, wrapped, act_wrap in Hr.
  destruct (subPathRef h l id (vm_SubPath m) v) as [v1 [p|e]] eqn:E1; [|done].
  destruct (subPathRef_spec id Hid (vm_SubPath m) Hs _ _ _ E1) as [Ht1 H1]; [done|]. destruct (H1 p eq_refl) as [Hb Hd].
  destruct (applyVolumeGroup h p (volumeGroupOf l app) v1) as [v2 [a|e]] eqn:E2; [|done]. injection Hr as <- <-.
  destruct (applyVolumeGroup_spec p (volumeGroupOf l app) (deep_plain _ _ Hd)) with v1 v2 (Ok (E := VolErr) a) as [Ht2 H2]; [|done|done|].
  - destruct Hd as [[k ->] _]. by destruct (lo_stateDir l).
  - exists p. destruct (H2 a eq_refl) as [Hl _]. done.
Qed.
End Specs.

Section Volumes.
Context {HQ : Quantity} (W : gset Z) (l : local) (h : Host) (acts : nat → list TenantOp).
Context (Hplain : Forall plain (lo_stateDir l)) (Huid : host_uid h ∉ W)
  (Hacts : ∀ n d, host_meanwhile h n d = tenants_run W (lo_stateDir l ++ ["volumes"]) d (acts n)).

(** C32: The path a subPath mount is resolved to lies in the volume and stays what it is: after
    any further calls of any workloads - links planted, directories renamed or removed, modes
    changed, as far as their rights go - every element of it names the directory it named, so
    the path means itself at every later start of the unit.  The workloads also act between any
    two calls of the agent while it resolves the mount, save between the look at the volume's
    directory and the call that takes it back. *)
Theorem bind_source_fixed app pvs m v v' vol :
  let id := WorkloadID (wa_Namespace app) (PVName m (wa_Name app)) in
  let V := lo_stateDir l ++ ["volumes"] in
  plain id → tenable W V (vst_sys v).1 → acts (S (vst_sys v).2) = [] → vm_SubPath m ≠ "" →
  resolve_mount h l app pvs m v = (v', Ok (Some vol)) → vo_Kind vol = VolumeHostPath →
  ∃ p, vo_Ref vol = path_text p ∧ pvDir l id `prefix_of` p ∧
    ∀ ops, let d := tenants_run W V (vst_sys v').1 ops in
      namei d p = Ok p ∧ is_dir d p = true ∧ ∀ q, q `prefix_of` p → dk_names d !! q = dk_names (vst_sys v').1 !! q.
Proof.
  intros id V Hid Ht Ha Hs Hr Hk.
  destruct (resolve_mount_locked W l h acts Hplain Huid Hacts app pvs m v v' vol) as (p & Hp & Hd & Ht' & Hl); try done.
  exists p. split; [done|]. split; [rewrite pvDir_root; apply Hd|]. intros ops d.
  destruct (locked_run W V _ p ops Ht' Hl) as [Hl' Hn]. split; [by apply (locked_namei W); [apply Hd|]|]. split; [|done].
  pose proof (locked_dirs W _ p Hl' (length p)) as Hdir. by rewrite firstn_all in Hdir.
Qed.
End Volumes.

(** ** What a sweep of the volumes removes

    [Reclaim] is the only operation of the volume driver that destroys data.  It may destroy
    that of a volume this node recorded, whose PersistentVolume is gone from the whole cluster,
    which no application still mounts and whose policy is not Retain; and it stops recording a
    volume only once its data is gone or kept on purpose. *)
#[local] Open Scope Z_scope.
Section Reclaim.
Context {HQ : Quantity} (l : local) (h : Host) `{!Quiet h} (left_over : nat → list string → bool).
Context (Hplain : Forall plain (lo_stateDir l)) (allPVs : gset string) (wanted : gmap string App).
Local Abbreviation V := (lo_stateDir l ++ ["volumes"]).
Local Abbreviation names v := (dk_names (vst_sys v).1).
Local Abbreviation ledger v := (vst_provisioned v).

Definition abandoned (name : string) : Prop := name ∉ allPVs ∧ name ∉ inUse wanted.
(** What was done since [v0]. *)
Record swept (v0 v : vol_state) : Prop := mkSwept {
  sw_names : ∀ p, names v !! p = names v0 !! p ∨
    (names v !! p = None ∧ ∃ name pol, ledger v0 !! name = Some pol ∧ pol ≠ ReclaimRetain ∧ abandoned name ∧ pvDir l name `prefix_of` p);
  sw_dropped : ∀ name pol, ledger v0 !! name = Some pol → ledger v !! name = None →
    abandoned name ∧ (pol ≠ ReclaimRetain → ∀ p, pvDir l name `prefix_of` p → names v !! p = None);
  sw_ledger : ledger v ⊆ ledger v0;
  sw_inodes : dk_inodes (vst_sys v).1 = dk_inodes (vst_sys v0).1;
}.
Definition real (v : vol_state) : Prop := ∀ j, is_dir (vst_sys v).1 (take j V) = true.

Lemma swept_refl v : swept v v.
Proof. split; [by left|congruence|done|done]. Qed.
(** The directory above the volumes is not touched. *)
Lemma swept_real v0 v : swept v0 v → real v0 → real v.
Proof.
  intros Hs Hr j. specialize (Hr j). unfold is_dir, find in *. rewrite (sw_inodes _ _ Hs).
  destruct (sw_names _ _ Hs (take j V)) as [->|(_ & name & _ & _ & _ & _ & [k Hk])]; [done|]. exfalso.
  apply (f_equal length) in Hk. rewrite length_take, length_app in Hk. unfold pvDir in Hk. rewrite !length_app in Hk. cbn in Hk. lia.
Qed.
Lemma pvDir_name v name : plain name → real v → namei_parent (vst_sys v).1 (pvDir l name) = Ok (pvDir l name).
Proof.
  intros Hn Hr. unfold pvDir. change ["volumes"; name] with (["volumes"] ++ [name]). rewrite app_assoc, namei_parent_snoc.
  assert (namei (vst_sys v).1 V = Ok V) as ->.
  { apply resolve_real; [|done]. apply Forall_app. split; [done|]. by repeat constructor. }
  specialize (Hr (length V)). rewrite firstn_all in Hr. by rewrite Hr.
Qed.

(** One volume's directory removed, wholly or in part. *)
Lemma remove_under_names keep q d p :
  dk_names (remove_under keep q d) !! p = dk_names d !! p ∨ (dk_names (remove_under keep q d) !! p = None ∧ q `prefix_of` p).
Proof.
  unfold remove_under. cbn. destruct (decide (q `prefix_of` p)) as [Hq|Hq].
  - destruct (filter _ _ !! p) as [i|] eqn:E; [|by right]. apply map_lookup_filter_Some in E as [-> _]. by left.
  - left. destruct (dk_names d !! p) as [i|] eqn:Hi.
    + by apply map_lookup_filter_Some_2.
    + apply map_lookup_filter_None. by left.
Qed.
Lemma remove_all_names q d p : q `prefix_of` p → dk_names (remove_under (λ _, false) q d) !! p = None.
Proof. intros Hq. unfold remove_under. cbn. apply map_lookup_filter_None. right. intros i _ H. by specialize (H Hq). Qed.

Lemma removed_swept v0 v keep name pol n :
  swept v0 v → ledger v0 !! name = Some pol → pol ≠ ReclaimRetain → abandoned name →
  swept v0 (mkVol (remove_under keep (pvDir l name) (vst_sys v).1, n) (ledger v) (vst_saved v)).
Proof.
  intros [Hn Hd Hl Hi] Hp Hr Ha. split; cbn -[remove_under]; [| |done|done].
  - intros p. destruct (remove_under_names keep (pvDir l name) (vst_sys v).1 p) as [->|[-> Hq]]; [apply Hn|]. right. eauto 10.
  - intros name' pol' H1 H2. destruct (Hd name' pol' H1 H2) as [Hab Hgone]. split; [done|]. intros Hret p Hq.
    destruct (remove_under_names keep (pvDir l name) (vst_sys v).1 p) as [->|[-> _]]; [by apply Hgone|done].
Qed.
Lemma forget_swept v0 v name pol saved :
  swept v0 v → ledger v0 !! name = Some pol → abandoned name →
  (pol ≠ ReclaimRetain → ∀ p, pvDir l name `prefix_of` p → names v !! p = None) →
  swept v0 (mkVol (vst_sys v) (delete name (ledger v)) saved).
Proof.
  intros [Hn Hd Hl Hi] Hp Ha Hgone. split; cbn; [done| | |done].
  - intros name' pol' H1. destruct (decide (name = name')) as [<-|Hne].
    + intros _. assert (pol' = pol) as -> by congruence. done.
    + rewrite lookup_delete_ne by done. by apply Hd.
  - etrans; [apply delete_subseteq|done].
Qed.

Lemma reclaim_one_swept v0 x :
  real v0 → ledger v0 !! x.1 = Some x.2 → plain x.1 →
  hoare (swept v0) (reclaim_one h l left_over allPVs (inUse wanted) x) (λ _, swept v0).
Proof.
  destruct x as [name pol]. cbn. intros Hreal Hp Hn v v' r Hr Hs.
  destruct (bool_decide_reflect (name ∈ allPVs)) as [|Ha]; [by injection Hr as <- <-|].
  destruct (bool_decide_reflect (name ∈ inUse wanted)) as [|Hu]; [by injection Hr as <- <-|]. cbn in Hr.
  assert (abandoned name) as Hab by done.
  destruct (bool_decide_reflect (pol = ReclaimRetain)) as [->|Hret].
  { injection Hr as <- <-. by eapply forget_swept. }
  unfold act_bind, act_try, vsys, RemoveAll in Hr. rewrite quiet in Hr.
  rewrite (pvDir_name v name Hn (swept_real _ _ Hs Hreal)) in Hr.
  destruct (host_refuses h (vst_sys v).2) as [e|]; injection Hr as <- <-.
  - by eapply removed_swept.
  - pose proof (removed_swept v0 v (λ _, false) name pol (S (vst_sys v).2) Hs Hp Hret Hab) as H.
    eapply (forget_swept _ _ _ _ (vst_saved v)) in H; [exact H|exact Hp|done|]. intros _ p Hq. by apply remove_all_names.
Qed.
Lemma over_swept v0 xs :
  real v0 → (∀ x, x ∈ xs → ledger v0 !! x.1 = Some x.2 ∧ plain x.1) →
  hoare (swept v0) (over (reclaim_one h l left_over allPVs (inUse wanted)) xs) (λ _, swept v0).
Proof.
  intros Hr. induction xs as [|x xs IH]; intros Hx; cbn [over]; [by apply hoare_ret|].
  destruct (Hx x) as [Hp Hn]; [left|]. eapply (hoare_bind _ _ _ (λ _, swept v0)).
  - eapply hoare_mono; [by apply reclaim_one_swept|done|]. by intros [a|e] v.
  - intros y. eapply (hoare_bind _ _ _ (λ _, swept v0)); [|intros z; by apply hoare_ret].
    eapply hoare_mono; [apply IH; intros z Hz; apply Hx; by right|done|]. by intros [a|e] v.
Qed.
Lemma save_swept v0 : hoare (swept v0) (saveProvisioned h) (λ _, swept v0).
Proof.
  intros v v' r. unfold saveProvisioned, vsys, act_bind, call. rewrite !quiet. intros Hr [Hn Hd Hl Hi].
  destruct (host_refuses h (vst_sys v).2) as [e|]; cbn in Hr; [injection Hr as <- <-; by split|]. rewrite quiet in Hr.
  destruct (host_refuses h (S (vst_sys v).2)) as [e|]; cbn in Hr; injection Hr as <- <-; by split.
Qed.

(** C33: A sweep removes the data of volumes that are recorded here, gone from the cluster,
    mounted by no wanted application and not retained, and nothing else; it forgets a volume
    only when it is abandoned and, unless it is retained, nothing is left of it; a failed
    removal keeps it recorded.  An empty list of volumes sweeps nothing. *)
Theorem reclaim_sound v v' r :
  real v → (∀ name, name ∈ dom (ledger v) → plain name) →
  Reclaim h l left_over allPVs wanted v = (v', r) →
  (allPVs = ∅ → v' = v) ∧
  (∀ p, names v' !! p = names v !! p ∨
    (names v' !! p = None ∧ ∃ name pol, ledger v !! name = Some pol ∧ pol ≠ ReclaimRetain ∧ abandoned name ∧ pvDir l name `prefix_of` p)) ∧
  (∀ name pol, ledger v !! name = Some pol → ledger v' !! name = None →
    abandoned name ∧ (pol ≠ ReclaimRetain → ∀ p, pvDir l name `prefix_of` p → names v' !! p = None)) ∧
  ledger v' ⊆ ledger v.
Proof.
  intros Hreal Hpl Hr. unfold Reclaim in Hr. destruct (bool_decide_reflect (allPVs = ∅)) as [He|He].
  { injection Hr as <- <-. split; [done|]. pose proof (swept_refl v) as [? ? ? ?]. done. }
  split; [done|]. assert (swept v v') as [? ? ? ?]; [|done]. pose proof (swept_refl v) as H0. revert Hr H0.
  set (m := act_bind _ _). assert (hoare (swept v) m (λ _, swept v)) as H; [|apply H].
  eapply (hoare_bind _ _ _ (λ _, swept v)).
  - eapply hoare_mono; [apply over_swept; [done|]|done|by intros [a|e] s].
    intros [name pol] Hx%elem_of_map_to_list. split; [done|]. apply Hpl. by apply elem_of_dom.
  - intros x. eapply (hoare_bind _ _ _ (λ _, swept v)); [|intros []; by apply hoare_ret].
    destruct x.1; [|by apply hoare_ret]. eapply hoare_mono; [apply save_swept|done|by intros [a|e] s].
Qed.
End Reclaim.

(** ** The volume driver behind the agent's port

    The agent's loop ([Agent.converge_app]) with the operations of [Volumes] as its volume port.
    A mount that is neither tmpfs nor secret is taken for a PersistentVolume, so an application
    with a token mount is never started ([token_app_never_applied]). *)
From S2P Require Import ApiObjects DesiredState Agent.
#[local] Open Scope Z_scope.
Section Port.
Context {HQ : Quantity} {N : Type} (get : N → vol_state) (set : vol_state → N → N).
Context (h : Host) (l : local) (left_over : nat → list string → bool) (text : VolErr → error) (join : list VolErr → error).
(** The order a map of volumes is ranged over. *)
Context (range : gmap string PersistentVolume → list (string * PersistentVolume)).

Definition joined_error (r : result VolErr (list VolErr)) : option error :=
  match r with Ok [] => None | Ok errs => Some (join errs) | Err e => Some (text e) end.
Definition driver_ports (p : Ports N) : Ports N :=
  mkPorts (rt_Name p) (rt_Apply p) (rt_Remove p) (rt_States p) (rt_Metrics p)
    (λ pvs n, let '(v, r) := Provision h l (range pvs) (get n) in (set v n, joined_error r))
    Fits
    (λ app pvs n, let '(v, r) := Resolve h l app pvs (get n) in (set v n, match r with Ok vs => Ok vs | Err e => Err (text e) end))
    (λ all wanted n, let '(v, r) := Reclaim h l left_over all wanted (get n) in (set v n, joined_error r))
    (se_Materialize p) (se_MaterializeEnv p) (se_StaleApps p) (nw_present p) (nw_Status p) (nw_Configure p) (nw_GC p).

Lemma token_not_resolved app pvs m v :
  m ∈ wa_Volumes app → IsToken m = true → pvs !! WorkloadID (wa_Namespace app) (PVName m (wa_Name app)) = None →
  ∃ v' e, Resolve h l app pvs v = (v', Err e).
Proof.
  intros Hm Ht Hp. unfold Resolve. revert v. induction (wa_Volumes app) as [|m' ms IH]; [by apply elem_of_nil in Hm|]. intros v. cbn.
  unfold act_bind. apply elem_of_cons in Hm as [<-|Hm].
  - unfold resolve_mount, IsTmpfs, IsSecret, IsToken in *. apply bool_decide_eq_true in Ht. rewrite Ht, Hp. cbn. eauto.
  - destruct (resolve_mount h l app pvs m' v) as [v1 [a|e]]; [|by eauto].
    destruct (IH Hm v1) as (v2 & e & E). rewrite E. eauto.
Qed.

(** An application with a token mount, which admission lets name no object, is not handed to
    the runtime unless a PersistentVolume happens to bear the application's name: its turn of
    the loop ends with an error or is skipped. *)
Theorem token_app_never_applied p pvs secrets stores x name app m :
  m ∈ wa_Volumes app → IsToken m = true → vs_Name (vm_Volume m) = "" → wa_Deleting app = false →
  pvs !! WorkloadID (wa_Namespace app) (wa_Name app) = None →
  let x' := converge_app (driver_ports p) pvs secrets stores x (name, app) in
  ps_log x' = ps_log x ∧ ps_applied x' = ps_applied x.
Proof.
  intros Hm Ht Hn Hd Hp. cbn. rewrite Hd. destruct (Fits app pvs); cbn; [|done].
  destruct (token_not_resolved app pvs m (get (ps_node x)) Hm Ht) as (v' & e & ->); [|done].
  unfold PVName. by rewrite Hn.
Qed.
End Port.

(** ** A volume under attack

    A node with one volume that belongs to its workload (uid 1001), which tries to swap a
    directory of a bind source for a link to /etc, before, while and after the agent resolves
    the mount. *)
Module VolumeDemo.
Import NanoQuantity.
#[local] Open Scope Z_scope.
Definition dir_of (uid mode : Z) : Inode := mkInode KDir mode uid uid (1, 1) [].
Definition root : list string := ["state"; "volumes"; "red_data"].
(** The disk, the volume's directory with the given mode. *)
Definition disk (mode : Z) : Disk := mkDisk
  (<[[] := 1%positive]> (<[["etc"] := 2%positive]> (<[["state"] := 3%positive]> (<[["state"; "volumes"] := 4%positive]> (<[root := 5%positive]> ∅)))))
  (<[1%positive := dir_of 0 (perms 7 5 5)]> (<[2%positive := dir_of 0 (perms 7 5 5)]> (<[3%positive := dir_of 0 (perms 7 5 5)]>
    (<[4%positive := dir_of 0 (perms 7 5 0)]> (<[5%positive := dir_of 1001 mode]> ∅))))) 6.
Definition W : gset Z := {[1001]}.
Definition driver : local := mkLocal ["state"] (mkIDRange 100000 199999) (mkIDRange 100000 199999).
Definition node (acts : nat → list TenantOp) : Host :=
  mkHost (λ _, None) (perms 0 2 2) 0 0 7 (λ n d, tenants_run W ["state"; "volumes"] d (acts n)).
Definition start (mode : Z) : vol_state := mkVol (disk mode, 0%nat) {["red_data" := ReclaimDelete]} None.
Definition mount : VolumeMount :=
  mkVolumeMount (mkVolumeSource VolumeTypePV "data" q_zero [] None None "") "/data" false "sub/deep".
Definition app : App :=
  mkApp "u1" "web" "red" 1 "n1" "img" [] [] ra_zero ra_zero [] [] [] (mkLifecycle "" None None None) 0 false None [mount] ∅ true "" "" 0.
Definition pvs : gmap string PersistentVolume := {["red_data" := mkPV zero_meta (mkPVSpec q_zero "n1" "" "" false)]}.

(** Swap [sub] for a link out of the volume, wherever it is allowed. *)
Definition swap : list TenantOp :=
  [TMove root "sub" root "old"; TRemove (root ++ ["sub"]) "deep"; TMake 1001 root "sub" (KLink "/etc") (perms 7 7 7)].
(** All the time but between the look and the call that takes the directory back; planting the
    link only once [sub] is there, for otherwise the mount fails. *)
Definition always (n : nat) : list TenantOp :=
  if decide (n = 1)%nat then [] else TChmod root (perms 7 7 7) :: (if decide (4 ≤ n)%nat then swap else []).

Lemma disk_tenable mode : tenable W ["state"; "volumes"] (disk mode).
Proof.
  assert (∀ p i, dk_names (disk mode) !! p = Some i →
    (p, i) ∈ [([], 1%positive); (["etc"], 2%positive); (["state"], 3%positive); (["state"; "volumes"], 4%positive); (root, 5%positive)]) as Hn.
  { intros p i. cbn [dk_names disk]. rewrite !lookup_insert_Some, lookup_empty. intros Hp.
    repeat (destruct_or?; destruct_and?); simplify_eq; set_solver. }
  assert (∀ p i, dk_names (disk mode) !! p = Some i → in_volume ["state"; "volumes"] p = false) as Hv.
  { intros p i H%Hn. repeat (apply elem_of_cons in H as [H|H]); simplify_eq; try done. by apply elem_of_nil in H. }
  split.
  - intros p i H%Hn. repeat (apply elem_of_cons in H as [H|H]); simplify_eq; try done. by apply elem_of_nil in H.
  - intros i n. cbn [dk_inodes disk]. rewrite !lookup_insert_Some, lookup_empty. intros H.
    repeat (destruct_or?; destruct_and?); simplify_eq; done.
  - intros p q i Hp _ H%Hv. congruence.
  - intros [|[|[|j]]]; eexists; (split; [reflexivity|]); (split; [done|]); (split; [set_solver|by right]).
  - intros p i Hp. unfold find. destruct (dk_names (disk mode) !! p) as [k|] eqn:E; [|done]. apply Hv in E. congruence.
Qed.

Definition bound : Volume := mkVolume VolumeHostPath "/state/volumes/red_data/sub/deep" "/data" "" "" false ∅.
Lemma bind_source_fixed_witness :
  (resolve_mount (node always) driver app pvs mount (start (perms 7 7 0))).2 = Ok (Some bound) ∧
  ∃ p, vo_Ref bound = path_text p ∧
    let v' := (resolve_mount (node always) driver app pvs mount (start (perms 7 7 0))).1 in
    namei (tenants_run W ["state"; "volumes"] (vst_sys v').1 swap) p = Ok p.
Proof.
  assert ((resolve_mount (node always) driver app pvs mount (start (perms 7 7 0))).2 = Ok (Some bound)) as Hr by (vm_compute; reflexivity).
  split; [exact Hr|].
  destruct (resolve_mount (node always) driver app pvs mount (start (perms 7 7 0))) as [v' r] eqn:E. cbn in Hr. subst r.
  destruct (bind_source_fixed W driver (node always) always) with app pvs mount (start (perms 7 7 0)) v' bound as (p & Hp & _ & H).
  - by repeat constructor.
  - intros H%elem_of_singleton. discriminate H.
  - done.
  - by repeat split.
  - apply disk_tenable.
  - reflexivity.
  - discriminate.
  - exact E.
  - reflexivity.
  - exists p. split; [exact Hp|]. apply (H swap).
Defined.

(** The exception is needed: a workload that owns the directory and has set its sticky bit takes
    the bit away between the look, which saw it, and the call that changes the owner.  The mount
    is resolved, the directory stays open to removals, and the workload swaps the bind source
    for a link: at the next start the path means /etc. *)
Definition between (n : nat) : list TenantOp := if decide (n = 1)%nat then [TChmod root (perms 7 7 0)] else [].
Example sticky_lost :
  let '(v', r) := resolve_mount (node between) driver app pvs (mkVolumeMount (vm_Volume mount) "/data" false "sub") (start (Z.lor (perms 7 7 0) sticky)) in
  r = Ok (Some (mkVolume VolumeHostPath "/state/volumes/red_data/sub" "/data" "" "" false ∅)) ∧
  namei (vst_sys v').1 (root ++ ["sub"]) = Ok (root ++ ["sub"]) ∧
  namei (tenants_run W ["state"; "volumes"] (vst_sys v').1 swap) (root ++ ["sub"]) = Ok ["etc"].
Proof. vm_compute. auto. Qed.

(** The link planted before the mount is resolved makes it fail. *)
Example planted_refused :
  (resolve_mount (node (λ n, if decide (n = 0)%nat then swap else [])) driver app pvs mount (start (perms 7 7 0))).2 =
  Err (VolIn "volume" (VolIn "subPath" (VolText "is a symlink; the bind mount would resolve it out of the volume"))).
Proof. vm_compute. reflexivity. Qed.

(** ** A sweep *)
Definition quiet_node : Host := mkHost (λ _, None) (perms 0 2 2) 0 0 7 (λ _ d, d).
#[local] Instance quiet_node_quiet : Quiet quiet_node.
Proof. done. Qed.
Lemma reclaim_sound_witness :
  let v' := (Reclaim quiet_node driver (λ _ _, false) {["other"]} ∅ (start (perms 7 7 0))).1 in
  vst_provisioned v' !! "red_data" = None ∧ dk_names (vst_sys v').1 !! root = None.
Proof.
  destruct (Reclaim quiet_node driver (λ _ _, false) {["other"]} ∅ (start (perms 7 7 0))) as [v' r] eqn:E.
  destruct (reclaim_sound driver quiet_node (λ _ _, false)) with (allPVs := {["other"]} : gset string) (wanted := ∅ : gmap string App)
    (v := start (perms 7 7 0)) (v' := v') (r := r) as (_ & _ & H & _).
  - by repeat constructor.
  - by intros [|[|[|j]]].
  - intros name Hn. cbn in Hn. rewrite dom_singleton_L in Hn. apply elem_of_singleton in Hn as ->. by repeat split.
  - exact E.
  - assert (vst_provisioned v' !! "red_data" = None) as Hv
      by (apply (f_equal fst) in E; cbn [fst] in E; rewrite <-E; vm_compute; reflexivity).
    split; [exact Hv|]. apply (H "red_data" ReclaimDelete); [reflexivity|exact Hv|discriminate|]. exists []. reflexivity.
Defined.
(** A volume an application still mounts is kept, and so is one when the list is empty. *)
Example mounted_kept :
  dk_names (vst_sys (Reclaim quiet_node driver (λ _ _, false) {["other"]} {["u1" := app]} (start (perms 7 7 0))).1).1 !! root = Some 5%positive ∧
  dk_names (vst_sys (Reclaim quiet_node driver (λ _ _, false) ∅ ∅ (start (perms 7 7 0))).1).1 !! root = Some 5%positive.
Proof. vm_compute. auto. Qed.
End VolumeDemo.
