(* ===== verification/Vault.v ===== *)
(** * The Vault client of a node (agent/secret/vault.go)

    The values of external secrets, read from the server a SecretStore names, kept in memory and
    refreshed behind the reconcile loop.  The server answers each request as a function of what
    was exchanged before; an answer is the decoded body, the fields that are absent being zero.
    HTTP, TLS and JSON are not modelled.

    The client has two threads: the reconcile loop, which fetches, and the refresher, which
    collects what is due under the lock and then works it off, releasing the lock around every
    call.  [vault_step] is one critical section with the calls next to it, so the fetches of the
    other thread come between any two. *)
From stdpp Require Import gmap strings list.
From Stdlib Require Import ZArith Ascii.
From S2P Require Import Prelude Resources Paths CoreV1 ApiObjects Authz Guards DesiredState InodeFS.
Import GoInt.
#[local] Open Scope Z_scope.

Definition second : Z := 1000000000.
Definition minute : Z := 60 * second.
Definition vaultCacheTTL : Z := 5 * minute.
Definition rotationSkew : Z := 5 * second.
Definition refreshRetryBase : Z := 30 * second.
Definition refreshRetryMax : Z := vaultCacheTTL.
Definition idleEvict : Z := 15 * minute.
Definition renewNumer : Z := 2.
Definition renewDenom : Z := 3.
Definition renewFloor : Z := 5 * second.
Definition CredentialUsername : string := "username".
Definition CredentialPassword : string := "password".
Definition AnnExternalSecretKeys : string := "secrets.horchestra.io/keys".
Definition StaticCredsPath (r : EngineRole) : string := er_Mount r +:+ "/static-creds/" +:+ er_Role r.
Definition CredsPath (r : EngineRole) : string := er_Mount r +:+ "/creds/" +:+ er_Role r.

Abbreviation Values := (gmap string (list ascii)) (only parsing).
Definition ss_Namespace (s : SecretStore) : string := om_Namespace (ss_meta s).
Definition ss_Name (s : SecretStore) : string := om_Name (ss_meta s).

Record fetchSpec := mkFetchSpec { fs_store : SecretStore; fs_path : string; fs_staticRole : string; fs_dynamicRole : string; fs_keys : string }.
Record vaultEntry := mkVaultEntry {
  ve_data : Values; ve_expires : Z; ve_lastUsed : Z; ve_spec : fetchSpec; ve_token : string; ve_failures : Z;
  ve_leaseID : string; ve_renewable : bool; ve_staleSince : option Z;
}.
Record readResult := mkReadResult { rr_data : Values; rr_until : Z; rr_leaseID : string; rr_renewable : bool }.

(** ** Requests *)
Record Request := mkRequest { rq_Method : string; rq_URL : string; rq_Token : string; rq_Namespace : string; rq_Body : list (string * string) }.
Record Payload := mkPayload {
  py_ClientToken : string; py_LeaseID : string; py_LeaseDuration : Z; py_Renewable : bool;
  py_Username : string; py_Password : string; py_TTL : Z;
  (** The values at a path, as the two versions of the engine wrap them. *)
  py_KV1 : result error Values; py_KV2 : result error Values;
}.
Inductive Event :=
| EvExchange (r : Request) (answer : result error Payload)
| EvInstalled (key : string) (spec : fetchSpec) (data : Values) (lease : string)
(** An attempt to release a lease ended; whether the server confirmed it.  The attempt may have
    failed before its request was sent. *)
| EvRelease (lease : string) (confirmed : bool).
Definition Net (A : Type) : Type := Act (list Event) error A.

Definition TrimSuffix_slash (s : string) : string :=
  match GoStrings.reverse_string s with String "/" r => GoStrings.reverse_string r | _ => s end.
Definition annotation (sec : Secret) (a : string) : string := default "" (om_Annotations (sec_meta sec) !! a).

(** [resolveFetch]: what to read, and the key of the cache. *)
Definition cache_key (s : fetchSpec) : string :=
  GoStrings.join (String "000" "")
    [ss_Namespace (fs_store s); ss_Name (fs_store s); sss_Server (ss_Spec (fs_store s)); sss_Mount (ss_Spec (fs_store s));
     fs_path s; fs_staticRole s; fs_dynamicRole s; fs_keys s].
Definition resolveFetch (sec : Secret) (stores : list SecretStore) : result error (fetchSpec * string) :=
  let storeName := annotation sec AnnExternalSecretStore in
  let path := trim slash (annotation sec AnnExternalSecretPath) in
  let staticRole := GoStrings.TrimSpace (annotation sec AnnExternalSecretStaticRole) in
  let dynamicRole := GoStrings.TrimSpace (annotation sec AnnExternalSecretDynamicRole) in
  let named := length (filter (λ v, v ≠ "") [path; staticRole; dynamicRole]) in
  if bool_decide (storeName = "") then Err "annotation is required"
  else if (1 <? named)%nat then Err "mutually exclusive"
  else if (named =? 0)%nat then Err "needs an annotation"
  else match List.find (λ s, bool_decide (ss_Namespace s = om_Namespace (sec_meta sec)) && bool_decide (ss_Name s = storeName)) stores with
       | Some s =>
           let spec := mkFetchSpec s path staticRole dynamicRole (annotation sec AnnExternalSecretKeys) in
           Ok (spec, cache_key spec)
       | None => Err "secretstore not available"
       end.

Fixpoint filter_keys (data : Values) (keys : list string) (out : Values) : result error Values :=
  match keys with
  | [] => Ok out
  | k :: keys =>
      let k := GoStrings.TrimSpace k in
      if bool_decide (k = "") then filter_keys data keys out
      else match data !! k with
           | None => Err "key not found at the store path"
           | Some v => filter_keys data keys (<[k := v]> out)
           end
  end.
Definition filterKeys (data : Values) (csv : string) : result error Values :=
  if bool_decide (GoStrings.TrimSpace csv = "") then Ok data else filter_keys data (split "," csv) ∅.

Definition renewAfter (lease : Z) : Z := Z.max renewFloor (Z.quot (wrap64 (lease * renewNumer)) renewDenom).

Section Client.
(** The server; whether the node has a certificate; whether a bundle holds one. *)
Context (server : list Event → Request → result error Payload) (has_cert : bool) (holds_cert : list ascii → bool).

Definition vault_do (r : Request) : Net Payload := λ log, let a := server log r in (log ++ [EvExchange r a], a).
Definition note (e : Event) : Net unit := λ log, (log ++ [e], Ok tt).
Definition httpClient (store : SecretStore) : Net unit :=
  if negb (bool_decide (sss_CABundle (ss_Spec store) = [])) && negb (holds_cert (sss_CABundle (ss_Spec store)))
  then act_fail "caBundle holds no certificate" else act_ret tt.
Definition base_url (store : SecretStore) : string := TrimSuffix_slash (sss_Server (ss_Spec store)) +:+ "/v1/".

Definition login_with (store : SecretStore) (mountPath : string) (body : list (string * string)) : Net string :=
  let auth := sss_Auth (ss_Spec store) in
  let mountPath := if bool_decide (ssa_Path auth = "") then mountPath else ssa_Path auth in
  (let! p := vault_do (mkRequest "POST" (base_url store +:+ "auth/" +:+ trim slash mountPath +:+ "/login") "" "" body) in
   if bool_decide (py_ClientToken p = "") then act_fail "no client token in the response" else act_ret (py_ClientToken p))%go.
Definition login (store : SecretStore) (workloadJWT : string) : Net string :=
  let auth := sss_Auth (ss_Spec store) in
  let method := if bool_decide (ssa_Method auth = "") then AuthMethodCert else ssa_Method auth in
  let role k := if bool_decide (ssa_Role auth = "") then [] else [(k, ssa_Role auth)] in
  if bool_decide (method = AuthMethodCert) then
    if negb has_cert then act_fail "this node has no client certificate" else login_with store "cert" (role "name")
  else if bool_decide (method = AuthMethodKubernetes) then
    if bool_decide (workloadJWT = "") then act_fail "no workload token was pushed for this app"
    else login_with store "kubernetes" (("jwt", workloadJWT) :: role "role")
  else act_fail "auth method is not supported".

(** One authenticated call, in the store's namespace or not. *)
Definition authenticated (store : SecretStore) (workloadJWT method path namespace : string) (body : list (string * string)) : Net Payload :=
  (do! httpClient store in
   let! token := login store workloadJWT in
   vault_do (mkRequest method (base_url store +:+ path) token namespace body))%go.
Definition vault_read (store : SecretStore) (path workloadJWT : string) : Net Values :=
  let mount := if bool_decide (sss_Mount (ss_Spec store) = "") then "secret" else sss_Mount (ss_Spec store) in
  let kv2 := negb (sss_KVVersion (ss_Spec store) =? 1) in
  let url := trim slash mount +:+ (if kv2 then "/data" else "") +:+ "/" +:+ path in
  (let! p := authenticated store workloadJWT "GET" url (sss_VaultNamespace (ss_Spec store)) [] in
   match (if kv2 then py_KV2 p else py_KV1 p) with Ok v => act_ret v | Err e => act_fail e end)%go.
Definition credential (p : Payload) : Values :=
  {[CredentialUsername := String.list_ascii_of_string (py_Username p)]} ∪ {[CredentialPassword := String.list_ascii_of_string (py_Password p)]}.
Definition no_credential (p : Payload) : bool := bool_decide (py_Username p = "") || bool_decide (py_Password p = "").
Definition readStaticRole (store : SecretStore) (ann workloadJWT : string) : Net (Values * Z) :=
  match ParseEngineRole ann with
  | Err e => act_fail e
  | Ok ref =>
      let! p := authenticated store workloadJWT "GET" (StaticCredsPath ref) (sss_VaultNamespace (ss_Spec store)) [] in
      if no_credential p then act_fail "the response carries no username/password"
      else
        let ttl := wrap64 (wrap64 (py_TTL p * second) + rotationSkew) in
        act_ret (credential p, if (0 <? py_TTL p) && (ttl <? vaultCacheTTL) then ttl else vaultCacheTTL)
  end%go.
Definition readDynamicRole (store : SecretStore) (ann workloadJWT : string) : Net (Values * readResult) :=
  match ParseEngineRole ann with
  | Err e => act_fail e
  | Ok ref =>
      let! p := authenticated store workloadJWT "GET" (CredsPath ref) (sss_VaultNamespace (ss_Spec store)) [] in
      if no_credential p then act_fail "the response carries no username/password"
      else if bool_decide (py_LeaseID p = "") then act_fail "no lease in the response"
      else act_ret (credential p, mkReadResult ∅ (renewAfter (wrap64 (py_LeaseDuration p * second))) (py_LeaseID p) (py_Renewable p))
  end%go.
Definition renewLease (store : SecretStore) (leaseID workloadJWT : string) : Net (Z * bool) :=
  (let! p := authenticated store workloadJWT "PUT" "sys/leases/renew" "" [("lease_id", leaseID)] in
   act_ret (wrap64 (py_LeaseDuration p * second), py_Renewable p))%go.
Definition revokeLease (store : SecretStore) (leaseID workloadJWT : string) : Net unit :=
  (do! authenticated store workloadJWT "PUT" "sys/leases/revoke" "" [("lease_id", leaseID)] in act_ret tt)%go.

Definition readSpec (spec : fetchSpec) (token : string) : Net readResult :=
  (let! x := (if negb (bool_decide (fs_dynamicRole spec = "")) then readDynamicRole (fs_store spec) (fs_dynamicRole spec) token
              else if negb (bool_decide (fs_staticRole spec = "")) then
                let! y := readStaticRole (fs_store spec) (fs_staticRole spec) token in act_ret (y.1, mkReadResult ∅ y.2 "" false)
              else let! raw := vault_read (fs_store spec) (fs_path spec) token in act_ret (raw, mkReadResult ∅ vaultCacheTTL "" false)) in
   match filterKeys x.1 (fs_keys spec) with
   | Err e => act_fail e
   | Ok data => act_ret (mkReadResult data (rr_until x.2) (rr_leaseID x.2) (rr_renewable x.2))
   end)%go.

(** ** The cache *)
Abbreviation Cache := (gmap string vaultEntry) (only parsing).
Definition touch (now : Z) (token : string) (e : vaultEntry) : vaultEntry :=
  mkVaultEntry (ve_data e) (ve_expires e) now (ve_spec e) (if bool_decide (token = "") then ve_token e else token) (ve_failures e)
    (ve_leaseID e) (ve_renewable e) (ve_staleSince e).
Definition serve (ck token : string) (now : Z) (c : Cache) : Cache * option Values :=
  match c !! ck with
  | None => (c, None)
  | Some e => (<[ck := touch now token e]> c, Some (ve_data e))
  end.
(** [Fetch], the clock read when the value is stored. *)
Definition Fetch (sec : Secret) (stores : list SecretStore) (token : string) (now now' : Z) (s : Cache * list Event) :
    (Cache * list Event) * result error Values :=
  match resolveFetch sec stores with
  | Err e => (s, Err e)
  | Ok (spec, ck) =>
      match serve ck token now s.1 with
      | (c, Some data) => ((c, s.2), Ok data)
      | (c, None) =>
          match readSpec spec token s.2 with
          | (log, Err e) => ((c, log), Err e)
          | (log, Ok res) =>
              let e := mkVaultEntry (rr_data res) (now' + rr_until res) now' spec token 0 (rr_leaseID res) (rr_renewable res) None in
              ((<[ck := e]> c, log ++ [EvInstalled ck spec (rr_data res) (rr_leaseID res)]), Ok (rr_data res))
          end
      end
  end.

Definition settled (now : Z) (res : readResult) (newValue : bool) (e : vaultEntry) : vaultEntry :=
  mkVaultEntry (if newValue then rr_data res else ve_data e) (now + rr_until res) (ve_lastUsed e) (ve_spec e) (ve_token e) 0
    (rr_leaseID res) (rr_renewable res) None.
Definition settle (ck : string) (now : Z) (res : readResult) (newValue : bool) (c : Cache) : Cache :=
  match c !! ck with None => c | Some e => <[ck := settled now res newValue e]> c end.
Definition failed_at (now : Z) (e : vaultEntry) : vaultEntry :=
  let failures := ve_failures e + 1 in
  mkVaultEntry (ve_data e) (now + Z.min refreshRetryMax (Z.shiftl refreshRetryBase (Z.min (failures - 1) 8))) (ve_lastUsed e) (ve_spec e)
    (ve_token e) failures (ve_leaseID e) (ve_renewable e) (Some (default now (ve_staleSince e))).
Definition fail (ck : string) (now : Z) (c : Cache) : Cache :=
  match c !! ck with None => c | Some e => <[ck := failed_at now e]> c end.
Definition staleFor (ck : string) (now : Z) (c : Cache) : option Z :=
  match c !! ck with Some e => (λ t, time_Sub now t) <$> ve_staleSince e | None => None end.
Definition StaleFor (sec : Secret) (stores : list SecretStore) (now : Z) (c : Cache) : option Z :=
  match resolveFetch sec stores with Ok (_, ck) => staleFor ck now c | Err _ => None end.
Definition nextDeadline (c : Cache) : option Z :=
  foldr (λ x d, Some (match d with Some t => Z.min (ve_expires x.2) t | None => ve_expires x.2 end)) None (map_to_list c).

(** ** The refresher *)
Record due := mkDue { du_ck : string; du_spec : fetchSpec; du_token : string; du_lease : string; du_renew : bool }.
Definition idle (now : Z) (e : vaultEntry) : bool := idleEvict <=? time_Sub now (ve_lastUsed e).
Definition due_of (x : string * vaultEntry) : due := mkDue x.1 (ve_spec x.2) (ve_token x.2) (ve_leaseID x.2) (ve_renewable x.2).
(** What [refreshDue] gathers under the lock: the cache left, the leases to release, the values
    to attend to. *)
Definition collect (now : Z) (c : Cache) : Cache * list due * list due :=
  (filter (λ x, idle now x.2 = false) c,
   due_of <$> filter (λ x, idle now x.2 = true ∧ ve_leaseID x.2 ≠ "") (map_to_list c),
   due_of <$> filter (λ x, idle now x.2 = false ∧ ve_expires x.2 ≤ now) (map_to_list c)).
(** A release, best effort. *)
Definition release (w : due) : list Event → list Event := λ log,
  let '(log, r) := revokeLease (fs_store (du_spec w)) (du_lease w) (du_token w) log in
  log ++ [EvRelease (du_lease w) (match r with Ok _ => true | Err _ => false end)].
(** The value read again, and the lease it had released. *)
Definition reread (w : due) (now : Z) (c : Cache) (log : list Event) : Cache * list Event :=
  match readSpec (du_spec w) (du_token w) log with
  | (log, Err _) => (fail (du_ck w) now c, log)
  | (log, Ok res) =>
      let log := log ++ [EvInstalled (du_ck w) (du_spec w) (rr_data res) (rr_leaseID res)] in
      (settle (du_ck w) now res true c,
       if negb (bool_decide (du_lease w = "")) && negb (bool_decide (du_lease w = rr_leaseID res)) then release w log else log)
  end.
(** The turn of the loop for one value that is due. *)
Definition attend (w : due) (now : Z) (s : Cache * list Event) : Cache * list Event :=
  if negb (bool_decide (du_lease w = "")) && du_renew w then
    match renewLease (fs_store (du_spec w)) (du_lease w) (du_token w) s.2 with
    | (log, Ok (lease, renewable)) => (settle (du_ck w) now (mkReadResult ∅ (renewAfter lease) (du_lease w) renewable) false s.1, log)
    | (log, Err _) => reread w now s.1 log
    end
  else reread w now s.1 s.2.

(** ** The two threads *)
Record vault_state := mkVaultState { vs_cache : Cache; vs_evicted : list due; vs_work : list due; vs_log : list Event }.
Inductive vault_step : vault_state → vault_state → Prop :=
| VFetch sec stores token now now' c log c' log' r ev wk :
    Fetch sec stores token now now' (c, log) = ((c', log'), r) →
    vault_step (mkVaultState c ev wk log) (mkVaultState c' ev wk log')
| VCollect now c c' ev wk log :
    collect now c = (c', ev, wk) → vault_step (mkVaultState c [] [] log) (mkVaultState c' ev wk log)
| VRelease w ev wk c log :
    vault_step (mkVaultState c (w :: ev) wk log) (mkVaultState c ev wk (release w log))
| VAttend now w wk c log c' log' :
    attend w now (c, log) = (c', log') → vault_step (mkVaultState c [] (w :: wk) log) (mkVaultState c' [] wk log').
Definition vault_start : vault_state := mkVaultState ∅ [] [] [].
Definition vault_reachable : vault_state → Prop := rtc vault_step vault_start.
End Client.
