(* ===== verification/VaultTheorems.v ===== *)
(** * What the Vault client keeps

    Over every interleaving of fetches and refreshes and whatever the server answers: a value
    handed to a workload is the server's last answer for what its secret names, from a store of
    its own namespace, and every lease the node took is held, waiting to be released or has had
    its release attempted.  The instances show the leases that are not counted ([bad_keys_mint_users]), a
    change of the store that is not seen ([store_change_unseen]), a lease nobody uses
    ([idle_lease_kept]) and the credential two consumers share ([consumers_share_credential]). *)
From stdpp Require Import gmap strings list.
From Stdlib Require Import ZArith Ascii.
From S2P Require Import Prelude Resources Paths CoreV1 ApiObjects Authz Guards DesiredState InodeFS Vault.
Import GoInt.
#[local] Open Scope Z_scope.

(** ** The log *)
Definition is_exchange (e : Event) : Prop := match e with EvExchange _ _ => True | _ => False end.
Definition exchanged (log log' : list Event) : Prop := ∃ xs, log' = log ++ xs ∧ Forall is_exchange xs.
#[export] Instance exchanged_preorder : PreOrder exchanged.
Proof.
  split.
  - intros log. exists []. by rewrite app_nil_r.
  - intros a b c (xs & -> & Hx) (ys & -> & Hy). exists (xs ++ ys). split; [by rewrite app_assoc|by apply Forall_app].
Qed.
(** A computation that only exchanges. *)
Definition talks {A} (m : Net A) : Prop := ∀ log log' r, m log = (log', r) → exchanged log log'.
Lemma talks_ret {A} (a : A) : talks (act_ret a).
Proof. by intros log log' r [= <- <-]. Qed.
Lemma talks_fail {A} (e : error) : talks (act_fail e : Net A).
Proof. by intros log log' r [= <- <-]. Qed.
Lemma talks_bind {A B} (m : Net A) (k : A → Net B) : talks m → (∀ a, talks (k a)) → talks (act_bind m k).
Proof.
  intros Hm Hk log log' r. unfold act_bind. destruct (m log) as [log1 [a|e]] eqn:E.
  - intros Hr. etrans; [by eapply Hm|by eapply Hk].
  - intros [= <- <-]. by eapply Hm.
Qed.
Create HintDb talks.
#[export] Hint Resolve talks_ret talks_fail : talks.
Ltac talks := repeat first [solve [auto with talks] | apply talks_bind; [|intros ?] | case_match].

(** The value last installed for a key. *)
Definition installs (ck : string) (acc : option (fetchSpec * Values * string)) (e : Event) : option (fetchSpec * Values * string) :=
  match e with EvInstalled k spec data lease => if bool_decide (k = ck) then Some (spec, data, lease) else acc | _ => acc end.
Definition last_installed (ck : string) (log : list Event) : option (fetchSpec * Values * string) := foldl (installs ck) None log.
Lemma last_installed_snoc ck log e : last_installed ck (log ++ [e]) = installs ck (last_installed ck log) e.
Proof. unfold last_installed. by rewrite foldl_app. Qed.
Lemma last_installed_exchanged ck log log' : exchanged log log' → last_installed ck log' = last_installed ck log.
Proof.
  intros (xs & -> & Hx). unfold last_installed. rewrite foldl_app. generalize (foldl (installs ck) None log). intros a.
  induction Hx as [|e xs He _ IH]; [done|]. cbn. by destruct e.
Qed.

Lemma last_installed_elem ck log spec data lease :
  last_installed ck log = Some (spec, data, lease) → EvInstalled ck spec data lease ∈ log.
Proof.
  induction log as [|x log IH] using rev_ind; [done|]. rewrite last_installed_snoc, elem_of_app. destruct x; cbn; [by auto| |by auto].
  case_bool_decide; [|by auto]. subst. intros [= -> -> ->]. right. by left.
Qed.

Section Client.
Context (server : list Event → Request → result error Payload) (has_cert : bool) (holds_cert : list ascii → bool).
Local Abbreviation readSpec := (readSpec server has_cert holds_cert).
Local Abbreviation Fetch := (Fetch server has_cert holds_cert).
Local Abbreviation attend := (attend server has_cert holds_cert).
Local Abbreviation release := (release server has_cert holds_cert).
Local Abbreviation reachable := (vault_reachable server has_cert holds_cert).

Lemma talks_do r : talks (vault_do server r).
Proof. intros log log' a [= <- <-]. exists [EvExchange r (server log r)]. by repeat constructor. Qed.
#[local] Hint Resolve talks_do : talks.
Lemma talks_authenticated store jwt method path ns body : talks (authenticated server has_cert holds_cert store jwt method path ns body).
Proof. unfold authenticated, httpClient, login, login_with. talks. Qed.
#[local] Hint Resolve talks_authenticated : talks.
Lemma talks_readSpec spec token : talks (readSpec spec token).
Proof. unfold Vault.readSpec, readDynamicRole, readStaticRole, vault_read. talks. Qed.
Lemma talks_renewLease store lease jwt : talks (renewLease server has_cert holds_cert store lease jwt).
Proof. unfold renewLease. talks. Qed.
Lemma talks_revokeLease store lease jwt : talks (revokeLease server has_cert holds_cert store lease jwt).
Proof. unfold revokeLease. talks. Qed.
Lemma release_log w log : ∃ log1 ok, exchanged log log1 ∧ release w log = log1 ++ [EvRelease (du_lease w) ok].
Proof.
  unfold Vault.release. destruct (revokeLease _ _ _ _ _ _ log) as [log1 r] eqn:E. eexists log1, _. split; [by eapply talks_revokeLease|done].
Qed.

(** ** The invariant *)
Definition held (lease : string) (c : gmap string vaultEntry) : Prop := ∃ ck e, c !! ck = Some e ∧ ve_leaseID e = lease.
Definition asked (lease : string) (log : list Event) : Prop := ∃ ok, EvRelease lease ok ∈ log.
Definition accounted (lease : string) (c : gmap string vaultEntry) (ev : list due) (log : list Event) : Prop :=
  held lease c ∨ lease ∈ du_lease <$> ev ∨ asked lease log.
Definition entry_ok (log : list Event) (ck : string) (e : vaultEntry) : Prop :=
  ck = cache_key (ve_spec e) ∧ last_installed ck log = Some (ve_spec e, ve_data e, ve_leaseID e).
Definition work_pending (c : gmap string vaultEntry) (w : due) : Prop :=
  ∃ e, c !! du_ck w = Some e ∧ ve_leaseID e = du_lease w ∧ ve_spec e = du_spec w.
Record vault_ok (s : vault_state) : Prop := mkVaultOk {
  vk_entries : ∀ ck e, vs_cache s !! ck = Some e → entry_ok (vs_log s) ck e;
  vk_work : Forall (work_pending (vs_cache s)) (vs_work s);
  vk_once : NoDup (du_ck <$> vs_work s);
  vk_leases : ∀ ck spec data lease, EvInstalled ck spec data lease ∈ vs_log s → lease ≠ "" →
    accounted lease (vs_cache s) (vs_evicted s) (vs_log s);
}.

Lemma exchanged_elem log log' e : exchanged log log' → ¬ is_exchange e → e ∈ log' ↔ e ∈ log.
Proof.
  intros (xs & -> & Hx) He. rewrite elem_of_app. split; [|by left]. intros [?|H]; [done|].
  rewrite Forall_forall in Hx. by destruct (He (Hx _ H)).
Qed.
(** The invariant speaks of the last value of each key and of what else is in the log. *)
Definition same_log (log log' : list Event) : Prop :=
  (∀ ck, last_installed ck log' = last_installed ck log) ∧ ∀ e, ¬ is_exchange e → e ∈ log' ↔ e ∈ log.
Lemma vault_ok_same c ev wk log log' : same_log log log' → vault_ok (mkVaultState c ev wk log) → vault_ok (mkVaultState c ev wk log').
Proof.
  intros [Hl He] [H1 H2 H3 H5]. split; cbn in *; [|done|done|].
  - intros ck e Hc. unfold entry_ok. rewrite Hl. by apply H1.
  - intros ck spec data lease. rewrite He by tauto. intros Hin Hne. destruct (H5 _ _ _ _ Hin Hne) as [?|[?|[ok Hok]]]; [by left|right; by left|].
    right; right. exists ok. by rewrite He by tauto.
Qed.
Lemma vault_ok_exchanged c ev wk log log' : exchanged log log' → vault_ok (mkVaultState c ev wk log) → vault_ok (mkVaultState c ev wk log').
Proof. intros Hx. apply vault_ok_same. split; [by intros ck; apply last_installed_exchanged|intros e He; by apply exchanged_elem]. Qed.
(** Entries may change in what the invariant does not speak of. *)
Definition alike (e e' : vaultEntry) : Prop := ve_spec e' = ve_spec e ∧ ve_data e' = ve_data e ∧ ve_leaseID e' = ve_leaseID e.
Lemma vault_ok_alike c ev wk log ck e e' :
  c !! ck = Some e → alike e e' → vault_ok (mkVaultState c ev wk log) → vault_ok (mkVaultState (<[ck := e']> c) ev wk log).
Proof.
  intros Hc (Hs & Hd & Hl) [H1 H2 H3 H5]. split; cbn in *; [| |done|].
  - intros k x. destruct (decide (ck = k)) as [<-|Hk]; [|rewrite lookup_insert_ne by done; apply H1].
    rewrite lookup_insert_eq. intros [= <-]. unfold entry_ok. rewrite Hs, Hd, Hl. by apply H1.
  - eapply Forall_impl; [exact H2|]. intros w (x & Hx & H). unfold work_pending. destruct (decide (ck = du_ck w)) as [->|Hk].
    + exists e'. rewrite lookup_insert_eq, Hs, Hl. assert (x = e) as -> by congruence. done.
    + exists x. by rewrite lookup_insert_ne.
  - intros k spec data lease Hin Hne. destruct (H5 k spec data lease Hin Hne) as [(k' & x & Hx & Hlx)|?]; [|by right]. left.
    destruct (decide (ck = k')) as [<-|Hk].
    + exists ck, e'. rewrite lookup_insert_eq, Hl. assert (x = e) as -> by congruence. done.
    + exists k', x. by rewrite lookup_insert_ne.
Qed.

(** ** The steps *)
Lemma readSpec_installed spec token log log' res ck :
  readSpec spec token log = (log', Ok res) → exchanged log log' ∧
  last_installed ck (log' ++ [EvInstalled ck spec (rr_data res) (rr_leaseID res)]) = Some (spec, rr_data res, rr_leaseID res).
Proof.
  intros Hr. split; [by eapply talks_readSpec|]. rewrite last_installed_snoc. cbn. by rewrite bool_decide_eq_true_2.
Qed.
Lemma elem_of_installed ck spec data lease log e :
  EvInstalled ck spec data lease ∈ log ++ [e] → EvInstalled ck spec data lease ∈ log ∨ e = EvInstalled ck spec data lease.
Proof. intros [?|?%list_elem_of_singleton]%elem_of_app; auto. Qed.
Lemma asked_snoc lease log e : asked lease log → asked lease (log ++ [e]).
Proof. intros [ok H]. exists ok. apply elem_of_app. by left. Qed.
Lemma accounted_snoc lease c ev log e : accounted lease c ev log → accounted lease c ev (log ++ [e]).
Proof. intros [?|[?|?]]; [by left|by right; left|right; right; by apply asked_snoc]. Qed.

(** A value stored for a key: the entry that was there, if any, has its lease asked for. *)
Lemma vault_ok_install c ev wk log ck spec data lease e :
  ck = cache_key spec → ve_spec e = spec → ve_data e = data → ve_leaseID e = lease →
  Forall (λ w, du_ck w ≠ ck) wk →
  (∀ old, c !! ck = Some old → ve_leaseID old ≠ "" → ve_leaseID old ≠ lease → asked (ve_leaseID old) log) →
  vault_ok (mkVaultState c ev wk log) →
  vault_ok (mkVaultState (<[ck := e]> c) ev wk (log ++ [EvInstalled ck spec data lease])).
Proof.
  intros Hck Hs Hd Hl Hwk Hold [H1 H2 H3 H5]. split; cbn in *; [| |done|].
  - intros k x. unfold entry_ok. rewrite last_installed_snoc. cbn. destruct (decide (ck = k)) as [<-|Hk].
    + rewrite lookup_insert_eq, bool_decide_eq_true_2 by done. intros [= <-]. by rewrite Hs, Hd, Hl.
    + rewrite lookup_insert_ne, bool_decide_eq_false_2 by done. apply H1.
  - rewrite Forall_forall in *. intros w Hw. destruct (H2 w Hw) as (x & Hx & H). exists x.
    rewrite lookup_insert_ne; [done|]. intros ->. by apply (Hwk w Hw).
  - intros k s d l' Hin Hne. destruct (decide (l' = lease)) as [->|Hnl]; [left; exists ck, e; by rewrite lookup_insert_eq|].
    apply elem_of_installed in Hin as [Hin|[= <- <- <- <-]]; [|done].
    destruct (H5 k s d l' Hin Hne) as [(k' & x & Hx & Hlx)|[?|?]]; [|right; by left|right; right; by apply asked_snoc].
    destruct (decide (ck = k')) as [<-|Hk]; [|left; exists k', x; by rewrite lookup_insert_ne].
    right; right. apply asked_snoc. rewrite <-Hlx. apply Hold; [done|by rewrite Hlx|by rewrite Hlx].
Qed.
Lemma vault_ok_release c ev wk log lease ok : vault_ok (mkVaultState c ev wk log) → vault_ok (mkVaultState c ev wk (log ++ [EvRelease lease ok])).
Proof.
  intros [H1 H2 H3 H5]. split; cbn in *; [|done|done|].
  - intros k x Hx. unfold entry_ok. rewrite last_installed_snoc. by apply H1.
  - intros k s d l' [?|?]%elem_of_installed Hne; [|done]. apply accounted_snoc. by eauto.
Qed.

Lemma serve_ok ck token now c ev wk log c' r :
  serve ck token now c = (c', r) → vault_ok (mkVaultState c ev wk log) →
  vault_ok (mkVaultState c' ev wk log) ∧ (r = None → c' = c ∧ c !! ck = None) ∧
  ∀ data, r = Some data → ∃ e, c !! ck = Some e ∧ ve_data e = data.
Proof.
  unfold serve. destruct (c !! ck) as [e|] eqn:He; intros [= <- <-] Hok; [|done].
  split; [by eapply vault_ok_alike|]. split; [done|]. intros data [= <-]. eauto.
Qed.
Lemma resolveFetch_key sec stores spec ck :
  resolveFetch sec stores = Ok (spec, ck) → ck = cache_key spec ∧ fs_store spec ∈ stores ∧
  ss_Namespace (fs_store spec) = om_Namespace (sec_meta sec) ∧ ss_Name (fs_store spec) = annotation sec AnnExternalSecretStore.
Proof.
  unfold resolveFetch. repeat case_match; try done. intros [= <- <-].
  match goal with H : List.find _ _ = Some _ |- _ => apply List.find_some in H as [Hin H]; cbn end.
  apply list_elem_of_In in Hin. bools. by destruct_and!.
Qed.
Lemma Fetch_ok sec stores token now now' c log c' log' r ev wk :
  Fetch sec stores token now now' (c, log) = ((c', log'), r) → vault_ok (mkVaultState c ev wk log) →
  vault_ok (mkVaultState c' ev wk log') ∧
  ∀ data, r = Ok data → ∃ spec ck spec' lease, resolveFetch sec stores = Ok (spec, ck) ∧ last_installed ck log' = Some (spec', data, lease) ∧
    ck = cache_key spec'.
Proof.
  unfold Vault.Fetch. destruct (resolveFetch sec stores) as [[spec ck]|e] eqn:Hf; [|by intros [= <- <- <-]].
  destruct (resolveFetch_key _ _ _ _ Hf) as (Hck & _). cbn [fst snd]. destruct (serve ck token now c) as [c1 [data|]] eqn:Es; intros Hr Hok;
    destruct (serve_ok _ _ _ _ _ _ _ _ _ Es Hok) as (Hok' & Hnone & Hsome).
  - injection Hr as <- <- <-. split; [done|]. intros d [= <-]. destruct (Hsome data eq_refl) as (e & He & <-).
    destruct (vk_entries _ Hok ck e He) as [Hk Hl]. by exists spec, ck, (ve_spec e), (ve_leaseID e).
  - destruct (Hnone eq_refl) as [-> Hn]. destruct (readSpec spec token log) as [log1 [res|e]] eqn:Er.
    + destruct (readSpec_installed _ _ _ _ _ ck Er) as (Hx & Hlast). injection Hr as <- <- <-. split.
      * apply vault_ok_install; try done; [|congruence|by eapply vault_ok_exchanged].
        pose proof (vk_work _ Hok) as Hwk. cbn in Hwk. eapply Forall_impl; [exact Hwk|]. intros w (x & Hx' & _) <-. congruence.
      * intros data [= <-]. exists spec, ck, spec, (rr_leaseID res). by rewrite Hlast.
    + injection Hr as <- <- <-. split; [|done]. eapply vault_ok_exchanged; [by eapply talks_readSpec|done].
Qed.

Lemma due_ck (P : string * vaultEntry → Prop) `{!∀ x, Decision (P x)} (l : list (string * vaultEntry)) :
  NoDup l.*1 → NoDup (du_ck <$> (due_of <$> filter P l)).
Proof.
  rewrite <-list_fmap_compose. induction l as [|x l IH]; [done|]. rewrite fmap_cons. intros [Hn Hl]%NoDup_cons.
  rewrite filter_cons. case_decide; [|by apply IH]. rewrite fmap_cons. apply NoDup_cons. split; [|by apply IH]. intros Hin. apply Hn.
  apply list_elem_of_fmap in Hin as (y & E & [_ Hy]%list_elem_of_filter). cbn in E. rewrite E. by apply list_elem_of_fmap_2.
Qed.
Lemma collect_ok now c c' ev wk log :
  collect now c = (c', ev, wk) → vault_ok (mkVaultState c [] [] log) → vault_ok (mkVaultState c' ev wk log).
Proof.
  unfold collect. intros [= <- <- <-] [H1 _ _ H5]. split; cbn in *; [| | |].
  - intros ck e [He _]%map_lookup_filter_Some. by apply H1.
  - apply Forall_fmap, Forall_forall. intros [ck e] [[Hi _] Hin]%list_elem_of_filter. apply elem_of_map_to_list in Hin.
    exists e. split; [|done]. by apply map_lookup_filter_Some.
  - apply due_ck, NoDup_fst_map_to_list.
  - intros k spec data lease Hin Hne. destruct (H5 k spec data lease Hin Hne) as [(ck & e & He & Hl)|[[]%elem_of_nil|?]]; [|right; by right].
    destruct (idle now e) eqn:Hi; [right; left|left; exists ck, e; split; [by apply map_lookup_filter_Some|done]].
    apply list_elem_of_fmap. exists (due_of (ck, e)). split; [done|]. apply list_elem_of_fmap_2, list_elem_of_filter.
    split; [|by apply elem_of_map_to_list]. cbn. by rewrite Hl.
Qed.
Lemma release_ok w c ev wk log :
  vault_ok (mkVaultState c (w :: ev) wk log) → vault_ok (mkVaultState c ev wk (release w log)).
Proof.
  intros Hok. destruct (release_log w log) as (log1 & ok & Hx & ->). apply (vault_ok_exchanged _ _ _ _ _ Hx) in Hok.
  apply (vault_ok_release _ _ _ _ (du_lease w) ok) in Hok. destruct Hok as [H1 H2 H3 H5]. split; cbn in *; [done..|].
  intros k spec data lease Hin Hne. destruct (H5 k spec data lease Hin Hne) as [?|[[->|?]%elem_of_cons|?]]; [by left| |right; by left|right; by right].
  right; right. exists ok. apply elem_of_app. right. by left.
Qed.

(** A value due is attended to. *)
Lemma work_done c w wk log : vault_ok (mkVaultState c [] (w :: wk) log) →
  vault_ok (mkVaultState c [] wk log) ∧ work_pending c w ∧ Forall (λ x, du_ck x ≠ du_ck w) wk.
Proof.
  intros [H1 H2 H3 H5]. cbn in *. apply Forall_cons in H2 as [Hw H2]. apply NoDup_cons in H3 as [Hn H3].
  split; [by split|]. split; [done|]. apply Forall_forall. intros x Hx E. apply Hn. rewrite <-E. by apply list_elem_of_fmap_2.
Qed.
Lemma reinstall_ok c wk log w res e now :
  c !! du_ck w = Some e → ve_leaseID e = du_lease w → ve_spec e = du_spec w → Forall (λ x, du_ck x ≠ du_ck w) wk →
  vault_ok (mkVaultState c [] wk log) →
  let log1 := log ++ [EvInstalled (du_ck w) (du_spec w) (rr_data res) (rr_leaseID res)] in
  vault_ok (mkVaultState (settle (du_ck w) now res true c) [] wk
    (if negb (bool_decide (du_lease w = "")) && negb (bool_decide (du_lease w = rr_leaseID res)) then release w log1 else log1)).
Proof.
  intros He Hl Hs Hwk Hok log1. unfold settle. rewrite He. destruct (vk_entries _ Hok _ _ He) as [Hk _]. rewrite Hs in Hk.
  destruct (_ && _) eqn:E.
  - destruct (release_log w log1) as (log2 & ok & Hx & ->).
    apply (vault_ok_same _ _ _ ((log ++ [EvRelease (du_lease w) ok]) ++ [EvInstalled (du_ck w) (du_spec w) (rr_data res) (rr_leaseID res)])).
    + destruct Hx as (xs & -> & Hxs). unfold log1. split.
      * intros ck. rewrite !last_installed_snoc. cbn. rewrite (last_installed_exchanged ck _ _ (ex_intro _ xs (conj eq_refl Hxs))).
        by rewrite !last_installed_snoc.
      * intros x Hx. rewrite !elem_of_app. rewrite Forall_forall in Hxs. specialize (Hxs x). tauto.
    + apply vault_ok_install; try done; [|by apply vault_ok_release]. intros old Ho _ _. assert (old = e) as -> by congruence.
      rewrite Hl. exists ok. apply elem_of_app. right. by left.
  - apply vault_ok_install; try done. intros old Ho Hne Hnl. assert (old = e) as -> by congruence. rewrite Hl in Hne, Hnl.
    rewrite !bool_decide_eq_false_2 in E by done. done.
Qed.
Lemma attend_ok now w wk c log c' log' :
  attend w now (c, log) = (c', log') → vault_ok (mkVaultState c [] (w :: wk) log) → vault_ok (mkVaultState c' [] wk log').
Proof.
  intros Ha (Hok & (e & He & Hl & Hs) & Hwk)%work_done. unfold Vault.attend in Ha. cbn [fst snd] in Ha.
  assert (∀ log1 c1 log2, exchanged log log1 → reread server has_cert holds_cert w now c log1 = (c1, log2) → vault_ok (mkVaultState c1 [] wk log2)) as Hre.
  { intros log1 c1 log2 Hx. unfold reread. destruct (readSpec (du_spec w) (du_token w) log1) as [log3 [res|err]] eqn:Er; intros [= <- <-].
    - destruct (readSpec_installed _ _ _ _ _ (du_ck w) Er) as (Hx3 & _). eapply reinstall_ok; try done.
      eapply vault_ok_exchanged; [|done]. by etrans.
    - unfold fail. rewrite He. eapply vault_ok_alike; [done|done|]. eapply vault_ok_exchanged; [|done]. etrans; [done|by eapply talks_readSpec]. }
  destruct (_ && _); [|by eapply Hre].
  destruct (renewLease _ _ _ _ _ _ log) as [log1 [[lease renewable]|err]] eqn:Er; [|by eapply Hre; [eapply talks_renewLease|]].
  injection Ha as <- <-. unfold settle. rewrite He. eapply vault_ok_alike; [done|by split|].
  eapply vault_ok_exchanged; [by eapply talks_renewLease|done].
Qed.

Lemma reachable_ok s : reachable s → vault_ok s.
Proof.
  intros H. unfold vault_reachable in H. revert s H. apply (rtc_ind_r vault_ok vault_start).
  - split; cbn; [done|constructor|constructor|by intros ? ? ? ? ?%elem_of_nil].
  - intros s1 s2 _ Hstep Hok. destruct Hstep as [sec stores token now now' c log c' log' r ev wk Hf|now c c' ev wk log Hc|w ev wk c log|now w wk c log c' log' Ha].
    + by eapply Fetch_ok.
    + by eapply collect_ok.
    + by apply release_ok.
    + by eapply attend_ok.
Qed.

(** ** What the log shows *)
(** The request that reads a specification, and the values its answer holds. *)
Definition kv_url (store : SecretStore) (path : string) : string :=
  trim slash (if bool_decide (sss_Mount (ss_Spec store) = "") then "secret" else sss_Mount (ss_Spec store)) +:+
  (if sss_KVVersion (ss_Spec store) =? 1 then "" else "/data") +:+ "/" +:+ path.
Definition role_answer (spec : fetchSpec) (kind role : string) (r : Request) (p : Payload) (raw : Values) : Prop :=
  ∃ ref, ParseEngineRole role = Ok ref ∧ rq_URL r = base_url (fs_store spec) +:+ er_Mount ref +:+ kind +:+ er_Role ref ∧
    raw !! CredentialUsername = Some (String.list_ascii_of_string (py_Username p)) ∧
    raw !! CredentialPassword = Some (String.list_ascii_of_string (py_Password p)) ∧ dom raw = {[CredentialUsername; CredentialPassword]}.
Definition answers_spec (spec : fetchSpec) (r : Request) (p : Payload) (raw : Values) : Prop :=
  rq_Method r = "GET" ∧ rq_Namespace r = sss_VaultNamespace (ss_Spec (fs_store spec)) ∧
  if bool_decide (fs_dynamicRole spec = "") then
    if bool_decide (fs_staticRole spec = "") then
      rq_URL r = base_url (fs_store spec) +:+ kv_url (fs_store spec) (fs_path spec) ∧
      (if sss_KVVersion (ss_Spec (fs_store spec)) =? 1 then py_KV1 p else py_KV2 p) = Ok raw
    else role_answer spec "/static-creds/" (fs_staticRole spec) r p raw
  else role_answer spec "/creds/" (fs_dynamicRole spec) r p raw.
(** The log ends with the answer the data was taken from. *)
Definition read_from (log : list Event) (spec : fetchSpec) (data : Values) : Prop :=
  ∃ r p raw, last log = Some (EvExchange r (Ok p)) ∧ answers_spec spec r p raw ∧ filterKeys raw (fs_keys spec) = Ok data.
Definition was_read (log : list Event) (ck : string) (spec : fetchSpec) (data : Values) (lease : string) : Prop :=
  ∃ log1 rest, log = log1 ++ EvInstalled ck spec data lease :: rest ∧ read_from log1 spec data.
Definition revoke_sent (log : list Event) (lease : string) : Prop :=
  ∃ r p, EvExchange r (Ok p) ∈ log ∧ rq_Method r = "PUT" ∧ rq_Body r = [("lease_id", lease)] ∧
    ∃ store, rq_URL r = base_url store +:+ "sys/leases/revoke".
Record log_ok (log : list Event) : Prop := mkLogOk {
  lk_read : ∀ ck spec data lease, EvInstalled ck spec data lease ∈ log → was_read log ck spec data lease;
  lk_confirmed : ∀ lease, EvRelease lease true ∈ log → revoke_sent log lease;
}.

Lemma act_bind_Ok {A B} (m : Net A) (k : A → Net B) log log' b :
  act_bind m k log = (log', Ok b) → ∃ log1 a, m log = (log1, Ok a) ∧ k a log1 = (log', Ok b).
Proof. unfold act_bind. destruct (m log) as [log1 [a|e]]; [eauto|done]. Qed.
Lemma authenticated_last store jwt method path ns body log log' p :
  authenticated server has_cert holds_cert store jwt method path ns body log = (log', Ok p) →
  ∃ r, last log' = Some (EvExchange r (Ok p)) ∧ rq_Method r = method ∧ rq_URL r = base_url store +:+ path ∧ rq_Namespace r = ns ∧ rq_Body r = body.
Proof.
  unfold authenticated. intros (log1 & _ & _ & H)%act_bind_Ok. apply act_bind_Ok in H as (log2 & token & _ & H).
  unfold vault_do in H. injection H as <- Ha. eexists. rewrite last_snoc. split; [by rewrite Ha|done].
Qed.
Lemma role_answer_credential spec kind role ref r p :
  ParseEngineRole role = Ok ref → rq_URL r = base_url (fs_store spec) +:+ er_Mount ref +:+ kind +:+ er_Role ref →
  role_answer spec kind role r p (credential p).
Proof.
  intros Hp Hu. exists ref. split; [done|]. split; [done|]. unfold credential. split; [by rewrite lookup_union_l, lookup_singleton_eq|].
  split; [by rewrite lookup_union_r, lookup_singleton_eq|]. by rewrite dom_union_L, !dom_singleton_L.
Qed.
Lemma readSpec_from spec token log log' res : readSpec spec token log = (log', Ok res) → read_from log' spec (rr_data res).
Proof.
  unfold Vault.readSpec. intros (log1 & [raw rr] & Hx & Hf)%act_bind_Ok. cbn [fst snd] in Hf.
  destruct (filterKeys raw (fs_keys spec)) as [data|] eqn:Ek; [|done]. injection Hf as <- <-. cbn [rr_data].
  assert (∃ r p, last log1 = Some (EvExchange r (Ok p)) ∧ answers_spec spec r p raw) as (r & p & Hl & Ha); [|by exists r, p, raw].
  unfold answers_spec. case_bool_decide as Hd; cbn [negb] in Hx; [case_bool_decide as Hs; cbn [negb] in Hx|].
  - apply act_bind_Ok in Hx as (log2 & v & Hv & [= <- <- <-]). unfold vault_read in Hv. apply act_bind_Ok in Hv as (log3 & p & Hp & Hv).
    apply authenticated_last in Hp as (r & Hl & Hm & Hu & Hn & _). exists r, p.
    assert (log3 = log2 ∧ (if sss_KVVersion (ss_Spec (fs_store spec)) =? 1 then py_KV1 p else py_KV2 p) = Ok v) as [-> Hpv]
      by (destruct (sss_KVVersion (ss_Spec (fs_store spec)) =? 1); cbn in Hv |- *; case_match; by injection Hv as -> ->).
    split; [done|]. split; [done|]. split; [done|]. split; [|done]. rewrite Hu. unfold kv_url.
    by destruct (sss_KVVersion (ss_Spec (fs_store spec)) =? 1).
  - apply act_bind_Ok in Hx as (log2 & v & Hv & [= <- <- <-]). unfold readStaticRole in Hv.
    destruct (ParseEngineRole (fs_staticRole spec)) as [ref|] eqn:Er; [|done]. apply act_bind_Ok in Hv as (log3 & p & Hp & Hv).
    destruct (no_credential p); [done|]. injection Hv as -> <-. apply authenticated_last in Hp as (r & Hl & Hm & Hu & Hn & _).
    exists r, p. split; [done|]. split; [done|]. split; [done|]. eapply role_answer_credential; [done|]. by rewrite Hu.
  - unfold readDynamicRole in Hx. destruct (ParseEngineRole (fs_dynamicRole spec)) as [ref|] eqn:Er; [|done].
    apply act_bind_Ok in Hx as (log3 & p & Hp & Hv). destruct (no_credential p); [done|]. case_bool_decide; [done|]. injection Hv as -> <- _.
    apply authenticated_last in Hp as (r & Hl & Hm & Hu & Hn & _).
    exists r, p. split; [done|]. split; [done|]. split; [done|]. eapply role_answer_credential; [done|]. by rewrite Hu.
Qed.

(** The log grows. *)
Lemma was_read_app log xs ck spec data lease : was_read log ck spec data lease → was_read (log ++ xs) ck spec data lease.
Proof. intros (l1 & rest & -> & H). exists l1, (rest ++ xs). by rewrite <-app_assoc. Qed.
Lemma revoke_sent_app log xs lease : revoke_sent log lease → revoke_sent (log ++ xs) lease.
Proof. intros (r & p & Hin & H). exists r, p. split; [|done]. apply elem_of_app. by left. Qed.
Lemma log_ok_app log xs :
  log_ok log → (∀ ck spec data lease, EvInstalled ck spec data lease ∈ xs → was_read (log ++ xs) ck spec data lease) →
  (∀ lease, EvRelease lease true ∈ xs → revoke_sent (log ++ xs) lease) → log_ok (log ++ xs).
Proof.
  intros [H1 H2] Hi Hr. split.
  - intros ck spec data lease [Hin|Hin]%elem_of_app; [by apply was_read_app, H1|by apply Hi].
  - intros lease [Hin|Hin]%elem_of_app; [by apply revoke_sent_app, H2|by apply Hr].
Qed.
Lemma log_ok_exchanged log log' : exchanged log log' → log_ok log → log_ok log'.
Proof. intros (xs & -> & Hx) Hl. rewrite Forall_forall in Hx. apply log_ok_app; [done|..]; intros * Hin; by apply Hx in Hin. Qed.
Lemma log_ok_install spec token log log' res ck :
  readSpec spec token log = (log', Ok res) → log_ok log → log_ok (log' ++ [EvInstalled ck spec (rr_data res) (rr_leaseID res)]).
Proof.
  intros Hr Hl. apply log_ok_app; [by eapply log_ok_exchanged; [eapply talks_readSpec|]| |].
  - intros k s d l [= -> -> -> ->]%list_elem_of_singleton. exists log', []. split; [done|]. by eapply readSpec_from.
  - by intros l ?%list_elem_of_singleton.
Qed.
Lemma log_ok_release w log : log_ok log → log_ok (release w log).
Proof.
  intros Hl. unfold Vault.release. destruct (revokeLease _ _ _ _ _ _ log) as [log1 r] eqn:E.
  apply log_ok_app; [by eapply log_ok_exchanged; [eapply talks_revokeLease|]|by intros * ?%list_elem_of_singleton|].
  intros lease [= -> Hr]%list_elem_of_singleton. destruct r as [[]|e]; [|done]. unfold revokeLease in E.
  apply act_bind_Ok in E as (log2 & p & Hp & [= ->]). apply authenticated_last in Hp as (q & Hlast & Hm & Hu & _ & Hb).
  apply revoke_sent_app. exists q, p. split; [by apply last_Some_elem_of|]. split; [done|]. split; [done|]. by eexists.
Qed.
Lemma step_log_ok s s' : vault_step server has_cert holds_cert s s' → log_ok (vs_log s) → log_ok (vs_log s').
Proof.
  assert (∀ w now c log, log_ok log → log_ok (reread server has_cert holds_cert w now c log).2) as Hre.
  { intros w now c log Hl. unfold reread. destruct (readSpec _ _ log) as [log1 [res|e]] eqn:E; cbn; [|by eapply log_ok_exchanged; [eapply talks_readSpec|]].
    apply (log_ok_install _ _ _ _ _ (du_ck w)) in E; [|done]. destruct (_ && _); [by apply log_ok_release|done]. }
  destruct 1 as [sec stores token now now' c log c' log' r ev wk Hf|now c c' ev wk log Hc|w ev wk c log|now w wk c log c' log' Ha]; cbn; intros Hl;
    [|done|by apply log_ok_release|].
  - unfold Vault.Fetch in Hf. destruct (resolveFetch sec stores) as [[spec ck]|]; [|by injection Hf as <- <- <-]. cbn [fst snd] in Hf.
    destruct (serve _ _ _ _) as [c1 [d|]]; [by injection Hf as <- <- <-|]. destruct (readSpec spec token log) as [log1 [res|e]] eqn:E.
    + injection Hf as <- <- <-. by eapply log_ok_install.
    + injection Hf as <- <- <-. by eapply log_ok_exchanged; [eapply talks_readSpec|].
  - unfold Vault.attend in Ha. cbn [fst snd] in Ha. destruct (_ && _); [|apply (f_equal snd) in Ha; cbn [snd] in Ha; rewrite <-Ha; by apply Hre].
    destruct (renewLease _ _ _ _ _ _ log) as [log1 [[lease ren]|e]] eqn:E.
    + injection Ha as <- <-. by eapply log_ok_exchanged; [eapply talks_renewLease|].
    + apply (f_equal snd) in Ha; cbn [snd] in Ha. rewrite <-Ha. apply Hre. by eapply log_ok_exchanged; [eapply talks_renewLease|].
Qed.
Lemma reachable_log_ok s : reachable s → log_ok (vs_log s).
Proof.
  intros H. unfold vault_reachable in H. revert s H. apply (rtc_ind_r (λ s, log_ok (vs_log s)) vault_start).
  - split; by intros * ?%elem_of_nil.
  - intros s1 s2 _ Hstep. by apply step_log_ok.
Qed.

(** ** The properties *)
Definition no_nul (s : string) : Prop := GoStrings.no_char "000" s = true.
(** As far as neither has a NUL byte, the two lists are the same. *)
Definition agree (p q : list string) : Prop := ∀ n, Forall no_nul (take n p) → Forall no_nul (take n q) → take n p = take n q.
Lemma join_agree p q : length p = length q → GoStrings.join (String "000" "") p = GoStrings.join (String "000" "") q → agree p q.
Proof.
  revert q. induction p as [|a p IH]; intros [|b q] Hl E; try done. intros [|n]; [done|]. cbn in Hl |- *.
  intros [Ha Hp]%Forall_cons [Hb Hq]%Forall_cons. destruct p as [|a' p], q as [|b' q]; try done; [cbn in E; by rewrite E|].
  change (a +:+ String "000" (GoStrings.join (String "000" "") (a' :: p)) = b +:+ String "000" (GoStrings.join (String "000" "") (b' :: q))) in E.
  apply (f_equal (GoStrings.cut "000")) in E. rewrite !GoStrings.cut_app in E by done. injection E as -> E.
  f_equal. apply IH; [cbn in *; lia|done|done|done].
Qed.
(** What was read, and what a secret asks of a store. *)
Definition read_parts (s : fetchSpec) : list string :=
  [ss_Namespace (fs_store s); ss_Name (fs_store s); sss_Server (ss_Spec (fs_store s)); sss_Mount (ss_Spec (fs_store s));
   fs_path s; fs_staticRole s; fs_dynamicRole s; fs_keys s].
Definition asked_parts (sec : Secret) (st : SecretStore) : list string :=
  [om_Namespace (sec_meta sec); annotation sec AnnExternalSecretStore; sss_Server (ss_Spec st); sss_Mount (ss_Spec st);
   trim slash (annotation sec AnnExternalSecretPath); GoStrings.TrimSpace (annotation sec AnnExternalSecretStaticRole);
   GoStrings.TrimSpace (annotation sec AnnExternalSecretDynamicRole); annotation sec AnnExternalSecretKeys].
(** The data is what was last read for what the secret asks for. *)
Definition value_for (sec : Secret) (stores : list SecretStore) (log : list Event) (data : Values) : Prop :=
  ∃ st ck spec lease, st ∈ stores ∧ ss_Namespace st = om_Namespace (sec_meta sec) ∧ ss_Name st = annotation sec AnnExternalSecretStore ∧
    last_installed ck log = Some (spec, data, lease) ∧ was_read log ck spec data lease ∧ agree (read_parts spec) (asked_parts sec st).
Lemma resolveFetch_parts sec stores spec ck : resolveFetch sec stores = Ok (spec, ck) → read_parts spec = asked_parts sec (fs_store spec).
Proof.
  intros H. destruct (resolveFetch_key _ _ _ _ H) as (_ & _ & Hn & Hs). unfold read_parts, asked_parts. rewrite Hn, Hs.
  unfold resolveFetch in H. repeat case_match; try done. by injection H as <- _.
Qed.
Lemma Fetch_value s sec stores token now now' c' log' data :
  reachable s → Fetch sec stores token now now' (vs_cache s, vs_log s) = ((c', log'), Ok data) →
  value_for sec stores log' data ∧ reachable (mkVaultState c' (vs_evicted s) (vs_work s) log').
Proof.
  intros Hr Hf. destruct s as [c ev wk log]. cbn [vs_cache vs_log vs_evicted vs_work] in *.
  assert (reachable (mkVaultState c' ev wk log')) as Hr' by (eapply rtc_r; [exact Hr|by eapply VFetch]). split; [|done].
  destruct (Fetch_ok _ _ _ _ _ _ _ _ _ _ _ _ Hf (reachable_ok _ Hr)) as [_ H].
  destruct (H data eq_refl) as (spec0 & ck & spec & lease & Hrf & Hlast & Hck). exists (fs_store spec0), ck, spec, lease.
  destruct (resolveFetch_key _ _ _ _ Hrf) as (Hck0 & Hin & Hns & Hnm). split; [done|]. split; [done|]. split; [done|]. split; [done|].
  split; [by apply (lk_read _ (reachable_log_ok _ Hr')), last_installed_elem|].
  rewrite <-(resolveFetch_parts _ _ _ _ Hrf). apply join_agree; [done|]. change (cache_key spec = cache_key spec0). congruence.
Qed.


(** C37: no lease is forgotten: in every reachable state the lease of every value the node ever
    installed is held in the cache, waiting to be released, or a release of it was attempted;
    an attempt that counts as confirmed was a revocation request for this lease the server
    answered. *)
Theorem leases_accounted s ck spec data lease :
  reachable s → EvInstalled ck spec data lease ∈ vs_log s → lease ≠ "" →
  (∃ k e, vs_cache s !! k = Some e ∧ ve_leaseID e = lease) ∨ lease ∈ du_lease <$> vs_evicted s ∨
  ∃ ok, EvRelease lease ok ∈ vs_log s ∧ (ok = true → revoke_sent (vs_log s) lease).
Proof.
  intros Hr Hin Hne. destruct (vk_leases _ (reachable_ok _ Hr) _ _ _ _ Hin Hne) as [?|[?|[ok Hok]]]; [by left|right; by left|].
  right; right. exists ok. split; [done|]. intros ->. by apply (lk_confirmed _ (reachable_log_ok _ Hr)).
Qed.
End Client.

(** ** Vault clients at work

    A server that issues a new credential, with a lease of a day, at every request. *)
Module VaultDemo.
#[local] Open Scope Z_scope.
Definition meta (namespace name : string) (ann : gmap string string) : ObjectMeta := mkObjectMeta namespace name "" "" 0 ∅ ann 0 None [] [].
Definition store (vaultNamespace : string) : SecretStore :=
  mkSecretStore (meta "red" "vault" ∅) (mkSecretStoreSpec "" "https://vault" "kv" 2 vaultNamespace [] (mkSecretStoreAuth AuthMethodKubernetes "" "")).
Definition dynamic (keys : string) : Secret :=
  mkSecret (meta "red" "db" (<[AnnExternalSecretStore := "vault"]> (<[AnnExternalSecretDynamicRole := "database/app"]>
    (<[AnnExternalSecretKeys := keys]> ∅)))) None SecretTypeVault ∅ ∅.
Definition server (log : list Event) (r : Request) : result error Payload :=
  let id := GoStrings.itoa (Z.of_nat (length log)) in
  Ok (mkPayload "t" ("lease-" +:+ id) 86400 true ("user-" +:+ id) "secret" 0 (Ok ∅) (Ok ∅)).
Definition fetch (sec : Secret) (st : SecretStore) (token : string) (now : Z) (s : gmap string vaultEntry * list Event) :=
  Fetch server false (λ _, true) sec [st] token now now s.
Definition fetched : gmap string vaultEntry * list Event := (fetch (dynamic "") (store "") "jwt" 0 (∅, [])).1.
Definition served_state : vault_state := mkVaultState fetched.1 [] [] fetched.2.
Lemma served_reachable : vault_reachable server false (λ _, true) served_state.
Proof.
  unfold served_state, fetched. destruct (fetch (dynamic "") (store "") "jwt" 0 (∅, [])) as [[c log] r] eqn:E.
  apply rtc_once, (VFetch _ _ _ (dynamic "") [store ""] "jwt" 0 0 ∅ [] c log r [] []). exact E.
Qed.
Definition username (r : result error (gmap string (list ascii))) : option string :=
  match r with Ok d => String.string_of_list_ascii <$> d !! CredentialUsername | Err _ => None end.

Example consumers_share_credential :
  username (fetch (dynamic "") (store "") "jwt" 0 (∅, [])).2 = Some "user-1" ∧
  username (fetch (dynamic "") (store "") "other jwt" 7 fetched).2 = Some "user-1" ∧
  length (fetch (dynamic "") (store "") "other jwt" 7 fetched).1.2 = length fetched.2.
Proof. vm_compute. auto. Qed.

(** A day later nobody has asked for the value: its lease is collected, then released. *)
Definition collected : vault_state :=
  let '(c, ev, wk) := collect (86400 * second) fetched.1 in mkVaultState c ev wk fetched.2.
Lemma leases_accounted_witness :
  du_lease <$> vs_evicted collected = ["lease-1"] ∧
  ((∃ k e, vs_cache collected !! k = Some e ∧ ve_leaseID e = "lease-1") ∨ "lease-1" ∈ du_lease <$> vs_evicted collected ∨
   ∃ ok, EvRelease "lease-1" ok ∈ vs_log collected ∧ (ok = true → revoke_sent (vs_log collected) "lease-1")).
Proof.
  split; [vm_compute; reflexivity|].
  assert (omap (λ e, match e with EvInstalled _ _ _ lease => Some lease | _ => None end) fetched.2 = ["lease-1"]) as Hom by (vm_compute; reflexivity).
  assert ("lease-1" ∈ omap (λ e, match e with EvInstalled _ _ _ lease => Some lease | _ => None end) fetched.2) as Hin by (rewrite Hom; left).
  apply list_elem_of_omap in Hin as ([|ck spec data lease|] & Hin & E); [discriminate E| |discriminate E]. injection E as ->.
  apply (leases_accounted server false (λ _, true) collected ck spec data "lease-1").
  - eapply rtc_r; [apply served_reachable|]. unfold served_state, collected. destruct (collect (86400 * second) fetched.1) as [[c ev] wk] eqn:Ec.
    by apply (VCollect _ _ _ (86400 * second)).
  - assert (vs_log collected = fetched.2) as -> by (unfold collected; by destruct (collect _ _) as [[? ?] ?]). exact Hin.
  - discriminate.
Defined.

(** The deadline of the only value is two thirds of its lease away, 16 hours: the refresher
    sleeps past the quarter of an hour after which a value nobody uses is to be released. *)
Example idle_lease_kept : nextDeadline fetched.1 = Some (57600 * second) ∧ idleEvict < 57600 * second.
Proof. vm_compute. auto. Qed.

(** A key the credential does not have: every attempt creates a user and forgets its lease. *)
Example bad_keys_mint_users :
  let '(s1, r1) := fetch (dynamic "user") (store "") "jwt" 0 (∅, []) in
  let '(s2, r2) := fetch (dynamic "user") (store "") "jwt" 30 s1 in
  r1 = Err "key not found at the store path" ∧ r2 = Err "key not found at the store path" ∧
  omap (λ e, match e with EvExchange r (Ok p) => if bool_decide (rq_Method r = "GET") then Some (py_LeaseID p) else None | _ => None end) s2.2 =
    ["lease-1"; "lease-3"] ∧
  nextDeadline s2.1 = None.
Proof. vm_compute. auto. Qed.

(** A change of the store that its address and mount do not show is not seen while the value is
    in use: the value of the old namespace is served, and no request is made. *)
Example store_change_unseen :
  username (fetch (dynamic "") (store "prod") "jwt" 7 fetched).2 = Some "user-1" ∧
  length (fetch (dynamic "") (store "prod") "jwt" 7 fetched).1.2 = length fetched.2 ∧
  sss_VaultNamespace (ss_Spec (store "prod")) ≠ sss_VaultNamespace (ss_Spec (store "")).
Proof. split; [vm_compute; reflexivity|]. split; [vm_compute; reflexivity|discriminate]. Qed.
End VaultDemo.
