(* ===== verification/SecretsPort.v ===== *)
(** * The secrets of a workload (agent/secret/secret.go)

    The mounts and the environment of an application, resolved from the secrets the controller
    pushed and, for external ones, from the Vault client.  The state is the client's and the
    record of stale applications; a pass runs at one moment [now]. *)
From stdpp Require Import gmap strings list.
From Stdlib Require Import ZArith Ascii.
From S2P Require Import Prelude Resources Paths CoreV1 ApiObjects Authz Guards DesiredState Workload InodeFS Vault.
#[local] Open Scope Z_scope.

Inductive SecretsErr :=
| SeText (text : string)
| SeEnv (e : EnvError)
| SeIn (what : string) (e : SecretsErr).

Definition TokenFile : string := "token".
Definition CAFile : string := "ca.crt".
Definition NamespaceFile : string := "namespace".

Definition secret_id (s : Secret) : string := WorkloadID (om_Namespace (sec_meta s)) (om_Name (sec_meta s)).
(** A later secret of the same id replaces an earlier one. *)
Definition index (pushed : list Secret) : gmap string Secret := foldl (λ m s, <[secret_id s := s]> m) ∅ pushed.

Fixpoint project_items (data : Values) (items : list KeyToPath) (optional : bool) (content : Values) : result SecretsErr Values :=
  match items with
  | [] => Ok content
  | it :: items =>
      match data !! ktp_Key it with
      | Some v => project_items data items optional (<[ktp_Path it := v]> content)
      | None => if optional then project_items data items optional content else Err (SeText "key not found")
      end
  end.
Definition project (data : Values) (items : list KeyToPath) (optional : bool) : result SecretsErr Values :=
  match items with [] => Ok data | _ => project_items data items optional ∅ end.

Record controllerStore := mkControllerStore { cs_stale : gmap string Z; cs_vault : gmap string vaultEntry * list Event }.
Definition SM (A : Type) : Type := Act controllerStore SecretsErr A.

Section Store.
Context {HQ : Quantity}.
Context (server : list Event → Request → result error Payload) (has_cert : bool) (holds_cert : list ascii → bool).
(** Whether the node has a client, its certificate's name, the CA it trusts, the time. *)
Context (has_vault : bool) (cn : string) (ca : list ascii) (now : Z).

Definition Token (app : App) (audience : string) : string := default "" (wa_Tokens app !! audience).
Definition VaultToken (app : App) : string := Token app TokenAudienceVault.

Definition ownWorkload (app : App) : option SecretsErr :=
  if bool_decide (cn = "") then Some (SeText "never bound to a node identity")
  else if bool_decide (wa_Node app = "") then Some (SeText "it names no node")
  else if negb (bool_decide (wa_Node app = cn)) then Some (SeText "not this agent's identity")
  else None.

Definition resolveData (sec : Secret) (stores : list SecretStore) (token : string) : SM Values := λ s,
  if negb (bool_decide (sec_Type sec = SecretTypeVault)) then (s, Ok (sec_Data sec))
  else if negb has_vault then (s, Err (SeText "needs a vault client this node does not have"))
  else match Fetch server has_cert holds_cert sec stores token now now (cs_vault s) with
       | (v, Ok d) => (mkControllerStore (cs_stale s) v, Ok d)
       | (v, Err e) => (mkControllerStore (cs_stale s) v, Err (SeText e))
       end.

Definition noteStaleness (app : App) (sec : Secret) (stores : list SecretStore) : SM unit := λ s,
  if negb has_vault || negb (bool_decide (sec_Type sec = SecretTypeVault)) then (s, Ok tt)
  else match StaleFor sec stores now (cs_vault s).1 with
       | Some d =>
           match cs_stale s !! wa_UID app with
           | Some cur => if cur <? d then (mkControllerStore (<[wa_UID app := d]> (cs_stale s)) (cs_vault s), Ok tt) else (s, Ok tt)
           | None => (mkControllerStore (<[wa_UID app := d]> (cs_stale s)) (cs_vault s), Ok tt)
           end
       | None => (mkControllerStore (delete (wa_UID app) (cs_stale s)) (cs_vault s), Ok tt)
       end.
Definition StaleApps (s : controllerStore) : gmap string Z := cs_stale s.

Definition secret_volume (m : VolumeMount) (content : Values) : Volume := mkVolume VolumeSecret "" (vm_MountPath m) "" "" true content.
Definition token_content (app : App) (token : string) : Values :=
  let content := <[TokenFile := String.list_ascii_of_string token]> (<[NamespaceFile := String.list_ascii_of_string (wa_Namespace app)]> ∅) in
  match ca with [] => content | _ => <[CAFile := ca]> content end.
Definition tokenVolumes (app : App) : list Volume :=
  omap (λ m, if negb (IsToken m) then None
             else let token := Token app (TokenAudience m) in
                  if bool_decide (token = "") then None else Some (secret_volume m (token_content app token))) (wa_Volumes app).

(** One mount of the loop of [Materialize]. *)
Definition materialize_mount (app : App) (byID : gmap string Secret) (stores : list SecretStore) (m : VolumeMount) : SM (option Volume) :=
  if negb (IsSecret m) then act_ret None
  else
    let optional := default false (vs_Optional (vm_Volume m)) in
    let name := vs_Name (vm_Volume m) in
    match byID !! WorkloadID (wa_Namespace app) name with
    | None => if optional then act_ret None else act_fail (SeText "secret not available")
    | Some sec =>
        do! noteStaleness app sec stores in
        let! data := act_try (resolveData sec stores (VaultToken app)) in
        match data with
        | Err e => if optional then act_ret None else act_fail (SeIn name e)
        | Ok data =>
            match project data (vs_Items (vm_Volume m)) optional with
            | Err e => act_fail (SeIn name e)
            | Ok content => if bool_decide (content = ∅) then act_ret None else act_ret (Some (secret_volume m content))
            end
        end
    end%go.
Fixpoint materialize_mounts (app : App) (byID : gmap string Secret) (stores : list SecretStore) (ms : list VolumeMount) : SM (list Volume) :=
  match ms with
  | [] => act_ret []
  | m :: ms =>
      let! v := materialize_mount app byID stores m in
      let! vs := materialize_mounts app byID stores ms in
      act_ret (match v with Some v => v :: vs | None => vs end)
  end%go.
Definition Materialize (app : App) (pushed : list Secret) (stores : list SecretStore) : SM (list Volume) :=
  match ownWorkload app with
  | Some e => act_fail e
  | None =>
      let! out := materialize_mounts app (index pushed) stores (wa_Volumes app) in
      act_ret (out ++ tokenVolumes app)
  end%go.

(** ** The environment *)
(** The names taken and the entries so far. *)
Definition Env : Type := gset string * list string.
Definition env_add (name value : string) (x : Env) : result SecretsErr Env :=
  match ValidEnvName name "env name" with
  | Some e => Err (SeEnv e)
  | None =>
      match ValidEnvValue name value with
      | Some e => Err (SeEnv e)
      | None => if bool_decide (name ∈ x.1) then Err (SeText "already set by another entry")
                else Ok ({[name]} ∪ x.1, x.2 ++ [name +:+ "=" +:+ value])
      end
  end.
Definition sorted_keys (data : Values) : list string := sort_stable String.ltb (map_to_list data).*1.
Definition value_text (data : Values) (key : string) : string := String.string_of_list_ascii (default [] (data !! key)).
Fixpoint add_keys (what prefix : string) (data : Values) (keys : list string) (x : Env) : result SecretsErr Env :=
  match keys with
  | [] => Ok x
  | key :: keys =>
      match env_add (prefix +:+ key) (value_text data key) x with
      | Err e => Err (SeIn what e)
      | Ok x => add_keys what prefix data keys x
      end
  end.
(** One reference; an entry without one would be a nil pointer. *)
Definition env_ref (app : App) (byID : gmap string Secret) (stores : list SecretStore) (v : EnvVar) (x : Env) : SM Env :=
  match ev_SecretRef v with
  | None => act_fail (SeText "nil pointer")
  | Some ref =>
      match byID !! WorkloadID (wa_Namespace app) (esr_Name ref) with
      | None => if IsOptional ref then act_ret x else act_fail (SeText "secret not available")
      | Some sec =>
          let! data := act_try (resolveData sec stores (VaultToken app)) in
          match data with
          | Err e => if IsOptional ref then act_ret x else act_fail (SeIn (esr_Name ref) e)
          | Ok data =>
              if IsWildcard ref then
                match add_keys (esr_Name ref) (esr_Prefix ref) data (sorted_keys data) x with Ok x => act_ret x | Err e => act_fail e end
              else match data !! esr_Key ref with
                   | None => if IsOptional ref then act_ret x else act_fail (SeIn (esr_Name ref) (SeText "key not found"))
                   | Some value =>
                       match env_add (ev_Name v) (String.string_of_list_ascii value) x with
                       | Ok x => act_ret x
                       | Err e => act_fail (SeIn (esr_Name ref) e)
                       end
                   end
          end
      end
  end%go.
Fixpoint env_refs (app : App) (byID : gmap string Secret) (stores : list SecretStore) (refs : list EnvVar) (x : Env) : SM Env :=
  match refs with
  | [] => act_ret x
  | v :: refs => let! x := env_ref app byID stores v x in env_refs app byID stores refs x
  end%go.
Definition literal_names (env : list string) : gset string := list_to_set (omap (λ e, fst <$> GoStrings.cut "=" e) env).
Definition MaterializeEnv (app : App) (pushed : list Secret) (stores : list SecretStore) : SM (list string) :=
  match wa_EnvRefs app with
  | [] => act_ret []
  | refs =>
      match ownWorkload app with
      | Some e => act_fail e
      | None =>
          let! x := env_refs app (index pushed) stores refs (literal_names (wa_Env app), []) in
          act_ret x.2
      end
  end%go.
End Store.
