(* ===== verification/SecretsTheorems.v ===== *)
(** * What a workload is given

    Only the agent of the node an application is placed on unseals anything for it
    ([secrets_owed]): every file mounted is a value of a secret of the id the mount names, or
    the application's own token, and a secret the application needs is there or the application
    is not started.  [env_faithful]: the environment, likewise, each name once.  A fresh secret
    hides a stale one of the same application ([fresh_hides_stale]). *)
From stdpp Require Import gmap strings list.
From Stdlib Require Import ZArith Ascii.
From S2P Require Import Prelude Resources Paths CoreV1 ApiObjects Authz Guards DesiredState Workload InodeFS Vault SecretsPort VaultTheorems.
#[local] Open Scope Z_scope.

Lemma index_elem pushed id s : index pushed !! id = Some s → s ∈ pushed ∧ secret_id s = id.
Proof.
  unfold index. induction pushed as [|x pushed IH] using rev_ind; [done|]. rewrite foldl_app. cbn.
  destruct (decide (secret_id x = id)) as [<-|Hne].
  - rewrite lookup_insert_eq. intros [= <-]. split; [apply elem_of_app; right; by left|done].
  - rewrite lookup_insert_ne by done. intros [? ?]%IH. split; [apply elem_of_app; by left|done].
Qed.
(** Every file is a value of the data, at its key or where an item puts it. *)
Definition value_projected (data : Values) (items : list KeyToPath) (path : string) (v : list ascii) : Prop :=
  (items = [] ∧ data !! path = Some v) ∨ ∃ it, it ∈ items ∧ ktp_Path it = path ∧ data !! ktp_Key it = Some v.
Lemma project_items_spec data items optional content content' :
  project_items data items optional content = Ok content' →
  ∀ path v, content' !! path = Some v → content !! path = Some v ∨ ∃ it, it ∈ items ∧ ktp_Path it = path ∧ data !! ktp_Key it = Some v.
Proof.
  revert content. induction items as [|it items IH]; intros content; cbn; [intros [= <-]; by left|].
  destruct (data !! ktp_Key it) as [w|] eqn:Hw.
  - intros H path v Hv. destruct (IH _ H path v Hv) as [Hc|(it' & ? & ? & ?)]; [|right; exists it'; set_solver].
    destruct (decide (ktp_Path it = path)) as [<-|Hne].
    + rewrite lookup_insert_eq in Hc. injection Hc as <-. right. exists it. set_solver.
    + rewrite lookup_insert_ne in Hc by done. by left.
  - destruct optional; [|done]. intros H path v Hv. destruct (IH _ H path v Hv) as [?|(it' & ? & ? & ?)]; [by left|right; exists it'; set_solver].
Qed.
Lemma project_files data items optional content path v :
  project data items optional = Ok content → content !! path = Some v → value_projected data items path v.
Proof.
  unfold project, value_projected. destruct items as [|it items]; [intros [= <-]; by left|].
  intros H Hv. right. by destruct (project_items_spec _ _ _ _ _ H path v Hv).
Qed.

Section Store.
Context {HQ : Quantity}.
Context (server : list Event → Request → result error Payload) (has_cert : bool) (holds_cert : list ascii → bool).
Context (has_vault : bool) (cn : string) (ca : list ascii) (now : Z).
Local Abbreviation resolveData := (resolveData server has_cert holds_cert has_vault now).
Local Abbreviation materialize_mount := (materialize_mount server has_cert holds_cert has_vault now).
Local Abbreviation materialize_mounts := (materialize_mounts server has_cert holds_cert has_vault now).
Local Abbreviation Materialize := (Materialize server has_cert holds_cert has_vault cn ca now).
Local Abbreviation env_ref := (env_ref server has_cert holds_cert has_vault now).
Local Abbreviation env_refs := (env_refs server has_cert holds_cert has_vault now).
Local Abbreviation MaterializeEnv := (MaterializeEnv server has_cert holds_cert has_vault cn now).

(** The client's state is one it can come to. *)
Definition client_reachable (s : controllerStore) : Prop :=
  ∃ ev wk, vault_reachable server has_cert holds_cert (mkVaultState (cs_vault s).1 ev wk (cs_vault s).2).
Definition client_log (s : controllerStore) : list Event := (cs_vault s).2.
(** The value of a secret: its own data, or what the client last read for it. *)
Definition secret_value (sec : Secret) (stores : list SecretStore) (log : list Event) (data : Values) : Prop :=
  if bool_decide (sec_Type sec = SecretTypeVault) then ∃ log0, log0 `prefix_of` log ∧ value_for sec stores log0 data
  else data = sec_Data sec.
Definition unsealed (app : App) (pushed : list Secret) (stores : list SecretStore) (log : list Event) (name : string) (data : Values) : Prop :=
  ∃ sec, sec ∈ pushed ∧ secret_id sec = WorkloadID (wa_Namespace app) name ∧ secret_value sec stores log data.
Lemma unsealed_mono app pushed stores log log' name data :
  log `prefix_of` log' → unsealed app pushed stores log name data → unsealed app pushed stores log' name data.
Proof.
  intros Hl (sec & Hin & Hid & Hv). exists sec. split; [done|]. split; [done|]. unfold secret_value in *. case_bool_decide; [|done].
  destruct Hv as (log0 & Hp & Hv). exists log0. split; [by etrans|done].
Qed.
(** The client goes on from [s] to [s']. *)
Definition goes_on (s s' : controllerStore) : Prop := client_reachable s → client_reachable s' ∧ client_log s `prefix_of` client_log s'.
#[local] Instance goes_on_preorder : PreOrder goes_on.
Proof.
  split; [by intros s Hr|]. intros a b c Hab Hbc Ha. destruct (Hab Ha) as [Hb ?]. destruct (Hbc Hb) as [? ?]. split; [done|by etrans].
Qed.
Lemma Fetch_log sec stores token c log c' log' r :
  Fetch server has_cert holds_cert sec stores token now now (c, log) = ((c', log'), r) → log `prefix_of` log'.
Proof.
  unfold Fetch. destruct (resolveFetch sec stores) as [[spec ck]|]; [|by intros [= <- <- <-]]. cbn [fst snd].
  destruct (serve _ _ _ _) as [c1 [d|]]; [by intros [= <- <- <-]|]. destruct (readSpec _ _ _ spec token log) as [log1 [res|e]] eqn:E;
    apply talks_readSpec in E as (xs & -> & _); intros [= <- <- <-]; [rewrite <-app_assoc|]; by eexists.
Qed.
Lemma resolveData_spec sec stores token s s' r :
  resolveData sec stores token s = (s', r) →
  goes_on s s' ∧ (client_reachable s → ∀ data, r = Ok data → secret_value sec stores (client_log s') data).
Proof.
  unfold SecretsPort.resolveData, secret_value. case_bool_decide as Ht; cbn [negb]; [|by intros [= <- <-]; split; [|intros _ data [= <-]]].
  destruct has_vault; cbn [negb]; [|by intros [= <- <-]]. destruct s as [stale [c log]]. cbn [cs_vault cs_stale].
  destruct (Fetch _ _ _ _ _ _ _ _ (c, log)) as [[c' log'] x] eqn:E. pose proof (Fetch_log _ _ _ _ _ _ _ _ E) as Hp. intros H.
  assert (s' = mkControllerStore stale (c', log')) as -> by (destruct x; by injection H). split.
  - intros (ev & wk & Hr). split; [|done]. exists ev, wk. cbn. eapply rtc_r; [exact Hr|by eapply VFetch].
  - intros (ev & wk & Hr) data ->. destruct x as [d|e]; [|done]. injection H as <-. exists log'. split; [done|].
    by destruct (Fetch_value _ _ _ _ _ _ _ _ _ _ _ _ Hr E).
Qed.
Lemma noteStaleness_goes_on app sec stores s s' r :
  noteStaleness has_vault now app sec stores s = (s', r) → goes_on s s'.
Proof.
  intros H. assert (cs_vault s' = cs_vault s) as E by (unfold noteStaleness in H; repeat case_match; by injection H as <- _).
  intros (ev & wk & Hr). unfold client_reachable, client_log. rewrite E. eauto.
Qed.

Definition secret_mounted (app : App) (pushed : list Secret) (stores : list SecretStore) (log : list Event) (m : VolumeMount) (v : Volume) : Prop :=
  IsSecret m = true ∧ ∃ data content, unsealed app pushed stores log (vs_Name (vm_Volume m)) data ∧ v = secret_volume m content ∧ content ≠ ∅ ∧
    project data (vs_Items (vm_Volume m)) (default false (vs_Optional (vm_Volume m))) = Ok content.
(** The secret of a mount that is not optional is there, with every key it lists. *)
Definition secret_there (app : App) (pushed : list Secret) (stores : list SecretStore) (log : list Event) (vols : list Volume) (m : VolumeMount) : Prop :=
  ∃ data content, unsealed app pushed stores log (vs_Name (vm_Volume m)) data ∧ project data (vs_Items (vm_Volume m)) false = Ok content ∧
    (content ≠ ∅ → secret_volume m content ∈ vols).
Lemma ownWorkload_None app : ownWorkload cn app = None → cn ≠ "" ∧ wa_Node app = cn.
Proof. unfold ownWorkload. repeat case_bool_decide; cbn; try done. Qed.

(** One mount: what comes out, and what must have been there. *)
Lemma materialize_mount_spec app pushed stores m s s' r :
  client_reachable s → materialize_mount app (index pushed) stores m s = (s', Ok r) →
  goes_on s s' ∧ (∀ v, r = Some v → secret_mounted app pushed stores (client_log s') m v) ∧
  (IsSecret m = true → default false (vs_Optional (vm_Volume m)) = false →
    secret_there app pushed stores (client_log s') (match r with Some v => [v] | None => [] end) m).
Proof.
  intros Hcl. unfold SecretsPort.materialize_mount. destruct (IsSecret m) eqn:Hm; cbn [negb]; [|by intros [= <- <-]].
  destruct (index pushed !! _) as [sec|] eqn:Hi.
  2: { destruct (default false _); [|done]. by intros [= <- <-]. }
  apply index_elem in Hi as [Hin Hid]. unfold act_bind. destruct (noteStaleness _ _ _ _ _ s) as [s1 [[]|e]] eqn:En; [|done].
  apply noteStaleness_goes_on in En. destruct (En Hcl) as [Hc1 _]. unfold act_try.
  destruct (resolveData sec stores (VaultToken app) s1) as [s2 x] eqn:Hd. apply resolveData_spec in Hd as [Hgo Hval].
  assert (goes_on s s2) as Hgo2 by (by etrans). destruct x as [data|e].
  2: { destruct (default false _); [|done]. by intros [= <- <-]. }
  destruct (project _ _ _) as [content|e] eqn:Hp; [|done].
  assert (unsealed app pushed stores (client_log s2) (vs_Name (vm_Volume m)) data) as Hu by (exists sec; auto).
  assert (∀ vols, (content ≠ ∅ → secret_volume m content ∈ vols) → default false (vs_Optional (vm_Volume m)) = false →
    secret_there app pushed stores (client_log s2) vols m) as Hth.
  { intros vols Hc Ho. rewrite Ho in Hp. by exists data, content. }
  destruct (bool_decide_reflect (content = ∅)) as [He|Hne]; intros [= <- <-]; (split; [done|]); (split; [|intros _; apply Hth]).
  - done.
  - done.
  - intros v [= <-]. split; [done|]. eauto 10.
  - by left.
Qed.
Lemma materialize_mounts_spec app pushed stores ms s s' vols :
  client_reachable s → materialize_mounts app (index pushed) stores ms s = (s', Ok vols) →
  goes_on s s' ∧ (∀ v, v ∈ vols → ∃ m, m ∈ ms ∧ secret_mounted app pushed stores (client_log s') m v) ∧
  (∀ m, m ∈ ms → IsSecret m = true → default false (vs_Optional (vm_Volume m)) = false → secret_there app pushed stores (client_log s') vols m).
Proof.
  revert s vols. induction ms as [|m ms IH]; intros s vols Hcl; cbn.
  { intros [= <- <-]. split; [done|]. split; [by intros v ?%elem_of_nil|by intros m ?%elem_of_nil]. }
  unfold act_bind. destruct (materialize_mount _ _ _ _ s) as [s1 [r|e]] eqn:E1; [|done].
  destruct (materialize_mounts _ _ _ _ s1) as [s2 [vs|e]] eqn:E2; [|done]. intros [= <- <-].
  destruct (materialize_mount_spec _ _ _ _ _ _ _ Hcl E1) as (Hg1 & Hv & Hm). destruct (Hg1 Hcl) as [Hc1 _].
  destruct (IH _ _ Hc1 E2) as (Hg2 & Hvs & Hms). destruct (Hg2 Hc1) as [_ Hpre].
  split; [by etrans|]. split.
  - intros v Hin. assert (r = Some v ∨ v ∈ vs) as [->|Hin'] by (destruct r; [apply elem_of_cons in Hin as [->|?]; auto|auto]).
    + exists m. split; [left|]. destruct (Hv v eq_refl) as (Hs & data & content & Hu & Hrest). split; [done|]. exists data, content.
      split; [by eapply unsealed_mono|done].
    + destruct (Hvs v Hin') as (m' & ? & ?). exists m'. split; [by right|done].
  - intros m' [->|Hin]%elem_of_cons Hs Ho.
    + destruct (Hm Hs Ho) as (data & content & Hu & Hp & Hc). exists data, content. split; [by eapply unsealed_mono|]. split; [done|].
      intros Hne. specialize (Hc Hne). destruct r as [v|]; [|by apply elem_of_nil in Hc]. apply list_elem_of_singleton in Hc as <-. left.
    + destruct (Hms m' Hin Hs Ho) as (data & content & ? & ? & Hc). exists data, content. split; [done|]. split; [done|].
      intros Hne. destruct r; [right|]; auto.
Qed.


(** ** The environment *)
Definition entry_text (p : string * string) : string := p.1 +:+ "=" +:+ p.2.
(** The entries so far, over the names of the literal ones. *)
Definition env_state (lits : gset string) (pairs : list (string * string)) (x : Env) : Prop :=
  x.1 = lits ∪ list_to_set pairs.*1 ∧ x.2 = entry_text <$> pairs ∧ NoDup pairs.*1 ∧
  Forall (λ p, p.1 ∉ lits ∧ ValidEnvName p.1 "env name" = None ∧ ValidEnvValue p.1 p.2 = None) pairs.
Lemma env_add_spec lits pairs x x' name value :
  env_add name value x = Ok x' → env_state lits pairs x → env_state lits (pairs ++ [(name, value)]) x'.
Proof.
  unfold env_add, env_state. destruct (ValidEnvName name _) eqn:Hn; [done|]. destruct (ValidEnvValue name value) eqn:Hv; [done|].
  case_bool_decide as Hin; [done|]. intros [= <-] (H1 & H2 & H3 & H4). cbn. rewrite H1 in *. rewrite H2, !fmap_app. cbn.
  split; [rewrite list_to_set_app_L; set_solver|]. split; [done|]. split.
  - apply NoDup_app. split; [done|]. split; [|apply NoDup_singleton]. intros y Hy ->%list_elem_of_singleton. apply Hin, elem_of_union. right. by apply elem_of_list_to_set.
  - apply Forall_app. split; [done|]. rewrite Forall_singleton. cbn. split; [set_solver|done].
Qed.
Lemma add_keys_spec lits what prefix data keys pairs x x' :
  add_keys what prefix data keys x = Ok x' → env_state lits pairs x →
  env_state lits (pairs ++ ((λ k, (prefix +:+ k, value_text data k)) <$> keys)) x'.
Proof.
  revert pairs x. induction keys as [|k keys IH]; intros pairs x; cbn; [intros [= <-]; by rewrite app_nil_r|].
  destruct (env_add _ _ x) as [x1|e] eqn:E; [|done]. intros Hk Hs. rewrite cons_middle, app_assoc. eapply IH; [exact Hk|by eapply env_add_spec].
Qed.

(** What one reference stands for: nothing, if optional; one key; or all of them, sorted. *)
Definition stands_for (app : App) (pushed : list Secret) (stores : list SecretStore) (log : list Event) (v : EnvVar) (pairs : list (string * string)) : Prop :=
  ∃ ref, ev_SecretRef v = Some ref ∧
    ((pairs = [] ∧ IsOptional ref = true) ∨
     ∃ data, unsealed app pushed stores log (esr_Name ref) data ∧
       ((IsWildcard ref = true ∧ pairs = (λ k, (esr_Prefix ref +:+ k, value_text data k)) <$> sorted_keys data) ∨
        (IsWildcard ref = false ∧ is_Some (data !! esr_Key ref) ∧ pairs = [(ev_Name v, value_text data (esr_Key ref))]))).
Lemma stands_for_mono app pushed stores log log' v pairs :
  log `prefix_of` log' → stands_for app pushed stores log v pairs → stands_for app pushed stores log' v pairs.
Proof.
  intros Hl (ref & Hr & [?|(data & Hu & H)]); exists ref; (split; [done|]); [by left|right]. exists data. split; [by eapply unsealed_mono|done].
Qed.
Lemma env_ref_spec app pushed stores v lits pairs x s s' x' :
  client_reachable s → env_ref app (index pushed) stores v x s = (s', Ok x') → env_state lits pairs x →
  goes_on s s' ∧ ∃ new, stands_for app pushed stores (client_log s') v new ∧ env_state lits (pairs ++ new) x'.
Proof.
  intros Hcl. unfold SecretsPort.env_ref. destruct (ev_SecretRef v) as [ref|] eqn:Href; [|done].
  assert (∀ x0 s0, goes_on s s0 → IsOptional ref = true → env_state lits pairs x0 →
    goes_on s s0 ∧ ∃ new, stands_for app pushed stores (client_log s0) v new ∧ env_state lits (pairs ++ new) x0) as Hopt.
  { intros x0 s0 Hg Ho Hx. split; [done|]. exists []. rewrite app_nil_r. split; [|done]. exists ref. auto. }
  destruct (index pushed !! _) as [sec|] eqn:Hi; [|destruct (IsOptional ref) eqn:Ho; [intros [= <- <-]; by apply Hopt|done]].
  apply index_elem in Hi as [Hin Hid]. unfold act_bind, act_try.
  destruct (resolveData sec stores (VaultToken app) s) as [s1 y] eqn:Hd. apply resolveData_spec in Hd as [Hgo Hval].
  destruct y as [data|e]; [|destruct (IsOptional ref) eqn:Ho; [intros [= <- <-]; by apply Hopt|done]].
  assert (unsealed app pushed stores (client_log s1) (esr_Name ref) data) as Hu by (exists sec; auto). destruct (IsWildcard ref) eqn:Hw.
  - destruct (add_keys _ _ _ _ x) as [x1|e] eqn:Hk; [|done]. intros [= <- <-] Hx. split; [done|]. eexists. split; [|by eapply add_keys_spec].
    exists ref. split; [done|]. right. exists data. split; [done|]. by left.
  - destruct (data !! esr_Key ref) as [val|] eqn:Hv; [|destruct (IsOptional ref) eqn:Ho; [intros [= <- <-]; by apply Hopt|done]].
    destruct (env_add _ _ x) as [x1|e] eqn:Ha; [|done]. intros [= <- <-] Hx. split; [done|]. eexists. split; [|by eapply env_add_spec].
    exists ref. split; [done|]. right. exists data. split; [done|]. right. split; [done|]. split; [by rewrite Hv|].
    unfold value_text. by rewrite Hv.
Qed.
Lemma env_refs_spec app pushed stores refs lits pairs x s s' x' :
  client_reachable s → env_refs app (index pushed) stores refs x s = (s', Ok x') → env_state lits pairs x →
  goes_on s s' ∧ ∃ news, Forall2 (stands_for app pushed stores (client_log s')) refs news ∧ env_state lits (pairs ++ concat news) x'.
Proof.
  revert pairs x s. induction refs as [|v refs IH]; intros pairs x s Hcl; cbn.
  { intros [= <- <-] Hx. split; [done|]. exists []. cbn. rewrite app_nil_r. split; [constructor|done]. }
  unfold act_bind. destruct (env_ref _ _ _ _ x s) as [s1 [x1|e]] eqn:E; [|done]. intros Hr Hx.
  destruct (env_ref_spec _ _ _ _ _ _ _ _ _ _ Hcl E Hx) as (Hg1 & new & Hn & Hx1). destruct (Hg1 Hcl) as [Hc1 _].
  destruct (IH _ _ _ Hc1 Hr Hx1) as (Hg2 & news & Hns & Hx2). split; [by etrans|].
  exists (new :: news). cbn. rewrite app_assoc. split; [|done]. constructor; [|done]. eapply stands_for_mono; [|done]. by apply Hg2.
Qed.

(** The environment a workload is given is that of its references in their order, each standing
    for the value of the key it names or, in key order, for all of them; an optional one may
    stand for nothing.  No name comes twice or shadows a literal entry, and every name and value
    is one a process can be given. *)
Theorem env_faithful app pushed stores s s' out :
  client_reachable s → MaterializeEnv app pushed stores s = (s', Ok out) → wa_EnvRefs app ≠ [] →
  wa_Node app = cn ∧ ∃ news, let pairs := concat news in
    Forall2 (stands_for app pushed stores (client_log s')) (wa_EnvRefs app) news ∧ out = entry_text <$> pairs ∧ NoDup pairs.*1 ∧
    Forall (λ p, p.1 ∉ literal_names (wa_Env app) ∧ ValidEnvName p.1 "env name" = None ∧ ValidEnvValue p.1 p.2 = None) pairs.
Proof.
  unfold SecretsPort.MaterializeEnv. destruct (wa_EnvRefs app) as [|v refs] eqn:Er; [done|]. intros Hcl H _.
  destruct (ownWorkload cn app) as [e|] eqn:Ho; [done|]. apply ownWorkload_None in Ho as [_ Hnode]. split; [done|].
  unfold act_bind in H. destruct (env_refs _ _ _ _ _ s) as [s1 [x|e]] eqn:E; [|done]. injection H as <- <-.
  destruct (env_refs_spec app pushed stores (v :: refs) (literal_names (wa_Env app)) [] _ s s1 x Hcl E) as (_ & news & Hn & _ & H2 & H3 & H4); [|by exists news].
  split; [cbn; set_solver|]. split; [done|]. split; [constructor|constructor].
Qed.
End Store.

(** ** A workload's secrets *)
Module SecretsDemo.
Import NanoQuantity.
#[local] Open Scope Z_scope.
Definition opaque : Secret := mkSecret (VaultDemo.meta "red" "db" ∅) None SecretTypeOpaque {["password" := ["x"]%char]} ∅.
Definition mount (name : string) : VolumeMount :=
  mkVolumeMount (mkVolumeSource VolumeTypeSecret name q_zero [] None None "") "/etc/db" true "".
Definition token_mount : VolumeMount := mkVolumeMount (mkVolumeSource VolumeTypeToken "" q_zero [] None None "") "/var/token" true "".
Definition app (mounts : list VolumeMount) (refs : list EnvVar) : App :=
  mkApp "u1" "web" "red" 1 "n1" "img" [] [] ra_zero ra_zero ["MODE=dev"] refs [] (mkLifecycle "" None None None) 0 false None mounts
    {[TokenAudienceAPI := "jwt"]} true "" "" 0.
Definition empty_store : controllerStore := mkControllerStore ∅ (∅, []).
Definition materialize (a : App) (s : controllerStore) (pushed : list Secret) : controllerStore * result SecretsErr (list Volume) :=
  Materialize VaultDemo.server false (λ _, true) true "n1" [] (20 * minute) a pushed [VaultDemo.store ""] s.

Lemma empty_reachable : client_reachable VaultDemo.server false (λ _, true) empty_store.
Proof. exists [], []. apply rtc_refl. Qed.

(** The environment of two references, one of them to every key of the secret. *)
Definition refs : list EnvVar :=
  [mkEnvVar "DB" "" (Some (mkEnvSecretRef "db" "password" "" None)); mkEnvVar "" "" (Some (mkEnvSecretRef "db" EnvSecretAllKeys "ALL_" None))].
Lemma env_faithful_witness :
  (MaterializeEnv VaultDemo.server false (λ _, true) true "n1" 0 (app [] refs) [opaque] [] empty_store).2 = Ok ["DB=x"; "ALL_password=x"] ∧
  wa_Node (app [] refs) = "n1".
Proof.
  assert ((MaterializeEnv VaultDemo.server false (λ _, true) true "n1" 0 (app [] refs) [opaque] [] empty_store).2 = Ok ["DB=x"; "ALL_password=x"]) as H
    by (vm_compute; reflexivity).
  split; [exact H|]. destruct (MaterializeEnv _ _ _ _ _ _ _ _ _ _) as [s' r] eqn:E. cbn in H. subst r.
  eapply (env_faithful VaultDemo.server false (λ _, true) true "n1" [] 0 (app [] refs) [opaque] [] empty_store s'); [exact empty_reachable|exact E|discriminate].
Defined.
(** A name set twice is refused, and so is one a literal entry has. *)
Example name_twice_refused :
  (MaterializeEnv VaultDemo.server false (λ _, true) true "n1" 0 (app [] [mkEnvVar "MODE" "" (Some (mkEnvSecretRef "db" "password" "" None))]) [opaque] [] empty_store).2 =
  Err (SeIn "db" (SeText "already set by another entry")).
Proof. vm_compute. reflexivity. Qed.

(** ** A stale secret *)
(** Two external secrets of one application; the first could not be refreshed for ten minutes. *)
Definition external (name path : string) : Secret :=
  mkSecret (VaultDemo.meta "red" name (<[AnnExternalSecretStore := "vault"]> (<[AnnExternalSecretPath := path]> ∅))) None SecretTypeVault ∅ ∅.
Definition entry_of (path : string) (staleSince : option Z) : vaultEntry :=
  mkVaultEntry {["k" := ["v"]%char]} 0 0 (mkFetchSpec (VaultDemo.store "") path "" "" "") "" 0 "" false staleSince.
Definition key_of (path : string) : string := cache_key (mkFetchSpec (VaultDemo.store "") path "" "" "").
Definition aged : controllerStore :=
  mkControllerStore ∅ (<[key_of "a" := entry_of "a" (Some (10 * minute))]> (<[key_of "b" := entry_of "b" None]> ∅), []).
Example fresh_hides_stale :
  StaleApps (materialize (app [mount "a"] []) aged [external "a" "a"; external "b" "b"]).1 !! "u1" = Some (10 * minute) ∧
  StaleApps (materialize (app [mount "b"; mount "a"] []) aged [external "a" "a"; external "b" "b"]).1 !! "u1" = Some (10 * minute) ∧
  StaleApps (materialize (app [mount "a"; mount "b"] []) aged [external "a" "a"; external "b" "b"]).1 !! "u1" = None.
Proof. vm_compute. auto. Qed.
End SecretsDemo.
